(* ===== verification/_CoqProject ===== *)
-Q . S2P
Prelude.v
GoStrings.v
Utf8.v
SqlUtil.v
PublicID.v
Cache.v
RateLimit.v
GoValues.v
Trace.v
Patterns.v
WfConfig.v
SqlParams.v
Numbers.v
Params.v
Expr.v
Compile.v
Executor.v
Handler.v
WfValidate.v
DbText.v
Db.v
Pools.v
Metrics.v
Health.v
Adapters.v
Middleware.v
TmplEngine.v
ConfigLoad.v
CfgValidate.v
Mux.v
Logging.v
ServerInit.v
Openapi.v
Admin.v
Cron.v
TmplFuncs.v
TmplNum.v
Encoding.v
TmplIds.v
Program.v
PromMetrics.v
WfFuncs.v
WinService.v
Live.v
Counted.v
Goroutines.v
CacheConc.v
RateConc.v
DbConc.v
Turns.v
Parallel.v
Rounds.v
Recorded.v
Answered.v
