(* ===== verification/Prelude.v ===== *)
(** * sql-proxy: a verification development

    sql-proxy is a server that answers HTTP requests and cron ticks by running
    workflows: sequences of SQL statements, HTTP calls and responses that a YAML
    file describes.  This development models its Go code (src/main.go and
    src/internal/) and proves what makes it correct.  This header says which file
    models what, how the parts fit together, what the theorems show and what is
    left out.

    ** How the program works, and where each part is modelled

    A run of the program is [Program.main]: the flags, then
    [ConfigLoad.Load], then -validate ([CfgValidate.Run]) or [Program.Run], which
    validates, starts a server ([ServerInit.New], [Cron.Start]) and stops it on a
    signal ([Cron.Shutdown]).  [ServerInit.New] connects the databases
    ([Db.NewManager]), makes the response cache ([Cache]), the template engine with
    the encoder of public ids ([TmplEngine], [PublicID]), the rate limiter
    ([RateLimit]) and the metrics ([Metrics]), validates and compiles every workflow
    ([WfValidate], [Compile]) and registers the routes on the mux ([Mux]).  A request
    passes the middleware ([Middleware]) and reaches [Handler.ServeHTTP], which checks
    parameters ([Params]), limits and the trigger cache ([Adapters]) and runs
    [Executor.Execute]; that evaluates conditions ([Expr]), binds SQL parameters
    ([SqlParams]) and calls a database through its driver ([Db]), another server, or
    the response writer.  Jobs of the scheduler ([Cron]) run workflows the same way.
    In the background the health checker ([Health]) pings and reconnects databases,
    and under /_/ the administration endpoints ([Admin]) read and change the server.
    The components are defined on interfaces; [Live] fills those of the executor and of
    the handler with the adapters, the manager, the cache, the limiter and the collector,
    as the server wires them, and is what runs a request from the mux to the drivers.

    The files, in the order of their dependencies:

    - Foundations.  Prelude: machine integers with their wrap-around, errors and
      results, strings, sums over maps, tactics.  GoStrings: Go's strings, unicode and
      utf8 on byte strings.  Utf8: decoding inverts encoding.  GoValues: the dynamic
      type [any], a state monad with panics and its predicates [returns] and [total].
      Trace: the log of what the program asks of the world, and [emits].  Goroutines:
      runs of goroutines that take steps in any order, alone and among others.
      Numbers: strconv and float64 as IEEE 754 data.  Patterns: the regular
      expressions of the code as matchers.
    - SQL text, identifiers, stores.  SqlUtil (internal/sqlutil): classification of
      statements.  PublicID (internal/publicid): XTEA, base 62, key derivation.
      Cache (internal/cache).  RateLimit (internal/ratelimit).
    - Workflows (internal/workflow, internal/types).  WfConfig: configuration,
      execution context.  SqlParams, Params: binding and conversion of parameters.
      Expr, Compile: aliases, conditions, compilation.  Executor: steps, blocks,
      retries, caching.  Handler: the HTTP trigger.  WfValidate: validation.
      WfFuncs: the functions of workflow templates.
    - Databases (internal/db).  DbText: connection strings, session statements,
      translation of parameters.  Db: the three drivers and the manager, on an
      interface for database/sql.
    - Server (internal/server, internal/metrics, internal/logging, internal/config,
      internal/validate, internal/openapi).  Metrics, PromMetrics, Health, Adapters,
      Middleware, ConfigLoad, CfgValidate, Mux, Logging, ServerInit, Openapi, Admin,
      Cron.
    - Template engine (internal/tmpl).  TmplEngine: registration, validation, paths.
      TmplFuncs, TmplNum, Encoding, TmplIds: the template functions.
    - Program (main.go, internal/service/service_other.go), WinService
      (internal/service/service_windows.go).
    - The whole.  Live: the running server put together.  Counted: what its metrics
      count.
    - Concurrency, each on the component of the same source file.  CacheConc: goroutines
      on the cache at the grain of its locks and store calls.  RateConc: on the limiter,
      with pools and buckets as objects.  DbConc: on the manager, with drivers as
      objects, at the grain of its lock and of every access to a driver's pool.
    - The whole under concurrency.  Turns: a computation on a world run call by call, and
      a machine of any number of them.  Parallel: requests and jobs of the running
      server ([Live]) beside each other.  Recorded: what the metrics then count.  Alone:
      a request that is not interleaved is that of [Live].  Answered: every request gets
      a status line.

    ** Conventions

    A Go function keeps its name; a handler or method is a function of the state it
    acts on.  A struct is a Record, a tagged value an Inductive, a map a [gmap], a
    slice a [list]; [int] and [int64] are [Z] with [i64] where the code can overflow.
    A computation that can fail returns [result], one that can panic an [option] or a
    run of the monad [M] of GoValues whose value is [None].  Writing to the world
    (databases, servers, response writers, clocks) is a state of the world that the
    operations of an interface change; what the world did is a log of events where a
    theorem speaks about it ([Db.event], the events of a response).  Where goroutines
    share state through atomics (Metrics, TmplIds) a step relation interleaves single
    accesses; where they share it under locks (CacheConc, RateConc, DbConc) a step is
    what happens between taking and releasing one, or one access outside.  Range loops
    over maps take the order from [MapWalk].

    The code of a request is not written a second time to be interleaved.  It is defined
    for any implementation of its interfaces; [Turns] gives one where each call finds the
    next of given states and notes the move it makes, from the state it finds to the
    state it leaves.  What a run does until its n-th call is shown to depend on the first
    n states only ([Turns.replays]), so a goroutine that has made n moves is run again on
    what it found, and its next call on the present state is its next step
    ([Turns.par_step]).

    Code that is not part of the repository is a class: the expression language
    ([Expr.ExprLang]), text/template ([Compile.TemplateLang],
    [TmplEngine.TextTemplate]), database/sql ([Db.SqlDB]), Ristretto
    ([Cache.Ristretto]), the token bucket ([RateLimit.TokenBucket]), the cron parser
    ([WfValidate.Schedules]), net/http as the code uses it ([Executor.Platform],
    [Handler.Services], [Cron.HttpServers]), HMAC and the hash functions, JSON and time
    texts ([GoValues.GoText]), Unicode case tables.  Laws in a class are documented
    behaviour of that code; every module [Sample] has an instance, on which the
    witnesses and examples are evaluated.

    ** What the theorems show

    - The whole program: [Program.clean_exit] (status 0 leaves no database pool open),
      [Program.validate_mode], [CfgValidate.Run_spec], [ConfigLoad.Load_spec],
      [WinService.Install_all_or_nothing], [WinService.Stop_ends].
    - The server under any interleaving of requests and jobs:
      [Parallel.concurrent_statements] (whatever requests say, what reaches a database is
      session setup and the statements of the configuration, with their parameters),
      [Recorded.concurrent_requests_counted] (a request is recorded exactly once, when
      its handler has returned), [Answered.concurrent_requests_answered] (a request
      that has ended was answered), [Parallel.goroutines_can_end] (every request can end,
      as none waits for another), [Alone.goroutine_alone] (without interleaving it is the server of [Live],
      for which [Live.only_configured_statements] and [Counted.requests_counted] say the
      same of sequences of requests).
    - The server: [ServerInit.New_serves] (every registered workflow route answers and never panics),
      [ServerInit.valid_config_starts] (a valid configuration starts and its routes are
      reachable), [Cron.cron_jobs_run], [Cron.pools_closed_at_shutdown],
      [Admin.administration_answers], [Admin.document_covers_routes],
      [Middleware.panic_answered], [Middleware.body_limit] (no handler is given more of a
      body than the limit), [Health.runHealthChecker_spec] (the loop of the checker over
      any history of ticks).
    - Requests and workflows: [Handler.ServeHTTP_gate], [Handler.parseParameters_spec],
      [Executor.Execute_steps], [Executor.Execute_response],
      [Executor.executeBlockStep_spec], [Executor.executeHTTPCallStep_spec] (retries),
      [WfValidate.valid_queries] and [WfValidate.valid_references] (what validation
      guarantees at run time), [Params.converted_typed].
    - Databases: [Db.Query_follows_protocol] (refinement of a session protocol),
      [Db.statements_guarded] (no write on a read-only connection),
      [DbText.translateQuery_equiv], [SqlUtil.stripLiterals_spec],
      [SqlUtil.RequiresWriteAccess_spec].
    - Caches, limits, counters: [Cache.cache_accounting], [Cache.Get_sound],
      [Adapters.trigger_cache_roundtrip], [RateLimit.allowOne_decides],
      [PromMetrics.metric_calls_legal].
    - Concurrency: invariants of every state that any interleaving reaches
      ([CacheConc.concurrent_cache], [RateConc.concurrent_limiter],
      [DbConc.concurrent_pools], [Metrics.Record_concurrent], [TmplIds.matches_concurrent]);
      refinement, that a goroutine which is not interleaved does what the sequential
      model says ([CacheConc.call_alone], [RateConc.allow_alone], [DbConc.db_call_alone]);
      termination ([CacheConc.call_returns], [Metrics.Record_terminates]) and freedom from
      deadlock ([DbConc.calls_can_end]); and what interleavings break, as theorems or
      examples ([CacheConc.concurrent_sets_overrun], [RateConc.Sample.reset_leaves_two],
      [DbConc.Sample.query_meets_reconnection]).
    - Texts and numbers: [PublicID.public_id_roundtrip], [WfFuncs.wf_public_ids],
      [Encoding.base64_roundtrip], [TmplFuncs.convertTimeFormat_equiv],
      [TmplNum.formatBytes_spec], [TmplIds.ipNetwork_keys],
      [Expr.topoSortAliases_correct], [TmplEngine.Validate_spec].

    Each file has more lemmas of the kind, and examples that pin the behaviour of the
    code at inputs where it surprises.

    ** Bounds and fuel

    Structural recursion is used where the code has it.  The loops that need fuel
    have lemmas that say how much is enough: [ConfigLoad.tokens_enough] (the length of
    the text), [TmplFuncs.Join_split] and [split_parts] (the length of the text),
    [Metrics.exec_all] (twice the instructions), [Executor]'s retry loop (the number
    of attempts), Kahn's loop in [Expr] (the number of aliases), XTEA's rounds (a
    constant).  The loop of formatBytes takes its fuel as an argument:
    [TmplNum.formatBytes_spec] gives 102 iterations for every finite float, with which
    it ends or panics, and shows that an infinite one never ends.

    ** Not modelled

    - The text of log records and the calls that only log; contexts where they are
      only handed on, such as the five-second limit of a ping; the timeouts of the HTTP
      server.
    - Mutexes where the model runs the guarded region as one step (the metrics of an
      endpoint, the log level, the scheduler); preference of a waiting writer in
      sync.RWMutex, which affects fairness only.
    - The encoding of answers as JSON; pprof; the Go runtime's own metrics.
    - The map from function names to Go functions inside text/template (the functions
      themselves are modelled), fmt.Sprintf and reflect.DeepEqual as template
      functions.
    - The parsers and printers of addresses, URLs, UUIDs, cron schedules, YAML and env
      files, and the hash functions: parameters with the laws their users need.
    - Finer interleavings of whole requests: in [Parallel] a call of an adapter is one
      turn, from its beginning to its end.  What happens inside such a call when others
      run is the subject of CacheConc, RateConc, DbConc and Metrics, each for its
      component and with any callers; the two levels are not composed, because the state
      of a component is a value in [Live] and a memory of objects there.
    - Reconnections in [Parallel]: the handlers there keep the drivers that the server
      started with.  [Health] has them, and DbConc lets them interleave with queries.
    - The lock of the scheduler, and the wait for running jobs at shutdown.
    - Contexts are values of the outside: that a request whose client has gone is
      cancelled is an answer of [o_ctx_Err], not an event of the model. *)
From stdpp Require Export base list strings gmap fin_maps sorting pretty relations.
From Stdlib Require Export Ascii String ZArith Lia.

#[global] Open Scope Z_scope.
#[global] Arguments String.append : simpl nomatch.

Declare Scope go_scope.
Delimit Scope go_scope with go.

Create HintDb sqlproxy discriminated.
Create Rewrite HintDb gostring.

(** ** Machine integers

    Go's fixed-width integers are [Z] with the wrap-around written out. *)

Definition two32 : Z := 4294967296.
Definition two63 : Z := 9223372036854775808.
Definition two64 : Z := 18446744073709551616.

Definition u32 (z : Z) : Z := z `mod` two32.
Definition u64 (z : Z) : Z := z `mod` two64.
Definition i64 (z : Z) : Z := (z + two63) `mod` two64 - two63.

Lemma u32_range z : 0 <= u32 z < two32.
Proof. apply Z.mod_pos_bound. done. Qed.

Lemma u64_range z : 0 <= u64 z < two64.
Proof. apply Z.mod_pos_bound. done. Qed.

Lemma i64_range z : - two63 <= i64 z < two63.
Proof.
  unfold i64. pose proof (Z.mod_pos_bound (z + two63) two64).
  unfold two63, two64 in *. lia.
Qed.

Lemma u32_small z : 0 <= z < two32 -> u32 z = z.
Proof. apply Z.mod_small. Qed.

Lemma u64_small z : 0 <= z < two64 -> u64 z = z.
Proof. apply Z.mod_small. Qed.

Lemma i64_small z : - two63 <= z < two63 -> i64 z = z.
Proof. intros H. unfold i64. rewrite Z.mod_small; unfold two63, two64 in *; lia. Qed.

Lemma i64_add_l a b : i64 (i64 a + b) = i64 (a + b).
Proof.
  unfold i64. f_equal.
  replace ((a + two63) `mod` two64 - two63 + b + two63)
    with ((a + two63) `mod` two64 + b) by lia.
  rewrite Z.add_mod_idemp_l by done. f_equal. lia.
Qed.

Lemma i64_add_r a b : i64 (a + i64 b) = i64 (a + b).
Proof. rewrite (Z.add_comm a), i64_add_l. f_equal. lia. Qed.

(** Reinterpreting an [int64] as a [uint64] and back, [int64(uint64(x))]. *)
Lemma i64_u64 z : - two63 <= z < two63 -> i64 (u64 z) = z.
Proof.
  intros H. unfold i64, u64. destruct (decide (0 <= z)).
  - rewrite (Z.mod_small z) by (unfold two63, two64 in *; lia).
    rewrite Z.mod_small; unfold two63, two64 in *; lia.
  - replace (z `mod` two64) with (z + two64).
    + replace (z + two64 + two63) with (z + two63 + 1 * two64) by lia.
      rewrite Z.mod_add by done.
      rewrite Z.mod_small; unfold two63, two64 in *; lia.
    + rewrite <- (Z.mod_small (z + two64) two64) by (unfold two63, two64 in *; lia).
      by rewrite <- (Z.mod_add z 1 two64).
Qed.

Lemma i64_sub_l a b : i64 (i64 a - b) = i64 (a - b).
Proof. rewrite <- !Z.add_opp_r. apply i64_add_l. Qed.

(** [uint64(int64(x))] likewise. *)
Lemma u64_i64 z : 0 <= z < two64 -> u64 (i64 z) = z.
Proof.
  intros H. unfold i64, u64. rewrite Zminus_mod_idemp_l.
  replace (z + two63 - two63) with z by lia. by apply Z.mod_small.
Qed.

#[export] Hint Resolve u32_range u64_range i64_range : sqlproxy.

(** Instants are nanoseconds in [Z]; [t.Sub(u)] is their distance as a
    [time.Duration], saturating at the ends of the 64-bit range. *)
Definition time_Sub (t u : Z) : Z := Z.max (- two63) (Z.min (two63 - 1) (t - u)).

(** ** Errors

    A Go [error] is a chain: a leaf, or a message wrapped around a cause with
    [fmt.Errorf("...%w...", err)].  The two context errors are leaves of their
    own because [errors.Is] looks for them through the chain. *)

Inductive error : Type :=
| Errorf (msg : string)
| Wrapf (pre : string) (cause : error) (post : string)
| DeadlineExceeded
| Canceled.

(** [err.Error()]. *)
Fixpoint Error (e : error) : string :=
  match e with
  | Errorf msg => msg
  | Wrapf pre c post => pre +:+ Error c +:+ post
  | DeadlineExceeded => "context deadline exceeded"
  | Canceled => "context canceled"
  end.

(** [errors.Is(err, context.DeadlineExceeded)]. *)
Fixpoint is_deadline (e : error) : bool :=
  match e with
  | DeadlineExceeded => true
  | Wrapf _ c _ => is_deadline c
  | _ => false
  end.

#[global] Instance error_eq_dec : EqDecision error.
Proof. solve_decision. Defined.

(** Go's [(T, error)] results: exactly one side is meaningful. *)
Inductive result (A : Type) : Type :=
| Ok (a : A)
| Err (e : error).
Arguments Ok {A} a.
Arguments Err {A} e.

#[global] Instance result_eq_dec `{EqDecision A} : EqDecision (result A).
Proof. solve_decision. Defined.

Lemma Ok_inj {A} (a b : A) : Ok a = Ok b -> a = b.
Proof. by intros [= ->]. Qed.

Definition result_bind {A B} (f : A -> result B) (r : result A) : result B :=
  match r with Ok a => f a | Err e => Err e end.

Notation "'try' x := r 'in' k" := (result_bind (fun x => k) r)
  (at level 10, x binder, k at level 200) : go_scope.
#[global] Open Scope go_scope.

Definition is_ok {A} (r : result A) : bool :=
  match r with Ok _ => true | Err _ => false end.

(** ** Strings as byte sequences *)

Lemma app_str_nil_r (s : string) : s +:+ "" = s.
Proof. induction s; simpl; congruence. Qed.

Lemma app_str_assoc (a b c : string) : a +:+ (b +:+ c) = (a +:+ b) +:+ c.
Proof. induction a; simpl; congruence. Qed.

Lemma length_app_str (a b : string) :
  String.length (a +:+ b) = (String.length a + String.length b)%nat.
Proof. induction a; simpl; congruence. Qed.

Lemma app_str_inj_l (a b c : string) : a +:+ b = a +:+ c -> b = c.
Proof. induction a; simpl; [done | intros; simplify_eq; auto]. Qed.

Lemma app_str_cons (c : ascii) (a b : string) : (String c a) +:+ b = String c (a +:+ b).
Proof. done. Qed.

Lemma app_str_eq_nil (a b : string) : a +:+ b = "" -> a = "" /\ b = "".
Proof. destruct a; simpl; [done | discriminate]. Qed.

#[export] Hint Rewrite app_str_nil_r app_str_cons length_app_str : gostring.

(** The first byte of a string, if any. *)
Definition head_is (p : ascii -> bool) (s : string) : bool :=
  match s with String c _ => p c | EmptyString => false end.

(** Every byte satisfies [p]. *)
Fixpoint str_all (p : ascii -> bool) (s : string) : bool :=
  match s with String c r => p c && str_all p r | EmptyString => true end.

Fixpoint str_last_is (p : ascii -> bool) (s : string) : bool :=
  match s with
  | EmptyString => false
  | String c EmptyString => p c
  | String _ r => str_last_is p r
  end.

Lemma str_all_app p a b : str_all p (a +:+ b) = str_all p a && str_all p b.
Proof. induction a as [|c a IH]; simpl; [done|]. by rewrite IH, andb_assoc. Qed.

Lemma str_last_is_app p a c b : str_last_is p (a +:+ String c b) = str_last_is p (String c b).
Proof.
  induction a as [|d a IH]; [done|]. simpl in *. rewrite IH.
  by destruct a.
Qed.

(** ** Sums over maps *)

Definition map_sum {A} (f : A -> Z) (m : gmap string A) : Z := map_fold (fun _ v t => f v + t) 0 m.

Lemma map_sum_insert {A} (f : A -> Z) m k v :
  m !! k = None -> map_sum f (<[k := v]> m) = f v + map_sum f m.
Proof. intros Hk. unfold map_sum. rewrite map_fold_insert_L; [done|intros; lia|done]. Qed.

Lemma map_sum_delete {A} (f : A -> Z) m k v :
  m !! k = Some v -> map_sum f m = f v + map_sum f (delete k m).
Proof. intros Hk. unfold map_sum. rewrite (map_fold_delete_L _ _ k v m); [done|intros; lia|done]. Qed.

Lemma map_sum_alter {A} (f : A -> Z) g m k v :
  m !! k = Some v -> map_sum f (alter g k m) = map_sum f m - f v + f (g v).
Proof.
  intros Hk. rewrite (map_sum_delete f _ k (g v)) by (by rewrite lookup_alter_eq, Hk).
  rewrite (map_sum_delete f m k v) by done. rewrite delete_alter_eq. lia.
Qed.

(** Case analysis on a decidable test in the goal or a hypothesis. *)
Ltac dec_eq :=
  repeat match goal with
  | |- context [decide ?P] => destruct (decide P); simplify_eq
  | H : context [decide ?P] |- _ => destruct (decide P); simplify_eq
  end.

(** Split every boolean conjunction or disjunction in the context. *)
Ltac bools :=
  repeat match goal with
  | H : _ && _ = true |- _ => apply andb_true_iff in H; destruct H
  | H : _ || _ = false |- _ => apply orb_false_iff in H; destruct H
  | H : negb _ = true |- _ => apply negb_true_iff in H
  | H : negb _ = false |- _ => apply negb_false_iff in H
  end.
