(* ===== verification/GoStrings.v ===== *)
(** * Go's [strings], [unicode] and [unicode/utf8] as the program uses them

    A Go string is its bytes: a [string] of 8-bit [ascii].  Ranging over a
    string decodes UTF-8, an ill-formed byte giving [RuneError]; [ToUpper],
    [ToLower], [TrimSpace] and [Fields] work on the decoded runes.  The case
    tables beyond ASCII are the members of a class, so that every theorem holds
    whatever the Unicode version of the toolchain. *)
From S2P Require Import Prelude.

Definition byte (c : ascii) : N := N_of_ascii c.

Definition RuneError : N := 65533.

Class UnicodeTables := {
  unicode_upper : N -> N;   (* unicode.ToUpper beyond ASCII *)
  unicode_lower : N -> N;   (* unicode.ToLower beyond ASCII *)
  unicode_print : N -> bool;   (* unicode.IsPrint beyond ASCII *)
}.

(** ** UTF-8 *)

Definition in_range (lo hi : N) (c : ascii) : bool := ((lo <=? byte c) && (byte c <=? hi))%N.
Definition cont (c : ascii) : bool := in_range 128 191 c.

Definition seq2 (b0 b1 : ascii) : bool := in_range 194 223 b0 && cont b1.

Definition seq3 (b0 b1 b2 : ascii) : bool :=
  (if (byte b0 =? 224)%N then in_range 160 191 b1
   else if (byte b0 =? 237)%N then in_range 128 159 b1
   else in_range 225 239 b0 && cont b1) && cont b2.

Definition seq4 (b0 b1 b2 b3 : ascii) : bool :=
  (if (byte b0 =? 240)%N then in_range 144 191 b1
   else if (byte b0 =? 244)%N then in_range 128 143 b1
   else in_range 241 243 b0 && cont b1) && cont b2 && cont b3.

Definition low (k : N) (c : ascii) : N := (byte c) `mod` k.

(** The runes of a string with the bytes each was decoded from. *)
Fixpoint chunks (s : string) : list (N * string) :=
  match s with
  | EmptyString => []
  | String b0 s1 =>
    if (byte b0 <? 128)%N then (byte b0, String b0 "") :: chunks s1
    else match s1 with
    | String b1 s2 =>
      if seq2 b0 b1 then
        ((low 32 b0 * 64 + low 64 b1)%N, String b0 (String b1 "")) :: chunks s2
      else match s2 with
      | String b2 s3 =>
        if seq3 b0 b1 b2 then
          ((low 16 b0 * 4096 + low 64 b1 * 64 + low 64 b2)%N,
             String b0 (String b1 (String b2 ""))) :: chunks s3
        else match s3 with
        | String b3 s4 =>
          if seq4 b0 b1 b2 b3 then
            ((low 8 b0 * 262144 + low 64 b1 * 4096 + low 64 b2 * 64 + low 64 b3)%N,
               String b0 (String b1 (String b2 (String b3 "")))) :: chunks s4
          else (RuneError, String b0 "") :: chunks s1
        | EmptyString => (RuneError, String b0 "") :: chunks s1
        end
      | EmptyString => (RuneError, String b0 "") :: chunks s1
      end
    | EmptyString => (RuneError, String b0 "") :: chunks s1
    end
  end.

Definition runes (s : string) : list N := (chunks s).*1.

Definition cat (l : list string) : string := foldr String.append "" l.

Definition chr (n : N) : string := String (ascii_of_N n) "".

(** [utf8.AppendRune]: surrogates and values out of range become [RuneError]. *)
Definition encode_rune (r : N) : string :=
  let enc3 r := chr (224 + r / 4096)%N +:+ chr (128 + (r / 64) `mod` 64)%N
                +:+ chr (128 + r `mod` 64)%N in
  if (r <? 128)%N then chr r
  else if (r <? 2048)%N then chr (192 + r / 64)%N +:+ chr (128 + r `mod` 64)%N
  else if ((55296 <=? r) && (r <=? 57343) || (1114111 <? r))%N then enc3 RuneError
  else if (r <? 65536)%N then enc3 r
  else chr (240 + r / 262144)%N +:+ chr (128 + (r / 4096) `mod` 64)%N
       +:+ chr (128 + (r / 64) `mod` 64)%N +:+ chr (128 + r `mod` 64)%N.

(** ** Case and white space *)

Definition ascii_upper (r : N) : N := if ((97 <=? r) && (r <=? 122))%N then (r - 32)%N else r.
Definition ascii_lower (r : N) : N := if ((65 <=? r) && (r <=? 90))%N then (r + 32)%N else r.

Section Case.
Context `{UnicodeTables}.

Definition rune_upper (r : N) : N := if (r <? 128)%N then ascii_upper r else unicode_upper r.
Definition rune_lower (r : N) : N := if (r <? 128)%N then ascii_lower r else unicode_lower r.

(** [strings.ToUpper] and [strings.ToLower]: [strings.Map] over the runes. *)
Definition ToUpper (s : string) : string := cat (encode_rune <$> (rune_upper <$> runes s)).
Definition ToLower (s : string) : string := cat (encode_rune <$> (rune_lower <$> runes s)).
End Case.

(** [unicode.IsSpace]: the White_Space property. *)
Definition is_space (r : N) : bool :=
  ((9 <=? r) && (r <=? 13) || (r =? 32) || (r =? 133) || (r =? 160) || (r =? 5760)
   || (8192 <=? r) && (r <=? 8202) || (r =? 8232) || (r =? 8233) || (r =? 8239)
   || (r =? 8287) || (r =? 12288))%N.

Fixpoint drop_spaces (l : list (N * string)) : list (N * string) :=
  match l with
  | (r, b) :: l' => if is_space r then drop_spaces l' else l
  | [] => []
  end.

Definition TrimSpace (s : string) : string :=
  cat (reverse (drop_spaces (reverse (drop_spaces (chunks s))))).*2.

(** [strings.Fields]: maximal runs of non-space runes; [cur] is the run so far. *)
Fixpoint fields_loop (cur : string) (l : list (N * string)) : list string :=
  match l with
  | [] => if decide (cur = "") then [] else [cur]
  | (r, b) :: l' =>
    if is_space r then
      (if decide (cur = "") then fields_loop "" l' else cur :: fields_loop "" l')
    else fields_loop (cur +:+ b) l'
  end.

Definition Fields (s : string) : list string := fields_loop "" (chunks s).

(** ** Quoting *)

Definition hex_digit (n : N) : string := chr (if (n <? 10)%N then 48 + n else 87 + n)%N.

(** The low [k] hexadecimal digits of [n]. *)
Fixpoint hex (k : nat) (n : N) : string :=
  match k with
  | O => ""
  | S k' => hex k' (n / 16)%N +:+ hex_digit (n `mod` 16)%N
  end.

Definition backslash : string := chr 92.

Section Quote.
Context `{UnicodeTables}.

Definition is_print (r : N) : bool :=
  if (r <? 128)%N then ((32 <=? r) && (r <? 127))%N else unicode_print r.

(** [strconv.appendEscapedRune] with the double quote as delimiter, on a rune
    and the bytes it was decoded from. *)
Definition escape_rune (rb : N * string) : string :=
  let '(r, b) := rb in
  if ((r =? RuneError)%N && Nat.eqb (String.length b) 1)%bool then
    backslash +:+ "x" +:+ hex 2 (default 0%N (head ((fun c => byte c) <$> String.list_ascii_of_string b)))
  else if ((r =? 34) || (r =? 92))%N then backslash +:+ b
  else if is_print r then b
  else if (r =? 7)%N then backslash +:+ "a"
  else if (r =? 8)%N then backslash +:+ "b"
  else if (r =? 12)%N then backslash +:+ "f"
  else if (r =? 10)%N then backslash +:+ "n"
  else if (r =? 13)%N then backslash +:+ "r"
  else if (r =? 9)%N then backslash +:+ "t"
  else if (r =? 11)%N then backslash +:+ "v"
  else if ((r <? 32) || (r =? 127))%N then backslash +:+ "x" +:+ hex 2 r
  else if (r <? 65536)%N then backslash +:+ "u" +:+ hex 4 r
  else backslash +:+ "U" +:+ hex 8 r.

(** [fmt.Sprintf("%q", s)] *)
Definition Quote (s : string) : string := chr 34 +:+ cat (escape_rune <$> chunks s) +:+ chr 34.
End Quote.

(** ** Searching *)

Definition HasPrefix (s p : string) : bool := String.prefix p s.

Definition HasSuffix (s p : string) : bool :=
  (Nat.leb (String.length p) (String.length s)) &&
  bool_decide (String.substring (String.length s - String.length p) (String.length p) s = p).

(** [strings.Index]; [None] is Go's -1. *)
Fixpoint Index (s sub : string) : option nat :=
  if String.prefix sub s then Some 0%nat
  else match s with
  | EmptyString => None
  | String _ r => S <$> Index r sub
  end.

Definition Contains (s sub : string) : bool :=
  match Index s sub with Some _ => true | None => false end.

(** [s[i:]] within bounds. *)
Fixpoint str_drop (n : nat) (s : string) : string :=
  match n, s with
  | O, _ => s
  | S k, String _ r => str_drop k r
  | S _, EmptyString => ""
  end.

Fixpoint str_take (n : nat) (s : string) : string :=
  match n, s with
  | O, _ => ""
  | S k, String c r => String c (str_take k r)
  | S _, EmptyString => ""
  end.

Definition TrimPrefix (s p : string) : string :=
  if HasPrefix s p then str_drop (String.length p) s else s.

Fixpoint span (p : ascii -> bool) (s : string) : string * string :=
  match s with
  | EmptyString => ("", "")
  | String c r =>
    if p c then let '(w, t) := span p r in (String c w, t) else ("", s)
  end.

Definition is_ascii (c : ascii) : bool := (byte c <? 128)%N.
Definition ascii_only (s : string) : bool := str_all is_ascii s.

(** ** Header names *)

Definition token_byte (c : ascii) : bool :=
  in_range 48 57 c || in_range 65 90 c || in_range 97 122 c ||
  bool_decide (byte c ∈ [33; 35; 36; 37; 38; 39; 42; 43; 45; 46; 94; 95; 96; 124; 126]%N).

Fixpoint canonical_loop (upper : bool) (s : string) : string :=
  match s with
  | EmptyString => ""
  | String c r =>
    String (ascii_of_N ((if upper then ascii_upper else ascii_lower) (byte c)))
      (canonical_loop (byte c =? 45)%N r)
  end.

(** [http.CanonicalHeaderKey] *)
Definition CanonicalHeaderKey (s : string) : string :=
  if str_all token_byte s then canonical_loop true s else s.

(** ** Lemmas *)

Lemma byte_inj a b : byte a = byte b -> a = b.
Proof. intros E. rewrite <- (ascii_N_embedding a), <- (ascii_N_embedding b). by f_equal. Qed.

Lemma byte_lt c : (byte c < 256)%N.
Proof. apply N_ascii_bounded. Qed.

Lemma str_take_drop n s : str_take n s +:+ str_drop n s = s.
Proof. revert s; induction n; intros [|c s]; simpl; f_equal; auto. Qed.

Lemma str_take_length n s : (n <= String.length s)%nat -> String.length (str_take n s) = n.
Proof. revert s; induction n; intros [|c s] Hn; simpl in *; f_equal; try lia. apply IHn. lia. Qed.

Lemma str_drop_app a b : str_drop (String.length a) (a +:+ b) = b.
Proof. by induction a. Qed.

Lemma str_take_app a b : str_take (String.length a) (a +:+ b) = a.
Proof. induction a; simpl; [by destruct b|congruence]. Qed.

Lemma prefix_spec p s : String.prefix p s = true <-> exists t, s = p +:+ t.
Proof.
  revert s. induction p as [|c p IH]; intros s; simpl.
  - split; [by exists s|]. by destruct s.
  - destruct s as [|d s]; simpl; [split; [done|]; intros [t [=]]|].
    destruct (ascii_dec c d) as [->|Hne].
    + rewrite IH. split; intros [t Ht]; exists t; simplify_eq/=; auto.
    + split; [done|]. intros [t [= ]]; simplify_eq.
Qed.

Lemma HasPrefix_app p t : HasPrefix (p +:+ t) p = true.
Proof. apply prefix_spec. by exists t. Qed.

Lemma TrimPrefix_app p t : TrimPrefix (p +:+ t) p = t.
Proof. unfold TrimPrefix. by rewrite HasPrefix_app, str_drop_app. Qed.

Lemma Index_Some s sub i :
  Index s sub = Some i ->
  exists pre post, s = pre +:+ sub +:+ post /\ String.length pre = i.
Proof.
  revert i. induction s as [|c s IH]; intros i.
  - simpl. destruct sub; simpl; intros; simplify_eq. by exists "", "".
  - cbn [Index]. destruct (String.prefix sub (String c s)) eqn:E.
    + intros [= <-]. apply prefix_spec in E as [t Ht]. by exists "", t.
    + intros Hi. apply fmap_Some in Hi as (k & Hk & ->).
      destruct (IH _ Hk) as (pre & post & -> & <-). by exists (String c pre), post.
Qed.

Lemma Index_first s sub i pre post :
  Index s sub = Some i -> s = pre +:+ sub +:+ post -> (i <= String.length pre)%nat.
Proof.
  revert i s. induction pre as [|c pre IH]; intros i s Hi Hs.
  - subst s. simpl in Hi.
    destruct (sub +:+ post) eqn:Esp; cbn [Index] in Hi.
    + destruct sub; [|done]. simpl in Hi. simplify_eq. simpl. lia.
    + assert (String.prefix sub (String a s) = true) as E.
      { apply prefix_spec. exists post. done. }
      rewrite E in Hi. simplify_eq. simpl. lia.
  - subst s. rewrite app_str_cons in Hi. cbn [Index] in Hi.
    destruct (String.prefix _ _); simplify_eq; [lia|].
    apply fmap_Some in Hi as (k & Hk & ->). simpl.
    specialize (IH _ _ Hk eq_refl). lia.
Qed.

Lemma Index_None s sub pre post : Index s sub = None -> s <> pre +:+ sub +:+ post.
Proof.
  revert s. induction pre as [|c pre IH]; intros s Hn ->.
  - simpl in Hn. destruct (sub +:+ post) eqn:E; cbn [Index] in Hn;
      rewrite (proj2 (prefix_spec _ _)) in Hn; try done; by exists post.
  - rewrite app_str_cons in Hn. cbn [Index] in Hn.
    destruct (String.prefix _ _); [done|].
    apply fmap_None in Hn. by apply (IH _ Hn).
Qed.

Lemma Contains_spec s sub : Contains s sub = true <-> exists pre post, s = pre +:+ sub +:+ post.
Proof.
  unfold Contains. destruct (Index s sub) as [i|] eqn:E; split; try done.
  - intros _. apply Index_Some in E as (pre & post & ? & _). eauto.
  - intros (pre & post & Hs). by apply (Index_None _ _ pre post) in E.
Qed.

Lemma span_spec p s w t :
  span p s = (w, t) -> s = w +:+ t /\ str_all p w = true /\ head_is p t = false.
Proof.
  revert w t. induction s as [|c s IH]; simpl; intros w t Hs; simplify_eq; [done|].
  destruct (p c) eqn:Ep.
  - destruct (span p s) as [w' t'] eqn:E. simplify_eq/=.
    destruct (IH _ _ eq_refl) as (-> & Hw & Ht). by rewrite Ep.
  - simplify_eq/=. auto.
Qed.

Lemma span_length p s : (String.length (span p s).2 <= String.length s)%nat.
Proof. induction s; simpl; [lia|]. destruct (p a); [|simpl; lia]. destruct (span p s); simpl in *; lia. Qed.

Lemma cat_app l1 l2 : cat (l1 ++ l2) = cat l1 +:+ cat l2.
Proof. induction l1; simpl; [done|]. by rewrite IHl1, app_str_assoc. Qed.

Lemma cat_cons (r : N) b l : cat ((r, b) :: l).*2 = b +:+ cat l.*2.
Proof. done. Qed.

Lemma byte_range lo hi c : in_range lo hi c = true <-> (lo <= byte c <= hi)%N.
Proof. unfold in_range. rewrite andb_true_iff, !N.leb_le. done. Qed.

Lemma low_sub k q c : (k <> 0)%N -> (q * k <= byte c < (q + 1) * k)%N -> low k c = (byte c - q * k)%N.
Proof.
  intros Hk Hc. unfold low. replace (byte c) with ((byte c - q * k) + q * k)%N at 1 by lia.
  rewrite N.Div0.mod_add. apply N.mod_small. lia.
Qed.

Lemma seq2_rune b0 b1 : seq2 b0 b1 = true -> (128 <= low 32 b0 * 64 + low 64 b1)%N.
Proof.
  unfold seq2. intros ?; bools. apply byte_range in H.
  rewrite (low_sub 32 6 b0) by lia. lia.
Qed.

Lemma seq3_rune b0 b1 b2 :
  seq3 b0 b1 b2 = true -> (128 <= low 16 b0 * 4096 + low 64 b1 * 64 + low 64 b2)%N.
Proof.
  unfold seq3. intros ?; bools. destruct (N.eqb_spec (byte b0) 224).
  - apply byte_range in H. rewrite (low_sub 64 2 b1) by lia. lia.
  - assert (225 <= byte b0 <= 239)%N as Hb.
    { destruct (N.eqb_spec (byte b0) 237); [lia|]. bools. by apply byte_range. }
    rewrite (low_sub 16 14 b0) by lia. lia.
Qed.

Lemma seq4_rune b0 b1 b2 b3 : seq4 b0 b1 b2 b3 = true ->
  (128 <= low 8 b0 * 262144 + low 64 b1 * 4096 + low 64 b2 * 64 + low 64 b3)%N.
Proof.
  unfold seq4. intros ?; bools. destruct (N.eqb_spec (byte b0) 240).
  - apply byte_range in H. rewrite (low_sub 64 2 b1) by lia. lia.
  - assert (241 <= byte b0 <= 244)%N as Hb.
    { destruct (N.eqb_spec (byte b0) 244); [lia|]. bools. apply byte_range in H. lia. }
    rewrite (low_sub 8 30 b0) by lia. lia.
Qed.

(** One decoding step: a nonempty chunk, and a rune below 128 is its own byte. *)
Lemma chunks_step s : s <> "" ->
  exists r b s', s = b +:+ s' /\ chunks s = (r, b) :: chunks s' /\ b <> "" /\
    (r < 128 -> b = chr r)%N.
Proof.
  assert (forall b0 s1, exists r b s', String b0 s1 = b +:+ s' /\
    (RuneError, String b0 "") :: chunks s1 = (r, b) :: chunks s' /\ b <> "" /\
    (r < 128 -> b = chr r)%N) as Hbad.
  { intros b0 s1. exists RuneError, (String b0 ""), s1. done. }
  destruct s as [|b0 s1]; [done|]. intros _. cbn [chunks].
  destruct (N.ltb_spec (byte b0) 128).
  { exists (byte b0), (String b0 ""), s1. split_and!; try done. intros _.
    unfold chr, byte. by rewrite ascii_N_embedding. }
  destruct s1 as [|b1 s2]; [apply Hbad|]. destruct (seq2 b0 b1) eqn:E2.
  { exists (low 32 b0 * 64 + low 64 b1)%N, (String b0 (String b1 "")), s2. split_and!; try done. apply seq2_rune in E2. intros; exfalso; lia. }
  destruct s2 as [|b2 s3]; [apply Hbad|]. destruct (seq3 b0 b1 b2) eqn:E3.
  { exists (low 16 b0 * 4096 + low 64 b1 * 64 + low 64 b2)%N,
      (String b0 (String b1 (String b2 ""))), s3. split_and!; try done. apply seq3_rune in E3. intros; exfalso; lia. }
  destruct s3 as [|b3 s4]; [apply Hbad|]. destruct (seq4 b0 b1 b2 b3) eqn:E4; [|apply Hbad].
  exists (low 8 b0 * 262144 + low 64 b1 * 4096 + low 64 b2 * 64 + low 64 b3)%N,
    (String b0 (String b1 (String b2 (String b3 "")))), s4. split_and!; try done. apply seq4_rune in E4. intros; exfalso; lia.
Qed.

(** Induction along the decoding. *)
Lemma chunks_ind (P : string -> Prop) :
  P "" ->
  (forall r b s, chunks (b +:+ s) = (r, b) :: chunks s -> b <> "" ->
     (r < 128 -> b = chr r)%N -> P s -> P (b +:+ s)) ->
  forall s, P s.
Proof.
  intros H0 Hs s. remember (String.length s) as n eqn:Hn. revert s Hn.
  induction (lt_wf n) as [n _ IH]. intros s ->.
  destruct (decide (s = "")) as [->|Hne]; [done|].
  destruct (chunks_step s Hne) as (r & b & s' & -> & E & Hb & Hr).
  apply (Hs r); try done. eapply IH; [|done]. rewrite length_app_str.
  destruct b; [done|]. simpl. lia.
Qed.

(** Decoding loses no byte. *)
Lemma cat_chunks s : cat (chunks s).*2 = s.
Proof. induction s as [|r b s E _ _ IH] using chunks_ind; [done|]. by rewrite E, cat_cons, IH. Qed.

Lemma chunks_ascii c s : is_ascii c = true -> chunks (String c s) = (byte c, String c "") :: chunks s.
Proof. unfold is_ascii. intros Hc. cbn [chunks]. by rewrite Hc. Qed.

Lemma runes_app_ascii a b : ascii_only a = true -> runes (a +:+ b) = runes a ++ runes b.
Proof.
  unfold runes, ascii_only. induction a as [|c a IH]; [done|].
  cbn [str_all String.append]. intros ?; bools.
  rewrite !chunks_ascii by done. rewrite !fmap_cons, IH by done. done.
Qed.

Lemma runes_ascii_char c : is_ascii c = true -> runes (String c "") = [byte c].
Proof. intros Hc. unfold runes. by rewrite chunks_ascii. Qed.

(** If every decoded rune is ASCII the text is these bytes. *)
Lemma runes_all_ascii s :
  Forall (fun r => (r < 128)%N) (runes s) -> s = cat (chr <$> runes s).
Proof.
  induction s as [|r b s E _ Hr IH] using chunks_ind; [done|].
  unfold runes in *. rewrite E, !fmap_cons. inversion_clear 1.
  change (b +:+ s = chr r +:+ cat (chr <$> (chunks s).*1)). f_equal; auto.
Qed.

Lemma encode_ascii n : (n < 128)%N -> encode_rune n = chr n.
Proof. intros Hn. unfold encode_rune. by rewrite (proj2 (N.ltb_lt _ _) Hn). Qed.

Lemma ascii_upper_lt n : (n < 128)%N -> (ascii_upper n < 128)%N.
Proof. unfold ascii_upper. intros. case_match; lia. Qed.

Lemma chr_byte c : chr (byte c) = String c "".
Proof. unfold chr, byte. by rewrite ascii_N_embedding. Qed.

Definition char_upper (c : ascii) : ascii := ascii_of_N (ascii_upper (byte c)).

(** Upper-casing one ASCII byte is independent of what follows it. *)
Lemma ToUpper_ascii `{UnicodeTables} c s :
  is_ascii c = true -> ToUpper (String c s) = String (char_upper c) (ToUpper s).
Proof.
  intros Hc. unfold ToUpper, runes. rewrite (chunks_ascii _ _ Hc).
  unfold is_ascii in Hc. simpl. unfold rune_upper at 1. rewrite Hc.
  apply N.ltb_lt in Hc. rewrite encode_ascii by (by apply ascii_upper_lt). done.
Qed.

Lemma ToUpper_nil `{UnicodeTables} : ToUpper "" = "".
Proof. done. Qed.

Fixpoint str_map (f : ascii -> ascii) (s : string) : string :=
  match s with EmptyString => "" | String c r => String (f c) (str_map f r) end.

Lemma ToUpper_ascii_only `{UnicodeTables} s : ascii_only s = true -> ToUpper s = str_map char_upper s.
Proof.
  induction s as [|c s IH]; [done|]. unfold ascii_only in *. simpl. intros ?; bools.
  rewrite ToUpper_ascii by done. by rewrite IH.
Qed.

Lemma str_map_app f a b : str_map f (a +:+ b) = str_map f a +:+ str_map f b.
Proof. induction a; simpl; congruence. Qed.

Lemma length_str_map f a : String.length (str_map f a) = String.length a.
Proof. induction a; simpl; congruence. Qed.

(** Decimal digits. *)
Definition is_digit (c : ascii) : bool := in_range 48 57 c.

Lemma pretty_N_char_digit x : is_digit (pretty_N_char x) = true.
Proof. unfold pretty_N_char. by repeat case_match. Qed.

Lemma pretty_N_digits (n : N) : str_all is_digit (pretty n) = true.
Proof.
  unfold pretty, pretty_N. case_decide; [done|].
  assert (forall s, str_all is_digit s = true -> str_all is_digit (pretty_N_go n s) = true) as H'; [|by apply H'].
  clear. induction (N.lt_wf_0 n) as [n _ IH]. intros s Hs.
  destruct (decide (0 < n)%N) as [Hn|Hn].
  - rewrite pretty_N_go_step by done. apply IH; [apply N.div_lt; lia|].
    simpl. by rewrite pretty_N_char_digit, Hs.
  - assert (n = 0%N) as -> by lia. by rewrite pretty_N_go_0.
Qed.

Lemma pretty_Z_digits (z : Z) : 0 < z -> str_all is_digit (pretty z) = true.
Proof. destruct z; try lia. intros _. apply (pretty_N_digits (Npos p)). Qed.

(** Splitting at the first byte outside a class. *)
Lemma split_at (p : ascii -> bool) c a b x y :
  p c = false -> str_all p a = true -> str_all p b = true ->
  a +:+ String c x = b +:+ String c y -> a = b /\ x = y.
Proof.
  intros Hc. revert b. induction a as [|d a IH]; intros [|e b]; simpl; intros Ha Hb E; simplify_eq; bools; try congruence.
  - done.
  - by destruct (IH b) as [-> ->].
Qed.

(** A fragment of the case tables, for evaluating examples: U+0250 and U+2C6F are
    each other's case variants, every other rune beyond ASCII is caseless. *)
Definition sample_tables : UnicodeTables := {|
  unicode_upper := fun r => if (r =? 592)%N then 11375%N else r;
  unicode_lower := fun r => if (r =? 11375)%N then 592%N else r;
  unicode_print := fun _ => true;
|}.
