(* ===== verification/Utf8.v ===== *)
(** * UTF-8 round trip

    Decoding yields valid code points, and decoding what [encode_rune] wrote gives the
    code points back: the slices of [[]rune] in the template functions lose nothing. *)
From S2P Require Import Prelude GoStrings.
From Stdlib Require Import ZifyN Zify.

#[local] Ltac Zify.zify_post_hook ::= Z.to_euclidean_division_equations.

(** Up to U+10FFFF, without the surrogates. *)
Definition valid_rune (r : N) : Prop := (r < 55296 \/ 57343 < r <= 1114111)%N.

Lemma byte_of (n : N) : (n < 256)%N -> byte (ascii_of_N n) = n.
Proof. apply N_ascii_embedding. Qed.

Ltac bytes_ok := unfold seq2, seq3, seq4, cont, in_range, low; rewrite ?byte_of by lia.

Lemma chunks_encode1 r s : (r < 128)%N -> chunks (chr r +:+ s) = (r, chr r) :: chunks s.
Proof.
  intros Hr. unfold chr. cbn [String.append]. rewrite chunks_ascii; [by rewrite byte_of by lia|].
  unfold is_ascii. rewrite byte_of by lia. by apply N.ltb_lt.
Qed.

Lemma chunks_encode2 r s : (128 <= r < 2048)%N ->
  let e := chr (192 + r / 64)%N +:+ chr (128 + r `mod` 64)%N in chunks (e +:+ s) = (r, e) :: chunks s.
Proof.
  intros Hr. unfold chr. cbn [String.append chunks].
  rewrite (proj2 (N.ltb_ge _ _)) by (rewrite byte_of by lia; lia).
  assert (seq2 (ascii_of_N (192 + r / 64)) (ascii_of_N (128 + r `mod` 64)) = true) as ->.
  { bytes_ok. rewrite !andb_true_iff, !N.leb_le. lia. }
  f_equal. f_equal. bytes_ok. lia.
Qed.

Lemma chunks_encode3 r s : (2048 <= r < 65536)%N -> valid_rune r ->
  let e := chr (224 + r / 4096)%N +:+ chr (128 + (r / 64) `mod` 64)%N +:+ chr (128 + r `mod` 64)%N in
  chunks (e +:+ s) = (r, e) :: chunks s.
Proof.
  intros Hr Hv. unfold valid_rune in Hv. unfold chr. cbn [String.append chunks].
  rewrite (proj2 (N.ltb_ge _ _)) by (rewrite byte_of by lia; lia).
  assert (seq2 (ascii_of_N (224 + r / 4096)) (ascii_of_N (128 + (r / 64) `mod` 64)) = false) as ->.
  { bytes_ok. rewrite andb_false_iff. left. rewrite andb_false_iff. right. apply N.leb_gt. lia. }
  assert (seq3 (ascii_of_N (224 + r / 4096)) (ascii_of_N (128 + (r / 64) `mod` 64)) (ascii_of_N (128 + r `mod` 64)) = true) as ->.
  { bytes_ok. rewrite andb_true_iff. split; [|rewrite andb_true_iff, !N.leb_le; lia].
    destruct (N.eqb_spec (224 + r / 4096) 224); [rewrite andb_true_iff, !N.leb_le; lia|].
    destruct (N.eqb_spec (224 + r / 4096) 237); rewrite !andb_true_iff, !N.leb_le; lia. }
  f_equal. f_equal. bytes_ok. lia.
Qed.

Lemma chunks_encode4 r s : (65536 <= r <= 1114111)%N ->
  let e := chr (240 + r / 262144)%N +:+ chr (128 + (r / 4096) `mod` 64)%N
           +:+ chr (128 + (r / 64) `mod` 64)%N +:+ chr (128 + r `mod` 64)%N in
  chunks (e +:+ s) = (r, e) :: chunks s.
Proof.
  intros Hr. unfold chr. cbn [String.append chunks].
  rewrite (proj2 (N.ltb_ge _ _)) by (rewrite byte_of by lia; lia).
  assert (seq2 (ascii_of_N (240 + r / 262144)) (ascii_of_N (128 + (r / 4096) `mod` 64)) = false) as ->.
  { bytes_ok. rewrite andb_false_iff. left. rewrite andb_false_iff. right. apply N.leb_gt. lia. }
  assert (seq3 (ascii_of_N (240 + r / 262144)) (ascii_of_N (128 + (r / 4096) `mod` 64)) (ascii_of_N (128 + (r / 64) `mod` 64)) = false) as ->.
  { bytes_ok. rewrite andb_false_iff. left.
    destruct (N.eqb_spec (240 + r / 262144) 224); [lia|]. destruct (N.eqb_spec (240 + r / 262144) 237); [lia|].
    rewrite !andb_false_iff. left. right. apply N.leb_gt. lia. }
  assert (seq4 (ascii_of_N (240 + r / 262144)) (ascii_of_N (128 + (r / 4096) `mod` 64))
    (ascii_of_N (128 + (r / 64) `mod` 64)) (ascii_of_N (128 + r `mod` 64)) = true) as ->.
  { bytes_ok. rewrite !andb_true_iff. split_and!; [|rewrite N.leb_le; lia..].
    destruct (N.eqb_spec (240 + r / 262144) 240); [rewrite andb_true_iff, !N.leb_le; lia|].
    destruct (N.eqb_spec (240 + r / 262144) 244); rewrite !andb_true_iff, !N.leb_le; lia. }
  f_equal. f_equal. bytes_ok. lia.
Qed.

Lemma chunks_encode r s : valid_rune r -> chunks (encode_rune r +:+ s) = (r, encode_rune r) :: chunks s.
Proof.
  intros Hv. unfold encode_rune. destruct (N.ltb_spec r 128); [by apply chunks_encode1|].
  destruct (N.ltb_spec r 2048); [by apply chunks_encode2|].
  assert (((55296 <=? r) && (r <=? 57343) || (1114111 <? r))%N = false) as ->.
  { unfold valid_rune in Hv. rewrite orb_false_iff, andb_false_iff, !N.leb_gt, N.ltb_ge. lia. }
  destruct (N.ltb_spec r 65536); [by apply chunks_encode3|]. apply chunks_encode4. unfold valid_rune in Hv. lia.
Qed.

(** Decoding a text that was encoded from code points. *)
Lemma runes_encode l t : Forall valid_rune l -> runes (cat (encode_rune <$> l) +:+ t) = l ++ runes t.
Proof.
  induction 1 as [|r l Hr _ IH]; [done|]. rewrite fmap_cons. cbn [cat foldr].
  change (foldr String.append "" (encode_rune <$> l)) with (cat (encode_rune <$> l)).
  rewrite <- app_str_assoc. unfold runes in *. rewrite chunks_encode by done. cbn. by rewrite IH.
Qed.

Lemma seq2_valid b0 b1 : seq2 b0 b1 = true -> valid_rune (low 32 b0 * 64 + low 64 b1).
Proof.
  unfold seq2. rewrite andb_true_iff. intros [H0 H1]. apply byte_range in H0, H1.
  rewrite (low_sub 32 6 b0), (low_sub 64 2 b1) by lia. left. lia.
Qed.

Lemma seq3_valid b0 b1 b2 : seq3 b0 b1 b2 = true -> valid_rune (low 16 b0 * 4096 + low 64 b1 * 64 + low 64 b2).
Proof.
  unfold seq3. rewrite andb_true_iff. intros [H0 H2]. apply byte_range in H2. rewrite (low_sub 64 2 b2) by lia.
  destruct (N.eqb_spec (byte b0) 224) as [E|]; [|destruct (N.eqb_spec (byte b0) 237) as [E|]].
  - apply byte_range in H0. rewrite (low_sub 16 14 b0), (low_sub 64 2 b1) by lia. left. lia.
  - apply byte_range in H0. rewrite (low_sub 16 14 b0), (low_sub 64 2 b1) by lia. left. lia.
  - rewrite andb_true_iff in H0. destruct H0 as [H0 H1]. apply byte_range in H0, H1.
    rewrite (low_sub 16 14 b0), (low_sub 64 2 b1) by lia. unfold valid_rune. lia.
Qed.

Lemma seq4_valid b0 b1 b2 b3 : seq4 b0 b1 b2 b3 = true ->
  valid_rune (low 8 b0 * 262144 + low 64 b1 * 4096 + low 64 b2 * 64 + low 64 b3).
Proof.
  unfold seq4. rewrite !andb_true_iff. intros [[H0 H2] H3]. apply byte_range in H2, H3.
  rewrite (low_sub 64 2 b2), (low_sub 64 2 b3) by lia.
  destruct (N.eqb_spec (byte b0) 240) as [E|]; [|destruct (N.eqb_spec (byte b0) 244) as [E|]].
  - apply byte_range in H0. rewrite (low_sub 8 30 b0), (low_sub 64 2 b1) by lia. unfold valid_rune. lia.
  - apply byte_range in H0. rewrite (low_sub 8 30 b0), (low_sub 64 2 b1) by lia. unfold valid_rune. lia.
  - rewrite andb_true_iff in H0. destruct H0 as [H0 H1]. apply byte_range in H0, H1.
    rewrite (low_sub 8 30 b0), (low_sub 64 2 b1) by lia. unfold valid_rune. lia.
Qed.

(** Decoding yields valid code points; a bad byte counts as U+FFFD. *)
Lemma runes_valid s : Forall valid_rune (runes s).
Proof.
  assert (valid_rune RuneError) as Herr by (unfold valid_rune, RuneError; lia).
  remember (String.length s) as n eqn:Hn. revert s Hn. induction (lt_wf n) as [n _ IH]. intros s ->.
  assert (forall s', (String.length s' < String.length s)%nat -> Forall valid_rune (runes s')) as Hs by (intros; by eapply IH).
  clear IH. destruct s as [|b0 s1]; [constructor|]. unfold runes in *. cbn [chunks].
  destruct (N.ltb_spec (byte b0) 128). { constructor; [unfold valid_rune; cbn; lia|]. apply Hs. simpl. lia. }
  assert (Forall valid_rune ((RuneError, String b0 "") :: chunks s1).*1) as Hbad.
  { constructor; [done|]. apply Hs. simpl. lia. }
  destruct s1 as [|b1 s2]; [done|]. destruct (seq2 b0 b1) eqn:E2.
  { constructor; [by apply seq2_valid|]. apply Hs. simpl. lia. }
  destruct s2 as [|b2 s3]; [done|]. destruct (seq3 b0 b1 b2) eqn:E3.
  { constructor; [by apply seq3_valid|]. apply Hs. simpl. lia. }
  destruct s3 as [|b3 s4]; [done|]. destruct (seq4 b0 b1 b2 b3) eqn:E4; [|done].
  constructor; [by apply seq4_valid|]. apply Hs. simpl. lia.
Qed.
