(* ===== verification/SqlUtil.v ===== *)
(** * internal/sqlutil: classifying SQL text

    [stripLiterals] blanks out literals, comments and quoted identifiers;
    [IsWriteQuery] routes a statement to Exec or Query, [RequiresWriteAccess]
    guards read-only connections and [HasReturningClause] finds writes that
    return rows.  The inner loops of [stripLiterals] are functions from the
    remaining text to the remaining text; the outer loop recurses on fuel, and
    [stripLiterals] starts it with more fuel than there are bytes. *)
From S2P Require Import Prelude GoStrings.

Definition eqc (a b : ascii) : bool := bool_decide (a = b).

Definition c_dash : ascii := "-".
Definition c_slash : ascii := "/".
Definition c_star : ascii := "*".
Definition c_squote : ascii := "'".
Definition c_dquote : ascii := "034".
Definition c_btick : ascii := "`".
Definition c_lbrack : ascii := "[".
Definition c_rbrack : ascii := "]".
Definition c_nl : ascii := "010".
Definition space : string := " ".

(** ** stripLiterals *)

(** [for i < len(sql) && sql[i] != '\n' { i++ }] *)
Fixpoint skip_line (s : string) : string :=
  match s with
  | EmptyString => ""
  | String c r => if decide (c = c_nl) then s else skip_line r
  end.

(** Up to and past the first [*/], or to the end. *)
Fixpoint skip_block (s : string) : string :=
  match s with
  | EmptyString => ""
  | String c r =>
    match r with
    | String d r' => if decide (c = c_star /\ d = c_slash) then r' else skip_block r
    | EmptyString => ""
    end
  end.

(** Past the closing quote [q], a doubled [q] being an escape; the three quote
    styles run the same loop. *)
Fixpoint skip_quote (q : ascii) (s : string) : string :=
  match s with
  | EmptyString => ""
  | String c r =>
    if decide (c = q) then
      match r with
      | String d r' => if decide (d = q) then skip_quote q r' else r
      | EmptyString => ""
      end
    else skip_quote q r
  end.

Fixpoint skip_bracket (s : string) : string :=
  match s with
  | EmptyString => ""
  | String c r => if decide (c = c_rbrack) then r else skip_bracket r
  end.

Definition is_quote (c : ascii) : bool :=
  bool_decide (c = c_squote \/ c = c_dquote \/ c = c_btick).

Fixpoint strip_loop (fuel : nat) (s : string) : string :=
  match fuel with
  | O => ""
  | S n =>
    match s with
    | EmptyString => ""
    | String ch r =>
      if decide (ch = c_dash /\ head_is (eqc c_dash) r = true)
      then space +:+ strip_loop n (skip_line (str_drop 1 r))
      else if decide (ch = c_slash /\ head_is (eqc c_star) r = true)
      then space +:+ strip_loop n (skip_block (str_drop 1 r))
      else if decide (ch = c_squote) then space +:+ strip_loop n (skip_quote c_squote r)
      else if decide (ch = c_dquote) then space +:+ strip_loop n (skip_quote c_dquote r)
      else if decide (ch = c_btick) then space +:+ strip_loop n (skip_quote c_btick r)
      else if decide (ch = c_lbrack) then space +:+ strip_loop n (skip_bracket r)
      else String ch (strip_loop n r)
    end
  end.

Definition stripLiterals (sql : string) : string := strip_loop (S (String.length sql)) sql.

(** ** Keywords *)

Definition writeKeywords : list string :=
  ["INSERT"; "UPDATE"; "DELETE"; "CREATE"; "DROP"; "ALTER"; "TRUNCATE"; "MERGE"].

Definition procedureKeywords : list string := ["EXEC"; "EXECUTE"; "CALL"].

Definition mutatingKeywords : list string := writeKeywords ++ procedureKeywords.

Definition isIdentChar (c : ascii) : bool :=
  in_range 97 122 c || in_range 65 90 c || in_range 48 57 c || (byte c =? 95)%N.

Section Classify.
Context `{UnicodeTables}.

Definition IsWriteQuery (sql : string) : bool :=
  let upper := ToUpper (TrimSpace (stripLiterals sql)) in
  if decide (upper = "") then false
  else if HasPrefix upper "WITH " then
    existsb (fun kw => Contains upper (kw +:+ space) || HasSuffix upper kw) writeKeywords
  else match Fields upper with
  | [] => false
  | w :: _ => bool_decide (w ∈ writeKeywords)
  end.

(** The scan over [upper]: skip a byte that is no identifier byte, otherwise
    cut the maximal run and look it up. *)
Fixpoint scan_words (fuel : nat) (s : string) : bool :=
  match fuel with
  | O => false
  | S n =>
    match s with
    | EmptyString => false
    | String c r =>
      if negb (isIdentChar c) then scan_words n r
      else let '(w, t) := span isIdentChar s in
           if decide (w ∈ mutatingKeywords) then true else scan_words n t
    end
  end.

Definition RequiresWriteAccess (sql : string) : bool :=
  let upper := ToUpper (stripLiterals sql) in
  scan_words (S (String.length upper)) upper.

(** [None] is the runtime panic of [stripped[idx-1]] when [idx], an offset into
    [upper], lies beyond [stripped]: upper-casing can change the byte length. *)
Definition HasReturningClause (sql : string) : option bool :=
  let stripped := stripLiterals sql in
  let upper := ToUpper stripped in
  if Contains upper "OUTPUT INSERTED" || Contains upper "OUTPUT DELETED" then Some true
  else match Index upper "RETURNING" with
  | None => Some false
  | Some idx =>
    let after := head_is isIdentChar (str_drop (idx + String.length "RETURNING") stripped) in
    match idx with
    | O => Some (negb after)
    | S k =>
      match String.get k stripped with
      | None => None
      | Some c => Some (negb (isIdentChar c) && negb after)
      end
    end
  end.
End Classify.

(** ** Fuel is enough *)

Lemma skip_line_length s : (String.length (skip_line s) <= String.length s)%nat.
Proof. induction s; simpl; [lia|]. case_decide; simpl; lia. Qed.

Lemma skip_block_length s : (String.length (skip_block s) <= String.length s)%nat.
Proof.
  induction s as [|c s IH]; simpl; [lia|]. destruct s as [|d s]; [simpl; lia|].
  case_decide; simpl in *; lia.
Qed.

Lemma skip_quote_length q s : (String.length (skip_quote q s) <= String.length s)%nat.
Proof.
  remember (String.length s) as n eqn:Hn. revert s Hn.
  induction (lt_wf n) as [n _ IH]; intros [|c s] ->; simpl; [lia|].
  case_decide.
  - destruct s as [|d s]; simpl; [lia|]. case_decide; simpl; [|lia].
    specialize (IH (String.length s) ltac:(simpl; lia) s eq_refl). lia.
  - specialize (IH (String.length s) ltac:(simpl; lia) s eq_refl). lia.
Qed.

Lemma skip_bracket_length s : (String.length (skip_bracket s) <= String.length s)%nat.
Proof. induction s; simpl; [lia|]. case_decide; simpl; lia. Qed.

Lemma str_drop_length n s : (String.length (str_drop n s) <= String.length s)%nat.
Proof. revert s; induction n; intros [|c s]; simpl; try lia. specialize (IHn s). lia. Qed.

#[export] Hint Resolve skip_line_length skip_block_length skip_quote_length
  skip_bracket_length str_drop_length span_length : sqlproxy.

Lemma strip_loop_fuel n m s :
  (String.length s < n)%nat -> (String.length s < m)%nat -> strip_loop n s = strip_loop m s.
Proof.
  revert m s. induction n as [|n IH]; intros m s Hn Hm; [lia|].
  destruct m as [|m]; [lia|]. destruct s as [|c r]; [done|]. simpl in Hn, Hm.
  pose proof (skip_line_length (str_drop 1 r)). pose proof (skip_block_length (str_drop 1 r)).
  pose proof (str_drop_length 1 r). pose proof (skip_bracket_length r).
  pose proof (fun q => skip_quote_length q r) as Hq.
  cbn [strip_loop]. repeat case_decide; f_equal; apply IH;
    match goal with
    | |- context [skip_quote ?q r] => specialize (Hq q); lia
    | _ => lia
    end.
Qed.

(** [stripLiterals] as the loop's equations, without the fuel. *)
Lemma stripLiterals_cons ch r :
  stripLiterals (String ch r) =
  if decide (ch = c_dash /\ head_is (eqc c_dash) r = true)
  then space +:+ stripLiterals (skip_line (str_drop 1 r))
  else if decide (ch = c_slash /\ head_is (eqc c_star) r = true)
  then space +:+ stripLiterals (skip_block (str_drop 1 r))
  else if is_quote ch then space +:+ stripLiterals (skip_quote ch r)
  else if decide (ch = c_lbrack) then space +:+ stripLiterals (skip_bracket r)
  else String ch (stripLiterals r).
Proof.
  unfold stripLiterals at 1. cbn [String.length].
  remember (S (String.length r)) as n eqn:Hn. cbn [strip_loop].
  pose proof (skip_line_length (str_drop 1 r)). pose proof (skip_block_length (str_drop 1 r)).
  pose proof (str_drop_length 1 r). pose proof (skip_bracket_length r).
  pose proof (fun q => skip_quote_length q r) as Hq.
  assert (forall t, (String.length t <= String.length r)%nat ->
    strip_loop n t = stripLiterals t) as E.
  { intros t Ht. unfold stripLiterals. apply strip_loop_fuel; lia. }
  rewrite !E by (lia || apply skip_quote_length). unfold is_quote.
  do 2 (destruct (decide (_ /\ _)); [done|]).
  destruct (decide (ch = c_squote)) as [->|]; [by rewrite bool_decide_true by auto|].
  destruct (decide (ch = c_dquote)) as [->|]; [by rewrite bool_decide_true by auto|].
  destruct (decide (ch = c_btick)) as [->|]; [by rewrite bool_decide_true by auto|].
  by rewrite bool_decide_false by (intros [?|[?|?]]; done).
Qed.

Lemma scan_words_fuel n m s :
  (String.length s < n)%nat -> (String.length s < m)%nat -> scan_words n s = scan_words m s.
Proof.
  revert m s. induction n as [|n IH]; intros m s Hn Hm; [lia|].
  destruct m as [|m]; [lia|]. destruct s as [|c r]; [done|].
  cbn [scan_words]. simpl in Hn, Hm. destruct (isIdentChar c) eqn:Ec; simpl negb; cbv iota.
  - pose proof (span_length isIdentChar r) as Hl.
    cbn [span]. rewrite Ec. destruct (span isIdentChar r) as [w t]; simpl in Hl.
    case_decide; [done|]. apply IH; lia.
  - apply IH; lia.
Qed.

(** ** A lexical grammar of SQL text

    The specification of [stripLiterals]: a text is a sequence of tokens, every
    literal, comment and quoted identifier is one token, and only the last one
    may be unterminated.  [wf] makes the tokenisation unambiguous. *)

Inductive token : Type :=
| TPlain (c : ascii)
| TLine (body : string)
| TBlock (body : string) (closed : bool)
| TQuote (q : ascii) (body : string) (closed : bool)
| TBracket (body : string) (closed : bool).

Fixpoint escape (q : ascii) (body : string) : string :=
  match body with
  | EmptyString => ""
  | String c r => if decide (c = q) then String q (String q (escape q r))
                  else String c (escape q r)
  end.

Definition close_with (closed : bool) (s : string) : string := if closed then s else "".

Definition render_tok (t : token) : string :=
  match t with
  | TPlain c => String c ""
  | TLine b => "--" +:+ b
  | TBlock b cl => "/*" +:+ b +:+ close_with cl "*/"
  | TQuote q b cl => String q (escape q b +:+ close_with cl (String q ""))
  | TBracket b cl => String c_lbrack (b +:+ close_with cl (String c_rbrack ""))
  end.

Definition render (ts : list token) : string := cat (render_tok <$> ts).

(** What the classifiers get to see of a token. *)
Definition mask_tok (t : token) : string :=
  match t with TPlain c => String c "" | _ => space end.

Definition mask (ts : list token) : string := cat (mask_tok <$> ts).

Definition wf_tok (t : token) (rest : string) : Prop :=
  match t with
  | TPlain c =>
    is_quote c = false /\ c <> c_lbrack /\
    ~ (c = c_dash /\ head_is (eqc c_dash) rest = true) /\
    ~ (c = c_slash /\ head_is (eqc c_star) rest = true)
  | TLine b => str_all (fun c => negb (eqc c_nl c)) b = true /\
               (rest = "" \/ head_is (eqc c_nl) rest = true)
  | TBlock b cl => Contains b "*/" = false /\ (cl = true \/ rest = "")
  | TQuote q b cl => is_quote q = true /\
                     if cl then head_is (eqc q) rest = false else rest = ""
  | TBracket b cl => str_all (fun c => negb (eqc c_rbrack c)) b = true /\
                     (cl = true \/ rest = "")
  end.

Fixpoint wf (ts : list token) : Prop :=
  match ts with
  | [] => True
  | t :: ts' => wf_tok t (render ts') /\ wf ts'
  end.

(** Tokens that differ only in the contents of literals and comments. *)
Definition same_shape (t u : token) : Prop :=
  match t, u with
  | TPlain c, TPlain d => c = d
  | TPlain _, _ | _, TPlain _ => False
  | _, _ => True
  end.

(** Each inner loop against its token. *)

Lemma eqc_true a b : eqc a b = true <-> a = b.
Proof. unfold eqc. by rewrite bool_decide_eq_true. Qed.

Lemma eqc_false a b : eqc a b = false <-> a <> b.
Proof. unfold eqc. by rewrite bool_decide_eq_false. Qed.

Lemma skip_line_app b rest :
  str_all (fun c => negb (eqc c_nl c)) b = true ->
  (rest = "" \/ head_is (eqc c_nl) rest = true) -> skip_line (b +:+ rest) = rest.
Proof.
  intros Hb Hr. induction b as [|c b IH]; simpl in *.
  - destruct rest as [|d rest]; [done|]. destruct Hr as [|Hr]; [done|].
    apply eqc_true in Hr. simpl. by rewrite decide_True by done.
  - bools. rewrite decide_False by (by intros ->; apply eqc_false in H). auto.
Qed.

Lemma skip_line_split s : exists b,
  s = b +:+ skip_line s /\ str_all (fun c => negb (eqc c_nl c)) b = true /\
  (skip_line s = "" \/ head_is (eqc c_nl) (skip_line s) = true).
Proof.
  induction s as [|c s (b & Hs & Hb & Hr)]; simpl; [by exists ""; auto|].
  case_decide as Hc.
  - exists "". subst c. simpl. auto.
  - exists (String c b). simpl. split_and!; [congruence| |done].
    rewrite Hb, andb_true_r. apply negb_true_iff, eqc_false. congruence.
Qed.

Lemma Contains_cons_false c s sub :
  Contains (String c s) sub = false -> String.prefix sub (String c s) = false /\ Contains s sub = false.
Proof.
  unfold Contains. cbn [Index]. destruct (String.prefix _ _); [done|].
  destruct (Index s sub); done.
Qed.

Lemma skip_block_cons c d r :
  skip_block (String c (String d r)) =
  if decide (c = c_star /\ d = c_slash) then r else skip_block (String d r).
Proof. done. Qed.

Lemma prefix_2 a b c r :
  String.prefix (String a (String b "")) (String c r) = true <->
  a = c /\ head_is (eqc b) r = true.
Proof.
  rewrite prefix_spec. split.
  - intros [t Ht]. simplify_eq/=. split; [done|]. by apply eqc_true.
  - intros [-> Hr]. destruct r as [|d r]; [done|]. apply eqc_true in Hr as ->. by exists r.
Qed.

Lemma prefix_close b : String.prefix "*/" (String c_star (String c_slash b)) = true.
Proof. by apply prefix_2. Qed.

Lemma skip_block_app b rest :
  Contains b "*/" = false -> skip_block (b +:+ "*/" +:+ rest) = rest.
Proof.
  induction b as [|c b IH]; intros Hb; [done|].
  apply Contains_cons_false in Hb as [Hp Hb]. specialize (IH Hb).
  rewrite app_str_cons. destruct b as [|d b].
  - change ("" +:+ "*/" +:+ rest) with (String c_star (String c_slash rest)) in *.
    rewrite skip_block_cons, decide_False by (by intros [_ ?]). done.
  - rewrite app_str_cons in *. rewrite skip_block_cons.
    rewrite decide_False; [done|]. intros [-> ->].
    by rewrite prefix_close in Hp.
Qed.

Lemma skip_block_none b : Contains b "*/" = false -> skip_block b = "".
Proof.
  induction b as [|c b IH]; intros Hb; [done|].
  apply Contains_cons_false in Hb as [Hp Hb]. specialize (IH Hb).
  destruct b as [|d b]; [done|]. rewrite skip_block_cons, decide_False; [done|].
  intros [-> ->]. by rewrite prefix_close in Hp.
Qed.

Lemma skip_block_split s :
  (exists b, s = b +:+ "*/" +:+ skip_block s /\ Contains b "*/" = false) \/
  (Contains s "*/" = false /\ skip_block s = "").
Proof.
  induction s as [|c s IH]; [by right|].
  destruct s as [|d s].
  { right. split; [|done]. unfold Contains. cbn [Index].
    assert (String.prefix "*/" (String c "") = false) as ->; [|done].
    apply not_true_iff_false. rewrite prefix_2. by intros []. }
  rewrite skip_block_cons. case_decide as Hc.
  { destruct Hc as [-> ->]. left. by exists "". }
  assert (String.prefix "*/" (String c (String d s)) = false) as Hp.
  { apply not_true_iff_false. rewrite prefix_2. simpl.
    intros [<- Hd]. apply eqc_true in Hd as <-. by apply Hc. }
  destruct IH as [(b & Hs & Hb)|[Hn Hs]].
  - left. exists (String c b). split; [by rewrite app_str_cons, <- Hs|].
    unfold Contains in *. cbn [Index]. destruct (Index b "*/") as [i|]; [done|].
    assert (String.prefix "*/" (String c b) = false) as ->; [|done].
    apply not_true_iff_false. rewrite prefix_2. intros [<- Hd].
    destruct b as [|e b]; [done|]. simplify_eq/=. apply eqc_true in Hd as <-. by apply Hc.
  - right. split; [|done]. unfold Contains in *. cbn [Index]. cbn [Index] in Hn.
    rewrite Hp. by destruct (if String.prefix _ _ then _ else _).
Qed.

Lemma skip_quote_app q b rest :
  head_is (eqc q) rest = false -> skip_quote q (escape q b +:+ String q rest) = rest.
Proof.
  intros Hr. induction b as [|c b IH]; simpl.
  - rewrite decide_True by done. destruct rest as [|d rest]; [done|].
    simpl in Hr. apply eqc_false in Hr. by rewrite decide_False by done.
  - case_decide; simpl; [by rewrite !decide_True by done|by rewrite decide_False by done].
Qed.

Lemma skip_quote_open q b : skip_quote q (escape q b) = "".
Proof.
  induction b as [|c b IH]; simpl; [done|].
  case_decide; simpl; [by rewrite !decide_True by done|by rewrite decide_False by done].
Qed.

Lemma skip_quote_split q s :
  (exists b, s = escape q b +:+ String q (skip_quote q s) /\ head_is (eqc q) (skip_quote q s) = false) \/
  (exists b, s = escape q b /\ skip_quote q s = "").
Proof.
  remember (String.length s) as n eqn:Hn. revert s Hn.
  induction (lt_wf n) as [n _ IH]; intros [|c s] ->; [right; by exists ""|].
  simpl. case_decide as Hc.
  - subst c. destruct s as [|d s]; [left; by exists ""|].
    case_decide as Hd.
    + subst d. destruct (IH (String.length s) ltac:(simpl; lia) s eq_refl)
        as [(b & Hs & Hr)|(b & Hs & Hr)].
      * left. exists (String q b). simpl. rewrite decide_True by done. split; [|done].
        simpl. by rewrite <- Hs.
      * right. exists (String q b). simpl. rewrite decide_True by done. by rewrite <- Hs.
    + left. exists "". split; [done|]. simpl. apply eqc_false. congruence.
  - destruct (IH (String.length s) ltac:(simpl; lia) s eq_refl)
      as [(b & Hs & Hr)|(b & Hs & Hr)]; [left|right];
      exists (String c b); simpl; rewrite decide_False by done; split; try done;
      simpl; by rewrite <- Hs.
Qed.

Lemma skip_bracket_app b rest :
  str_all (fun c => negb (eqc c_rbrack c)) b = true ->
  skip_bracket (b +:+ String c_rbrack rest) = rest.
Proof.
  intros Hb. induction b as [|c b IH]; simpl in *; [done|]. bools.
  rewrite decide_False by (by intros ->; apply eqc_false in H). auto.
Qed.

Lemma skip_bracket_none b : str_all (fun c => negb (eqc c_rbrack c)) b = true -> skip_bracket b = "".
Proof.
  intros Hb. induction b as [|c b IH]; simpl in *; [done|]. bools.
  rewrite decide_False by (by intros ->; apply eqc_false in H). auto.
Qed.

Lemma skip_bracket_split s :
  (exists b, s = b +:+ String c_rbrack (skip_bracket s) /\
             str_all (fun c => negb (eqc c_rbrack c)) b = true) \/
  (str_all (fun c => negb (eqc c_rbrack c)) s = true /\ skip_bracket s = "").
Proof.
  induction s as [|c s IH]; simpl; [by right|]. case_decide as Hc.
  { subst c. left. by exists "". }
  assert (negb (eqc c_rbrack c) = true) as Hn by (apply negb_true_iff, eqc_false; congruence).
  destruct IH as [(b & Hs & Hb)|[Hb Hs]]; [left|right; by rewrite Hn, Hb].
  exists (String c b). simpl. rewrite Hn, Hb. split; [by rewrite <- Hs|done].
Qed.

Lemma render_cons t ts : render (t :: ts) = render_tok t +:+ render ts.
Proof. done. Qed.

(** One token: the loop emits its mask and resumes right after it. *)
Lemma strip_tok t rest :
  wf_tok t rest -> stripLiterals (render_tok t +:+ rest) = mask_tok t +:+ stripLiterals rest.
Proof.
  assert (forall q, is_quote q = true -> q <> c_dash /\ q <> c_slash) as Hqn.
  { unfold is_quote. intros q Hq%bool_decide_eq_true. by destruct Hq as [->|[->| ->]]. }
  destruct t as [c|b|b cl|q b cl|b cl]; simpl; intros Hwf.
  - destruct Hwf as (Hq & Hb & Hd & Hs). rewrite stripLiterals_cons, Hq.
    by rewrite !decide_False by done.
  - destruct Hwf as [Hb Hr]. rewrite stripLiterals_cons, decide_True by done.
    cbn [str_drop]. by rewrite skip_line_app.
  - destruct Hwf as [Hb Hr]. rewrite stripLiterals_cons, decide_False by (by intros [? _]).
    rewrite decide_True by done. cbn [str_drop]. destruct cl; simpl.
    + rewrite <- app_str_assoc. by rewrite skip_block_app.
    + destruct Hr as [| ->]; [done|]. by rewrite !app_str_nil_r, skip_block_none.
  - destruct Hwf as [Hq Hr]. destruct (Hqn _ Hq). rewrite stripLiterals_cons, Hq.
    rewrite !decide_False by (by intros [? _]). destruct cl; simpl.
    + rewrite <- app_str_assoc. simpl. by rewrite skip_quote_app.
    + subst rest. by rewrite !app_str_nil_r, skip_quote_open.
  - destruct Hwf as [Hb Hr]. rewrite stripLiterals_cons, !decide_False by (by intros [? _]).
    change (is_quote c_lbrack) with false. cbv iota. rewrite decide_True by done. destruct cl; simpl.
    + rewrite <- app_str_assoc. simpl. by rewrite skip_bracket_app.
    + destruct Hr as [| ->]; [done|]. by rewrite !app_str_nil_r, skip_bracket_none.
Qed.

Lemma strip_mask ts : wf ts -> stripLiterals (render ts) = mask ts.
Proof.
  induction ts as [|t ts IH]; [done|]. intros [Ht Hts].
  rewrite render_cons, strip_tok by done. by rewrite IH.
Qed.

(** Every text has a tokenisation. *)
Lemma lex_step s : s <> "" ->
  exists t rest, s = render_tok t +:+ rest /\ wf_tok t rest /\
                 (String.length rest < String.length s)%nat.
Proof.
  destruct s as [|ch r]; [done|]. intros _.
  destruct (decide (ch = c_dash /\ head_is (eqc c_dash) r = true)) as [[-> Hh]|Hd].
  { destruct r as [|d r]; [done|]. apply eqc_true in Hh as <-.
    destruct (skip_line_split r) as (b & Hr & Hb & Hn). pose proof (skip_line_length r).
    exists (TLine b), (skip_line r). simpl. rewrite <- Hr. split_and!; auto; lia. }
  destruct (decide (ch = c_slash /\ head_is (eqc c_star) r = true)) as [[-> Hh]|Hs].
  { destruct r as [|d r]; [done|]. apply eqc_true in Hh as <-. pose proof (skip_block_length r).
    destruct (skip_block_split r) as [(b & Hr & Hb)|[Hb Hr]].
    - exists (TBlock b true), (skip_block r). simpl. rewrite <- app_str_assoc, <- Hr.
      split_and!; auto; lia.
    - exists (TBlock r false), "". simpl. rewrite !app_str_nil_r. split_and!; auto; lia. }
  destruct (is_quote ch) eqn:Hq.
  { pose proof (skip_quote_length ch r).
    destruct (skip_quote_split ch r) as [(b & Hr & Hb)|(b & Hr & Hb)].
    - exists (TQuote ch b true), (skip_quote ch r). simpl. rewrite <- app_str_assoc. simpl.
      rewrite <- Hr. split_and!; auto; lia.
    - exists (TQuote ch b false), "". simpl. rewrite !app_str_nil_r, <- Hr.
      split_and!; auto; lia. }
  destruct (decide (ch = c_lbrack)) as [->|Hb'].
  { pose proof (skip_bracket_length r).
    destruct (skip_bracket_split r) as [(b & Hr & Hb)|[Hb Hr]].
    - exists (TBracket b true), (skip_bracket r). simpl. rewrite <- app_str_assoc. simpl.
      rewrite <- Hr. split_and!; auto; lia.
    - exists (TBracket r false), "". simpl. rewrite !app_str_nil_r. split_and!; auto; lia. }
  exists (TPlain ch), r. simpl. split_and!; auto; lia.
Qed.

Lemma lex_exists s : exists ts, wf ts /\ render ts = s.
Proof.
  remember (String.length s) as n eqn:Hn. revert s Hn.
  induction (lt_wf n) as [n _ IH]; intros s ->.
  destruct (decide (s = "")) as [->|Hs]; [by exists []|].
  destruct (lex_step s Hs) as (t & rest & Hs' & Hw & Hl).
  destruct (IH _ Hl rest eq_refl) as (ts & Hts & Hr).
  exists (t :: ts). simpl. rewrite render_cons, Hr. auto.
Qed.

Lemma same_shape_mask ts us : Forall2 same_shape ts us -> mask ts = mask us.
Proof.
  induction 1 as [|t u ts us Htu _ IH]; [done|].
  change (mask_tok t +:+ mask ts = mask_tok u +:+ mask us). rewrite IH.
  destruct t, u; simpl in *; by subst.
Qed.

(** ** Words *)

(** [w] occurs in [s] as a maximal run of identifier bytes. *)
Definition is_word (w s : string) : Prop :=
  exists pre post, s = pre +:+ w +:+ post /\
    str_last_is isIdentChar pre = false /\ head_is isIdentChar post = false.

Lemma all_ident_prefix w t x y :
  w +:+ t = x +:+ y -> str_all isIdentChar w = true -> str_all isIdentChar x = true ->
  head_is isIdentChar t = false -> head_is isIdentChar y = false -> w = x /\ t = y.
Proof.
  revert x. induction w as [|c w IH]; intros [|d x] E Hw Hx Ht Hy; simpl in *; bools; subst; auto.
  - simpl in Ht. congruence.
  - simpl in Hy. congruence.
  - simplify_eq. destruct (IH x) as [-> ->]; auto.
Qed.

Lemma ident_prefix_of w t pre x :
  w +:+ t = pre +:+ x -> str_all isIdentChar w = true ->
  pre <> "" -> str_last_is isIdentChar pre = false ->
  exists pre', pre = w +:+ pre' /\ t = pre' +:+ x /\ pre' <> "".
Proof.
  revert pre. induction w as [|c w IH]; intros pre E Hw Hp Hl; simpl in *; [by exists pre|].
  destruct pre as [|d pre]; [done|]. simplify_eq/=. bools.
  destruct pre as [|e pre]; [congruence|].
  destruct (IH (String e pre)) as (pre' & -> & Ht & Hne); auto. by exists pre'.
Qed.

Lemma str_last_is_app_ne p a b : b <> "" -> str_last_is p (a +:+ b) = str_last_is p b.
Proof. destruct b; [done|]. intros _. apply str_last_is_app. Qed.

Lemma mutatingKeywords_ident kw :
  kw ∈ mutatingKeywords -> kw <> "" /\ str_all isIdentChar kw = true.
Proof.
  revert kw. apply Forall_forall. repeat (constructor; [done|]). constructor.
Qed.

Lemma scan_words_spec s :
  scan_words (S (String.length s)) s = true <->
  exists kw, kw ∈ mutatingKeywords /\ is_word kw s.
Proof.
  pose proof mutatingKeywords_ident as Hkw. remember (String.length s) as n eqn:Hn. revert s Hn.
  induction (lt_wf n) as [n _ IH]; intros s ->.
  destruct s as [|c r].
  { split; [done|]. intros (kw & Hk & pre & post & E & _).
    symmetry in E. apply app_str_eq_nil in E as [_ E]. apply app_str_eq_nil in E as [-> _].
    by destruct (Hkw _ Hk). }
  cbn [String.length]. remember (S (String.length r)) as m eqn:Hm.
  cbn [scan_words]. destruct (isIdentChar c) eqn:Ec; simpl negb; cbv iota.
  - destruct (span isIdentChar (String c r)) as [w t] eqn:Es.
    assert (String.length t <= String.length r)%nat as Hl.
    { cbn [span] in Es. rewrite Ec in Es. pose proof (span_length isIdentChar r).
      destruct (span isIdentChar r); simplify_eq/=. lia. }
    apply span_spec in Es as (Es & Hw & Ht). rewrite Es. case_decide as Hin.
    { split; [|done]. intros _. exists w. split; [done|]. by exists "", t. }
    rewrite (scan_words_fuel _ (S (String.length t))) by lia.
    rewrite (IH (String.length t)) by (simpl; lia || done).
    split; intros (kw & Hk & pre & post & E & Hp & Hq); exists kw; (split; [done|]).
    + destruct (Hkw _ Hk) as [Hne Hall]. exists (w +:+ pre), post.
      split_and!; [by rewrite <- app_str_assoc, <- E| |done].
      destruct (decide (pre = "")) as [->|]; [|by rewrite str_last_is_app_ne].
      subst t. destruct kw as [|k kw]; [done|]. simpl in *. bools. congruence.
    + destruct (Hkw _ Hk) as [Hne Hall]. destruct (decide (pre = "")) as [->|Hpre].
      * simpl in E. apply all_ident_prefix in E as [-> ->]; auto. done.
      * apply ident_prefix_of in E as (pre' & -> & -> & Hne'); auto.
        exists pre', post. split_and!; [done| |done].
        by rewrite str_last_is_app_ne in Hp.
  - subst m. rewrite (IH (String.length r)) by (simpl; lia || done).
    split; intros (kw & Hk & pre & post & E & Hp & Hq); exists kw; (split; [done|]).
    + exists (String c pre), post. split_and!; [by rewrite E| |done].
      simpl. by destruct pre.
    + destruct (Hkw _ Hk) as [Hne Hall]. destruct pre as [|d pre].
      * destruct kw as [|k kw]; [done|]. simplify_eq/=. bools. congruence.
      * simplify_eq/=. exists pre, post. split_and!; [done| |done]. by destruct pre.
Qed.

(** ** ASCII text: trimming, fields and case *)

Definition single (p : N * string) : Prop := exists c, p = (byte c, String c "").

Lemma chunks_single s : ascii_only s = true -> Forall single (chunks s).
Proof.
  unfold ascii_only. induction s as [|c s IH]; simpl str_all; intros Hs; [constructor|].
  bools. rewrite chunks_ascii by done. constructor; [by exists c|auto].
Qed.

Lemma space_not_ident c : is_space (byte c) = true -> isIdentChar c = false.
Proof. destruct c as [[] [] [] [] [] [] [] []]; vm_compute; congruence. Qed.

Lemma space_upper c : is_ascii c = true -> is_space (byte c) = true -> char_upper c = c.
Proof. destruct c as [[] [] [] [] [] [] [] []]; vm_compute; congruence. Qed.

(** No byte of [s] belongs to an identifier. *)
Definition no_ident (s : string) : bool := str_all (fun c => negb (isIdentChar c)) s.

Lemma no_ident_last s : no_ident s = true -> str_last_is isIdentChar s = false.
Proof.
  induction s as [|c s IH]; [done|]. unfold no_ident in *. simpl. intros ?; bools.
  destruct s; auto.
Qed.

Lemma no_ident_head s : no_ident s = true -> head_is isIdentChar s = false.
Proof. destruct s; [done|]. unfold no_ident. simpl. intros ?; by bools. Qed.

Lemma spaces_no_ident l :
  Forall single l -> Forall (fun p => is_space p.1 = true) l -> no_ident (cat l.*2) = true.
Proof.
  induction 1 as [|p l [c ->] _ IH]; inversion_clear 1; [done|].
  rewrite cat_cons. unfold no_ident in *. rewrite str_all_app, IH by done.
  simpl in *. by rewrite space_not_ident.
Qed.

Lemma drop_spaces_split l :
  exists l1, l = l1 ++ drop_spaces l /\ Forall (fun p => is_space p.1 = true) l1.
Proof.
  induction l as [|[r b] l (l1 & E & Hl)]; simpl; [by exists []|].
  destruct (is_space r) eqn:Er; [|by exists []].
  exists ((r, b) :: l1). split; [by rewrite E at 1|by constructor].
Qed.

Lemma TrimSpace_split s :
  exists l1 l2, chunks s = l1 ++ (reverse (drop_spaces (reverse (drop_spaces (chunks s))))) ++ l2 /\
    Forall (fun p => is_space p.1 = true) l1 /\ Forall (fun p => is_space p.1 = true) l2.
Proof.
  destruct (drop_spaces_split (chunks s)) as (l1 & E1 & H1).
  destruct (drop_spaces_split (reverse (drop_spaces (chunks s)))) as (l2 & E2 & H2).
  exists l1, (reverse l2). split_and!; [|done|by apply Forall_reverse].
  rewrite E1 at 1. f_equal. by rewrite <- reverse_app, <- E2, reverse_involutive.
Qed.

(** The first field and what stands around it. *)
Lemma fields_first cur l w ws :
  Forall single l -> fields_loop cur l = w :: ws ->
  exists l1 l2 l3, l = l1 ++ l2 ++ l3 /\ Forall (fun p => is_space p.1 = true) l1 /\
    (cur <> "" -> l1 = []) /\ w = cur +:+ cat l2.*2 /\
    Forall (fun p => is_space p.1 = true) (take 1 l3).
Proof.
  intros Hl. revert cur. induction Hl as [|[r b] l [c Hc] Hl IH]; intros cur; cbn [fields_loop].
  { case_decide; [done|]. intros; simplify_eq. exists [], [], [].
    split_and!; auto. by rewrite app_str_nil_r. }
  simplify_eq. destruct (is_space (byte c)) eqn:Er.
  - case_decide as Hc; intros E.
    + destruct (IH _ E) as (l1 & l2 & l3 & -> & Hs & _ & Hw & H3).
      exists ((byte c, String c "") :: l1), l2, l3.
      split_and!; [done|by constructor|by intros []|by subst cur|done].
    + simplify_eq. exists [], [], ((byte c, String c "") :: l).
      split_and!; auto; [by rewrite app_str_nil_r|by repeat constructor].
  - intros E. destruct (IH _ E) as (l1 & l2 & l3 & -> & Hs & Hcur & Hw & H3).
    rewrite Hcur by (by intros [_ ?]%app_str_eq_nil).
    exists [], ((byte c, String c "") :: l2), l3. split_and!; auto.
    by rewrite Hw, cat_cons, app_str_assoc.
Qed.

Lemma str_map_spaces l :
  Forall single l -> Forall (fun p => is_space p.1 = true) l -> ascii_only (cat l.*2) = true ->
  str_map char_upper (cat l.*2) = cat l.*2.
Proof.
  induction 1 as [|p l [c ->] _ IH]; inversion_clear 1; [done|].
  rewrite cat_cons. unfold ascii_only in *. simpl. intros ?; bools.
  rewrite space_upper by done. by rewrite IH.
Qed.

Lemma ascii_only_app a b : ascii_only (a +:+ b) = ascii_only a && ascii_only b.
Proof. apply str_all_app. Qed.

Lemma char_upper_ascii c : is_ascii c = true -> is_ascii (char_upper c) = true.
Proof. destruct c as [[] [] [] [] [] [] [] []]; vm_compute; congruence. Qed.

Lemma ascii_only_upper s : ascii_only s = true -> ascii_only (str_map char_upper s) = true.
Proof.
  unfold ascii_only. induction s; [done|]. simpl. intros ?; bools.
  by rewrite char_upper_ascii, IHs.
Qed.

Lemma char_upper_ident c : is_ascii c = true -> isIdentChar (char_upper c) = isIdentChar c.
Proof. destruct c as [[] [] [] [] [] [] [] []]; vm_compute; congruence. Qed.

Lemma head_upper s :
  ascii_only s = true -> head_is isIdentChar (str_map char_upper s) = head_is isIdentChar s.
Proof. destruct s; [done|]. unfold ascii_only. simpl. intros ?; bools. by apply char_upper_ident. Qed.

Lemma last_upper s :
  ascii_only s = true -> str_last_is isIdentChar (str_map char_upper s) = str_last_is isIdentChar s.
Proof.
  unfold ascii_only. induction s as [|c s IH]; [done|]. simpl. intros ?; bools.
  destruct s; [by apply char_upper_ident|]. by apply IH.
Qed.

Lemma str_map_split f s x y :
  str_map f s = x +:+ y -> exists a b, s = a +:+ b /\ str_map f a = x /\ str_map f b = y.
Proof.
  revert s. induction x as [|c x IH]; intros s E; [by exists "", s|].
  destruct s as [|d s]; [done|]. simplify_eq/=.
  destruct (IH _ H) as (a & b & -> & <- & <-). by exists (String d a), b.
Qed.

Lemma get_last p k a t :
  String.length a = S k -> exists c, String.get k (a +:+ t) = Some c /\ str_last_is p a = p c.
Proof.
  revert k. induction a as [|c a IH]; intros k Hk; simplify_eq/=.
  destruct a as [|d a]; [by exists c|]. destruct (IH _ eq_refl) as (e & He & Hl). by exists e.
Qed.

Section Theorems.
Context `{UnicodeTables}.

(** The upper-cased text is the trimmed one between two runs of spaces. *)
Lemma upper_trim s :
  ascii_only s = true ->
  exists a b, ToUpper s = a +:+ ToUpper (TrimSpace s) +:+ b /\
    no_ident a = true /\ no_ident b = true /\ ascii_only (ToUpper (TrimSpace s)) = true.
Proof.
  intros Hs. destruct (TrimSpace_split s) as (l1 & l2 & E & H1 & H2).
  assert (s = cat l1.*2 +:+ TrimSpace s +:+ cat l2.*2) as Es.
  { rewrite <- (cat_chunks s) at 1. rewrite E at 1. rewrite !fmap_app, !cat_app. done. }
  pose proof (chunks_single s Hs) as Hsg. rewrite E in Hsg.
  apply Forall_app in Hsg as [Hs1 [_ Hs2]%Forall_app].
  pose proof Hs as Ha. rewrite Es, !ascii_only_app in Ha. bools.
  exists (cat l1.*2), (cat l2.*2).
  rewrite !ToUpper_ascii_only by done. split_and!; auto using spaces_no_ident, ascii_only_upper.
  rewrite Es at 1. rewrite !str_map_app. f_equal; [by apply str_map_spaces|].
  f_equal. by apply str_map_spaces.
Qed.

Lemma first_field_word s w ws :
  ascii_only s = true -> Fields s = w :: ws ->
  exists a b, s = a +:+ w +:+ b /\ no_ident a = true /\ head_is isIdentChar b = false.
Proof.
  intros Hs E. pose proof (chunks_single s Hs) as Hsg.
  destruct (fields_first "" (chunks s) w ws Hsg E) as (l1 & l2 & l3 & El & H1 & _ & -> & H3).
  rewrite El in Hsg. apply Forall_app in Hsg as [Hs1 [_ Hs3]%Forall_app].
  exists (cat l1.*2), (cat l3.*2). split_and!.
  - rewrite <- (cat_chunks s) at 1. by rewrite El, !fmap_app, !cat_app.
  - by apply spaces_no_ident.
  - destruct Hs3 as [|p l3 [c ->] _]; [done|]. inversion_clear H3. simpl.
    by apply space_not_ident.
Qed.

(** the specification of [stripLiterals].  Every SQL text is a sequence of
    plain bytes and literal, comment or quoted-identifier tokens (the last one
    possibly unterminated), and on every such sequence the function outputs the
    plain bytes in order and one space per token, whatever the token contains. *)
Theorem stripLiterals_spec :
  (forall sql, exists ts, wf ts /\ render ts = sql) /\
  (forall ts, wf ts -> stripLiterals (render ts) = mask ts).
Proof. split; [apply lex_exists | apply strip_mask]. Qed.

(** the three classifiers give the same answer on two texts that differ only
    in the contents of literals, comments and quoted identifiers. *)
Theorem classifiers_ignore_literals ts us :
  wf ts -> wf us -> Forall2 same_shape ts us ->
  IsWriteQuery (render ts) = IsWriteQuery (render us) /\
  RequiresWriteAccess (render ts) = RequiresWriteAccess (render us) /\
  HasReturningClause (render ts) = HasReturningClause (render us).
Proof.
  intros Ht Hu E%same_shape_mask.
  unfold IsWriteQuery, RequiresWriteAccess, HasReturningClause.
  by rewrite (strip_mask ts Ht), (strip_mask us Hu), E.
Qed.

(** C37: [RequiresWriteAccess] is true exactly when a mutating keyword occurs, as
    a whole word, anywhere in the upper-cased text outside literals. *)
Theorem RequiresWriteAccess_spec sql :
  RequiresWriteAccess sql = true <->
  exists kw, kw ∈ mutatingKeywords /\ is_word kw (ToUpper (stripLiterals sql)).
Proof. apply scan_words_spec. Qed.

(** a statement that does not start with [WITH] and is routed as a write needs
    write access (text outside literals being ASCII). *)
Theorem write_routing_needs_access sql :
  ascii_only (stripLiterals sql) = true ->
  HasPrefix (ToUpper (TrimSpace (stripLiterals sql))) "WITH " = false ->
  IsWriteQuery sql = true -> RequiresWriteAccess sql = true.
Proof.
  intros Ha Hw. unfold IsWriteQuery. rewrite Hw. case_decide; [done|].
  destruct (Fields _) as [|w ws] eqn:Ef; [done|].
  intros Hin%bool_decide_eq_true. apply scan_words_spec. exists w.
  split; [by apply elem_of_app; left|].
  destruct (upper_trim _ Ha) as (a & b & E & Hna & Hnb & Hu).
  destruct (first_field_word _ _ _ Hu Ef) as (a' & b' & E' & Hna' & Hb').
  exists (a +:+ a'), (b' +:+ b). split_and!.
  - rewrite E, E'. by rewrite <- !app_str_assoc.
  - apply no_ident_last. unfold no_ident in *. by rewrite str_all_app, Hna, Hna'.
  - destruct b'; [by apply no_ident_head|done].
Qed.

(** on ASCII text [HasReturningClause] never panics, and answers true only when
    the text has [OUTPUT INSERTED], [OUTPUT DELETED] or the word [RETURNING]. *)
Theorem HasReturningClause_sound sql :
  ascii_only (stripLiterals sql) = true ->
  exists b, HasReturningClause sql = Some b /\
    (b = true -> Contains (ToUpper (stripLiterals sql)) "OUTPUT INSERTED" = true \/
                 Contains (ToUpper (stripLiterals sql)) "OUTPUT DELETED" = true \/
                 is_word "RETURNING" (ToUpper (stripLiterals sql))).
Proof.
  intros Ha. unfold HasReturningClause. rewrite ToUpper_ascii_only by done.
  set (s := stripLiterals sql) in *.
  destruct (Contains _ "OUTPUT INSERTED"); [exists true; auto|].
  destruct (Contains _ "OUTPUT DELETED"); [exists true; auto|]. cbv iota.
  destruct (Index _ "RETURNING") as [idx|] eqn:E; [|by exists false].
  apply Index_Some in E as (pre & post & E & Hl).
  destruct (str_map_split _ _ _ _ E) as (a & t & Es & Hpre & Ht).
  destruct (str_map_split _ _ _ _ Ht) as (w & b & Et & Hword & Hpost).
  rewrite Es, Et, !ascii_only_app in Ha. bools.
  assert (str_drop (idx + String.length "RETURNING") s = b) as ->.
  { rewrite Es, Et, app_str_assoc, <- Hl, <- Hpre, <- Hword, !length_str_map, <- length_app_str.
    apply str_drop_app. }
  assert (isw : forall x, (negb x && negb (head_is isIdentChar b) = true) ->
            str_last_is isIdentChar pre = x -> is_word "RETURNING" (str_map char_upper s)).
  { intros x Hx Hlast. bools. exists pre, post. split_and!; [done|congruence|].
    rewrite <- Hpost, head_upper; done. }
  destruct idx as [|k].
  - eexists; split; [done|]. intros Hb. right; right. apply (isw false); [done|].
    by destruct pre.
  - destruct (get_last isIdentChar k a t) as (c & Hc & Hlast).
    { by rewrite <- (length_str_map char_upper a), Hpre. }
    rewrite Es, Hc. eexists; split; [done|]. intros Hb. right; right.
    rewrite <- Es. apply (isw (isIdentChar c)); [done|]. by rewrite <- Hpre, last_upper.
Qed.

(** the routing test is not contained in the permission test.  A [WITH] query
    that only mentions a column ending in a write keyword is routed as a write,
    although it needs no write access. *)
Theorem cte_routed_as_write :
  exists sql, IsWriteQuery sql = true /\ RequiresWriteAccess sql = false /\
              HasReturningClause sql = Some false.
Proof.
  exists "WITH r AS (SELECT last_update FROM t) SELECT last_update FROM r".
  by vm_compute.
Qed.
End Theorems.

(** [HasReturningClause] is incomplete and partial.  A [RETURNING] clause is
    missed when the text has an identifier containing the word before it, and
    text whose upper-case form is longer can make it index out of range. *)
Theorem HasReturningClause_incomplete :
  (forall `{UnicodeTables}, exists sql, ascii_only sql = true /\
     is_word "RETURNING" (ToUpper (stripLiterals sql)) /\ HasReturningClause sql = Some false) /\
  (exists sql, @HasReturningClause sample_tables sql = None).
Proof.
  split.
  - intros U. exists "UPDATE t SET returning_id = 1 RETURNING id".
    split_and!; [done| |by vm_compute].
    exists "UPDATE T SET RETURNING_ID = 1 ", " ID". by vm_compute.
  - exists (cat (replicate 30 (encode_rune 592)) +:+ " RETURNING"). by vm_compute.
Qed.

(** ** Witnesses *)

Definition select_str (body : string) : list token :=
  [TPlain "S"; TPlain " "; TQuote c_squote body true; TPlain ";"; TLine body].

Lemma classifiers_ignore_literals_witness :
  (@RequiresWriteAccess sample_tables (render (select_str "x; DROP TABLE t"))
   = @RequiresWriteAccess sample_tables (render (select_str "y"))) /\
  render (select_str "y") = "S 'y';--y".
Proof.
  split; [|done]. apply (@classifiers_ignore_literals sample_tables).
  - vm_compute. naive_solver.
  - vm_compute. naive_solver.
  - repeat constructor.
Defined.

Lemma write_routing_needs_access_witness :
  @RequiresWriteAccess sample_tables " delete from t where a = 'WITH '" = true.
Proof. apply (@write_routing_needs_access sample_tables); by vm_compute. Defined.

Lemma HasReturningClause_sound_witness :
  exists b, @HasReturningClause sample_tables "INSERT INTO t VALUES (1) RETURNING id" = Some b /\ b = true.
Proof.
  destruct (@HasReturningClause_sound sample_tables "INSERT INTO t VALUES (1) RETURNING id")
    as (b & Hb & _); [by vm_compute|].
  exists b. split; [exact Hb|]. vm_compute in Hb. congruence.
Defined.
