(* ===== verification/PublicID.v ===== *)
(** * internal/publicid: encrypted public identifiers

    A 64-bit row id is encrypted with XTEA under a key derived per namespace,
    written in base 62 over eleven characters and given the namespace's prefix.
    HMAC-SHA256 of the Go library is a member of a class with its documented
    output length; nothing else about it is needed for the round trips. *)
From S2P Require Import Prelude GoStrings.

Class Hmac := {
  hmac_sha256 : string -> string -> string;
  hmac_sha256_length : forall k msg, String.length (hmac_sha256 k msg) = 32%nat;
}.

(** ** Data *)

Record NamespaceConfig := { nc_Name : string; nc_Prefix : string }.

(** The XTEA key [[4]uint32]. *)
Definition xkey : Type := Z * Z * Z * Z.

Record Namespace := { ns_Name : string; ns_Prefix : string; ns_key : xkey }.

Record Encoder := { enc_secret : string; enc_namespaces : gmap string Namespace }.

Definition Base62Alphabet : string :=
  "0123456789ABCDEFGHIJKLMNOPQRSTUVWXYZabcdefghijklmnopqrstuvwxyz".

(** ** XTEA *)

Definition xteaDelta : Z := 2654435769.   (* 0x9E3779B9 *)
Definition xteaRounds : nat := 32.

(** [key[i]] for [i] in 0..3. *)
Definition key_at (key : xkey) (i : Z) : Z :=
  let '(k0, k1, k2, k3) := key in
  if decide (i = 0) then k0 else if decide (i = 1) then k1
  else if decide (i = 2) then k2 else k3.

(** [((v << 4) ^ (v >> 5)) + v] on [uint32]. *)
Definition mix (v : Z) : Z := u32 (Z.lxor (u32 (Z.shiftl v 4)) (Z.shiftr v 5) + v).

(** The loop bodies, on [(v0, v1, sum)]. *)
Definition enc_round (key : xkey) (st : Z * Z * Z) : Z * Z * Z :=
  let '(v0, v1, sum) := st in
  let v0 := u32 (v0 + Z.lxor (mix v1) (u32 (sum + key_at key (Z.land sum 3)))) in
  let sum := u32 (sum + xteaDelta) in
  let v1 := u32 (v1 + Z.lxor (mix v0) (u32 (sum + key_at key (Z.land (Z.shiftr sum 11) 3)))) in
  (v0, v1, sum).

Definition dec_round (key : xkey) (st : Z * Z * Z) : Z * Z * Z :=
  let '(v0, v1, sum) := st in
  let v1 := u32 (v1 - Z.lxor (mix v0) (u32 (sum + key_at key (Z.land (Z.shiftr sum 11) 3)))) in
  let sum := u32 (sum - xteaDelta) in
  let v0 := u32 (v0 - Z.lxor (mix v1) (u32 (sum + key_at key (Z.land sum 3)))) in
  (v0, v1, sum).

(** [(uint64(v0) << 32) | uint64(v1)] *)
Definition join64 (v0 v1 : Z) : Z := Z.lor (u64 (Z.shiftl v0 32)) v1.

Definition xteaEncrypt (v : Z) (key : xkey) : Z :=
  let '(v0, v1, _) := Nat.iter xteaRounds (enc_round key) (u32 (Z.shiftr v 32), u32 v, 0) in
  join64 v0 v1.

Definition xteaDecrypt (v : Z) (key : xkey) : Z :=
  let sum := Nat.iter xteaRounds (fun s => u32 (s + xteaDelta)) 0 in
  let '(v0, v1, _) := Nat.iter xteaRounds (dec_round key) (u32 (Z.shiftr v 32), u32 v, sum) in
  join64 v0 v1.

(** ** Base 62 *)

Definition zero_char : ascii := "0".

(** [Base62Alphabet[i]]. *)
Definition digit62 (i : Z) : ascii := default zero_char (String.get (Z.to_nat i) Base62Alphabet).

(** The loop from [i = k-1] down to 0 over the result array, least significant
    digit last. *)
Fixpoint encode62_loop (k : nat) (n : Z) (acc : string) : string :=
  match k with
  | O => acc
  | S k' => encode62_loop k' (n / 62) (String (digit62 (n `mod` 62)) acc)
  end.

Definition encodeBase62 (n : Z) : string :=
  if decide (n = 0) then "00000000000" else encode62_loop 11 n "".

(** [strings.IndexRune(Base62Alphabet, c)]; every byte of the alphabet is ASCII. *)
Fixpoint index_rune (s : string) (r : N) (i : Z) : option Z :=
  match s with
  | EmptyString => None
  | String c s' => if decide (byte c = r) then Some i else index_rune s' r (i + 1)
  end.

Definition maxU64 : Z := two64 - 1.

Definition overflow_err : error := Errorf "overflow during decode".

Fixpoint decode62_loop (rs : list N) (result : Z) : Prelude.result Z :=
  match rs with
  | [] => Ok result
  | c :: rs' =>
    match index_rune Base62Alphabet c 0 with
    | None => Err (Errorf ("invalid character: " +:+ encode_rune c))
    | Some idx =>
      if decide (result > maxU64 / 62) then Err overflow_err
      else let result := u64 (result * 62) in
           if decide (result > maxU64 - idx) then Err overflow_err
           else decode62_loop rs' (u64 (result + idx))
    end
  end.

Definition decodeBase62 (s : string) : Prelude.result Z :=
  if decide (String.length s <> 11%nat) then
    Err (Errorf ("invalid length: " +:+ pretty (String.length s) +:+ " characters (expected 11)"))
  else decode62_loop (runes s) 0.

(** ** The encoder *)

Section Encoder.
Context `{Hmac}.

Definition nth_byte (s : string) (i : nat) : Z :=
  match String.get i s with Some c => Z.of_N (byte c) | None => 0 end.

(** [binary.BigEndian.Uint32(hash[4*i : 4*i+4])] *)
Definition be32 (hash : string) (i : nat) : Z :=
  let at_ j := nth_byte hash (4 * i + j) in
  Z.lor (Z.shiftl (at_ 0%nat) 24)
    (Z.lor (Z.shiftl (at_ 1%nat) 16) (Z.lor (Z.shiftl (at_ 2%nat) 8) (at_ 3%nat))).

Definition deriveKey (secret namespace : string) : xkey :=
  let hash := str_take 16 (hmac_sha256 secret namespace) in
  (be32 hash 0, be32 hash 1, be32 hash 2, be32 hash 3).

Fixpoint add_namespaces (secret : string) (nss : list NamespaceConfig)
    (m : gmap string Namespace) : result (gmap string Namespace) :=
  match nss with
  | [] => Ok m
  | ns :: nss' =>
    if decide (nc_Name ns = "") then Err (Errorf "namespace name cannot be empty")
    else add_namespaces secret nss'
      (<[nc_Name ns := {| ns_Name := nc_Name ns; ns_Prefix := nc_Prefix ns;
                          ns_key := deriveKey secret (nc_Name ns) |}]> m)
  end.

Definition NewEncoder (secret : string) (namespaces : list NamespaceConfig) : result Encoder :=
  if decide (String.length secret < 32)%nat then
    Err (Errorf "secret key must be at least 32 characters")
  else
    try m := add_namespaces secret namespaces ∅ in
    Ok {| enc_secret := secret; enc_namespaces := m |}.
End Encoder.

Definition unknown_ns (ns : string) : error := Errorf ("unknown namespace: " +:+ ns).

Definition Encode (e : Encoder) (namespace : string) (id : Z) : result string :=
  match enc_namespaces e !! namespace with
  | None => Err (unknown_ns namespace)
  | Some ns =>
    let encrypted := xteaEncrypt (u64 id) (ns_key ns) in
    let encoded := encodeBase62 encrypted in
    if decide (ns_Prefix ns <> "") then Ok (ns_Prefix ns +:+ "_" +:+ encoded) else Ok encoded
  end.

(** Decoding what is left once the prefix is gone. *)
Definition decode_rest (ns : Namespace) (encoded : string) : result Z :=
  match decodeBase62 encoded with
  | Err e => Err (Wrapf "invalid public ID format: " e "")
  | Ok encrypted => Ok (i64 (xteaDecrypt encrypted (ns_key ns)))
  end.

Definition Decode (e : Encoder) (namespace publicID : string) : result Z :=
  match enc_namespaces e !! namespace with
  | None => Err (unknown_ns namespace)
  | Some ns =>
    if decide (ns_Prefix ns <> "") then
      let expectedPrefix := ns_Prefix ns +:+ "_" in
      if negb (HasPrefix publicID expectedPrefix)
      then Err (Errorf ("invalid prefix for namespace " +:+ namespace))
      else decode_rest ns (TrimPrefix publicID expectedPrefix)
    else decode_rest ns publicID
  end.

Definition HasNamespace (e : Encoder) (namespace : string) : bool :=
  bool_decide (is_Some (enc_namespaces e !! namespace)).

(** ** XTEA is a permutation of the 64-bit words *)

Definition w32 (z : Z) : Prop := 0 <= z < two32.

Lemma u32_add_sub a b : w32 a -> u32 (u32 (a + b) - b) = a.
Proof.
  intros Ha. unfold u32. rewrite Zminus_mod_idemp_l. replace (a + b - b) with a by lia.
  by apply Z.mod_small.
Qed.

Lemma u32_sub_add a b : w32 a -> u32 (u32 (a - b) + b) = a.
Proof.
  intros Ha. unfold u32. rewrite Zplus_mod_idemp_l. replace (a - b + b) with a by lia.
  by apply Z.mod_small.
Qed.

Definition good (st : Z * Z * Z) : Prop := let '(v0, v1, sum) := st in w32 v0 /\ w32 v1 /\ w32 sum.

Lemma enc_round_good key st : good (enc_round key st).
Proof. destruct st as [[v0 v1] sum]. unfold good, enc_round, w32. auto using u32_range. Qed.

Lemma dec_round_good key st : good (dec_round key st).
Proof. destruct st as [[v0 v1] sum]. unfold good, dec_round, w32. auto using u32_range. Qed.

Lemma dec_enc_round key st : good st -> dec_round key (enc_round key st) = st.
Proof.
  destruct st as [[v0 v1] sum]. intros (H0 & H1 & Hs). unfold enc_round, dec_round.
  by rewrite !u32_add_sub.
Qed.

Lemma enc_dec_round key st : good st -> enc_round key (dec_round key st) = st.
Proof.
  destruct st as [[v0 v1] sum]. intros (H0 & H1 & Hs). unfold enc_round, dec_round.
  by rewrite !u32_sub_add.
Qed.

(** [n] rounds one way undo [n] rounds the other way. *)
Lemma iter_inverse {A} (P : A -> Prop) (f g : A -> A) n x :
  (forall y, P (f y)) -> (forall y, P y -> g (f y) = y) -> P x ->
  Nat.iter n g (Nat.iter n f x) = x.
Proof.
  intros Hf Hg. revert x. induction n as [|n IH]; intros x Hx; [done|].
  rewrite Nat.iter_succ_r. simpl (Nat.iter (S n) f x).
  assert (P (Nat.iter n f x)) by (destruct n; simpl; auto).
  by rewrite Hg, IH.
Qed.

Lemma iter_good key n st : good st -> good (Nat.iter n (enc_round key) st).
Proof. intros. destruct n; [done|]. simpl. apply enc_round_good. Qed.

Lemma iter_dec_good key n st : good st -> good (Nat.iter n (dec_round key) st).
Proof. intros. destruct n; [done|]. simpl. apply dec_round_good. Qed.

(** The third component is the running sum, whatever the data. *)
Lemma enc_sum key n v0 v1 s :
  (Nat.iter n (enc_round key) (v0, v1, s)).2 = Nat.iter n (fun s => u32 (s + xteaDelta)) s.
Proof.
  induction n as [|n IH]; [done|]. simpl. rewrite <- IH.
  by destruct (Nat.iter n (enc_round key) (v0, v1, s)) as [[a b] c].
Qed.

Lemma dec_sum key n v0 v1 s :
  (Nat.iter n (dec_round key) (v0, v1, s)).2 = Nat.iter n (fun s => u32 (s - xteaDelta)) s.
Proof.
  induction n as [|n IH]; [done|]. simpl. rewrite <- IH.
  by destruct (Nat.iter n (dec_round key) (v0, v1, s)) as [[a b] c].
Qed.

Lemma join64_add v0 v1 : w32 v0 -> w32 v1 -> join64 v0 v1 = v0 * two32 + v1.
Proof.
  unfold w32, join64. intros H0 H1.
  assert (Z.shiftl v0 32 = v0 * two32) as E by (by rewrite Z.shiftl_mul_pow2).
  rewrite u64_small by (rewrite E; unfold two32, two64 in *; lia).
  rewrite <- Z.add_nocarry_lor; [by rewrite E|].
  apply Z.bits_inj'. intros n Hn. rewrite Z.land_spec, Z.bits_0.
  destruct (decide (n < 32)).
  - rewrite Z.shiftl_spec_low by lia. done.
  - replace v1 with (v1 `mod` 2 ^ 32) by (apply Z.mod_small; unfold two32 in *; lia).
    rewrite Z.mod_pow2_bits_high by lia. by rewrite andb_false_r.
Qed.

Lemma join64_range v0 v1 : w32 v0 -> w32 v1 -> 0 <= join64 v0 v1 < two64.
Proof. intros. rewrite join64_add by done. unfold w32, two32, two64 in *. lia. Qed.

Lemma split_join v0 v1 : w32 v0 -> w32 v1 ->
  u32 (Z.shiftr (join64 v0 v1) 32) = v0 /\ u32 (join64 v0 v1) = v1.
Proof.
  intros H0 H1. rewrite join64_add, Z.shiftr_div_pow2 by done.
  change (2 ^ 32) with two32. unfold u32. rewrite Z.div_add_l by done.
  rewrite (Z.div_small v1), Z.add_0_r by done. rewrite (Z.add_comm (v0 * two32)), Z.mod_add by done.
  split; by apply Z.mod_small.
Qed.

Lemma join_split v : 0 <= v < two64 -> join64 (u32 (Z.shiftr v 32)) (u32 v) = v.
Proof.
  intros Hv. rewrite join64_add by apply u32_range. rewrite Z.shiftr_div_pow2 by done.
  change (2 ^ 32) with two32. rewrite (u32_small (v / two32)).
  - unfold u32. pose proof (Z.div_mod v two32 ltac:(done)). lia.
  - split; [apply Z.div_pos; unfold two32; lia|].
    apply Z.div_lt_upper_bound; unfold two32, two64 in *; lia.
Qed.

Lemma xteaDecrypt_Encrypt key v : 0 <= v < two64 -> xteaDecrypt (xteaEncrypt v key) key = v.
Proof.
  intros Hv. unfold xteaEncrypt.
  set (st0 := (u32 (Z.shiftr v 32), u32 v, 0)).
  assert (good st0) as Hg by (split_and!; try apply u32_range; done).
  pose proof (enc_sum key xteaRounds (u32 (Z.shiftr v 32)) (u32 v) 0) as Hsum.
  pose proof (iter_inverse good (enc_round key) (dec_round key) xteaRounds st0
    (enc_round_good key) (dec_enc_round key) Hg) as Hinv.
  pose proof (iter_good key xteaRounds st0 Hg) as Hg'.
  fold st0 in Hsum. destruct (Nat.iter xteaRounds (enc_round key) st0) as [[v0 v1] s].
  destruct Hg' as (H0 & H1 & _). cbn [snd] in Hsum. subst s.
  unfold xteaDecrypt. destruct (split_join v0 v1 H0 H1) as [-> ->].
  rewrite Hinv. unfold st0. by apply join_split.
Qed.

Lemma sum_back : Nat.iter xteaRounds (fun s => u32 (s - xteaDelta))
  (Nat.iter xteaRounds (fun s => u32 (s + xteaDelta)) 0) = 0.
Proof. by vm_compute. Qed.

Lemma xteaEncrypt_Decrypt key v : 0 <= v < two64 -> xteaEncrypt (xteaDecrypt v key) key = v.
Proof.
  intros Hv. unfold xteaDecrypt.
  set (sum := Nat.iter xteaRounds (fun s => u32 (s + xteaDelta)) 0).
  set (st0 := (u32 (Z.shiftr v 32), u32 v, sum)).
  assert (good st0) as Hg by (split_and!; try apply u32_range; by vm_compute).
  pose proof (dec_sum key xteaRounds (u32 (Z.shiftr v 32)) (u32 v) sum) as Hsum.
  pose proof (iter_inverse good (dec_round key) (enc_round key) xteaRounds st0
    (dec_round_good key) (enc_dec_round key) Hg) as Hinv.
  pose proof (iter_dec_good key xteaRounds st0 Hg) as Hg'.
  fold st0 in Hsum. destruct (Nat.iter xteaRounds (dec_round key) st0) as [[v0 v1] s].
  destruct Hg' as (H0 & H1 & _). cbn [snd] in Hsum. unfold sum in Hsum. rewrite sum_back in Hsum.
  subst s. unfold xteaEncrypt. destruct (split_join v0 v1 H0 H1) as [-> ->].
  rewrite Hinv. unfold st0. by apply join_split.
Qed.

Lemma xteaEncrypt_range key v : 0 <= xteaEncrypt v key < two64.
Proof.
  unfold xteaEncrypt.
  pose proof (iter_good key xteaRounds (u32 (Z.shiftr v 32), u32 v, 0)) as Hg.
  destruct (Nat.iter _ (enc_round _) _) as [[v0 v1] s].
  destruct Hg as (H0 & H1 & _); [split_and!; try apply u32_range; done|]. by apply join64_range.
Qed.

Lemma xteaDecrypt_range key v : 0 <= xteaDecrypt v key < two64.
Proof.
  unfold xteaDecrypt. set (sum := Nat.iter xteaRounds (fun s => u32 (s + xteaDelta)) 0).
  pose proof (iter_dec_good key xteaRounds (u32 (Z.shiftr v 32), u32 v, sum)) as Hg.
  destruct (Nat.iter _ (dec_round _) _) as [[v0 v1] s].
  destruct Hg as (H0 & H1 & _); [split_and!; try apply u32_range; by vm_compute|].
  by apply join64_range.
Qed.

(** ** Base 62 is a bijection between the 64-bit words and the accepted texts *)

(** The digits, most significant first. *)
Fixpoint digits (k : nat) (n : Z) : string :=
  match k with
  | O => ""
  | S k' => digits k' (n / 62) +:+ String (digit62 (n `mod` 62)) ""
  end.

Lemma encode62_digits k n acc : encode62_loop k n acc = digits k n +:+ acc.
Proof. revert n acc. induction k; intros; simpl; [done|]. by rewrite IHk, <- app_str_assoc. Qed.

Lemma encodeBase62_digits n : encodeBase62 n = digits 11 n.
Proof.
  unfold encodeBase62. case_decide as Hn; [by subst n|].
  by rewrite encode62_digits, app_str_nil_r.
Qed.

Lemma digits_length k n : String.length (digits k n) = k.
Proof. revert n. induction k; intros; simpl; [done|]. rewrite length_app_str, IHk. simpl. lia. Qed.

(** The alphabet, checked digit by digit. *)
Definition digit_ok (d : nat) : bool :=
  let c := digit62 (Z.of_nat d) in
  is_ascii c && bool_decide (index_rune Base62Alphabet (byte c) 0 = Some (Z.of_nat d)).

Lemma digit62_ok d : 0 <= d < 62 ->
  is_ascii (digit62 d) = true /\ index_rune Base62Alphabet (byte (digit62 d)) 0 = Some d.
Proof.
  intros Hd. assert (forallb digit_ok (seq 0 62) = true) as H by (by vm_compute).
  rewrite forallb_forall in H. specialize (H (Z.to_nat d)).
  unfold digit_ok in H. rewrite Z2Nat.id in H by lia.
  assert (In (Z.to_nat d) (seq 0 62)) as Hin by (apply in_seq; lia).
  specialize (H Hin). bools. by rewrite bool_decide_eq_true in *.
Qed.

Lemma index_rune_digit r d : index_rune Base62Alphabet r 0 = Some d ->
  0 <= d < 62 /\ byte (digit62 d) = r.
Proof.
  unfold Base62Alphabet. cbn [index_rune].
  repeat (case_decide as Hc; [intros [= <-]; subst r; split; [lia|by vm_compute]|clear Hc]).
  done.
Qed.

Lemma decode_app l1 l2 r :
  decode62_loop (l1 ++ l2) r =
  match decode62_loop l1 r with Ok r' => decode62_loop l2 r' | Err e => Err e end.
Proof.
  revert r. induction l1 as [|c l1 IH]; intros r; [done|].
  rewrite <- app_comm_cons. cbn [decode62_loop].
  destruct (index_rune _ _ _); [|done]. repeat (case_decide; [done|]). apply IH.
Qed.

Lemma digits_ascii k n : ascii_only (digits k n) = true.
Proof.
  revert n. induction k as [|k IH]; intros n; [done|]. simpl. unfold ascii_only in *.
  rewrite str_all_app, IH. simpl.
  by rewrite (proj1 (digit62_ok (n `mod` 62) (Z.mod_pos_bound n 62 eq_refl))).
Qed.

(** One digit more, without overflow. *)
Lemma decode_digit q d : 0 <= q -> 0 <= d < 62 -> q * 62 + d < two64 ->
  decode62_loop [byte (digit62 d)] q = Ok (q * 62 + d).
Proof.
  intros Hq Hd Hn. cbn [decode62_loop]. rewrite (proj2 (digit62_ok d Hd)).
  assert (q <= maxU64 / 62) by (apply Z.div_le_lower_bound; unfold maxU64; lia).
  rewrite decide_False by lia. cbv zeta. rewrite (u64_small (q * 62)) by lia.
  rewrite decide_False by (unfold maxU64; lia). by rewrite u64_small by lia.
Qed.

Lemma decode_digits k n : 0 <= n < two64 -> n < 62 ^ Z.of_nat k ->
  decode62_loop (runes (digits k n)) 0 = Ok n.
Proof.
  revert n. induction k as [|k IH]; intros n Hn Hk.
  - simpl in *. f_equal. lia.
  - cbn [digits]. rewrite runes_app_ascii by apply digits_ascii.
    pose proof (Z.mod_pos_bound n 62 eq_refl) as Hm. pose proof (Z.div_mod n 62) as Hdm.
    rewrite runes_ascii_char by (by apply digit62_ok). rewrite decode_app, IH.
    + rewrite decode_digit; [f_equal; lia|apply Z.div_pos; lia|lia|lia].
    + split; [apply Z.div_pos; lia|]. lia.
    + apply Z.div_lt_upper_bound; [lia|]. rewrite Nat2Z.inj_succ, Z.pow_succ_r in Hk by lia. lia.
Qed.

Lemma decode_inv rs r n : 0 <= r < two64 -> decode62_loop rs r = Ok n ->
  exists ds, rs = (fun d => byte (digit62 d)) <$> ds /\ Forall (fun d => 0 <= d < 62) ds /\
    n = fold_left (fun a d => a * 62 + d) ds r /\ 0 <= n < two64.
Proof.
  revert r. induction rs as [|c rs IH]; intros r Hr; cbn [decode62_loop].
  { intros [= <-]. exists []. split_and!; done || lia. }
  destruct (index_rune _ _ _) as [d|] eqn:Ei; [|done]. apply index_rune_digit in Ei as [Hd <-].
  case_decide as H1; [done|].
  assert (r * 62 <= maxU64) as H62.
  { pose proof (Z.mul_div_le maxU64 62). lia. }
  cbv zeta. rewrite (u64_small (r * 62)) by (unfold maxU64 in *; lia).
  case_decide as H2; [done|]. rewrite u64_small by (unfold maxU64 in *; lia).
  intros E. destruct (IH (r * 62 + d)) as (ds & -> & Hds & -> & Hn); [unfold maxU64 in *; lia|done|].
  exists (d :: ds). split_and!; try lia; [done|by constructor|done].
Qed.

Lemma digits_of ds : Forall (fun d => 0 <= d < 62) ds ->
  digits (List.length ds) (fold_left (fun a d => a * 62 + d) ds 0)
  = cat ((fun d => chr (byte (digit62 d))) <$> ds).
Proof.
  induction ds as [|d ds IH] using rev_ind; [done|].
  rewrite Forall_app, Forall_singleton. intros [Hds Hd].
  rewrite fold_left_app, last_length. cbn [fold_left digits].
  rewrite Z.div_add_l, (Z.div_small d), Z.add_0_r by lia.
  rewrite Z.add_comm, Z.mod_add, Z.mod_small by lia.
  rewrite IH by done. rewrite fmap_app, cat_app. f_equal. rewrite list_fmap_singleton.
  unfold cat. cbn [foldr]. by rewrite app_str_nil_r, chr_byte.
Qed.

Lemma decodeBase62_encode n : 0 <= n < two64 -> decodeBase62 (encodeBase62 n) = Ok n.
Proof.
  intros Hn. rewrite encodeBase62_digits. unfold decodeBase62.
  rewrite digits_length, decide_False by (intros E; by apply E).
  apply decode_digits; [done|]. change (62 ^ Z.of_nat 11) with 52036560683837093888.
  unfold two64 in *. lia.
Qed.

Lemma decodeBase62_Ok s n : decodeBase62 s = Ok n -> 0 <= n < two64 /\ encodeBase62 n = s.
Proof.
  unfold decodeBase62. case_decide as Hl; [done|]. intros E.
  apply decode_inv in E as (ds & Hr & Hds & -> & Hn); [|done]. split; [done|].
  assert (forall d, d ∈ ds -> (byte (digit62 d) < 128)%N) as Hasc.
  { intros d Hd. apply N.ltb_lt, digit62_ok. by apply (proj1 (Forall_forall _ _) Hds). }
  assert (s = cat (chr <$> runes s)) as Es.
  { apply runes_all_ascii. rewrite Hr, Forall_fmap, Forall_forall. exact Hasc. }
  rewrite Hr, <- list_fmap_compose in Es.
  rewrite encodeBase62_digits. rewrite Es, <- digits_of by done. f_equal.
  assert (List.length ds = 11%nat) as ->; [|done].
  assert (String.length s = 11%nat) as <- by (by destruct (decide (String.length s = 11%nat))).
  rewrite Es, <- digits_of by done. by rewrite digits_length.
Qed.

(** ** Properties *)

#[local] Opaque xteaEncrypt xteaDecrypt encodeBase62 decodeBase62.

Lemma xtea_u64 key id : - two63 <= id < two63 ->
  i64 (xteaDecrypt (xteaEncrypt (u64 id) key) key) = id.
Proof. intros. rewrite xteaDecrypt_Encrypt by apply u64_range. by apply i64_u64. Qed.

Lemma decode_rest_encode ns id : - two63 <= id < two63 ->
  decode_rest ns (encodeBase62 (xteaEncrypt (u64 id) (ns_key ns))) = Ok id.
Proof.
  intros Hid. unfold decode_rest. rewrite decodeBase62_encode by apply xteaEncrypt_range.
  by rewrite xtea_u64.
Qed.

Lemma decode_rest_Ok ns s id : decode_rest ns s = Ok id ->
  - two63 <= id < two63 /\ s = encodeBase62 (xteaEncrypt (u64 id) (ns_key ns)).
Proof.
  unfold decode_rest. destruct (decodeBase62 s) as [n|] eqn:E; [|done].
  intros <-%Ok_inj. apply decodeBase62_Ok in E as [Hn <-]. split; [apply i64_range|].
  rewrite u64_i64 by apply xteaDecrypt_range. by rewrite xteaEncrypt_Decrypt.
Qed.

(** for every key, [xteaEncrypt] and [xteaDecrypt] are inverse permutations
    of the 64-bit words: 32 Feistel rounds one way undo 32 rounds the other way,
    whatever the wrap-around of the 32-bit halves and of the round sum. *)
Theorem xtea_permutation (key : xkey) (v : Z) (Hv : 0 <= v < two64) :
  xteaDecrypt (xteaEncrypt v key) key = v /\ xteaEncrypt (xteaDecrypt v key) key = v /\
  0 <= xteaEncrypt v key < two64 /\ 0 <= xteaDecrypt v key < two64.
Proof.
  split_and!; auto using xteaDecrypt_Encrypt, xteaEncrypt_Decrypt;
    first [apply xteaEncrypt_range | apply xteaDecrypt_range].
Qed.

(** base 62 is a bijection between the 64-bit words and the texts that
    [decodeBase62] accepts: decoding what was encoded gives the word back, and a
    text it accepts is exactly the encoding of the word it returns (eleven
    characters of the alphabet without overflow, one text per word). *)
Theorem base62_bijection (s : string) (n : Z) (Hn : 0 <= n < two64) :
  (decodeBase62 s = Ok n <-> s = encodeBase62 n) /\
  (forall n', decodeBase62 s = Ok n' -> 0 <= n' < two64) /\
  String.length (encodeBase62 n) = 11%nat.
Proof.
  split_and!.
  - split; [|intros ->; by apply decodeBase62_encode]. by intros [_ <-]%decodeBase62_Ok.
  - by intros n' [? _]%decodeBase62_Ok.
  - rewrite encodeBase62_digits. apply digits_length.
Qed.

(** Decoding inverts encoding, and accepts nothing else. *)
Lemma Decode_Encode (e : Encoder) (ns s : string) (id : Z) :
  (Decode e ns s = Ok id <-> - two63 <= id < two63 /\ Encode e ns id = Ok s).
Proof.
  unfold Decode, Encode. destruct (enc_namespaces e !! ns) as [n|]; [|split; [done|by intros [_ ?]]].
  case_decide as Hp.
  - cbv zeta. split.
    + destruct (HasPrefix s (ns_Prefix n +:+ "_")) eqn:E; [simpl|done].
      apply prefix_spec in E as [t ->]. rewrite TrimPrefix_app.
      intros [Hid ->]%decode_rest_Ok. rewrite <- app_str_assoc. auto.
    + intros [Hid <-%Ok_inj]. rewrite app_str_assoc, HasPrefix_app, TrimPrefix_app. simpl.
      by apply decode_rest_encode.
  - split; [intros [Hid ->]%decode_rest_Ok; auto|]. intros [Hid <-%Ok_inj]. by apply decode_rest_encode.
Qed.

(** C29: [Encode] and [Decode] of one encoder and namespace are inverse partial
    functions on [int64]: an identifier that was encoded decodes to itself, and a
    text is accepted only if it is the very text [Encode] gives for the id it
    decodes to, so that no row id has two public ids and no other text is
    accepted. *)
Theorem public_id_roundtrip (e : Encoder) (ns s : string) (id : Z) :
  (Decode e ns s = Ok id <-> - two63 <= id < two63 /\ Encode e ns id = Ok s).
Proof. apply Decode_Encode. Qed.

(** Building the namespace table. *)
Section NewEncoder.
Context `{Hmac}.

(** The entry [NewEncoder] makes of one configuration. *)
Definition namespace_of (secret : string) (c : NamespaceConfig) : Namespace :=
  {| ns_Name := nc_Name c; ns_Prefix := nc_Prefix c; ns_key := deriveKey secret (nc_Name c) |}.

(** The last configuration of that name. *)
Definition last_named (name : string) (nss : list NamespaceConfig) : option NamespaceConfig :=
  last (filter (fun c => nc_Name c = name) nss).

Lemma add_namespaces_lookup secret nss m m' name :
  add_namespaces secret nss m = Ok m' ->
  m' !! name = match last_named name nss with
               | Some c => Some (namespace_of secret c)
               | None => m !! name
               end.
Proof.
  revert m. induction nss as [|c nss IH]; intros m; cbn [add_namespaces]; [by intros [= ->]|].
  case_decide; [done|]. intros E. rewrite (IH _ E). unfold last_named. rewrite filter_cons.
  case_decide as Hc; rewrite ?last_cons; destruct (last _); try done.
  - subst name. by rewrite lookup_insert_eq.
  - by rewrite lookup_insert_ne.
Qed.

Lemma add_namespaces_ok secret nss m :
  is_ok (add_namespaces secret nss m) = true <-> Forall (fun c => nc_Name c <> "") nss.
Proof.
  revert m. induction nss as [|c nss IH]; intros m; cbn [add_namespaces]; [by split; constructor|].
  rewrite Forall_cons. case_decide; [naive_solver|]. rewrite IH. naive_solver.
Qed.

(** [NewEncoder] succeeds exactly on a secret of at least 32 bytes and
    namespaces that all have a name, and the encoder it returns knows exactly the
    configured names, each with the prefix of the last configuration of that name
    and with the key derived from that name. *)
Theorem NewEncoder_spec secret nss :
  (is_ok (NewEncoder secret nss) = true <->
     (32 <= String.length secret)%nat /\ Forall (fun c => nc_Name c <> "") nss) /\
  (forall e, NewEncoder secret nss = Ok e -> forall name,
     enc_namespaces e !! name = namespace_of secret <$> last_named name nss /\
     (HasNamespace e name = true <-> exists c, c ∈ nss /\ nc_Name c = name)).
Proof.
  unfold NewEncoder. case_decide as Hl; [split; [split; [done|lia]|done]|]. split.
  - rewrite <- (add_namespaces_ok secret nss ∅).
    destruct (add_namespaces secret nss ∅); simpl; split; intros; naive_solver lia.
  - intros e. destruct (add_namespaces secret nss ∅) as [m|] eqn:E; [|done]. intros [= <-] name.
    apply (add_namespaces_lookup _ _ _ _ name) in E. unfold HasNamespace. simpl.
    rewrite bool_decide_eq_true, E, lookup_empty. unfold last_named.
    split; [by destruct (last _)|].
    destruct (last (filter _ nss)) as [c|] eqn:El.
    + split; [intros _|done]. apply last_Some_elem_of, list_elem_of_filter in El. naive_solver.
    + apply last_None in El. split; [by intros []|]. intros (c & Hc & Hn).
      assert (c ∈ filter (fun c => nc_Name c = name) nss) as Hin by (by apply list_elem_of_filter).
      rewrite El in Hin. by apply not_elem_of_nil in Hin.
Qed.
End NewEncoder.

(** ** Evaluation at concrete inputs *)

Example xtea_zero_key : xteaEncrypt 0 (0, 0, 0, 0) = 16062603574316834521.
Proof. by vm_compute. Qed.

(** A digest with the documented length, for evaluating examples. *)
Definition str_repeat (c : ascii) (n : nat) : string := Nat.iter n (String c) "".

Definition sample_hmac : Hmac := {|
  hmac_sha256 := fun k msg => str_repeat (ascii_of_nat (String.length k + String.length msg)) 32;
  hmac_sha256_length := fun k msg => eq_refl;
|}.

Definition sample_secret : string := "an example secret of enough bytes".

Lemma xtea_permutation_witness :
  xteaDecrypt (xteaEncrypt 16062603574316834521 (1, 2, 3, 4)) (1, 2, 3, 4) = 16062603574316834521.
Proof. apply (xtea_permutation (1, 2, 3, 4) 16062603574316834521). split; by vm_compute. Defined.

Lemma base62_bijection_witness : decodeBase62 "LygHa16AHYF" = Ok (two64 - 1).
Proof.
  apply (base62_bijection "LygHa16AHYF" (two64 - 1)); [split; by vm_compute|by vm_compute].
Defined.

Lemma NewEncoder_spec_witness :
  is_ok (@NewEncoder sample_hmac sample_secret [{| nc_Name := "user"; nc_Prefix := "usr" |}]) = true.
Proof.
  apply (@NewEncoder_spec sample_hmac sample_secret [{| nc_Name := "user"; nc_Prefix := "usr" |}]).
  split; [by vm_compute; lia|]. by repeat constructor.
Defined.
