(* ===== verification/Cache.v ===== *)
(** * internal/cache: the response cache with per-endpoint accounting

    [Cache] wraps a Ristretto store with one metadata record per registered
    endpoint.  Ristretto, the JSON encoder and the order in which Go walks a map
    and [sort.Slice] breaks ties are parameters; everything [cache.go] itself
    does is modelled, the [nil] receiver included.  Each operation is one
    atomic step; [Set] is also split at the point where the code releases the
    endpoint's lock, so that interleavings of two writers can be stated; CacheConc
    has the steps of any number of goroutines. *)
From S2P Require Import Prelude GoStrings.

(** ** Parameters *)

(** The Ristretto store: a value is what was given to [SetWithTTL], as an
    interface ([E] stands for it).  [store_may k v] says that the store may still
    answer [v] for [k] (buffered writes included); the laws are the documented
    ones: an answer was set under that key, [Del] and [Clear] forget. *)
Class Ristretto (E : Type) := {
  store : Type;
  store_new : Z -> result store;
  store_Get : store -> string -> option E;
  store_SetWithTTL : store -> string -> E -> Z -> Z -> bool * store;
  store_Del : store -> string -> store;
  store_Clear : store -> store;
  store_Close : store -> store;
  store_may : store -> string -> E -> Prop;
  store_new_empty : forall z s k v, store_new z = Ok s -> ~ store_may s k v;
  store_Get_may : forall s k v, store_Get s k = Some v -> store_may s k v;
  store_Set_may : forall s k v cost ttl k' v',
    store_may (store_SetWithTTL s k v cost ttl).2 k' v' -> (k' = k /\ v' = v) \/ store_may s k' v';
  store_Del_may : forall s k k' v', store_may (store_Del s k) k' v' -> k' <> k /\ store_may s k' v';
  store_Clear_may : forall s k v, ~ store_may (store_Clear s) k v;
}.

(** [json.Marshal] of the rows: the length of the bytes it returns (0 on error). *)
Class JsonSize (V : Type) := {
  json_len : list (gmap string V) -> Z;
  json_len_range : forall rows, 0 <= json_len rows < two63;
}.

(** [cron.AddFunc]: the error it returns for the schedule, if any. *)
Class Cron := { cron_AddFunc : string -> option error }.

(** ** Data *)

Record CacheConfig := { cc_Enabled : bool; cc_MaxSizeMB : Z; cc_DefaultTTLSec : Z }.

Record EndpointCacheConfig := {
  ec_Enabled : bool; ec_Key : string; ec_TTLSec : Z; ec_MaxSizeMB : Z; ec_EvictCron : string;
}.

Record entryMeta := { em_sizeBytes : Z; em_cachedAt : Z; em_ttl : Z }.

Record Entry (V : Type) := {
  e_Data : list (gmap string V); e_SizeBytes : Z; e_CachedAt : Z; e_TTL : Z;
}.
Arguments e_Data {V}.
Arguments e_SizeBytes {V}.
Arguments e_CachedAt {V}.
Arguments e_TTL {V}.
Arguments Build_Entry {V}.

Record EndpointCache := {
  ep_name : string;
  ep_maxCost : Z;
  ep_keys : gmap string entryMeta;
  ep_cronEvict : option string;      (* the schedule of the running cron job *)
  ep_hits : Z; ep_misses : Z; ep_sets : Z; ep_evictions : Z; ep_sizeBytes : Z;
}.

Record EndpointMetrics := {
  mt_Hits : Z; mt_Misses : Z; mt_Sets : Z; mt_Evictions : Z; mt_KeyCount : Z; mt_SizeBytes : Z;
  mt_HitRatio : option (Z * Z);       (* numerator and denominator of the float division *)
}.

Record CacheSnapshot := {
  sn_Enabled : bool; sn_TotalSizeBytes : Z; sn_MaxSizeBytes : Z; sn_TotalKeys : Z;
  sn_TotalHits : Z; sn_TotalMisses : Z; sn_HitRatio : option (Z * Z);
  sn_Endpoints : gmap string EndpointMetrics;
}.

Definition defaultMaxCacheSizeMB : Z := 256.
Definition Second : Z := 1000000000.
Definition Minute : Z := 60 * Second.
Definition defaultCacheTTL : Z := 5 * Minute.

(** One row of the list [evictFromEndpoint] sorts. *)
Definition keyAge : Type := string * entryMeta.

(** [keys] after the map walk and [sort.Slice]: some listing of the map, oldest
    first; ties are broken either way. *)
Class AgeOrder := {
  by_age : gmap string entryMeta -> list keyAge;
  by_age_perm : forall m, by_age m ≡ₚ map_to_list m;
  by_age_sorted : forall m,
    StronglySorted (fun a b : keyAge => em_cachedAt a.2 <= em_cachedAt b.2) (by_age m);
}.

(** The key under which an endpoint's entry is stored. *)
Definition fullKey (endpoint key : string) : string := endpoint +:+ ":" +:+ key.

(** Updates of one endpoint record. *)
Definition ep_hit (ep : EndpointCache) : EndpointCache :=
  {| ep_name := ep_name ep; ep_maxCost := ep_maxCost ep; ep_keys := ep_keys ep;
     ep_cronEvict := ep_cronEvict ep; ep_hits := i64 (ep_hits ep + 1); ep_misses := ep_misses ep;
     ep_sets := ep_sets ep; ep_evictions := ep_evictions ep; ep_sizeBytes := ep_sizeBytes ep |}.

Definition ep_miss (ep : EndpointCache) : EndpointCache :=
  {| ep_name := ep_name ep; ep_maxCost := ep_maxCost ep; ep_keys := ep_keys ep;
     ep_cronEvict := ep_cronEvict ep; ep_hits := ep_hits ep; ep_misses := i64 (ep_misses ep + 1);
     ep_sets := ep_sets ep; ep_evictions := ep_evictions ep; ep_sizeBytes := ep_sizeBytes ep |}.

(** The locked part of [Set]: the old size of the key leaves the total, the new
    one enters. *)
Definition ep_record (ep : EndpointCache) (key : string) (m : entryMeta) : EndpointCache :=
  let size := match ep_keys ep !! key with
              | Some existing => i64 (ep_sizeBytes ep - em_sizeBytes existing)
              | None => ep_sizeBytes ep
              end in
  {| ep_name := ep_name ep; ep_maxCost := ep_maxCost ep; ep_keys := <[key := m]> (ep_keys ep);
     ep_cronEvict := ep_cronEvict ep; ep_hits := ep_hits ep; ep_misses := ep_misses ep;
     ep_sets := i64 (ep_sets ep + 1); ep_evictions := ep_evictions ep;
     ep_sizeBytes := i64 (size + em_sizeBytes m) |}.

(** The locked part of [Delete]. *)
Definition ep_forget (ep : EndpointCache) (key : string) : EndpointCache :=
  match ep_keys ep !! key with
  | None => ep
  | Some meta =>
    {| ep_name := ep_name ep; ep_maxCost := ep_maxCost ep; ep_keys := delete key (ep_keys ep);
       ep_cronEvict := ep_cronEvict ep; ep_hits := ep_hits ep; ep_misses := ep_misses ep;
       ep_sets := ep_sets ep; ep_evictions := i64 (ep_evictions ep + 1);
       ep_sizeBytes := i64 (ep_sizeBytes ep - em_sizeBytes meta) |}
  end.

(** The locked part of [ClearAll]. *)
Definition ep_reset (ep : EndpointCache) : EndpointCache :=
  {| ep_name := ep_name ep; ep_maxCost := ep_maxCost ep; ep_keys := ∅;
     ep_cronEvict := ep_cronEvict ep; ep_hits := ep_hits ep; ep_misses := ep_misses ep;
     ep_sets := ep_sets ep; ep_evictions := ep_evictions ep; ep_sizeBytes := 0 |}.

Section Cache.
Context {V : Type} `{JsonSize V, AgeOrder}.

(** What the store holds: an [*Entry], or ([None]) a value of another type. *)
Context `{R : Ristretto (option (Entry V))}.

Context `{Cron}.

Abbreviation Rows := (list (gmap string V)).

Record Cache := {
  c_store : store; c_maxCost : Z; c_defaultTTL : Z;
  c_endpoints : gmap string EndpointCache;
  c_totalHits : Z; c_totalMisses : Z;
}.

Definition set_store (c : Cache) (s : store) : Cache :=
  {| c_store := s; c_maxCost := c_maxCost c; c_defaultTTL := c_defaultTTL c;
     c_endpoints := c_endpoints c; c_totalHits := c_totalHits c; c_totalMisses := c_totalMisses c |}.

Definition set_endpoints (c : Cache) (m : gmap string EndpointCache) : Cache :=
  {| c_store := c_store c; c_maxCost := c_maxCost c; c_defaultTTL := c_defaultTTL c;
     c_endpoints := m; c_totalHits := c_totalHits c; c_totalMisses := c_totalMisses c |}.

(** ** Operations *)

(** [New]; [Ok None] is the [nil] cache of a disabled configuration. *)
Definition New (cfg : CacheConfig) : result (option Cache) :=
  if negb (cc_Enabled cfg) then Ok None
  else
    let maxCost := i64 (i64 (cc_MaxSizeMB cfg * 1024) * 1024) in
    let maxCost := if decide (maxCost = 0) then defaultMaxCacheSizeMB * 1024 * 1024 else maxCost in
    let ttl := i64 (cc_DefaultTTLSec cfg * Second) in
    let ttl := if decide (ttl = 0) then defaultCacheTTL else ttl in
    match store_new maxCost with
    | Err e => Err (Wrapf "creating ristretto cache: " e "")
    | Ok s => Ok (Some {| c_store := s; c_maxCost := maxCost; c_defaultTTL := ttl;
                          c_endpoints := ∅; c_totalHits := 0; c_totalMisses := 0 |})
    end.

Definition new_endpoint (endpoint : string) (maxCost : Z) (cr : option string) : EndpointCache :=
  {| ep_name := endpoint; ep_maxCost := maxCost; ep_keys := ∅; ep_cronEvict := cr;
     ep_hits := 0; ep_misses := 0; ep_sets := 0; ep_evictions := 0; ep_sizeBytes := 0 |}.

Definition RegisterEndpoint (oc : option Cache) (endpoint : string)
    (ocfg : option EndpointCacheConfig) : result unit * option Cache :=
  match oc, ocfg with
  | Some c, Some cfg =>
    if negb (ec_Enabled cfg) then (Ok tt, oc)
    else
      let maxCost := i64 (i64 (ec_MaxSizeMB cfg * 1024) * 1024) in
      if decide (ec_EvictCron cfg <> "") then
        match cron_AddFunc (ec_EvictCron cfg) with
        | Some err => (Err (Wrapf "invalid evict_cron expression: " err ""), oc)
        | None =>
          (Ok tt, Some (set_endpoints c (<[endpoint :=
             new_endpoint endpoint maxCost (Some (ec_EvictCron cfg))]> (c_endpoints c))))
        end
      else (Ok tt, Some (set_endpoints c (<[endpoint := new_endpoint endpoint maxCost None]>
                                            (c_endpoints c))))
  | _, _ => (Ok tt, oc)
  end.

Definition getEndpoint (c : Cache) (endpoint : string) : option EndpointCache :=
  c_endpoints c !! endpoint.

Definition count_hit (c : Cache) (endpoint : string) : Cache :=
  {| c_store := c_store c; c_maxCost := c_maxCost c; c_defaultTTL := c_defaultTTL c;
     c_endpoints := alter ep_hit endpoint (c_endpoints c);
     c_totalHits := i64 (c_totalHits c + 1); c_totalMisses := c_totalMisses c |}.

Definition count_miss (c : Cache) (endpoint : string) : Cache :=
  {| c_store := c_store c; c_maxCost := c_maxCost c; c_defaultTTL := c_defaultTTL c;
     c_endpoints := alter ep_miss endpoint (c_endpoints c);
     c_totalHits := c_totalHits c; c_totalMisses := i64 (c_totalMisses c + 1) |}.

Definition Get (oc : option Cache) (endpoint key : string) : option Rows * option Cache :=
  match oc with
  | None => (None, None)
  | Some c =>
    match store_Get (c_store c) (fullKey endpoint key) with
    | None => (None, Some (count_miss c endpoint))
    | Some None => (None, Some (count_miss c endpoint))
    | Some (Some entry) => (Some (e_Data entry), Some (count_hit c endpoint))
    end
  end.

Definition Delete_ (c : Cache) (endpoint key : string) : Cache :=
  let c := set_store c (store_Del (c_store c) (fullKey endpoint key)) in
  set_endpoints c (alter (fun ep => ep_forget ep key) endpoint (c_endpoints c)).

Definition Delete (oc : option Cache) (endpoint key : string) : option Cache :=
  (fun c => Delete_ c endpoint key) <$> oc.

(** The loop of [evictFromEndpoint] over the sorted keys; [freed] is an [int64]. *)
Fixpoint evict_loop (c : Cache) (endpoint : string) (needed : Z) (keys : list keyAge) (freed : Z)
    : Cache :=
  match keys with
  | [] => c
  | ka :: keys' =>
    if decide (freed >= needed) then c
    else evict_loop (Delete_ c endpoint ka.1) endpoint needed keys'
           (i64 (freed + em_sizeBytes ka.2))
  end.

Definition evictFromEndpoint (c : Cache) (endpoint : string) (needed : Z) : Cache :=
  match getEndpoint c endpoint with
  | None => c
  | Some ep => evict_loop c endpoint needed (by_age (ep_keys ep)) 0
  end.

Definition calculateSize (data : Rows) : Z :=
  match data with [] => 0 | _ => json_len data end.

(** The first half of [Set]: the limit test under the endpoint's lock, and the
    eviction after it is released. *)
Definition Set_make_room (c : Cache) (endpoint : string) (sizeBytes : Z) : Cache :=
  match getEndpoint c endpoint with
  | Some ep =>
    if decide (ep_maxCost ep > 0) then
      if decide (i64 (ep_sizeBytes ep + sizeBytes) > ep_maxCost ep)
      then evictFromEndpoint c endpoint sizeBytes else c
    else c
  | None => c
  end.

(** The second half: the store, then the metadata under the lock.  [now] is read
    for the entry, [now'] for the metadata; the entry keeps the [ttl] it was
    given, the metadata the effective one. *)
Definition Set_commit (c : Cache) (endpoint key : string) (data : Rows) (sizeBytes ttl now now' : Z)
    : bool * Cache :=
  let entry := {| e_Data := data; e_SizeBytes := sizeBytes; e_CachedAt := now; e_TTL := ttl |} in
  let ttl := if decide (ttl = 0) then c_defaultTTL c else ttl in
  let '(success, s) := store_SetWithTTL (c_store c) (fullKey endpoint key) (Some entry) sizeBytes ttl in
  let c := set_store c s in
  if success then
    (true, set_endpoints c (alter (fun ep => ep_record ep key
       {| em_sizeBytes := sizeBytes; em_cachedAt := now'; em_ttl := ttl |}) endpoint (c_endpoints c)))
  else (false, c).

Definition Set_ (c : Cache) (endpoint key : string) (data : Rows) (ttl now now' : Z) : bool * Cache :=
  let sizeBytes := calculateSize data in
  Set_commit (Set_make_room c endpoint sizeBytes) endpoint key data sizeBytes ttl now now'.

Definition Set' (oc : option Cache) (endpoint key : string) (data : Rows) (ttl now now' : Z)
    : bool * option Cache :=
  match oc with
  | None => (false, None)
  | Some c => let '(b, c') := Set_ c endpoint key data ttl now now' in (b, Some c')
  end.

(** [Delete] of each key of a list. *)
Definition delete_all (c : Cache) (endpoint : string) (l : list keyAge) : Cache :=
  foldl (fun c ka => Delete_ c endpoint ka.1) c l.

(** [Clear]; the order of the map walk is again that of [by_age], which only
    the order of the deletions depends on. *)
Definition Clear (oc : option Cache) (endpoint : string) : option Cache :=
  match oc with
  | None => None
  | Some c =>
    match getEndpoint c endpoint with
    | None => Some c
    | Some ep => Some (delete_all c endpoint (by_age (ep_keys ep)))
    end
  end.

Definition ClearAll (oc : option Cache) : option Cache :=
  (fun c => set_endpoints (set_store c (store_Clear (c_store c))) (ep_reset <$> c_endpoints c)) <$> oc.

(** [Close]: the cron jobs are stopped and the store closed. *)
Definition ep_stop (ep : EndpointCache) : EndpointCache :=
  {| ep_name := ep_name ep; ep_maxCost := ep_maxCost ep; ep_keys := ep_keys ep;
     ep_cronEvict := None; ep_hits := ep_hits ep; ep_misses := ep_misses ep;
     ep_sets := ep_sets ep; ep_evictions := ep_evictions ep; ep_sizeBytes := ep_sizeBytes ep |}.

Definition Close (oc : option Cache) : option Cache :=
  (fun c => set_store (set_endpoints c (ep_stop <$> c_endpoints c)) (store_Close (c_store c))) <$> oc.

(** [GetOrCompute]; [compute] acts on a world [W].  [flight] is the outcome of a
    computation for the same key that is already under way and that
    [singleflight] makes this caller wait for; without one, this caller leads. *)
Definition GetOrCompute {W} (oc : option Cache) (endpoint key : string) (ttl now now' : Z)
    (compute : W -> result Rows * W) (flight : option (result Rows)) (w : W)
    : result (Rows * bool) * option Cache * W :=
  let answer (r : result Rows) := try data := r in Ok (data, false) in
  match oc with
  | None => let '(r, w) := compute w in (answer r, None, w)
  | Some _ =>
    let '(got, oc) := Get oc endpoint key in
    match got with
    | Some data => (Ok (data, true), oc, w)
    | None =>
      match flight with
      | Some r => (answer r, oc, w)
      | None =>
        let '(got, oc) := Get oc endpoint key in
        match got with
        | Some data => (Ok (data, false), oc, w)
        | None =>
          let '(r, w) := compute w in
          match r with
          | Err e => (Err e, oc, w)
          | Ok data => let '(_, oc) := Set' oc endpoint key data ttl now now' in
                       (Ok (data, false), oc, w)
          end
        end
      end
    end
  end.

(** [HitRatio] as the two operands of the float division, when it is made. *)
Definition ratio (hits misses : Z) : option (Z * Z) :=
  let total := i64 (hits + misses) in
  if decide (total > 0) then Some (hits, total) else None.

Definition endpoint_metrics (ep : EndpointCache) : EndpointMetrics :=
  {| mt_Hits := ep_hits ep; mt_Misses := ep_misses ep; mt_Sets := ep_sets ep;
     mt_Evictions := ep_evictions ep; mt_KeyCount := Z.of_nat (size (ep_keys ep));
     mt_SizeBytes := ep_sizeBytes ep; mt_HitRatio := ratio (ep_hits ep) (ep_misses ep) |}.

Definition GetSnapshot (oc : option Cache) : option CacheSnapshot :=
  (fun c =>
    let eps := endpoint_metrics <$> c_endpoints c in
    {| sn_Enabled := true; sn_MaxSizeBytes := c_maxCost c;
       sn_TotalHits := c_totalHits c; sn_TotalMisses := c_totalMisses c;
       sn_HitRatio := ratio (c_totalHits c) (c_totalMisses c); sn_Endpoints := eps;
       sn_TotalKeys := foldr (fun kv t => i64 (t + mt_KeyCount kv.2)) 0 (map_to_list eps);
       sn_TotalSizeBytes := foldr (fun kv t => i64 (t + mt_SizeBytes kv.2)) 0 (map_to_list eps) |})
  <$> oc.

Definition GetTTLRemaining (oc : option Cache) (endpoint key : string) (now : Z) : Z :=
  match oc with
  | None => 0
  | Some c =>
    match getEndpoint c endpoint with
    | None => 0
    | Some ep =>
      match ep_keys ep !! key with
      | None => 0
      | Some meta =>
        let elapsed := time_Sub now (em_cachedAt meta) in
        let remaining := i64 (em_ttl meta - elapsed) in
        if decide (remaining < 0) then 0 else remaining
      end
    end
  end.

(** ** Accounting *)

(** The bytes the metadata accounts for, without wrap-around. *)
Definition total (m : gmap string entryMeta) : Z := map_sum em_sizeBytes m.

Definition sizes (l : list keyAge) : Z := foldr (fun ka t => em_sizeBytes ka.2 + t) 0 l.

Definition meta_ok (m : entryMeta) : Prop := 0 <= em_sizeBytes m < two63.

(** What every endpoint record satisfies: its counter is the sum of the sizes it
    tracks (as an [int64]), and the sizes are sizes. *)
Definition ep_inv (ep : EndpointCache) : Prop :=
  ep_sizeBytes ep = i64 (total (ep_keys ep)) /\ map_Forall (fun _ => meta_ok) (ep_keys ep).

Definition cache_inv (c : Cache) : Prop := map_Forall (fun name ep => ep_name ep = name /\ ep_inv ep) (c_endpoints c).

Lemma total_insert m k v : m !! k = None -> total (<[k := v]> m) = em_sizeBytes v + total m.
Proof. apply map_sum_insert. Qed.

Lemma total_delete m k v : m !! k = Some v -> total m = em_sizeBytes v + total (delete k m).
Proof. apply map_sum_delete. Qed.

Lemma total_sizes m l : l ≡ₚ map_to_list m -> total m = sizes l.
Proof.
  revert l. induction m as [|k v m Hk IH] using map_ind; intros l Hl.
  - rewrite map_to_list_empty in Hl. by apply Permutation_nil_r in Hl as ->.
  - rewrite map_to_list_insert in Hl by done. rewrite total_insert by done.
    rewrite (IH (map_to_list m)) by done.
    change (sizes ((k, v) :: map_to_list m) = sizes l).
    clear IH. induction Hl; simpl in *; lia.
Qed.

Lemma total_nonneg m : map_Forall (fun _ => meta_ok) m -> 0 <= total m.
Proof.
  induction m as [|k v m Hk IH] using map_ind; [done|].
  intros [Hv Hm]%map_Forall_insert; [|done]. rewrite total_insert by done.
  unfold meta_ok in Hv. specialize (IH Hm). lia.
Qed.

Lemma ep_record_inv ep key m : meta_ok m -> ep_inv ep -> ep_inv (ep_record ep key m).
Proof.
  intros Hm [Hs Hk]. split; [|by apply map_Forall_insert_2]. simpl. rewrite Hs.
  destruct (ep_keys ep !! key) as [old|] eqn:E.
  - rewrite i64_sub_l, i64_add_l, <- insert_delete_eq, total_insert by apply lookup_delete_eq.
    f_equal. rewrite (total_delete _ _ _ E). lia.
  - rewrite i64_add_l, total_insert by done. f_equal. lia.
Qed.

Lemma ep_forget_inv ep key : ep_inv ep -> ep_inv (ep_forget ep key).
Proof.
  intros [Hs Hk]. unfold ep_forget. destruct (ep_keys ep !! key) as [old|] eqn:E; [|done].
  split; simpl; [|by apply map_Forall_delete]. rewrite Hs, i64_sub_l. f_equal.
  rewrite (total_delete _ _ _ E). lia.
Qed.

Lemma ep_reset_inv ep : ep_inv (ep_reset ep).
Proof. split; [done|]. apply map_Forall_empty. Qed.

(** Updating one endpoint preserves the invariant if the update does. *)
Lemma inv_alter (m : gmap string EndpointCache) f endpoint :
  (forall ep, ep_name (f ep) = ep_name ep) -> (forall ep, ep_inv ep -> ep_inv (f ep)) ->
  map_Forall (fun name ep => ep_name ep = name /\ ep_inv ep) m ->
  map_Forall (fun name ep => ep_name ep = name /\ ep_inv ep) (alter f endpoint m).
Proof.
  intros Hn Hi Hm name ep. rewrite lookup_alter. case_decide as E.
  - intros (ep' & He & ->)%fmap_Some. apply Hm in He as [<- ?]. rewrite Hn. auto.
  - apply Hm.
Qed.

Lemma ep_forget_name ep key : ep_name (ep_forget ep key) = ep_name ep.
Proof. unfold ep_forget. by destruct (ep_keys ep !! key). Qed.

Lemma Delete_inv c endpoint key : cache_inv c -> cache_inv (Delete_ c endpoint key).
Proof.
  intros Hc. apply inv_alter; [intros; apply ep_forget_name|intros; by apply ep_forget_inv|done].
Qed.

Lemma deletes_inv endpoint l c : cache_inv c -> cache_inv (delete_all c endpoint l).
Proof. revert c. induction l; intros c Hc; simpl; auto using Delete_inv. Qed.

Lemma evict_loop_inv c endpoint needed keys freed :
  cache_inv c -> cache_inv (evict_loop c endpoint needed keys freed).
Proof.
  revert c freed. induction keys as [|ka keys IH]; intros c freed Hc; simpl; [done|].
  case_decide; [done|]. by apply IH, Delete_inv.
Qed.

Lemma make_room_inv c endpoint n : cache_inv c -> cache_inv (Set_make_room c endpoint n).
Proof.
  intros Hc. unfold Set_make_room, evictFromEndpoint. repeat case_match; try done.
  by apply evict_loop_inv.
Qed.

Lemma calculateSize_range data : 0 <= calculateSize data < two63.
Proof. unfold calculateSize. case_match; [done|]. apply json_len_range. Qed.

Lemma commit_inv c endpoint key data n ttl now now' : 0 <= n < two63 -> cache_inv c ->
  cache_inv (Set_commit c endpoint key data n ttl now now').2.
Proof.
  intros Hn Hc. unfold Set_commit. destruct (store_SetWithTTL _ _ _ _ _) as [[] s]; [|done].
  apply inv_alter; [done| |done]. intros ep. by apply ep_record_inv.
Qed.

Lemma Set_inv c endpoint key data ttl now now' : cache_inv c ->
  cache_inv (Set_ c endpoint key data ttl now now').2.
Proof. intros. by apply commit_inv, make_room_inv; [apply calculateSize_range|]. Qed.

(** ** Runs

    The operations other parts of the program call, with the two halves of [Set]
    as operations of their own: a run of these covers every interleaving of
    concurrent writers at the points where the code holds no lock. *)
Inductive cache_op : Type :=
| OGet (endpoint key : string)
| OSet (endpoint key : string) (data : Rows) (ttl now now' : Z)
| OMakeRoom (endpoint : string) (data : Rows)
| OCommit (endpoint key : string) (data : Rows) (ttl now now' : Z)
| ODelete (endpoint key : string)
| OClear (endpoint : string)
| OClearAll
| ORegister (endpoint : string) (cfg : EndpointCacheConfig).

Definition exec_op (c : Cache) (o : cache_op) : Cache :=
  match o with
  | OGet endpoint key => default c (Get (Some c) endpoint key).2
  | OSet endpoint key data ttl now now' => (Set_ c endpoint key data ttl now now').2
  | OMakeRoom endpoint data => Set_make_room c endpoint (calculateSize data)
  | OCommit endpoint key data ttl now now' =>
      (Set_commit c endpoint key data (calculateSize data) ttl now now').2
  | ODelete endpoint key => Delete_ c endpoint key
  | OClear endpoint => default c (Clear (Some c) endpoint)
  | OClearAll => default c (ClearAll (Some c))
  | ORegister endpoint cfg => default c (RegisterEndpoint (Some c) endpoint (Some cfg)).2
  end.

Definition run (c : Cache) (ops : list cache_op) : Cache := foldl exec_op c ops.

Lemma count_inv c endpoint (hit : bool) :
  cache_inv c -> cache_inv (if hit then count_hit c endpoint else count_miss c endpoint).
Proof. intros Hc. destruct hit; by apply inv_alter. Qed.

Lemma Get_inv c endpoint key : cache_inv c -> cache_inv (default c (Get (Some c) endpoint key).2).
Proof.
  intros Hc. unfold Get. destruct (store_Get _ _) as [[e|]|]; simpl.
  - by apply (count_inv _ _ true).
  - by apply (count_inv _ _ false).
  - by apply (count_inv _ _ false).
Qed.

Lemma new_endpoint_inv endpoint z cr c : cache_inv c ->
  cache_inv (set_endpoints c (<[endpoint := new_endpoint endpoint z cr]> (c_endpoints c))).
Proof.
  intros Hc. apply map_Forall_insert_2; [|done]. by split_and!.
Qed.

Lemma exec_op_inv c o : cache_inv c -> cache_inv (exec_op c o).
Proof.
  intros Hc. destruct o; simpl.
  - by apply Get_inv.
  - by apply Set_inv.
  - by apply make_room_inv.
  - by apply commit_inv; [apply calculateSize_range|].
  - by apply Delete_inv.
  - unfold Clear. case_match; simpl; [by apply deletes_inv|done].
  - intros name ep. simpl. rewrite lookup_fmap. intros (ep' & He & ->)%fmap_Some.
    split; [by apply Hc in He as [<- _]|apply ep_reset_inv].
  - repeat case_match; simpl; try done; by apply new_endpoint_inv.
Qed.

Lemma run_inv c ops : cache_inv c -> cache_inv (run c ops).
Proof. revert c. induction ops; intros c Hc; simpl; auto using exec_op_inv. Qed.

Lemma New_inv cfg c : New cfg = Ok (Some c) -> cache_inv c.
Proof.
  unfold New. destruct (cc_Enabled cfg); [|done]. cbn [negb]. cbv zeta.
  destruct (store_new _); [|done]. by intros [= <-].
Qed.

(** accounting.  In every state reached from [New] by any sequence of
    operations, interleavings of concurrent [Set]s included, each endpoint's
    [sizeBytes] is the sum of the sizes of the keys it tracks (modulo the 64-bit
    wrap-around), and exactly that sum as long as it fits. *)
Theorem cache_accounting cfg c ops name ep
    (Hnew : New cfg = Ok (Some c)) (Hep : c_endpoints (run c ops) !! name = Some ep) :
  ep_name ep = name /\ ep_sizeBytes ep = i64 (total (ep_keys ep)) /\ 0 <= total (ep_keys ep) /\
  (total (ep_keys ep) < two63 -> ep_sizeBytes ep = total (ep_keys ep)).
Proof.
  apply New_inv in Hnew. apply (run_inv _ ops) in Hnew. apply Hnew in Hep as [Hn [Hs Hk]].
  pose proof (total_nonneg _ Hk). split_and!; try done. intros. rewrite Hs. apply i64_small.
  unfold two63 in *. lia.
Qed.

(** ** The per-endpoint limit *)

Definition forget_all (ep : EndpointCache) (l : list keyAge) : EndpointCache :=
  foldl (fun ep ka => ep_forget ep ka.1) ep l.

Lemma delete_all_lookup c endpoint l :
  c_endpoints (delete_all c endpoint l) !! endpoint
  = (fun ep => forget_all ep l) <$> (c_endpoints c !! endpoint).
Proof.
  revert c. induction l as [|ka l IH]; intros c; simpl; [by destruct (c_endpoints c !! endpoint)|].
  rewrite IH. simpl. rewrite lookup_alter_eq. by destruct (c_endpoints c !! endpoint).
Qed.

Lemma forget_all_maxCost ep l : ep_maxCost (forget_all ep l) = ep_maxCost ep.
Proof.
  revert ep. induction l as [|ka l IH]; intros ep; simpl; [done|]. rewrite IH.
  unfold ep_forget. by destruct (ep_keys ep !! ka.1).
Qed.

Lemma forget_all_inv ep l : ep_inv ep -> ep_inv (forget_all ep l).
Proof. revert ep. induction l; intros ep Hep; simpl; auto using ep_forget_inv. Qed.

Lemma ep_forget_keys ep key : ep_keys (ep_forget ep key) = delete key (ep_keys ep).
Proof. unfold ep_forget. destruct (ep_keys ep !! key) eqn:E; [done|]. by rewrite delete_id. Qed.

(** Forgetting distinct tracked keys removes exactly their sizes. *)
Lemma forget_all_total ep l : NoDup l.*1 -> (forall k m, (k, m) ∈ l -> ep_keys ep !! k = Some m) ->
  total (ep_keys (forget_all ep l)) = total (ep_keys ep) - sizes l.
Proof.
  revert ep. induction l as [|[k m] l IH]; intros ep Hnd Hin; [simpl; lia|].
  rewrite fmap_cons in Hnd. apply NoDup_cons in Hnd as [Hk Hnd]. simpl.
  rewrite IH; [|done|].
  - rewrite ep_forget_keys, (total_delete (ep_keys ep) k m) by (apply Hin; left). unfold sizes. lia.
  - intros k' m' Hl. rewrite ep_forget_keys, lookup_delete_ne.
    + apply Hin. by right.
    + intros ->. apply Hk. by apply (list_elem_of_fmap_2 fst _ _ Hl).
Qed.

(** The eviction loop deletes a prefix of the list: as many keys as are needed,
    and no more. *)
Lemma evict_loop_split c endpoint needed keys freed :
  0 <= freed -> Forall (fun ka => meta_ok ka.2) keys -> freed + sizes keys < two63 ->
  exists l1 l2, keys = l1 ++ l2 /\
    evict_loop c endpoint needed keys freed = delete_all c endpoint l1 /\
    (l2 = [] \/ freed + sizes l1 >= needed) /\
    (forall a b, l1 = a ++ b -> b <> [] -> freed + sizes a < needed).
Proof.
  revert c freed. induction keys as [|ka keys IH]; intros c freed Hf Hok Hs.
  { exists [], []. split_and!; try done; [by left|]. by intros a b [-> ->]%eq_sym%app_nil. }
  apply Forall_cons in Hok as [Hka Hok]. cbn [sizes foldr] in Hs. fold (sizes keys) in Hs.
  assert (0 <= sizes keys) by (clear -Hok; induction Hok as [|x l Hx _ IH]; simpl; [done|];
    unfold meta_ok in Hx; fold (sizes l); lia).
  unfold meta_ok in Hka. cbn [evict_loop]. case_decide as Hd.
  { exists [], (ka :: keys). split_and!; try done; [right; simpl; lia|].
    by intros a b [-> ->]%eq_sym%app_nil. }
  rewrite i64_small by (unfold two63 in *; lia).
  destruct (IH (Delete_ c endpoint ka.1) (freed + em_sizeBytes ka.2)) as (l1 & l2 & -> & -> & Hl & Hmin);
    [lia|done|lia|].
  exists (ka :: l1), l2. split_and!; [done|done| |].
  - destruct Hl as [->|Hl]; [by left|]. right. cbn [sizes foldr]. fold (sizes l1). lia.
  - intros [|x a] b E Hb; [simpl; lia|]. injection E as <- E.
    specialize (Hmin a b E Hb). cbn [sizes foldr]. fold (sizes a). lia.
Qed.

Lemma by_age_facts (m : gmap string entryMeta) : map_Forall (fun _ => meta_ok) m ->
  NoDup (by_age m).*1 /\ (forall k v, (k, v) ∈ by_age m <-> m !! k = Some v) /\
  Forall (fun ka => meta_ok ka.2) (by_age m) /\ sizes (by_age m) = total m.
Proof.
  intros Hm. pose proof (by_age_perm m) as Hp.
  assert (forall k v, (k, v) ∈ by_age m <-> m !! k = Some v) as Hin.
  { intros k v. by rewrite Hp, elem_of_map_to_list. }
  split_and!; [| done | |].
  - rewrite Hp. apply NoDup_fst_map_to_list.
  - apply Forall_forall. intros [k v] Hk. apply Hin in Hk. by apply Hm in Hk.
  - symmetry. by apply total_sizes.
Qed.

Lemma sizes_app a b : sizes (a ++ b) = sizes a + sizes b.
Proof. induction a as [|x a IH]; simpl in *; unfold sizes in *; lia. Qed.

Lemma forget_all_lookup ep l k :
  ep_keys (forget_all ep l) !! k = if decide (k ∈ l.*1) then None else ep_keys ep !! k.
Proof.
  revert ep. induction l as [|ka l IH]; intros ep; simpl; [done|].
  rewrite IH, ep_forget_keys, lookup_delete.
  destruct (decide (ka.1 = k)) as [<-|]; repeat case_decide; set_solver.
Qed.

(** What an eviction leaves of an endpoint whose total fits an [int64]. *)
Lemma evict_spec c name needed ep :
  cache_inv c -> c_endpoints c !! name = Some ep -> total (ep_keys ep) < two63 ->
  exists l1 l2, by_age (ep_keys ep) = l1 ++ l2 /\
    c_endpoints (evictFromEndpoint c name needed) !! name = Some (forget_all ep l1) /\
    total (ep_keys (forget_all ep l1)) = sizes l2 /\
    (l2 = [] \/ sizes l1 >= needed) /\
    (forall a b, l1 = a ++ b -> b <> [] -> sizes a < needed).
Proof.
  intros Hc Hep Ht. destruct (Hc _ _ Hep) as [_ [Hs Hk]].
  destruct (by_age_facts _ Hk) as (Hnd & Hin & Hok & Hsz).
  destruct (evict_loop_split c name needed (by_age (ep_keys ep)) 0) as (l1 & l2 & El & Ec & Hl & Hmin);
    [done|done|lia|].
  rewrite El in Hnd, Hin, Hsz. rewrite sizes_app in Hsz. rewrite fmap_app in Hnd.
  apply NoDup_app in Hnd as (Hnd & _ & _).
  exists l1, l2. split_and!; try done.
  - unfold evictFromEndpoint, getEndpoint. by rewrite Hep, Ec, delete_all_lookup, Hep.
  - rewrite forget_all_total; [lia|done|]. intros k m Hkm. apply Hin, elem_of_app. by left.
Qed.

(** eviction is oldest first and no more than is needed.  The keys that
    [evictFromEndpoint] keeps are those of a final segment of the list sorted by
    [cachedAt], so no key it keeps is older than one it evicts; it evicts
    everything or frees at least the needed bytes; and without the last key
    evicted it would have freed too little. *)
Theorem evict_oldest_first c name needed ep
    (Hc : cache_inv c) (Hep : c_endpoints c !! name = Some ep) (Ht : total (ep_keys ep) < two63) :
  exists ep' evicted kept, c_endpoints (evictFromEndpoint c name needed) !! name = Some ep' /\
    evicted ++ kept ≡ₚ map_to_list (ep_keys ep) /\
    (forall k m, ep_keys ep' !! k = Some m <-> (k, m) ∈ kept) /\
    (forall a b : keyAge, a ∈ evicted -> b ∈ kept -> em_cachedAt a.2 <= em_cachedAt b.2) /\
    (kept = [] \/ sizes evicted >= needed) /\
    (forall a b, evicted = a ++ b -> b <> [] -> sizes a < needed).
Proof.
  destruct (evict_spec c name needed ep Hc Hep Ht) as (l1 & l2 & El & Ee & _ & Hl & Hmin).
  exists (forget_all ep l1), l1, l2. split_and!; try done.
  - pose proof (by_age_perm (ep_keys ep)) as Hp. by rewrite El in Hp.
  - intros k m. destruct (Hc _ _ Hep) as [_ [_ Hk]].
    destruct (by_age_facts _ Hk) as (Hnd & Hin & _). rewrite El in Hnd, Hin.
    rewrite fmap_app in Hnd. apply NoDup_app in Hnd as (_ & Hdis & _).
    rewrite forget_all_lookup. case_decide as Hk1.
    + split; [done|]. intros Hkm. exfalso. apply (Hdis k Hk1).
      by apply (list_elem_of_fmap_2 fst _ _ Hkm).
    + rewrite <- Hin, elem_of_app. split; [|by right]. intros [Hkm|]; [|done].
      destruct Hk1. by apply (list_elem_of_fmap_2 fst _ _ Hkm).
  - intros a b Ha Hb. pose proof (by_age_sorted (ep_keys ep)) as Hs. rewrite El in Hs.
    by apply (StronglySorted_app_1_elem_of _ _ _ _ _ Hs).
Qed.

(** The limit of every endpoint that has one. *)
Definition limit_inv (c : Cache) : Prop :=
  map_Forall (fun _ ep => ep_maxCost ep < 2 ^ 62 /\
    (0 < ep_maxCost ep -> total (ep_keys ep) <= ep_maxCost ep)) (c_endpoints c).

(** The entries an operation writes fit the limit of their endpoint; the second
    half of [Set] does not run without the first. *)
Definition fits (c : Cache) (o : cache_op) : Prop :=
  match o with
  | OSet endpoint _ data _ _ _ => forall ep, c_endpoints c !! endpoint = Some ep ->
      0 < ep_maxCost ep -> calculateSize data <= ep_maxCost ep
  | OCommit _ _ _ _ _ _ => False
  | ORegister _ cfg => 0 <= ec_MaxSizeMB cfg < 2 ^ 42
  | _ => True
  end.

Lemma limit_alter (m : gmap string EndpointCache) f endpoint :
  (forall ep, m !! endpoint = Some ep -> ep_maxCost (f ep) = ep_maxCost ep /\
     (0 < ep_maxCost ep -> total (ep_keys (f ep)) <= ep_maxCost ep)) ->
  map_Forall (fun _ ep => ep_maxCost ep < 2 ^ 62 /\
    (0 < ep_maxCost ep -> total (ep_keys ep) <= ep_maxCost ep)) m ->
  map_Forall (fun _ ep => ep_maxCost ep < 2 ^ 62 /\
    (0 < ep_maxCost ep -> total (ep_keys ep) <= ep_maxCost ep)) (alter f endpoint m).
Proof.
  intros Hf Hm name ep. rewrite lookup_alter. case_decide as E; [|apply Hm].
  subst name. intros (ep' & He & ->)%fmap_Some. destruct (Hf _ He) as [-> ?].
  split; [apply (Hm _ _ He)|done].
Qed.

Lemma ep_forget_total ep key : ep_inv ep -> total (ep_keys (ep_forget ep key)) <= total (ep_keys ep).
Proof.
  intros [_ Hk]. rewrite ep_forget_keys. destruct (ep_keys ep !! key) as [m|] eqn:E.
  - rewrite (total_delete _ _ _ E). apply Hk in E. unfold meta_ok in E. lia.
  - by rewrite delete_id.
Qed.

Lemma ep_forget_maxCost ep key : ep_maxCost (ep_forget ep key) = ep_maxCost ep.
Proof. unfold ep_forget. by destruct (ep_keys ep !! key). Qed.

Lemma Delete_limit c endpoint key : cache_inv c -> limit_inv c -> limit_inv (Delete_ c endpoint key).
Proof.
  intros Hc Hl. apply limit_alter; [|done]. intros ep Hep. rewrite ep_forget_maxCost.
  split; [done|]. intros Hpos. destruct (Hc _ _ Hep) as [_ Hi]. destruct (Hl _ _ Hep) as [_ Ht].
  pose proof (ep_forget_total ep key Hi). specialize (Ht Hpos). lia.
Qed.

Lemma deletes_limit endpoint l c : cache_inv c -> limit_inv c -> limit_inv (delete_all c endpoint l).
Proof. revert c. induction l; intros c Hc Hl; simpl; auto using Delete_inv, Delete_limit. Qed.

Lemma evict_loop_limit c endpoint needed keys freed :
  cache_inv c -> limit_inv c -> limit_inv (evict_loop c endpoint needed keys freed).
Proof.
  revert c freed. induction keys as [|ka keys IH]; intros c freed Hc Hl; simpl; [done|].
  case_decide; [done|]. apply IH; auto using Delete_inv, Delete_limit.
Qed.

Lemma make_room_limit c endpoint n : cache_inv c -> limit_inv c -> limit_inv (Set_make_room c endpoint n).
Proof.
  intros Hc Hl. unfold Set_make_room, evictFromEndpoint. repeat case_match; try done.
  by apply evict_loop_limit.
Qed.

(** Once room is made, the new entry fits beside what is left. *)
Lemma make_room_fits c name n ep ep' :
  cache_inv c -> limit_inv c -> c_endpoints c !! name = Some ep -> 0 < ep_maxCost ep ->
  0 <= n <= ep_maxCost ep -> c_endpoints (Set_make_room c name n) !! name = Some ep' ->
  ep_maxCost ep' = ep_maxCost ep /\ total (ep_keys ep') + n <= ep_maxCost ep.
Proof.
  intros Hc Hl Hep Hpos Hn. destruct (Hl _ _ Hep) as [Hmax Ht]. specialize (Ht Hpos).
  destruct (Hc _ _ Hep) as [_ [Hs Hk]]. pose proof (total_nonneg _ Hk).
  unfold Set_make_room, getEndpoint. rewrite Hep, decide_True by lia.
  rewrite Hs, i64_add_l, i64_small by (unfold two63; lia). case_decide as Hd.
  - destruct (evict_spec c name n ep Hc Hep) as (l1 & l2 & El & -> & Htot & Hl2 & _);
      [unfold two63; lia|]. intros [= <-]. rewrite forget_all_maxCost, Htot. split; [done|].
    destruct (by_age_facts _ Hk) as (_ & _ & _ & Hsz). rewrite El, sizes_app in Hsz.
    destruct Hl2 as [-> | Hl2]; simpl; lia.
  - rewrite Hep. intros [= <-]. lia.
Qed.

Lemma ep_record_total ep key m : ep_inv ep ->
  total (ep_keys (ep_record ep key m)) <= total (ep_keys ep) + em_sizeBytes m.
Proof.
  intros [_ Hk]. simpl. destruct (ep_keys ep !! key) as [old|] eqn:E.
  - rewrite <- insert_delete_eq, total_insert, (total_delete _ _ _ E) by apply lookup_delete_eq.
    apply Hk in E. unfold meta_ok in E. lia.
  - rewrite total_insert by done. lia.
Qed.

Lemma evict_loop_maxCost c name needed l freed ep ep' :
  c_endpoints c !! name = Some ep -> c_endpoints (evict_loop c name needed l freed) !! name = Some ep' ->
  ep_maxCost ep' = ep_maxCost ep.
Proof.
  revert c ep freed. induction l as [|ka l IH]; simpl; intros c ep freed Hep; [congruence|].
  case_decide; [congruence|]. intros E. rewrite <- (ep_forget_maxCost ep ka.1).
  eapply IH; [|exact E]. simpl. by rewrite lookup_alter_eq, Hep.
Qed.

Lemma make_room_maxCost c name n ep ep' :
  c_endpoints c !! name = Some ep -> c_endpoints (Set_make_room c name n) !! name = Some ep' ->
  ep_maxCost ep' = ep_maxCost ep.
Proof.
  intros Hep. unfold Set_make_room, evictFromEndpoint, getEndpoint. rewrite Hep.
  repeat case_decide; try congruence. by apply evict_loop_maxCost.
Qed.

Lemma Set_limit c endpoint key data ttl now now' : cache_inv c -> limit_inv c ->
  fits c (OSet endpoint key data ttl now now') -> limit_inv (Set_ c endpoint key data ttl now now').2.
Proof.
  intros Hc Hl Hfit. simpl in Hfit. unfold Set_, Set_commit.
  pose proof (calculateSize_range data) as Hn. set (n := calculateSize data) in *.
  pose proof (make_room_limit c endpoint n Hc Hl) as Hl'.
  pose proof (make_room_inv c endpoint n Hc) as Hc'.
  destruct (store_SetWithTTL _ _ _ _ _) as [[] st]; [|done].
  apply limit_alter; [|done]. intros ep' Hep'. split; [done|]. intros Hpos.
  destruct (Hc' _ _ Hep') as [_ Hi']. eapply Z.le_trans; [by apply ep_record_total|]. simpl.
  simpl in Hep'. destruct (c_endpoints c !! endpoint) as [ep|] eqn:Hep.
  - pose proof (make_room_maxCost _ _ _ _ _ Hep Hep') as Emax.
    rewrite Emax in *. eapply make_room_fits; [exact Hc|exact Hl|exact Hep|done| |exact Hep'].
    specialize (Hfit ep eq_refl). lia.
  - unfold Set_make_room, getEndpoint in Hep'. by rewrite Hep in Hep'; rewrite Hep in Hep'.
Qed.

Lemma mb_small mb : 0 <= mb < 2 ^ 42 -> 0 <= i64 (i64 (mb * 1024) * 1024) < 2 ^ 62.
Proof. intros Hm. rewrite !i64_small; unfold two63 in *; rewrite ?i64_small; unfold two63; lia. Qed.

(** the per-endpoint limit.  Every operation of a sequential client, [Set]
    with its eviction included, keeps the tracked bytes of each limited endpoint
    within its [max_size_mb], provided each entry written fits the limit by
    itself.  ([fits] excludes the second half of a [Set] run without the first.) *)
Theorem endpoint_limit c o (Hc : cache_inv c) (Hl : limit_inv c) (Hf : fits c o) :
  limit_inv (exec_op c o).
Proof.
  destruct o as [e k|e k d ttl now now'|e d|e k d ttl now now'|e k|e| |e cfg]; simpl.
  - unfold Get. destruct (store_Get _ _) as [[?|]|]; simpl;
      (apply limit_alter; [|done]); intros ep Hep; (split; [done|]); apply (Hl _ _ Hep).
  - by apply Set_limit.
  - by apply make_room_limit.
  - done.
  - by apply Delete_limit.
  - unfold Clear. case_match; simpl; [by apply deletes_limit|done].
  - intros name ep. simpl. rewrite lookup_fmap. intros (ep' & He & ->)%fmap_Some.
    split; [apply (Hl _ _ He)|]. simpl. intros. change (total ∅) with 0. lia.
  - simpl in Hf. pose proof (mb_small _ Hf).
    assert (forall cr, limit_inv (set_endpoints c (<[e := new_endpoint e
      (i64 (i64 (ec_MaxSizeMB cfg * 1024) * 1024)) cr]> (c_endpoints c)))) as Hnew.
    { intros cr. apply map_Forall_insert_2; [|done]. simpl. change (total ∅) with 0. lia. }
    unfold RegisterEndpoint. repeat case_match; simpl; auto.
Qed.

(** ** What [Get] may answer *)

(** [o] writes [data] under the store key [fk], or forgets that key. *)
Definition writes (o : cache_op) (fk : string) (data : Rows) : Prop :=
  match o with
  | OSet e k d _ _ _ | OCommit e k d _ _ _ => fk = fullKey e k /\ data = d
  | _ => False
  end.

Definition forgets (o : cache_op) (fk : string) : Prop :=
  match o with
  | ODelete e k => fk = fullKey e k
  | OClearAll => True
  | _ => False
  end.

Definition may_answer (c : Cache) (fk : string) (data : Rows) : Prop :=
  exists entry, store_may (c_store c) fk (Some entry) /\ e_Data entry = data.

Lemma Delete_may c e k fk d : may_answer (Delete_ c e k) fk d -> fk <> fullKey e k /\ may_answer c fk d.
Proof. intros (en & Hen & <-). apply store_Del_may in Hen as [? ?]. split; [done|]. by exists en. Qed.

Lemma deletes_may c e l fk d : may_answer (delete_all c e l) fk d -> may_answer c fk d.
Proof.
  revert c. induction l as [|ka l IH]; intros c; simpl; [done|].
  intros Hm. by apply IH, Delete_may in Hm as [_ Hm].
Qed.

Lemma deletes_may_not c e l k d : k ∈ l.*1 -> ~ may_answer (delete_all c e l) (fullKey e k) d.
Proof.
  revert c. induction l as [|ka l IH]; intros c; [by intros ?%not_elem_of_nil|].
  rewrite fmap_cons. intros [->|Hk]%elem_of_cons Hm; simpl in Hm.
  - apply deletes_may, Delete_may in Hm. by destruct Hm.
  - by apply (IH (Delete_ c e ka.1) Hk).
Qed.

Lemma evict_loop_may c e needed l freed fk d :
  may_answer (evict_loop c e needed l freed) fk d -> may_answer c fk d.
Proof.
  revert c freed. induction l as [|ka l IH]; intros c freed; simpl; [done|].
  case_decide; [done|]. intros Hm. by apply IH, Delete_may in Hm as [_ Hm].
Qed.

Lemma make_room_may c e n fk d : may_answer (Set_make_room c e n) fk d -> may_answer c fk d.
Proof.
  unfold Set_make_room, evictFromEndpoint. repeat case_match; try done. apply evict_loop_may.
Qed.

Lemma commit_may c e k data n ttl now now' fk d :
  may_answer (Set_commit c e k data n ttl now now').2 fk d ->
  (fk = fullKey e k /\ d = data) \/ may_answer c fk d.
Proof.
  unfold Set_commit. destruct (store_SetWithTTL _ _ _ _ _) as [b st] eqn:E. intros (en & Hen & <-).
  assert (store_may st fk (Some en)) as Hst by (by destruct b).
  replace st with (b, st).2 in Hst by done. rewrite <- E in Hst.
  apply store_Set_may in Hst as [[-> [= ->]]|Hst]; [by left|]. right. by exists en.
Qed.

Lemma exec_op_may c o fk d : may_answer (exec_op c o) fk d ->
  writes o fk d \/ may_answer c fk d /\ ~ forgets o fk.
Proof.
  destruct o as [e k|e k data ttl now now'|e data|e k data ttl now now'|e k|e| |e cfg]; simpl.
  - unfold Get. destruct (store_Get _ _) as [[?|]|]; auto.
  - intros Hm. apply commit_may in Hm as [?|Hm]; [by left|]. apply make_room_may in Hm. auto.
  - intros Hm%make_room_may. auto.
  - intros Hm. apply commit_may in Hm as [?|Hm]; auto.
  - intros [? Hm]%Delete_may. auto.
  - unfold Clear. case_match; simpl; [intros Hm%deletes_may|]; auto.
  - intros (en & Hen & _). by apply store_Clear_may in Hen.
  - unfold RegisterEndpoint. repeat case_match; simpl; auto.
Qed.

(** [Get] returns only what was stored under its key and not forgotten
    since: in any run from [New], interleaved halves of [Set] included, a hit's
    rows were written under the same store key by some operation of the run, with
    no [Delete] of that key and no [ClearAll] after it. *)
Theorem Get_sound cfg c ops endpoint key data (Hnew : New cfg = Ok (Some c))
    (Hget : (Get (Some (run c ops)) endpoint key).1 = Some data) :
  exists before o after, ops = before ++ o :: after /\ writes o (fullKey endpoint key) data /\
    Forall (fun o' => ~ forgets o' (fullKey endpoint key)) after.
Proof.
  assert (may_answer (run c ops) (fullKey endpoint key) data) as Hmay.
  { unfold Get in Hget. destruct (store_Get _ _) as [[en|]|] eqn:E; simplify_eq/=.
    exists en. split; [by apply store_Get_may|done]. }
  clear Hget. induction ops as [|o ops IH] using rev_ind.
  - exfalso. unfold New in Hnew. destruct (cc_Enabled cfg); [|done]. cbn [negb] in Hnew. cbv zeta in Hnew.
    destruct (store_new _) as [s|] eqn:E; [|done]. injection Hnew as <-.
    destruct Hmay as (en & Hen & _). by apply (store_new_empty _ _ _ _ E) in Hen.
  - unfold run in Hmay. rewrite foldl_app in Hmay. apply exec_op_may in Hmay as [Hw|[Hmay Hf]].
    + by exists ops, o, [].
    + destruct (IH Hmay) as (before & o' & after & -> & Hw & Hall).
      exists before, o', (after ++ [o]). split_and!; [by rewrite <- app_assoc|done|].
      apply Forall_app. split; [done|]. by constructor.
Qed.

(** [Clear] of a registered endpoint empties its metadata, and every key it
    tracked misses from then on; of an endpoint that was never registered it does
    nothing at all. *)
Theorem Clear_spec c endpoint (Hc : cache_inv c) :
  (c_endpoints c !! endpoint = None -> Clear (Some c) endpoint = Some c) /\
  (forall ep, c_endpoints c !! endpoint = Some ep ->
    exists c' ep', Clear (Some c) endpoint = Some c' /\ c_endpoints c' !! endpoint = Some ep' /\
      ep_keys ep' = ∅ /\ ep_sizeBytes ep' = 0 /\
      (forall key, is_Some (ep_keys ep !! key) -> (Get (Some c') endpoint key).1 = None)).
Proof.
  unfold Clear, getEndpoint. split; [by intros ->|]. intros ep Hep. rewrite Hep.
  destruct (Hc _ _ Hep) as [_ Hi]. destruct (by_age_facts _ (proj2 Hi)) as (_ & Hin & _).
  set (l := by_age (ep_keys ep)) in *.
  assert (forall k, k ∈ l.*1 <-> is_Some (ep_keys ep !! k)) as Hdom.
  { intros k. rewrite list_elem_of_fmap. split.
    - intros ([k' m] & -> & Hm). apply Hin in Hm. by exists m.
    - intros [m Hm]. exists (k, m). split; [done|by apply Hin]. }
  assert (ep_keys (forget_all ep l) = ∅) as Hempty.
  { apply map_eq. intros k. rewrite forget_all_lookup, lookup_empty. case_decide as Hk; [done|].
    rewrite Hdom in Hk. by apply eq_None_not_Some. }
  exists (delete_all c endpoint l), (forget_all ep l). split_and!; try done.
  - by rewrite delete_all_lookup, Hep.
  - destruct (forget_all_inv ep l Hi) as [Hs _]. by rewrite Hs, Hempty.
  - intros key Hk. apply Hdom in Hk. unfold Get.
    destruct (store_Get _ _) as [[en|]|] eqn:E; simpl; try done. exfalso. clear -E Hk.
    assert (may_answer (delete_all c endpoint l) (fullKey endpoint key) (e_Data en)) as Hm
      by (exists en; split; [by apply store_Get_may|done]).
    by apply deletes_may_not in Hm.
Qed.

(** the remaining time to live is never negative nor, when the clock has not
    gone back, more than the entry's own; it is 0 for a key that is not tracked. *)
Theorem GetTTLRemaining_bounds c endpoint key now ep meta
    (Hep : c_endpoints c !! endpoint = Some ep) (Hk : ep_keys ep !! key = Some meta)
    (Httl : 0 <= em_ttl meta < two63) (Hnow : em_cachedAt meta <= now) :
  GetTTLRemaining (Some c) endpoint key now = Z.max 0 (em_ttl meta - (now - em_cachedAt meta)).
Proof.
  unfold GetTTLRemaining, getEndpoint, time_Sub. rewrite Hep, Hk. cbv zeta.
  rewrite i64_small by (unfold two63 in *; lia). case_decide; lia.
Qed.
End Cache.

(** ** Store keys *)

(** store keys of endpoints whose names have no colon never collide: the
    cache keeps the endpoints apart. *)
Theorem fullKey_injective e1 e2 k1 k2
    (H1 : str_all (fun c => negb (Ascii.eqb c ":")) e1 = true)
    (H2 : str_all (fun c => negb (Ascii.eqb c ":")) e2 = true) :
  fullKey e1 k1 = fullKey e2 k2 <-> e1 = e2 /\ k1 = k2.
Proof.
  split; [|by intros [-> ->]]. by apply (split_at (fun c => negb (Ascii.eqb c ":"))).
Qed.

(** ** A concrete instance, for evaluating examples *)

Definition sample_json : JsonSize Z.
Proof.
  refine {| json_len := fun rows =>
    (foldr (fun row t => map_fold (fun _ v u => v + u) 0 row + t) 0 rows) `mod` two63 |}.
  intros. by apply Z.mod_pos_bound.
Defined.

Definition sample_store (E : Type) : Ristretto E.
Proof.
  refine {|
    store := gmap string E;
    store_new := fun _ => Ok ∅;
    store_Get := fun s k => s !! k;
    store_SetWithTTL := fun s k v _ _ => (true, <[k := v]> s);
    store_Del := fun s k => delete k s;
    store_Clear := fun _ => ∅;
    store_Close := fun _ => ∅;
    store_may := fun s k v => s !! k = Some v |}.
  - intros z s k v. by intros [= <-].
  - done.
  - intros s k v _ _ k' v'. simpl. rewrite lookup_insert. case_decide; intros; simplify_eq; auto.
  - intros s k k' v'. rewrite lookup_delete. case_decide; [done|]. auto.
  - done.
Defined.

Definition older (a b : keyAge) : Prop := em_cachedAt a.2 <= em_cachedAt b.2.
#[global] Instance older_dec a b : Decision (older a b) := decide (em_cachedAt a.2 <= em_cachedAt b.2).

Definition sample_order : AgeOrder.
Proof.
  refine {| by_age := fun m => merge_sort older (map_to_list m) |}.
  - intros m. apply merge_sort_Permutation.
  - intros m. apply StronglySorted_merge_sort.
    + intros a b c. unfold older. lia.
    + intros a b. unfold older. lia.
Defined.

Module Sample.
#[local] Existing Instances sample_json sample_store sample_order.

#[local] Instance no_cron : Cron := {| cron_AddFunc := fun _ => None |}.
Definition cfg : CacheConfig := {| cc_Enabled := true; cc_MaxSizeMB := 0; cc_DefaultTTLSec := 0 |}.
Definition limited : EndpointCacheConfig :=
  {| ec_Enabled := true; ec_Key := ""; ec_TTLSec := 0; ec_MaxSizeMB := 1; ec_EvictCron := "" |}.
Definition rows (n : Z) : list (gmap string Z) := [ {[ "x" := n ]} ].

Definition c0 : Cache (V := Z) :=
  {| c_store := (∅ : gmap string (option (Entry Z))); c_maxCost := 268435456;
     c_defaultTTL := 300000000000; c_endpoints := ∅; c_totalHits := 0; c_totalMisses := 0 |}.

Lemma c0_new : New cfg = Ok (Some c0).
Proof. reflexivity. Qed.

Definition run0 (ops : list (cache_op (V := Z))) : Cache := run c0 ops.

Definition filled : list (cache_op (V := Z)) :=
  [ORegister "wf" limited; OSet "wf" "a" (rows 500000) 0 1 1; OSet "wf" "b" (rows 500000) 0 2 2;
   OSet "wf" "c" (rows 400000) 0 3 3].

(** The third write evicts the oldest entry and only that one. *)
Example filled_keys : (fun ep => (map_to_list (ep_keys ep)).*1) <$> (c_endpoints (run0 filled) !! "wf")
  = Some ["c"; "b"].
Proof. by vm_compute. Qed.

Definition wf_ep (ops : list (cache_op (V := Z))) : EndpointCache :=
  default (new_endpoint "" 0 None) (c_endpoints (run0 ops) !! "wf").

Lemma wf_ep_lookup ops :
  match c_endpoints (run0 ops) !! "wf" with Some _ => true | None => false end = true ->
  c_endpoints (run0 ops) !! "wf" = Some (wf_ep ops).
Proof. unfold wf_ep. by destruct (c_endpoints (run0 ops) !! "wf"). Qed.

Lemma cache_accounting_witness : ep_sizeBytes (wf_ep filled) = total (ep_keys (wf_ep filled)).
Proof.
  apply (cache_accounting cfg c0 filled "wf" (wf_ep filled)).
  - apply c0_new.
  - by apply wf_ep_lookup; vm_compute.
  - by vm_compute.
Defined.

Lemma inv_run0 ops : cache_inv (run0 ops).
Proof. apply run_inv. by apply map_Forall_empty. Qed.

Lemma evict_oldest_first_witness : exists ep' evicted kept,
  c_endpoints (evictFromEndpoint (run0 filled) "wf" 1) !! "wf" = Some ep' /\
  evicted ++ kept ≡ₚ map_to_list (ep_keys (wf_ep filled)).
Proof.
  destruct (evict_oldest_first (run0 filled) "wf" 1 (wf_ep filled)) as (ep' & ev & kept & H1 & H2 & _).
  - apply inv_run0.
  - by apply wf_ep_lookup; vm_compute.
  - by vm_compute.
  - exists ep', ev, kept. exact (conj H1 H2).
Defined.

Lemma endpoint_limit_witness :
  limit_inv (exec_op (run0 [ORegister "wf" limited]) (OSet "wf" "a" (rows 500000) 0 1 1)).
Proof.
  apply (endpoint_limit (run0 [ORegister "wf" limited]) (OSet "wf" "a" (rows 500000) 0 1 1)).
  - apply inv_run0.
  - apply map_Forall_insert_2; [|by apply map_Forall_empty]. split; [by vm_compute|]. by intros _.
  - intros ep Hep _. vm_compute in Hep. injection Hep as <-. by vm_compute.
Defined.

Lemma Get_sound_witness : exists before o after, filled = before ++ o :: after /\
  writes o (fullKey "wf" "b") (rows 500000) /\
  Forall (fun o' => ~ forgets o' (fullKey "wf" "b")) after.
Proof.
  apply (Get_sound cfg c0 filled "wf" "b" (rows 500000)); [apply c0_new|by vm_compute].
Defined.

Lemma Clear_spec_witness :
  exists c' ep', Clear (Some (run0 filled)) "wf" = Some c' /\ c_endpoints c' !! "wf" = Some ep' /\
    ep_keys ep' = ∅.
Proof.
  destruct (Clear_spec (run0 filled) "wf" (inv_run0 filled)) as [_ Hc].
  destruct (Hc (wf_ep filled)) as (c' & ep' & H1 & H2 & H3 & _); [by apply wf_ep_lookup; vm_compute|]. exists c', ep'. exact (conj H1 (conj H2 H3)).
Defined.

Lemma GetTTLRemaining_bounds_witness :
  GetTTLRemaining (Some (run0 filled)) "wf" "b" 7 = Z.max 0 (300000000000 - (7 - 2)).
Proof.
  apply (GetTTLRemaining_bounds (run0 filled) "wf" "b" 7 (wf_ep filled)
    {| em_sizeBytes := 500000; em_cachedAt := 2; em_ttl := 300000000000 |});
    first [by apply wf_ep_lookup; vm_compute | split; by vm_compute | by vm_compute].
Defined.

Lemma fullKey_injective_witness : fullKey "orders" "1" = fullKey "orders" "1" <-> "orders" = "orders" /\ "1" = "1".
Proof. apply (fullKey_injective "orders" "orders" "1" "1"); reflexivity. Defined.

(** two concurrent writers can exceed the limit.  Both run the limit test
    before either records its entry: each entry fits, each test passes, and the
    endpoint ends above its [max_size_mb], although the test is made under the
    lock. *)
Theorem concurrent_sets_exceed_limit :
  exists ep, c_endpoints (run0 [ORegister "wf" limited;
      OMakeRoom "wf" (rows 600000); OMakeRoom "wf" (rows 600000);
      OCommit "wf" "a" (rows 600000) 0 1 1; OCommit "wf" "b" (rows 600000) 0 2 2]) !! "wf" = Some ep /\
    calculateSize (rows 600000) <= ep_maxCost ep < ep_sizeBytes ep.
Proof. eexists. split; [reflexivity|]. split; by vm_compute. Qed.

(** an entry larger than the limit of its endpoint is stored all the same:
    [Set] evicts everything else, reports success and leaves the endpoint above
    its [max_size_mb]. *)
Theorem oversized_entry_stored :
  let c := run0 [ORegister "wf" limited; OSet "wf" "a" (rows 5) 0 1 1] in
  exists ep, (Set_ c "wf" "big" (rows 2000000) 0 2 2).1 = true /\
    c_endpoints (Set_ c "wf" "big" (rows 2000000) 0 2 2).2 !! "wf" = Some ep /\
    (map_to_list (ep_keys ep)).*1 = ["big"] /\ ep_maxCost ep < ep_sizeBytes ep.
Proof. eexists. split_and!; reflexivity. Qed.

(** store keys of different endpoints can collide: an entry of the endpoint
    "a" with key "b:c" answers a [Get] of the endpoint "a:b" with key "c". *)
Theorem endpoints_share_keys :
  (Get (Some (run0 [OSet "a" "b:c" (rows 7) 0 1 1])) "a:b" "c").1 = Some (rows 7).
Proof. reflexivity. Qed.
End Sample.
