(* ===== verification/RateLimit.v ===== *)
(** * internal/ratelimit: token buckets per pool and key

    A [Limiter] holds the configured pools, the pools made on demand for inline
    limits, and counters.  The token bucket itself (golang.org/x/time/rate) and
    the template engine that evaluates bucket keys are parameters with what the
    code relies on; everything [ratelimit.go] does is modelled.  [time.Now()] is
    read several times in one call: the readings are a stream [clk]. *)
From S2P Require Import Prelude GoStrings.

(** ** Parameters *)

(** rate.Limiter: [Reserve] at an instant makes a reservation; [Delay] is how long, as of
    an instant, it must wait (0: act now); [Cancel] gives its tokens back. *)
Class TokenBucket := {
  bucket_state : Type;
  reservation : Type;
  NewLimiter : Z -> Z -> bucket_state;
  Reserve : bucket_state -> Z -> reservation * bucket_state;
  Delay : reservation -> Z -> Z;
  Cancel : bucket_state -> reservation -> Z -> bucket_state;
  Delay_range : forall r now, 0 <= Delay r now < two63;
}.

(** The template engine as the limiter uses it. *)
Class KeyEngine (Ctx : Type) := {
  engine_Validate : string -> option error;
  ExecuteInline : string -> Ctx -> result string;
}.

(** ** Configuration *)

Record RateLimitPoolConfig := {
  pc_Name : string; pc_RequestsPerSecond : Z; pc_Burst : Z; pc_Key : string;
}.

Record RateLimitRefConfig := {
  rl_Pool : string; rl_RequestsPerSecond : Z; rl_Burst : Z; rl_Key : string;
}.

Definition IsPoolReference (r : RateLimitRefConfig) : bool := bool_decide (rl_Pool r <> "").
Definition IsInline (r : RateLimitRefConfig) : bool :=
  bool_decide (rl_RequestsPerSecond r > 0) && bool_decide (rl_Burst r > 0).

Definition client_ip_key : string := "{{.trigger.client_ip}}".

(** The key template of an inline limit, with its default. *)
Definition inline_key (r : RateLimitRefConfig) : string :=
  if decide (rl_Key r = "") then client_ip_key else rl_Key r.

(** [fmt.Sprintf("%d:%d:%s", ...)] *)
Definition inlinePoolKey (limit : RateLimitRefConfig) : string :=
  pretty (rl_RequestsPerSecond limit) +:+ ":" +:+ pretty (rl_Burst limit) +:+ ":" +:+ inline_key limit.

Record PoolMetrics := { pm_Allowed : Z; pm_Denied : Z; pm_ActiveBuckets : Z }.
Definition no_metrics : PoolMetrics := {| pm_Allowed := 0; pm_Denied := 0; pm_ActiveBuckets := 0 |}.

Definition Second : Z := 1000000000.
Definition Minute : Z := 60 * Second.

(** [time.Time{}]: 1 January of year 1, in nanoseconds since 1970. *)
Definition zero_time : Z := -62135596800 * Second.

(** [t.Unix()] *)
Definition Unix (t : Z) : Z := t / Second.

(** [d.Truncate(time.Second)] for a non-negative duration. *)
Definition truncate_second (d : Z) : Z := d - d `mod` Second.

Section Limiter.
Context {Ctx : Type} `{UnicodeTables, TokenBucket, KeyEngine Ctx}.

Record bucket := { b_limiter : bucket_state; b_lastUsed : Z }.

Record Pool := {
  p_name : string; p_requestsPerSecond : Z; p_burst : Z; p_keyTemplate : string;
  p_buckets : gmap string bucket; p_lastClean : Z; p_cleanEvery : Z;
}.

Record Limiter := {
  l_pools : gmap string Pool;
  l_inlinePools : gmap string Pool;
  l_TotalAllowed : Z; l_TotalDenied : Z;
  l_metrics : gmap string PoolMetrics;
}.

Definition new_pool (name : string) (rps burst : Z) (key : string) : Pool :=
  {| p_name := name; p_requestsPerSecond := rps; p_burst := burst; p_keyTemplate := key;
     p_buckets := ∅; p_lastClean := zero_time; p_cleanEvery := 5 * Minute |}.

Definition set_buckets (p : Pool) (m : gmap string bucket) (t : Z) : Pool :=
  {| p_name := p_name p; p_requestsPerSecond := p_requestsPerSecond p; p_burst := p_burst p;
     p_keyTemplate := p_keyTemplate p; p_buckets := m; p_lastClean := t;
     p_cleanEvery := p_cleanEvery p |}.

Definition set_pools (l : Limiter) (m : gmap string Pool) : Limiter :=
  {| l_pools := m; l_inlinePools := l_inlinePools l; l_TotalAllowed := l_TotalAllowed l;
     l_TotalDenied := l_TotalDenied l; l_metrics := l_metrics l |}.

Definition set_inline (l : Limiter) (m : gmap string Pool) : Limiter :=
  {| l_pools := l_pools l; l_inlinePools := m; l_TotalAllowed := l_TotalAllowed l;
     l_TotalDenied := l_TotalDenied l; l_metrics := l_metrics l |}.

(** ** Construction *)

Definition quoted (name : string) : string := "pool " +:+ Quote name.

(** One iteration of the loop of [New]. *)
Definition add_pool (l : Limiter) (cfg : RateLimitPoolConfig) : result Limiter :=
  if decide (pc_Name cfg = "") then Err (Errorf "rate limit pool missing name")
  else if decide (is_Some (l_pools l !! pc_Name cfg)) then
    Err (Errorf ("duplicate rate limit pool name: " +:+ pc_Name cfg))
  else if decide (pc_RequestsPerSecond cfg <= 0) then
    Err (Errorf (quoted (pc_Name cfg) +:+ ": requests_per_second must be positive"))
  else if decide (pc_Burst cfg <= 0) then
    Err (Errorf (quoted (pc_Name cfg) +:+ ": burst must be positive"))
  else if decide (pc_Key cfg = "") then
    Err (Errorf (quoted (pc_Name cfg) +:+ ": key template required"))
  else match engine_Validate (pc_Key cfg) with
  | Some err => Err (Wrapf (quoted (pc_Name cfg) +:+ ": invalid key template: ") err "")
  | None =>
    Ok {| l_pools := <[pc_Name cfg := new_pool (pc_Name cfg) (pc_RequestsPerSecond cfg)
                                        (pc_Burst cfg) (pc_Key cfg)]> (l_pools l);
          l_inlinePools := l_inlinePools l; l_TotalAllowed := l_TotalAllowed l;
          l_TotalDenied := l_TotalDenied l;
          l_metrics := <[pc_Name cfg := no_metrics]> (l_metrics l) |}
  end.

Definition empty_limiter : Limiter :=
  {| l_pools := ∅; l_inlinePools := ∅; l_TotalAllowed := 0; l_TotalDenied := 0; l_metrics := ∅ |}.

Fixpoint add_pools (l : Limiter) (cfgs : list RateLimitPoolConfig) : result Limiter :=
  match cfgs with
  | [] => Ok l
  | cfg :: cfgs' => try l' := add_pool l cfg in add_pools l' cfgs'
  end.

Definition New (cfgs : list RateLimitPoolConfig) : result Limiter := add_pools empty_limiter cfgs.

(** ** Buckets *)

(** [getOrCreateBucket]; a new bucket is stamped with the current second. *)
Definition getOrCreateBucket (p : Pool) (key : string) (now : Z) : bucket * Pool :=
  match p_buckets p !! key with
  | Some b => (b, p)
  | None =>
    let b := {| b_limiter := NewLimiter (p_requestsPerSecond p) (p_burst p); b_lastUsed := Unix now |} in
    (b, set_buckets p (<[key := b]> (p_buckets p)) (p_lastClean p))
  end.

Definition stale_threshold (now : Z) : Z := Unix (now - 10 * Minute).

(** [maybeCleanup]: the same test before and after the lock is taken. *)
Definition maybeCleanup (p : Pool) (now : Z) : Pool :=
  if decide (time_Sub now (p_lastClean p) > p_cleanEvery p) then
    set_buckets p (filter (fun kb => ~ (b_lastUsed kb.2 < stale_threshold now)) (p_buckets p)) now
  else p.

(** [b.lastUsed.Store], [Reserve], [Delay] and [Cancel] on one bucket: whether the
    request is allowed, the value of Retry-After, and the bucket afterwards. *)
Definition use_bucket (b : bucket) (used reserved asked cancelled : Z) : bool * Z * bucket :=
  let '(reservation, st) := Reserve (b_limiter b) reserved in
  let delay := Delay reservation asked in
  if decide (delay = 0) then (true, 0, {| b_limiter := st; b_lastUsed := Unix used |})
  else (false, i64 (truncate_second delay + Second),
        {| b_limiter := Cancel st reservation cancelled; b_lastUsed := Unix used |}).

(** The metrics update. *)
Definition count (l : Limiter) (pool : string) (allowed : bool) : Limiter :=
  let bump m := if allowed
    then {| pm_Allowed := i64 (pm_Allowed m + 1); pm_Denied := pm_Denied m; pm_ActiveBuckets := pm_ActiveBuckets m |}
    else {| pm_Allowed := pm_Allowed m; pm_Denied := i64 (pm_Denied m + 1); pm_ActiveBuckets := pm_ActiveBuckets m |} in
  {| l_pools := l_pools l; l_inlinePools := l_inlinePools l;
     l_TotalAllowed := if allowed then i64 (l_TotalAllowed l + 1) else l_TotalAllowed l;
     l_TotalDenied := if allowed then l_TotalDenied l else i64 (l_TotalDenied l + 1);
     l_metrics := alter bump pool (l_metrics l) |}.

(** Where a pool lives: the named ones or the inline ones, with its map key. *)
Inductive pool_ref := Named (name : string) | Inline (key : string).

#[global] Instance pool_ref_eq_dec : EqDecision pool_ref.
Proof. solve_decision. Defined.

Definition lookup_pool (l : Limiter) (r : pool_ref) : option Pool :=
  match r with
  | Named n => l_pools l !! n
  | Inline k => l_inlinePools l !! k
  end.

Definition store_pool (l : Limiter) (r : pool_ref) (p : Pool) : Limiter :=
  match r with
  | Named n => set_pools l (<[n := p]> (l_pools l))
  | Inline k => set_inline l (<[k := p]> (l_inlinePools l))
  end.

Definition inline_name (poolKey : string) : string := "_inline:" +:+ poolKey.

(** The inline pool of a limit, made and registered on first use. *)
Definition ensure_inline (l : Limiter) (limit : RateLimitRefConfig) : Pool * Limiter :=
  let poolKey := inlinePoolKey limit in
  match l_inlinePools l !! poolKey with
  | Some p => (p, l)
  | None =>
    let p := new_pool (inline_name poolKey) (rl_RequestsPerSecond limit) (rl_Burst limit)
               (inline_key limit) in
    (p, {| l_pools := l_pools l; l_inlinePools := <[poolKey := p]> (l_inlinePools l);
           l_TotalAllowed := l_TotalAllowed l; l_TotalDenied := l_TotalDenied l;
           l_metrics := <[inline_name poolKey := no_metrics]> (l_metrics l) |})
  end.

(** The part of [allowOne] after the pool is found. *)
Definition allow_in (l : Limiter) (r : pool_ref) (pool : Pool) (keyTemplate : string) (ctx : Ctx)
    (clk : nat -> Z) : result (bool * Z * string) * Limiter :=
  match ExecuteInline keyTemplate ctx with
  | Err e => (Err (Wrapf "failed to evaluate rate limit key: " e ""), l)
  | Ok key =>
    let '(b, pool) := getOrCreateBucket pool key (clk 0%nat) in
    let '(allowed, retryAfter, b) := use_bucket b (clk 1%nat) (clk 2%nat) (clk 3%nat) (clk 4%nat) in
    let pool := set_buckets pool (<[key := b]> (p_buckets pool)) (p_lastClean pool) in
    let l := count l (p_name pool) allowed in
    (Ok (allowed, retryAfter, p_name pool), store_pool l r (maybeCleanup pool (clk 5%nat)))
  end.

Definition allowOne (l : Limiter) (limit : RateLimitRefConfig) (ctx : Ctx) (clk : nat -> Z)
    : result (bool * Z * string) * Limiter :=
  if IsPoolReference limit then
    match l_pools l !! rl_Pool limit with
    | None => (Err (Errorf ("rate limit " +:+ quoted (rl_Pool limit) +:+ " not found")), l)
    | Some pool => allow_in l (Named (rl_Pool limit)) pool (p_keyTemplate pool) ctx clk
    end
  else if IsInline limit then
    let '(pool, l) := ensure_inline l limit in
    allow_in l (Inline (inlinePoolKey limit)) pool (inline_key limit) ctx clk
  else (Ok (true, 0, ""), l).

(** [Allow]: every limit must pass; the first that does not decides. *)
Fixpoint Allow (l : Limiter) (limits : list RateLimitRefConfig) (ctx : Ctx) (clk : nat -> nat -> Z)
    : result (bool * Z * string) * Limiter :=
  match limits with
  | [] => (Ok (true, 0, ""), l)
  | limit :: limits' =>
    let '(r, l) := allowOne l limit ctx (clk 0%nat) in
    match r with
    | Err e => (Err e, l)
    | Ok (allowed, retryAfter, poolName) =>
      if negb allowed then (Ok (false, retryAfter, poolName), l)
      else Allow l limits' ctx (fun i => clk (S i))
    end
  end.

(** ** Administration *)

Definition pool_Reset (p : Pool) (now : Z) : nat * Pool := (size (p_buckets p), set_buckets p ∅ now).

Definition pool_ResetKey (p : Pool) (key : string) : bool * Pool :=
  if decide (is_Some (p_buckets p !! key))
  then (true, set_buckets p (delete key (p_buckets p)) (p_lastClean p)) else (false, p).

Definition ResetAll (l : Limiter) (now : Z) : nat * Limiter :=
  let clear := fmap (fun p => (pool_Reset p now).2) in
  let total (m : gmap string Pool) : nat := map_fold (fun _ p t => ((pool_Reset p now).1 + t)%nat) 0%nat m in
  ((total (l_pools l) + total (l_inlinePools l))%nat,
   set_inline (set_pools l (clear (l_pools l))) (clear (l_inlinePools l))).

(** Both reset operations look a name up among the named pools, then among the
    keys of the inline ones. *)
Definition find_pool (l : Limiter) (name : string) : option (pool_ref * Pool) :=
  match l_pools l !! name with
  | Some p => Some (Named name, p)
  | None => match l_inlinePools l !! name with
            | Some p => Some (Inline name, p)
            | None => None
            end
  end.

Definition ResetPool (l : Limiter) (name : string) (now : Z) : result nat * Limiter :=
  match find_pool l name with
  | None => (Err (Errorf (quoted name +:+ " not found")), l)
  | Some (r, p) => let '(n, p') := pool_Reset p now in (Ok n, store_pool l r p')
  end.

Definition ResetKey (l : Limiter) (poolName key : string) : result bool * Limiter :=
  match find_pool l poolName with
  | None => (Err (Errorf (quoted poolName +:+ " not found")), l)
  | Some (r, p) => let '(b, p') := pool_ResetKey p key in (Ok b, store_pool l r p')
  end.

Definition GetPool (l : Limiter) (name : string) : option Pool := l_pools l !! name.

Definition PoolNames (l : Limiter) : list string := (map_to_list (l_pools l)).*1.

Definition snapshot_entry (p : Pool) (m : PoolMetrics) : PoolMetrics :=
  {| pm_Allowed := pm_Allowed m; pm_Denied := pm_Denied m;
     pm_ActiveBuckets := Z.of_nat (size (p_buckets p)) |}.

(** [Snapshot]; [None] is the panic on a named pool without metrics. *)
Definition Snapshot (l : Limiter) : option (Z * Z * gmap string PoolMetrics) :=
  if decide (map_Forall (fun name _ => is_Some (l_metrics l !! name)) (l_pools l)) then
    let named := map_imap (fun name p => snapshot_entry p <$> (l_metrics l !! name)) (l_pools l) in
    let all := map_fold (fun _ p acc =>
                 match l_metrics l !! p_name p with
                 | None => acc
                 | Some m => <[p_name p := snapshot_entry p m]> acc
                 end) named (l_inlinePools l) in
    Some (l_TotalAllowed l, l_TotalDenied l, all)
  else None.

(** ** Construction: what is accepted *)

Definition pool_ok (cfg : RateLimitPoolConfig) : Prop :=
  pc_Name cfg <> "" /\ 0 < pc_RequestsPerSecond cfg /\ 0 < pc_Burst cfg /\ pc_Key cfg <> "" /\
  engine_Validate (pc_Key cfg) = None.

Definition pool_of (cfg : RateLimitPoolConfig) : Pool :=
  new_pool (pc_Name cfg) (pc_RequestsPerSecond cfg) (pc_Burst cfg) (pc_Key cfg).

Definition with_pool (l : Limiter) (cfg : RateLimitPoolConfig) : Limiter :=
  {| l_pools := <[pc_Name cfg := pool_of cfg]> (l_pools l); l_inlinePools := l_inlinePools l;
     l_TotalAllowed := l_TotalAllowed l; l_TotalDenied := l_TotalDenied l;
     l_metrics := <[pc_Name cfg := no_metrics]> (l_metrics l) |}.

Lemma add_pool_Ok l cfg l' : add_pool l cfg = Ok l' <->
  pool_ok cfg /\ l_pools l !! pc_Name cfg = None /\ l' = with_pool l cfg.
Proof.
  unfold add_pool, pool_ok. split.
  - repeat (case_decide; [done|]). destruct (engine_Validate _); [done|]. intros <-%Ok_inj.
    split_and!; try done; try lia. by apply eq_None_not_Some.
  - intros ((? & ? & ? & ? & E) & Hn & ->). rewrite decide_False by done.
    rewrite decide_False by (rewrite Hn; by intros []). rewrite !decide_False by (done || lia).
    by rewrite E.
Qed.

Lemma add_pools_Ok l cfgs l' : add_pools l cfgs = Ok l' <->
  Forall pool_ok cfgs /\ NoDup (pc_Name <$> cfgs) /\
  Forall (fun cfg => l_pools l !! pc_Name cfg = None) cfgs /\ l' = foldl with_pool l cfgs.
Proof.
  revert l. induction cfgs as [|cfg cfgs IH]; intros l; simpl.
  { split; [intros <-%Ok_inj; split_and!; constructor|]. by intros (_ & _ & _ & ->). }
  rewrite !Forall_cons, NoDup_cons. split.
  - destruct (add_pool l cfg) as [l1|] eqn:E; simpl; [|done]. apply add_pool_Ok in E as (Hok & Hn & ->).
    intros (Hall & Hnd & Hnew & ->)%IH. split_and!; try done.
    + intros (cfg' & Ec & Hin)%list_elem_of_fmap. rewrite Forall_forall in Hnew.
      specialize (Hnew _ Hin). simpl in Hnew. by rewrite Ec, lookup_insert_eq in Hnew.
    + eapply Forall_impl; [exact Hnew|]. simpl. by intros cfg' [? _]%lookup_insert_None.
  - intros ([Hok Hall] & [Hni Hnd] & [Hn Hnew] & ->).
    rewrite (proj2 (add_pool_Ok l cfg (with_pool l cfg))) by done. simpl. apply IH.
    split_and!; try done. rewrite Forall_forall in *. intros cfg' Hin. simpl.
    apply lookup_insert_None. split; [by apply Hnew|]. intros Ec. apply Hni. rewrite Ec.
    by apply list_elem_of_fmap_2.
Qed.

Lemma with_pools_lookup l cfgs cfg : NoDup (pc_Name <$> cfgs) -> cfg ∈ cfgs ->
  l_pools (foldl with_pool l cfgs) !! pc_Name cfg = Some (pool_of cfg).
Proof.
  induction cfgs as [|x cfgs IH] using rev_ind; [by intros _ ?%not_elem_of_nil|].
  rewrite fmap_app, NoDup_app, foldl_app. intros (Hnd & Hdis & _) Hin. simpl.
  rewrite lookup_insert. case_decide as E.
  - apply elem_of_app in Hin as [Hin|Hin]; [|by apply list_elem_of_singleton in Hin as ->].
    exfalso. apply (Hdis (pc_Name cfg)); [by apply list_elem_of_fmap_2|]. rewrite <- E. by left.
  - apply elem_of_app in Hin as [Hin|Hin]; [by apply IH|].
    by apply list_elem_of_singleton in Hin as ->.
Qed.

(** [New] accepts exactly the configurations whose pools all have a name, a
    positive rate and burst and a key template that validates, with no name used
    twice; each accepted pool starts without buckets, under its own name and with
    its own settings. *)
Theorem New_accepts (cfgs : list RateLimitPoolConfig) :
  (is_ok (New cfgs) = true <-> Forall pool_ok cfgs /\ NoDup (pc_Name <$> cfgs)) /\
  (forall l, New cfgs = Ok l -> forall cfg, cfg ∈ cfgs ->
     l_pools l !! pc_Name cfg = Some (pool_of cfg)).
Proof.
  unfold New. split.
  - split.
    + destruct (add_pools _ cfgs) as [l|] eqn:E; [|done]. apply add_pools_Ok in E. tauto.
    + intros [Hok Hnd]. rewrite (proj2 (add_pools_Ok empty_limiter cfgs (foldl with_pool empty_limiter cfgs))); [done|].
      split_and!; try done. by apply Forall_true.
  - intros l (_ & Hnd & _ & ->)%add_pools_Ok cfg. by apply with_pools_lookup.
Qed.

(** ** One decision *)

Definition default_bucket (p : Pool) (key : string) : bucket_state :=
  match p_buckets p !! key with
  | Some b => b_limiter b
  | None => NewLimiter (p_requestsPerSecond p) (p_burst p)
  end.

(** Which bucket a limit is about: the pool and the evaluated key. *)
Definition target (l : Limiter) (limit : RateLimitRefConfig) (ctx : Ctx)
    : option (pool_ref * Pool * string) :=
  let eval r p tm := match ExecuteInline tm ctx with Ok k => Some (r, p, k) | Err _ => None end in
  if IsPoolReference limit then
    match l_pools l !! rl_Pool limit with
    | Some p => eval (Named (rl_Pool limit)) p (p_keyTemplate p)
    | None => None
    end
  else if IsInline limit then
    eval (Inline (inlinePoolKey limit)) (ensure_inline l limit).1 (inline_key limit)
  else None.

Definition bucket_of (l : Limiter) (r : pool_ref) (key : string) : option bucket :=
  p ← lookup_pool l r; p_buckets p !! key.

Lemma lookup_store_pool l r p r' :
  lookup_pool (store_pool l r p) r' = if decide (r' = r) then Some p else lookup_pool l r'.
Proof.
  destruct (decide (r' = r)) as [->|Hne]; [destruct r; apply lookup_insert_eq|].
  destruct r, r'; simpl; try done; (rewrite lookup_insert_ne; [done|congruence]).
Qed.

Lemma ensure_inline_lookup l limit : let '(p, l') := ensure_inline l limit in
  lookup_pool l' (Inline (inlinePoolKey limit)) = Some p /\
  (forall r, r <> Inline (inlinePoolKey limit) -> lookup_pool l' r = lookup_pool l r) /\
  (forall r key b, bucket_of l r key = Some b -> bucket_of l' r key = Some b).
Proof.
  unfold ensure_inline. destruct (l_inlinePools l !! inlinePoolKey limit) as [p|] eqn:E; simpl; [done|].
  split_and!.
  - apply lookup_insert_eq.
  - intros [n|k] Hr; simpl; [done|]. rewrite lookup_insert_ne; [done|congruence].
  - intros [n|k] key b; unfold bucket_of; simpl; [done|].
    destruct (decide (k = inlinePoolKey limit)) as [->|]; [by rewrite E|].
    by rewrite lookup_insert_ne.
Qed.

(** The limiter state and the Unix second a bucket is left with. *)
Definition after_use (b : bucket_state) (clk : nat -> Z) : bucket :=
  let '(reservation, st) := Reserve b (clk 2%nat) in
  {| b_limiter := if decide (Delay reservation (clk 3%nat) = 0) then st else Cancel st reservation (clk 4%nat);
     b_lastUsed := Unix (clk 1%nat) |}.

Definition decision (b : bucket_state) (clk : nat -> Z) : bool * Z :=
  let delay := Delay (Reserve b (clk 2%nat)).1 (clk 3%nat) in
  if decide (delay = 0) then (true, 0) else (false, i64 (truncate_second delay + Second)).

Lemma allow_in_Ok l r p tm ctx clk key : ExecuteInline tm ctx = Ok key ->
  allow_in l r p tm ctx clk =
  (let '(allowed, retry) := decision (default_bucket p key) clk in
   (Ok (allowed, retry, p_name p),
    store_pool (count l (p_name p) allowed) r (maybeCleanup
      (set_buckets p (<[key := after_use (default_bucket p key) clk]> (p_buckets p)) (p_lastClean p))
      (clk 5%nat)))).
Proof.
  intros E. unfold allow_in. rewrite E. unfold getOrCreateBucket, decision, after_use, default_bucket.
  destruct (p_buckets p !! key) as [b|] eqn:Eb; unfold use_bucket; simpl;
    destruct (Reserve _ _) as [rsv st]; simpl; destruct (decide (Delay rsv (clk 3%nat) = 0)); simpl; try done;
    by rewrite insert_insert_eq.
Qed.

Lemma maybeCleanup_lookup p now key :
  p_buckets (maybeCleanup p now) !! key = p_buckets p !! key \/
  (p_buckets (maybeCleanup p now) !! key = None /\
   exists b, p_buckets p !! key = Some b /\ b_lastUsed b < stale_threshold now).
Proof.
  unfold maybeCleanup. case_decide; [|by left]. simpl.
  rewrite map_lookup_filter. destruct (p_buckets p !! key) as [b|]; simpl; [|by left].
  case_guard as Hg; [by left|]. right. split; [done|]. exists b.
  split; [done|]. simpl in Hg. lia.
Qed.

(** C36: a request consults and charges exactly one bucket, the one of its pool and
    evaluated key (a new full one if there is none): it is allowed iff that bucket
    reserves without delay, a refused reservation is cancelled, and Retry-After is
    a whole number of seconds, longer than the delay by at most one. *)
Theorem allowOne_decides l limit ctx clk r p key
    (Ht : target l limit ctx = Some (r, p, key))
    (Hclk : clk 5%nat <= clk 1%nat + 10 * Minute)
    (Hdelay : Delay (Reserve (default_bucket p key) (clk 2%nat)).1 (clk 3%nat) < two63 - Second) :
  let delay := Delay (Reserve (default_bucket p key) (clk 2%nat)).1 (clk 3%nat) in
  exists retry l', allowOne l limit ctx clk = (Ok (bool_decide (delay = 0), retry, p_name p), l') /\
    bucket_of l' r key = Some (after_use (default_bucket p key) clk) /\
    (delay = 0 -> retry = 0) /\
    (delay <> 0 -> delay < retry <= delay + Second /\ retry `mod` Second = 0).
Proof.
  intros delay.
  assert (exists l0 tm, allowOne l limit ctx clk = allow_in l0 r p tm ctx clk /\
            ExecuteInline tm ctx = Ok key) as (l0 & tm & -> & Hk).
  { unfold target in Ht. unfold allowOne. destruct (IsPoolReference limit).
    - destruct (l_pools l !! rl_Pool limit) as [p'|]; [|done].
      destruct (ExecuteInline (p_keyTemplate p') ctx) eqn:E; [|done]. simplify_eq. eauto.
    - destruct (IsInline limit); [|done]. destruct (ensure_inline l limit) as [p' l']. simpl in Ht.
      destruct (ExecuteInline (inline_key limit) ctx) eqn:E; [|done]. simplify_eq. eauto. }
  rewrite (allow_in_Ok _ _ _ _ _ _ _ Hk). unfold decision. fold delay.
  set (p' := set_buckets p _ _).
  assert (bucket_of (store_pool (count l0 (p_name p) (bool_decide (delay = 0))) r
    (maybeCleanup p' (clk 5%nat))) r key = Some (after_use (default_bucket p key) clk)) as Hb.
  { unfold bucket_of. rewrite lookup_store_pool, decide_True by done. simpl.
    destruct (maybeCleanup_lookup p' (clk 5%nat) key) as [-> | (_ & b & Hb & Hst)];
      unfold p' in *; simpl in *; [by rewrite lookup_insert_eq|].
    rewrite lookup_insert_eq in Hb. injection Hb as <-. exfalso.
    unfold after_use in Hst. destruct (Reserve _ _). simpl in Hst. unfold stale_threshold, Unix in Hst.
    assert ((clk 5%nat - 10 * Minute) / Second <= clk 1%nat / Second)
      by (apply Z.div_le_mono; unfold Second; lia). lia. }
  pose proof (Delay_range (Reserve (default_bucket p key) (clk 2%nat)).1 (clk 3%nat)) as Hd. fold delay in Hd, Hdelay.
  destruct (decide (delay = 0)) as [E0|E0].
  - rewrite bool_decide_eq_true_2 in * by done. eexists _, _. split_and!; [done|exact Hb|done|done].
  - rewrite bool_decide_eq_false_2 in * by done. eexists _, _. split_and!; [done|exact Hb|done|].
    intros _. unfold truncate_second. pose proof (Z.mod_pos_bound delay Second eq_refl).
    rewrite i64_small by (unfold Second, two63 in *; lia). split; [lia|].
    replace (delay - delay `mod` Second + Second) with ((delay / Second + 1) * Second)
      by (rewrite (Z.mod_eq delay Second) by done; lia).
    by rewrite Z.mod_mul.
Qed.

(** requests of different clients do not share tokens.  Any bucket other
    than the one a request is about is left as it was; the only other effect on
    buckets is that the cleanup of the same pool may drop one that was not used
    for ten minutes. *)
Theorem allowOne_isolates l limit ctx clk r key b
    (Hb : bucket_of l r key = Some b)
    (Hother : (fun t => t.1.1) <$> target l limit ctx <> Some r \/
              (fun t => t.2) <$> target l limit ctx <> Some key) :
  bucket_of (allowOne l limit ctx clk).2 r key = Some b \/
  (bucket_of (allowOne l limit ctx clk).2 r key = None /\
   (fun t => t.1.1) <$> target l limit ctx = Some r /\ b_lastUsed b < stale_threshold (clk 5%nat)).
Proof.
  assert (forall l0 r0 p0 tm, lookup_pool l0 r0 = Some p0 -> bucket_of l0 r key = Some b ->
    target l limit ctx = match ExecuteInline tm ctx with Ok k => Some (r0, p0, k) | Err _ => None end ->
    bucket_of (allow_in l0 r0 p0 tm ctx clk).2 r key = Some b \/
    (bucket_of (allow_in l0 r0 p0 tm ctx clk).2 r key = None /\
     (fun t => t.1.1) <$> target l limit ctx = Some r /\ b_lastUsed b < stale_threshold (clk 5%nat))) as Hin.
  { intros l0 r0 p0 tm Hp Hb0 Ht. destruct (ExecuteInline tm ctx) as [k|] eqn:Ek.
    2: { left. unfold allow_in. by rewrite Ek. }
    rewrite (allow_in_Ok _ _ _ _ _ _ _ Ek). destruct (decision _ _) as [al re]. simpl.
    unfold bucket_of. rewrite lookup_store_pool. rewrite Ht in *. simpl in *.
    destruct (decide (r = r0)) as [->|Hr].
    - assert (k <> key) as Hk by (destruct Hother; congruence).
      unfold bucket_of in Hb0. rewrite Hp in Hb0. simpl in *.
      match goal with |- context [maybeCleanup ?p ?t] =>
        destruct (maybeCleanup_lookup p t key) as [-> | (-> & b' & Hb' & Hst)] end; simpl in *.
      + left. by rewrite lookup_insert_ne.
      + rewrite lookup_insert_ne in Hb' by done. right. split_and!; try done. congruence.
    - left. by destruct r, r0. }
  unfold allowOne. unfold target in *. destruct (IsPoolReference limit).
  - destruct (l_pools l !! rl_Pool limit) as [p|] eqn:Ep; [|by left]. by apply Hin.
  - destruct (IsInline limit); [|by left]. pose proof (ensure_inline_lookup l limit) as He.
    destruct (ensure_inline l limit) as [p l']. destruct He as (Hp & _ & Hk). apply Hin; auto.
Qed.

(** ** Counters *)

Definition reserved_name (n : string) : bool := HasPrefix n "_inline:".

Record lim_inv (l : Limiter) : Prop := {
  inv_named : forall n p, l_pools l !! n = Some p -> p_name p = n /\ reserved_name n = false /\
                is_Some (l_metrics l !! n);
  inv_inline : forall k p, l_inlinePools l !! k = Some p -> p_name p = inline_name k /\
                 is_Some (l_metrics l !! inline_name k);
  inv_metrics : forall n, is_Some (l_metrics l !! n) -> is_Some (l_pools l !! n) \/
                  exists k, n = inline_name k /\ is_Some (l_inlinePools l !! k);
  inv_allowed : l_TotalAllowed l = i64 (map_sum pm_Allowed (l_metrics l));
  inv_denied : l_TotalDenied l = i64 (map_sum pm_Denied (l_metrics l));
}.

Lemma inline_name_reserved k : reserved_name (inline_name k) = true.
Proof. apply HasPrefix_app. Qed.

Lemma inline_name_inj k k' : inline_name k = inline_name k' -> k = k'.
Proof. apply app_str_inj_l. Qed.

(** Replacing a pool by one of the same name. *)
Lemma store_pool_inv l r p p' : lim_inv l -> lookup_pool l r = Some p -> p_name p' = p_name p ->
  lim_inv (store_pool l r p').
Proof.
  intros [Hn Hi Hm Ha Hd] Hp Hname. destruct r as [n|k]; simpl in *; constructor; simpl; auto.
  - intros n' q. rewrite lookup_insert. case_decide as E; [|apply Hn]. intros [= <-]. subst n'.
    apply Hn in Hp as (? & ? & ?). by rewrite Hname.
  - intros n' Hs. destruct (Hm n' Hs) as [Hs'|Hs']; [|by right]. left. rewrite lookup_insert.
    by case_decide.
  - intros k' q. rewrite lookup_insert. case_decide as E; [|apply Hi]. intros [= <-]. subst k'.
    apply Hi in Hp as [? ?]. by rewrite Hname.
  - intros n' Hs. destruct (Hm n' Hs) as [Hs'|(k' & -> & Hs')]; [by left|]. right. exists k'.
    split; [done|]. rewrite lookup_insert. by case_decide.
Qed.

Lemma count_keeps_inv l name (allowed : bool) : lim_inv l -> is_Some (l_metrics l !! name) ->
  lim_inv (count l name allowed).
Proof.
  intros [Hn Hi Hm Ha Hd] [m Hname]. unfold count. constructor; simpl.
  - intros n p Hp. destruct (Hn _ _ Hp) as (? & ? & ?). by rewrite lookup_alter_is_Some.
  - intros k p Hp. destruct (Hi _ _ Hp) as (? & ?). by rewrite lookup_alter_is_Some.
  - intros n. rewrite lookup_alter_is_Some. apply Hm.
  - rewrite (map_sum_alter _ _ _ _ _ Hname), Ha. destruct allowed; simpl; [rewrite i64_add_l, i64_add_r|]; f_equal; lia.
  - rewrite (map_sum_alter _ _ _ _ _ Hname), Hd. destruct allowed; simpl; [|rewrite i64_add_l, i64_add_r]; f_equal; lia.
Qed.

Lemma ensure_inline_inv l limit : lim_inv l ->
  let '(p, l') := ensure_inline l limit in lim_inv l' /\ lookup_pool l' (Inline (inlinePoolKey limit)) = Some p.
Proof.
  intros Hl. unfold ensure_inline. set (k := inlinePoolKey limit).
  destruct (l_inlinePools l !! k) as [q|] eqn:E; simpl; [done|]. split; [|apply lookup_insert_eq].
  destruct Hl as [Hn Hi Hm Ha Hd].
  assert (l_metrics l !! inline_name k = None) as Hnew.
  { destruct (l_metrics l !! inline_name k) eqn:E'; [exfalso|done].
    destruct (Hm (inline_name k)) as [[q Hp]|(k' & Ek & Hk)]; [by eexists| |].
    - apply Hn in Hp as (_ & Hr & _). by rewrite inline_name_reserved in Hr.
    - apply inline_name_inj in Ek as <-. rewrite E in Hk. by destruct Hk. }
  constructor; simpl.
  - intros n p Hp. destruct (Hn _ _ Hp) as (? & ? & ?). split_and!; try done.
    rewrite lookup_insert. by case_decide.
  - intros k' p. rewrite lookup_insert. case_decide as Ek.
    + intros [= <-]. subst k'. split; [done|]. by rewrite lookup_insert_eq.
    + intros Hp. destruct (Hi _ _ Hp) as [? ?]. split; [done|]. rewrite lookup_insert. by case_decide.
  - intros n. rewrite lookup_insert. case_decide as En.
    + intros _. right. exists k. by rewrite lookup_insert_eq.
    + intros Hs. destruct (Hm n Hs) as [?|(k' & -> & Hk')]; [by left|]. right. exists k'.
      split; [done|]. rewrite lookup_insert. by case_decide.
  - rewrite map_sum_insert by done. simpl. by rewrite Ha.
  - rewrite map_sum_insert by done. simpl. by rewrite Hd.
Qed.

Lemma count_lookup l name allowed r : lookup_pool (count l name allowed) r = lookup_pool l r.
Proof. by destruct r. Qed.

Lemma pool_metrics l r p : lim_inv l -> lookup_pool l r = Some p -> is_Some (l_metrics l !! p_name p).
Proof.
  intros Hl. destruct r; simpl; intros Hp.
  - apply (inv_named _ Hl) in Hp as (-> & _ & ?). done.
  - apply (inv_inline _ Hl) in Hp as (-> & ?). done.
Qed.

Lemma maybeCleanup_name p now : p_name (maybeCleanup p now) = p_name p.
Proof. unfold maybeCleanup. by case_decide. Qed.

Lemma allow_in_inv l r p tm ctx clk : lim_inv l -> lookup_pool l r = Some p ->
  lim_inv (allow_in l r p tm ctx clk).2.
Proof.
  intros Hl Hp. destruct (ExecuteInline tm ctx) as [k|] eqn:Ek; [|unfold allow_in; by rewrite Ek].
  rewrite (allow_in_Ok _ _ _ _ _ _ _ Ek). destruct (decision _ _) as [al re]. simpl.
  eapply store_pool_inv; [|by rewrite count_lookup|by rewrite maybeCleanup_name].
  apply count_keeps_inv; [done|]. by eapply pool_metrics.
Qed.

Lemma allowOne_inv l limit ctx clk : lim_inv l -> lim_inv (allowOne l limit ctx clk).2.
Proof.
  intros Hl. unfold allowOne. destruct (IsPoolReference limit).
  - destruct (l_pools l !! rl_Pool limit) as [p|] eqn:Ep; [|done]. by apply allow_in_inv.
  - destruct (IsInline limit); [|done]. pose proof (ensure_inline_inv l limit Hl) as He.
    destruct (ensure_inline l limit) as [p l']. destruct He. by apply allow_in_inv.
Qed.

Lemma Allow_inv l limits ctx clk : lim_inv l -> lim_inv (Allow l limits ctx clk).2.
Proof.
  revert l clk. induction limits as [|limit limits IH]; intros l clk Hl; simpl; [done|].
  pose proof (allowOne_inv l limit ctx (clk 0%nat) Hl) as H'.
  destruct (allowOne l limit ctx (clk 0%nat)) as [[[[al re] pn]|e] l']; [|done].
  destruct al; simpl; [by apply IH|done].
Qed.

(** The calls other parts of the program make. *)
Inductive lim_op :=
| LAllow (limits : list RateLimitRefConfig) (ctx : Ctx) (clk : nat -> nat -> Z)
| LResetAll (now : Z)
| LResetPool (name : string) (now : Z)
| LResetKey (name key : string).

Definition exec_op (l : Limiter) (o : lim_op) : Limiter :=
  match o with
  | LAllow limits ctx clk => (Allow l limits ctx clk).2
  | LResetAll now => (ResetAll l now).2
  | LResetPool name now => (ResetPool l name now).2
  | LResetKey name key => (ResetKey l name key).2
  end.

Lemma find_pool_lookup l name r p : find_pool l name = Some (r, p) -> lookup_pool l r = Some p.
Proof. unfold find_pool. repeat case_match; intros; simplify_eq; done. Qed.

Lemma limiter_op_inv l o : lim_inv l -> lim_inv (exec_op l o).
Proof.
  intros Hl. destruct o as [limits ctx clk|now|name now|name key]; simpl.
  - by apply Allow_inv.
  - destruct Hl as [Hn Hi Hm Ha Hd]. constructor; simpl; auto.
    + intros n p. rewrite lookup_fmap. intros (q & Hq & ->)%fmap_Some. by apply Hn in Hq.
    + intros k p. rewrite lookup_fmap. intros (q & Hq & ->)%fmap_Some. by apply Hi in Hq.
    + intros n Hs. rewrite lookup_fmap, fmap_is_Some. destruct (Hm n Hs) as [?|(k & ? & ?)]; [by left|].
      right. exists k. by rewrite lookup_fmap, fmap_is_Some.
  - unfold ResetPool. destruct (find_pool l name) as [[r p]|] eqn:E; simpl; [|done].
    apply find_pool_lookup in E. by apply (store_pool_inv l r p).
  - unfold ResetKey. destruct (find_pool l name) as [[r p]|] eqn:E; simpl; [|done].
    apply find_pool_lookup in E. unfold pool_ResetKey.
    case_decide; by apply (store_pool_inv l r p).
Qed.

Lemma with_pools_inv cfgs l : Forall (fun c => reserved_name (pc_Name c) = false) cfgs ->
  NoDup (pc_Name <$> cfgs) -> Forall (fun c => l_metrics l !! pc_Name c = None) cfgs ->
  lim_inv l -> lim_inv (foldl with_pool l cfgs).
Proof.
  revert l. induction cfgs as [|c cfgs IH]; intros l Hr Hnd Hnew Hl; [done|].
  apply Forall_cons in Hr as [Hrc Hr]. apply Forall_cons in Hnew as [Hnc Hnew].
  rewrite fmap_cons in Hnd. apply NoDup_cons in Hnd as [Hc Hnd]. cbn [foldl]. apply IH; try done.
  - rewrite Forall_forall in *. intros c' Hc'. simpl. rewrite lookup_insert. case_decide as E; [|by apply Hnew].
    exfalso. apply Hc. rewrite E. by apply list_elem_of_fmap_2.
  - destruct Hl as [Hn Hi Hm Ha Hd]. constructor; simpl.
    + intros n p. rewrite lookup_insert. case_decide as E.
      * intros [= <-]. subst n. by rewrite lookup_insert_eq.
      * intros Hp. destruct (Hn _ _ Hp) as (? & ? & ?). split_and!; try done.
        rewrite lookup_insert. by case_decide.
    + intros k p Hp. destruct (Hi _ _ Hp) as [? ?]. split; [done|]. rewrite lookup_insert. by case_decide.
    + intros n. rewrite !lookup_insert. case_decide as E; [by left|]. apply Hm.
    + rewrite map_sum_insert by done. simpl. by rewrite Ha.
    + rewrite map_sum_insert by done. simpl. by rewrite Hd.
Qed.

(** What [New] returns has counted nothing and has no inline pool. *)
Lemma New_counts_nothing cfgs l : New cfgs = Ok l -> Forall (fun c => reserved_name (pc_Name c) = false) cfgs ->
  lim_inv l /\ l_inlinePools l = ∅.
Proof.
  intros (_ & Hnd & _ & ->)%add_pools_Ok Hres. split.
  - apply with_pools_inv; try done; [by apply Forall_true|]. constructor; simpl; try done. intros n. by intros [].
  - clear. assert (forall l, l_inlinePools (foldl with_pool l cfgs) = l_inlinePools l) as Hi; [|by rewrite Hi].
    induction cfgs as [|c cfgs IH]; intros l; [done|]. cbn [foldl]. by rewrite IH.
Qed.

(** the counters.  In every state reached from [New] by any sequence of
    [Allow] and reset calls, with no pool configured under a reserved [_inline:]
    name, the totals are the sums of the per-pool counters (as [int64]) and
    [Snapshot] finds the metrics of every pool: it does not panic. *)
Theorem metrics_consistent cfgs l ops (Hnew : New cfgs = Ok l)
    (Hres : Forall (fun c => reserved_name (pc_Name c) = false) cfgs) :
  let l' := foldl exec_op l ops in
  l_TotalAllowed l' = i64 (map_sum pm_Allowed (l_metrics l')) /\
  l_TotalDenied l' = i64 (map_sum pm_Denied (l_metrics l')) /\
  exists snap, Snapshot l' = Some (l_TotalAllowed l', l_TotalDenied l', snap).
Proof.
  assert (lim_inv (foldl exec_op l ops)) as Hl.
  { apply New_counts_nothing in Hnew as [H0' _]; [|done]. clear -H0'. revert l H0'.
    induction ops; intros l Hl; simpl; auto using limiter_op_inv. }
  intros l'. fold l' in Hl. split_and!; [apply Hl..|]. unfold Snapshot. rewrite decide_True; [by eexists|].
  intros n p Hp. by apply (inv_named _ Hl) in Hp as (_ & _ & ?).
Qed.

(** ** All limits of a trigger *)

(** [passes l limits ctx clk l']: every limit is allowed in turn, from [l] to [l']. *)
Inductive passes (ctx : Ctx) : Limiter -> list RateLimitRefConfig -> (nat -> nat -> Z) -> Limiter -> Prop :=
| passes_nil l clk : passes ctx l [] clk l
| passes_cons l limit limits clk retry name l1 l2 :
    allowOne l limit ctx (clk 0%nat) = (Ok (true, retry, name), l1) ->
    passes ctx l1 limits (fun i => clk (S i)) l2 ->
    passes ctx l (limit :: limits) clk l2.

(** [Allow] admits a request iff each of its limits, taken in order, does; if
    not, the answer is that of the first limit that refuses or fails, and the
    limits after it are neither consulted nor charged. *)
Theorem Allow_first_refusal l limits ctx clk :
  let '(r, l') := Allow l limits ctx clk in
  (r = Ok (true, 0, "") /\ passes ctx l limits clk l') \/
  exists pre limit post l1, limits = pre ++ limit :: post /\ passes ctx l pre clk l1 /\
    allowOne l1 limit ctx (clk (List.length pre)) = (r, l') /\
    (forall retry name, r <> Ok (true, retry, name)).
Proof.
  revert l clk. induction limits as [|limit limits IH]; intros l clk; simpl.
  { left. split; [done|constructor]. }
  destruct (allowOne l limit ctx (clk 0%nat)) as [[[[[] re] pn]|e] l1] eqn:E; simpl.
  - specialize (IH l1 (fun i => clk (S i))). destruct (Allow l1 limits ctx _) as [r l'].
    destruct IH as [[-> Hp]|(pre & lim & post & l2 & -> & Hp & Ha & Hr)].
    + left. split; [done|]. by econstructor.
    + right. exists (limit :: pre), lim, post, l2. split_and!; try done. by econstructor.
  - right. exists [], limit, limits, l. split_and!; try done. constructor.
  - right. exists [], limit, limits, l. split_and!; try done. constructor.
Qed.

(** the pools that [Snapshot] lists for inline limits cannot be reset by the
    name it lists them under: [ResetPool] and [ResetKey] look among the keys of the
    inline pools, which lack the [_inline:] prefix, and report that the pool is not
    found, although a snapshot taken at that moment has an entry of that name. *)
Theorem inline_pool_not_resettable limit ctx clk l' r key now
    (Ha : allowOne empty_limiter limit ctx clk = (Ok r, l'))
    (Hi : IsPoolReference limit = false /\ IsInline limit = true) :
  (exists a d snap, Snapshot l' = Some (a, d, snap) /\
     is_Some (snap !! inline_name (inlinePoolKey limit))) /\
  is_ok (ResetPool l' (inline_name (inlinePoolKey limit)) now).1 = false /\
  is_ok (ResetKey l' (inline_name (inlinePoolKey limit)) key).1 = false.
Proof.
  destruct Hi as [Hp Hi]. unfold allowOne in Ha. rewrite Hp, Hi in Ha. unfold ensure_inline in Ha.
  cbn [l_inlinePools empty_limiter] in Ha. rewrite lookup_empty in Ha.
  destruct (ExecuteInline (inline_key limit) ctx) as [k|] eqn:Ek;
    [|unfold allow_in in Ha; by rewrite Ek in Ha].
  rewrite (allow_in_Ok _ _ _ _ _ _ _ Ek) in Ha. destruct (decision _ _) as [al re]. cbn [store_pool] in Ha.
  injection Ha as _ <-. set (pk := inlinePoolKey limit).
  assert (pk <> inline_name pk) as Hne.
  { intros E. apply (f_equal String.length) in E. unfold inline_name in E.
    rewrite length_app_str in E. simpl in E. lia. }
  split.
  - unfold Snapshot. rewrite decide_True by apply map_Forall_empty. eexists _, _, _. split; [done|]. simpl.
    rewrite insert_insert_eq, !insert_empty, map_fold_singleton.
    rewrite maybeCleanup_name. simpl. rewrite lookup_alter_eq, lookup_singleton_eq. simpl.
    by rewrite lookup_insert_eq.
  - unfold ResetPool, ResetKey, find_pool. simpl. rewrite lookup_empty, insert_insert_eq.
    by rewrite lookup_insert_ne, lookup_empty.
Qed.
End Limiter.

(** two inline limits share a pool exactly when they have the same rate, the
    same burst and the same key template (the default one counted as itself), so
    that limits with different settings never use each other's buckets. *)
Theorem inlinePoolKey_injective (a b : RateLimitRefConfig)
    (Ha : IsInline a = true) (Hb : IsInline b = true) :
  inlinePoolKey a = inlinePoolKey b <->
  rl_RequestsPerSecond a = rl_RequestsPerSecond b /\ rl_Burst a = rl_Burst b /\ inline_key a = inline_key b.
Proof.
  unfold IsInline in *. bools. rewrite bool_decide_eq_true in *. split.
  - unfold inlinePoolKey. intros E.
    apply (split_at is_digit) in E as [E1 E]; [|done|by apply pretty_Z_digits; lia..].
    apply (split_at is_digit) in E as [E2 E]; [|done|by apply pretty_Z_digits; lia..].
    apply (inj pretty) in E1, E2. done.
  - intros (E1 & E2 & E3). unfold inlinePoolKey. by rewrite E1, E2, E3.
Qed.

(** ** A concrete token bucket, for evaluating examples

    Nano-tokens available at the last instant; [Reserve] takes one token, going
    into debt if there is none, until the instant the reservation is for. *)
Definition sample_delay (r now : Z) : Z := Z.max 0 (Z.min (two63 - 1) (r - now)).

Lemma sample_delay_range r now : 0 <= sample_delay r now < two63.
Proof. unfold sample_delay, two63. lia. Qed.

Definition sample_bucket : TokenBucket :=
  {| bucket_state := Z * Z * Z * Z;    (* rate, burst, nano-tokens, instant *)
     reservation := Z;
     NewLimiter := fun rps burst => (rps, burst, burst * Second, 0);
     Reserve := fun b now =>
       let '(rps, burst, tokens, last) := b in
       let tokens := Z.min (burst * Second) (tokens + rps * Z.max 0 (now - last)) - Second in
       (now + Z.max 0 (- (tokens / rps)), (rps, burst, tokens, now));
     Delay := sample_delay;
     Cancel := fun b _ now => let '(rps, burst, tokens, last) := b in (rps, burst, tokens + Second, last);
     Delay_range := sample_delay_range |}.

Definition sample_engine : KeyEngine string :=
  {| engine_Validate := fun _ => None; ExecuteInline := fun _ ctx => Ok ctx |}.

Module Sample.
#[local] Existing Instances sample_tables sample_bucket sample_engine.

Definition cfgs : list RateLimitPoolConfig :=
  [{| pc_Name := "api"; pc_RequestsPerSecond := 2; pc_Burst := 3; pc_Key := "{{.trigger.client_ip}}" |}].

Definition api : RateLimitRefConfig :=
  {| rl_Pool := "api"; rl_RequestsPerSecond := 0; rl_Burst := 0; rl_Key := "" |}.
Definition inl : RateLimitRefConfig :=
  {| rl_Pool := ""; rl_RequestsPerSecond := 10; rl_Burst := 5; rl_Key := "" |}.

Definition l0 : Limiter := foldl with_pool empty_limiter cfgs.
Definition t0 : Z := 1700000000 * Second.

(** Three requests at once pass, the fourth is told to come back in a second. *)
Example burst_then_deny :
  let step l := (allowOne l api "10.0.0.1" (fun _ => t0)).2 in
  (allowOne (step (step l0)) api "10.0.0.1" (fun _ => t0)).1 = Ok (true, 0, "api") /\
  (allowOne (step (step (step l0))) api "10.0.0.1" (fun _ => t0)).1 = Ok (false, Second, "api").
Proof. by vm_compute. Qed.

Lemma New_accepts_witness : is_ok (New cfgs) = true.
Proof.
  apply (New_accepts cfgs). split.
  - repeat constructor; by vm_compute.
  - apply NoDup_singleton.
Defined.

Lemma allowOne_decides_witness : exists retry l',
  allowOne l0 api "10.0.0.1" (fun _ => t0) = (Ok (true, retry, "api"), l').
Proof.
  destruct (allowOne_decides l0 api "10.0.0.1" (fun _ => t0) (Named "api")
    (pool_of (List.hd (Build_RateLimitPoolConfig "" 0 0 "") cfgs)) "10.0.0.1")
    as (retry & l' & E & _); [reflexivity|by vm_compute|by vm_compute|].
  exists retry, l'. exact E.
Defined.

Lemma allowOne_isolates_witness :
  let l := (allowOne l0 api "10.0.0.1" (fun _ => t0)).2 in
  let b := default (Build_bucket (NewLimiter 1 1) 0) (bucket_of l (Named "api") "10.0.0.1") in
  bucket_of (allowOne l api "10.0.0.2" (fun _ => t0)).2 (Named "api") "10.0.0.1" = Some b \/
  (bucket_of (allowOne l api "10.0.0.2" (fun _ => t0)).2 (Named "api") "10.0.0.1" = None /\
   (fun t => t.1.1) <$> target l api "10.0.0.2" = Some (Named "api") /\
   b_lastUsed b < stale_threshold t0).
Proof.
  intros l b. apply (allowOne_isolates l api "10.0.0.2" (fun _ => t0) (Named "api") "10.0.0.1" b).
  - reflexivity.
  - right. by vm_compute.
Defined.

Lemma metrics_consistent_witness :
  let l' := foldl exec_op l0 [LAllow [api; inl] "10.0.0.1" (fun _ _ => t0)] in
  l_TotalAllowed l' = i64 (map_sum pm_Allowed (l_metrics l')).
Proof.
  apply (metrics_consistent cfgs l0 [LAllow [api; inl] "10.0.0.1" (fun _ _ => t0)]).
  - reflexivity.
  - by repeat constructor.
Defined.

Lemma inline_pool_not_resettable_witness :
  let l' := (allowOne empty_limiter inl "10.0.0.1" (fun _ => t0)).2 in
  is_ok (ResetPool l' (inline_name (inlinePoolKey inl)) t0).1 = false.
Proof.
  intros l'. apply (inline_pool_not_resettable inl "10.0.0.1" (fun _ => t0) l'
    (true, 0, "_inline:10:5:{{.trigger.client_ip}}") "" t0).
  - reflexivity.
  - done.
Defined.

Lemma inlinePoolKey_injective_witness :
  inlinePoolKey inl = inlinePoolKey inl <->
  rl_RequestsPerSecond inl = rl_RequestsPerSecond inl /\ rl_Burst inl = rl_Burst inl /\
  inline_key inl = inline_key inl.
Proof. apply (inlinePoolKey_injective inl inl); reflexivity. Defined.
End Sample.
