(* ===== verification/GoValues.v ===== *)
(** * Go's dynamic values and effects

    The program passes rows, parameters and template data around as [any] and
    [map[string]any].  [any] lists the dynamic types it produces or tests for;
    a slice or map that may be [nil] where the code tells the difference is an
    [option].  Effectful code runs in a state monad whose computations may panic. *)
From S2P Require Import Prelude GoStrings.
From Stdlib Require Import SpecFloat.

(** ** Dynamic values *)

(** Numbers: [AInt] is Go's [int] (64 bits), [AInt64] is [int64]; a [float64] is
    a finite number, an infinity or NaN in the sense of IEEE 754. *)
Inductive any : Type :=
| ANil
| ABool (b : bool)
| AInt (z : Z)
| AInt64 (z : Z)
| AFloat (f : spec_float)
| AStr (s : string)
| ATime (t : Z)
| AList (l : list any)                      (* []any *)
| AMap (m : gmap string any)                (* map[string]any *)
| ARows (l : list (gmap string any))        (* []map[string]any *)
| AStrMap (m : gmap string string)          (* map[string]string *)
| AStrs (l : list string)                   (* []string *)
| AFunc (name : string)                     (* a function value *)
| AOther (type : string).                   (* a value of another type *)

Abbreviation row := (gmap string any).
Abbreviation Rows := (list (gmap string any)).

(** [fmt.Sprintf("%T", v)] *)
Definition type_name (v : any) : string :=
  match v with
  | ANil => "<nil>"
  | ABool _ => "bool"
  | AInt _ => "int"
  | AInt64 _ => "int64"
  | AFloat _ => "float64"
  | AStr _ => "string"
  | ATime _ => "time.Time"
  | AList _ => "[]interface {}"
  | AMap _ => "map[string]interface {}"
  | ARows _ => "[]map[string]interface {}"
  | AStrMap _ => "map[string]string"
  | AStrs _ => "[]string"
  | AFunc _ => "func"
  | AOther t => t
  end.

(** The type assertion [v.(map[string]any)]. *)
Definition as_map (v : any) : option row :=
  match v with AMap m => Some m | _ => None end.

Definition as_list (v : any) : option (list any) :=
  match v with AList l => Some l | _ => None end.

(** ** JSON, times and default formatting *)

(** What reading a request body gives: its bytes, then the end or an error. *)
Record Body := { bd_text : string; bd_err : option error }.

(** The encoding of values as text is the standard library's.  A decoder and a form
    parser that need more than a failing reader gives return its error; a form parser
    that has another error already, of the media type, keeps that. *)
Class GoText := {
  json_Unmarshal : string -> result any;           (* json.Unmarshal into an [any] *)
  json_Marshal : any -> result string;
  json_DecodeObject : Body -> result (option (gmap string any));
    (* json.NewDecoder(body).Decode into a [map[string]any], [nil] for null *)
  ParseForm : string -> string -> string -> option Body -> option error * gmap string (list string);
    (* r.ParseForm() and r.Form, from the method, the Content-Type, the query and the body *)
  time_Parse : string -> string -> result Z;       (* time.Parse(layout, value) *)
  Sprint_v : any -> string;                        (* fmt.Sprintf of a value with verb v *)
  json_Decode_read : forall p e, json_DecodeObject {| bd_text := p; bd_err := Some e |} = Err e \/
    forall q o, json_DecodeObject {| bd_text := p; bd_err := Some e |} = json_DecodeObject {| bd_text := p +:+ q; bd_err := o |};
  ParseForm_read : forall m ct raw p e,
    (ParseForm m ct raw (Some {| bd_text := p; bd_err := Some e |})).1 = Some e \/
    forall q o,
      let cut := ParseForm m ct raw (Some {| bd_text := p; bd_err := Some e |}) in
      let whole := ParseForm m ct raw (Some {| bd_text := p +:+ q; bd_err := o |}) in
      cut.1 = whole.1 /\ (cut.1 = None -> cut.2 = whole.2);
}.

(** A standard library for evaluation: bodies decode to null, a form has what [forms]
    makes of the query. *)
Definition sample_Decode (b : Body) : result (option (gmap string any)) :=
  match bd_err b with Some e => Err e | None => Ok None end.

Definition sample_ParseForm (forms : string -> gmap string (list string)) (m ct raw : string) (b : option Body)
    : option error * gmap string (list string) := (None, forms raw).

(** ** Ranging over a map

    Go walks a map in an unspecified order: one listing of its entries. *)
Class MapWalk := {
  walk : forall {A}, gmap string A -> list (string * A);
  walk_perm : forall {A} (m : gmap string A), walk m ≡ₚ map_to_list m;
}.

Lemma walk_elem `{MapWalk} {A} (m : gmap string A) k v : (k, v) ∈ walk m <-> m !! k = Some v.
Proof. by rewrite walk_perm, elem_of_map_to_list. Qed.

Lemma walk_NoDup `{MapWalk} {A} (m : gmap string A) : NoDup (walk m).*1.
Proof. rewrite walk_perm. apply NoDup_fst_map_to_list. Qed.

Lemma walk_keys `{MapWalk} {A} (m : gmap string A) : list_to_set (walk m).*1 = dom m.
Proof.
  apply set_eq. intros k. rewrite elem_of_list_to_set, list_elem_of_fmap, elem_of_dom. split.
  - intros ([k' v] & -> & Hin%walk_elem). by exists v.
  - intros [v Hv]. exists (k, v). split; [done|by apply walk_elem].
Qed.

Definition sample_walk : MapWalk :=
  {| walk := fun A m => map_to_list m; walk_perm := fun A m => reflexivity _ |}.

(** ** Effects

    A computation takes the state of the world to a value, or to a panic, and the
    state it leaves. *)
Definition M (S A : Type) : Type := S -> option A * S.

Section Monad.
Context {S : Type}.

Definition ret {A} (a : A) : M S A := fun s => (Some a, s).
Definition panic {A} : M S A := fun s => (None, s).
Definition bind {A B} (m : M S A) (f : A -> M S B) : M S B := fun s =>
  let '(a, s') := m s in
  match a with Some a => f a s' | None => (None, s') end.

(** An operation of the world that cannot panic. *)
Definition lift {A} (op : S -> A * S) : M S A := fun s => let '(a, s') := op s in (Some a, s').

Lemma run_ret_l {A B} (a : A) (f : A -> M S B) s : bind (ret a) f s = f a s.
Proof. done. Qed.

Lemma run_ret_r {A} (m : M S A) s : bind m ret s = m s.
Proof. unfold bind, ret. by destruct (m s) as [[a|] s']. Qed.

Lemma run_assoc {A B C} (m : M S A) (f : A -> M S B) (g : B -> M S C) s :
  bind (bind m f) g s = bind m (fun a => bind (f a) g) s.
Proof. unfold bind. by destruct (m s) as [[a|] s']. Qed.

(** The value a run returns, and where it ends. *)
Lemma run_bind_Some {A B} (m : M S A) (f : A -> M S B) s b s' :
  bind m f s = (Some b, s') <-> exists a s1, m s = (Some a, s1) /\ f a s1 = (Some b, s').
Proof. unfold bind. destruct (m s) as [[a|] s1]; naive_solver. Qed.

Lemma run_bind_None {A B} (m : M S A) (f : A -> M S B) s s' :
  bind m f s = (None, s') <-> m s = (None, s') \/ exists a s1, m s = (Some a, s1) /\ f a s1 = (None, s').
Proof. unfold bind. destruct (m s) as [[a|] s1]; naive_solver. Qed.
End Monad.

Notation "'let*' x := m 'in' k" := (bind m (fun x => k))
  (at level 10, x binder, k at level 200) : go_scope.

(** A predicate on the values a computation can return, whatever the state. *)
Definition returns {S A} (m : M S A) (P : A -> Prop) : Prop :=
  forall s a s', m s = (Some a, s') -> P a.

Lemma returns_ret {S A} (a : A) (P : A -> Prop) : P a -> returns (S := S) (ret a) P.
Proof. by intros Ha s b s' [= <- _]. Qed.

Lemma returns_bind {S A B} (Q : A -> Prop) (P : B -> Prop) (m : M S A) (f : A -> M S B) :
  returns m Q -> (forall a, Q a -> returns (f a) P) -> returns (bind m f) P.
Proof. intros Hm Hf s b s' (a & s1 & Ha & Hb)%run_bind_Some. by eapply Hf; [eapply Hm|]. Qed.

Lemma returns_last {S A B} (P : B -> Prop) (m : M S A) (f : A -> M S B) :
  (forall a, returns (f a) P) -> returns (bind m f) P.
Proof. intros Hf. by apply (returns_bind (fun _ => True)). Qed.

(** A computation that never panics. *)
Definition total {S A} (m : M S A) : Prop := forall s, is_Some (m s).1.

Lemma total_run {S A} (m : M S A) s : total m -> exists a s', m s = (Some a, s').
Proof. intros Hm. destruct (Hm s) as [a Ha]. exists a, (m s).2. by destruct (m s) as [o s']; cbn in Ha; subst. Qed.

Lemma run_bind {S A B} (m : M S A) (f : A -> M S B) s a s' : m s = (Some a, s') -> bind m f s = f a s'.
Proof. intros E. unfold bind. by rewrite E. Qed.

Lemma total_ret {S A} (a : A) : total (S := S) (ret a).
Proof. intros s. by eexists. Qed.

Lemma total_bind {S A B} (m : M S A) (f : A -> M S B) :
  total m -> (forall a, total (f a)) -> total (bind m f).
Proof.
  intros Hm Hf s. unfold bind. specialize (Hm s). destruct (m s) as [[a|] s']; [apply Hf|by destruct Hm].
Qed.

Lemma total_lift {S A} (op : S -> A * S) : total (lift op).
Proof. intros s. unfold lift. destruct (op s). by eexists. Qed.

#[export] Hint Resolve total_ret total_bind total_lift : sqlproxy.

(** One that panics only in certain states. *)
Definition safe {S} (lost : S -> Prop) (A : Type) (m : M S A) : Prop := forall s s', m s = (None, s') -> lost s'.

Lemma total_safe {S A} (lost : S -> Prop) (m : M S A) : total m -> safe lost A m.
Proof. intros Hm s s' E. specialize (Hm s). rewrite E in Hm. by destruct Hm. Qed.

Lemma safe_bind {S A B} (lost : S -> Prop) (m : M S A) (f : A -> M S B) :
  safe lost A m -> (forall a, safe lost B (f a)) -> safe lost B (bind m f).
Proof. intros Hm Hf s s' [Hn|(a & s1 & _ & Hn)]%run_bind_None; [by eapply Hm|by eapply Hf]. Qed.

Lemma safe_weaken {S A} (lost lost' : S -> Prop) (m : M S A) : (forall s, lost s -> lost' s) -> safe lost A m -> safe lost' A m.
Proof. intros Hl Hm s s' E. by eapply Hl, Hm. Qed.
