(* ===== verification/Trace.v ===== *)
(** * Effects with a log

    Where a theorem speaks about what the program asks of the world, in which order,
    the state of the world carries a log: every operation enters its event, no code
    reads it.  [emits m P] is the predicate the theorems are built on. *)
From S2P Require Import Prelude GoValues.

Record Traced (W E : Type) := { ds_world : W; ds_log : list E }.
Arguments Build_Traced {W E} _ _.
Arguments ds_world {W E} _.
Arguments ds_log {W E} _.

Section Trace.
Context {W E : Type}.

Abbreviation X := (M (Traced W E)).

Definition ask {A} (op : W -> A * W) (ev : A -> E) : X A :=
  lift (fun s => let '(a, w) := op (ds_world s) in
                 (a, {| ds_world := w; ds_log := ds_log s ++ [ev a] |})).

Definition tell (op : W -> W) (ev : E) : X unit := ask (fun w => (tt, op w)) (fun _ => ev).

(** [defer]: the call runs when [m] has returned or panicked. *)
Definition deferred {A} (m : X A) (op : W -> W) (ev : E) : X A := fun s =>
  let '(a, s') := m s in
  (a, {| ds_world := op (ds_world s'); ds_log := ds_log s' ++ [ev] |}).

(** [emits m P]: whatever the state, the run of [m] adds a trace [t] to the log, and
    [P] holds of its value (none for a panic) and [t]. *)
Definition emits {A} (m : X A) (P : option A -> list E -> Prop) : Prop :=
  forall s, exists t, ds_log (m s).2 = ds_log s ++ t /\ P (m s).1 t.

Lemma emits_weaken {A} (m : X A) (P Q : option A -> list E -> Prop) :
  emits m P -> (forall r t, P r t -> Q r t) -> emits m Q.
Proof. intros Hm HPQ s. destruct (Hm s) as (t & Ht & HP). exists t. auto. Qed.

Lemma emits_ret {A} (a : A) (P : option A -> list E -> Prop) : P (Some a) [] -> emits (ret a) P.
Proof. intros HP s. exists []. by rewrite app_nil_r. Qed.

Lemma emits_panic {A} (P : option A -> list E -> Prop) : P None [] -> emits panic P.
Proof. intros HP s. exists []. by rewrite app_nil_r. Qed.

Lemma emits_ask {A} (op : W -> A * W) ev (P : option A -> list E -> Prop) :
  (forall a, P (Some a) [ev a]) -> emits (ask op ev) P.
Proof.
  intros HP s. unfold ask, lift. destruct (op (ds_world s)) as [a w] eqn:Eop. simpl.
  exists [ev a]. auto.
Qed.

Lemma emits_bind {A B} (m : X A) (f : A -> X B) (P : option B -> list E -> Prop) :
  emits m (fun r t => match r with
                      | None => P None t
                      | Some a => emits (f a) (fun r' t' => P r' (t ++ t'))
                      end) ->
  emits (bind m f) P.
Proof.
  intros Hm s. destruct (Hm s) as (t & Ht & HP). unfold bind.
  destruct (m s) as [[a|] s1]; cbn [fst snd] in *; [|by exists t].
  destruct (HP s1) as (t' & Ht' & HP'). exists (t ++ t'). by rewrite Ht', Ht, app_assoc.
Qed.

Lemma emits_deferred {A} (m : X A) op ev (P : option A -> list E -> Prop) :
  emits m (fun r t => P r (t ++ [ev])) -> emits (deferred m op ev) P.
Proof.
  intros Hm s. destruct (Hm s) as (t & Ht & HP). unfold deferred. destruct (m s) as [a s1].
  cbn [fst snd ds_log] in *. exists (t ++ [ev]). by rewrite Ht, app_assoc.
Qed.

Lemma emits_seq {A B} (m : X A) (f : A -> X B) Q (P : option B -> list E -> Prop) :
  emits m Q -> (forall t, Q None t -> P None t) ->
  (forall a t, Q (Some a) t -> emits (f a) (fun r' t' => P r' (t ++ t'))) -> emits (bind m f) P.
Proof.
  intros Hm HN HS. apply emits_bind. eapply emits_weaken; [exact Hm|]. intros [a|] t; auto.
Qed.

End Trace.
