(* ===== verification/Patterns.v ===== *)
(** * The regular expressions of the program, as matchers

    [@name] parameters of SQL texts (workflow/execute_query.go and the drivers),
    [{name}] parameters of route paths and [{{...}}] interpolations of SQL texts
    (workflow/validate.go).  Each matcher finds the leftmost matches from left to
    right, as [regexp] does; each has a specification that mentions no matcher. *)
From S2P Require Import Prelude GoStrings.

Definition ident_start (c : ascii) : bool :=
  in_range 65 90 c || in_range 97 122 c || (byte c =? 95)%N.
Definition ident_char (c : ascii) : bool := ident_start c || in_range 48 57 c.

(** Letters, digits and underscores, as many as there are at the head of [s], if the
    first one is as [start] says. *)
Definition take_name (start : ascii -> bool) (s : string) : option (string * string) :=
  if head_is start s then Some (span ident_char s) else None.

Definition is_name (start : ascii -> bool) (s : string) : bool := head_is start s && str_all ident_char s.

(** [[a-zA-Z_][a-zA-Z0-9_]*], and [\w+]. *)
Definition take_ident : string -> option (string * string) := take_name ident_start.
Definition take_word : string -> option (string * string) := take_name ident_char.

Definition is_ident (s : string) : bool := is_name ident_start s.
Definition is_word (s : string) : bool := is_name ident_char s.

Section Names.
Context (start : ascii -> bool) (start_char : forall c, start c = true -> ident_char c = true).

Lemma take_name_spec s w t : take_name start s = Some (w, t) <->
  s = w +:+ t /\ is_name start w = true /\ head_is ident_char t = false.
Proof using start_char.
  unfold take_name, is_name. split.
  - destruct (head_is start s) eqn:Eh; [|done]. intros [= E].
    apply span_spec in E as (-> & Hw & Ht). split_and!; try done.
    destruct w as [|c w]; simpl in *; [|by rewrite Eh].
    destruct t as [|c t]; [done|]. simpl in *. apply start_char in Eh. congruence.
  - intros (-> & [Hh Hw]%andb_true_iff & Ht). destruct w as [|c w]; [done|].
    cbn [String.append head_is] in *. rewrite Hh. f_equal.
    assert (forall w, str_all ident_char w = true -> span ident_char (w +:+ t) = (w, t)) as Hs.
    { clear -Ht. induction w as [|c w IH]; simpl.
      - destruct t as [|c t]; [done|]. simpl in *. by rewrite Ht.
      - intros [Hc Hw]%andb_true_iff. by rewrite Hc, IH. }
    by apply (Hs (String c w)).
Qed.

Lemma take_name_length s w t : take_name start s = Some (w, t) -> (String.length t < String.length s)%nat.
Proof using start_char.
  intros (-> & Hw & _)%take_name_spec. rewrite length_app_str. destruct w; [done|]. simpl. lia.
Qed.

(** ** [@name] *)

(** The capture group of every match: an at sign and a name. *)
Fixpoint find_names_fuel (fuel : nat) (s : string) : list string :=
  match fuel, s with
  | S fuel', String c r =>
    if decide (c = "@"%char) then
      match take_name start r with
      | Some (w, t) => w :: find_names_fuel fuel' t
      | None => find_names_fuel fuel' r
      end
    else find_names_fuel fuel' r
  | _, _ => []
  end.

Definition find_names (s : string) : list string := find_names_fuel (String.length s) s.

(** More fuel than bytes changes nothing. *)
Lemma find_names_enough n s : (String.length s <= n)%nat ->
  find_names_fuel n s = find_names_fuel (String.length s) s.
Proof using start_char.
  revert s. induction n as [n IH] using lt_wf_ind. intros [|c r] Hn; [by destruct n|].
  destruct n as [|n]; [simpl in Hn; lia|]. cbn [String.length find_names_fuel].
  simpl in Hn.
  assert (forall t, (String.length t <= String.length r)%nat ->
    find_names_fuel n t = find_names_fuel (String.length r) t) as He.
  { intros t Ht. rewrite (IH n ltac:(lia) t ltac:(lia)). symmetry. apply IH; lia. }
  rewrite (He r) by lia. case_decide; [|done].
  destruct (take_name start r) as [[w t]|] eqn:E; [|done]. apply take_name_length in E.
  f_equal. apply He. lia.
Qed.

Lemma find_names_cons c r : find_names (String c r) =
  if decide (c = "@"%char) then
    match take_name start r with Some (w, t) => w :: find_names t | None => find_names r end
  else find_names r.
Proof using start_char.
  unfold find_names. cbn [String.length find_names_fuel]. case_decide; [|done].
  destruct (take_name start r) as [[w t]|] eqn:E; [|done]. apply take_name_length in E.
  rewrite find_names_enough by lia. done.
Qed.

(** The names of a text are what follows an [@] up to a byte that cannot continue
    them. *)
Lemma find_names_sound s w : w ∈ find_names s ->
  exists pre post, s = pre +:+ "@" +:+ w +:+ post /\ is_name start w = true /\ head_is ident_char post = false.
Proof using start_char.
  remember (String.length s) as n eqn:Hn. revert s Hn.
  induction n as [n IH] using lt_wf_ind. intros [|c r] ->; [by intros ?%not_elem_of_nil|].
  rewrite find_names_cons.
  assert (forall t pre, String c r = pre +:+ t -> (String.length t < String.length (String c r))%nat ->
    w ∈ find_names t -> exists pre post, String c r = pre +:+ "@" +:+ w +:+ post /\
    is_name start w = true /\ head_is ident_char post = false) as Hrec.
  { intros t pre E Hl Hw. destruct (IH _ Hl t eq_refl Hw) as (p & q & -> & Hi & Hq).
    exists (pre +:+ p), q. split; [|done]. by rewrite E, app_str_assoc. }
  case_decide as Hc; [subst c|apply (Hrec r (String c "")); [done|simpl; lia]].
  destruct (take_name start r) as [[w' t]|] eqn:E; [|apply (Hrec r "@"); [done|simpl; lia]].
  pose proof (take_name_length _ _ _ E). apply take_name_spec in E as (-> & Hi & Ht).
  intros [->|Hw]%elem_of_cons; [by exists "", t|].
  apply (Hrec t (String "@" w')); [done|simpl in *; lia|done].
Qed.
End Names.

Lemma ident_start_char c : ident_start c = true -> ident_char c = true.
Proof. unfold ident_char. by intros ->. Qed.

Lemma take_ident_spec s w t : take_ident s = Some (w, t) <->
  s = w +:+ t /\ is_ident w = true /\ head_is ident_char t = false.
Proof. exact (take_name_spec ident_start ident_start_char s w t). Qed.

Lemma take_word_spec s w t : take_word s = Some (w, t) <->
  s = w +:+ t /\ is_word w = true /\ head_is ident_char t = false.
Proof. exact (take_name_spec ident_char (fun _ H => H) s w t). Qed.

Lemma take_word_length s w t : take_word s = Some (w, t) -> (String.length t < String.length s)%nat.
Proof. exact (take_name_length ident_char (fun _ H => H) s w t). Qed.

(** [sqlParamRegex] of the executor: an at sign and an identifier.  [ParamRegex] of the
    drivers: an at sign and letters, digits and underscores in any order, so [@1] too. *)
Definition find_params : string -> list string := find_names ident_start.
Definition ParamRegex : string -> list string := find_names ident_char.

Lemma ParamRegex_cons c r : ParamRegex (String c r) =
  if decide (c = "@"%char) then
    match take_word r with Some (w, t) => w :: ParamRegex t | None => ParamRegex r end
  else ParamRegex r.
Proof. exact (find_names_cons ident_char (fun _ H => H) c r). Qed.

(** ** [{name}] *)

Fixpoint path_params_list (s : string) : list string :=
  match s with
  | EmptyString => []
  | String c r =>
    if decide (c = "{"%char) then
      match take_ident r with
      | Some (w, t) => if head_is (Ascii.eqb "}") t then w :: path_params_list r else path_params_list r
      | None => path_params_list r
      end
    else path_params_list r
  end.

(** [extractPathParams]: matches do not overlap, since an identifier has no brace. *)
Definition extractPathParams (path : string) : gset string := list_to_set (path_params_list path).

(** ** [{{...}}] *)

Definition not_brace (c : ascii) : bool := negb (Ascii.eqb c "}").

(** Two opening braces, any bytes but a closing brace, two closing braces. *)
Definition interpolation_at (s : string) : bool :=
  match s with
  | String "{" (String "{" r) => HasPrefix (span not_brace r).2 "}}"
  | _ => false
  end.

Fixpoint containsTemplateInterpolation (s : string) : bool :=
  interpolation_at s || match s with String _ r => containsTemplateInterpolation r | EmptyString => false end.

Lemma span_not_brace b t : str_all not_brace b = true -> span not_brace (b +:+ String "}" t) = (b, String "}" t).
Proof. induction b as [|c b IH]; simpl; [done|]. intros [Hc Hb]%andb_true_iff. by rewrite Hc, IH. Qed.

Lemma interpolation_at_spec s : interpolation_at s = true <->
  exists body post, s = "{{" +:+ body +:+ "}}" +:+ post /\ str_all not_brace body = true.
Proof.
  split.
  - destruct s as [|c [|d r]]; simpl; try done; [by repeat case_match|].
    repeat (case_match; try done). intros Hp. destruct (span not_brace r) as [w t] eqn:E.
    apply span_spec in E as (-> & Hw & _). cbn [snd] in Hp. apply prefix_spec in Hp as [post ->].
    by exists w, post.
  - intros (body & post & -> & Hb). simpl. rewrite span_not_brace by done. simpl. by destruct post.
Qed.

(** A text is refused as interpolated iff it has two opening braces followed,
    without a closing brace in between, by two closing ones. *)
Lemma containsTemplateInterpolation_spec s : containsTemplateInterpolation s = true <->
  exists pre body post, s = pre +:+ "{{" +:+ body +:+ "}}" +:+ post /\ str_all not_brace body = true.
Proof.
  induction s as [|c s IH].
  - split; [done|]. intros ([|? pre] & body & post & E & _); done.
  - cbn [containsTemplateInterpolation]. rewrite orb_true_iff, IH, interpolation_at_spec. split.
    + intros [(b & q & -> & Hb)|(p & b & q & -> & Hb)].
      * by exists "", b, q.
      * by exists (String c p), b, q.
    + intros ([|d pre] & b & q & E & Hb); [left; by exists b, q|right].
      simpl in E. simplify_eq. by exists pre, b, q.
Qed.

Lemma path_params_spec s w : w ∈ path_params_list s <->
  exists pre post, s = pre +:+ "{" +:+ w +:+ "}" +:+ post /\ is_ident w = true.
Proof.
  induction s as [|c s IH].
  - split; [by intros ?%not_elem_of_nil|]. intros ([|? pre] & post & E & _); done.
  - assert ((exists pre post, String c s = pre +:+ "{" +:+ w +:+ "}" +:+ post /\ is_ident w = true) <->
      (c = "{"%char /\ exists t, take_ident s = Some (w, String "}" t)) \/ w ∈ path_params_list s) as ->.
    { rewrite IH. split.
      - intros ([|d pre] & post & E & Hw); simpl in E; simplify_eq.
        + left. split; [done|]. exists post. apply take_ident_spec. done.
        + right. by exists pre, post.
      - intros [(-> & t & (-> & Hw & _)%take_ident_spec)|(pre & post & -> & Hw)].
        + by exists "", t.
        + by exists (String c pre), post. }
    cbn [path_params_list]. case_decide as Hc; [|naive_solver].
    destruct (take_ident s) as [[w' t]|] eqn:E; [|naive_solver].
    destruct t as [|d t]; cbn [head_is]; [naive_solver|]. destruct (Ascii.eqb_spec "}" d) as [<-|Hd].
    + rewrite elem_of_cons. naive_solver.
    + split; [intros; by right|]. intros [(_ & t' & Ht)|?]; [|done]. congruence.
Qed.
