(* ===== verification/WfConfig.v ===== *)
(** * internal/workflow: configuration and execution context

    The YAML configuration of a workflow (config.go), the results of its steps and
    the environments its expressions and templates see (context.go).  Go's [nil]
    slices and pointers are [None] where the code tells them from empty ones. *)
From S2P Require Import Prelude GoStrings GoValues RateLimit.

(** ** Configuration *)

Record ParamConfig := { pa_Name : string; pa_Type : string; pa_Required : bool; pa_Default : string }.

Record CacheConfig := {
  cc_Enabled : bool; cc_Key : string; cc_TTLSec : Z; cc_MaxSizeMB : Z; cc_EvictCron : string;
}.

Record TriggerConfig := {
  tc_Type : string; tc_Path : string; tc_Method : string;
  tc_Parameters : list ParamConfig; tc_RateLimit : list RateLimitRefConfig;
  tc_Cache : option CacheConfig; tc_Schedule : string; tc_Params : gmap string string;
}.

Record StepCacheConfig := { sk_Key : string; sk_TTLSec : Z }.
Record IterateConfig := { it_Over : string; it_As : string; it_OnError : string }.
Record RetryConfig := {
  re_Enabled : bool; re_MaxAttempts : Z; re_InitialBackoffSec : Z; re_MaxBackoffSec : Z;
}.

Inductive StepConfig : Type := Build_StepConfig {
  sc_Name : string; sc_Disabled : bool; sc_Condition : string; sc_OnError : string;
  sc_Type : string;
  sc_Cache : option StepCacheConfig;
  sc_Params : gmap string string;
  sc_Database : string; sc_SQL : string; sc_Isolation : string; sc_LockTimeoutMs : option Z;
  sc_DeadlockPriority : string; sc_JSONColumns : list string;
  sc_URL : string; sc_HTTPMethod : string; sc_Headers : gmap string string; sc_Body : string;
  sc_Parse : string; sc_TimeoutSec : Z; sc_Retry : option RetryConfig;
  sc_StatusCode : Z; sc_Template : string;
  sc_Iterate : option IterateConfig; sc_Inputs : gmap string string;
  sc_Steps : option (list StepConfig); sc_Outputs : gmap string string;
}.

Record WorkflowConfig := {
  wc_Name : string; wc_TimeoutSec : Z; wc_Conditions : gmap string string;
  wc_Triggers : list TriggerConfig; wc_Steps : list StepConfig;
}.

(** The empty step, [StepConfig{}]; a YAML step sets some of its fields. *)
Definition zero_step : StepConfig := {|
  sc_Name := ""; sc_Disabled := false; sc_Condition := ""; sc_OnError := ""; sc_Type := "";
  sc_Cache := None; sc_Params := ∅; sc_Database := ""; sc_SQL := ""; sc_Isolation := "";
  sc_LockTimeoutMs := None; sc_DeadlockPriority := ""; sc_JSONColumns := []; sc_URL := "";
  sc_HTTPMethod := ""; sc_Headers := ∅; sc_Body := ""; sc_Parse := ""; sc_TimeoutSec := 0;
  sc_Retry := None; sc_StatusCode := 0; sc_Template := ""; sc_Iterate := None; sc_Inputs := ∅;
  sc_Steps := None; sc_Outputs := ∅ |}.

Definition IsBlock (s : StepConfig) : bool :=
  match sc_Steps s with Some _ => true | None => false end.

Definition IsQuery (s : StepConfig) : bool :=
  bool_decide (sc_Type s = "query") || bool_decide (sc_Type s = "") && bool_decide (sc_SQL s <> "").

Definition IsHTTPCall (s : StepConfig) : bool :=
  bool_decide (sc_Type s = "httpcall") || bool_decide (sc_Type s = "") && bool_decide (sc_URL s <> "").

Definition IsResponse (s : StepConfig) : bool := bool_decide (sc_Type s = "response").

Definition StepType (s : StepConfig) : string :=
  if IsBlock s then "block"
  else if decide (sc_Type s <> "") then sc_Type s
  else if decide (sc_SQL s <> "") then "query"
  else if decide (sc_URL s <> "") then "httpcall"
  else if decide (sc_Template s <> "") then "response"
  else "unknown".

(** ** Step results *)

(** [http.Header] *)
Abbreviation Header := (gmap string (list string)).

Record IterationResult (SR : Type) := {
  ir_Index : Z; ir_Item : any; ir_Success : bool; ir_Error : option error; ir_Steps : gmap string SR;
}.
Arguments ir_Index {SR}.
Arguments ir_Item {SR}.
Arguments ir_Success {SR}.
Arguments ir_Error {SR}.
Arguments ir_Steps {SR}.
Arguments Build_IterationResult {SR}.

Inductive StepResult : Type := Build_StepResult {
  sr_Name : string; sr_Type : string; sr_Success : bool; sr_Error : option error;
  sr_DurationMs : Z; sr_CacheHit : bool;
  sr_Data : option Rows; sr_Count : Z; sr_RowsAffected : Z;
  sr_StatusCode : Z; sr_Headers : Header; sr_ResponseBody : string;
  sr_Iterations : option (list (IterationResult StepResult));
  sr_SuccessCount : Z; sr_FailureCount : Z; sr_SkippedCount : Z;
}.

(** [&StepResult{}] *)
Definition zero_result : StepResult := {|
  sr_Name := ""; sr_Type := ""; sr_Success := false; sr_Error := None; sr_DurationMs := 0;
  sr_CacheHit := false; sr_Data := None; sr_Count := 0; sr_RowsAffected := 0; sr_StatusCode := 0;
  sr_Headers := ∅; sr_ResponseBody := ""; sr_Iterations := None; sr_SuccessCount := 0;
  sr_FailureCount := 0; sr_SkippedCount := 0 |}.

(** A failed result: [result.Error] and [result.DurationMs] set. *)
Definition failed_result (e : error) (ms : Z) : StepResult := {|
  sr_Name := ""; sr_Type := ""; sr_Success := false; sr_Error := Some e; sr_DurationMs := ms;
  sr_CacheHit := false; sr_Data := None; sr_Count := 0; sr_RowsAffected := 0; sr_StatusCode := 0;
  sr_Headers := ∅; sr_ResponseBody := ""; sr_Iterations := None; sr_SuccessCount := 0;
  sr_FailureCount := 0; sr_SkippedCount := 0 |}.

(** [stepResult.Name = name; stepResult.Type = type] *)
Definition named_result (r : StepResult) (name type : string) : StepResult := {|
  sr_Name := name; sr_Type := type; sr_Success := sr_Success r; sr_Error := sr_Error r;
  sr_DurationMs := sr_DurationMs r; sr_CacheHit := sr_CacheHit r; sr_Data := sr_Data r;
  sr_Count := sr_Count r; sr_RowsAffected := sr_RowsAffected r; sr_StatusCode := sr_StatusCode r;
  sr_Headers := sr_Headers r; sr_ResponseBody := sr_ResponseBody r; sr_Iterations := sr_Iterations r;
  sr_SuccessCount := sr_SuccessCount r; sr_FailureCount := sr_FailureCount r;
  sr_SkippedCount := sr_SkippedCount r |}.

(** [len(data)] of a possibly nil slice. *)
Definition len_rows (d : option Rows) : Z := Z.of_nat (List.length (default [] d)).

(** ** The views expressions and templates get *)

Definition headerToMap (h : Header) : row :=
  (fun v => match v with [x] => AStr x | _ => AStrs v end) <$> h.

Definition convenience_shortcuts (data : option Rows) (count : Z) : row :=
  list_to_map [
    ("row", match default [] data with r :: _ => AMap r | [] => ANil end);
    ("found", ABool (bool_decide (count > 0)));
    ("empty", ABool (bool_decide (count = 0)));
    ("one", ABool (bool_decide (count = 1)));
    ("many", ABool (bool_decide (count > 1)))].

(** [addConvenienceShortcuts]: the shortcuts overwrite. *)
Definition addConvenienceShortcuts (m : row) (data : option Rows) (count : Z) : row :=
  convenience_shortcuts data count ∪ m.

Definition iteration_map (it : IterationResult StepResult) : row :=
  let base : row := list_to_map [("index", AInt (ir_Index it)); ("item", ir_Item it);
                                 ("success", ABool (ir_Success it))] in
  match ir_Error it with Some e => <["error" := AStr (Error e)]> base | None => base end.

Definition stepResultToMap (r : StepResult) : row :=
  let m : row := list_to_map [
    ("name", AStr (sr_Name r)); ("type", AStr (sr_Type r)); ("success", ABool (sr_Success r));
    ("duration_ms", AInt64 (sr_DurationMs r)); ("cache_hit", ABool (sr_CacheHit r))] in
  let m := match sr_Error r with Some e => <["error" := AStr (Error e)]> m | None => m end in
  let m := if decide (sr_Type r = "query") then
      let m := <["data" := ARows (default [] (sr_Data r))]> m in
      let m := <["count" := AInt (sr_Count r)]> m in
      let m := <["rows_affected" := AInt64 (sr_RowsAffected r)]> m in
      addConvenienceShortcuts m (sr_Data r) (sr_Count r)
    else m in
  let m := if decide (sr_Type r = "httpcall") then
      let m := <["status_code" := AInt (sr_StatusCode r)]> m in
      let m := <["headers" := AMap (headerToMap (sr_Headers r))]> m in
      let m := <["body" := AStr (sr_ResponseBody r)]> m in
      let m := <["data" := ARows (default [] (sr_Data r))]> m in
      let m := <["count" := AInt (sr_Count r)]> m in
      addConvenienceShortcuts m (sr_Data r) (sr_Count r)
    else m in
  if decide (sr_Type r = "block") then
    let m := <["success_count" := AInt (sr_SuccessCount r)]> m in
    let m := <["failure_count" := AInt (sr_FailureCount r)]> m in
    let m := <["skipped_count" := AInt (sr_SkippedCount r)]> m in
    <["iterations" := ARows (iteration_map <$> default [] (sr_Iterations r))]> m
  else m.

(** ** Contexts *)

Record TriggerData := {
  td_Type : string; td_Params : row; td_Headers : Header; td_Cookies : gmap string string;
  td_ClientIP : string; td_Method : string; td_Path : string;
  td_ScheduleTime : Z; td_CronExpr : string;
}.

(** The functions of [exprFuncs]: tmpl.ExprFuncs and isValidPublicID. *)
Class ExprFuncs := { exprFuncs : row }.

(** [Context]; the compiled workflow contributes its configuration. *)
Record Context := {
  cx_Workflow : WorkflowConfig; cx_Trigger : TriggerData; cx_Steps : gmap string StepResult;
  cx_RequestID : string; cx_StartTime : Z; cx_Variables : option (gmap string string);
}.

Definition NewContext (wf : WorkflowConfig) (trigger : TriggerData) (requestID : string)
    (variables : option (gmap string string)) (now : Z) : Context :=
  {| cx_Workflow := wf; cx_Trigger := trigger; cx_Steps := ∅; cx_RequestID := requestID;
     cx_StartTime := now; cx_Variables := variables |}.

Definition SetStepResult (c : Context) (name : string) (r : StepResult) : Context :=
  {| cx_Workflow := cx_Workflow c; cx_Trigger := cx_Trigger c; cx_Steps := <[name := r]> (cx_Steps c);
     cx_RequestID := cx_RequestID c; cx_StartTime := cx_StartTime c; cx_Variables := cx_Variables c |}.

Section Env.
Context `{ExprFuncs}.

(** [addExprFuncs]: the functions overwrite entries of the same name. *)
Definition addExprFuncs (env : row) : row := exprFuncs ∪ env.

Definition trigger_map (t : TriggerData) : row :=
  let base : row := list_to_map [("type", AStr (td_Type t)); ("params", AMap (td_Params t))] in
  if decide (td_Type t = "http") then
    list_to_map [("headers", AMap (headerToMap (td_Headers t))); ("cookies", AStrMap (td_Cookies t));
      ("client_ip", AStr (td_ClientIP t)); ("method", AStr (td_Method t));
      ("path", AStr (td_Path t))] ∪ base
  else list_to_map [("schedule_time", ATime (td_ScheduleTime t)); ("cron", AStr (td_CronExpr t))] ∪ base.

Definition workflow_map (c : Context) : row :=
  list_to_map [("name", AStr (wc_Name (cx_Workflow c))); ("start_time", ATime (cx_StartTime c));
    ("request_id", AStr (cx_RequestID c))].

Definition steps_map (steps : gmap string StepResult) : any :=
  AMap ((fun r => AMap (stepResultToMap r)) <$> steps).

Definition vars_value (v : option (gmap string string)) : any := AStrMap (default ∅ v).

Definition BuildExprEnv (c : Context) : row :=
  addExprFuncs (list_to_map [
    ("steps", steps_map (cx_Steps c)); ("trigger", AMap (trigger_map (cx_Trigger c)));
    ("workflow", AMap (workflow_map c)); ("vars", vars_value (cx_Variables c))]).

Definition BuildTemplateData (c : Context) : row := BuildExprEnv c.

Record BlockContext := {
  bc_Parent : Context; bc_BlockName : string; bc_Steps : gmap string StepResult;
  bc_CurrentItem : any; bc_CurrentIndex : Z; bc_TotalCount : Z;
}.

Definition NewBlockContext (parent : Context) (blockName : string) (item : any) (index total : Z)
    : BlockContext :=
  {| bc_Parent := parent; bc_BlockName := blockName; bc_Steps := ∅; bc_CurrentItem := item;
     bc_CurrentIndex := index; bc_TotalCount := total |}.

Definition block_SetStepResult (b : BlockContext) (name : string) (r : StepResult) : BlockContext :=
  {| bc_Parent := bc_Parent b; bc_BlockName := bc_BlockName b; bc_Steps := <[name := r]> (bc_Steps b);
     bc_CurrentItem := bc_CurrentItem b; bc_CurrentIndex := bc_CurrentIndex b;
     bc_TotalCount := bc_TotalCount b |}.

(** [parent["trigger"]] and the like: [nil] if the key is absent. *)
Definition index_map (m : row) (k : string) : any := default ANil (m !! k).

(** [BlockContext.BuildExprEnv]: the assignments in the order of the code. *)
Definition block_BuildExprEnv (b : BlockContext) (iterateAs : string) : row :=
  let parent := BuildExprEnv (bc_Parent b) in
  let env : row := {[ "steps" := steps_map (bc_Steps b) ]} in
  let env := <["parent" := AMap parent]> env in
  let env := if decide (iterateAs <> "") then <[iterateAs := bc_CurrentItem b]> env else env in
  let env := <["_index" := AInt (bc_CurrentIndex b)]> env in
  let env := <["_count" := AInt (bc_TotalCount b)]> env in
  let env := <["trigger" := index_map parent "trigger"]> env in
  let env := <["workflow" := index_map parent "workflow"]> env in
  let env := <["vars" := index_map parent "vars"]> env in
  addExprFuncs env.

Definition block_BuildTemplateData (b : BlockContext) (iterateAs : string) : row :=
  block_BuildExprEnv b iterateAs.
End Env.
