(* ===== verification/SqlParams.v ===== *)
(** * Binding SQL parameters (workflow/execute_query.go)

    [extractSQLParams] gives each [@name] of a statement a value out of the template
    data: the computed step parameters, the request parameters, a field of some map
    of the data, a key of the data itself. *)
From S2P Require Import Prelude GoStrings GoValues Patterns RateLimit WfConfig.

(** ** [sort.Strings] *)

Definition str_le (a b : string) : Prop := String.leb a b = true.

#[global] Instance str_le_dec a b : Decision (str_le a b) := decide (String.leb a b = true).

Definition sort_Strings (l : list string) : list string := merge_sort str_le l.

Lemma str_le_total : Total str_le.
Proof. intros a b. unfold str_le. destruct (String.leb_total a b); auto. Qed.

Lemma compare_cons c d a b : String.compare (String c a) (String d b) =
  match Ascii.compare c d with Eq => String.compare a b | o => o end.
Proof. done. Qed.

Lemma str_le_cons c d a b : str_le (String c a) (String d b) <->
  (byte c < byte d)%N \/ c = d /\ str_le a b.
Proof.
  unfold str_le, String.leb. rewrite compare_cons. unfold Ascii.compare.
  destruct (N.compare_spec (N_of_ascii c) (N_of_ascii d)) as [E|E|E].
  - apply byte_inj in E as ->. split; [by right|]. intros [?|[_ ?]]; [lia|done].
  - split; [by left|done].
  - split; [done|]. unfold byte. intros [?|[-> _]]; lia.
Qed.

Lemma str_le_trans : Transitive str_le.
Proof.
  intros a. induction a as [|c a IH]; intros [|d b] [|e x]; try done.
  rewrite !str_le_cons. intros [H1|[-> H1]] [H2|[-> H2]].
  - left. lia.
  - by left.
  - by left.
  - right. split; [done|]. by apply (IH b).
Qed.

Lemma sort_Strings_sorted l : StronglySorted str_le (sort_Strings l).
Proof. apply StronglySorted_merge_sort; [apply str_le_trans|apply str_le_total]. Qed.

Lemma sort_Strings_perm l : sort_Strings l ≡ₚ l.
Proof. apply merge_sort_Permutation. Qed.

(** ** Resolution *)

Section Resolve.
Context `{MapWalk}.

(** The first key, in order, whose value is a map with an entry [name]. *)
Fixpoint first_map (data : row) (name : string) (keys : list string) : option any :=
  match keys with
  | [] => None
  | k :: keys' =>
    match (v ← data !! k; m ← as_map v; m !! name) with
    | Some val => Some val
    | None => first_map data name keys'
    end
  end.

Definition trigger_param (data : row) (name : string) : option any :=
  t ← data !! "trigger"; m ← as_map t; p ← m !! "params"; q ← as_map p; q !! name.

Definition step_param (data : row) (name : string) : option any :=
  p ← data !! "params"; q ← as_map p; q !! name.

(** The body of the loop over the matches. *)
Definition resolve_param (data : row) (name : string) : option any :=
  match step_param data name with
  | Some val => Some val
  | None =>
    match trigger_param data name with
    | Some val => Some val
    | None =>
      match first_map data name (sort_Strings (walk data).*1) with
      | Some val => Some val
      | None => data !! name
      end
    end
  end.

Definition extractSQLParams (sql : string) (data : row) : row :=
  foldl (fun params name =>
    match resolve_param data name with
    | Some val => <[name := val]> params
    | None => params
    end) ∅ (find_params sql).

Lemma extract_fold data l (m0 : row) name :
  foldl (fun params name => match resolve_param data name with
    | Some val => <[name := val]> params | None => params end) m0 l !! name =
  if decide (name ∈ l) then match resolve_param data name with Some v => Some v | None => m0 !! name end
  else m0 !! name.
Proof.
  revert m0. induction l as [|x l IH]; intros m0; cbn [foldl]; [done|]. rewrite IH.
  destruct (decide (name = x)) as [->|Hne].
  - rewrite (decide_True (P := x ∈ x :: l)) by left.
    destruct (resolve_param data x); case_decide; rewrite ?lookup_insert_eq; done.
  - assert (name ∈ x :: l <-> name ∈ l) as Hx by (rewrite elem_of_cons; naive_solver).
    destruct (decide (name ∈ l)); destruct (decide (name ∈ x :: l)); try tauto;
      destruct (resolve_param data x); rewrite ?lookup_insert_ne by done; done.
Qed.

(** parameter binding.  The map passed to the database has an entry for a name
    exactly when the statement has an [@name] and the name resolves, and then its
    value is the one the documented order gives: step parameters before request
    parameters before fields of maps in the data before keys of the data.  In
    particular a request parameter cannot be shadowed by anything but a step
    parameter. *)
Theorem extractSQLParams_spec sql data name :
  (extractSQLParams sql data !! name =
     if decide (name ∈ find_params sql) then resolve_param data name else None) /\
  (forall v, step_param data name = None -> trigger_param data name = Some v ->
     name ∈ find_params sql -> extractSQLParams sql data !! name = Some v).
Proof.
  assert (extractSQLParams sql data !! name =
    if decide (name ∈ find_params sql) then resolve_param data name else None) as E.
  { unfold extractSQLParams. rewrite extract_fold, lookup_empty.
    case_decide; [|done]. by destruct (resolve_param data name). }
  split; [done|]. intros v Hs Ht Hin. rewrite E, decide_True by done.
  unfold resolve_param. by rewrite Hs, Ht.
Qed.

(** The maps searched third are those of the whole data, in the order of their
    keys. *)
Lemma first_map_spec data name keys v : first_map data name keys = Some v <->
  exists pre k m post, keys = pre ++ k :: post /\ data !! k = Some (AMap m) /\ m !! name = Some v /\
    Forall (fun k' => forall m', data !! k' = Some (AMap m') -> m' !! name = None) pre.
Proof.
  induction keys as [|k keys IH]; simpl.
  { split; [done|]. intros (pre & k & m & post & E & _). by destruct pre. }
  destruct (v' ← data !! k; m ← as_map v'; m !! name) as [val|] eqn:E.
  - apply bind_Some in E as (v' & Hk & (m & Hm & Hv)%bind_Some). assert (v' = AMap m) as -> by (destruct v'; by simplify_eq/=).
    split.
    + intros [= <-]. exists [], k, m, keys. by split_and!.
    + intros (pre & k' & m' & post & Ek & Hk' & Hv' & Hpre). destruct pre as [|x pre]; simplify_eq/=; [congruence|].
      apply Forall_cons in Hpre as [Hx _]. specialize (Hx _ Hk). congruence.
  - assert (forall m', data !! k = Some (AMap m') -> m' !! name = None) as Hk.
    { intros m' Hk. rewrite Hk in E. done. }
    rewrite IH. split.
    + intros (pre & k' & m' & post & -> & ? & ? & ?). exists (k :: pre), k', m', post.
      split_and!; try done. by constructor.
    + intros (pre & k' & m' & post & Ek & Hk' & Hv' & Hpre).
      destruct pre as [|x pre]; simplify_eq/=; [apply Hk in Hk'; congruence|].
      apply Forall_cons in Hpre as [_ Hpre]. by exists pre, k', m', post.
Qed.
End Resolve.

(** ** Blocks: what an iteration variable's fields resolve to *)

Module Sample.
#[local] Existing Instance sample_walk.
#[local] Instance no_funcs : ExprFuncs := {| exprFuncs := ∅ |}.

Definition ctx : Context :=
  NewContext {| wc_Name := "import_users"; wc_TimeoutSec := 0; wc_Conditions := ∅; wc_Triggers := [];
                wc_Steps := [] |}
    {| td_Type := "http"; td_Params := ∅; td_Headers := ∅; td_Cookies := ∅; td_ClientIP := "10.0.0.1";
       td_Method := "POST"; td_Path := "/users"; td_ScheduleTime := 0; td_CronExpr := "" |}
    "r1" None 0.

(** The data of a block that iterates over objects with a [method] and a [name],
    as [iterate: as:] variable [var]. *)
Definition iteration_data (var : string) : row :=
  block_BuildTemplateData (NewBlockContext ctx "each"
    (AMap (list_to_map [("method", AStr "sso"); ("name", AStr "alice")])) 0 1) var.

(** inside a block, a field of the iteration variable is shadowed by a field of
    the same name of the trigger, the workflow, the parent or the steps whenever
    that map's key sorts before the variable's: [@method] binds to the HTTP method
    of the request and, for a variable named after [workflow], [@name] binds to the
    name of the workflow, not to the item's field. *)
Theorem iteration_field_shadowed :
  extractSQLParams "INSERT INTO users VALUES (@name, @method)" (iteration_data "user")
    !! "method" = Some (AStr "POST") /\
  extractSQLParams "INSERT INTO users VALUES (@name, @method)" (iteration_data "xuser")
    !! "name" = Some (AStr "import_users") /\
  extractSQLParams "INSERT INTO users VALUES (@name, @method)" (iteration_data "item")
    !! "method" = Some (AStr "sso").
Proof. by vm_compute. Qed.
End Sample.
