(* ===== verification/Numbers.v ===== *)
(** * Numbers as text and as [float64] (strconv, math)

    [ParseInt] and [Atoi] in base 10, [ParseBool]; a [float64] as an IEEE datum,
    with the integer it denotes.  Decimal floating-point parsing and printing are
    parameters.  [parseInt64] of workflow/executor.go. *)
From S2P Require Import Prelude GoStrings GoValues.
From Stdlib Require Import SpecFloat.

Class FloatText := {
  ParseFloat : string -> result spec_float;     (* strconv.ParseFloat(s, 64) *)
  FormatFloat : spec_float -> string;           (* strconv.FormatFloat(f, 'f', -1, 64) *)
}.

(** ** Integers *)

Definition digit_value (c : ascii) : option Z :=
  if is_digit c then Some (Z.of_N (byte c) - 48) else None.

Fixpoint digits_value (s : string) (acc : Z) : option Z :=
  match s with
  | EmptyString => Some acc
  | String c r => match digit_value c with Some d => digits_value r (acc * 10 + d) | None => None end
  end.

(** The magnitude: at least one digit, digits only. *)
Definition ParseUint (s : string) : option Z :=
  match s with EmptyString => None | _ => digits_value s 0 end.

(** [strconv.ParseInt(s, 10, 64)]; syntax and range errors are both [None]. *)
Definition ParseInt (s : string) : option Z :=
  match s with
  | String c r =>
    if decide (c = "-"%char) then
      z ← ParseUint r; if decide (z <= two63) then Some (- z) else None
    else
      z ← ParseUint (if decide (c = "+"%char) then r else s);
      if decide (z < two63) then Some z else None
  | EmptyString => None
  end.

(** [strconv.Atoi] on a 64-bit platform. *)
Definition Atoi (s : string) : option Z := ParseInt s.

(** Why [strconv.Atoi] refuses a text. *)
Definition atoi_reason (s : string) : string :=
  let digits := match s with
    | String c r => if decide (c = "-"%char \/ c = "+"%char) then r else s
    | EmptyString => "" end in
  match ParseUint digits with Some _ => "value out of range" | None => "invalid syntax" end.

Definition ParseBool (s : string) : option bool :=
  if decide (s ∈ ["1"; "t"; "T"; "TRUE"; "true"; "True"]) then Some true
  else if decide (s ∈ ["0"; "f"; "F"; "FALSE"; "false"; "False"]) then Some false
  else None.

(** ** Floats *)

(** The integer a finite float denotes, if it denotes one: [f == math.Trunc(f)]. *)
Definition float_integral (f : spec_float) : option Z :=
  let signed (s : bool) (z : Z) := if s then - z else z in
  match f with
  | S754_zero _ => Some 0
  | S754_finite s m e =>
    if decide (0 <= e) then Some (signed s (Z.pos m * 2 ^ e))
    else if decide (Z.pos m `mod` 2 ^ (- e) = 0) then Some (signed s (Z.pos m / 2 ^ (- e)))
    else None
  | _ => None
  end.

(** [f >= 1 << 63 || f < -(1 << 63)]; every comparison with NaN is false. *)
Definition float_out_of_int64 (f : spec_float) : bool :=
  match f with
  | S754_infinity _ => true
  | S754_finite s m e =>
    (* the magnitude and 2^63, both scaled by 2^-e if e is negative *)
    let mag := if decide (0 <= e) then Z.pos m * 2 ^ e else Z.pos m in
    let lim := if decide (0 <= e) then two63 else two63 * 2 ^ (- e) in
    if s then bool_decide (mag > lim) else bool_decide (mag >= lim)
  | _ => false
  end.

(** [int(f)] and [int64(f)]: towards zero; outside the range the language leaves
    the result to the implementation, here a parameter. *)
Class FloatToInt := {
  float_overflow : spec_float -> Z;
  float_overflow_range : forall f, - two63 <= float_overflow f < two63;
}.

Definition float_to_int `{FloatToInt} (f : spec_float) : Z :=
  if float_out_of_int64 f then float_overflow f
  else match f with
  | S754_finite s m e =>
    let mag := if decide (0 <= e) then Z.pos m * 2 ^ e else Z.pos m / 2 ^ (- e) in
    if s then - mag else mag
  | S754_nan => float_overflow f
  | _ => 0
  end.

(** ** [parseInt64] (workflow/executor.go) *)

Definition parseInt64 `{FloatText} (s : string) : result Z :=
  let s := TrimSpace s in
  match ParseInt s with
  | Some i => Ok i
  | None =>
    if negb (Contains s ".") then Err (Errorf ("not a valid integer: " +:+ s))
    else match ParseFloat s with
    | Ok f =>
      if float_out_of_int64 f then Err (Errorf ("value " +:+ s +:+ " out of int64 range"))
      else match float_integral f with
      | Some z => Ok z
      | None => Err (Errorf ("not a valid integer: " +:+ s))
      end
    | Err _ => Err (Errorf ("not a valid integer: " +:+ s))
    end
  end.

(** ** Lemmas *)

Lemma digits_value_app a b acc : digits_value (a +:+ b) acc = z ← digits_value a acc; digits_value b z.
Proof. revert acc. induction a as [|c a IH]; intros acc; simpl; [done|]. by destruct (digit_value c). Qed.

Lemma digits_value_nonneg s acc z : 0 <= acc -> digits_value s acc = Some z -> 0 <= z.
Proof.
  revert acc. induction s as [|c s IH]; intros acc Hacc; simpl; [by intros [= <-]|].
  unfold digit_value. destruct (is_digit c) eqn:E; [|done]. apply IH.
  apply byte_range in E. lia.
Qed.

Lemma ParseInt_range s z : ParseInt s = Some z -> - two63 <= z < two63.
Proof.
  assert (forall r z, ParseUint r = Some z -> 0 <= z) as Hnn.
  { intros [|c r] z'; [done|]. by apply digits_value_nonneg. }
  destruct s as [|c r]; [done|]. unfold ParseInt. case_decide.
  - intros (z' & Hz%Hnn & E)%bind_Some. case_decide; simplify_eq. unfold two63 in *. lia.
  - intros (z' & Hz%Hnn & E)%bind_Some. case_decide; simplify_eq. unfold two63 in *. lia.
Qed.

Lemma float_in_range f z : float_out_of_int64 f = false -> float_integral f = Some z -> - two63 <= z < two63.
Proof.
  unfold float_out_of_int64, float_integral. destruct f as [s|s| |s m e]; try done.
  { intros _ [= <-]. done. }
  assert (0 < 2 ^ (- e) \/ 0 <= e) as Hpow.
  { destruct (decide (0 <= e)); [by right|left]. apply Z.pow_pos_nonneg; lia. }
  case_decide as He.
  - destruct s; rewrite bool_decide_eq_false; intros Hr [= <-];
      assert (0 < Z.pos m * 2 ^ e) by (apply Z.mul_pos_pos; [lia|apply Z.pow_pos_nonneg; lia]); lia.
  - case_decide as Hm; [|done]. destruct Hpow as [Hpow|]; [|lia].
    pose proof (Z.div_mod (Z.pos m) (2 ^ (- e)) ltac:(lia)) as Hdm. rewrite Hm, Z.add_0_r in Hdm.
    destruct s; rewrite bool_decide_eq_false; intros Hr [= <-]; rewrite Hdm in Hr;
      set (q := Z.pos m / 2 ^ (- e)) in *; clearbody q; unfold two63 in *; nia.
Qed.

Lemma float_to_int_range `{FloatToInt} f : - two63 <= float_to_int f < two63.
Proof.
  unfold float_to_int. destruct (float_out_of_int64 f) eqn:E; [apply float_overflow_range|].
  destruct f as [s|s| |s m e]; [done|done|apply float_overflow_range|]. unfold float_out_of_int64 in E.
  assert (0 < 2 ^ e \/ e < 0) by (destruct (decide (0 <= e)); [left; apply Z.pow_pos_nonneg; lia|right; lia]).
  assert (0 < 2 ^ (- e) \/ 0 <= e) by (destruct (decide (0 <= e)); [right; lia|left; apply Z.pow_pos_nonneg; lia]).
  case_decide as He.
  - destruct s; apply bool_decide_eq_false in E; assert (0 < Z.pos m * 2 ^ e) by nia; lia.
  - assert (0 <= Z.pos m / 2 ^ (- e)) by (apply Z.div_pos; lia).
    pose proof (Z.mul_div_le (Z.pos m) (2 ^ (- e)) ltac:(lia)) as Hle.
    destruct s; apply bool_decide_eq_false in E; set (q := Z.pos m / 2 ^ (- e)) in *; clearbody q; unfold two63 in *; nia.
Qed.

(** Whatever [parseInt64] accepts is an [int64]. *)
Lemma parseInt64_range `{FloatText} s z : parseInt64 s = Ok z -> - two63 <= z < two63.
Proof.
  unfold parseInt64. destruct (ParseInt (TrimSpace s)) as [i|] eqn:E.
  - intros [= <-]. by apply ParseInt_range in E.
  - case_match; [done|]. destruct (ParseFloat _) as [f|]; [|done].
    destruct (float_out_of_int64 f) eqn:Ef; [done|].
    destruct (float_integral f) as [z'|] eqn:Ez; [|done]. intros [= <-]. by apply (float_in_range f).
Qed.

(** Printing and parsing an [int64] gives it back. *)
Lemma pretty_char_value x : (x < 10)%N -> digit_value (pretty_N_char x) = Some (Z.of_N x).
Proof.
  intros Hx. unfold digit_value. rewrite pretty_N_char_digit. f_equal.
  destruct x as [|p]; [done|]. unfold pretty_N_char. repeat (destruct p as [p|p|]; try done; try lia).
Qed.

Lemma digits_value_pretty (n : N) acc s : (0 < n)%N -> exists k,
  digits_value (pretty_N_go n s) acc = digits_value s (acc * 10 ^ k + Z.of_N n) /\ 0 <= k.
Proof.
  revert acc s. induction (N.lt_wf_0 n) as [n _ IH]. intros acc s Hn.
  rewrite pretty_N_go_step by done. pose proof (N.div_mod n 10 ltac:(lia)) as Hdm.
  pose proof (N.mod_upper_bound n 10 ltac:(lia)) as Hm.
  assert (forall a, digits_value (String (pretty_N_char (n `mod` 10)) s) a =
    digits_value s (a * 10 + Z.of_N (n `mod` 10))) as Hd.
  { intros a. simpl. by rewrite pretty_char_value. }
  destruct (decide (0 < n / 10)%N) as [Hq|Hq].
  - destruct (IH (n / 10)%N (N.div_lt n 10 Hn ltac:(lia)) acc (String (pretty_N_char (n `mod` 10)) s) Hq)
      as (k & -> & Hk). exists (k + 1). split; [|lia]. rewrite Hd. f_equal.
    rewrite Z.pow_add_r by lia. lia.
  - assert (n / 10 = 0)%N as -> by lia. rewrite pretty_N_go_0, Hd. exists 1. split; [|lia]. f_equal. lia.
Qed.

Lemma ParseUint_pretty (n : N) : (0 < n)%N -> ParseUint (pretty n) = Some (Z.of_N n).
Proof.
  intros Hn. unfold pretty, pretty_N. rewrite decide_False by lia.
  destruct (digits_value_pretty n 0 "" Hn) as (k & E & _). rewrite Z.mul_0_l, Z.add_0_l in E.
  unfold ParseUint. destruct (pretty_N_go n "") eqn:Es; [|done].
  exfalso. simpl in E. injection E. lia.
Qed.

Lemma pretty_head (n : N) : (0 < n)%N -> exists c r, pretty n = String c r /\ is_digit c = true.
Proof.
  intros Hn. pose proof (pretty_N_digits n) as Hd. pose proof (ParseUint_pretty n Hn) as Hp.
  destruct (pretty n) as [|c r]; [done|]. exists c, r. simpl in Hd. bools. done.
Qed.

Lemma ParseInt_pretty (z : Z) : - two63 <= z < two63 -> ParseInt (pretty z) = Some z.
Proof.
  intros Hz. destruct z as [|p|p]; [done| |].
  - destruct (pretty_head (Npos p)) as (c & r & E & Hc); [lia|].
    pose proof (ParseUint_pretty (Npos p) ltac:(lia)) as Hp.
    change (pretty (Z.pos p)) with (pretty (Npos p)). rewrite E in *. unfold ParseInt.
    rewrite decide_False by (intros ->; done). rewrite decide_False by (intros ->; done).
    rewrite Hp. simpl. by rewrite decide_True by (simpl in Hz; lia).
  - change (pretty (Z.neg p)) with ("-" +:+ pretty (Npos p)). unfold ParseInt. simpl.
    rewrite (ParseUint_pretty (Npos p)) by lia. simpl. by rewrite decide_True by (unfold two63 in *; lia).
Qed.
