(* ===== verification/Params.v ===== *)
(** * Request parameters (types/params.go)

    Conversion of parameter values, given as text or as decoded JSON, to the type a
    trigger declares for them. *)
From S2P Require Import Prelude GoStrings GoValues Numbers.
From Stdlib Require Import SpecFloat.

Definition ValidParamTypes : list string :=
  ["string"; "int"; "integer"; "float"; "double"; "bool"; "boolean"; "datetime"; "date"; "json";
   "int[]"; "string[]"; "float[]"; "bool[]"].

Definition IsArrayType (typeName : string) : bool :=
  bool_decide (2 < String.length typeName)%nat && HasSuffix typeName "[]".

Definition ArrayBaseType (typeName : string) : string :=
  if IsArrayType typeName then str_take (String.length typeName - 2) typeName else typeName.

Section Convert.
Context `{UnicodeTables, FloatText, FloatToInt, GoText}.

(** *** Array elements *)

Definition elem_error {A} (i : nat) (kind : string) (elem : any) : result A :=
  Err (Errorf ("array element " +:+ pretty i +:+ ": expected " +:+ kind +:+ ", got " +:+ type_name elem)).

Definition validate_element (baseType : string) (i : nat) (elem : any) : result any :=
  if decide (baseType = "int" \/ baseType = "integer") then
    match elem with AFloat f => Ok (AInt (float_to_int f)) | _ => elem_error i "integer" elem end
  else if decide (baseType = "float" \/ baseType = "double") then
    match elem with AFloat f => Ok (AFloat f) | _ => elem_error i "number" elem end
  else if decide (baseType = "bool" \/ baseType = "boolean") then
    match elem with ABool b => Ok (ABool b) | _ => elem_error i "boolean" elem end
  else if decide (baseType = "string") then
    match elem with AStr s => Ok (AStr s) | _ => elem_error i "string" elem end
  else Ok elem.

Fixpoint validate_elements (baseType : string) (i : nat) (arr : list any) : result (list any) :=
  match arr with
  | [] => Ok []
  | elem :: arr' =>
    try v := validate_element baseType i elem in
    try r := validate_elements baseType (S i) arr' in Ok (v :: r)
  end.

Definition ValidateArrayElements (arr : list any) (baseType : string) : result (list any) :=
  validate_elements baseType 0 arr.

(** [json.Unmarshal(text, &arr)] for [arr] of type [[]any]: null leaves it nil. *)
Definition json_kind (v : any) : string :=
  match v with ABool _ => "bool" | AFloat _ => "number" | AStr _ => "string" | _ => "object" end.

Definition unmarshal_array (text : string) : result (list any) :=
  try v := json_Unmarshal text in
  match v with
  | AList l => Ok l
  | ANil => Ok []
  | v => Err (Errorf ("json: cannot unmarshal " +:+ json_kind v +:+ " into Go value of type []interface {}"))
  end.

Definition marshal_array (arr : list any) : result any :=
  match json_Marshal (AList arr) with
  | Ok s => Ok (AStr s)
  | Err e => Err (Wrapf "failed to serialize array: " e "")
  end.

(** *** Dates *)

Definition formats : list string :=
  ["2006-01-02T15:04:05Z07:00"; "2006-01-02T15:04:05"; "2006-01-02 15:04:05"; "2006-01-02"].

Fixpoint parse_time (fs : list string) (value : string) : result any :=
  match fs with
  | [] => Err (Errorf "invalid datetime format")
  | f :: fs' => match time_Parse f value with Ok t => Ok (ATime t) | Err _ => parse_time fs' value end
  end.

(** *** Scalars as text *)

Definition atoi_value (value : string) : result any :=
  match Atoi value with
  | Some z => Ok (AInt z)
  | None => Err (Errorf ("strconv.Atoi: parsing " +:+ Quote value +:+ ": " +:+ atoi_reason value))
  end.

Definition bool_value (value : string) : result any :=
  match ParseBool value with
  | Some b => Ok (ABool b)
  | None => Err (Errorf ("strconv.ParseBool: parsing " +:+ Quote value +:+ ": invalid syntax"))
  end.

Definition float_value (value : string) : result any :=
  try f := ParseFloat value in Ok (AFloat f).

Definition ConvertValue (value typeName : string) : result any :=
  let lowerType := ToLower typeName in
  if decide (lowerType = "json") then
    match json_Unmarshal value with
    | Err e => Err (Wrapf "invalid JSON: " e "")
    | Ok parsed =>
      match json_Marshal parsed with
      | Err e => Err (Wrapf "failed to serialize JSON: " e "")
      | Ok s => Ok (AStr s)
      end
    end
  else if IsArrayType lowerType then
    match unmarshal_array value with
    | Err e => Err (Wrapf "expected JSON array: " e "")
    | Ok arr => try validated := ValidateArrayElements arr (ArrayBaseType lowerType) in marshal_array validated
    end
  else if decide (lowerType = "int" \/ lowerType = "integer") then atoi_value value
  else if decide (lowerType = "bool" \/ lowerType = "boolean") then bool_value value
  else if decide (lowerType = "datetime" \/ lowerType = "date") then parse_time formats value
  else if decide (lowerType = "float" \/ lowerType = "double") then float_value value
  else Ok (AStr value).

(** *** Decoded JSON *)

Definition expected {A} (kind : string) (v : any) : result A :=
  Err (Errorf ("expected " +:+ kind +:+ ", got " +:+ type_name v)).

Definition FormatBool (b : bool) : string := if b then "true" else "false".

Definition ConvertJSONValue (v : any) (typeName : string) : result any :=
  let lowerType := ToLower typeName in
  if decide (lowerType = "json") then Ok v
  else if IsArrayType lowerType then
    match v with
    | AList arr => try validated := ValidateArrayElements arr (ArrayBaseType lowerType) in marshal_array validated
    | _ => expected "array" v
    end
  else if decide (lowerType = "int" \/ lowerType = "integer") then
    match v with AFloat f => Ok (AInt (float_to_int f)) | AStr s => atoi_value s | _ => expected "integer" v end
  else if decide (lowerType = "float" \/ lowerType = "double") then
    match v with AFloat f => Ok (AFloat f) | AStr s => float_value s | _ => expected "number" v end
  else if decide (lowerType = "bool" \/ lowerType = "boolean") then
    match v with ABool b => Ok (ABool b) | AStr s => bool_value s | _ => expected "boolean" v end
  else if decide (lowerType = "datetime" \/ lowerType = "date") then
    match v with AStr s => parse_time formats s | _ => expected "string for datetime" v end
  else match v with
  | AStr s => Ok (AStr s)
  | AFloat f => Ok (AStr (FormatFloat f))
  | ABool b => Ok (AStr (FormatBool b))
  | ANil => Ok (AStr "")
  | _ => Ok (AStr (Sprint_v v))
  end.

(** ** What a converted value is *)

Definition elem_typed (baseType : string) (v : any) : Prop :=
  if decide (baseType = "int" \/ baseType = "integer") then exists z, v = AInt z /\ - two63 <= z < two63
  else if decide (baseType = "float" \/ baseType = "double") then exists f, v = AFloat f
  else if decide (baseType = "bool" \/ baseType = "boolean") then exists b, v = ABool b
  else if decide (baseType = "string") then exists s, v = AStr s
  else True.

(** The values of a type: JSON parameters and arrays are passed on as JSON text. *)
Definition value_typed (lowerType : string) (v : any) : Prop :=
  if decide (lowerType = "json") then exists s p, v = AStr s /\ json_Marshal p = Ok s
  else if IsArrayType lowerType then
    exists s l, v = AStr s /\ json_Marshal (AList l) = Ok s /\ Forall (elem_typed (ArrayBaseType lowerType)) l
  else if decide (lowerType = "int" \/ lowerType = "integer") then exists z, v = AInt z /\ - two63 <= z < two63
  else if decide (lowerType = "bool" \/ lowerType = "boolean") then exists b, v = ABool b
  else if decide (lowerType = "datetime" \/ lowerType = "date") then exists t, v = ATime t
  else if decide (lowerType = "float" \/ lowerType = "double") then exists f, v = AFloat f
  else exists s, v = AStr s.

Lemma validate_element_typed baseType i elem v :
  validate_element baseType i elem = Ok v -> elem_typed baseType v.
Proof.
  unfold validate_element, elem_typed, elem_error. repeat case_decide; destruct elem; try done; intros [= <-]; eauto.
  eexists. split; [done|]. apply float_to_int_range.
Qed.

Lemma validate_elements_typed baseType i arr l :
  validate_elements baseType i arr = Ok l -> Forall (elem_typed baseType) l /\ List.length l = List.length arr.
Proof.
  revert i l. induction arr as [|elem arr IH]; intros i l; simpl; [by intros [= <-]|].
  destruct (validate_element baseType i elem) as [v|] eqn:Ev; simpl; [|done].
  destruct (validate_elements baseType (S i) arr) as [r|] eqn:Er; simpl; [|done]. intros [= <-].
  apply IH in Er as [Hr El]. split; [|simpl; by rewrite El]. constructor; [by eapply validate_element_typed|done].
Qed.

Lemma array_typed arr baseType v :
  (try validated := ValidateArrayElements arr baseType in marshal_array validated) = Ok v ->
  exists s l, v = AStr s /\ json_Marshal (AList l) = Ok s /\ Forall (elem_typed baseType) l.
Proof.
  unfold ValidateArrayElements, marshal_array. destruct (validate_elements _ _ _) as [l|] eqn:El; simpl; [|done].
  destruct (json_Marshal (AList l)) as [s|] eqn:Es; [|done]. intros [= <-].
  exists s, l. split_and!; [done|done|]. by apply validate_elements_typed in El as [? _].
Qed.

Lemma atoi_typed value v : atoi_value value = Ok v -> exists z, v = AInt z /\ - two63 <= z < two63.
Proof.
  unfold atoi_value, Atoi. destruct (ParseInt value) as [z|] eqn:E; [|done]. intros [= <-].
  exists z. split; [done|]. by apply ParseInt_range in E.
Qed.

Lemma bool_typed value v : bool_value value = Ok v -> exists b, v = ABool b.
Proof. unfold bool_value. destruct (ParseBool value) as [b|]; [|done]. intros [= <-]. by exists b. Qed.

Lemma float_typed value v : float_value value = Ok v -> exists f, v = AFloat f.
Proof. unfold float_value. destruct (ParseFloat value) as [f|]; [|done]. intros [= <-]. by exists f. Qed.

Lemma time_typed fs value v : parse_time fs value = Ok v -> exists t, v = ATime t.
Proof.
  induction fs as [|f fs IH]; simpl; [done|]. destruct (time_Parse f value) as [t|]; [|done].
  intros [= <-]. by exists t.
Qed.

(** C34: parameters have the type they are declared with.  Whatever text or decoded
    JSON value is accepted for a declared type, the converted value is one of that
    type: an integer in the range of int, a boolean, a time, a float, the JSON text
    of an array all of whose elements have the base type, or a string.  A JSON value
    of type json is passed on unchanged instead of as its text. *)
Theorem converted_typed (typeName : string) (v : any) :
  (forall value, ConvertValue value typeName = Ok v -> value_typed (ToLower typeName) v) /\
  (forall j, ConvertJSONValue j typeName = Ok v ->
     if decide (ToLower typeName = "json") then v = j else value_typed (ToLower typeName) v).
Proof.
  unfold ConvertValue, ConvertJSONValue, value_typed. cbv zeta. generalize (ToLower typeName) as lt. intros lt. split.
  - intros value. case_decide.
    { destruct (json_Unmarshal value) as [p|]; [|done]. destruct (json_Marshal p) as [s|] eqn:E; [|done].
      intros [= <-]. by exists s, p. }
    destruct (IsArrayType lt).
    { destruct (unmarshal_array value); [apply array_typed|done]. }
    repeat case_decide; [apply atoi_typed|apply bool_typed|apply time_typed|apply float_typed|].
    intros [= <-]. by eexists.
  - intros j. case_decide; [by intros [= <-]|]. destruct (IsArrayType lt).
    { destruct j; try done. apply array_typed. }
    case_decide. { destruct j; try done; [|apply atoi_typed]. intros [= <-]. eexists. split; [done|]. apply float_to_int_range. }
    case_decide as Hf.
    { intros E. assert (exists f, v = AFloat f) as Hv.
      { destruct j; try done; [injection E as <-; eauto|by eapply float_typed]. }
      repeat case_decide; naive_solver. }
    repeat case_decide; try (by destruct Hf).
    + destruct j; try done; [intros [= <-]; eauto|apply bool_typed].
    + destruct j; try done. apply time_typed.
    + destruct j; intros [= <-]; by eexists.
Qed.

(** a JSON string is converted like the same text in the query string, for every
    type but json and arrays. *)
Theorem json_string_like_text (typeName text : string)
    (Hscalar : ToLower typeName <> "json" /\ IsArrayType (ToLower typeName) = false) :
  ConvertJSONValue (AStr text) typeName = ConvertValue text typeName.
Proof.
  destruct Hscalar as [Hj Ha]. unfold ConvertValue, ConvertJSONValue. rewrite Ha. cbv zeta.
  rewrite !(decide_False (P := ToLower typeName = "json")) by done.
  generalize dependent (ToLower typeName). intros lt. intros. repeat case_decide; naive_solver.
Qed.
End Convert.

(** ** Examples *)

Module Sample.
#[local] Existing Instance sample_tables.
#[local] Instance sample_floats : FloatText :=
  {| ParseFloat := fun s => Err (Errorf s); FormatFloat := fun _ => "" |}.
#[local] Instance sample_gotext : GoText.
Proof.
  refine {| json_Unmarshal := fun s => Err (Errorf s); json_Marshal := fun _ => Ok "json";
    json_DecodeObject := sample_Decode; ParseForm := sample_ParseForm (fun _ => ∅);
    time_Parse := fun _ s => Err (Errorf s); Sprint_v := type_name |}; [by left|by right].
Defined.
#[local] Instance sample_toint : FloatToInt.
Proof. refine {| float_overflow := fun _ => 0 |}. by intros. Defined.

(** Three and a half: refused as text, truncated as a JSON number. *)
Example fraction_truncated :
  (is_ok (ConvertValue "3.5" "int"), ConvertJSONValue (AFloat (S754_finite false 7 (-1))) "int") = (false, Ok (AInt 3)).
Proof. by vm_compute. Qed.

(** An empty text is no integer: an optional parameter of type int without a default
    cannot be left out. *)
Example empty_is_no_int : is_ok (ConvertValue "" "int") = false.
Proof. by vm_compute. Qed.

Lemma json_string_like_text_witness : ConvertJSONValue (AStr "12") "Int" = ConvertValue "12" "Int".
Proof. apply json_string_like_text. by vm_compute. Defined.
End Sample.
