(* ===== verification/Expr.v ===== *)
(** * Condition expressions and aliases (workflow/compile.go)

    The expression language is expr-lang's; its parser and compiler are
    parameters.  The visitors that compile.go runs over the syntax tree are
    modelled on a tree with the node types they look at: replacing aliases,
    collecting alias and step references, finding unsafe divisions; and so is the
    topological sort that orders the aliases. *)
From S2P Require Import Prelude GoStrings GoValues.

(** ** Syntax trees *)

(** [ast.Node]; [NOther] is any other node with its children in the order
    [ast.Walk] visits them.  A float literal only matters through being zero. *)
Inductive node : Type :=
| NIdent (name : string)
| NString (value : string)
| NInteger (value : Z)
| NFloat (is_zero : bool)
| NMember (obj prop : node)
| NBinary (op : string) (left right : node)
| NOther (kind : string) (children : list node).

(** The library: the parser and the compiler of a patched tree. *)
Class ExprLang := {
  program : Type;
  parser_Parse : string -> result node;
  expr_compile : node -> bool -> result program;   (* AllowUndefinedVariables; AsBool *)
}.

(** [ast.Walk] visits children before the node itself: the nodes in that order. *)
Fixpoint visits (n : node) : list node :=
  (match n with
   | NMember a b => visits a ++ visits b
   | NBinary _ a b => visits a ++ visits b
   | NOther _ l => flat_map visits l
   | _ => []
   end) ++ [n].

(** ** Visitors *)

(** [aliasPatcher]: an identifier that names an alias is replaced by its tree,
    which is not walked again. *)
Fixpoint patch (aliases : gmap string node) (n : node) : node :=
  match n with
  | NIdent x => default n (aliases !! x)
  | NMember a b => NMember (patch aliases a) (patch aliases b)
  | NBinary op a b => NBinary op (patch aliases a) (patch aliases b)
  | NOther k l => NOther k (map (patch aliases) l)
  | _ => n
  end.

Definition ident_of (n : node) : option string := match n with NIdent x => Some x | _ => None end.

(** The identifiers of a tree in the order of the walk. *)
Definition idents (n : node) : list string := omap ident_of (visits n).

(** Collecting without repetition ([seen]). *)
Fixpoint collect (seen : list string) (l : list string) : list string :=
  match l with
  | [] => []
  | x :: l' => if decide (x ∈ seen) then collect seen l' else x :: collect (x :: seen) l'
  end.

(** [aliasRefFinder] *)
Definition alias_refs (aliasNames : gset string) (n : node) : list string :=
  collect [] (filter (fun x => x ∈ aliasNames) (idents n)).

Definition extractAliasRefs `{ExprLang} (exprStr : string) (aliasNames : gset string) : result (list string) :=
  try tree := parser_Parse exprStr in Ok (alias_refs aliasNames tree).

(** [stepRefFinder]: [steps.foo] and [steps["foo"]]. *)
Definition step_ref (n : node) : option string :=
  match n with
  | NMember (NIdent "steps") (NString s) => if decide (s = "") then None else Some s
  | NMember (NIdent "steps") (NIdent s) => if decide (s = "") then None else Some s
  | _ => None
  end.

Definition step_refs (n : node) : list string := collect [] (omap step_ref (visits n)).

Definition ExtractStepRefs `{ExprLang} (exprStr : string) : result (list string) :=
  try tree := parser_Parse exprStr in Ok (step_refs tree).

(** [divisionValidator] *)
Definition division_error (n : node) : option string :=
  match n with
  | NBinary "/" _ (NInteger z) => if decide (z = 0) then Some "division by zero" else None
  | NBinary "/" _ (NFloat z) => if z then Some "division by zero" else None
  | NBinary "/" _ _ =>
      Some "dynamic divisor in division - use divOr(a, b, fallback) instead of a / b"
  | _ => None
  end.

Definition ValidateDivisions `{ExprLang} (exprStr : string) : option error :=
  match parser_Parse exprStr with
  | Err e => Some e
  | Ok tree =>
    match omap division_error (visits tree) with
    | e :: _ => Some (Errorf e)
    | [] => None
    end
  end.

(** ** Compiling expressions *)

Section Compile.
Context `{ExprLang}.

Definition compileExprWithType (exprStr : string) (asBool : bool) : result program :=
  try tree := parser_Parse exprStr in expr_compile tree asBool.

Definition compileCondition (exprStr : string) : result program := compileExprWithType exprStr true.
Definition compileExpression (exprStr : string) : result program := compileExprWithType exprStr false.

Definition compileConditionWithAliases (exprStr : string) (aliasASTs : gmap string node)
    : result program :=
  try tree := parser_Parse exprStr in
  expr_compile (if decide (0 < size aliasASTs)%nat then patch aliasASTs tree else tree) true.
End Compile.

(** ** The topological sort *)

Section Sort.
Context `{MapWalk}.

Definition names (m : gmap string string) : gset string := dom m.

(** [deps[name] = refs] for every alias, in the order of the map walk; the first
    source that does not parse is the error. *)
Fixpoint build_deps `{ExprLang} `{UnicodeTables} (aliasNames : gset string) (l : list (string * string))
    (deps : gmap string (list string)) : result (gmap string (list string)) :=
  match l with
  | [] => Ok deps
  | (name, source) :: l' =>
    match extractAliasRefs source aliasNames with
    | Err e => Err (Wrapf ("alias " +:+ Quote name +:+ ": ") e "")
    | Ok refs => build_deps aliasNames l' (<[name := refs]> deps)
    end
  end.

Definition degree (inDegree : gmap string Z) (x : string) : Z := default 0 (inDegree !! x).

(** [inDegree[dep]++] for each dependency. *)
Definition count_deps (depList : list string) (inDegree : gmap string Z) : gmap string Z :=
  foldl (fun d dep => <[dep := degree d dep + 1]> d) inDegree depList.

Definition initial_degrees (aliases : gmap string string) (deps : gmap string (list string)) : gmap string Z :=
  foldl (fun d kv => count_deps kv.2 d) ((fun _ => 0) <$> aliases) (walk deps).

(** The loop over [deps[curr]]: degrees go down, a zero joins the queue. *)
Fixpoint release (depList : list string) (inDegree : gmap string Z) (queue : list string)
    : gmap string Z * list string :=
  match depList with
  | [] => (inDegree, queue)
  | dep :: l =>
    let d := degree inDegree dep - 1 in
    release l (<[dep := d]> inDegree) (if decide (d = 0) then queue ++ [dep] else queue)
  end.

(** Kahn's loop; [None] is out of fuel. *)
Fixpoint kahn (fuel : nat) (deps : gmap string (list string)) (queue : list string)
    (inDegree : gmap string Z) (sorted : list string) : option (list string * gmap string Z) :=
  match queue with
  | [] => Some (sorted, inDegree)
  | curr :: queue' =>
    match fuel with
    | O => None
    | S fuel' =>
      let '(inDegree, queue') := release (default [] (deps !! curr)) inDegree queue' in
      kahn fuel' deps queue' inDegree (sorted ++ [curr])
    end
  end.

(** [fmt.Sprintf("%v", names)] *)
Definition brackets (l : list string) : string :=
  "[" +:+ match l with [] => "" | x :: r => foldl (fun acc y => acc +:+ " " +:+ y) x r end +:+ "]".

Definition start_queue (inDegree : gmap string Z) : list string :=
  (filter (fun kv => kv.2 = 0) (walk inDegree)).*1.

Definition topoSortAliases `{ExprLang} `{UnicodeTables} (aliases : gmap string string)
    : option (result (list string)) :=
  if decide (aliases = ∅) then Some (Ok [])
  else match build_deps (names aliases) (walk aliases) ∅ with
  | Err e => Some (Err e)
  | Ok deps =>
    let inDegree := initial_degrees aliases deps in
    match kahn (size aliases) deps (start_queue inDegree) inDegree [] with
    | None => None
    | Some (sorted, inDegree) =>
      if decide (List.length sorted <> size aliases) then
        Some (Err (Errorf ("circular dependency detected among aliases: " +:+
                brackets (filter (fun kv => kv.2 > 0) (walk inDegree)).*1)))
      else Some (Ok (reverse sorted))
    end
  end.

(** [buildAliasASTs] *)
Fixpoint build_asts `{ExprLang} `{UnicodeTables} (aliases : gmap string string) (order : list string)
    (acc : gmap string node) : result (gmap string node) :=
  match order with
  | [] => Ok acc
  | name :: order' =>
    match parser_Parse (default "" (aliases !! name)) with
    | Err e => Err (Wrapf ("alias " +:+ Quote name +:+ ": ") e "")
    | Ok tree =>
      let tree := if decide (0 < size acc)%nat then patch acc tree else tree in
      build_asts aliases order' (<[name := tree]> acc)
    end
  end.

Definition buildAliasASTs `{ExprLang} `{UnicodeTables} (aliases : gmap string string) (order : list string)
    : result (gmap string node) := build_asts aliases order ∅.
End Sort.

(** ** Kahn's algorithm is correct

    Over any listing [L] of a dependency graph: distinct names, each with the
    distinct names it depends on, all of them names of the graph. *)
Section Kahn.
Context (deps : gmap string (list string)) (L : list (string * list string)).
Hypothesis L_perm : L ≡ₚ map_to_list deps.
Hypothesis deps_nodup : map_Forall (fun _ l => NoDup l) deps.
Hypothesis deps_closed : map_Forall (fun _ l => Forall (fun d => is_Some (deps !! d)) l) deps.

Definition dep (u : string) : list string := default [] (deps !! u).

(** How many names outside [done] depend on [v]. *)
Definition pending (l : list (string * list string)) (done : list string) (v : string) : Z :=
  foldr (fun kv t => (if decide ((kv.1 ∉ done) /\ v ∈ kv.2) then 1 else 0) + t) 0 l.

Lemma pending_nonneg l done v : 0 <= pending l done v.
Proof. induction l; simpl; [done|]. case_decide; lia. Qed.

Lemma pending_0 l done v :
  (pending l done v = 0) <-> forall u ds, (u, ds) ∈ l -> v ∈ ds -> u ∈ done.
Proof.
  induction l as [|[u ds] l IH]; simpl; [by split; [intros _ ? ? ?%not_elem_of_nil|]|].
  pose proof (pending_nonneg l done v). case_decide as Hd; simpl in *.
  - split; [lia|]. intros Hall. exfalso. apply (proj1 Hd). apply (Hall u ds); [by left|apply Hd].
  - rewrite Z.add_0_l, IH. split.
    + intros Hall u' ds' [[= -> ->]|Hin]%elem_of_cons Hv; [|by apply (Hall u' ds')].
      destruct (decide (u ∈ done)); [done|]. exfalso. apply Hd. done.
    + intros Hall u' ds' Hin. apply Hall. by right.
Qed.

Lemma pending_app_other l done c v : c ∉ l.*1 -> pending l (done ++ [c]) v = pending l done v.
Proof.
  induction l as [|[u ds] l IH]; [done|]. rewrite fmap_cons, not_elem_of_cons. intros [Hc Hl]. simpl in *.
  rewrite IH by done. f_equal. apply decide_ext. rewrite elem_of_app, list_elem_of_singleton. naive_solver.
Qed.

Lemma pending_app l done c ds v : NoDup l.*1 -> (c, ds) ∈ l -> c ∉ done ->
  pending l done v = pending l (done ++ [c]) v + (if decide (v ∈ ds) then 1 else 0).
Proof.
  induction l as [|[u ds'] l IH]; [by intros _ ?%not_elem_of_nil|].
  rewrite fmap_cons, NoDup_cons, elem_of_cons. simpl. intros [Hu Hnd] [[= <- <-]|Hin] Hc.
  - rewrite pending_app_other by done.
    assert (c ∈ done ++ [c]) by (rewrite elem_of_app, list_elem_of_singleton; by right).
    repeat case_decide; try lia; naive_solver.
  - rewrite (IH Hnd Hin Hc).
    assert (u <> c) as Huc by (intros ->; apply Hu; apply (list_elem_of_fmap_2 fst _ _ Hin)).
    rewrite (decide_ext ((u ∉ done ++ [c]) /\ v ∈ ds') ((u ∉ done) /\ v ∈ ds')); [lia|].
    rewrite elem_of_app, list_elem_of_singleton. naive_solver.
Qed.

Lemma degree_insert (D : gmap string Z) x z v :
  degree (<[x := z]> D) v = if decide (x = v) then z else degree D v.
Proof. unfold degree. rewrite lookup_insert. by case_decide. Qed.

(** Releasing the dependencies of one name. *)
Lemma release_spec l D Q : NoDup l ->
  exists new, (release l D Q).2 = Q ++ new /\
    (forall d, d ∈ new <-> d ∈ l /\ degree D d = 1) /\ NoDup new /\
    forall v, degree (release l D Q).1 v = degree D v - (if decide (v ∈ l) then 1 else 0).
Proof.
  revert D Q. induction l as [|d l IH]; intros D Q Hnd; cbn [release]; cbv zeta.
  { exists []. cbn [fst snd]. rewrite app_nil_r. split_and!; [done| |constructor|].
    - intros x. split; [by intros ?%not_elem_of_nil|]. by intros [?%not_elem_of_nil _].
    - intros v. rewrite decide_False; [lia|apply not_elem_of_nil]. }
  apply NoDup_cons in Hnd as [Hd Hnd].
  destruct (IH (<[d := degree D d - 1]> D) (if decide (degree D d - 1 = 0) then Q ++ [d] else Q) Hnd)
    as (new & Hq & Hnew & Hndn & Hdeg).
  assert (forall x, x ∈ new <-> x ∈ l /\ degree D x = 1) as Hnew'.
  { intros x. rewrite Hnew, degree_insert. destruct (decide (d = x)) as [<-|Hx]; [naive_solver|]. reflexivity. }
  exists ((if decide (degree D d - 1 = 0) then [d] else []) ++ new). split_and!.
  - rewrite Hq. case_decide; [by rewrite <- app_assoc|done].
  - intros x. rewrite elem_of_app, Hnew', elem_of_cons.
    case_decide as E.
    + rewrite list_elem_of_singleton. split; [intros [->|?]; [split; [by left|lia]|tauto]|tauto].
    + split; [intros [?%not_elem_of_nil|?]; tauto|].
      intros [[->|?] ?]; [lia|tauto].
  - case_decide; [|done]. apply NoDup_app. split_and!; [apply NoDup_singleton| |done].
    intros x ->%list_elem_of_singleton. rewrite Hnew'. tauto.
  - intros v. rewrite Hdeg, degree_insert. destruct (decide (d = v)) as [<-|Hne].
    + rewrite decide_False by done. rewrite decide_True by (by left). lia.
    + rewrite (decide_ext (v ∈ d :: l) (v ∈ l)); [done|]. rewrite elem_of_cons. naive_solver.
Qed.

Record kahn_inv (sorted queue : list string) (D : gmap string Z) : Prop := {
  ki_nodup : NoDup (sorted ++ queue);
  ki_names : forall x, x ∈ sorted ++ queue -> is_Some (deps !! x);
  ki_degree : forall v, is_Some (deps !! v) -> degree D v = pending L sorted v;
  ki_zero : forall v, is_Some (deps !! v) -> (pending L sorted v = 0 <-> v ∈ sorted ++ queue);
  ki_order : forall l1 u l2, sorted = l1 ++ u :: l2 -> forall d, d ∈ dep u -> d ∉ l1 ++ [u];
}.

Lemma L_NoDup : NoDup L.*1.
Proof. rewrite L_perm. apply NoDup_fst_map_to_list. Qed.

Lemma L_elem u ds : (u, ds) ∈ L <-> deps !! u = Some ds.
Proof. by rewrite L_perm, elem_of_map_to_list. Qed.

Lemma dep_elem u : is_Some (deps !! u) -> (u, dep u) ∈ L.
Proof. intros [ds Hu]. apply L_elem. unfold dep. by rewrite Hu. Qed.

Lemma kahn_step sorted c queue D : kahn_inv sorted (c :: queue) D ->
  kahn_inv (sorted ++ [c]) (release (dep c) D queue).2 (release (dep c) D queue).1.
Proof.
  intros [Hnd Hnames Hdeg Hzero Hord].
  assert (is_Some (deps !! c)) as Hc by (apply Hnames; rewrite elem_of_app; right; by left).
  assert (c ∉ sorted) as Hcs.
  { apply NoDup_app in Hnd as (_ & Hdis & _). intros Hin. apply (Hdis c Hin). by left. }
  pose proof (dep_elem c Hc) as HcL.
  assert (NoDup (dep c)) as Hndc by (destruct Hc as [ds Hds]; unfold dep; rewrite Hds; by apply (deps_nodup _ _ Hds)).
  assert (forall d, d ∈ dep c -> is_Some (deps !! d)) as Hclo.
  { destruct Hc as [ds Hds]. unfold dep. rewrite Hds. simpl. apply Forall_forall. by apply (deps_closed _ _ Hds). }
  assert (forall d, d ∈ dep c -> d ∉ sorted ++ c :: queue) as Hlater.
  { intros d Hd Hin. apply (Hzero d (Hclo d Hd)) in Hin. rewrite pending_0 in Hin.
    apply Hcs. by apply (Hin c (dep c)). }
  destruct (release_spec (dep c) D queue Hndc) as (new & -> & Hnew & Hndn & Hdeg').
  assert (forall v, pending L sorted v = pending L (sorted ++ [c]) v + (if decide (v ∈ dep c) then 1 else 0)) as Hp.
  { intros v. by apply pending_app; [apply L_NoDup| |]. }
  assert ((sorted ++ [c]) ++ queue ++ new = (sorted ++ c :: queue) ++ new) as Eapp
    by (by rewrite <- !app_assoc).
  constructor; rewrite ?Eapp.
  - apply NoDup_app. split_and!; [done| |done]. intros x Hx [Hxd _]%Hnew. by apply (Hlater x).
  - intros x [Hx|Hx]%elem_of_app; [by apply Hnames|]. apply Hnew in Hx as [Hx _]. by apply Hclo.
  - intros v Hv. rewrite Hdeg', (Hdeg v Hv), Hp. lia.
  - intros v Hv. specialize (Hp v). rewrite elem_of_app, <- (Hzero v Hv), Hnew, (Hdeg v Hv).
    pose proof (pending_nonneg L (sorted ++ [c]) v). destruct (decide (v ∈ dep c)).
    + split; [intros E; right; split; [done|lia]|]. intros [E|[_ E]]; lia.
    + rewrite Hp, Z.add_0_r. tauto.
  - intros l1 u l2 E d Hd. destruct l2 as [|y l2] using rev_ind.
    + apply app_inj_tail in E as [-> ->]. intros Hin. apply (Hlater d Hd).
      rewrite cons_middle, app_assoc, elem_of_app. by left.
    + clear IHl2. rewrite app_comm_cons, app_assoc in E. apply app_inj_tail in E as [-> _].
      by apply (Hord l1 u l2).
Qed.

Lemma kahn_terminates fuel sorted queue D : kahn_inv sorted queue D ->
  (List.length L <= List.length sorted + fuel)%nat ->
  exists sorted' D', kahn fuel deps queue D sorted = Some (sorted', D') /\ kahn_inv sorted' [] D'.
Proof.
  revert sorted queue D. induction fuel as [|fuel IH]; intros sorted [|c queue] D Hinv Hlen; simpl; eauto.
  - exfalso. destruct Hinv as [Hnd Hnames _ _ _].
    assert (sorted ++ c :: queue ⊆+ L.*1) as Hsub.
    { apply NoDup_submseteq; [done|]. intros x Hx. apply Hnames in Hx as [ds Hds].
      apply (list_elem_of_fmap_2 fst L (x, ds)). by apply L_elem. }
    apply submseteq_length in Hsub. rewrite length_app, length_fmap in Hsub. simpl in Hsub. lia.
  - pose proof (kahn_step sorted c queue D Hinv) as Hstep. fold (dep c).
    destruct (release (dep c) D queue) as [D' Q']. apply IH; [done|]. rewrite length_app. simpl. lia.
Qed.

Lemma count_deps_degree l D v : NoDup l ->
  degree (count_deps l D) v = degree D v + (if decide (v ∈ l) then 1 else 0).
Proof.
  revert D. induction l as [|d l IH]; intros D Hnd; unfold count_deps; cbn [foldl].
  { rewrite decide_False by apply not_elem_of_nil. lia. }
  apply NoDup_cons in Hnd as [Hd Hnd]. fold (count_deps l (<[d := degree D d + 1]> D)).
  rewrite IH, degree_insert by done. destruct (decide (d = v)) as [<-|Hne].
  - rewrite decide_False by done. rewrite decide_True by (by left). lia.
  - rewrite (decide_ext (v ∈ d :: l) (v ∈ l)); [done|]. rewrite elem_of_cons. naive_solver.
Qed.

Lemma count_deps_dom l D v : is_Some (count_deps l D !! v) <-> v ∈ l \/ is_Some (D !! v).
Proof.
  revert D. induction l as [|d l IH]; intros D; unfold count_deps; cbn [foldl].
  { split; [by right|]. by intros [?%not_elem_of_nil|?]. }
  fold (count_deps l (<[d := degree D d + 1]> D)). rewrite IH, lookup_insert, elem_of_cons.
  case_decide; naive_solver.
Qed.

(** The degrees after the counting loops. *)
Lemma count_all_degree l D v : Forall (fun kv => NoDup kv.2) l ->
  degree (foldl (fun d kv => count_deps kv.2 d) D l) v = degree D v + pending l [] v.
Proof.
  revert D. induction l as [|[u ds] l IH]; intros D Hl; cbn [foldl pending foldr]; [lia|].
  apply Forall_cons in Hl as [Hu Hl]. rewrite IH, count_deps_degree by done. cbn [fst snd].
  rewrite (decide_ext ((u ∉ []) /\ v ∈ ds) (v ∈ ds)); [fold (pending l [] v); lia|].
  split; [tauto|]. intros; split; [apply not_elem_of_nil|done].
Qed.

Lemma count_all_dom l D v : is_Some (foldl (fun d (kv : string * list string) => count_deps kv.2 d) D l !! v) <->
  (exists u ds, (u, ds) ∈ l /\ v ∈ ds) \/ is_Some (D !! v).
Proof.
  revert D. induction l as [|[u ds] l IH]; intros D; cbn [foldl].
  { split; [by right|]. intros [(? & ? & ?%not_elem_of_nil & _)|?]; done. }
  rewrite IH, count_deps_dom. cbn [snd]. split.
  - intros [(u' & ds' & Hin & Hv)|[Hv|Hv]]; [|left; exists u, ds; split; [by left|done]|by right].
    left. exists u', ds'. split; [by right|done].
  - intros [(u' & ds' & Hin & Hv)|Hv]; [|by right; right].
    apply elem_of_cons in Hin as [[= -> ->]|Hin]; [by right; left|]. left. by exists u', ds'.
Qed.

(** With every name processed the order is topological; with one missing, every
    missing name is needed by a missing name. *)
Lemma kahn_final sorted D : kahn_inv sorted [] D ->
  (List.length sorted = List.length L ->
     sorted ≡ₚ L.*1 /\ forall l1 u l2, reverse sorted = l1 ++ u :: l2 -> forall d, d ∈ dep u -> d ∈ l1) /\
  (List.length sorted <> List.length L ->
     exists v, is_Some (deps !! v) /\ v ∉ sorted) /\
  (forall v, is_Some (deps !! v) -> v ∉ sorted -> exists u, (u ∉ sorted) /\ is_Some (deps !! u) /\ v ∈ dep u).
Proof.
  intros [Hnd Hnames Hdeg Hzero Hord]. rewrite app_nil_r in *.
  assert (sorted ⊆+ L.*1) as Hsub.
  { apply NoDup_submseteq; [done|]. intros x Hx. apply Hnames in Hx as [ds Hds].
    apply (list_elem_of_fmap_2 fst L (x, ds)). by apply L_elem. }
  assert (List.length sorted = List.length L -> sorted ≡ₚ L.*1) as Hperm.
  { intros Hl. apply submseteq_length_Permutation; [done|]. rewrite length_fmap. lia. }
  split_and!.
  - intros Hl. split; [by apply Hperm|]. intros l1 u l2 E d Hd.
    apply (f_equal reverse) in E. rewrite reverse_involutive, reverse_app, reverse_cons, <- app_assoc in E. cbn [app] in E.
    pose proof (Hord (reverse l2) u (reverse l1) E d Hd) as Hn.
    assert (d ∈ sorted) as Hin.
    { rewrite (Hperm Hl). assert (is_Some (deps !! u)) as [ds Hds].
      { apply Hnames. rewrite E, elem_of_app, elem_of_cons. by right; left. }
      unfold dep in Hd. rewrite Hds in Hd. simpl in Hd. pose proof (deps_closed _ _ Hds) as Hc.
      rewrite Forall_forall in Hc. destruct (Hc d Hd) as [ds' Hd'].
      apply (list_elem_of_fmap_2 fst L (d, ds')). by apply L_elem. }
    rewrite E in Hin. apply elem_of_app in Hin as [Hin|Hin].
    { exfalso. apply Hn. rewrite elem_of_app. by left. }
    apply elem_of_cons in Hin as [->|Hin].
    { exfalso. apply Hn. rewrite elem_of_app, list_elem_of_singleton. by right. }
    by apply elem_of_reverse.
  - intros Hl. destruct (decide (Forall (fun kv => kv.1 ∈ sorted) L)) as [Hall|Hall].
    + exfalso. apply Hl. apply submseteq_length in Hsub. rewrite length_fmap in Hsub.
      assert (L.*1 ⊆+ sorted) as Hsub'.
      { apply NoDup_submseteq; [apply L_NoDup|]. intros x (kv & -> & Hkv)%list_elem_of_fmap.
        by apply (proj1 (Forall_forall _ _) Hall). }
      apply submseteq_length in Hsub'. rewrite length_fmap in Hsub'. lia.
    + apply not_Forall_Exists in Hall; [|apply _]. apply Exists_exists in Hall as ([u ds] & Hin & Hu).
      exists u. split; [|done]. exists ds. by apply L_elem.
  - intros v Hv Hn. destruct (decide (pending L sorted v = 0)) as [E|E].
    + exfalso. by apply Hn, Hzero.
    + assert (~ (forall u ds, (u, ds) ∈ L -> v ∈ ds -> u ∈ sorted)) as Hnot by (by rewrite <- pending_0).
      assert (Exists (fun kv => (v ∈ kv.2) /\ kv.1 ∉ sorted) L) as Hex.
      { destruct (decide (Exists (fun kv => (v ∈ kv.2) /\ kv.1 ∉ sorted) L)) as [?|Hne]; [done|].
        exfalso. apply Hnot. intros u ds Hin Hvd. destruct (decide (u ∈ sorted)); [done|].
        exfalso. apply Hne, Exists_exists. by exists (u, ds). }
      apply Exists_exists in Hex as ([u ds] & Hin & Hvd & Hu). simpl in *. apply L_elem in Hin.
      exists u. split_and!; [done|by eexists|]. unfold dep. by rewrite Hin.
Qed.
End Kahn.

(** ** Aliases *)

Lemma collect_spec seen l : NoDup (collect seen l) /\ forall x, x ∈ collect seen l <-> x ∈ l /\ x ∉ seen.
Proof.
  revert seen. induction l as [|y l IH]; intros seen; simpl.
  { split; [constructor|]. intros x. split; [by intros ?%not_elem_of_nil|]. by intros [?%not_elem_of_nil _]. }
  case_decide as Hy.
  - destruct (IH seen) as [Hnd Hin]. split; [done|]. intros x. rewrite Hin, elem_of_cons. naive_solver.
  - destruct (IH (y :: seen)) as [Hnd Hin]. split.
    + apply NoDup_cons. split; [|done]. rewrite Hin, elem_of_cons. naive_solver.
    + intros x. rewrite elem_of_cons, Hin, !elem_of_cons. destruct (decide (x = y)); naive_solver.
Qed.

Lemma alias_refs_spec ns n : NoDup (alias_refs ns n) /\
  forall x, x ∈ alias_refs ns n <-> x ∈ idents n /\ x ∈ ns.
Proof.
  destruct (collect_spec [] (filter (fun x => x ∈ ns) (idents n))) as [Hnd Hin]. split; [done|].
  intros x. unfold alias_refs. rewrite Hin, list_elem_of_filter.
  split; [tauto|]. intros; split; [tauto|]. apply not_elem_of_nil.
Qed.

Section Aliases.
Context `{ExprLang} `{UnicodeTables} `{MapWalk}.

(** Alias [u] mentions alias [d]. *)
Definition depends (aliases : gmap string string) (u d : string) : Prop :=
  exists src tree, aliases !! u = Some src /\ parser_Parse src = Ok tree /\ d ∈ idents tree /\
    is_Some (aliases !! d).

Definition all_parse (aliases : gmap string string) : Prop :=
  map_Forall (fun _ src => is_ok (parser_Parse src) = true) aliases.

(** The graph [build_deps] makes: one entry per alias, its references. *)
Definition deps_of (aliases : gmap string string) (deps : gmap string (list string)) : Prop :=
  forall u, match aliases !! u with
  | None => deps !! u = None
  | Some src => exists tree, parser_Parse src = Ok tree /\ deps !! u = Some (alias_refs (names aliases) tree)
  end.

Lemma build_deps_spec ns l deps0 : NoDup l.*1 ->
  match build_deps ns l deps0 with
  | Ok deps => forall u, match list_to_map (M := gmap string string) l !! u with
      | None => deps !! u = deps0 !! u
      | Some src => exists tree, parser_Parse src = Ok tree /\ deps !! u = Some (alias_refs ns tree)
      end
  | Err _ => Exists (fun kv => is_ok (parser_Parse kv.2) = false) l
  end.
Proof.
  revert deps0. induction l as [|[name src] l IH]; intros deps0 Hnd; cbn [build_deps]; [done|].
  rewrite fmap_cons in Hnd. apply NoDup_cons in Hnd as [Hn Hnd]. unfold extractAliasRefs.
  destruct (parser_Parse src) as [tree|e] eqn:Ep; cbn [result_bind].
  - specialize (IH (<[name := alias_refs ns tree]> deps0) Hnd).
    destruct (build_deps ns l _) as [deps|e]; [|by right].
    intros u. rewrite list_to_map_cons. specialize (IH u).
    destruct (decide (name = u)) as [<-|Hne].
    + rewrite lookup_insert_eq.
      assert (list_to_map (M := gmap string string) l !! name = None) as E by (by apply not_elem_of_list_to_map).
      rewrite E in IH. rewrite lookup_insert_eq in IH. eauto.
    + rewrite lookup_insert_ne by done. destruct (list_to_map l !! u); [done|].
      by rewrite lookup_insert_ne in IH.
  - left. simpl. by rewrite Ep.
Qed.

Lemma build_deps_walk aliases :
  match build_deps (names aliases) (walk aliases) ∅ with
  | Ok deps => deps_of aliases deps
  | Err _ => ~ all_parse aliases
  end.
Proof.
  pose proof (build_deps_spec (names aliases) (walk aliases) ∅ (walk_NoDup aliases)) as Hb.
  destruct (build_deps _ _ _) as [deps|e].
  - intros u. specialize (Hb u).
    assert (list_to_map (walk aliases) = aliases) as E.
    { rewrite <- (list_to_map_to_list aliases) at 2. apply list_to_map_proper; [apply walk_NoDup|apply walk_perm]. }
    rewrite E in Hb. destruct (aliases !! u); [done|]. by rewrite lookup_empty in Hb.
  - intros Hall. apply Exists_exists in Hb as ([k src] & Hin & Hbad). apply walk_elem in Hin.
    apply Hall in Hin. simpl in *. congruence.
Qed.

Lemma deps_of_facts aliases deps : deps_of aliases deps ->
  all_parse aliases /\ (forall u, is_Some (deps !! u) <-> is_Some (aliases !! u)) /\
  map_Forall (fun _ l => NoDup l) deps /\
  map_Forall (fun _ l => Forall (fun d => is_Some (deps !! d)) l) deps /\
  (forall u d, d ∈ dep deps u <-> depends aliases u d).
Proof.
  intros Hd.
  assert (forall u, is_Some (deps !! u) <-> is_Some (aliases !! u)) as Hdom.
  { intros u. specialize (Hd u). destruct (aliases !! u) as [src|].
    - destruct Hd as (tree & _ & ->). split; by eexists.
    - rewrite Hd. done. }
  assert (forall u l, deps !! u = Some l -> exists src tree, aliases !! u = Some src /\
    parser_Parse src = Ok tree /\ l = alias_refs (names aliases) tree) as Hget.
  { intros u l Hu. specialize (Hd u). destruct (aliases !! u) as [src|]; [|congruence].
    destruct Hd as (tree & Hp & Hl). exists src, tree. split_and!; congruence. }
  split_and!; [|done|..].
  - intros u src Hu. specialize (Hd u). rewrite Hu in Hd. destruct Hd as (tree & -> & _). done.
  - intros u l Hu. destruct (Hget u l Hu) as (src & tree & _ & _ & ->). apply alias_refs_spec.
  - intros u l Hu. destruct (Hget u l Hu) as (src & tree & _ & _ & ->). apply Forall_forall.
    intros d [_ Hdn]%alias_refs_spec. apply Hdom. by apply elem_of_dom.
  - intros u d. unfold dep, depends. split.
    + destruct (deps !! u) as [l|] eqn:Hu; simpl; [|by intros ?%not_elem_of_nil].
      destruct (Hget u l Hu) as (src & tree & Hs & Hp & ->). intros [Hi Hn]%alias_refs_spec.
      exists src, tree. split_and!; try done. by apply elem_of_dom.
    + intros (src & tree & Hs & Hp & Hi & Hn). specialize (Hd u). rewrite Hs in Hd.
      destruct Hd as (tree' & Hp' & ->). simpl. apply alias_refs_spec. split; [congruence|].
      by apply elem_of_dom.
Qed.

Lemma deps_size aliases deps : deps_of aliases deps -> List.length (walk deps) = size aliases.
Proof.
  intros (_ & Hdom & _)%deps_of_facts. rewrite (walk_perm deps), length_map_to_list.
  rewrite <- !size_dom. f_equal. apply set_eq. intros u. by rewrite !elem_of_dom.
Qed.

Lemma deps_names aliases deps : deps_of aliases deps -> (walk deps).*1 ≡ₚ (map_to_list aliases).*1.
Proof.
  intros (_ & Hdom & _)%deps_of_facts.
  apply NoDup_Permutation; [apply walk_NoDup|apply NoDup_fst_map_to_list|].
  intros x. rewrite !list_elem_of_fmap. split.
  - intros ([k l] & -> & Hin%walk_elem).
    assert (is_Some (aliases !! k)) as [s Hs] by (apply Hdom; by eexists).
    exists (k, s). split; [done|]. by apply elem_of_map_to_list.
  - intros ([k s] & -> & Hin%elem_of_map_to_list).
    assert (is_Some (deps !! k)) as [l Hl] by (apply Hdom; by eexists).
    exists (k, l). split; [done|]. by apply walk_elem.
Qed.

Lemma start_inv aliases deps : deps_of aliases deps ->
  kahn_inv deps (walk deps) [] (start_queue (initial_degrees aliases deps)) (initial_degrees aliases deps).
Proof.
  intros Hd. destruct (deps_of_facts _ _ Hd) as (_ & Hdom & Hnd & Hclo & _).
  set (D := initial_degrees aliases deps).
  assert (forall v, is_Some (aliases !! v) -> degree D v = pending (walk deps) [] v) as Hdeg.
  { intros v [src Hv]. unfold D, initial_degrees. rewrite count_all_degree.
    - unfold degree at 1. rewrite lookup_fmap, Hv. simpl. lia.
    - apply Forall_forall. intros [u l] Hin. apply walk_elem in Hin. by apply (Hnd _ _ Hin). }
  assert (forall v, is_Some (D !! v) <-> is_Some (aliases !! v)) as HD.
  { intros v. unfold D, initial_degrees. rewrite count_all_dom, lookup_fmap, fmap_is_Some.
    split; [|by right]. intros [(u & l & Hin & Hv)|?]; [|done]. apply walk_elem in Hin.
    apply Hdom. pose proof (Hclo _ _ Hin) as Hc. rewrite Forall_forall in Hc. by apply Hc. }
  assert (forall v, v ∈ start_queue D <-> D !! v = Some 0) as Hq.
  { intros v. unfold start_queue. rewrite list_elem_of_fmap. split.
    - intros ([k z] & -> & [Hz Hin]%list_elem_of_filter). simpl in *. subst z. by apply walk_elem.
    - intros Hv. exists (v, 0). split; [done|]. apply list_elem_of_filter. split; [done|]. by apply walk_elem. }
  constructor; simpl.
  - unfold start_queue. apply (sublist_NoDup _ (walk D).*1); [apply walk_NoDup|].
    apply fmap_sublist, sublist_filter.
  - intros v Hv%Hq. apply Hdom, HD. by eexists.
  - intros v Hv. apply Hdeg. by apply Hdom.
  - intros v Hv. rewrite Hq, <- Hdeg by (by apply Hdom). unfold degree.
    apply Hdom, HD in Hv as [z ->]. simpl. split; congruence.
  - intros l1 u l2 E. by destruct l1.
Qed.

Definition acyclic (aliases : gmap string string) : Prop := forall u, ~ tc (depends aliases) u u.

(** A name whose dependencies are all grounded is on no cycle. *)
Lemma grounded_no_cycle aliases u :
  Acc (fun d v => depends aliases v d) u -> ~ tc (depends aliases) u u.
Proof.
  induction 1 as [u _ IH]. intros Hc.
  assert (exists d, depends aliases u d /\ rtc (depends aliases) d u) as (d & Hd & Hr).
  { inversion Hc as [? ? Hud|? d ? Hud Ht]; subst; eauto using tc_rtc, rtc_refl. }
  apply (IH d Hd). eapply tc_rtc_l; [exact Hr|]. by apply tc_once.
Qed.

Lemma ordered_acyclic aliases order :
  (forall u, is_Some (aliases !! u) -> u ∈ order) ->
  (forall l1 u l2, order = l1 ++ u :: l2 -> forall d, depends aliases u d -> d ∈ l1) -> acyclic aliases.
Proof.
  intros Hall Hord.
  assert (forall l1 l2, order = l1 ++ l2 ->
    Forall (Acc (fun d v => depends aliases v d)) l1) as Hacc.
  { intros l1. induction l1 as [|u l1 IH] using rev_ind; intros l2 E; [done|].
    rewrite <- app_assoc in E. pose proof (IH _ E) as Hl. apply Forall_app. split; [done|].
    constructor; [|done]. constructor. intros d Hd.
    apply (proj1 (Forall_forall _ _) Hl). by apply (Hord l1 u l2 E). }
  intros u Hc. assert (is_Some (aliases !! u)) as Hu.
  { inversion Hc as [? ? (s & ? & ? & _)|? ? ? (s & ? & ? & _)]; by eexists. }
  apply (grounded_no_cycle aliases u); [|done].
  specialize (Hacc order [] (eq_sym (app_nil_r order))). apply (proj1 (Forall_forall _ _) Hacc). auto.
Qed.

(** A set of names each needed by one of them is on a cycle. *)
Lemma stuck_cyclic aliases (stuck : string -> Prop) v :
  (forall x, stuck x -> exists u, stuck u /\ depends aliases u x) -> stuck v -> ~ acyclic aliases.
Proof.
  intros Hpred Hv Hac.
  assert (sn (flip (depends aliases)) v) as Hsn.
  { apply tc_finite_sn.
    - intros x Hx. apply (Hac x). clear -Hx.
      assert (forall a b, tc (flip (depends aliases)) a b -> tc (depends aliases) b a) as Hf.
      { induction 1 as [a b Hab|a b c Hab _ IH]; [by apply tc_once|]. by eapply tc_r. }
      by apply Hf.
    - exists (elements (dom aliases)). intros x Hx. apply elem_of_elements, elem_of_dom. clear -Hx.
      induction Hx as [a b (s & ? & ? & _)|]; [by eexists|done]. }
  clear Hac. revert Hv. induction Hsn as [x _ IH]. intros Hx.
  destruct (Hpred x Hx) as (u & Hu & Hd). by apply (IH u).
Qed.

Lemma topoSortAliases_sound (aliases : gmap string string) :
  exists r, topoSortAliases aliases = Some r /\
    (is_ok r = true <-> all_parse aliases /\ acyclic aliases) /\
    forall order, r = Ok order -> order ≡ₚ (map_to_list aliases).*1 /\
      forall l1 u l2, order = l1 ++ u :: l2 -> forall d, depends aliases u d -> d ∈ l1.
Proof.
  unfold topoSortAliases. case_decide as He.
  { subst aliases. exists (Ok []). split_and!; [done| |].
    - split; [|done]. intros _. split; [apply map_Forall_empty|]. intros u Hc.
      inversion Hc as [? ? (s & ? & Hs & _)|? ? ? (s & ? & Hs & _)]; by rewrite lookup_empty in Hs.
    - intros order [= <-]. split; [by rewrite map_to_list_empty|]. intros l1 u l2 E. by destruct l1. }
  pose proof (build_deps_walk aliases) as Hb.
  destruct (build_deps _ _ _) as [deps|e]; [|eexists; split_and!; [done| |done]; split; [done|tauto]].
  destruct (deps_of_facts _ _ Hb) as (Hparse & Hdom & Hnd & Hclo & Hdep).
  destruct (kahn_terminates deps (walk deps) (walk_perm deps) Hnd Hclo (size aliases) []
    (start_queue (initial_degrees aliases deps)) (initial_degrees aliases deps)) as (sorted & D & -> & Hinv).
  { by apply start_inv. }
  { simpl. by rewrite (deps_size aliases deps Hb). }
  destruct (kahn_final deps (walk deps) (walk_perm deps) Hclo sorted D Hinv) as (Hfull & Hmiss & Hstuck).
  rewrite (deps_size aliases deps Hb) in Hfull, Hmiss. case_decide as Hlen.
  - eexists. split_and!; [done| |done]. split; [done|]. intros [_ Hac]. exfalso.
    destruct (Hmiss Hlen) as (v & Hv & Hn).
    apply (stuck_cyclic aliases (fun x => is_Some (deps !! x) /\ x ∉ sorted) v); [|done|done].
    intros x [Hx Hxn]. destruct (Hstuck x Hx Hxn) as (u & Hun & Hus & Hxu). exists u.
    split; [done|]. by apply Hdep.
  - destruct (Hfull Hlen) as [Hperm Hord].
    assert (reverse sorted ≡ₚ (map_to_list aliases).*1) as Hp.
    { rewrite reverse_Permutation, Hperm. by apply deps_names. }
    assert (forall l1 u l2, reverse sorted = l1 ++ u :: l2 -> forall d, depends aliases u d -> d ∈ l1) as Ho.
    { intros l1 u l2 E d Hd. apply Hdep in Hd. by apply (Hord l1 u l2 E). }
    eexists. split_and!; [done| |].
    + split; [|done]. intros _. split; [done|]. apply (ordered_acyclic aliases (reverse sorted)); [|done].
      intros u [s Hs]. rewrite Hp. apply (list_elem_of_fmap_2 fst _ (u, s)). by apply elem_of_map_to_list.
    + intros order [= <-]. done.
Qed.

(** C38: the order in which aliases are expanded.  [topoSortAliases] always
    returns (as many rounds as there are aliases suffice); it succeeds exactly when
    every alias parses and none depends on itself through others; and the order
    lists every alias once, after all the aliases it mentions, whatever the order
    in which Go walks its maps. *)
Theorem topoSortAliases_correct (aliases : gmap string string) :
  exists r, topoSortAliases aliases = Some r /\
    (is_ok r = true <-> all_parse aliases /\ acyclic aliases) /\
    forall order, r = Ok order -> order ≡ₚ (map_to_list aliases).*1 /\
      forall l1 u l2, order = l1 ++ u :: l2 -> forall d, depends aliases u d -> d ∈ l1.
Proof. apply topoSortAliases_sound. Qed.
End Aliases.

(** ** Expanding aliases *)

Lemma node_nested_ind (P : node -> Prop) :
  (forall x, P (NIdent x)) -> (forall s, P (NString s)) -> (forall z, P (NInteger z)) ->
  (forall b, P (NFloat b)) -> (forall a b, P a -> P b -> P (NMember a b)) ->
  (forall op a b, P a -> P b -> P (NBinary op a b)) -> (forall k l, Forall P l -> P (NOther k l)) ->
  forall n, P n.
Proof.
  intros H1 H2 H3 H4 H5 H6 H7. fix IH 1. intros [x|s|z|b|a b|op a b|k l];
    [apply H1|apply H2|apply H3|apply H4|apply H5; apply IH|apply H6; apply IH|apply H7].
  induction l as [|n l IHl]; constructor; [apply IH|exact IHl].
Qed.

Lemma idents_flat l : omap ident_of (flat_map visits l) = flat_map idents l.
Proof. induction l as [|n l IH]; [done|]. simpl. by rewrite omap_app, IH. Qed.

Lemma idents_eq n : idents n = match n with
  | NIdent x => [x]
  | NMember a b | NBinary _ a b => idents a ++ idents b
  | NOther _ l => flat_map idents l
  | _ => []
  end.
Proof.
  unfold idents. destruct n as [| | | |a b|op a b|k l]; try done; cbn [visits];
    rewrite omap_app; cbn [omap list_omap ident_of]; rewrite app_nil_r; [by rewrite omap_app..|].
  apply idents_flat.
Qed.

Lemma elem_of_flat_map {A B} (f : A -> list B) l y : y ∈ flat_map f l <-> exists x, x ∈ l /\ y ∈ f x.
Proof. rewrite list_elem_of_In, in_flat_map. by setoid_rewrite list_elem_of_In. Qed.

(** The identifiers left by a substitution: those it does not replace, and those of
    the trees it puts in. *)
Lemma idents_patch σ n x : x ∈ idents (patch σ n) <->
  (x ∈ idents n /\ σ !! x = None) \/ exists y m, y ∈ idents n /\ σ !! y = Some m /\ x ∈ idents m.
Proof.
  induction n as [y|s|z|b|a b IHa IHb|op a b IHa IHb|k l IHl] using node_nested_ind; cbn [patch];
    try (rewrite idents_eq; split; [by intros ?%not_elem_of_nil|];
         intros [[?%not_elem_of_nil _]|(? & ? & ?%not_elem_of_nil & _)]; done).
  - rewrite (idents_eq (NIdent y)). setoid_rewrite list_elem_of_singleton.
    destruct (σ !! y) as [m|] eqn:E; simpl.
    + split; [intros Hx; right; by exists y, m|]. intros [[-> ?]|(? & m' & -> & ? & ?)]; congruence.
    + rewrite idents_eq, list_elem_of_singleton. split; [intros ->; by left|].
      intros [[-> _]|(? & m' & -> & ? & ?)]; congruence.
  - rewrite (idents_eq (NMember (patch _ _) _)), (idents_eq (NMember a b)), elem_of_app, IHa, IHb.
    setoid_rewrite elem_of_app. naive_solver.
  - rewrite (idents_eq (NBinary op (patch _ _) _)), (idents_eq (NBinary op a b)), elem_of_app, IHa, IHb.
    setoid_rewrite elem_of_app. naive_solver.
  - rewrite (idents_eq (NOther k (map _ _))), (idents_eq (NOther k l)), !elem_of_flat_map.
    setoid_rewrite elem_of_flat_map. rewrite Forall_forall in IHl. split.
    + intros (n' & (n & <- & Hn)%list_elem_of_In%in_map_iff & Hx). apply list_elem_of_In in Hn.
      apply (IHl n Hn) in Hx. naive_solver.
    + assert (forall n, n ∈ l -> patch σ n ∈ map (patch σ) l) as Hmap.
      { intros n Hn. apply list_elem_of_In, in_map, list_elem_of_In, Hn. }
      intros [[(n & Hn & Hx) ?]|(y & m & (n & Hn & Hy) & ? & ?)]; exists (patch σ n);
        (split; [by apply Hmap|]); apply (IHl n Hn); [by left|]. right. by exists y, m.
Qed.

(** Substitutions that agree on a tree's identifiers patch it alike. *)
Lemma patch_ext σ τ n : (forall x, x ∈ idents n -> σ !! x = τ !! x) -> patch σ n = patch τ n.
Proof.
  induction n as [y|s|z|b|a b IHa IHb|op a b IHa IHb|k l IHl] using node_nested_ind; cbn [patch]; try done;
    rewrite idents_eq; intros Hx.
  - rewrite Hx; [done|]. by left.
  - f_equal; [apply IHa|apply IHb]; intros; apply Hx, elem_of_app; auto.
  - f_equal; [apply IHa|apply IHb]; intros; apply Hx, elem_of_app; auto.
  - f_equal. apply map_ext_in. intros n Hn%list_elem_of_In. rewrite Forall_forall in IHl. apply (IHl n Hn).
    intros x Hxn. apply Hx, elem_of_flat_map. by exists n.
Qed.

Lemma patch_empty n : patch ∅ n = n.
Proof.
  induction n as [y|s|z|b|a b IHa IHb|op a b IHa IHb|k l IHl] using node_nested_ind; cbn [patch]; try done.
  - by rewrite IHa, IHb.
  - by rewrite IHa, IHb.
  - f_equal. rewrite <- (map_id l) at 2. apply map_ext_in. intros n Hn%list_elem_of_In.
    by apply (proj1 (Forall_forall _ _) IHl).
Qed.

Section Expand.
Context `{ExprLang} `{UnicodeTables} `{MapWalk}.

(** [acc] is the expansion of the aliases of [l1], all of them before the rest. *)
Record expanded (aliases : gmap string string) (l1 : list string) (acc : gmap string node) : Prop := {
  ex_dom : forall x, is_Some (acc !! x) <-> x ∈ l1;
  ex_eq : forall x n, acc !! x = Some n -> exists src tree, aliases !! x = Some src /\
            parser_Parse src = Ok tree /\ n = patch acc tree;
  ex_closed : forall x n y, acc !! x = Some n -> y ∈ idents n -> aliases !! y = None;
}.

(** Adding an alias all of whose mentions are expanded. *)
Lemma expanded_snoc aliases l1 acc u src tree :
  expanded aliases l1 acc -> u ∉ l1 -> aliases !! u = Some src -> parser_Parse src = Ok tree ->
  (forall d, depends aliases u d -> d ∈ l1) ->
  (forall x, x ∈ l1 -> is_Some (aliases !! x) /\ forall d, depends aliases x d -> d ∈ l1) ->
  expanded aliases (l1 ++ [u]) (<[u := patch acc tree]> acc).
Proof.
  intros [Hdom Heq Hclo] Hu Hsrc Hp Hdeps Hl1.
  assert (forall x n t s, (x ∈ l1 \/ x = u) -> aliases !! x = Some s -> parser_Parse s = Ok t ->
    n = patch acc t -> n = patch (<[u := patch acc tree]> acc) t) as Hstable.
  { intros x n t s Hx Hs Ht ->. apply patch_ext. intros y Hy. rewrite lookup_insert_ne; [done|].
    intros <-. apply Hu. assert (depends aliases x u) as Hd by (exists s, t; split_and!; try done; by eexists).
    destruct Hx as [Hx| ->]; [by apply (Hl1 x Hx)|by apply Hdeps]. }
  constructor.
  - intros x. rewrite lookup_insert, elem_of_app, list_elem_of_singleton, <- Hdom. case_decide as E.
    + subst x. split; [by right|]. by eexists.
    + split; [by left|]. intros [?| ->]; done.
  - intros x n. rewrite lookup_insert. case_decide as E.
    + subst x. intros [= <-]. exists src, tree. split_and!; try done. apply (Hstable u _ tree src); auto.
    + intros Hx. destruct (Heq x n Hx) as (s & t & Hs & Ht & Hn). exists s, t. split_and!; try done.
      apply (Hstable x n t s); try done. left. apply Hdom. by eexists.
  - intros x n y. rewrite lookup_insert. case_decide as E; [|apply Hclo].
    intros [= <-]. rewrite idents_patch. intros [[Hy Hn]|(z & m & _ & Hz & Hy)]; [|by apply (Hclo z m)].
    destruct (aliases !! y) as [s|] eqn:Ey; [|done]. exfalso.
    assert (y ∈ l1) as [m Hm]%Hdom by (apply Hdeps; exists src, tree; split_and!; try done; by eexists).
    congruence.
Qed.

(** [if len(result) > 0] only skips an empty substitution. *)
Lemma patch_guard acc tree : (if decide (0 < size acc)%nat then patch acc tree else tree) = patch acc tree.
Proof.
  case_decide as Hs; [done|]. assert (size acc = 0%nat) as E by lia.
  apply map_size_empty_inv in E as ->. by rewrite patch_empty.
Qed.

Lemma build_asts_expanded aliases l1 l2 acc :
  all_parse aliases -> expanded aliases l1 acc -> NoDup (l1 ++ l2) ->
  (forall x, x ∈ l1 ++ l2 -> is_Some (aliases !! x)) ->
  (forall a u b, l1 ++ l2 = a ++ u :: b -> forall d, depends aliases u d -> d ∈ a) ->
  exists asts, build_asts aliases l2 acc = Ok asts /\ expanded aliases (l1 ++ l2) asts.
Proof.
  revert l1 acc. induction l2 as [|u l2 IH]; intros l1 acc Hparse Hex Hnd Hall Hord; simpl.
  { exists acc. by rewrite app_nil_r. }
  destruct (Hall u) as [src Hsrc]; [rewrite elem_of_app, elem_of_cons; tauto|]. rewrite Hsrc. simpl.
  pose proof (Hparse _ _ Hsrc) as Hok. cbv beta in Hok. destruct (parser_Parse src) as [tree|] eqn:Hp; [|done].
  rewrite patch_guard. rewrite cons_middle, app_assoc in *. apply IH; try done.
  apply (expanded_snoc aliases l1 acc u src tree); try done.
  - rewrite <- app_assoc in Hnd. apply NoDup_app in Hnd as (_ & Hdis & _). intros Hin. apply (Hdis u Hin).
    rewrite elem_of_app. left. by left.
  - intros d. by apply (Hord l1 u l2); rewrite <- app_assoc.
  - intros x Hx. split; [apply Hall; rewrite !elem_of_app; tauto|]. intros d Hd.
    apply list_elem_of_split in Hx as (a & b & ->). rewrite elem_of_app. left.
    apply (Hord a x ((b ++ [u]) ++ l2)); [|done]. by rewrite <- !app_assoc.
Qed.

(** alias expansion is complete.  When the sort succeeds so does
    [buildAliasASTs], with one tree per alias: the tree of its source with every
    alias replaced by the expansion of that alias.  No alias name is left in an
    expansion, nor in a condition patched with them, so that conditions are
    evaluated on step results and trigger data only. *)
Theorem aliases_fully_expanded (aliases : gmap string string) (order : list string)
    (Hsort : topoSortAliases aliases = Some (Ok order)) :
  exists asts, buildAliasASTs aliases order = Ok asts /\
    (forall x, is_Some (asts !! x) <-> is_Some (aliases !! x)) /\
    (forall x n, asts !! x = Some n -> exists src tree, aliases !! x = Some src /\
       parser_Parse src = Ok tree /\ n = patch asts tree) /\
    (forall cond y, y ∈ idents (patch asts cond) -> aliases !! y = None).
Proof.
  destruct (topoSortAliases_sound aliases) as (r & Hr & Hok & Hord). rewrite Hsort in Hr. injection Hr as <-.
  destruct (proj1 Hok eq_refl) as [Hparse _]. destruct (Hord order eq_refl) as [Hperm Htopo].
  assert (forall x, x ∈ order <-> is_Some (aliases !! x)) as Hin.
  { intros x. rewrite Hperm, list_elem_of_fmap. split.
    - intros ([k s] & -> & Hk%elem_of_map_to_list). by eexists.
    - intros [s Hs]. exists (x, s). split; [done|]. by apply elem_of_map_to_list. }
  destruct (build_asts_expanded aliases [] order ∅) as (asts & Hb & [Hdom Heq Hclo]); try done.
  - constructor; [|done..]. intros x. rewrite lookup_empty. split; [by intros []|by intros ?%not_elem_of_nil].
  - simpl. rewrite Hperm. apply NoDup_fst_map_to_list.
  - intros x. by apply Hin.
  - simpl in *. exists asts. split_and!; [done| |done|].
    + intros x. by rewrite Hdom, Hin.
    + intros cond y. rewrite idents_patch. intros [[_ Hn]|(z & m & _ & Hz & Hy)]; [|by apply (Hclo z m)].
      destruct (aliases !! y) eqn:Ey; [|done]. exfalso.
      assert (y ∈ order) as [m Hm]%Hdom by (apply Hin; by eexists). congruence.
Qed.
End Expand.

(** ** A concrete instance, for evaluating examples

    A source is a list of words, each an identifier. *)
Definition sample_lang : ExprLang := {|
  program := node;
  parser_Parse := fun s => match Fields s with
    | [] => Err (Errorf "unexpected token EOF")
    | l => Ok (NOther "and" (NIdent <$> l))
    end;
  expr_compile := fun n _ => Ok n;
|}.

Module Sample.
#[local] Existing Instances sample_lang sample_tables sample_walk.

Definition aliases : gmap string string :=
  list_to_map [("valid", "found allowed"); ("found", "steps"); ("allowed", "found trigger")].

Definition cyclic : gmap string string := list_to_map [("a", "b"); ("b", "steps c"); ("c", "a")].

Example sorted_aliases : topoSortAliases aliases = Some (Ok ["found"; "allowed"; "valid"]).
Proof. by vm_compute. Qed.

Example cyclic_aliases : is_ok <$> topoSortAliases cyclic = Some false.
Proof. by vm_compute. Qed.

Lemma aliases_fully_expanded_witness :
  exists asts, buildAliasASTs aliases ["found"; "allowed"; "valid"] = Ok asts /\
    (forall cond y, y ∈ idents (patch asts cond) -> aliases !! y = None).
Proof.
  destruct (aliases_fully_expanded aliases ["found"; "allowed"; "valid"]) as (asts & H1 & _ & _ & H2).
  - by vm_compute.
  - exists asts. exact (conj H1 H2).
Defined.

Lemma topoSortAliases_correct_witness :
  exists r, topoSortAliases aliases = Some r /\ (is_ok r = true <-> all_parse aliases /\ acyclic aliases).
Proof.
  destruct (topoSortAliases_correct aliases) as (r & H1 & H2 & _). exists r. exact (conj H1 H2).
Defined.
End Sample.
