(* ===== verification/Compile.v ===== *)
(** * Compiling workflows (workflow/compile.go)

    [Compile] turns a configuration into templates and programs.  [text/template]
    is a parameter, like the expression language.  [None] is a panic: the only one
    is that of [sqlutil.HasReturningClause] on odd texts. *)
From S2P Require Import Prelude GoStrings GoValues SqlUtil RateLimit WfConfig Expr.

(** [template.New(name).Funcs(TemplateFuncs).Parse(text)] *)
Class TemplateLang := {
  template : Type;
  template_Parse : string -> string -> result template;
}.

Section Compile.
Context `{UnicodeTables, TemplateLang, ExprLang, MapWalk}.

Record CompiledRateLimit := { crl_Config : RateLimitRefConfig; crl_KeyTmpl : option template }.

Record CompiledTrigger := {
  ct_Config : TriggerConfig; ct_CacheKey : option template; ct_RateLimits : list CompiledRateLimit;
}.

Record CompiledIterate := { ci_Config : IterateConfig; ci_OverExpr : option program }.

Inductive CompiledStep : Type := Build_CompiledStep {
  cs_Config : StepConfig;
  cs_Condition : option program;
  cs_Index : Z;
  cs_CacheKeyTmpl : option template;
  cs_ParamTmpls : gmap string template;
  cs_SQLTmpl : option template; cs_IsWrite : bool; cs_HasReturning : bool;
  cs_URLTmpl : option template; cs_BodyTmpl : option template; cs_HeaderTmpls : gmap string template;
  cs_TemplateTmpl : option template;
  cs_Iterate : option CompiledIterate; cs_BlockSteps : list CompiledStep;
}.

Record CompiledWorkflow := {
  cw_Config : WorkflowConfig; cw_Conditions : gmap string string;
  cw_Triggers : list CompiledTrigger; cw_Steps : list CompiledStep;
}.

(** A compilation may also panic. *)
Definition C (A : Type) : Type := option (result A).
Definition cret {A} (a : A) : C A := Some (Ok a).
Definition cerr {A} (e : error) : C A := Some (Err e).
Definition cbind {A B} (m : C A) (f : A -> C B) : C B :=
  match m with None => None | Some (Err e) => Some (Err e) | Some (Ok a) => f a end.

(** [fmt.Errorf(pre + "%w", err)] around a failing step. *)
Definition cwrap {A} (pre : string) (m : C A) : C A :=
  match m with Some (Err e) => Some (Err (Wrapf pre e "")) | _ => m end.

(** A template that is compiled only if its source is not empty. *)
Definition opt_template (name label src : string) : C (option template) :=
  if decide (src = "") then cret None
  else cwrap (label +:+ ": ") (cbind (Some (template_Parse name src)) (fun t => cret (Some t))).

(** A map of templates, in the order of the map walk. *)
Fixpoint compile_templates (kind name_prefix : string) (l : list (string * string))
    (acc : gmap string template) : C (gmap string template) :=
  match l with
  | [] => cret acc
  | (name, val) :: l' =>
    cbind (cwrap (kind +:+ "[" +:+ name +:+ "] template: ") (Some (template_Parse (name_prefix +:+ name) val)))
      (fun t => compile_templates kind name_prefix l' (<[name := t]> acc))
  end.

Definition compile_params (cfg : StepConfig) : C (gmap string template) :=
  compile_templates "params" "param_" (walk (sc_Params cfg)) ∅.

Definition compile_headers (cfg : StepConfig) : C (gmap string template) :=
  compile_templates "headers" "header_" (walk (sc_Headers cfg)) ∅.

(** The rate limits of a trigger, numbered from [i]. *)
Fixpoint compile_rate_limits (i : nat) (l : list RateLimitRefConfig) : C (list CompiledRateLimit) :=
  match l with
  | [] => cret []
  | rl :: l' =>
    cbind (opt_template "rate_limit_key" ("rate_limit[" +:+ pretty i +:+ "].key template") (rl_Key rl))
      (fun t => cbind (compile_rate_limits (S i) l')
        (fun r => cret ({| crl_Config := rl; crl_KeyTmpl := t |} :: r)))
  end.

Definition compileTrigger (cfg : TriggerConfig) : C CompiledTrigger :=
  cbind (match tc_Cache cfg with
         | Some c => opt_template "cache_key" "cache.key template" (cc_Key c)
         | None => cret None
         end) (fun key =>
  cbind (compile_rate_limits 0 (tc_RateLimit cfg)) (fun rls =>
  cret {| ct_Config := cfg; ct_CacheKey := key; ct_RateLimits := rls |})).

Definition step_label (name : string) (i : nat) : string :=
  "steps[" +:+ (if decide (name = "") then "#" +:+ pretty i else name) +:+ "]: ".

(** The compiled step before its type-specific fields. *)
Definition base_step (cfg : StepConfig) (index : Z) (cond : option program) (key : option template)
    (params : gmap string template) : CompiledStep :=
  {| cs_Config := cfg; cs_Condition := cond; cs_Index := index; cs_CacheKeyTmpl := key;
     cs_ParamTmpls := params; cs_SQLTmpl := None; cs_IsWrite := false; cs_HasReturning := false;
     cs_URLTmpl := None; cs_BodyTmpl := None; cs_HeaderTmpls := ∅; cs_TemplateTmpl := None;
     cs_Iterate := None; cs_BlockSteps := [] |}.

Definition compile_query (cs : CompiledStep) : C CompiledStep :=
  let cfg := cs_Config cs in
  cbind (opt_template "sql" "sql template" (sc_SQL cfg)) (fun t =>
  match t with
  | None => cret cs
  | Some t =>
    match HasReturningClause (sc_SQL cfg) with
    | None => None
    | Some returning =>
      cret {| cs_Config := cfg; cs_Condition := cs_Condition cs; cs_Index := cs_Index cs;
              cs_CacheKeyTmpl := cs_CacheKeyTmpl cs; cs_ParamTmpls := cs_ParamTmpls cs;
              cs_SQLTmpl := Some t; cs_IsWrite := IsWriteQuery (sc_SQL cfg); cs_HasReturning := returning;
              cs_URLTmpl := None; cs_BodyTmpl := None; cs_HeaderTmpls := ∅; cs_TemplateTmpl := None;
              cs_Iterate := None; cs_BlockSteps := [] |}
    end
  end).

Definition compile_httpcall (cs : CompiledStep) : C CompiledStep :=
  let cfg := cs_Config cs in
  cbind (opt_template "url" "url template" (sc_URL cfg)) (fun url =>
  cbind (opt_template "body" "body template" (sc_Body cfg)) (fun body =>
  cbind (compile_headers cfg) (fun headers =>
  cret {| cs_Config := cfg; cs_Condition := cs_Condition cs; cs_Index := cs_Index cs;
          cs_CacheKeyTmpl := cs_CacheKeyTmpl cs; cs_ParamTmpls := cs_ParamTmpls cs;
          cs_SQLTmpl := None; cs_IsWrite := false; cs_HasReturning := false;
          cs_URLTmpl := url; cs_BodyTmpl := body; cs_HeaderTmpls := headers; cs_TemplateTmpl := None;
          cs_Iterate := None; cs_BlockSteps := [] |}))).

Definition compile_response (cs : CompiledStep) : C CompiledStep :=
  let cfg := cs_Config cs in
  cbind (opt_template "response" "template" (sc_Template cfg)) (fun t =>
  cbind (compile_headers cfg) (fun headers =>
  cret {| cs_Config := cfg; cs_Condition := cs_Condition cs; cs_Index := cs_Index cs;
          cs_CacheKeyTmpl := cs_CacheKeyTmpl cs; cs_ParamTmpls := cs_ParamTmpls cs;
          cs_SQLTmpl := None; cs_IsWrite := false; cs_HasReturning := false;
          cs_URLTmpl := None; cs_BodyTmpl := None; cs_HeaderTmpls := headers; cs_TemplateTmpl := t;
          cs_Iterate := None; cs_BlockSteps := [] |})).

Definition compile_iterate (it : option IterateConfig) : C (option CompiledIterate) :=
  match it with
  | None => cret None
  | Some cfg =>
    cbind (if decide (it_Over cfg = "") then cret None
           else cwrap "iterate.over: " (cbind (Some (compileExpression (it_Over cfg))) (fun p => cret (Some p))))
      (fun over => cret (Some {| ci_Config := cfg; ci_OverExpr := over |}))
  end.

Definition with_block (cs : CompiledStep) (it : option CompiledIterate) (steps : list CompiledStep)
    : CompiledStep :=
  {| cs_Config := cs_Config cs; cs_Condition := cs_Condition cs; cs_Index := cs_Index cs;
     cs_CacheKeyTmpl := cs_CacheKeyTmpl cs; cs_ParamTmpls := cs_ParamTmpls cs;
     cs_SQLTmpl := None; cs_IsWrite := false; cs_HasReturning := false;
     cs_URLTmpl := None; cs_BodyTmpl := None; cs_HeaderTmpls := ∅; cs_TemplateTmpl := None;
     cs_Iterate := it; cs_BlockSteps := steps |}.

Fixpoint compileStep (cfg : StepConfig) (index : Z) (aliasASTs : gmap string node) {struct cfg}
    : C CompiledStep :=
  cbind (if decide (sc_Condition cfg = "") then cret None
         else cwrap "condition: " (cbind (Some (compileConditionWithAliases (sc_Condition cfg) aliasASTs))
                                     (fun p => cret (Some p)))) (fun cond =>
  cbind (match sc_Cache cfg with
         | Some c => opt_template "cache_key" "cache.key template" (sk_Key c)
         | None => cret None
         end) (fun key =>
  cbind (compile_params cfg) (fun params =>
  let cs := base_step cfg index cond key params in
  let type := StepType cfg in
  if decide (type = "query") then compile_query cs
  else if decide (type = "httpcall") then compile_httpcall cs
  else if decide (type = "response") then compile_response cs
  else if decide (type = "block") then
    cbind (compile_iterate (sc_Iterate cfg)) (fun it =>
    cbind (match sc_Steps cfg with
           | None => cret []
           | Some steps =>
             (fix nested (i : nat) (l : list StepConfig) : C (list CompiledStep) :=
                match l with
                | [] => cret []
                | s :: l' =>
                  cbind (cwrap (step_label (sc_Name s) i) (compileStep s (Z.of_nat i) aliasASTs))
                    (fun cs => cbind (nested (S i) l') (fun r => cret (cs :: r)))
                end) 0%nat steps
           end) (fun steps => cret (with_block cs it steps)))
  else cret cs))).

Fixpoint compile_steps (i : nat) (l : list StepConfig) (asts : gmap string node) : C (list CompiledStep) :=
  match l with
  | [] => cret []
  | s :: l' =>
    cbind (cwrap (step_label (sc_Name s) i) (compileStep s (Z.of_nat i) asts))
      (fun cs => cbind (compile_steps (S i) l' asts) (fun r => cret (cs :: r)))
  end.

Fixpoint compile_triggers (i : nat) (l : list TriggerConfig) : C (list CompiledTrigger) :=
  match l with
  | [] => cret []
  | t :: l' =>
    cbind (cwrap ("triggers[" +:+ pretty i +:+ "]: ") (compileTrigger t))
      (fun ct => cbind (compile_triggers (S i) l') (fun r => cret (ct :: r)))
  end.

(** The alias trees of a workflow. *)
Definition compile_aliases (conditions : gmap string string) : C (gmap string node) :=
  if decide (conditions = ∅) then cret ∅
  else cwrap "conditions: " (cbind (topoSortAliases conditions) (fun order =>
         Some (buildAliasASTs conditions order))).

Definition Compile (cfg : WorkflowConfig) : C CompiledWorkflow :=
  cbind (compile_aliases (wc_Conditions cfg)) (fun asts =>
  cbind (compile_triggers 0 (wc_Triggers cfg)) (fun triggers =>
  cbind (compile_steps 0 (wc_Steps cfg) asts) (fun steps =>
  cret {| cw_Config := cfg; cw_Conditions := wc_Conditions cfg; cw_Triggers := triggers;
          cw_Steps := steps |}))).

(** ** Lemmas *)

Lemma cbind_Ok {A B} (m : C A) (f : A -> C B) b :
  cbind m f = Some (Ok b) <-> exists a, m = Some (Ok a) /\ f a = Some (Ok b).
Proof. destruct m as [[a|e]|]; simpl; naive_solver. Qed.

Lemma cwrap_Ok {A} pre (m : C A) a : cwrap pre m = Some (Ok a) <-> m = Some (Ok a).
Proof. destruct m as [[]|]; simpl; naive_solver. Qed.

Lemma opt_template_Ok name label src t : opt_template name label src = Some (Ok t) ->
  src <> "" -> is_Some t.
Proof.
  unfold opt_template. case_decide; [done|]. rewrite cwrap_Ok, cbind_Ok. intros (x & _ & [= <-]). by eexists.
Qed.

(** The type-specific part of [compileStep]. *)
Definition compile_by_type (cfg : StepConfig) (aliasASTs : gmap string node) (cs : CompiledStep)
    : C CompiledStep :=
  let type := StepType cfg in
  if decide (type = "query") then compile_query cs
  else if decide (type = "httpcall") then compile_httpcall cs
  else if decide (type = "response") then compile_response cs
  else if decide (type = "block") then
    cbind (compile_iterate (sc_Iterate cfg)) (fun it =>
    cbind (match sc_Steps cfg with None => cret [] | Some steps => compile_steps 0 steps aliasASTs end)
      (fun steps => cret (with_block cs it steps)))
  else cret cs.

Lemma compileStep_Ok cfg index asts cs : compileStep cfg index asts = Some (Ok cs) ->
  exists cond key params, compile_by_type cfg asts (base_step cfg index cond key params) = Some (Ok cs).
Proof.
  assert (forall i l, (fix nested (i : nat) (l : list StepConfig) : C (list CompiledStep) :=
    match l with
    | [] => cret []
    | s :: l' => cbind (cwrap (step_label (sc_Name s) i) (compileStep s (Z.of_nat i) asts))
                   (fun cs => cbind (nested (S i) l') (fun r => cret (cs :: r)))
    end) i l = compile_steps i l asts) as Hfix.
  { intros i l. revert i. induction l as [|s l IH]; intros i; simpl; [done|].
    destruct (cwrap _ _) as [[]|]; simpl; try done. by rewrite IH. }
  destruct cfg as [name dis condition oe ty cache params db sql iso lock dl jc url hm hd bd pa to re sc te it inp
    steps out]. cbn [compileStep].
  rewrite cbind_Ok. intros (cond & _ & Hk). rewrite cbind_Ok in Hk. destruct Hk as (key & _ & Hk).
  rewrite cbind_Ok in Hk. destruct Hk as (ps & _ & Hk). exists cond, key, ps. revert Hk.
  unfold compile_by_type. cbv zeta. cbn [sc_Iterate sc_Steps]. destruct steps as [l|]; [|done].
  by rewrite Hfix.
Qed.

Lemma compile_steps_Ok i l asts css : compile_steps i l asts = Some (Ok css) ->
  Forall2 (fun cfg cs => exists index, compileStep cfg index asts = Some (Ok cs)) l css.
Proof.
  revert i css. induction l as [|s l IH]; intros i css; simpl.
  { intros [= <-]. constructor. }
  rewrite cbind_Ok. intros (cs & Hcs & Hk). rewrite cbind_Ok in Hk. destruct Hk as (r & Hr & [= <-]).
  apply cwrap_Ok in Hcs. constructor; [by eexists|]. by apply (IH (S i)).
Qed.

(** A leaf step whose type has the source it needs. *)
Definition source_present (cfg : StepConfig) : Prop :=
  (StepType cfg = "query" -> sc_SQL cfg <> "") /\
  (StepType cfg = "httpcall" -> sc_URL cfg <> "") /\
  (StepType cfg = "response" -> sc_Template cfg <> "").

(** What compilation keeps of a step and what it provides. *)
Lemma compile_by_type_spec cfg asts index cond key params cs :
  compile_by_type cfg asts (base_step cfg index cond key params) = Some (Ok cs) ->
  cs_Config cs = cfg /\
  (source_present cfg ->
     (StepType cfg = "query" -> is_Some (cs_SQLTmpl cs)) /\
     (StepType cfg = "httpcall" -> is_Some (cs_URLTmpl cs)) /\
     (StepType cfg = "response" -> is_Some (cs_TemplateTmpl cs))) /\
  (cs_BlockSteps cs = [] \/ exists l, sc_Steps cfg = Some l /\
     compile_steps 0 l asts = Some (Ok (cs_BlockSteps cs))).
Proof.
  unfold compile_by_type, source_present. cbv zeta. case_decide as Ty; [|case_decide as Ty2; [|case_decide as Ty3; [|case_decide as Ty4]]].
  - unfold compile_query. rewrite cbind_Ok. cbn [cs_Config base_step]. intros (t & Ht & Hk).
    pose proof (opt_template_Ok _ _ _ _ Ht) as Hsome. destruct t as [t|].
    + destruct (HasReturningClause _) as [returning|]; [|done]. injection Hk as <-. simpl. rewrite Ty.
      split_and!; [done|intros _; split_and!; [by eexists|done|done]|by left].
    + injection Hk as <-. split_and!; [done| |by left]. intros (Hs & _). by destruct (Hsome (Hs Ty)).
  - unfold compile_httpcall. rewrite cbind_Ok. cbn [cs_Config base_step]. intros (t & Ht & Hk).
    rewrite cbind_Ok in Hk. destruct Hk as (b & _ & Hk). rewrite cbind_Ok in Hk. destruct Hk as (h & _ & [= <-]).
    pose proof (opt_template_Ok _ _ _ _ Ht) as Hsome. simpl. rewrite Ty2.
    split_and!; [done|intros (_ & Hu & _); split_and!; [done|intros _; by apply Hsome, Hu|done]|by left].
  - unfold compile_response. rewrite cbind_Ok. cbn [cs_Config base_step]. intros (t & Ht & Hk).
    rewrite cbind_Ok in Hk. destruct Hk as (h & _ & [= <-]).
    pose proof (opt_template_Ok _ _ _ _ Ht) as Hsome. simpl. rewrite Ty3.
    split_and!; [done|intros (_ & _ & Hu); split_and!; [done|done|intros _; by apply Hsome, Hu]|by left].
  - rewrite cbind_Ok. intros (it & _ & Hk). rewrite cbind_Ok in Hk. destruct Hk as (steps & Hs & [= <-]).
    simpl. split_and!; [done|intros _; rewrite Ty4; done|].
    destruct (sc_Steps cfg) as [l|]; [right; by exists l|]. injection Hs as <-. by left.
  - intros [= <-]. simpl. split_and!; [done|tauto|by left].
Qed.

Lemma compileStep_config cfg index asts cs : compileStep cfg index asts = Some (Ok cs) -> cs_Config cs = cfg.
Proof. intros (cond & key & params & H')%compileStep_Ok. by apply compile_by_type_spec in H' as [? _]. Qed.
End Compile.
