(* ===== verification/Executor.v ===== *)
(** * Running workflows (workflow/executor.go, execute_query.go, execute_httpcall.go,
      execute_response.go)

    Execution acts on the world [W] outside the program (databases, HTTP servers,
    the step cache, the clock, cancellation) and on the response writer, whose
    behaviour is that of net/http with the handler's capture layer on top.  Log
    calls, which nothing reads back, are left out. *)
From S2P Require Import Prelude GoStrings GoValues Numbers Patterns SqlUtil RateLimit WfConfig.
From S2P Require Import SqlParams Expr Compile.

(** ** Interfaces *)

(** step.QueryOptions and step.QueryResult *)
Record QueryOptions := {
  qo_Isolation : string; qo_LockTimeoutMs : option Z; qo_DeadlockPriority : string;
  qo_JSONColumns : list string; qo_IsWrite : option bool; qo_HasReturning : option bool;
}.
Record QueryResult := { qr_Rows : option Rows; qr_RowsAffected : Z }.

(** http.Request and http.Response as far as the steps use them. *)
Record Request := {
  rq_Method : string; rq_URL : string; rq_Body : option string; rq_Header : Header;
}.
Record Response := { rs_StatusCode : Z; rs_Header : Header; rs_Body : string }.

(** What the executor calls outside the package.  [ctx_Err] is the non-blocking
    look at [ctx.Done()]; [ctx_Sleep] waits for a duration or for the end of the
    context, whichever is first; [body_Read] reads a response body to its end, or
    fails, in particular when the body was closed before; [resp_Write] is the error
    of the connection on writing to the client, if any.  A call of a database may panic
    ([None]): the drivers use a pool that is nil after a reconnection that failed.  A
    template is taken to return; the functions it calls do, but for formatBytes on an
    infinite number, which does not. *)
Class Platform `{TemplateLang, ExprLang} (W : Type) := {
  gctx : Type;
  ctx_WithTimeout : gctx -> Z -> W -> gctx * W;
  ctx_Err : gctx -> W -> option error * W;
  ctx_Sleep : gctx -> Z -> W -> option error * W;
  time_Now : W -> Z * W;
  tmpl_Execute : template -> row -> W -> result string * W;
  vm_Run : program -> row -> W -> result any * W;
  db_ExecuteQuery : gctx -> string -> string -> row -> QueryOptions -> W -> option (result QueryResult) * W;
  http_NewRequest : string -> string -> option error;
  http_Do : gctx -> Request -> W -> result Response * W;
  body_Read : Response -> bool -> W -> result string * W;
  url_ParseQuery : string -> result (gmap string (list string));
  resp_Write : string -> W -> option error * W;
  step_cache : bool;                     (* e.cache != nil *)
  cache_Get : string -> string -> W -> option Rows * W;
  cache_Set : string -> string -> Rows -> Z -> W -> bool * W;
}.

(** ** The response writer *)

(** What [responseCapture] records. *)
Record Capture := { cap_body : string; cap_statusCode : Z; cap_wroteHeader : bool }.

(** net/http's writer: the header map, the status line and headers once sent, the
    body bytes sent; the status [statusWriter] has recorded, 0 for none; and the capture
    layer if the handler installed one. *)
Record RespWriter := {
  rw_header : Header; rw_status : option Z; rw_sent : Header; rw_body : string;
  rw_recorded : Z; rw_capture : option Capture;
}.

Definition rw_Header_Set (w : RespWriter) (name value : string) : RespWriter :=
  {| rw_header := <[CanonicalHeaderKey name := [value]]> (rw_header w); rw_status := rw_status w;
     rw_sent := rw_sent w; rw_body := rw_body w; rw_recorded := rw_recorded w; rw_capture := rw_capture w |}.

Definition set_capture (w : RespWriter) (c : Capture) : RespWriter :=
  {| rw_header := rw_header w; rw_status := rw_status w; rw_sent := rw_sent w; rw_body := rw_body w;
     rw_recorded := rw_recorded w; rw_capture := Some c |}.

(** net/http sends the status line and headers once; later calls have no effect.  A
    code of other than three digits panics, an informational one is not the final
    status. *)
Definition valid_code (code : Z) : bool := bool_decide (100 <= code <= 999).
Definition informational (code : Z) : bool := bool_decide (100 <= code <= 199 /\ code <> 101).

Definition commit_header (w : RespWriter) (code : Z) : RespWriter :=
  {| rw_header := rw_header w; rw_status := Some code; rw_sent := rw_header w; rw_body := rw_body w;
     rw_recorded := rw_recorded w; rw_capture := rw_capture w |}.

Definition http_WriteHeader (w : RespWriter) (code : Z) : option RespWriter :=
  match rw_status w with
  | Some _ => Some w
  | None =>
    if negb (valid_code code) then None
    else if informational code then Some w
    else Some (commit_header w code)
  end.

(** Statuses that allow no body: there a write of data fails. *)
Definition bodyAllowedForStatus (code : Z) : bool :=
  negb (bool_decide (100 <= code <= 199)) && negb (bool_decide (code = 204)) &&
  negb (bool_decide (code = 304)).

Definition ErrBodyNotAllowed : error :=
  Errorf "http: request method or response status code does not allow body".

(** [Write] sends the header with status 200 if none was sent; the result is the
    error of the write. *)
Definition http_Write (w : RespWriter) (b : string) : option error * RespWriter :=
  let code := default 200 (rw_status w) in
  let w := match rw_status w with Some _ => w | None => commit_header w 200 end in
  if decide (b = "") then (None, w)
  else if negb (bodyAllowedForStatus code) then (Some ErrBodyNotAllowed, w)
  else (None, {| rw_header := rw_header w; rw_status := rw_status w; rw_sent := rw_sent w;
                 rw_body := rw_body w +:+ b; rw_recorded := rw_recorded w; rw_capture := rw_capture w |}).

(** [statusWriter] around it: the last code given to [WriteHeader] is recorded, whether
    it is sent or not, else 200 by the first [Write]. *)
Definition record_status (w : RespWriter) (code : Z) : RespWriter :=
  {| rw_header := rw_header w; rw_status := rw_status w; rw_sent := rw_sent w; rw_body := rw_body w;
     rw_recorded := code; rw_capture := rw_capture w |}.

Definition sw_WriteHeader (w : RespWriter) (code : Z) : option RespWriter := http_WriteHeader (record_status w code) code.

Definition sw_Write (w : RespWriter) (b : string) : option error * RespWriter :=
  http_Write (record_status w (if decide (rw_recorded w = 0) then 200 else rw_recorded w)) b.

(** [responseCapture.WriteHeader] and [responseCapture.Write], or those of the status
    writer. *)
Definition rw_WriteHeader (code : Z) (w : RespWriter) : option RespWriter :=
  match rw_capture w with
  | None => sw_WriteHeader w code
  | Some c =>
    if cap_wroteHeader c then Some w
    else sw_WriteHeader
      (set_capture w {| cap_body := cap_body c; cap_statusCode := code; cap_wroteHeader := true |}) code
  end.

Definition rw_Write (b : string) (w : RespWriter) : option error * RespWriter :=
  match rw_capture w with
  | None => sw_Write w b
  | Some c =>
    sw_Write (set_capture w
      {| cap_body := cap_body c +:+ b;
         cap_statusCode := if cap_wroteHeader c then cap_statusCode c else 200;
         cap_wroteHeader := true |}) b
  end.

(** ** Execution *)

Section Exec.
Context `{UnicodeTables, TL : TemplateLang, EL : ExprLang, MapWalk, ExprFuncs, FloatText, GoText}.
Context {W : Type} {P : Platform W}.

Record St := { st_world : W; st_rw : option RespWriter }.

Abbreviation X := (M St).

(** A call to the world; an operation on the response writer. *)
Definition call {A} (op : W -> A * W) : X A :=
  lift (fun s => let '(a, w) := op (st_world s) in (a, {| st_world := w; st_rw := st_rw s |})).

(** One that may panic. *)
Definition risky_call {A} (op : W -> option A * W) : X A := fun s =>
  let '(o, w) := op (st_world s) in (o, {| st_world := w; st_rw := st_rw s |}).

Definition on_rw (f : RespWriter -> RespWriter) : X unit :=
  lift (fun s => (tt, {| st_world := st_world s; st_rw := f <$> st_rw s |})).

(** [w.WriteHeader(code)] and [w.Write(b)]; the error is that of net/http or of the
    connection.  No caller reaches them without a writer. *)
Definition send_status (code : Z) : X unit := fun s =>
  match st_rw s with
  | None => (Some tt, s)
  | Some w =>
    match rw_WriteHeader code w with
    | None => (None, s)
    | Some w' => (Some tt, {| st_world := st_world s; st_rw := Some w' |})
    end
  end.

Definition send_body (b : string) : X (option error) := fun s =>
  match st_rw s with
  | None => (Some None, s)
  | Some w =>
    let '(e, w') := rw_Write b w in
    let '(e', world) := resp_Write b (st_world s) in
    (Some (match e with Some e => Some e | None => e' end), {| st_world := world; st_rw := Some w' |})
  end.

Definition has_rw : X bool :=
  lift (fun s => (match st_rw s with Some _ => true | None => false end, s)).

Definition Millisecond : Z := 1000000.
Definition Second : Z := 1000000000.

(** [time.Since(start).Milliseconds()] *)
Definition ms_since (start : Z) : X Z :=
  let* t := call time_Now in ret (Z.quot (time_Sub t start) Millisecond).

(** A template the code dereferences: a nil one panics. *)
Definition deref_template (t : option template) : X template :=
  match t with Some t => ret t | None => panic end.

(** [result.Error = e; result.DurationMs = ...; return result, nil] *)
Definition fail_step (e : error) (start : Z) : X StepResult :=
  let* ms := ms_since start in ret (failed_result e ms).

Definition EvalCondition (prog : program) (env : row) : X (result bool) :=
  let* r := call (vm_Run prog env) in
  ret (match r with
       | Err e => Err e
       | Ok (ABool b) => Ok b
       | Ok v => Err (Errorf ("condition did not return bool: " +:+ type_name v))
       end).

Definition EvalExpression (prog : program) (env : row) : X (result any) := call (vm_Run prog env).

(** *** Query steps *)

Definition executeQueryStep (ctx : gctx) (cs : CompiledStep) (data : row) : X StepResult :=
  let* start := call time_Now in
  let* t := deref_template (cs_SQLTmpl cs) in
  let* r := call (tmpl_Execute t data) in
  match r with
  | Err e => fail_step (Wrapf "sql template error: " e "") start
  | Ok sql =>
    let params := extractSQLParams sql data in
    let cfg := cs_Config cs in
    let opts := {| qo_Isolation := sc_Isolation cfg; qo_LockTimeoutMs := sc_LockTimeoutMs cfg;
                   qo_DeadlockPriority := sc_DeadlockPriority cfg; qo_JSONColumns := sc_JSONColumns cfg;
                   qo_IsWrite := Some (cs_IsWrite cs); qo_HasReturning := Some (cs_HasReturning cs) |} in
    let* r := risky_call (db_ExecuteQuery ctx (sc_Database cfg) sql params opts) in
    match r with
    | Err e => fail_step e start
    | Ok qr =>
      let* ms := ms_since start in
      ret {| sr_Name := ""; sr_Type := ""; sr_Success := true; sr_Error := None; sr_DurationMs := ms;
             sr_CacheHit := false; sr_Data := qr_Rows qr; sr_Count := len_rows (qr_Rows qr);
             sr_RowsAffected := qr_RowsAffected qr; sr_StatusCode := 0; sr_Headers := ∅;
             sr_ResponseBody := ""; sr_Iterations := None; sr_SuccessCount := 0; sr_FailureCount := 0;
             sr_SkippedCount := 0 |}
    end
  end.

(** *** HTTP calls *)

(** [req.Header.Set] and [req.Header.Get] *)
Definition header_Set (h : Header) (name value : string) : Header := <[CanonicalHeaderKey name := [value]]> h.
Definition header_Get (h : Header) (name : string) : string :=
  match h !! CanonicalHeaderKey name with Some (v :: _) => v | _ => "" end.

Fixpoint set_headers (l : list (string * template)) (data : row) (h : Header) : X (result Header) :=
  match l with
  | [] => ret (Ok h)
  | (name, t) :: l' =>
    let* r := call (tmpl_Execute t data) in
    match r with
    | Err e => ret (Err (Wrapf ("header '" +:+ name +:+ "' template error: ") e ""))
    | Ok v => set_headers l' data (header_Set h name v)
    end
  end.

Definition buildHTTPRequest (method url : string) (bodyTmpl : option template)
    (headerTmpls : gmap string template) (data : row) : X (result Request) :=
  let* body := match bodyTmpl with
               | None => ret (Ok None)
               | Some t =>
                 let* r := call (tmpl_Execute t data) in
                 ret (match r with
                      | Err e => Err (Wrapf "body template error: " e "")
                      | Ok b => Ok (Some b)
                      end)
               end in
  match body with
  | Err e => ret (Err e)
  | Ok body =>
    match http_NewRequest method url with
    | Some e => ret (Err (Wrapf "create request error: " e ""))
    | None =>
      let* r := set_headers (walk headerTmpls) data ∅ in
      match r with
      | Err e => ret (Err e)
      | Ok h =>
        let h := if decide (body <> None /\ header_Get h "Content-Type" = "")
                 then header_Set h "Content-Type" "application/json" else h in
        ret (Ok {| rq_Method := method; rq_URL := url; rq_Body := body; rq_Header := h |})
      end
    end
  end.

(** What the retry loop ends with: the last response with whether its body was
    closed, the last transport error, or an early failure of the step. *)
Inductive attempt_end :=
| Replied (resp : Response) (closed : bool)
| Unreachable (e : error)
| GaveUp (e : error).

(** The outcome of one attempt: a response below 500 is kept open, the body of a
    worse one is closed at once. *)
Definition attempt_outcome (r : result Response) : attempt_end :=
  match r with
  | Ok resp => Replied resp (bool_decide (500 <= rs_StatusCode resp))
  | Err e => Unreachable e
  end.

Definition attempt_good (a : attempt_end) : bool :=
  match a with Replied _ closed => negb closed | _ => false end.

(** The loop, with [left] attempts after the current one. *)
Fixpoint http_attempts (ctx : gctx) (rebuild : X (result Request)) (maxBackoff : Z)
    (left : nat) (req : Request) (backoff : Z) : X attempt_end :=
  let* r := call (http_Do ctx req) in
  if attempt_good (attempt_outcome r) then ret (attempt_outcome r)
  else match left with
  | O => ret (attempt_outcome r)
  | S left' =>
    let* stop := call (ctx_Sleep ctx backoff) in
    match stop with
    | Some e => ret (GaveUp e)
    | None =>
      let backoff := i64 (backoff * 2) in
      let backoff := if decide (backoff > maxBackoff) then maxBackoff else backoff in
      let* r := rebuild in
      match r with
      | Err e => ret (GaveUp (Wrapf "" e " (on retry)"))
      | Ok req => http_attempts ctx rebuild maxBackoff left' req backoff
      end
    end
  end.

Definition max_attempts (retry : option RetryConfig) : Z :=
  match retry with
  | Some r => if re_Enabled r then (if decide (re_MaxAttempts r <= 0) then 3 else re_MaxAttempts r) else 1
  | None => 1
  end.

Definition initial_backoff (retry : option RetryConfig) : Z :=
  match retry with
  | Some r => if decide (re_InitialBackoffSec r > 0) then i64 (re_InitialBackoffSec r * Second) else Second
  | None => Second
  end.

Definition max_backoff (retry : option RetryConfig) : Z :=
  match retry with
  | Some r => if decide (re_MaxBackoffSec r > 0) then i64 (re_MaxBackoffSec r * Second) else 30 * Second
  | None => 30 * Second
  end.

Definition value_row (v : any) : row := {[ "value" := v ]}.

Definition normalizeJSONResponse (v : any) : Rows :=
  match v with
  | AList l => (fun item => match item with AMap m => m | _ => value_row item end) <$> l
  | AMap m => [m]
  | _ => [value_row v]
  end.

(** The parsed body: the rows, or the error that fails the step. *)
Definition parse_body (parse body : string) : result (option Rows) :=
  if decide (parse = "json") then
    match json_Unmarshal body with
    | Err e => Err (Wrapf "json parse error: " e "")
    | Ok v => Ok (Some (normalizeJSONResponse v))
    end
  else if decide (parse = "form") then
    match url_ParseQuery body with
    | Err e => Err (Wrapf "form parse error: " e "")
    | Ok values => Ok (Some [headerToMap values])
    end
  else if decide (parse = "text") then Ok (Some [ {[ "body" := AStr body ]} ])
  else Ok None.

(** The result of a call that got a response and its body. *)
Definition http_result (resp : Response) (body parse : string) (ms : Z) : StepResult :=
  let ok := bool_decide (200 <= rs_StatusCode resp < 300) in
  let parsed := if ok then parse_body parse body else Ok None in
  {| sr_Name := ""; sr_Type := ""; sr_Success := ok && is_ok parsed;
     sr_Error := match parsed with Err e => Some e | Ok _ => None end; sr_DurationMs := ms;
     sr_CacheHit := false; sr_Data := match parsed with Ok d => d | Err _ => None end;
     sr_Count := match parsed with Ok d => len_rows d | Err _ => 0 end;
     sr_RowsAffected := 0; sr_StatusCode := rs_StatusCode resp; sr_Headers := rs_Header resp;
     sr_ResponseBody := body; sr_Iterations := None; sr_SuccessCount := 0; sr_FailureCount := 0;
     sr_SkippedCount := 0 |}.

Definition executeHTTPCallStep (ctx : gctx) (cs : CompiledStep) (data : row) : X StepResult :=
  let cfg := cs_Config cs in
  let* start := call time_Now in
  let method := if decide (sc_HTTPMethod cfg = "") then "GET" else sc_HTTPMethod cfg in
  let parse := if decide (sc_Parse cfg = "") then "json" else sc_Parse cfg in
  let* ctx := if decide (sc_TimeoutSec cfg > 0)
              then call (ctx_WithTimeout ctx (i64 (sc_TimeoutSec cfg * Second))) else ret ctx in
  let* t := deref_template (cs_URLTmpl cs) in
  let* r := call (tmpl_Execute t data) in
  match r with
  | Err e => fail_step (Wrapf "url template error: " e "") start
  | Ok url =>
    let rebuild := buildHTTPRequest method url (cs_BodyTmpl cs) (cs_HeaderTmpls cs) data in
    let* r := rebuild in
    match r with
    | Err e => fail_step e start
    | Ok req =>
      let retry := sc_Retry cfg in
      let* out := http_attempts ctx rebuild (max_backoff retry)
                    (Z.to_nat (max_attempts retry - 1)) req (initial_backoff retry) in
      match out with
      | GaveUp e | Unreachable e => fail_step e start
      | Replied resp closed =>
        let* r := call (body_Read resp closed) in
        match r with
        | Err e => fail_step (Wrapf "read response error: " e "") start
        | Ok body => let* ms := ms_since start in ret (http_result resp body parse ms)
        end
      end
    end
  end.

(** *** Response steps *)

Fixpoint render_headers (l : list (string * template)) (data : row) (start : Z) : X (option StepResult) :=
  match l with
  | [] => ret None
  | (name, t) :: l' =>
    let* r := call (tmpl_Execute t data) in
    match r with
    | Err e =>
      let* f := fail_step (Wrapf ("header " +:+ name +:+ " template error: ") e "") start in ret (Some f)
    | Ok v => let* _ := on_rw (fun w => rw_Header_Set w name v) in render_headers l' data start
    end
  end.

Definition response_status (cs : CompiledStep) : Z :=
  if decide (sc_StatusCode (cs_Config cs) = 0) then 200 else sc_StatusCode (cs_Config cs).

Definition executeResponseStep (cs : CompiledStep) (data : row) : X StepResult :=
  let* start := call time_Now in
  let* present := has_rw in
  if negb present then
    fail_step (Errorf "response step called without ResponseWriter (cron trigger?)") start
  else
    let* t := deref_template (cs_TemplateTmpl cs) in
    let* r := call (tmpl_Execute t data) in
    match r with
    | Err e => fail_step (Wrapf "response template error: " e "") start
    | Ok body =>
      let* bad := render_headers (walk (cs_HeaderTmpls cs)) data start in
      match bad with
      | Some f => ret f
      | None =>
        let statusCode := response_status cs in
        let* _ := on_rw (fun w => rw_Header_Set w "Content-Type" "application/json") in
        let* _ := send_status statusCode in
        let* err := send_body body in
        match err with
        | Some e => fail_step (Wrapf "write response error: " e "") start
        | None =>
          let* ms := ms_since start in
          ret {| sr_Name := ""; sr_Type := ""; sr_Success := true; sr_Error := None; sr_DurationMs := ms;
                 sr_CacheHit := false; sr_Data := None; sr_Count := 0; sr_RowsAffected := 0;
                 sr_StatusCode := statusCode; sr_Headers := ∅; sr_ResponseBody := body;
                 sr_Iterations := None; sr_SuccessCount := 0; sr_FailureCount := 0; sr_SkippedCount := 0 |}
        end
      end
    end.

(** *** Blocks *)

Definition step_key (name : string) (i : nat) : string :=
  if decide (name = "") then "step_" +:+ pretty i else name.

Definition on_error_of (s : string) : string := if decide (s = "") then "abort" else s.

(** Whether a step's condition lets it run; an error counts as no. *)
Definition should_run (cond : option program) (env : row) : X bool :=
  match cond with
  | None => ret true
  | Some prog =>
    let* r := EvalCondition prog env in
    ret (match r with Ok b => b | Err _ => false end)
  end.

(** The steps a block may contain. *)
Definition execute_nested (ctx : gctx) (cs : CompiledStep) (data : row) : X (result StepResult) :=
  let type := StepType (cs_Config cs) in
  if decide (type = "query") then let* r := executeQueryStep ctx cs data in ret (Ok r)
  else if decide (type = "httpcall") then let* r := executeHTTPCallStep ctx cs data in ret (Ok r)
  else ret (Err (Errorf ("unsupported step type in block: " +:+ type))).

Definition iteration_record (it : IterationResult StepResult) (name : string) (r : StepResult)
    : IterationResult StepResult :=
  {| ir_Index := ir_Index it; ir_Item := ir_Item it; ir_Success := ir_Success it && sr_Success r;
     ir_Error := if sr_Success r then ir_Error it else sr_Error r;
     ir_Steps := <[name := r]> (ir_Steps it) |}.

(** The nested steps of one iteration, from step number [j] on; [Err] ends the
    whole block. *)
Fixpoint nested_loop (ctx : gctx) (iterateAs : string) (j : nat) (l : list CompiledStep)
    (b : BlockContext) (it : IterationResult StepResult) : X (result (IterationResult StepResult)) :=
  match l with
  | [] => ret (Ok it)
  | cs :: l' =>
    let cfg := cs_Config cs in
    if sc_Disabled cfg then nested_loop ctx iterateAs (S j) l' b it
    else
      let* run := should_run (cs_Condition cs) (block_BuildExprEnv b iterateAs) in
      if negb run then nested_loop ctx iterateAs (S j) l' b it
      else
        let* r := execute_nested ctx cs (block_BuildTemplateData b iterateAs) in
        match r with
        | Err e => ret (Err e)
        | Ok r =>
          let name := step_key (sc_Name cfg) j in
          let r := named_result r name (StepType cfg) in
          let it := iteration_record it name r in
          if negb (sr_Success r) && bool_decide (on_error_of (sc_OnError cfg) = "abort")
          then ret (Ok it)
          else nested_loop ctx iterateAs (S j) l' (block_SetStepResult b name r) it
        end
  end.

(** The result of a block under construction. *)
Record BlockAcc := {
  ba_Iterations : list (IterationResult StepResult); ba_SuccessCount : Z; ba_FailureCount : Z;
  ba_Error : option error;
}.

Definition block_result (a : BlockAcc) (success : bool) (ms : Z) : StepResult :=
  {| sr_Name := ""; sr_Type := "block"; sr_Success := success; sr_Error := ba_Error a;
     sr_DurationMs := ms; sr_CacheHit := false; sr_Data := None; sr_Count := 0; sr_RowsAffected := 0;
     sr_StatusCode := 0; sr_Headers := ∅; sr_ResponseBody := ""; sr_Iterations := Some (ba_Iterations a);
     sr_SuccessCount := ba_SuccessCount a; sr_FailureCount := ba_FailureCount a; sr_SkippedCount := 0 |}.

Definition with_error (a : BlockAcc) (e : option error) : BlockAcc :=
  {| ba_Iterations := ba_Iterations a; ba_SuccessCount := ba_SuccessCount a;
     ba_FailureCount := ba_FailureCount a; ba_Error := e |}.

Definition add_iteration (a : BlockAcc) (it : IterationResult StepResult) : BlockAcc :=
  {| ba_Iterations := ba_Iterations a ++ [it];
     ba_SuccessCount := if ir_Success it then ba_SuccessCount a + 1 else ba_SuccessCount a;
     ba_FailureCount := if ir_Success it then ba_FailureCount a else ba_FailureCount a + 1;
     ba_Error := ba_Error a |}.

(** The iterations from number [i] on; [inl] is an early return. *)
Fixpoint items_loop (ctx : gctx) (cs : CompiledStep) (wfCtx : Context) (iterateAs onError : string)
    (total : Z) (i : nat) (items : list any) (a : BlockAcc) : X (BlockAcc + BlockAcc) :=
  match items with
  | [] => ret (inr a)
  | item :: items' =>
    let* stop := call (ctx_Err ctx) in
    match stop with
    | Some e => ret (inl (with_error a (Some e)))
    | None =>
      let it := {| ir_Index := Z.of_nat i; ir_Item := item; ir_Success := true; ir_Error := None;
                   ir_Steps := ∅ |} in
      let b := NewBlockContext wfCtx (sc_Name (cs_Config cs)) item (Z.of_nat i) total in
      let* r := nested_loop ctx iterateAs 0 (cs_BlockSteps cs) b it in
      match r with
      | Err e => ret (inl (with_error a (Some e)))
      | Ok it =>
        let a := add_iteration a it in
        if negb (ir_Success it) && bool_decide (onError = "abort")
        then ret (inr (with_error a (ir_Error it)))
        else items_loop ctx cs wfCtx iterateAs onError total (S i) items' a
      end
    end
  end.

Definition empty_acc : BlockAcc :=
  {| ba_Iterations := []; ba_SuccessCount := 0; ba_FailureCount := 0; ba_Error := None |}.

(** The collection a block iterates over. *)
Definition block_items (cs : CompiledStep) (wfCtx : Context) : X (result (list any)) :=
  match (it ← cs_Iterate cs; ci_OverExpr it) with
  | None => ret (Ok [ANil])
  | Some prog =>
    let* r := EvalExpression prog (BuildExprEnv wfCtx) in
    ret (match r with
         | Err e => Err (Wrapf "iterate.over expression error: " e "")
         | Ok (AList l) => Ok l
         | Ok (ARows l) => Ok (AMap <$> l)
         | Ok v => Err (Errorf ("iterate.over must return array, got " +:+ type_name v))
         end)
  end.

Definition block_as (cs : CompiledStep) : string :=
  match cs_Iterate cs with Some it => it_As (ci_Config it) | None => "" end.

Definition block_on_error (cs : CompiledStep) : string :=
  match cs_Iterate cs with Some it => on_error_of (it_OnError (ci_Config it)) | None => "abort" end.

Definition executeBlockStep (ctx : gctx) (cs : CompiledStep) (wfCtx : Context) : X StepResult :=
  let* start := call time_Now in
  let* r := block_items cs wfCtx in
  match r with
  | Err e => let* ms := ms_since start in ret (block_result (with_error empty_acc (Some e)) false ms)
  | Ok items =>
    let* out := items_loop ctx cs wfCtx (block_as cs) (block_on_error cs)
                  (Z.of_nat (List.length items)) 0 items empty_acc in
    let* ms := ms_since start in
    match out with
    | inl a => ret (block_result a false ms)
    | inr a => ret (block_result a (bool_decide (ba_FailureCount a = 0)) ms)
    end
  end.

(** *** Steps *)

(** [evaluateStepParams]: the templates run in the order of the map walk, each on
    data that already has the results of those before it. *)
Fixpoint eval_params (l : list (string * template)) (data : row) (params : row) : X (result row) :=
  match l with
  | [] => ret (Ok (<["params" := AMap params]> data))
  | (name, t) :: l' =>
    let* r := call (tmpl_Execute t (<["params" := AMap params]> data)) in
    match r with
    | Err e => ret (Err (Wrapf ("param " +:+ name +:+ ": ") e ""))
    | Ok out =>
      let v := match parseInt64 out with Ok z => AInt64 z | Err _ => AStr out end in
      eval_params l' data (<[name := v]> params)
    end
  end.

Definition evaluateStepParams (cs : CompiledStep) (data : row) : X (result row) :=
  let params := match (p ← data !! "params"; as_map p) with Some m => m | None => ∅ end in
  eval_params (walk (cs_ParamTmpls cs)) data params.

Definition evaluateCacheKey (t : template) (data : row) : X (result string) :=
  let* r := call (tmpl_Execute t data) in
  ret (match r with Ok k => Ok k | Err e => Err (Wrapf "evaluating cache key: " e "") end).

Definition executeStepByType (ctx : gctx) (stepType : string) (cs : CompiledStep) (data : row)
    (wfCtx : Context) : X StepResult :=
  if decide (stepType = "query") then executeQueryStep ctx cs data
  else if decide (stepType = "httpcall") then executeHTTPCallStep ctx cs data
  else if decide (stepType = "response") then executeResponseStep cs data
  else if decide (stepType = "block") then executeBlockStep ctx cs wfCtx
  else ret (failed_result (Errorf ("unknown step type: " +:+ stepType)) 0).

(** The result of a cache hit. *)
Definition hit_result (rows : Rows) : StepResult :=
  {| sr_Name := ""; sr_Type := ""; sr_Success := true; sr_Error := None; sr_DurationMs := 0;
     sr_CacheHit := true; sr_Data := Some rows; sr_Count := Z.of_nat (List.length rows);
     sr_RowsAffected := 0; sr_StatusCode := 0; sr_Headers := ∅; sr_ResponseBody := "";
     sr_Iterations := None; sr_SuccessCount := 0; sr_FailureCount := 0; sr_SkippedCount := 0 |}.

Definition step_ttl (cfg : StepConfig) : Z :=
  match sc_Cache cfg with
  | Some c => if decide (sk_TTLSec c > 0) then i64 (sk_TTLSec c * Second) else 0
  | None => 0
  end.

(** A step whose result may come from the cache under [key]. *)
Definition execute_cached (ctx : gctx) (stepType : string) (cs : CompiledStep) (data : row)
    (wfCtx : Context) (key : string) : X StepResult :=
  let workflowName := wc_Name (cx_Workflow wfCtx) in
  let* got := call (cache_Get workflowName key) in
  match got with
  | Some rows => ret (hit_result rows)
  | None =>
    let* r := executeStepByType ctx stepType cs data wfCtx in
    match sr_Success r, sr_Data r with
    | true, Some rows => let* _ := call (cache_Set workflowName key rows (step_ttl (cs_Config cs))) in ret r
    | _, _ => ret r
    end
  end.

Definition executeStep (ctx : gctx) (cs : CompiledStep) (wfCtx : Context) : X (result StepResult) :=
  let stepType := StepType (cs_Config cs) in
  let* r := if decide (cs_ParamTmpls cs = ∅) then ret (Ok (BuildTemplateData wfCtx))
            else let* r := evaluateStepParams cs (BuildTemplateData wfCtx) in
                 ret (match r with Ok d => Ok d | Err e => Err (Wrapf "evaluating params: " e "") end) in
  match r with
  | Err e => ret (Err e)
  | Ok data =>
    match cs_CacheKeyTmpl cs with
    | Some t =>
      if bool_decide (stepType = "query" \/ stepType = "httpcall") && step_cache then
        let* k := evaluateCacheKey t data in
        match k with
        | Ok key => let* r := execute_cached ctx stepType cs data wfCtx key in ret (Ok r)
        | Err _ => let* r := executeStepByType ctx stepType cs data wfCtx in ret (Ok r)
        end
      else let* r := executeStepByType ctx stepType cs data wfCtx in ret (Ok r)
    | None => let* r := executeStepByType ctx stepType cs data wfCtx in ret (Ok r)
    end
  end.

(** *** Workflows *)

Record ExecuteResult := {
  er_Success : bool; er_Error : option error; er_ResponseSent : bool; er_DurationMs : Z;
  er_Steps : gmap string StepResult;
}.

(** [result] so far: the response flag and the step results. *)
Definition result_with (sent : bool) (steps : gmap string StepResult) (success : bool)
    (e : option error) (ms : Z) : ExecuteResult :=
  {| er_Success := success; er_Error := e; er_ResponseSent := sent; er_DurationMs := ms;
     er_Steps := steps |}.

(** The loop over the steps from number [i] on. *)
Fixpoint steps_loop (ctx : gctx) (start : Z) (i : nat) (l : list CompiledStep) (wfCtx : Context)
    (sent : bool) (steps : gmap string StepResult) : X ExecuteResult :=
  match l with
  | [] => let* ms := ms_since start in ret (result_with sent steps true None ms)
  | cs :: l' =>
    let cfg := cs_Config cs in
    if sc_Disabled cfg then steps_loop ctx start (S i) l' wfCtx sent steps
    else
      let* stop := call (ctx_Err ctx) in
      match stop with
      | Some e => let* ms := ms_since start in ret (result_with sent steps false (Some e) ms)
      | None =>
        let* run := should_run (cs_Condition cs) (BuildExprEnv wfCtx) in
        if negb run then steps_loop ctx start (S i) l' wfCtx sent steps
        else
          let* r := executeStep ctx cs wfCtx in
          match r with
          | Err e => let* ms := ms_since start in ret (result_with sent steps false (Some e) ms)
          | Ok r =>
            let name := step_key (sc_Name cfg) i in
            let r := named_result r name (StepType cfg) in
            let steps := <[name := r]> steps in
            let sent := sent || IsResponse cfg && sr_Success r in
            if negb (sr_Success r) && bool_decide (on_error_of (sc_OnError cfg) = "abort") then
              let* ms := ms_since start in ret (result_with sent steps false (sr_Error r) ms)
            else steps_loop ctx start (S i) l' (SetStepResult wfCtx name r) sent steps
          end
      end
  end.

Definition Execute (ctx : gctx) (wf : CompiledWorkflow) (trigger : TriggerData) (requestID : string)
    (variables : option (gmap string string)) : X ExecuteResult :=
  let* start := call time_Now in
  let* ctx := if decide (wc_TimeoutSec (cw_Config wf) > 0)
              then call (ctx_WithTimeout ctx (i64 (wc_TimeoutSec (cw_Config wf) * Second))) else ret ctx in
  let* t := call time_Now in
  let wfCtx := NewContext (cw_Config wf) trigger requestID variables t in
  steps_loop ctx start 0 (cw_Steps wf) wfCtx false ∅.

(** ** Predicates on computations

    A property of computations that sequencing and calls to the world preserve
    holds of every kind of step; one proof serves for the absence of panics and
    for what steps do to the response writer. *)

Class MonadPred (Q : forall A, X A -> Prop) := {
  mp_ret : forall A (a : A), Q A (ret a);
  mp_bind : forall A B (m : X A) (f : A -> X B), Q A m -> (forall a, Q B (f a)) -> Q B (bind m f);
  mp_call : forall A (op : W -> A * W), Q A (call op);
  mp_query : forall c db sql params opts, is_Some (qo_HasReturning opts) -> Q _ (risky_call (db_ExecuteQuery c db sql params opts));
}.

(** The calls to the world other than those to the databases. *)
Inductive quiet : forall A, (W -> A * W) -> Prop :=
| quiet_timeout ctx d : quiet _ (ctx_WithTimeout ctx d)
| quiet_err ctx : quiet _ (ctx_Err ctx)
| quiet_sleep ctx d : quiet _ (ctx_Sleep ctx d)
| quiet_now : quiet _ time_Now
| quiet_template t data : quiet _ (tmpl_Execute t data)
| quiet_expr prog env : quiet _ (vm_Run prog env)
| quiet_http ctx req : quiet _ (http_Do ctx req)
| quiet_body resp closed : quiet _ (body_Read resp closed)
| quiet_get wf key : quiet _ (cache_Get wf key)
| quiet_set wf key rows ttl : quiet _ (cache_Set wf key rows ttl).

(** What has to hold of a predicate if query steps are looked at by themselves. *)
Class WorldPred (Q : forall A, X A -> Prop) := {
  wp_ret : forall A (a : A), Q A (ret a);
  wp_bind : forall A B (m : X A) (f : A -> X B), Q A m -> (forall a, Q B (f a)) -> Q B (bind m f);
  wp_call : forall A (op : W -> A * W), quiet A op -> Q A (call op);
}.

#[global] Instance monad_world Q `{!MonadPred Q} : WorldPred Q.
Proof. constructor; [apply mp_ret|apply mp_bind|intros; apply mp_call]. Qed.

Section Pred.
Context (Q : forall A, X A -> Prop) `{!WorldPred Q}.

Ltac wp_op := apply wp_call; constructor.

Ltac solve_pred :=
  repeat first [ apply wp_ret | wp_op | apply wp_bind; [|intros] | case_match | assumption ].

(** A query step as a whole, the dereference of an httpcall step; those of a step at
    the top level, with the status a response sends. *)
Definition call_pred (cs : CompiledStep) : Prop :=
  (StepType (cs_Config cs) = "query" -> forall ctx data, Q _ (executeQueryStep ctx cs data)) /\
  (StepType (cs_Config cs) = "httpcall" -> Q _ (deref_template (cs_URLTmpl cs))).

Definition step_pred (cs : CompiledStep) : Prop :=
  call_pred cs /\
  (StepType (cs_Config cs) = "response" ->
     Q _ (deref_template (cs_TemplateTmpl cs)) /\ Q _ (send_status (response_status cs))) /\
  Forall call_pred (cs_BlockSteps cs).

Lemma ms_since_pred start : Q _ (ms_since start).
Proof. unfold ms_since. solve_pred. Qed.

Lemma fail_step_pred e start : Q _ (fail_step e start).
Proof. unfold fail_step. apply wp_bind; [apply ms_since_pred|]. intros. apply wp_ret. Qed.

Lemma query_pred ctx cs data :
  (forall c db sql params opts, is_Some (qo_HasReturning opts) -> Q _ (risky_call (db_ExecuteQuery c db sql params opts))) ->
  Q _ (deref_template (cs_SQLTmpl cs)) -> Q _ (executeQueryStep ctx cs data).
Proof.
  intros Hdb Ht. unfold executeQueryStep. apply wp_bind; [wp_op|]. intros start.
  apply wp_bind; [done|]. intros t. apply wp_bind; [wp_op|].
  intros [sql|e]; [|apply fail_step_pred]. apply wp_bind; [apply Hdb; by eexists|].
  intros [qr|e]; [|apply fail_step_pred]. apply wp_bind; [apply ms_since_pred|]. intros. apply wp_ret.
Qed.

Lemma set_headers_pred l data h : Q _ (set_headers l data h).
Proof.
  revert h. induction l as [|[n t] l IH]; intros h; simpl; [apply wp_ret|].
  apply wp_bind; [wp_op|]. intros [v|e]; [apply IH|apply wp_ret].
Qed.

Lemma build_pred method url bt ht data : Q _ (buildHTTPRequest method url bt ht data).
Proof.
  unfold buildHTTPRequest. apply wp_bind; [solve_pred|]. intros [body|e]; [|apply wp_ret].
  destruct (http_NewRequest method url); [apply wp_ret|].
  apply wp_bind; [apply set_headers_pred|]. intros. solve_pred.
Qed.

Lemma attempts_pred ctx rebuild mb left req backoff :
  Q _ rebuild -> Q _ (http_attempts ctx rebuild mb left req backoff).
Proof.
  intros Hr. revert req backoff. induction left as [|left IH]; intros req backoff; simpl;
    (apply wp_bind; [wp_op|]); intros r; (destruct (attempt_good _); [apply wp_ret|]);
    [apply wp_ret|].
  apply wp_bind; [wp_op|]. intros [e|]; [apply wp_ret|].
  apply wp_bind; [done|]. intros [req'|e]; [apply IH|apply wp_ret].
Qed.

Lemma httpcall_pred ctx cs data :
  Q _ (deref_template (cs_URLTmpl cs)) -> Q _ (executeHTTPCallStep ctx cs data).
Proof.
  intros Ht. unfold executeHTTPCallStep. apply wp_bind; [wp_op|]. intros start.
  apply wp_bind; [solve_pred|]. intros ctx'. apply wp_bind; [done|]. intros t.
  apply wp_bind; [wp_op|]. intros [url|e]; [|apply fail_step_pred].
  apply wp_bind; [apply build_pred|]. intros [req|e]; [|apply fail_step_pred].
  apply wp_bind; [apply attempts_pred, build_pred|].
  intros [resp closed|e|e]; [|apply fail_step_pred..].
  apply wp_bind; [wp_op|]. intros [body|e]; [|apply fail_step_pred].
  apply wp_bind; [apply ms_since_pred|]. intros. apply wp_ret.
Qed.

Lemma should_run_pred cond env : Q _ (should_run cond env).
Proof. unfold should_run, EvalCondition. solve_pred. Qed.

Lemma nested_pred ctx cs data : call_pred cs -> Q _ (execute_nested ctx cs data).
Proof.
  intros (Hq & Hh). unfold execute_nested.
  case_decide; [apply wp_bind; [by apply Hq|intros; apply wp_ret]|].
  case_decide; [apply wp_bind; [by apply httpcall_pred, Hh|intros; apply wp_ret]|].
  apply wp_ret.
Qed.

Lemma nested_loop_pred ctx as_ j l b it : Forall call_pred l -> Q _ (nested_loop ctx as_ j l b it).
Proof.
  intros Hl. revert j b it. induction Hl as [|cs l Hcs _ IH]; intros j b it; simpl; [apply wp_ret|].
  case_match; [apply IH|]. apply wp_bind; [apply should_run_pred|]. intros []; [|apply IH].
  cbn [negb]. apply wp_bind; [by apply nested_pred|]. intros [r|e]; [|apply wp_ret].
  case_match; [apply wp_ret|apply IH].
Qed.

Lemma items_loop_pred ctx cs wfCtx as_ oe n i items a :
  Forall call_pred (cs_BlockSteps cs) -> Q _ (items_loop ctx cs wfCtx as_ oe n i items a).
Proof.
  intros Hl. revert i a. induction items as [|item items IH]; intros i a; simpl; [apply wp_ret|].
  apply wp_bind; [wp_op|]. intros [e|]; [apply wp_ret|].
  apply wp_bind; [by apply nested_loop_pred|]. intros [it|e]; [|apply wp_ret].
  case_match; [apply wp_ret|apply IH].
Qed.

Lemma block_items_pred cs wfCtx : Q _ (block_items cs wfCtx).
Proof. unfold block_items, EvalExpression. solve_pred. Qed.

Lemma block_pred ctx cs wfCtx :
  Forall call_pred (cs_BlockSteps cs) -> Q _ (executeBlockStep ctx cs wfCtx).
Proof.
  intros Hl. unfold executeBlockStep. apply wp_bind; [wp_op|]. intros start.
  apply wp_bind; [apply block_items_pred|]. intros [items|e].
  - apply wp_bind; [by apply items_loop_pred|]. intros out.
    apply wp_bind; [apply ms_since_pred|]. intros ms. destruct out; apply wp_ret.
  - apply wp_bind; [apply ms_since_pred|]. intros. apply wp_ret.
Qed.

(** Steps that may answer the request. *)
Context (Q_set : forall n v, Q _ (on_rw (fun w => rw_Header_Set w n v)))
  (Q_body : forall b, Q _ (send_body b)) (Q_has : Q _ has_rw).

Lemma render_headers_pred l data start : Q _ (render_headers l data start).
Proof.
  induction l as [|[n t] l IH]; simpl; [apply wp_ret|]. apply wp_bind; [wp_op|].
  intros [v|e]; [apply wp_bind; [apply Q_set|intros; apply IH]|].
  apply wp_bind; [apply fail_step_pred|intros; apply wp_ret].
Qed.

Lemma response_pred cs data :
  Q _ (deref_template (cs_TemplateTmpl cs)) -> Q _ (send_status (response_status cs)) ->
  Q _ (executeResponseStep cs data).
Proof.
  intros Ht Hst. unfold executeResponseStep. apply wp_bind; [wp_op|]. intros start.
  apply wp_bind; [done|]. intros []; [|apply fail_step_pred]. cbn [negb].
  apply wp_bind; [done|]. intros t. apply wp_bind; [wp_op|].
  intros [body|e]; [|apply fail_step_pred]. apply wp_bind; [apply render_headers_pred|].
  intros [f|]; [apply wp_ret|]. apply wp_bind; [apply Q_set|intros _].
  apply wp_bind; [apply Hst|intros _].
  apply wp_bind; [apply Q_body|]. intros [e|]; [apply fail_step_pred|].
  apply wp_bind; [apply ms_since_pred|]. intros. apply wp_ret.
Qed.

Lemma by_type_pred ctx cs data wfCtx : step_pred cs ->
  Q _ (executeStepByType ctx (StepType (cs_Config cs)) cs data wfCtx).
Proof.
  intros ((Hq & Hh) & Hr & Hn). unfold executeStepByType.
  repeat case_decide; [by apply Hq|by apply httpcall_pred, Hh|by apply response_pred; apply Hr
    |by apply block_pred|apply wp_ret].
Qed.

Lemma eval_params_pred l data params : Q _ (eval_params l data params).
Proof.
  revert params. induction l as [|[n t] l IH]; intros params; simpl; [apply wp_ret|].
  apply wp_bind; [wp_op|]. intros [out|e]; [apply IH|apply wp_ret].
Qed.

Lemma executeStep_pred ctx cs wfCtx : step_pred cs -> Q _ (executeStep ctx cs wfCtx).
Proof.
  intros Hcs. unfold executeStep. pose proof (by_type_pred ctx cs) as Hty. apply wp_bind.
  { case_decide; [apply wp_ret|]. apply wp_bind; [apply eval_params_pred|]. intros. apply wp_ret. }
  intros [data|e]; [|apply wp_ret].
  assert (Q _ (let* r := executeStepByType ctx (StepType (cs_Config cs)) cs data wfCtx in ret (Ok r))) as Hrun
    by (apply wp_bind; [by apply Hty|intros; apply wp_ret]).
  destruct (cs_CacheKeyTmpl cs) as [t|]; [|done]. case_match; [|done].
  apply wp_bind; [unfold evaluateCacheKey; solve_pred|]. intros [key|e]; [|done].
  apply wp_bind; [|intros; apply wp_ret]. unfold execute_cached.
  apply wp_bind; [wp_op|]. intros [rows|]; [apply wp_ret|].
  apply wp_bind; [by apply Hty|]. intros r. solve_pred.
Qed.

Lemma steps_loop_pred ctx start i l wfCtx sent steps :
  Forall (fun cs => sc_Disabled (cs_Config cs) = false -> step_pred cs) l ->
  Q _ (steps_loop ctx start i l wfCtx sent steps).
Proof.
  intros Hl. revert i wfCtx sent steps. induction Hl as [|cs l Hcs _ IH]; intros i wfCtx sent steps; simpl.
  { apply wp_bind; [apply ms_since_pred|intros; apply wp_ret]. }
  destruct (sc_Disabled (cs_Config cs)); [apply IH|]. specialize (Hcs eq_refl).
  apply wp_bind; [wp_op|].
  intros [e|]; [apply wp_bind; [apply ms_since_pred|intros; apply wp_ret]|].
  apply wp_bind; [apply should_run_pred|]. intros []; [|apply IH]. cbn [negb].
  apply wp_bind; [by apply executeStep_pred|].
  intros [r|e]; [|apply wp_bind; [apply ms_since_pred|intros; apply wp_ret]].
  case_match; [apply wp_bind; [apply ms_since_pred|intros; apply wp_ret]|apply IH].
Qed.

Lemma Execute_pred ctx wf trigger requestID variables :
  Forall (fun cs => sc_Disabled (cs_Config cs) = false -> step_pred cs) (cw_Steps wf) ->
  Q _ (Execute ctx wf trigger requestID variables).
Proof.
  intros Hl. unfold Execute. apply wp_bind; [wp_op|]. intros start.
  apply wp_bind; [solve_pred|]. intros ctx'. apply wp_bind; [wp_op|]. intros t.
  by apply steps_loop_pred.
Qed.
End Pred.

(** ** Executions panic only in a call of a database *)

(** Where such a call leaves the world when it panics.  The statement is one whose
    returned rows were classified when its step was compiled. *)
Definition db_panicked (s : St) : Prop :=
  exists c db sql params opts w, is_Some (qo_HasReturning opts) /\ db_ExecuteQuery c db sql params opts w = (None, st_world s).

Lemma query_safe c db sql params opts : is_Some (qo_HasReturning opts) -> safe db_panicked _ (risky_call (db_ExecuteQuery c db sql params opts)).
Proof.
  intros Ho s s'. unfold risky_call. destruct (db_ExecuteQuery _ _ _ _ _ _) as [o w] eqn:E. intros [= -> <-].
  by exists c, db, sql, params, opts, (st_world s).
Qed.

#[global] Instance safe_pred : MonadPred (safe db_panicked).
Proof.
  constructor; [intros; apply total_safe, total_ret|intros; by apply safe_bind|intros; apply total_safe, total_lift|apply query_safe].
Qed.

(** The templates a step of that type dereferences. *)
Definition leaf_ready (cs : CompiledStep) : Prop :=
  (StepType (cs_Config cs) = "query" -> is_Some (cs_SQLTmpl cs)) /\
  (StepType (cs_Config cs) = "httpcall" -> is_Some (cs_URLTmpl cs)) /\
  (StepType (cs_Config cs) = "response" ->
     is_Some (cs_TemplateTmpl cs) /\ valid_code (response_status cs) = true).

Definition ready (cs : CompiledStep) : Prop := leaf_ready cs /\ Forall leaf_ready (cs_BlockSteps cs).

Lemma send_status_total code : valid_code code = true -> total (S := St) (send_status code).
Proof.
  intros Hc s. unfold send_status, rw_WriteHeader, sw_WriteHeader, http_WriteHeader. rewrite Hc.
  repeat case_match; try done; by eexists.
Qed.

Lemma send_body_total b : total (S := St) (send_body b).
Proof. intros s. unfold send_body. repeat case_match; by eexists. Qed.

Lemma deref_total t : is_Some t -> total (S := St) (deref_template t).
Proof. intros [x ->]. apply total_ret. Qed.

Lemma leaf_ready_call cs : leaf_ready cs -> call_pred (safe db_panicked) cs.
Proof.
  intros (Hq & Hh & _). split; intros; [|apply total_safe, deref_total; auto].
  apply (query_pred (safe db_panicked)); [apply query_safe|apply total_safe, deref_total; auto].
Qed.

Lemma ready_pred cs : ready cs -> step_pred (safe db_panicked) cs.
Proof.
  intros [Hl Hn]. split_and!; [by apply leaf_ready_call| |eapply Forall_impl; [exact Hn|apply leaf_ready_call]].
  intros Ht. destruct Hl as (_ & _ & Hr). destruct (Hr Ht). split; apply total_safe; [by apply deref_total|by apply send_status_total].
Qed.

Lemma Execute_safe ctx wf trigger requestID variables :
  Forall (fun cs => sc_Disabled (cs_Config cs) = false -> ready cs) (cw_Steps wf) ->
  safe db_panicked _ (Execute ctx wf trigger requestID variables).
Proof.
  intros Hl. apply (Execute_pred (safe db_panicked)).
  1,3: intros; apply total_safe, total_lift.
  { intros. apply total_safe, send_body_total. }
  - eapply Forall_impl; [exact Hl|]. intros cs Hr Hd. by apply ready_pred, Hr.
Qed.

(** A compiled step has the templates its type needs if its configuration has the
    sources. *)
Definition step_source (cfg : StepConfig) : Prop :=
  source_present cfg /\
  (StepType cfg = "response" -> sc_StatusCode cfg = 0 \/ 100 <= sc_StatusCode cfg <= 999).

Lemma compiled_leaf_ready cfg index asts cs : compileStep cfg index asts = Some (Ok cs) ->
  step_source cfg -> leaf_ready cs.
Proof.
  intros (cond & key & params & H')%compileStep_Ok [Hp Hc].
  apply compile_by_type_spec in H' as (E & Hs & _). unfold leaf_ready. rewrite E.
  destruct (Hs Hp) as (? & ? & Hr). split_and!; [done..|]. intros Ht. split; [auto|].
  unfold response_status, valid_code. rewrite E. apply bool_decide_eq_true.
  destruct (Hc Ht); case_decide; lia.
Qed.

Lemma compiled_ready cfg index asts cs : compileStep cfg index asts = Some (Ok cs) ->
  step_source cfg -> Forall step_source (default [] (sc_Steps cfg)) -> ready cs.
Proof.
  intros Hc Hp Hn. split; [by eapply compiled_leaf_ready|].
  apply compileStep_Ok in Hc as (cond & key & params & H').
  apply compile_by_type_spec in H' as (_ & _ & [->|(l & El & Hl)]); [done|].
  rewrite El in Hn. simpl in Hn. apply compile_steps_Ok in Hl. clear El.
  induction Hl as [|c cs' l' css (i & Hi) _ IH]; [done|]. apply Forall_cons in Hn as [Hc' Hn].
  constructor; [by eapply compiled_leaf_ready|by apply IH].
Qed.

Definition step_sources (cfg : StepConfig) : Prop :=
  step_source cfg /\ Forall step_source (default [] (sc_Steps cfg)).

Lemma compiled_steps_ready cfg wf : Compile cfg = Some (Ok wf) -> Forall step_sources (wc_Steps cfg) ->
  Forall (fun cs => sc_Disabled (cs_Config cs) = false -> ready cs) (cw_Steps wf) /\
  cs_Config <$> cw_Steps wf = wc_Steps cfg.
Proof.
  intros Hc Hsrc. unfold Compile in Hc. apply cbind_Ok in Hc as (asts & _ & Hc).
  apply cbind_Ok in Hc as (ts & _ & Hc). apply cbind_Ok in Hc as (css & Hcss & [= <-]).
  apply compile_steps_Ok in Hcss. cbn [cw_Steps].
  induction Hcss as [|c cs l css' (i & Hi) _ IH]; [done|]. apply Forall_cons in Hsrc as [[Hp Hn] Hsrc].
  destruct (IH Hsrc) as [IH1 IH2]. split.
  - constructor; [|done]. intros _. by eapply compiled_ready.
  - rewrite fmap_cons, IH2. f_equal. by eapply compileStep_config.
Qed.

(** a compiled workflow panics in a call of a database only.  If every enabled step of the
    configuration, and every step nested in a block, has the source its type needs
    (an SQL text, a URL, a response template) and response steps have a status code
    of three digits, then [Execute] on the workflow that [Compile] returns
    dereferences no missing template and sends no status net/http panics on, for any
    trigger, database, server, cache, clock and cancellation; so if it does not return,
    then because a call of a database has panicked. *)
Theorem Execute_no_panic cfg wf ctx trigger requestID variables
    (Hc : Compile cfg = Some (Ok wf)) (Hsrc : Forall step_sources (wc_Steps cfg)) :
  forall s s', Execute ctx wf trigger requestID variables s = (None, s') -> db_panicked s'.
Proof. destruct (compiled_steps_ready _ _ Hc Hsrc) as [Hr _]. by apply Execute_safe. Qed.

(** ** What steps do to the response *)

(** The response only grows: a status line once sent stays, the body is extended. *)
Definition rw_grows (a b : option RespWriter) : Prop :=
  match a, b with
  | None, None => True
  | Some w, Some w' =>
      (forall c, rw_status w = Some c -> rw_status w' = Some c) /\ exists t, rw_body w' = rw_body w +:+ t
  | _, _ => False
  end.

#[global] Instance rw_grows_preorder : PreOrder rw_grows.
Proof.
  split.
  - intros [w|]; [|done]. split; [done|]. exists "". by rewrite app_str_nil_r.
  - intros [a|] [b|] [c|]; simpl; try done. intros [H1' (t & Ht)] [H2' (u & Hu)]. split; [auto|].
    exists (t +:+ u). by rewrite Hu, Ht, app_str_assoc.
Qed.

Definition grows (A : Type) (m : X A) : Prop := forall s, rw_grows (st_rw s) (st_rw (m s).2).
Definition keeps (A : Type) (m : X A) : Prop := forall s, st_rw (m s).2 = st_rw s.

#[global] Instance grows_pred : MonadPred grows.
Proof.
  constructor.
  - intros A a s. reflexivity.
  - intros A B m f Hm Hf s. unfold bind. specialize (Hm s). destruct (m s) as [[a|] s1]; [|done].
    etrans; [exact Hm|]. apply Hf.
  - intros A op s. unfold call, lift. by destruct (op (st_world s)).
  - intros c db sql params opts _ s. unfold risky_call. by destruct (db_ExecuteQuery _ _ _ _ _ _).
Qed.

#[global] Instance keeps_pred : MonadPred keeps.
Proof.
  constructor.
  - intros A a s. reflexivity.
  - intros A B m f Hm Hf s. unfold bind. specialize (Hm s). destruct (m s) as [[a|] s1]; [|done].
    by rewrite Hf.
  - intros A op s. unfold call, lift. by destruct (op (st_world s)).
  - intros c db sql params opts _ s. unfold risky_call. by destruct (db_ExecuteQuery _ _ _ _ _ _).
Qed.

Lemma set_capture_grows w c : rw_grows (Some w) (Some (set_capture w c)).
Proof. split; [done|]. exists "". by rewrite app_str_nil_r. Qed.

Lemma commit_header_grows w c : rw_status w = None -> rw_grows (Some w) (Some (commit_header w c)).
Proof. intros E. split; [by rewrite E|]. exists "". by rewrite app_str_nil_r. Qed.

Lemma http_WriteHeader_grows w c w' : http_WriteHeader w c = Some w' -> rw_grows (Some w) (Some w').
Proof.
  unfold http_WriteHeader. destruct (rw_status w) eqn:E; [by intros [= <-]|].
  repeat case_match; intros [= <-]; [done|by apply commit_header_grows].
Qed.

Lemma http_Write_grows w b : rw_grows (Some w) (Some (http_Write w b).2) /\ is_Some (rw_status (http_Write w b).2).
Proof.
  unfold http_Write. set (w1 := match rw_status w with Some _ => w | None => commit_header w 200 end).
  assert (rw_grows (Some w) (Some w1) /\ is_Some (rw_status w1)) as [Hg Hs].
  { subst w1. destruct (rw_status w) eqn:E; [by rewrite E|]. split; [by apply commit_header_grows|by eexists]. }
  destruct (decide (b = "")); [done|]. destruct (negb _); [done|]. split; [|done].
  etrans; [exact Hg|]. split; [done|]. by exists b.
Qed.

Lemma record_grows w code o : rw_grows (Some (record_status w code)) o -> rw_grows (Some w) o.
Proof. destruct o; exact id. Qed.

Lemma rw_Write_grows b w : rw_grows (Some w) (Some (rw_Write b w).2) /\ is_Some (rw_status (rw_Write b w).2).
Proof.
  unfold rw_Write, sw_Write. destruct (rw_capture w).
  - split; [|apply http_Write_grows]. etrans; [apply set_capture_grows|]. eapply record_grows, http_Write_grows.
  - split; [eapply record_grows|]; apply http_Write_grows.
Qed.

Lemma rw_WriteHeader_grows c w w' : rw_WriteHeader c w = Some w' -> rw_grows (Some w) (Some w').
Proof.
  unfold rw_WriteHeader, sw_WriteHeader. destruct (rw_capture w) as [k|].
  - destruct (cap_wroteHeader k); [by intros [= <-]|]. intros E%http_WriteHeader_grows.
    etrans; [apply set_capture_grows|]. by eapply record_grows.
  - intros E%http_WriteHeader_grows. by eapply record_grows.
Qed.

Lemma send_status_grows c : grows _ (send_status c).
Proof.
  intros s. unfold send_status. destruct (st_rw s) as [w|] eqn:E; [|cbn [snd]; by rewrite E].
  destruct (rw_WriteHeader c w) eqn:Ew; cbn [snd]; [|by rewrite E]. by apply rw_WriteHeader_grows in Ew.
Qed.

(** A write commits the response. *)
Lemma send_body_grows b : grows _ (send_body b).
Proof.
  intros s. unfold send_body. destruct (st_rw s) as [w|] eqn:E; [|cbn [snd]; by rewrite E].
  destruct (rw_Write_grows b w) as [Hg _]. destruct (rw_Write b w), (resp_Write b (st_world s)). exact Hg.
Qed.

Lemma on_rw_grows f : (forall w, rw_grows (Some w) (Some (f w))) -> grows _ (on_rw f).
Proof. intros Hf s. simpl. destruct (st_rw s); simpl; [apply Hf|done]. Qed.

Lemma panic_grows A : grows A panic.
Proof. intros s. reflexivity. Qed.

Lemma deref_pred_keeps t : keeps _ (deref_template t).
Proof. destruct t; intros s; reflexivity. Qed.

Lemma deref_pred_grows t : grows _ (deref_template t).
Proof. destruct t; intros s; reflexivity. Qed.

Lemma query_keeps ctx cs data : keeps _ (executeQueryStep ctx cs data).
Proof. apply (query_pred keeps); [intros; by apply mp_query|apply deref_pred_keeps]. Qed.

Lemma call_grows cs : call_pred grows cs.
Proof.
  split; intros; [|apply deref_pred_grows]. apply (query_pred grows); [intros; by apply mp_query|apply deref_pred_grows].
Qed.

Lemma call_keeps cs : call_pred keeps cs.
Proof. split; intros; [apply query_keeps|apply deref_pred_keeps]. Qed.

Lemma grows_step cs : step_pred grows cs.
Proof.
  split_and!; [apply call_grows| |apply Forall_forall; intros; apply call_grows].
  intros _. split; [apply deref_pred_grows|apply send_status_grows].
Qed.

(** Every workflow run only extends the response. *)
Lemma executeStep_grows ctx cs wfCtx : grows _ (executeStep ctx cs wfCtx).
Proof.
  apply executeStep_pred; try apply _; try apply grows_step; intros.
  - apply on_rw_grows. intros w. split; [done|]. exists "". by rewrite app_str_nil_r.
  - apply send_body_grows.
  - intros s. reflexivity.
Qed.

(** Only response steps write. *)
Lemma by_type_keeps ctx type cs data wfCtx : type <> "response" ->
  keeps _ (executeStepByType ctx type cs data wfCtx).
Proof.
  intros Hne. unfold executeStepByType. case_decide; [apply query_keeps|].
  case_decide; [apply httpcall_pred; [apply _|apply deref_pred_keeps]|].
  case_decide; [done|]. case_decide; [|intros s; reflexivity].
  apply block_pred; [apply _|]. apply Forall_forall. intros; apply call_keeps.
Qed.

Lemma executeStep_keeps ctx cs wfCtx : StepType (cs_Config cs) <> "response" ->
  keeps _ (executeStep ctx cs wfCtx).
Proof.
  intros Hne. unfold executeStep. apply mp_bind.
  { case_decide; [apply mp_ret|]. apply mp_bind; [apply (eval_params_pred keeps)|]. intros. apply mp_ret. }
  intros [data|e]; [|apply mp_ret].
  pose proof (by_type_keeps ctx _ cs data wfCtx Hne) as Hty.
  assert (keeps _ (let* r := executeStepByType ctx (StepType (cs_Config cs)) cs data wfCtx in ret (Ok r))) as Hrun
    by (apply mp_bind; [done|intros; apply mp_ret]).
  destruct (cs_CacheKeyTmpl cs) as [t|]; [|done]. case_match; [|done].
  apply mp_bind; [apply mp_bind; [apply mp_call|intros; apply mp_ret]|]. intros [key|e]; [|done].
  apply mp_bind; [|intros; apply mp_ret]. unfold execute_cached.
  apply mp_bind; [apply mp_call|]. intros [rows|]; [apply mp_ret|].
  apply mp_bind; [done|]. intros r. repeat case_match; try apply mp_ret.
  apply mp_bind; [apply mp_call|intros; apply mp_ret].
Qed.

Definition committed (s : St) : Prop := exists w, st_rw s = Some w /\ is_Some (rw_status w).

Lemma committed_grows s s' : committed s -> rw_grows (st_rw s) (st_rw s') -> committed s'.
Proof.
  intros (w & Hw & [c Hc]) Hg. rewrite Hw in Hg. unfold committed.
  destruct (st_rw s') as [w'|]; [|done]. exists w'. split; [done|]. exists c. by apply Hg.
Qed.

Lemma fail_step_failed e start s r s' : fail_step e start s = (Some r, s') -> sr_Success r = false.
Proof. unfold fail_step. rewrite run_bind_Some. by intros (ms & s1 & _ & [= <- _]). Qed.

Lemma render_headers_failed l data start s f s' :
  render_headers l data start s = (Some (Some f), s') -> sr_Success f = false.
Proof.
  revert s. induction l as [|[n t] l IH]; intros s; simpl; [done|].
  rewrite run_bind_Some. intros ([v|e] & s1 & _ & Hk).
  - rewrite run_bind_Some in Hk. destruct Hk as (_ & s2 & _ & Hk). by apply (IH s2).
  - rewrite run_bind_Some in Hk. destruct Hk as (f' & s2 & Hf & [= <- _]). by apply fail_step_failed in Hf.
Qed.

Lemma run_grows {A} (m : X A) s o s' : grows A m -> m s = (o, s') -> rw_grows (st_rw s) (st_rw s').
Proof. intros Hm E. specialize (Hm s). by rewrite E in Hm. Qed.

Lemma grows_is_Some a b : rw_grows a b -> is_Some a -> is_Some b.
Proof. intros Hg [w ->]. destruct b; [by eexists|done]. Qed.

Lemma on_rw_set_grows n v : grows _ (on_rw (fun w => rw_Header_Set w n v)).
Proof. apply on_rw_grows. intros w. split; [done|]. exists "". by rewrite app_str_nil_r. Qed.

Lemma send_body_commits b s o s' : is_Some (st_rw s) -> send_body b s = (o, s') -> committed s'.
Proof.
  intros [w Hw]. unfold send_body. rewrite Hw. destruct (rw_Write_grows b w) as [_ Hs].
  destruct (rw_Write b w) as [e w'], (resp_Write b (st_world s)). intros [= _ <-]. by exists w'.
Qed.

(** A response step that succeeds has sent the status line. *)
Lemma response_commits cs data s r s' :
  executeResponseStep cs data s = (Some r, s') -> sr_Success r = true -> committed s'.
Proof.
  unfold executeResponseStep. rewrite run_bind_Some. intros (start & s1 & _ & Hk).
  rewrite run_bind_Some in Hk. destruct Hk as (present & s2 & Hp & Hk).
  destruct present; simpl in Hk; [|intros; apply fail_step_failed in Hk; congruence].
  assert (is_Some (st_rw s2)) as Hs2.
  { unfold has_rw, lift in Hp. injection Hp as Hp <-. by destruct (st_rw s1); [eexists|]. }
  rewrite run_bind_Some in Hk. destruct Hk as (t & s3 & H3' & Hk).
  rewrite run_bind_Some in Hk. destruct Hk as ([body|e] & s4 & H4' & Hk);
    [|intros; apply fail_step_failed in Hk; congruence].
  rewrite run_bind_Some in Hk. destruct Hk as ([f|] & s5 & H5' & Hk).
  { intros. injection Hk as <- _. apply render_headers_failed in H5'. congruence. }
  intros _. rewrite run_bind_Some in Hk. destruct Hk as (u1 & s6 & H6' & Hk).
  rewrite run_bind_Some in Hk. destruct Hk as (u2 & s7 & H7' & Hk).
  rewrite run_bind_Some in Hk. destruct Hk as (err & s8 & H8' & Hk).
  apply (committed_grows s8).
  - eapply send_body_commits; [|exact H8']. apply (grows_is_Some (st_rw s2)); [|done].
    apply run_grows in H3' as ->; [|apply deref_pred_grows].
    apply run_grows in H4' as ->; [|apply (mp_call (Q := grows))].
    apply run_grows in H5' as ->; [|apply (render_headers_pred grows), on_rw_set_grows].
    apply run_grows in H6' as ->; [|apply on_rw_set_grows].
    by apply run_grows in H7'; [|apply send_status_grows].
  - eapply run_grows; [|exact Hk].
    destruct err; [apply (fail_step_pred grows)|]. apply mp_bind; [apply (ms_since_pred grows)|].
    intros. apply mp_ret.
Qed.

Lemma executeStep_commits ctx cs wfCtx s r s' : StepType (cs_Config cs) = "response" ->
  executeStep ctx cs wfCtx s = (Some (Ok r), s') -> sr_Success r = true -> committed s'.
Proof.
  intros Hty. unfold executeStep. rewrite Hty, run_bind_Some. intros ([data|e] & s1 & _ & Hk); [|done].
  assert ((let* r := executeStepByType ctx "response" cs data wfCtx in ret (Ok r)) s1 = (Some (Ok r), s')) as Hrun.
  { destruct (cs_CacheKeyTmpl cs); [|done]. rewrite bool_decide_eq_false_2 in Hk by (by intros [?|?]). done. }
  clear Hk. rewrite run_bind_Some in Hrun. destruct Hrun as (r' & s2 & Hr & [= -> ->]).
  by apply (response_commits _ _ _ _ _ Hr).
Qed.

(** ** Runs of a workflow

    The loop over the steps as a relation: a run ends when the steps are exhausted,
    the context is done, a step returns an error, or a failing step aborts; it goes
    on past disabled steps, steps whose condition does not hold, steps that succeed
    and failing steps that do not abort.  The conclusions relate the step list, the
    flags and results so far, the state before, the result and the state after. *)

Definition step_record (cs : CompiledStep) (i : nat) (r : StepResult) : StepResult :=
  named_result r (step_key (sc_Name (cs_Config cs)) i) (StepType (cs_Config cs)).

Definition aborts (cs : CompiledStep) (r : StepResult) : Prop :=
  sr_Success r = false /\ on_error_of (sc_OnError (cs_Config cs)) = "abort".

Inductive Run (ctx : gctx) : nat -> list CompiledStep -> Context -> bool -> gmap string StepResult ->
    St -> ExecuteResult -> St -> Prop :=
| run_done i wfCtx sent steps s ms s' : st_rw s' = st_rw s ->
    Run ctx i [] wfCtx sent steps s (result_with sent steps true None ms) s'
| run_cancelled i cs l wfCtx sent steps s e ms s' :
    sc_Disabled (cs_Config cs) = false -> st_rw s' = st_rw s ->
    Run ctx i (cs :: l) wfCtx sent steps s (result_with sent steps false (Some e) ms) s'
| run_disabled i cs l wfCtx sent steps s r s' :
    sc_Disabled (cs_Config cs) = true -> Run ctx (S i) l wfCtx sent steps s r s' ->
    Run ctx i (cs :: l) wfCtx sent steps s r s'
| run_skipped i cs l wfCtx sent steps s s1 r s' :
    st_rw s1 = st_rw s -> Run ctx (S i) l wfCtx sent steps s1 r s' ->
    Run ctx i (cs :: l) wfCtx sent steps s r s'
| run_error i cs l wfCtx sent steps s s1 s2 e ms s' :
    sc_Disabled (cs_Config cs) = false -> st_rw s1 = st_rw s ->
    executeStep ctx cs wfCtx s1 = (Some (Err e), s2) -> st_rw s' = st_rw s2 ->
    Run ctx i (cs :: l) wfCtx sent steps s (result_with sent steps false (Some e) ms) s'
| run_abort i cs l wfCtx sent steps s s1 s2 r ms s' :
    sc_Disabled (cs_Config cs) = false -> st_rw s1 = st_rw s ->
    executeStep ctx cs wfCtx s1 = (Some (Ok r), s2) -> aborts cs r -> st_rw s' = st_rw s2 ->
    Run ctx i (cs :: l) wfCtx sent steps s
      (result_with sent (<[step_key (sc_Name (cs_Config cs)) i := step_record cs i r]> steps)
        false (sr_Error r) ms) s'
| run_step i cs l wfCtx sent steps s s1 s2 r er s' :
    sc_Disabled (cs_Config cs) = false -> st_rw s1 = st_rw s ->
    executeStep ctx cs wfCtx s1 = (Some (Ok r), s2) -> ~ aborts cs r ->
    Run ctx (S i) l (SetStepResult wfCtx (step_key (sc_Name (cs_Config cs)) i) (step_record cs i r))
      (sent || IsResponse (cs_Config cs) && sr_Success r)
      (<[step_key (sc_Name (cs_Config cs)) i := step_record cs i r]> steps) s2 er s' ->
    Run ctx i (cs :: l) wfCtx sent steps s er s'.

Lemma run_keeps {A} (m : X A) s o s' : keeps A m -> m s = (o, s') -> st_rw s' = st_rw s.
Proof. intros Hm E. specialize (Hm s). by rewrite E in Hm. Qed.

(** A loop that stops here: only the clock is read. *)
Lemma stop_run start s r s' (x : Z -> ExecuteResult) :
  (let* ms := ms_since start in ret (x ms)) s = (Some r, s') -> exists ms, r = x ms /\ st_rw s' = st_rw s.
Proof.
  rewrite run_bind_Some. intros (ms & s1 & Hms & [= <- <-]). exists ms. split; [done|].
  by eapply run_keeps; [apply (ms_since_pred keeps)|].
Qed.

Lemma steps_loop_run ctx start i l wfCtx sent steps s r s' :
  steps_loop ctx start i l wfCtx sent steps s = (Some r, s') -> Run ctx i l wfCtx sent steps s r s'.
Proof.
  revert i wfCtx sent steps s. induction l as [|cs l IH]; intros i wfCtx sent steps s; cbn [steps_loop].
  { intros (ms & -> & ?)%stop_run. by constructor. }
  destruct (sc_Disabled (cs_Config cs)) eqn:Hd; [intros ?; apply run_disabled; auto|].
  rewrite run_bind_Some. intros (stop & s1 & H1' & Hk). apply (run_keeps _ _ _ _ (mp_call _ _)) in H1'.
  destruct stop as [e|].
  { apply stop_run in Hk as (ms & -> & Hs). apply run_cancelled; [done|]. by rewrite Hs. }
  rewrite run_bind_Some in Hk. destruct Hk as (run & s2 & H2' & Hk).
  apply (run_keeps _ _ _ _ (should_run_pred keeps _ _)) in H2'. rewrite H1' in H2'.
  destruct run; cbn [negb] in Hk; [|by eapply run_skipped; [exact H2'|apply IH]].
  rewrite run_bind_Some in Hk. destruct Hk as ([r1|e] & s3 & H3' & Hk).
  2: { apply stop_run in Hk as (ms & -> & Hs). by eapply run_error. }
  fold (step_record cs i r1) in Hk. destruct (negb _ && _) eqn:Hab.
  - apply stop_run in Hk as (ms & -> & Hs). apply andb_true_iff in Hab as [Hf Ho%bool_decide_eq_true].
    apply negb_true_iff in Hf. change (sr_Success (step_record cs i r1)) with (sr_Success r1) in Hf |- *.
    rewrite Hf, andb_false_r, orb_false_r.
    change (sr_Error (step_record cs i r1)) with (sr_Error r1).
    eapply run_abort; [done|exact H2'|exact H3'|done|done].
  - eapply run_step; [done|exact H2'|exact H3'| |by apply IH].
    intros [Hf Ho]. change (sr_Success (step_record cs i r1)) with (sr_Success r1) in Hab.
    by rewrite Hf, Ho in Hab.
Qed.

Lemma Execute_run ctx wf trigger requestID variables s r s' :
  Execute ctx wf trigger requestID variables s = (Some r, s') ->
  exists ctx' t s1, st_rw s1 = st_rw s /\
    Run ctx' 0 (cw_Steps wf) (NewContext (cw_Config wf) trigger requestID variables t) false ∅ s1 r s'.
Proof.
  unfold Execute. rewrite run_bind_Some. intros (start & s1 & H1' & Hk).
  rewrite run_bind_Some in Hk. destruct Hk as (ctx' & s2 & H2' & Hk).
  rewrite run_bind_Some in Hk. destruct Hk as (t & s3 & H3' & Hk).
  exists ctx', t, s3. split; [|by apply steps_loop_run in Hk].
  apply (run_keeps _ _ _ _ (mp_call _ _)) in H1', H3'. rewrite H3', <- H1'.
  eapply run_keeps; [|exact H2']. case_decide; [apply mp_call|apply mp_ret].
Qed.

(** *** The response *)

Lemma committed_keep s s' : committed s -> st_rw s' = st_rw s -> committed s'.
Proof. intros (w & Hw & Hc) E. exists w. by rewrite E. Qed.

(** Once the response is marked as sent, its status line has gone out. *)
Lemma Run_sent ctx i l wfCtx sent steps s r s' : Run ctx i l wfCtx sent steps s r s' ->
  Forall (fun cs => IsBlock (cs_Config cs) = true -> IsResponse (cs_Config cs) = false) l ->
  (sent = true -> committed s) -> er_ResponseSent r = true -> committed s'.
Proof.
  induction 1 as [i wfCtx sent steps s ms s' E|i cs l wfCtx sent steps s e ms s' _ E
    |i cs l wfCtx sent steps s r s' _ _ IH|i cs l wfCtx sent steps s s1 r s' E _ IH
    |i cs l wfCtx sent steps s s1 s2 e ms s' _ E Hs E'|i cs l wfCtx sent steps s s1 s2 r ms s' _ E Hs _ E'
    |i cs l wfCtx sent steps s s1 s2 r er s' _ E Hs _ _ IH]; intros Hl Hsent; simpl.
  1,2: intros Hr; by apply (committed_keep s); auto.
  all: apply Forall_cons in Hl as [Hcs Hl].
  - by apply IH.
  - apply IH; [done|]. intros Hr. by apply (committed_keep s); auto.
  - intros Hr. apply (committed_keep s2); [|done]. apply (committed_grows s1).
    { apply (committed_keep s); auto. } by eapply run_grows; [apply executeStep_grows|].
  - intros Hr. apply (committed_keep s2); [|done]. apply (committed_grows s1).
    { apply (committed_keep s); auto. } by eapply run_grows; [apply executeStep_grows|].
  - apply IH; [done|]. intros [Hr|[Hty Hok]%andb_true_iff]%orb_true_iff.
    + apply (committed_grows s1); [apply (committed_keep s); auto|].
      by eapply run_grows; [apply executeStep_grows|].
    + eapply executeStep_commits; [|exact Hs|exact Hok]. apply bool_decide_eq_true in Hty as Ht.
      unfold StepType. destruct (IsBlock (cs_Config cs)); [by rewrite (Hcs eq_refl) in Hty|]. rewrite decide_True by (by rewrite Ht). done.
Qed.

Lemma Run_grows ctx i l wfCtx sent steps s r s' : Run ctx i l wfCtx sent steps s r s' ->
  rw_grows (st_rw s) (st_rw s') /\
  (Forall (fun cs => StepType (cs_Config cs) <> "response") l -> st_rw s' = st_rw s).
Proof.
  induction 1 as [i wfCtx sent steps s ms s' E|i cs l wfCtx sent steps s e ms s' _ E
    |i cs l wfCtx sent steps s r s' _ _ [IH1 IH2]|i cs l wfCtx sent steps s s1 r s' E _ [IH1 IH2]
    |i cs l wfCtx sent steps s s1 s2 e ms s' _ E Hs E'|i cs l wfCtx sent steps s s1 s2 r ms s' _ E Hs _ E'
    |i cs l wfCtx sent steps s s1 s2 r er s' _ E Hs _ _ [IH1 IH2]].
  1,2: by rewrite E.
  - split; [done|]. intros [_ ?]%Forall_cons. auto.
  - rewrite <- E. split; [done|]. intros [_ ?]%Forall_cons. auto.
  - rewrite E', <- E. split; [by eapply run_grows; [apply executeStep_grows|]|].
    intros [Hty _]%Forall_cons. by eapply run_keeps; [apply executeStep_keeps|].
  - rewrite E', <- E. split; [by eapply run_grows; [apply executeStep_grows|]|].
    intros [Hty _]%Forall_cons. by eapply run_keeps; [apply executeStep_keeps|].
  - rewrite <- E. split; [etrans; [|done]; by eapply run_grows; [apply executeStep_grows|]|].
    intros [Hty Hl]%Forall_cons. rewrite IH2 by done. by eapply run_keeps; [apply executeStep_keeps|].
Qed.

(** C31: what a workflow does to the response.  A run only extends the response: a
    status line once sent stays and the body grows.  Without a step of type
    response the writer is left untouched.  If the result says that the response
    was sent, the status line is out, unless a block is declared with type
    response. *)
Theorem Execute_response ctx wf trigger requestID variables s r s'
    (Hrun : Execute ctx wf trigger requestID variables s = (Some r, s')) :
  rw_grows (st_rw s) (st_rw s') /\
  (Forall (fun cs => StepType (cs_Config cs) <> "response") (cw_Steps wf) -> st_rw s' = st_rw s) /\
  (Forall (fun cs => IsBlock (cs_Config cs) = true -> IsResponse (cs_Config cs) = false) (cw_Steps wf) ->
   er_ResponseSent r = true -> committed s').
Proof.
  apply Execute_run in Hrun as (ctx' & t & s1 & <- & Hr). destruct (Run_grows _ _ _ _ _ _ _ _ _ Hr).
  split_and!; [done..|]. intros Hb. by apply (Run_sent _ _ _ _ _ _ _ _ _ Hr).
Qed.

(** *** Which steps run, and on what *)

Record Executed := { ex_index : nat; ex_step : CompiledStep; ex_result : StepResult }.

Definition ex_name (x : Executed) : string := step_key (sc_Name (cs_Config (ex_step x))) (ex_index x).
Definition ex_record (x : Executed) : StepResult := step_record (ex_step x) (ex_index x) (ex_result x).
Definition ex_aborts (x : Executed) : Prop := aborts (ex_step x) (ex_result x).

(** The step results after the executed steps. *)
Definition record_all (t : list Executed) (m : gmap string StepResult) : gmap string StepResult :=
  foldl (fun m x => <[ex_name x := ex_record x]> m) m t.

Definition with_steps (c : Context) (m : gmap string StepResult) : Context :=
  {| cx_Workflow := cx_Workflow c; cx_Trigger := cx_Trigger c; cx_Steps := m;
     cx_RequestID := cx_RequestID c; cx_StartTime := cx_StartTime c; cx_Variables := cx_Variables c |}.

(** The steps of [l] with their numbers. *)
Definition numbered (i : nat) (l : list CompiledStep) : list (nat * CompiledStep) :=
  imap (fun k cs => ((i + k)%nat, cs)) l.

Lemma numbered_cons i cs l : numbered i (cs :: l) = (i, cs) :: numbered (S i) l.
Proof.
  unfold numbered. rewrite imap_cons, Nat.add_0_r. f_equal. apply imap_ext. intros k x _. simpl. f_equal. lia.
Qed.

(** How a run with executed steps [t] ends. *)
Definition ends_with (t : list Executed) (r : ExecuteResult) : Prop :=
  (er_Success r = true /\ er_Error r = None /\ Forall (fun x => ~ ex_aborts x) t) \/
  (er_Success r = false /\ is_Some (er_Error r) /\ Forall (fun x => ~ ex_aborts x) t) \/
  (er_Success r = false /\ exists t' x, t = t' ++ [x] /\ ex_aborts x /\
     er_Error r = sr_Error (ex_result x) /\ Forall (fun x => ~ ex_aborts x) t').

Lemma ends_with_cons x t r : ~ ex_aborts x -> ends_with t r -> ends_with (x :: t) r.
Proof.
  intros Hx [(? & ? & ?)|[(? & ? & ?)|(? & t' & y & -> & ? & ? & ?)]].
  - left. split_and!; [done..|by constructor].
  - right. left. split_and!; [done..|by constructor].
  - right. right. split; [done|]. exists (x :: t'), y. split_and!; [done..|by constructor].
Qed.

(** Each executed step ran on the results of those before it. *)
Definition ran_in_order (ctx : gctx) (wfCtx : Context) (t : list Executed) (steps : gmap string StepResult) : Prop :=
  forall k x, t !! k = Some x -> exists s1 s2,
    executeStep ctx (ex_step x) (with_steps wfCtx (record_all (take k t) steps)) s1 = (Some (Ok (ex_result x)), s2).

Lemma Run_trace ctx i l wfCtx sent steps s r s' : Run ctx i l wfCtx sent steps s r s' ->
  cx_Steps wfCtx = steps -> exists t,
    sublist ((fun x => (ex_index x, ex_step x)) <$> t) (numbered i l) /\
    Forall (fun x => sc_Disabled (cs_Config (ex_step x)) = false) t /\
    er_Steps r = record_all t steps /\ ends_with t r /\ ran_in_order ctx wfCtx t steps /\
    er_ResponseSent r = sent || existsb (fun x => IsResponse (cs_Config (ex_step x)) && sr_Success (ex_result x)) t.
Proof.
  assert (forall steps sent e ms, ends_with [] (result_with sent steps false (Some e) ms)) as Hstop.
  { intros. right. left. by split_and!. }
  assert (forall (c : Context), with_steps c (cx_Steps c) = c) as Hself by (by intros []).
  induction 1 as [i wfCtx sent steps s ms s' _|i cs l wfCtx sent steps s e ms s' _ _
    |i cs l wfCtx sent steps s r s' _ _ IH|i cs l wfCtx sent steps s s1 r s' _ _ IH
    |i cs l wfCtx sent steps s s1 s2 e ms s' _ _ _ _|i cs l wfCtx sent steps s s1 s2 r ms s' Hd _ Hs Hab _
    |i cs l wfCtx sent steps s s1 s2 r er s' Hd _ Hs Hab _ IH]; intros Hst; rewrite ?numbered_cons.
  - exists []. split_and!; try done; [by left|by rewrite orb_false_r].
  - exists []. split_and!; try done; [apply sublist_nil_l|by rewrite orb_false_r].
  - destruct (IH Hst) as (t & Ht & ?). exists t. split; [by apply sublist_cons|done].
  - destruct (IH Hst) as (t & Ht & ?). exists t. split; [by apply sublist_cons|done].
  - exists []. split_and!; try done; [apply sublist_nil_l|by rewrite orb_false_r].
  - exists [ {| ex_index := i; ex_step := cs; ex_result := r |} ]. split_and!.
    + rewrite list_fmap_singleton. by apply sublist_skip, sublist_nil_l.
    + by constructor.
    + done.
    + right. right. split; [done|]. exists [], {| ex_index := i; ex_step := cs; ex_result := r |}. by split_and!.
    + intros [|k] x; [|done]. intros [= <-]. exists s1, s2. simpl. by rewrite <- Hst, Hself.
    + simpl. destruct Hab as [-> _]. by rewrite andb_false_r, !orb_false_r.
  - destruct IH as (t & Ht & Hen & Hsteps & Hend & Hord & Hsent); [simpl; by rewrite Hst|].
    exists ({| ex_index := i; ex_step := cs; ex_result := r |} :: t). split_and!.
    + rewrite fmap_cons. by apply sublist_skip.
    + by constructor.
    + done.
    + by apply ends_with_cons.
    + intros [|k] x.
      * intros [= <-]. exists s1, s2. simpl. by rewrite <- Hst, Hself.
      * intros Hk. apply Hord in Hk as (s3 & s4 & Hk). exists s3, s4. exact Hk.
    + rewrite Hsent. simpl. by rewrite orb_assoc.
Qed.

(** C13: which steps of a workflow run, on what, and how it ends.  The executed steps
    are enabled steps of the workflow in their order; each ran in the context that
    holds exactly the results of the steps executed before it; the result records
    them under their names; the response counts as sent exactly if a step declared
    as a response succeeded.  The workflow succeeds only if no failing step with
    on_error abort was executed; otherwise that step is the last one executed and
    its error is the workflow's error, or the run was stopped by an error of its
    own. *)
Theorem Execute_steps ctx wf trigger requestID variables s r s'
    (Hrun : Execute ctx wf trigger requestID variables s = (Some r, s')) :
  exists t ctx' now,
    sublist ((fun x => (ex_index x, ex_step x)) <$> t) (numbered 0 (cw_Steps wf)) /\
    Forall (fun x => sc_Disabled (cs_Config (ex_step x)) = false) t /\
    er_Steps r = record_all t ∅ /\
    ends_with t r /\
    ran_in_order ctx' (NewContext (cw_Config wf) trigger requestID variables now) t ∅ /\
    er_ResponseSent r = existsb (fun x => IsResponse (cs_Config (ex_step x)) && sr_Success (ex_result x)) t.
Proof.
  apply Execute_run in Hrun as (ctx' & now & s1 & _ & Hr).
  destruct (Run_trace _ _ _ _ _ _ _ _ _ Hr eq_refl) as (t & ?). by exists t, ctx', now.
Qed.

(** *** Blocks *)

Definition n_success (its : list (IterationResult StepResult)) : Z :=
  Z.of_nat (List.length (filter (fun it => ir_Success it = true) its)).
Definition n_failure (its : list (IterationResult StepResult)) : Z :=
  Z.of_nat (List.length (filter (fun it => ir_Success it = false) its)).

(** The record of the iterations over a prefix of the items. *)
Record acc_ok (done_items : list any) (a : BlockAcc) : Prop := {
  ao_items : ir_Item <$> ba_Iterations a = done_items;
  ao_index : ir_Index <$> ba_Iterations a = Z.of_nat <$> seq 0 (List.length done_items);
  ao_success : ba_SuccessCount a = n_success (ba_Iterations a);
  ao_failure : ba_FailureCount a = n_failure (ba_Iterations a);
}.

Lemma add_iteration_ok items a it : acc_ok items a -> ir_Index it = Z.of_nat (List.length items) ->
  acc_ok (items ++ [ir_Item it]) (add_iteration a it).
Proof.
  intros [H1' H2' H3' H4'] Hi. split; simpl.
  - by rewrite fmap_app, H1'.
  - rewrite fmap_app, H2', length_app, seq_app, fmap_app. simpl. by rewrite Hi.
  - unfold n_success in *. rewrite filter_app, length_app, filter_cons, filter_nil.
    rewrite H3'. case_decide as E; [rewrite E; simpl; lia|]. destruct (ir_Success it); [done|simpl; lia].
  - unfold n_failure in *. rewrite filter_app, length_app, filter_cons, filter_nil.
    rewrite H4'. case_decide as E; [rewrite E; simpl; lia|]. destruct (ir_Success it); [simpl; lia|done].
Qed.

Lemma with_error_ok items a e : acc_ok items a -> acc_ok items (with_error a e).
Proof. by intros []. Qed.

(** The nested steps keep the iteration's number and item. *)
Lemma nested_loop_frame ctx as_ j l b it s it' s' :
  nested_loop ctx as_ j l b it s = (Some (Ok it'), s') -> ir_Index it' = ir_Index it /\ ir_Item it' = ir_Item it.
Proof.
  revert j b it s. induction l as [|cs l IH]; intros j b it s; simpl; [by intros [= -> _]|].
  destruct (sc_Disabled _); [apply IH|]. rewrite run_bind_Some. intros ([] & s1 & _ & Hk); simpl in Hk; [|by eapply IH].
  rewrite run_bind_Some in Hk. destruct Hk as ([r|e] & s2 & _ & Hk); [|done].
  case_match; [by injection Hk as <- _|]. by apply IH in Hk.
Qed.

(** How the loop over the items ends. *)
Definition items_end (onError : string) (items : list any) (out : BlockAcc + BlockAcc) : Prop :=
  match out with
  | inl a => exists n, acc_ok (take n items) a /\ is_Some (ba_Error a) /\
      (onError = "abort" -> n_failure (ba_Iterations a) = 0)
  | inr a =>
      (acc_ok items a /\ ba_Error a = None /\ (onError = "abort" -> n_failure (ba_Iterations a) = 0)) \/
      (onError = "abort" /\ exists n its it, acc_ok (take n items) a /\ ba_Iterations a = its ++ [it] /\
         ir_Success it = false /\ n_failure its = 0 /\ ba_Error a = ir_Error it)
  end.

Lemma n_failure_app its it : n_failure (its ++ [it]) = n_failure its + (if ir_Success it then 0 else 1).
Proof.
  unfold n_failure. rewrite filter_app, length_app, filter_cons, filter_nil.
  destruct (ir_Success it); simpl; lia.
Qed.

Lemma items_loop_spec ctx cs wfCtx as_ oe n items0 items a s out s' :
  items_loop ctx cs wfCtx as_ oe n (List.length items0) items a s = (Some out, s') ->
  acc_ok items0 a -> ba_Error a = None -> (oe = "abort" -> n_failure (ba_Iterations a) = 0) ->
  items_end oe (items0 ++ items) out.
Proof.
  revert items0 a s. induction items as [|item items IH]; intros items0 a s; simpl.
  { intros [= <- _] Ha He Hf. left. by rewrite app_nil_r. }
  rewrite run_bind_Some. intros (stop & s1 & _ & Hk) Ha He Hf.
  assert (forall e, items_end oe (items0 ++ item :: items) (inl (with_error a (Some e)))) as Hinl.
  { intros e. exists (List.length items0). rewrite take_app_length. by split_and!; [apply with_error_ok|eexists|]. }
  destruct stop as [e|]; [by injection Hk as <- _|].
  rewrite run_bind_Some in Hk. destruct Hk as ([it|e] & s2 & Hn & Hk); [|by injection Hk as <- _].
  apply nested_loop_frame in Hn as [Hi Hit]; simpl in Hi, Hit.
  pose proof (add_iteration_ok _ _ _ Ha Hi) as Ha'. rewrite Hit in Ha'.
  destruct (negb _ && _) eqn:Hab.
  - injection Hk as <- _. apply andb_true_iff in Hab as [Hs%negb_true_iff Ho%bool_decide_eq_true].
    right. split; [done|]. exists (S (List.length items0)), (ba_Iterations a), it. split_and!; try done; [|by apply Hf].
    apply with_error_ok. replace (take _ _) with (items0 ++ [item]); [done|].
    rewrite (cons_middle item items0 items), (assoc_L (++)).
    rewrite (take_app_length' (items0 ++ [item]) items); [done|]. rewrite length_app. simpl. lia.
  - rewrite (cons_middle item items0 items), (assoc_L (++)). eapply (IH (items0 ++ [item])); [|exact Ha'|exact He|].
    + rewrite length_app. simpl. rewrite Nat.add_1_r. exact Hk.
    + intros Ho. simpl. rewrite n_failure_app, Hf by done. rewrite bool_decide_eq_true_2 in Hab by done.
      rewrite andb_true_r, negb_false_iff in Hab. by rewrite Hab.
Qed.

Lemma n_failure_zero its it : n_failure its = 0 -> it ∈ its -> ir_Success it = true.
Proof.
  unfold n_failure. intros Hz Hin. destruct (ir_Success it) eqn:E; [done|].
  assert (it ∈ filter (fun it => ir_Success it = false) its) as Hf by (by apply list_elem_of_filter).
  destruct (filter _ _); [set_solver|simpl in Hz; lia].
Qed.

(** C32: what a block reports.  Its iterations are those over a prefix of the items,
    numbered from 0, and the counts are the numbers of successful and failed
    iterations.  A successful block went over all items without a failure; with
    on_error abort no iteration follows a failed one; otherwise a block that reports
    no error went over all items. *)
Theorem executeBlockStep_spec ctx cs wfCtx s r s'
    (Hrun : executeBlockStep ctx cs wfCtx s = (Some r, s')) :
  exists items its, sr_Iterations r = Some its /\ sr_Type r = "block" /\
    (sr_Success r = true -> exists s1 s2, block_items cs wfCtx s1 = (Some (Ok items), s2)) /\
    (exists n, ir_Item <$> its = take n items) /\
    ir_Index <$> its = Z.of_nat <$> seq 0 (List.length its) /\
    sr_SuccessCount r = n_success its /\ sr_FailureCount r = n_failure its /\
    (sr_Success r = true -> ir_Item <$> its = items /\ n_failure its = 0 /\ sr_Error r = None) /\
    (block_on_error cs = "abort" -> forall its1 it its2, its = its1 ++ it :: its2 -> its2 <> [] -> ir_Success it = true) /\
    (block_on_error cs <> "abort" -> sr_Error r = None -> ir_Item <$> its = items).
Proof.
  revert Hrun. unfold executeBlockStep. rewrite run_bind_Some. intros (start & s1 & _ & Hk).
  rewrite run_bind_Some in Hk. destruct Hk as ([items|e] & s2 & Hi & Hk).
  2: { rewrite run_bind_Some in Hk. destruct Hk as (ms & s3 & _ & [= <- _]). exists [], [].
       split_and!; try done; [by exists 0%nat|]. by intros _ [|] ? ?. }
  rewrite run_bind_Some in Hk. destruct Hk as (out & s3 & Hloop & Hk).
  rewrite run_bind_Some in Hk. destruct Hk as (ms & s4 & _ & Hk).
  apply (items_loop_spec _ _ _ _ _ _ []) in Hloop; [|by repeat split..]. cbn [app] in Hloop. exists items.
  destruct out as [a|a].
  - destruct Hloop as (n & [Ht Hx Hs Hf] & [e He] & Hab). injection Hk as <- _. exists (ba_Iterations a). simpl.
    assert (List.length (take n items) = List.length (ba_Iterations a)) as El by (by rewrite <- Ht, length_fmap).
    rewrite <- El. split_and!; try done; [by exists n| |by rewrite He].
    intros Ho its1 it its2 E _. apply (n_failure_zero (ba_Iterations a)); [auto|]. rewrite E. set_solver.
  - assert (exists n, acc_ok (take n items) a) as (n & [Ht Hx Hs Hf]).
    { destruct Hloop as [(Ha & _)|(_ & n & its & it & Ha & _)]; [|by exists n].
      exists (List.length items). by rewrite firstn_all. }
    injection Hk as <- _. exists (ba_Iterations a). simpl.
    assert (List.length (take n items) = List.length (ba_Iterations a)) as El by (by rewrite <- Ht, length_fmap).
    rewrite <- El. rewrite bool_decide_eq_true, Hf. split_and!; try done; eauto.
    + intros Hz. destruct Hloop as [([Ha _ _ _] & He & _)|(_ & n' & its & it & _ & E & Hfail & _)]; [done|].
      rewrite E, n_failure_app, Hfail in Hz. unfold n_failure in Hz. lia.
    + intros Ho its1 it its2 E Hne.
      destruct Hloop as [(_ & _ & Hz)|(_ & n' & its & it' & _ & E' & _ & Hz & _)].
      * apply (n_failure_zero (ba_Iterations a)); [auto|]. rewrite E. set_solver.
      * apply (n_failure_zero its); [done|]. destruct (exists_last Hne) as (its3 & y & ->).
        rewrite E', app_comm_cons, (assoc_L (++)) in E. apply app_inj_tail in E as [-> _]. set_solver.
    + intros Ho He. by destruct Hloop as [([Ha _ _ _] & _)|(? & _)].
Qed.

(** *** HTTP calls *)

Section HttpCalls.
(** A count of the requests sent: only [http_Do] advances it. *)
Class RequestCount (sent : W -> Z) : Prop := {
  rc_do : forall ctx rq w, sent (http_Do ctx rq w).2 = sent w + 1;
  rc_sleep : forall ctx d w, sent (ctx_Sleep ctx d w).2 = sent w;
  rc_exec : forall t d w, sent (tmpl_Execute t d w).2 = sent w;
  rc_timeout : forall ctx d w, sent (ctx_WithTimeout ctx d w).2 = sent w;
  rc_now : forall w, sent (time_Now w).2 = sent w;
  rc_read : forall resp c w, sent (body_Read resp c w).2 = sent w;
}.

(** Reading a body after it was closed fails. *)
Class ClosedBody : Prop := {
  closed_body : forall resp w, exists e, (body_Read resp true w).1 = Err e;
}.

Context (sent : W -> Z) `{!RequestCount sent}.

Definition sends {A} (m : X A) (n : Z) : Prop :=
  forall s, sent (st_world s) <= sent (st_world (m s).2) <= sent (st_world s) + n.

Lemma sends_ret {A} (a : A) : sends (ret a) 0.
Proof. intros s. simpl. lia. Qed.

Lemma sends_panic {A} : sends (panic (A := A)) 0.
Proof. intros s. simpl. lia. Qed.

Lemma sends_bind {A B} (m : X A) (f : A -> X B) n k : 0 <= k -> sends m n -> (forall a, sends (f a) k) ->
  sends (bind m f) (n + k).
Proof.
  intros Hk Hm Hf s. unfold bind. specialize (Hm s). destruct (m s) as [[a|] s1]; simpl in *; [|lia].
  specialize (Hf a s1). lia.
Qed.

(** Sequencing with a computation that sends nothing. *)
Lemma sends_seq {A B} (m : X A) (f : A -> X B) k : 0 <= k -> sends m 0 -> (forall a, sends (f a) k) ->
  sends (bind m f) k.
Proof. intros Hk Hm Hf. exact (sends_bind m f 0 k Hk Hm Hf). Qed.

Lemma sends_call {A} (op : W -> A * W) n : (forall w, sent w <= sent (op w).2 <= sent w + n) -> sends (call op) n.
Proof. intros Hop s. unfold call, lift. specialize (Hop (st_world s)). by destruct (op (st_world s)). Qed.

Ltac quiet := apply sends_call; intros;
  rewrite ?rc_sleep, ?rc_exec, ?rc_timeout, ?rc_now, ?rc_read; lia.

Lemma sends_ms start : sends (ms_since start) 0.
Proof. apply sends_seq; [lia|quiet|]. intros. apply sends_ret. Qed.

Lemma sends_fail e start : sends (fail_step e start) 0.
Proof. apply sends_seq; [lia|apply sends_ms|]. intros. apply sends_ret. Qed.

Lemma sends_headers l data h : sends (set_headers l data h) 0.
Proof.
  revert h. induction l as [|[n t] l IH]; intros h; simpl; [apply sends_ret|].
  apply sends_seq; [lia|quiet|]. intros [v|e]; [apply IH|apply sends_ret].
Qed.

Lemma sends_build method url bt ht data : sends (buildHTTPRequest method url bt ht data) 0.
Proof.
  apply sends_seq; [lia| |].
  { destruct bt; [apply sends_seq; [lia|quiet|intros; apply sends_ret]|apply sends_ret]. }
  intros [body|e]; [|apply sends_ret]. destruct (http_NewRequest method url); [apply sends_ret|].
  apply sends_seq; [lia|apply sends_headers|]. intros [h|e]; apply sends_ret.
Qed.

(** The loop sends at most one request per attempt. *)
Lemma sends_attempts ctx rebuild mb left req backoff : sends rebuild 0 ->
  sends (http_attempts ctx rebuild mb left req backoff) (Z.of_nat left + 1).
Proof.
  intros Hb. revert req backoff. induction left as [|left IH]; intros req backoff; cbn [http_attempts].
  - apply (sends_bind _ _ 1 0); [lia|apply sends_call; intros; rewrite rc_do; lia|].
    intros r. destruct (attempt_good _); apply sends_ret.
  - replace (Z.of_nat (S left) + 1) with (1 + (Z.of_nat left + 1)) by lia.
    apply sends_bind; [lia|apply sends_call; intros; rewrite rc_do; lia|]. intros r.
    assert (forall A (m : X A), sends m 0 -> sends m (Z.of_nat left + 1)) as Hle
      by (intros A m Hm s; specialize (Hm s); lia).
    destruct (attempt_good _); [apply Hle, sends_ret|].
    apply sends_seq; [lia|quiet|]. intros [e|]; [apply Hle, sends_ret|].
    apply sends_seq; [lia|done|]. intros [req'|e]; [apply IH|apply Hle, sends_ret].
Qed.

Lemma max_attempts_pos retry : 1 <= max_attempts retry.
Proof. unfold max_attempts. repeat case_match; try case_decide; lia. Qed.

Lemma sends_httpcall ctx cs data : sends (executeHTTPCallStep ctx cs data) (max_attempts (sc_Retry (cs_Config cs))).
Proof.
  pose proof (max_attempts_pos (sc_Retry (cs_Config cs))) as Hpos. unfold executeHTTPCallStep.
  assert (forall A (m : X A), sends m 0 -> sends m (max_attempts (sc_Retry (cs_Config cs)))) as Hle
    by (intros A m Hm s; specialize (Hm s); lia).
  apply sends_seq; [lia|quiet|]. intros start. apply sends_seq; [lia| |].
  { case_decide; [quiet|apply sends_ret]. }
  intros ctx'. apply sends_seq; [lia|destruct (cs_URLTmpl cs); [apply sends_ret|apply sends_panic]|]. intros t.
  apply sends_seq; [lia|quiet|]. intros [url|e]; [|apply Hle, sends_fail].
  apply sends_seq; [lia|apply sends_build|]. intros [req|e]; [|apply Hle, sends_fail].
  replace (max_attempts _) with (Z.of_nat (Z.to_nat (max_attempts (sc_Retry (cs_Config cs)) - 1)) + 1 + 0) at 2 by lia.
  apply sends_bind; [lia|apply sends_attempts, sends_build|]. intros [resp closed|e|e]; [|apply sends_fail..].
  apply sends_seq; [lia|quiet|]. intros [body|e]; [|apply sends_fail].
  apply sends_seq; [lia|apply sends_ms|]. intros. apply sends_ret.
Qed.

(** A kept-open response is below 500. *)
Lemma attempts_closed ctx rebuild mb left req backoff s resp closed s' :
  http_attempts ctx rebuild mb left req backoff s = (Some (Replied resp closed), s') ->
  closed = bool_decide (500 <= rs_StatusCode resp).
Proof.
  revert req backoff s. induction left as [|left IH]; intros req backoff s; cbn [http_attempts];
    rewrite run_bind_Some; intros (r & s1 & _ & Hk).
  - destruct r as [resp'|e]; simpl in Hk; [|done]. by destruct (negb _); injection Hk as <- <- _.
  - destruct (attempt_good _); [by destruct r; simpl in Hk; [injection Hk as <- <- _|]|].
    rewrite run_bind_Some in Hk. destruct Hk as ([e|] & s2 & _ & Hk); [done|].
    rewrite run_bind_Some in Hk. destruct Hk as ([req'|e] & s3 & _ & Hk); [|done]. by apply IH in Hk.
Qed.

(** The result of a call: an early failure, or that of a response and its body. *)
Lemma httpcall_result ctx cs data s r s' : executeHTTPCallStep ctx cs data s = (Some r, s') ->
  (exists e ms, r = failed_result e ms) \/
  (exists resp body ms w w', r = http_result resp body (if decide (sc_Parse (cs_Config cs) = "") then "json"
       else sc_Parse (cs_Config cs)) ms /\
     body_Read resp (bool_decide (500 <= rs_StatusCode resp)) w = (Ok body, w')).
Proof.
  assert (forall e start s r s', fail_step e start s = (Some r, s') -> exists e ms, r = failed_result e ms) as Hf.
  { intros e start s1 r1 s1'. unfold fail_step. rewrite run_bind_Some. intros (ms & ? & _ & [= <- _]). eauto. }
  unfold executeHTTPCallStep. rewrite run_bind_Some. intros (start & s1 & _ & Hk).
  rewrite run_bind_Some in Hk. destruct Hk as (ctx' & s2 & _ & Hk).
  rewrite run_bind_Some in Hk. destruct Hk as (t & s3 & _ & Hk).
  rewrite run_bind_Some in Hk. destruct Hk as ([url|e] & s4 & _ & Hk); [|left; by eapply Hf].
  rewrite run_bind_Some in Hk. destruct Hk as ([req|e] & s5 & _ & Hk); [|left; by eapply Hf].
  rewrite run_bind_Some in Hk. destruct Hk as ([resp closed|e|e] & s6 & Ha & Hk); [|left; by eapply Hf..].
  apply attempts_closed in Ha as ->.
  rewrite run_bind_Some in Hk. destruct Hk as ([body|e] & s7 & Hb & Hk); [|left; by eapply Hf].
  rewrite run_bind_Some in Hk. destruct Hk as (ms & s8 & _ & [= <- _]).
  right. unfold call, lift in Hb. destruct (body_Read _ _ _) as [b w'] eqn:Eb. injection Hb as -> _. by eauto 10.
Qed.

(** what an httpcall step does.  It sends at most [max_attempts] requests, one
    without retries.  It succeeds only on a 2xx response whose body parses in the
    declared format, and then reports the status, the body and the rows; a failure
    without an error has a status outside 2xx. *)
Theorem executeHTTPCallStep_spec ctx cs data s r s'
    (Hrun : executeHTTPCallStep ctx cs data s = (Some r, s')) :
  sent (st_world s) <= sent (st_world s') <= sent (st_world s) + max_attempts (sc_Retry (cs_Config cs)) /\
  (sr_Success r = true ->
     200 <= sr_StatusCode r < 300 /\ sr_Error r = None /\ sr_Count r = len_rows (sr_Data r) /\
     parse_body (if decide (sc_Parse (cs_Config cs) = "") then "json" else sc_Parse (cs_Config cs))
       (sr_ResponseBody r) = Ok (sr_Data r)) /\
  (sr_Success r = false -> sr_Error r = None -> ~ 200 <= sr_StatusCode r < 300).
Proof.
  split. { pose proof (sends_httpcall ctx cs data s) as Hs. by rewrite Hrun in Hs. }
  apply httpcall_result in Hrun as [(e & ms & ->)|(resp & body & ms & w & w' & -> & _)]; [done|].
  unfold http_result. simpl. case_bool_decide as E; simpl; [|done].
  destruct (parse_body _ body); simpl; by split_and!.
Qed.
End HttpCalls.

(** a server error never reaches the workflow as a status.  The code closes the
    body of a 5xx response before it reads it, so the step fails with a read error
    and the status code the steps see is 0. *)
Theorem server_status_lost `{!ClosedBody} ctx cs data s r s'
    (Hrun : executeHTTPCallStep ctx cs data s = (Some r, s')) : sr_StatusCode r < 500.
Proof.
  apply httpcall_result in Hrun as [(e & ms & ->)|(resp & body & ms & w & w' & -> & Hb)]; [done|].
  simpl. case_bool_decide as E; [|lia]. destruct (closed_body resp w) as [e He]. by rewrite Hb in He.
Qed.
(** *** Counts *)

(** The count of a step is the length of its data, so it is not negative. *)
Definition counted (r : StepResult) : Prop := 0 <= sr_Count r.

Lemma len_rows_ge0 rows : 0 <= len_rows rows.
Proof. unfold len_rows. lia. Qed.

Lemma fail_step_counted e start : returns (fail_step e start) counted.
Proof. by apply returns_last; intros ms; apply returns_ret. Qed.

Lemma render_headers_counted l data start :
  returns (render_headers l data start) (fun o => forall r, o = Some r -> counted r).
Proof.
  induction l as [|[name t] l IH]; cbn [render_headers]; [by apply returns_ret|]. apply returns_last. intros [v|e].
  - by apply returns_last.
  - eapply returns_bind; [apply fail_step_counted|]. intros r Hr. apply returns_ret. by intros r' [= <-].
Qed.

Lemma http_result_counted resp body parse ms : counted (http_result resp body parse ms).
Proof. unfold counted. cbn. repeat case_match; first [apply len_rows_ge0|done]. Qed.

Ltac counts := repeat first
  [ done
  | apply fail_step_counted
  | apply returns_ret; unfold counted; cbn; first [apply len_rows_ge0 | lia]
  | apply returns_ret, http_result_counted
  | case_match
  | apply returns_last; intros ?; cbn beta ].

Lemma executeStepByType_counted ctx type cs data wfCtx : returns (executeStepByType ctx type cs data wfCtx) counted.
Proof.
  unfold executeStepByType. repeat case_decide.
  - unfold executeQueryStep. counts.
  - unfold executeHTTPCallStep. cbv zeta. counts.
  - unfold executeResponseStep. do 2 (apply returns_last; intros ?). destruct (negb _); [apply fail_step_counted|].
    do 2 (apply returns_last; intros ?). case_match; [|apply fail_step_counted].
    eapply returns_bind; [apply render_headers_counted|]. intros [r|] Hr; [by apply returns_ret, Hr|]. counts.
  - unfold executeBlockStep. counts.
  - by apply returns_ret.
Qed.

Lemma executeStep_counted ctx cs wfCtx s r s' : executeStep ctx cs wfCtx s = (Some (Ok r), s') -> counted r.
Proof.
  assert (forall type data, returns (executeStepByType ctx type cs data wfCtx) counted) as Ht
    by (intros; apply executeStepByType_counted).
  assert (forall type data key, returns (execute_cached ctx type cs data wfCtx key) counted) as Hc.
  { intros type data key. unfold execute_cached. apply returns_last. intros [rows|].
    - apply returns_ret. unfold counted. cbn. lia.
    - eapply returns_bind; [apply Ht|]. intros r1 Hr. repeat case_match; try (by apply returns_ret).
      apply returns_last. intros ?. by apply returns_ret. }
  assert (returns (executeStep ctx cs wfCtx) (fun r => forall r', r = Ok r' -> counted r')) as Hs; [|intros E; by eapply Hs].
  assert (forall m : X StepResult, returns m counted -> returns (let* r := m in ret (Ok r)) (fun r => forall r', r = Ok r' -> counted r')) as Hok.
  { intros m Hm. eapply returns_bind; [exact Hm|]. intros r1 Hr. apply returns_ret. by intros r' [= <-]. }
  unfold executeStep. cbv zeta. apply returns_last. intros [data|e]; [|by apply returns_ret; intros r' [=]].
  destruct (cs_CacheKeyTmpl cs); [|apply Hok, Ht]. destruct (_ && _); [|apply Hok, Ht].
  apply returns_last. intros [key|e]; [apply Hok, Hc|apply Hok, Ht].
Qed.

Lemma Execute_counts ctx wf trigger requestID variables s r s' :
  Execute ctx wf trigger requestID variables s = (Some r, s') -> map_Forall (fun _ sr => counted sr) (er_Steps r).
Proof.
  intros (ctx' & now & s1 & _ & Hr)%Execute_run. apply Run_trace in Hr as (t & _ & _ & -> & _ & Hord & _); [|done].
  assert (Forall (fun x => counted (ex_result x)) t) as Ht.
  { apply Forall_lookup. intros k x (s2 & s3 & Hk)%Hord. by apply executeStep_counted in Hk. }
  unfold record_all. generalize (map_Forall_empty (M := gmap string) (fun _ sr => counted sr)).
  generalize (∅ : gmap string StepResult). clear Hord. induction Ht as [|x t Hx _ IH]; intros m Hm; [done|].
  cbn [foldl]. apply IH. by apply map_Forall_insert_2.
Qed.
End Exec.

(** ** Concrete runs *)

Module Sample.
#[local] Existing Instances sample_lang sample_tables sample_walk.

#[local] Instance sample_funcs : ExprFuncs := {| exprFuncs := ∅ |}.
#[local] Instance sample_gotext : GoText.
Proof.
  refine {| json_Unmarshal := fun s => Ok (AStr s); json_Marshal := fun _ => Ok "json";
    json_DecodeObject := sample_Decode; ParseForm := sample_ParseForm (fun raw => if decide (raw = "q=x") then {["q" := ["x"]]} else ∅);
    time_Parse := fun _ s => Err (Errorf s); Sprint_v := type_name |}; [by left|by right].
Defined.
#[local] Instance sample_floats : FloatText :=
  {| ParseFloat := fun s => Err (Errorf s); FormatFloat := fun _ => "" |}.

(** Templates are their texts, but for one that prints the step parameter b. *)
#[local] Instance sample_templates : TemplateLang :=
  {| template := string; template_Parse := fun _ src => Ok src |}.

Definition sample_text (t : string) (data : row) : string :=
  if decide (t = "{{.params.b}}") then
    match (p ← data !! "params"; m ← as_map p; m !! "b") with Some (AStr b) => b | _ => "<no value>" end
  else t.

(** A world that counts requests; servers answer by URL, databases with one row,
    expressions with a list of three items. *)
#[local] Instance sample_platform : Platform Z := {|
  gctx := unit;
  ctx_WithTimeout := fun _ _ w => (tt, w);
  ctx_Err := fun _ w => (None, w);
  ctx_Sleep := fun _ _ w => (None, w);
  time_Now := fun w => (0, w);
  tmpl_Execute := fun t data w => (Ok (sample_text t data), w);
  vm_Run := fun _ _ w => (Ok (AList [AInt 1; AInt 2; AInt 3]), w);
  db_ExecuteQuery := fun _ _ _ params _ w =>
    (Some (Ok {| qr_Rows := Some [params]; qr_RowsAffected := 0 |}), w);
  http_NewRequest := fun _ _ => None;
  http_Do := fun _ rq w =>
    (Ok {| rs_StatusCode := if decide (rq_URL rq = "http://a/missing") then 404
                            else if decide (rq_URL rq = "http://a/broken") then 503 else 200;
           rs_Header := ∅; rs_Body := "x" |}, w + 1);
  body_Read := fun resp closed w =>
    (if closed then Err (Errorf "http: read on closed response body") else Ok (rs_Body resp), w);
  url_ParseQuery := fun s => Ok ∅;
  resp_Write := fun _ w => (None, w);
  step_cache := false;
  cache_Get := fun _ _ w => (None, w);
  cache_Set := fun _ _ _ _ w => (true, w);
|}.

#[local] Instance sample_count : RequestCount (fun w : Z => w).
Proof. by constructor. Qed.

#[local] Instance sample_closed : ClosedBody.
Proof. constructor. intros resp w. by eexists. Qed.

(** The background context. *)
Definition background : gctx := tt.

Definition response_with (code : Z) (body : string) : StepConfig :=
  {| sc_Name := ""; sc_Disabled := false; sc_Condition := ""; sc_OnError := ""; sc_Type := "response";
     sc_Cache := None; sc_Params := ∅; sc_Database := ""; sc_SQL := ""; sc_Isolation := "";
     sc_LockTimeoutMs := None; sc_DeadlockPriority := ""; sc_JSONColumns := []; sc_URL := "";
     sc_HTTPMethod := ""; sc_Headers := ∅; sc_Body := ""; sc_Parse := ""; sc_TimeoutSec := 0;
     sc_Retry := None; sc_StatusCode := code; sc_Template := body; sc_Iterate := None; sc_Inputs := ∅;
     sc_Steps := None; sc_Outputs := ∅ |}.

Definition response_step : string -> StepConfig := response_with 201.

Definition call_step (name url : string) (retry : option RetryConfig) : StepConfig :=
  {| sc_Name := name; sc_Disabled := false; sc_Condition := ""; sc_OnError := ""; sc_Type := "";
     sc_Cache := None; sc_Params := ∅; sc_Database := ""; sc_SQL := ""; sc_Isolation := "";
     sc_LockTimeoutMs := None; sc_DeadlockPriority := ""; sc_JSONColumns := []; sc_URL := url;
     sc_HTTPMethod := ""; sc_Headers := ∅; sc_Body := ""; sc_Parse := "text"; sc_TimeoutSec := 0;
     sc_Retry := retry; sc_StatusCode := 0; sc_Template := ""; sc_Iterate := None; sc_Inputs := ∅;
     sc_Steps := None; sc_Outputs := ∅ |}.

Definition block_step (onError : string) (steps : list StepConfig) : StepConfig :=
  {| sc_Name := "all"; sc_Disabled := false; sc_Condition := ""; sc_OnError := ""; sc_Type := "";
     sc_Cache := None; sc_Params := ∅; sc_Database := ""; sc_SQL := ""; sc_Isolation := "";
     sc_LockTimeoutMs := None; sc_DeadlockPriority := ""; sc_JSONColumns := []; sc_URL := "";
     sc_HTTPMethod := ""; sc_Headers := ∅; sc_Body := ""; sc_Parse := ""; sc_TimeoutSec := 0;
     sc_Retry := None; sc_StatusCode := 0; sc_Template := "";
     sc_Iterate := Some {| it_Over := "steps"; it_As := "item"; it_OnError := onError |}; sc_Inputs := ∅;
     sc_Steps := Some steps; sc_Outputs := ∅ |}.

Definition workflow (steps : list StepConfig) : WorkflowConfig :=
  {| wc_Name := "w"; wc_TimeoutSec := 0; wc_Conditions := ∅; wc_Triggers := []; wc_Steps := steps |}.

(** The compiled workflow (the empty one if compilation fails). *)
Definition compiled (steps : list StepConfig) : CompiledWorkflow :=
  match Compile (workflow steps) with
  | Some (Ok wf) => wf
  | _ => {| cw_Config := workflow []; cw_Conditions := ∅; cw_Triggers := []; cw_Steps := [] |}
  end.

Definition trigger : TriggerData :=
  {| td_Type := "http"; td_Params := ∅; td_Headers := ∅; td_Cookies := ∅; td_ClientIP := "";
     td_Method := "GET"; td_Path := "/"; td_ScheduleTime := 0; td_CronExpr := "" |}.

Definition start : St (W := Z) :=
  {| st_world := 0;
     st_rw := Some {| rw_header := ∅; rw_status := None; rw_sent := ∅; rw_body := ""; rw_recorded := 0; rw_capture := None |} |}.

Definition run (steps : list StepConfig) : option ExecuteResult * St (W := Z) :=
  Execute background (compiled steps) trigger "r" None start.

(** What the client has got. *)
Definition answer (s : St (W := Z)) : option (option Z * string) := (fun w => (rw_status w, rw_body w)) <$> st_rw s.

(** A workflow with a response: it is sent with its status and body. *)
Example one_response :
  let '(r, s) := run [response_step "hello"] in
  (er_Success <$> r, er_ResponseSent <$> r, answer s) = (Some true, Some true, Some (Some 201, "hello")).
Proof. by vm_compute. Qed.

(** a workflow may fail without an error.  An httpcall step that gets a 404 fails
    and aborts the workflow, whose result has neither success nor an error. *)
Theorem failure_without_error :
  let '(r, s) := run [call_step "a" "http://a/missing" None; response_step "never"] in
  (er_Success <$> r, er_Error <$> r, answer s) = (Some false, Some None, Some (None, "")).
Proof. by vm_compute. Qed.

(** Several response steps all run; their bodies are concatenated under the first
    status. *)
Example responses_concatenate :
  answer (run [response_step "one"; response_step "two"]).2 = Some (Some 201, "onetwo").
Proof. by vm_compute. Qed.

(** A response step with status 204 sends the status but counts as failed: net/http
    refuses the body, which the configuration has to have. *)
Example no_content_fails :
  let '(r, s) := run [response_with 204 "{}"] in
  (er_Success <$> r, bool_decide (er_Error <$> r = Some (Some (Wrapf "write response error: " ErrBodyNotAllowed ""))),
   answer s) = (Some false, true, Some (Some 204, "")).
Proof. by vm_compute. Qed.

(** A step that is a response by inference answers the client, yet the result says
    that no response was sent. *)
Definition inferred_response (body : string) : StepConfig :=
  {| sc_Name := ""; sc_Disabled := false; sc_Condition := ""; sc_OnError := ""; sc_Type := "";
     sc_Cache := None; sc_Params := ∅; sc_Database := ""; sc_SQL := ""; sc_Isolation := "";
     sc_LockTimeoutMs := None; sc_DeadlockPriority := ""; sc_JSONColumns := []; sc_URL := "";
     sc_HTTPMethod := ""; sc_Headers := ∅; sc_Body := ""; sc_Parse := ""; sc_TimeoutSec := 0;
     sc_Retry := None; sc_StatusCode := 201; sc_Template := body; sc_Iterate := None; sc_Inputs := ∅;
     sc_Steps := None; sc_Outputs := ∅ |}.

Example inferred_response_not_marked :
  let '(r, s) := run [inferred_response "hello"] in
  (er_ResponseSent <$> r, answer s) = (Some false, Some (Some 201, "hello")).
Proof. by vm_compute. Qed.

(** The parameters of a step are evaluated in the order of a map walk: a parameter
    that uses another one may see it or not. *)
Example param_order_matters :
  let get (r : result row) := match r with
    | Ok d => match (p ← d !! "params"; m ← as_map p; m !! "a") with Some (AStr s) => s | _ => "" end
    | Err _ => "" end in
  (get <$> (eval_params [("a", "{{.params.b}}"); ("b", "x")] ∅ ∅ start).1,
   get <$> (eval_params [("b", "x"); ("a", "{{.params.b}}")] ∅ ∅ start).1) = (Some "<no value>", Some "x").
Proof. by vm_compute. Qed.

Lemma Execute_no_panic_witness :
  exists r s', Execute background (compiled [call_step "a" "http://a/x" None; response_step "ok"]) trigger "r" None start
    = (Some r, s').
Proof.
  assert (forall s s', Execute background (compiled [call_step "a" "http://a/x" None; response_step "ok"]) trigger "r" None s
    = (None, s') -> db_panicked s') as Hp.
  { apply (Execute_no_panic (workflow [call_step "a" "http://a/x" None; response_step "ok"])); [reflexivity|repeat constructor; done]. }
  destruct (Execute _ _ _ _ _ start) as [[r|] s'] eqn:E; [by exists r, s'|].
  destruct (Hp _ _ E) as (c & db & sql & params & opts & w & _ & Hw). discriminate Hw.
Defined.

Lemma Execute_response_witness :
  exists r, rw_grows (st_rw start) (st_rw (run [response_step "ok"]).2) /\
    (er_ResponseSent r = true -> committed (run [response_step "ok"]).2).
Proof.
  destruct (run [response_step "ok"]) as [[r|] s'] eqn:E; [|done]. exists r.
  destruct (Execute_response background (compiled [response_step "ok"]) trigger "r" None start r s' E) as (H1 & _ & H2).
  split; [exact H1|]. apply H2. by repeat constructor.
Defined.

Lemma Execute_steps_witness :
  exists r t, er_Steps r = record_all t ∅ /\ ends_with t r.
Proof.
  destruct (run [response_step "ok"]) as [[r|] s'] eqn:E; [|done].
  destruct (Execute_steps background (compiled [response_step "ok"]) trigger "r" None start r s' E)
    as (t & _ & _ & _ & _ & H1 & H2 & _).
  exists r, t. exact (conj H1 H2).
Defined.

(** The compiled form of a step on its own. *)
Definition compiled_step (cfg : StepConfig) : CompiledStep :=
  match compileStep cfg 0 ∅ with Some (Ok cs) => cs | _ => base_step cfg 0 None None ∅ end.

Definition context : Context := NewContext (workflow []) trigger "r" None 0.

Lemma executeBlockStep_spec_witness :
  exists r its, sr_Iterations r = Some its /\ sr_FailureCount r = n_failure its /\ sr_FailureCount r = 3.
Proof.
  destruct (executeBlockStep background (compiled_step (block_step "continue" [call_step "a" "http://a/missing" None])) context start)
    as [[r|] s'] eqn:E; [|done].
  destruct (executeBlockStep_spec _ _ _ _ _ _ E) as (items & its & H1 & _ & _ & _ & _ & _ & H2 & _).
  exists r, its. split; [exact H1|]. split; [exact H2|].
  assert (sr_FailureCount <$> (executeBlockStep background (compiled_step (block_step "continue"
    [call_step "a" "http://a/missing" None])) context start).1 = Some 3) as H3 by (by vm_compute).
  rewrite E in H3. by injection H3.
Defined.

Definition three_attempts : RetryConfig :=
  {| re_Enabled := true; re_MaxAttempts := 0; re_InitialBackoffSec := 1; re_MaxBackoffSec := 0 |}.

Definition broken_call : CompiledStep := compiled_step (call_step "a" "http://a/broken" (Some three_attempts)).

Lemma executeHTTPCallStep_spec_witness :
  exists r s', executeHTTPCallStep background broken_call ∅ start = (Some r, s') /\ 0 <= st_world s' <= 3.
Proof.
  destruct (executeHTTPCallStep background broken_call ∅ start) as [[r|] s'] eqn:E; [|done].
  exists r, s'. split; [reflexivity|].
  destruct (executeHTTPCallStep_spec (fun w => w) _ _ _ _ _ _ E) as (H1 & _). exact H1.
Defined.

Lemma server_status_lost_witness :
  exists r s', executeHTTPCallStep background broken_call ∅ start = (Some r, s') /\ sr_StatusCode r < 500 /\
    is_Some (sr_Error r).
Proof.
  destruct (executeHTTPCallStep background broken_call ∅ start) as [[r|] s'] eqn:E; [|done].
  exists r, s'. split; [reflexivity|]. split; [exact (server_status_lost _ _ _ _ _ _ E)|].
  assert ((fun r => bool_decide (is_Some (sr_Error r))) <$> (executeHTTPCallStep background broken_call ∅ start).1 = Some true)
    as H by (by vm_compute).
  rewrite E in H. injection H as H. by apply bool_decide_eq_true in H.
Defined.
End Sample.
