(* ===== verification/Handler.v ===== *)
(** * The HTTP trigger handler (workflow/handler.go)

    One request through [ServeHTTP]: request id, method, parameters, rate limits,
    trigger cache, the workflow, the default response, caching of the answer. *)
From S2P Require Import Prelude GoStrings GoValues Numbers Patterns RateLimit WfConfig Params.
From S2P Require Import SqlParams Expr Compile Executor.

(** ** Requests *)

(** [http.Request] as far as the handler reads it.  The query and the path values are
    those net/http parsed; cookies are in the order of the header. *)
Record HttpRequest := {
  hq_Method : string; hq_Path : string; hq_RemoteAddr : string; hq_Header : Header;
  hq_Body : option Body; hq_RawQuery : string; hq_Query : gmap string (list string);
  hq_PathValues : gmap string string; hq_Cookies : list (string * string);
}.

(** [r.ParseForm], with the form it leaves in the request. *)
Definition parsed_form `{GoText} (r : HttpRequest) : option error * gmap string (list string) :=
  ParseForm (hq_Method r) (header_Get (hq_Header r) "Content-Type") (hq_RawQuery r) (hq_Body r).

(** [r.FormValue] and [r.PathValue]: empty if absent. *)
Definition first_value (v : option (list string)) : string :=
  match v with Some (x :: _) => x | _ => "" end.
Definition FormValue `{GoText} (r : HttpRequest) (name : string) : string := first_value ((parsed_form r).2 !! name).
Definition PathValue (r : HttpRequest) (name : string) : string := default "" (hq_PathValues r !! name).

(** [flattenHeaders], [flattenQuery] *)
Definition flatten (h : gmap string (list string)) : gmap string string := omap head h.

(** The first of several cookies of a name wins. *)
Definition parseCookies (r : HttpRequest) : gmap string string :=
  foldl (fun m c => match m !! c.1 with Some _ => m | None => <[c.1 := c.2]> m end) ∅ (hq_Cookies r).

(** *** Client addresses *)

(** [net.SplitHostPort], the host part; [None] is an error. *)
Fixpoint LastIndexByte (s : string) (c : ascii) : option nat :=
  match s with
  | EmptyString => None
  | String d r =>
    match LastIndexByte r c with
    | Some i => Some (S i)
    | None => if decide (d = c) then Some O else None
    end
  end.

Definition has_byte (c : ascii) (s : string) : bool := negb (str_all (fun d => negb (Ascii.eqb d c)) s).

Definition SplitHost (hostport : string) : option string :=
  i ← LastIndexByte hostport ":";
  if head_is (Ascii.eqb "[") hostport then
    e ← Index hostport "]";
    if decide (S e = i) then
      if has_byte "[" (str_drop 1 hostport) || has_byte "]" (str_drop (S e) hostport) then None
      else Some (str_take (e - 1) (str_drop 1 hostport))
    else None
  else
    let host := str_take i hostport in
    if has_byte ":" host then None
    else if has_byte "[" hostport || has_byte "]" hostport then None
    else Some host.

(** The part before the first comma. *)
Definition first_part (s : string) : string := (span (fun c => negb (Ascii.eqb c ",")) s).1.

Definition resolveClientIP (r : HttpRequest) (trustProxyHeaders : bool) : string :=
  let remote := match SplitHost (hq_RemoteAddr r) with Some host => host | None => hq_RemoteAddr r end in
  if trustProxyHeaders then
    let xff := header_Get (hq_Header r) "X-Forwarded-For" in
    if decide (xff <> "") then TrimSpace (first_part xff)
    else
      let xri := header_Get (hq_Header r) "X-Real-IP" in
      if decide (xri <> "") then TrimSpace xri else remote
  else remote.

(** *** Request ids *)

Definition printable_rune (r : N) : bool := ((32 <=? r) && negb (r =? 127))%N.

Definition sanitizeHeaderValue (s : string) : string :=
  cat (encode_rune <$> filter (fun r => printable_rune r = true) (runes (str_take 128 s))).

(** [hex.EncodeToString]; [%x] of an integer. *)
Fixpoint hex_EncodeToString (b : string) : string :=
  match b with EmptyString => "" | String c r => hex 2 (byte c) +:+ hex_EncodeToString r end.

Fixpoint trim_zeros (s : string) : string :=
  match s with
  | String c r => if decide (c = "0"%char /\ r <> "") then trim_zeros r else s
  | EmptyString => ""
  end.

Definition hex_Z (z : Z) : string :=
  (if decide (z < 0) then "-" else "") +:+ trim_zeros (hex 16 (Z.to_N (Z.abs z))).

(** ** Services *)

(** metrics.RequestAccumulator *)
Record RequestAccumulator := {
  ac_QueryName : string; ac_Database : string; ac_QueryDuration : Z; ac_RowCount : Z;
  ac_Error : string; ac_ErrorType : string;
}.

(** tmpl.RateLimitData *)
Record RateLimitContext := {
  rd_ClientIP : string; rd_Params : row; rd_Headers : gmap string string; rd_Query : gmap string string;
  rd_Cookies : gmap string string;
}.

(** What the handler calls: the rate limiter and the trigger cache (each may be
    absent), random bytes, the accumulator of the request's context, and the JSON
    form of a string. *)
Class Services `{Platform W} := {
  has_limiter : bool;
  CheckTriggerLimits : list CompiledRateLimit -> RateLimitContext -> W -> result (bool * Z) * W;
  has_cache : bool;
  tcache_Get : string -> string -> W -> option (string * Z) * W;
  tcache_Set : string -> string -> string -> Z -> Z -> W -> bool * W;
  rand_Read : nat -> W -> option string * W;
  acc_Update : gctx -> (RequestAccumulator -> RequestAccumulator) -> W -> unit * W;
  json_string : string -> string;
}.

Section Handler.
Context `{UnicodeTables, TL : TemplateLang, EL : ExprLang, MapWalk, ExprFuncs, FloatText, FloatToInt, GoText}.
Context {W : Type} {P : Platform W} {SV : Services}.

Abbreviation X := (M (St (W := W))).

Record HTTPHandler := {
  hh_workflow : CompiledWorkflow; hh_trigger : CompiledTrigger; hh_trustProxyHeaders : bool;
  hh_version : string; hh_buildTime : string; hh_variables : option (gmap string string);
}.

(** ** Parameters *)

(** The JSON entries that may become parameters, checked in map order. *)
Definition json_entry_error (types : gmap string string) (k : string) (v : any) : option error :=
  let t := default "" (types !! k) in
  match v with
  | AMap _ => if decide (t = "json") then None else
      Some (Errorf ("nested objects not supported: parameter '" +:+ k +:+
              "' requires type 'json' for object values"))
  | AList _ => if decide (t = "json") then None else if IsArrayType t then None else
      Some (Errorf ("arrays not supported: parameter '" +:+ k +:+
              "' requires type 'json' or array type (e.g., 'int[]') for array values"))
  | _ => None
  end.

Fixpoint check_json (types : gmap string string) (l : list (string * any)) : option error :=
  match l with
  | [] => None
  | (k, v) :: l' => match json_entry_error types k v with Some e => Some e | None => check_json types l' end
  end.

Definition paramTypes (ps : list ParamConfig) : gmap string string :=
  foldl (fun m p => <[pa_Name p := ToLower (pa_Type p)]> m) ∅ ps.

(** The decoded body of a JSON request; [None] if there is none. *)
Definition json_body (ps : list ParamConfig) (r : HttpRequest) : result (option row) :=
  match (if HasPrefix (header_Get (hq_Header r) "Content-Type") "application/json" then hq_Body r else None) with
  | None => Ok None
  | Some body =>
    match json_DecodeObject body with
    | Err e => Err (Wrapf "failed to parse JSON body: " e "")
    | Ok raw =>
      let raw := default ∅ raw in
      match check_json (paramTypes ps) (walk raw) with Some e => Err e | None => Ok (Some raw) end
    end
  end.

Definition invalid_param {A} (p : ParamConfig) (r : result A) : result A :=
  match r with
  | Err e => Err (Wrapf ("invalid value for parameter " +:+ pa_Name p +:+ ": ") e "")
  | _ => r
  end.

(** The text of a parameter from the path or the form. *)
Definition param_text (pathParams : gset string) (r : HttpRequest) (p : ParamConfig) : string :=
  let value := if decide (pa_Name p ∈ pathParams) then PathValue r (pa_Name p) else "" in
  if decide (value = "") then FormValue r (pa_Name p) else value.

(** The value of one parameter: path, then form, then JSON body, then the default. *)
Definition parse_one (pathParams : gset string) (json : option row) (r : HttpRequest) (p : ParamConfig)
    : result any :=
  let value := param_text pathParams r p in
  if decide (value <> "") then invalid_param p (ConvertValue value (pa_Type p))
  else match (m ← json; m !! pa_Name p) with
  | Some v => invalid_param p (ConvertJSONValue v (pa_Type p))
  | None =>
    if pa_Required p then Err (Errorf ("missing required parameter: " +:+ pa_Name p))
    else invalid_param p (ConvertValue (pa_Default p) (pa_Type p))
  end.

Fixpoint parse_all (pathParams : gset string) (json : option row) (r : HttpRequest)
    (ps : list ParamConfig) (params : row) : result row :=
  match ps with
  | [] => Ok params
  | p :: ps' =>
    try v := parse_one pathParams json r p in
    parse_all pathParams json r ps' (<[pa_Name p := v]> params)
  end.

Definition parseParameters (cfg : TriggerConfig) (r : HttpRequest) : result row :=
  try json := json_body (tc_Parameters cfg) r in
  match (parsed_form r).1 with
  | Some e => Err (Wrapf "failed to parse form: " e "")
  | None => parse_all (extractPathParams (tc_Path cfg)) json r (tc_Parameters cfg) ∅
  end.

(** ** Answers *)

Definition field (name value : string) : string := chr 34 +:+ name +:+ chr 34 +:+ ":" +:+ value.
Definition newline : string := chr 10.

(** The JSON of [httpResponse]; empty fields are left out, [data] is nil. *)
Definition encode_response (success : bool) (err requestID : string) : string :=
  "{" +:+ field "success" (FormatBool success) +:+
  (if decide (err = "") then "" else "," +:+ field "error" (json_string err)) +:+
  (if decide (requestID = "") then "" else "," +:+ field "request_id" (json_string requestID)) +:+
  "}" +:+ newline.

Definition answer (status : Z) (body : string) : X unit :=
  let* _ := send_status status in
  let* _ := send_body body in ret tt.

Definition writeSuccess (requestID : string) : X unit := answer 200 (encode_response true "" requestID).

Definition writeError (status : Z) (message requestID : string) : X unit :=
  answer status (encode_response false message requestID).

Definition encode_rate_limit (retryAfterSec : Z) (requestID : string) : string :=
  "{" +:+ field "success" "false" +:+ "," +:+ field "error" (json_string "rate limit exceeded") +:+
  (if decide (requestID = "") then "" else "," +:+ field "request_id" (json_string requestID)) +:+
  "," +:+ field "retry_after_sec" (pretty retryAfterSec) +:+ "}" +:+ newline.

Definition writeRateLimitError (retryAfterSec : Z) (requestID : string) : X unit :=
  let* _ := on_rw (fun w => rw_Header_Set w "Retry-After" (pretty retryAfterSec)) in
  answer 429 (encode_rate_limit retryAfterSec requestID).

Definition generateRequestID : X string :=
  let* b := call (rand_Read 8) in
  match b with
  | Some b => ret (hex_EncodeToString b)
  | None => let* now := call time_Now in ret (hex_Z now)
  end.

Definition getOrGenerateRequestID (r : HttpRequest) : X string :=
  let id := header_Get (hq_Header r) "X-Request-ID" in
  if decide (id <> "") then ret (sanitizeHeaderValue id)
  else
    let id := header_Get (hq_Header r) "X-Correlation-ID" in
    if decide (id <> "") then ret (sanitizeHeaderValue id) else generateRequestID.

(** ** The trigger cache *)

Definition trigger_key_data (r : HttpRequest) (params : row) (clientIP : string)
    (cookies : gmap string string) (requestID : string) : row :=
  list_to_map [
    ("trigger", AMap (list_to_map [("params", AMap params); ("client_ip", AStr clientIP);
       ("method", AStr (hq_Method r)); ("path", AStr (hq_Path r));
       ("headers", AStrMap (flatten (hq_Header r))); ("query", AStrMap (flatten (hq_Query r)));
       ("cookies", AStrMap cookies)]));
    ("RequestID", AStr requestID)].

Definition trigger_evaluateCacheKey (t : template) (r : HttpRequest) (params : row) (clientIP : string)
    (cookies : gmap string string) (requestID : string) : X (result string) :=
  let* out := call (tmpl_Execute t (trigger_key_data r params clientIP cookies requestID)) in
  ret (match out with Ok k => Ok k | Err e => Err (Wrapf "evaluating trigger cache key: " e "") end).

Definition empty_capture : Capture := {| cap_body := ""; cap_statusCode := 0; cap_wroteHeader := false |}.

Definition get_capture : X (option Capture) := lift (fun s => (st_rw s ≫= rw_capture, s)).

Definition trigger_ttl (cfg : TriggerConfig) : Z :=
  match tc_Cache cfg with
  | Some c => if decide (cc_TTLSec c > 0) then i64 (cc_TTLSec c * Second) else 0
  | None => 0
  end.

(** ** Metrics of a request *)

(** [populateMetrics], the loop over the query steps. *)
Definition acc_step (result : ExecuteResult) (acc : RequestAccumulator) (cs : CompiledStep) : RequestAccumulator :=
  let cfg := cs_Config cs in
  if negb (IsQuery cfg) then acc
  else match er_Steps result !! sc_Name cfg with
  | None => acc
  | Some sr =>
    let failed := match sr_Error sr with Some e => bool_decide (ac_Error acc = "") | None => false end in
    {| ac_QueryName := sc_Name cfg; ac_Database := sc_Database cfg;
       ac_QueryDuration := i64 (ac_QueryDuration acc + i64 (sr_DurationMs sr * Millisecond));
       ac_RowCount := i64 (ac_RowCount acc + (if decide (sr_RowsAffected sr > 0) then sr_RowsAffected sr else sr_Count sr));
       ac_Error := match sr_Error sr with Some e => if failed then Error e else ac_Error acc | None => ac_Error acc end;
       ac_ErrorType := if failed then "query_failed" else ac_ErrorType acc |}
  end.

Definition populateMetrics (h : HTTPHandler) (result : ExecuteResult) (acc : RequestAccumulator)
    : RequestAccumulator :=
  let acc := match er_Error result with
    | Some e => {| ac_QueryName := ac_QueryName acc; ac_Database := ac_Database acc;
                   ac_QueryDuration := ac_QueryDuration acc; ac_RowCount := ac_RowCount acc;
                   ac_Error := Error e;
                   ac_ErrorType := if is_deadline e then "timeout" else "execution_failed" |}
    | None => acc
    end in
  foldl (acc_step result) acc (cw_Steps (hh_workflow h)).

(** ** Serving *)

Definition version_header (h : HTTPHandler) : string :=
  if decide (hh_buildTime h <> "" /\ hh_buildTime h <> "unknown")
  then hh_version h +:+ " (built " +:+ hh_buildTime h +:+ ")" else hh_version h.

Definition trigger_data (r : HttpRequest) (params : row) (cookies : gmap string string) (clientIP : string)
    : TriggerData :=
  {| td_Type := "http"; td_Params := params; td_Headers := hq_Header r; td_Cookies := cookies;
     td_ClientIP := clientIP; td_Method := hq_Method r; td_Path := hq_Path r; td_ScheduleTime := 0;
     td_CronExpr := "" |}.

(** The default response and the caching of the answer, after the workflow. *)
Definition finish (h : HTTPHandler) (cacheKey : option string) (requestID : string) (result : ExecuteResult)
    : X unit :=
  let* _ := if er_ResponseSent result then ret tt
            else match er_Error result with
            | Some _ => writeError 500 "workflow execution failed" requestID
            | None => writeSuccess requestID
            end in
  match cacheKey with
  | None => ret tt
  | Some key =>
    let* c := get_capture in
    match c with
    | Some c =>
      if decide (200 <= cap_statusCode c < 400) then
        let* _ := call (tcache_Set (wc_Name (cw_Config (hh_workflow h))) key (cap_body c) (cap_statusCode c)
                          (trigger_ttl (ct_Config (hh_trigger h)))) in ret tt
      else ret tt
    | None => ret tt
    end
  end.

(** From the workflow on; [cacheKey] is set if the answer is to be cached. *)
Definition run_workflow (h : HTTPHandler) (ctx : gctx) (r : HttpRequest) (params : row)
    (cookies : gmap string string) (clientIP requestID : string) (cacheKey : option string) : X unit :=
  let* _ := match cacheKey with
            | Some _ => on_rw (fun w => set_capture w empty_capture)
            | None => ret tt
            end in
  let* result := Execute ctx (hh_workflow h) (trigger_data r params cookies clientIP) requestID
                   (hh_variables h) in
  let* _ := call (acc_Update ctx (populateMetrics h result)) in
  finish h cacheKey requestID result.

(** The trigger cache: a hit answers, a miss goes on with the key. *)
Definition with_trigger_cache (h : HTTPHandler) (ctx : gctx) (r : HttpRequest) (params : row)
    (cookies : gmap string string) (clientIP requestID : string) : X unit :=
  match (if has_cache then ct_CacheKey (hh_trigger h) else None) with
  | None => run_workflow h ctx r params cookies clientIP requestID None
  | Some t =>
    let* key := trigger_evaluateCacheKey t r params clientIP cookies requestID in
    match key with
    | Err _ => run_workflow h ctx r params cookies clientIP requestID None
    | Ok key =>
      let* hit := call (tcache_Get (wc_Name (cw_Config (hh_workflow h))) key) in
      match hit with
      | Some (body, statusCode) =>
        let* _ := on_rw (fun w => rw_Header_Set w "X-Cache" "HIT") in
        answer statusCode body
      | None =>
        let* _ := on_rw (fun w => rw_Header_Set w "X-Cache" "MISS") in
        run_workflow h ctx r params cookies clientIP requestID (Some key)
      end
    end
  end.

Definition rate_limit_context (r : HttpRequest) (params : row) (cookies : gmap string string)
    (clientIP : string) : RateLimitContext :=
  {| rd_ClientIP := clientIP; rd_Params := params; rd_Headers := flatten (hq_Header r);
     rd_Query := flatten (hq_Query r); rd_Cookies := cookies |}.

(** [Ok (true, _)] lets the request through. *)
Definition check_limits (h : HTTPHandler) (rd : RateLimitContext) : X (result (bool * Z)) :=
  if has_limiter && bool_decide (ct_RateLimits (hh_trigger h) <> [])
  then call (CheckTriggerLimits (ct_RateLimits (hh_trigger h)) rd) else ret (Ok (true, 0)).

Definition ServeHTTP (h : HTTPHandler) (ctx : gctx) (r : HttpRequest) : X unit :=
  let* requestID := getOrGenerateRequestID r in
  let* _ := on_rw (fun w => rw_Header_Set w "Content-Type" "application/json") in
  let* _ := on_rw (fun w => rw_Header_Set w "X-Request-ID" requestID) in
  let* _ := if decide (hh_version h <> "")
            then on_rw (fun w => rw_Header_Set w "X-Server-Version" (version_header h)) else ret tt in
  if decide (hq_Method r <> tc_Method (ct_Config (hh_trigger h))) then
    writeError 405 "method not allowed" requestID
  else match parseParameters (ct_Config (hh_trigger h)) r with
  | Err e => writeError 400 (Error e) requestID
  | Ok params =>
    let cookies := parseCookies r in
    let clientIP := resolveClientIP r (hh_trustProxyHeaders h) in
    let* allowed := check_limits h (rate_limit_context r params cookies clientIP) in
    match allowed with
    | Err _ => writeError 500 "rate limit check failed" requestID
    | Ok (false, retryAfterSec) => writeRateLimitError retryAfterSec requestID
    | Ok (true, _) => with_trigger_cache h ctx r params cookies clientIP requestID
    end
  end.

(** ** Predicates on the handler

    As for the executor: what sequencing, calls to the world and operations on the
    writer preserve holds of the handler's operations. *)

(** The calls to the services. *)
Inductive service : forall A, (W -> A * W) -> Prop :=
| service_limits limits rd : service _ (CheckTriggerLimits limits rd)
| service_get wf key : service _ (tcache_Get wf key)
| service_set wf key body code ttl : service _ (tcache_Set wf key body code ttl)
| service_rand n : service _ (rand_Read n)
| service_update ctx f : service _ (acc_Update ctx f).

(** A predicate for which all calls to the world are alike holds of every step. *)
Section Any.
Context (Q : forall A, X A -> Prop) `{!MonadPred Q}.
Context (Q_set : forall n v, Q _ (on_rw (fun w => rw_Header_Set w n v)))
  (Q_status : forall c, Q _ (send_status c)) (Q_body : forall b, Q _ (send_body b)) (Q_has : Q _ has_rw)
  (Q_deref : forall t, Q _ (deref_template t)).

Lemma any_step_pred cs : step_pred Q cs.
Proof.
  assert (forall cs, call_pred Q cs) as Hc.
  { split; intros; [|apply Q_deref]. apply (query_pred Q); [intros; by apply mp_query|apply Q_deref]. }
  split_and!; [apply Hc|intros; split; [apply Q_deref|apply Q_status]|]. apply Forall_forall. intros; apply Hc.
Qed.

Lemma any_steps_pred l : Forall (fun cs => sc_Disabled (cs_Config cs) = false -> step_pred Q cs) l.
Proof. apply Forall_forall. intros. apply any_step_pred. Qed.

Lemma any_Execute_pred ctx wf trigger requestID variables : Q _ (Execute ctx wf trigger requestID variables).
Proof. apply Execute_pred; try done; [apply _|]. apply any_steps_pred. Qed.
End Any.

Section Pred.
Context (Q : forall A, X A -> Prop) `{!WorldPred Q}.
Context (Q_set : forall n v, Q _ (on_rw (fun w => rw_Header_Set w n v)))
  (Q_status : forall c, Q _ (send_status c)) (Q_body : forall b, Q _ (send_body b)) (Q_has : Q _ has_rw)
  (Q_get : Q _ get_capture) (Q_service : forall A op, service A op -> Q _ (call op)).

Ltac wp_op := first [apply wp_call; constructor | apply Q_service; constructor].

Lemma answer_pred status body : Q _ (answer status body).
Proof. apply wp_bind; [apply Q_status|intros _]. apply wp_bind; [apply Q_body|intros]. apply wp_ret. Qed.

Lemma finish_pred h key requestID result : Q _ (finish h key requestID result).
Proof.
  apply wp_bind. { destruct (er_ResponseSent result); [apply wp_ret|]. destruct (er_Error result); apply answer_pred. }
  intros _. destruct key; [|apply wp_ret]. apply wp_bind; [apply Q_get|]. intros [c|]; [|apply wp_ret].
  case_decide; [|apply wp_ret]. apply wp_bind; [wp_op|]. intros. apply wp_ret.
Qed.

Context (h : HTTPHandler)
  (Q_steps : Forall (fun cs => sc_Disabled (cs_Config cs) = false -> step_pred Q cs) (cw_Steps (hh_workflow h))).
Context (Q_capture : Q _ (on_rw (fun w => set_capture w empty_capture))).

Lemma run_workflow_pred ctx r params cookies clientIP requestID key :
  Q _ (run_workflow h ctx r params cookies clientIP requestID key).
Proof.
  apply wp_bind; [destruct key; [apply Q_capture|apply wp_ret]|]. intros _.
  apply wp_bind; [by apply Execute_pred|]. intros result.
  apply wp_bind; [wp_op|]. intros _. apply finish_pred.
Qed.

Lemma with_cache_pred ctx r params cookies clientIP requestID :
  Q _ (with_trigger_cache h ctx r params cookies clientIP requestID).
Proof.
  unfold with_trigger_cache. case_match; [|apply run_workflow_pred].
  apply wp_bind; [apply wp_bind; [wp_op|intros; apply wp_ret]|].
  intros [key|e]; [|apply run_workflow_pred]. apply wp_bind; [wp_op|].
  intros [[body code]|]; (apply wp_bind; [apply Q_set|intros _]); [apply answer_pred|apply run_workflow_pred].
Qed.

Lemma requestID_pred r : Q _ (getOrGenerateRequestID r).
Proof.
  unfold getOrGenerateRequestID, generateRequestID. repeat case_decide; try apply wp_ret.
  apply wp_bind; [wp_op|]. intros [b|]; [apply wp_ret|]. apply wp_bind; [wp_op|intros; apply wp_ret].
Qed.

Lemma prologue_pred (r : HttpRequest) requestID (k : X unit) : Q _ k ->
  Q _ (let* _ := on_rw (fun w => rw_Header_Set w "Content-Type" "application/json") in
       let* _ := on_rw (fun w => rw_Header_Set w "X-Request-ID" requestID) in
       let* _ := if decide (hh_version h <> "")
                 then on_rw (fun w => rw_Header_Set w "X-Server-Version" (version_header h)) else ret tt in k).
Proof.
  intros Hk. apply wp_bind; [apply Q_set|intros _]. apply wp_bind; [apply Q_set|intros _].
  apply wp_bind; [case_decide; [apply Q_set|apply wp_ret]|intros _]. done.
Qed.

Lemma limits_pred rd : Q _ (check_limits h rd).
Proof. unfold check_limits. case_match; [wp_op|apply wp_ret]. Qed.

Lemma rate_error_pred n requestID : Q _ (writeRateLimitError n requestID).
Proof. apply wp_bind; [apply Q_set|intros _]. apply answer_pred. Qed.

Lemma ServeHTTP_pred ctx r : Q _ (ServeHTTP h ctx r).
Proof.
  apply wp_bind; [apply requestID_pred|]. intros requestID. apply prologue_pred; [done|].
  case_decide; [apply answer_pred|]. destruct (parseParameters _ r) as [params|e]; [|apply answer_pred].
  apply wp_bind; [apply limits_pred|]. intros [[[] n]|e]; [|apply rate_error_pred|apply answer_pred].
  apply with_cache_pred.
Qed.
End Pred.

(** ** Every request is answered *)

Lemma get_capture_grows : grows (W := W) _ get_capture.
Proof. intros s. reflexivity. Qed.

Lemma has_rw_grows : grows (W := W) _ has_rw.
Proof. intros s. reflexivity. Qed.

Lemma capture_grows : grows (W := W) _ (on_rw (fun w => set_capture w empty_capture)).
Proof. apply on_rw_grows. intros. apply set_capture_grows. Qed.

#[local] Hint Resolve on_rw_set_grows send_status_grows send_body_grows has_rw_grows deref_pred_grows
  get_capture_grows capture_grows : sqlproxy.

Lemma any_Execute_grows ctx wf trigger requestID variables :
  grows (W := W) _ (Execute ctx wf trigger requestID variables).
Proof. apply any_Execute_pred; try apply _; auto with sqlproxy. Qed.

(** Whether it returns or panics, a handler leaves the writer, and what it has sent. *)
Lemma ServeHTTP_grows h ctx r : grows (W := W) _ (ServeHTTP h ctx r).
Proof.
  apply ServeHTTP_pred; try apply _; auto with sqlproxy.
  - intros A op _. apply mp_call.
  - apply Forall_forall. intros cs _ _. apply grows_step.
Qed.

Lemma answer_commits status body s s' :
  is_Some (st_rw s) -> answer status body s = (Some tt, s') -> committed s'.
Proof.
  intros Hw. unfold answer. rewrite run_bind_Some. intros (u & s1 & H1' & Hk).
  rewrite run_bind_Some in Hk. destruct Hk as (e & s2 & H2' & [= <-]).
  eapply send_body_commits; [|exact H2']. eapply grows_is_Some; [|exact Hw].
  eapply run_grows; [apply send_status_grows|exact H1'].
Qed.

(** The states in which the response is out, after the steps that were to send it. *)
Definition sound_blocks (wf : CompiledWorkflow) : Prop :=
  Forall (fun cs => IsBlock (cs_Config cs) = true -> IsResponse (cs_Config cs) = false) (cw_Steps wf).

Lemma Execute_sent ctx wf trigger requestID variables s r s' : sound_blocks wf ->
  Execute ctx wf trigger requestID variables s = (Some r, s') -> er_ResponseSent r = true -> committed s'.
Proof.
  intros Hb (ctx' & t & s1 & _ & Hr)%Execute_run. by apply (Run_sent _ _ _ _ _ _ _ _ _ Hr).
Qed.

Lemma run_workflow_commits h ctx r params cookies clientIP requestID key s s' :
  sound_blocks (hh_workflow h) -> is_Some (st_rw s) ->
  run_workflow h ctx r params cookies clientIP requestID key s = (Some tt, s') -> committed s'.
Proof.
  intros Hb Hw. unfold run_workflow. rewrite run_bind_Some. intros (u & s1 & H1' & Hk).
  rewrite run_bind_Some in Hk. destruct Hk as (result & s2 & H2' & Hk).
  rewrite run_bind_Some in Hk. destruct Hk as (u' & s3 & H3' & Hk).
  assert (is_Some (st_rw s3)) as Hw3.
  { eapply grows_is_Some; [|exact Hw].
    pose proof (run_grows _ _ _ _ (any_Execute_grows _ _ _ _ _) H2') as G2.
    apply run_grows in H1' as G1; [|destruct key; [apply capture_grows|apply mp_ret]].
    apply run_grows in H3' as G3; [|apply mp_call]. by rewrite G1, G2. }
  pose proof H3' as Hk3. apply (run_keeps _ _ _ _ (mp_call _ _)) in Hk3.
  unfold finish in Hk. rewrite run_bind_Some in Hk. destruct Hk as (u2 & s4 & H4' & Hk).
  assert (committed s4) as H4c.
  { destruct (er_ResponseSent result) eqn:Es.
    - injection H4' as _ <-. apply (committed_keep s2); [|done]. by eapply Execute_sent.
    - destruct u2. destruct (er_Error result); by eapply answer_commits. }
  apply (committed_grows s4); [done|]. eapply run_grows; [|exact Hk].
  destruct key; [|apply mp_ret]. apply mp_bind; [apply get_capture_grows|]. intros [c|]; [|apply mp_ret].
  case_decide; [|apply mp_ret]. apply mp_bind; [apply mp_call|intros; apply mp_ret].
Qed.

Lemma with_cache_commits h ctx r params cookies clientIP requestID s s' :
  sound_blocks (hh_workflow h) -> is_Some (st_rw s) ->
  with_trigger_cache h ctx r params cookies clientIP requestID s = (Some tt, s') -> committed s'.
Proof.
  intros Hb Hw. unfold with_trigger_cache. case_match; [|by apply run_workflow_commits].
  rewrite run_bind_Some. intros (key & s1 & H1' & Hk).
  apply run_grows in H1'; [|apply mp_bind; [apply mp_call|intros; apply mp_ret]].
  pose proof (grows_is_Some _ _ H1' Hw) as Hw1. destruct key as [key|e]; [|by eapply run_workflow_commits].
  rewrite run_bind_Some in Hk. destruct Hk as (hit & s2 & H2' & Hk). apply run_grows in H2'; [|apply mp_call].
  pose proof (grows_is_Some _ _ H2' Hw1) as Hw2.
  destruct hit as [[body code]|]; rewrite run_bind_Some in Hk; destruct Hk as (u & s3 & H3' & Hk);
    (apply run_grows in H3'; [|apply on_rw_set_grows]); pose proof (grows_is_Some _ _ H3' Hw2) as Hw3;
    [by eapply answer_commits|by eapply run_workflow_commits].
Qed.

Lemma served_committed h ctx r s s' : sound_blocks (hh_workflow h) -> is_Some (st_rw s) ->
  ServeHTTP h ctx r s = (Some tt, s') -> committed s'.
Proof.
  intros Hblocks Hw Hrun.
  unfold ServeHTTP in Hrun. rewrite run_bind_Some in Hrun. destruct Hrun as (id & s1 & H1' & Hrun).
  rewrite run_bind_Some in Hrun. destruct Hrun as (u2 & s2 & H2' & Hrun).
  rewrite run_bind_Some in Hrun. destruct Hrun as (u3 & s3 & H3' & Hrun).
  rewrite run_bind_Some in Hrun. destruct Hrun as (u4 & s4 & H4' & Hrun).
  assert (is_Some (st_rw s4)) as Hw4.
  { eapply grows_is_Some; [|exact Hw]. apply run_grows in H1'; [|apply (requestID_pred grows); intros; apply mp_call].
    apply run_grows in H2'; [|apply on_rw_set_grows]. apply run_grows in H3'; [|apply on_rw_set_grows].
    apply run_grows in H4'; [|destruct (decide (hh_version h <> "")); [apply on_rw_set_grows|apply mp_ret]].
    by rewrite H1', H2', H3'. }
  clear H1' H2' H3' H4'. case_decide; [by eapply answer_commits|].
  destruct (parseParameters _ r) as [params|e]; [|by eapply answer_commits].
  rewrite run_bind_Some in Hrun. destruct Hrun as (allowed & s5 & H5' & Hrun).
  apply run_grows in H5'; [|apply (limits_pred grows); intros; apply mp_call]. pose proof (grows_is_Some _ _ H5' Hw4) as Hw5.
  destruct allowed as [[[] n]|e]; [by eapply with_cache_commits| |by eapply answer_commits].
  unfold writeRateLimitError in Hrun. rewrite run_bind_Some in Hrun. destruct Hrun as (u6 & s6 & H6' & Hrun).
  apply run_grows in H6'; [|apply on_rw_set_grows]. eapply answer_commits; [|exact Hrun].
  by eapply grows_is_Some.
Qed.

(** every request is answered.  Whatever the request, the rate limiter, the
    caches, the databases and servers do, when [ServeHTTP] returns the client has
    got a status line, unless a block is declared with type response. *)
Theorem ServeHTTP_answers h ctx r s s'
    (Hblocks : sound_blocks (hh_workflow h)) (Hw : is_Some (st_rw s))
    (Hrun : ServeHTTP h ctx r s = (Some tt, s')) : committed s'.
Proof. by eapply served_committed. Qed.

(** ** What a refused request may do *)

Section Gate.
(** A relation on worlds that the operations before the workflow respect, such as
    that the databases are unchanged. *)
Class QuietOps (I : relation W) : Prop := {
  quiet_pre :: PreOrder I;
  quiet_rand : forall n w, I w (rand_Read n w).2;
  quiet_now : forall w, I w (time_Now w).2;
  quiet_write : forall b w, I w (resp_Write b w).2;
  quiet_exec : forall t d w, I w (tmpl_Execute t d w).2;
  quiet_limits : forall l rd w, I w (CheckTriggerLimits l rd w).2;
  quiet_get : forall wf key w, I w (tcache_Get wf key w).2;
}.

Context (I : relation W) `{!QuietOps I}.

(** Nothing but the header map changes. *)
Definition unsent (a b : option RespWriter) : Prop :=
  match a, b with
  | Some w, Some w' => rw_status w' = rw_status w /\ rw_capture w' = rw_capture w
  | None, None => True
  | _, _ => False
  end.

#[local] Instance unsent_preorder : PreOrder unsent.
Proof.
  split; [by intros [w|]|]. intros [a|] [b|] [c|]; simpl; try done. intros [-> ->] [-> ->]. done.
Qed.

Definition gates {A} (m : X A) : Prop :=
  forall s, unsent (st_rw s) (st_rw (m s).2) /\ I (st_world s) (st_world (m s).2).

Lemma gates_ret {A} (a : A) : gates (ret a).
Proof. intros s. split; reflexivity. Qed.

Lemma gates_bind {A B} (m : X A) (f : A -> X B) : gates m -> (forall a, gates (f a)) -> gates (bind m f).
Proof.
  intros Hm Hf s. unfold bind. specialize (Hm s). destruct (m s) as [[a|] s1]; [|done].
  destruct (Hf a s1) as [H1' H2']. destruct Hm as [Hm1 Hm2]. split; etrans; eauto.
Qed.

Lemma gates_call {A} (op : W -> A * W) : (forall w, I w (op w).2) -> gates (call op).
Proof. intros Hop s. unfold call, lift. specialize (Hop (st_world s)). by destruct (op (st_world s)). Qed.

Lemma gates_set n v : gates (on_rw (fun w => rw_Header_Set w n v)).
Proof. intros s. split; [|reflexivity]. simpl. by destruct (st_rw s). Qed.

Lemma gates_requestID r : gates (getOrGenerateRequestID r).
Proof.
  unfold getOrGenerateRequestID, generateRequestID. repeat case_decide; try apply gates_ret.
  apply gates_bind; [apply gates_call, quiet_rand|]. intros [b|]; [apply gates_ret|].
  apply gates_bind; [apply gates_call, quiet_now|]. intros. apply gates_ret.
Qed.

Lemma gates_limits h rd : gates (check_limits h rd).
Proof. unfold check_limits. case_match; [apply gates_call, quiet_limits|apply gates_ret]. Qed.

Lemma run_gates {A} (m : X A) s o s' : gates m -> m s = (o, s') ->
  unsent (st_rw s) (st_rw s') /\ I (st_world s) (st_world s').
Proof. intros Hm E. specialize (Hm s). by rewrite E in Hm. Qed.

Definition final_status (s : St (W := W)) : option Z := st_rw s ≫= rw_status.

(** A writer nothing was sent on, without a capture layer. *)
Definition fresh (s : St (W := W)) : Prop := exists w, st_rw s = Some w /\ rw_status w = None /\ rw_capture w = None.

Lemma fresh_unsent s s' : fresh s -> unsent (st_rw s) (st_rw s') -> fresh s'.
Proof.
  intros (w & Hw & Hs & Hc). unfold fresh. rewrite Hw. destruct (st_rw s') as [w'|]; [|done].
  intros [E1 E2]. exists w'. by rewrite E1, E2.
Qed.

Lemma answer_refuses code body s s' : fresh s -> valid_code code = true -> informational code = false ->
  answer code body s = (Some tt, s') -> I (st_world s) (st_world s') /\ final_status s' = Some code.
Proof.
  intros (w & Hw & Hs & Hc) Hv Hi. unfold answer. rewrite run_bind_Some. intros (u & s1 & H1' & Hk).
  rewrite run_bind_Some in Hk. destruct Hk as (e & s2 & H2' & [= <-]).
  unfold send_status, rw_WriteHeader, sw_WriteHeader, http_WriteHeader in H1'. rewrite Hw, Hc in H1'.
  cbn [rw_status record_status] in H1'. rewrite Hs, Hv, Hi in H1'.
  injection H1' as _ <-. unfold send_body, rw_Write, sw_Write, http_Write in H2'. cbn -[bodyAllowedForStatus] in H2'.
  rewrite Hc in H2'. cbn -[bodyAllowedForStatus] in H2'.
  pose proof (quiet_write body (st_world s)) as Hq.
  destruct (decide (body = "")), (negb (bodyAllowedForStatus code)), (resp_Write body (st_world s));
    injection H2' as _ <-; by split.
Qed.

(** The trigger has a cache key and the trigger cache an entry. *)
Definition cache_hit (h : HTTPHandler) (body : string) (code : Z) : Prop :=
  has_cache = true /\ is_Some (ct_CacheKey (hh_trigger h)) /\
  exists key w0 w1, tcache_Get (wc_Name (cw_Config (hh_workflow h))) key w0 = (Some (body, code), w1).

Lemma with_cache_gate h ctx r params cookies clientIP requestID s s' :
  with_trigger_cache h ctx r params cookies clientIP requestID s = (Some tt, s') ->
  (exists body code, cache_hit h body code /\ I (st_world s) (st_world s')) \/
  (exists s1 er s2, I (st_world s) (st_world s1) /\
     Execute ctx (hh_workflow h) (trigger_data r params cookies clientIP) requestID (hh_variables h) s1 = (Some er, s2)).
Proof.
  assert (forall key s s', run_workflow h ctx r params cookies clientIP requestID key s = (Some tt, s') ->
    exists s1 er s2, I (st_world s) (st_world s1) /\
      Execute ctx (hh_workflow h) (trigger_data r params cookies clientIP) requestID (hh_variables h) s1 = (Some er, s2)) as Hrw.
  { intros key s0 s0'. unfold run_workflow. rewrite run_bind_Some. intros (u & s1 & H1' & Hk).
    rewrite run_bind_Some in Hk. destruct Hk as (er & s2 & H2' & _). exists s1, er, s2. split; [|done].
    destruct key; injection H1' as _ <-; reflexivity. }
  unfold with_trigger_cache. destruct (if has_cache then ct_CacheKey (hh_trigger h) else None) as [t|] eqn:Ek;
    [|by intros; right; eapply Hrw].
  assert (has_cache = true /\ is_Some (ct_CacheKey (hh_trigger h))) as [Hc Hk'].
  { destruct has_cache; [|done]. rewrite Ek. by split; [|eexists]. }
  rewrite run_bind_Some. intros (key & s1 & H1' & Hk).
  apply run_gates in H1' as [_ HI1]; [|apply gates_bind; [apply gates_call, quiet_exec|intros; apply gates_ret]].
  destruct key as [key|e]; [|right; destruct (Hrw _ _ _ Hk) as (s2 & er & s3 & ? & ?); exists s2, er, s3; split; [by etrans|done]].
  rewrite run_bind_Some in Hk. destruct Hk as (hit & s2 & H2' & Hk). pose proof H2' as Hget.
  apply run_gates in H2' as [_ HI2]; [|apply gates_call, quiet_get].
  destruct hit as [[body code]|]; rewrite run_bind_Some in Hk; destruct Hk as (u & s3 & H3' & Hk);
    (apply run_gates in H3' as [_ HI3]; [|apply gates_set]).
  - left. unfold call, lift in Hget. destruct (tcache_Get _ _ (st_world s1)) as [o w1] eqn:Eg. injection Hget as -> _.
    exists body, code. split; [split_and!; [done|done|by exists key, (st_world s1), w1]|].
    etrans; [exact HI1|etrans; [exact HI2|etrans; [exact HI3|]]].
    unfold answer in Hk. rewrite run_bind_Some in Hk. destruct Hk as (u' & s4 & H4' & Hk).
    rewrite run_bind_Some in Hk. destruct Hk as (e & s5 & H5' & [= <-]).
    unfold send_status in H4'. unfold send_body in H5'.
    destruct (st_rw s3) as [w|] eqn:E3; [destruct (rw_WriteHeader code w); [|done]|]; injection H4' as _ <-.
    + simpl in H5'. destruct (rw_Write body r0) as [e1 w2]. pose proof (quiet_write body (st_world s3)) as Hq.
      destruct (resp_Write body (st_world s3)). injection H5' as _ <-. exact Hq.
    + rewrite E3 in H5'. injection H5' as _ <-. reflexivity.
  - right. destruct (Hrw _ _ _ Hk) as (s4 & er & s5 & HI4 & HE). exists s4, er, s5. split; [|done].
    etrans; [exact HI1|etrans; [exact HI2|etrans; [exact HI3|done]]].
Qed.

(** What the limiter answers when it is asked. *)
Definition limiter_says (h : HTTPHandler) (rd : RateLimitContext) (answer : result (bool * Z)) : Prop :=
  has_limiter = true /\ ct_RateLimits (hh_trigger h) <> [] /\
  exists w0 w1, CheckTriggerLimits (ct_RateLimits (hh_trigger h)) rd w0 = (answer, w1).

Lemma check_limits_says h rd s answer s' : check_limits h rd s = (Some answer, s') ->
  if decide (has_limiter = true /\ ct_RateLimits (hh_trigger h) <> []) then limiter_says h rd answer
  else answer = Ok (true, 0).
Proof.
  unfold check_limits, limiter_says. destruct has_limiter; cbn [andb].
  - case_bool_decide as Hl.
    + rewrite decide_True by done. unfold call, lift.
      destruct (CheckTriggerLimits _ rd (st_world s)) as [x w] eqn:E. intros [= <- _].
      split_and!; [done|done|]. by exists (st_world s), w.
    + rewrite decide_False by tauto. by intros [= <- _].
  - rewrite decide_False by (by intros [? _]). by intros [= <- _].
Qed.

(** C14: what stands before a workflow.  Let [I] be any preorder on worlds that the
    gate's own operations keep: ids, the clock, the cache key, the limiter, the lookup in
    the trigger cache and writing the answer; not the databases, other servers or what is
    stored in a cache.  A request with the wrong method is answered 405, one whose
    parameters do not parse 400, one that the limiter, asked with the limits of the trigger
    about this request, refuses 429, or fails on 500; and as no workflow is run, [I] holds
    from before to after.  Otherwise the limiter let the request through, if there is one
    and the trigger has limits, and one of two things has happened: an entry of the
    trigger cache was served, again without a run and with [I] from before to after; or
    the workflow ran on the parsed parameters, and [I] holds up to that run. *)
Theorem ServeHTTP_gate h ctx r s s' (Hfresh : fresh s) (Hrun : ServeHTTP h ctx r s = (Some tt, s')) :
  let cookies := parseCookies r in
  let clientIP := resolveClientIP r (hh_trustProxyHeaders h) in
  let quiet := I (st_world s) (st_world s') in
  if decide (hq_Method r <> tc_Method (ct_Config (hh_trigger h))) then quiet /\ final_status s' = Some 405
  else match parseParameters (ct_Config (hh_trigger h)) r with
  | Err _ => quiet /\ final_status s' = Some 400
  | Ok params =>
      let asked := limiter_says h (rate_limit_context r params cookies clientIP) in
      (quiet /\ ((exists n, asked (Ok (false, n)) /\ final_status s' = Some 429) \/
                 (exists e, asked (Err e) /\ final_status s' = Some 500))) \/
      (has_limiter = true -> ct_RateLimits (hh_trigger h) <> [] -> exists n, asked (Ok (true, n))) /\
      ((exists body code, cache_hit h body code /\ quiet) \/
       (exists requestID s1 er s2, I (st_world s) (st_world s1) /\
          Execute ctx (hh_workflow h) (trigger_data r params cookies clientIP) requestID (hh_variables h) s1 = (Some er, s2)))
  end.
Proof.
  cbv zeta. unfold ServeHTTP in Hrun. rewrite run_bind_Some in Hrun. destruct Hrun as (id & s1 & H1' & Hrun).
  rewrite run_bind_Some in Hrun. destruct Hrun as (u2 & s2 & H2' & Hrun).
  rewrite run_bind_Some in Hrun. destruct Hrun as (u3 & s3 & H3' & Hrun).
  rewrite run_bind_Some in Hrun. destruct Hrun as (u4 & s4 & H4' & Hrun).
  assert (unsent (st_rw s) (st_rw s4) /\ I (st_world s) (st_world s4)) as [HU HI].
  { apply run_gates in H1' as [U1 I1]; [|apply gates_requestID]. apply run_gates in H2' as [U2 I2]; [|apply gates_set].
    apply run_gates in H3' as [U3 I3]; [|apply gates_set].
    apply run_gates in H4' as [U4 I4]; [|destruct (decide (hh_version h <> "")); [apply gates_set|apply gates_ret]].
    split; [by rewrite U1, U2, U3|]. etrans; [exact I1|etrans; [exact I2|by etrans]]. }
  pose proof (fresh_unsent _ _ Hfresh HU) as Hf4. clear H1' H2' H3' H4'.
  assert (forall code body s5, fresh s5 -> I (st_world s4) (st_world s5) -> valid_code code = true ->
    informational code = false -> answer code body s5 = (Some tt, s') ->
    I (st_world s) (st_world s') /\ final_status s' = Some code) as Hans.
  { intros code body s5 Hf5 HI5 Hv Hi Ha. destruct (answer_refuses _ _ _ _ Hf5 Hv Hi Ha) as [? ?].
    split; [|done]. etrans; [exact HI|by etrans]. }
  case_decide; [by eapply (Hans 405); [exact Hf4|reflexivity|..|exact Hrun]|].
  destruct (parseParameters _ r) as [params|e]; [|by eapply (Hans 400); [exact Hf4|reflexivity|..|exact Hrun]].
  rewrite run_bind_Some in Hrun. destruct Hrun as (allowed & s5 & H5' & Hrun). pose proof (check_limits_says _ _ _ _ _ H5') as Hlim.
  apply run_gates in H5' as [U5 I5]; [|apply gates_limits]. pose proof (fresh_unsent _ _ Hf4 U5) as Hf5.
  destruct allowed as [[[] n]|e].
  - right. split.
    { intros Ha Hb. exists n. destruct (decide _) as [_|Hn]; [exact Hlim|]. by destruct Hn. }
    apply with_cache_gate in Hrun as [(body & code & Hg & Hq)|(s6 & er & s7 & Hq & HE)].
    + left. exists body, code. split; [done|]. etrans; [exact HI|by etrans].
    + right. exists id, s6, er, s7. split; [|done]. etrans; [exact HI|by etrans].
  - left. unfold writeRateLimitError in Hrun. rewrite run_bind_Some in Hrun. destruct Hrun as (u6 & s6 & H6' & Hrun).
    apply run_gates in H6' as [U6 I6]; [|apply gates_set].
    destruct (Hans 429 (encode_rate_limit n id) s6) as [? ?]; try done; [by eapply fresh_unsent|by etrans|].
    destruct (decide _); [by eauto|done].
  - left. destruct (Hans 500 (encode_response false "rate limit check failed" id) s5) as [? ?]; try done.
    destruct (decide _); [by eauto|done].
Qed.
End Gate.

(** ** What is cached *)

(** The capture layer agrees with what went to the client: the status, unless it was
    an informational one, and the body, unless the status allows none. *)
Definition capture_ok (o : option RespWriter) : Prop :=
  match o with
  | Some w =>
    match rw_capture w with
    | Some c =>
      if cap_wroteHeader c
      then informational (cap_statusCode c) = true \/
           (rw_status w = Some (cap_statusCode c) /\
            (bodyAllowedForStatus (cap_statusCode c) = true -> cap_body c = rw_body w))
      else cap_statusCode c = 0 /\ cap_body c = "" /\ rw_status w = None /\ rw_body w = ""
    | None => True
    end
  | None => True
  end.

Definition captures (A : Type) (m : X A) : Prop := forall s, capture_ok (st_rw s) -> capture_ok (st_rw (m s).2).

#[local] Instance captures_pred : MonadPred captures.
Proof.
  constructor.
  - intros A a s. done.
  - intros A B m f Hm Hf s Hs. unfold bind. specialize (Hm s Hs). destruct (m s) as [[a|] s1]; [|done]. by apply Hf.
  - intros A op s. unfold call, lift. by destruct (op (st_world s)).
  - intros c db sql params opts _ s. unfold risky_call. by destruct (db_ExecuteQuery _ _ _ _ _ _).
Qed.

Lemma captures_set n v : captures _ (on_rw (fun w => rw_Header_Set w n v)).
Proof. intros s. simpl. destruct (st_rw s); [|done]. exact id. Qed.

Lemma captures_status c : captures _ (send_status c).
Proof.
  intros s. unfold send_status. destruct (st_rw s) as [w|] eqn:E; [|simpl; by rewrite E].
  destruct (rw_WriteHeader c w) as [w'|] eqn:Ew; cbn [snd]; [|by rewrite E]. cbn [st_rw].
  unfold rw_WriteHeader, sw_WriteHeader in Ew. simpl. destruct (rw_capture w) as [k|] eqn:Ec.
  - destruct (cap_wroteHeader k) eqn:Ek; [injection Ew as <-; by rewrite Ec, Ek|].
    intros (_ & Hb & Hs & Hr). unfold http_WriteHeader in Ew. simpl in Ew. rewrite Hs in Ew.
    destruct (negb (valid_code c)); [done|]. destruct (informational c) eqn:Ei; injection Ew as <-; simpl; [by left|].
    right. split; [done|]. by rewrite Hb, Hr.
  - intros _. unfold http_WriteHeader in Ew. cbn [record_status rw_status] in Ew.
    destruct (rw_status w); [injection Ew as <-; simpl; by rewrite Ec|].
    destruct (negb (valid_code c)); [done|]. destruct (informational c); injection Ew as <-; simpl; by rewrite Ec.
Qed.

Lemma captures_body b : captures _ (send_body b).
Proof.
  intros s. unfold send_body. destruct (st_rw s) as [w|] eqn:E; [|simpl; by rewrite E].
  destruct (resp_Write b (st_world s)) as [e' world]. unfold rw_Write, sw_Write. cbn [capture_ok].
  destruct (rw_capture w) as [k|] eqn:Ec.
  - unfold http_Write. cbn [set_capture record_status rw_status rw_capture]. intros Hok.
    destruct (cap_wroteHeader k) eqn:Ek.
    + destruct Hok as [Hi|[Hs Hb]].
      * destruct (rw_status w); (destruct (decide (b = "")); [|destruct (negb _)]); simpl; by left.
      * rewrite Hs. cbn [default]. destruct (decide (b = "")) as [->|]; simpl.
        { right. split; [done|]. by rewrite app_str_nil_r. }
        destruct (bodyAllowedForStatus (cap_statusCode k)) eqn:Ea; simpl; rewrite ?Ea; right.
        { split; [done|]. intros _. by rewrite Hb. }
        split; [done|]. intros ?. congruence.
    + destruct Hok as (Hc & Hb & Hs & Hr). rewrite Hs. cbn [default].
      destruct (decide (b = "")) as [->|]; simpl; right; (split; [done|]); by rewrite Hb, Hr.
  - intros _. unfold http_Write. cbn [record_status rw_status]. destruct (rw_status w); (destruct (decide (b = "")); [|destruct (negb _)]); simpl; by rewrite ?Ec.
Qed.

Lemma captures_has : captures _ has_rw.
Proof. by intros s. Qed.

Lemma captures_deref t : captures _ (deref_template t).
Proof. destruct t; by intros s. Qed.

Lemma captures_get : captures _ get_capture.
Proof. by intros s. Qed.

#[local] Hint Resolve captures_set captures_status captures_body captures_has captures_deref captures_get : sqlproxy.

Lemma captures_Execute ctx wf trigger requestID variables :
  captures _ (Execute ctx wf trigger requestID variables).
Proof. apply any_Execute_pred; try apply _; auto with sqlproxy. Qed.

(** [finish] with a cache key: the store is asked to keep what was captured. *)
Lemma finish_stores h key requestID result s s' : finish h (Some key) requestID result s = (Some tt, s') ->
  capture_ok (st_rw s) ->
  capture_ok (st_rw s') /\
  (forall w c, st_rw s' = Some w -> rw_capture w = Some c -> exists world,
     st_world s' = if decide (200 <= cap_statusCode c < 400)
       then (tcache_Set (wc_Name (cw_Config (hh_workflow h))) key (cap_body c) (cap_statusCode c)
               (trigger_ttl (ct_Config (hh_trigger h))) world).2
       else world).
Proof.
  intros Hfin Hok. pose proof (finish_pred captures captures_status captures_body captures_get (fun A op _ => mp_call A op)
    h (Some key) requestID result s Hok) as Hc. rewrite Hfin in Hc. split; [exact Hc|].
  intros w c Hw Hcap. unfold finish in Hfin. rewrite run_bind_Some in Hfin. destruct Hfin as (u & s1 & _ & Hk).
  rewrite run_bind_Some in Hk. destruct Hk as (o & s2 & Hget & Hk).
  unfold get_capture, lift in Hget. injection Hget as Ho <-.
  assert (st_rw s' = st_rw s1) as Ers.
  { destruct o as [c'|]; [|by injection Hk as <-]. case_decide; [|by injection Hk as <-].
    rewrite run_bind_Some in Hk. destruct Hk as (b & s3 & H3' & [= <-]).
    by apply (run_keeps _ _ _ _ (mp_call _ _)) in H3'. }
  rewrite <- Ers, Hw in Ho. simpl in Ho. rewrite Hcap in Ho. subst o.
  case_decide; [|by injection Hk as <-; eexists].
  rewrite run_bind_Some in Hk. destruct Hk as (b & s3 & H3' & [= <-]). exists (st_world s1).
  unfold call, lift in H3'. destruct (tcache_Set _ _ _ _ _ _) as [b' w']. by injection H3' as _ <-.
Qed.

(** The capture layer stays. *)
Definition layered (o : option RespWriter) : Prop := exists w c, o = Some w /\ rw_capture w = Some c.
Definition stays (A : Type) (m : X A) : Prop := forall s, layered (st_rw s) -> layered (st_rw (m s).2).

#[local] Instance stays_pred : MonadPred stays.
Proof.
  constructor.
  - intros A a s. done.
  - intros A B m f Hm Hf s Hs. unfold bind. specialize (Hm s Hs). destruct (m s) as [[a|] s1]; [|done]. by apply Hf.
  - intros A op s. unfold call, lift. by destruct (op (st_world s)).
  - intros c db sql params opts _ s. unfold risky_call. by destruct (db_ExecuteQuery _ _ _ _ _ _).
Qed.

Lemma stays_set n v : stays _ (on_rw (fun w => rw_Header_Set w n v)).
Proof. intros s (w & c & Hw & Hc). simpl. rewrite Hw. simpl. eexists _, c. by split. Qed.

Lemma stays_status code : stays _ (send_status code).
Proof.
  intros s (w & c & Hw & Hc). unfold send_status, rw_WriteHeader, sw_WriteHeader. rewrite Hw, Hc.
  destruct (cap_wroteHeader c); [cbn; by exists w, c|]. unfold http_WriteHeader.
  destruct (rw_status _); cbn [snd st_rw]; [by eexists _, _|].
  destruct (negb _); cbn [snd st_rw]; [by exists w, c|]. destruct (informational code); by eexists _, _.
Qed.

Lemma stays_body b : stays _ (send_body b).
Proof.
  intros s (w & c & Hw & Hc). unfold send_body, rw_Write, sw_Write, http_Write. rewrite Hw, Hc.
  destruct (resp_Write b (st_world s)), (rw_status _);
    (destruct (decide (b = "")); [|destruct (negb _)]); cbn [snd st_rw]; by eexists _, _.
Qed.

Lemma stays_same A (m : X A) : keeps _ m -> stays _ m.
Proof. intros Hm s Hs. by rewrite Hm. Qed.

#[local] Hint Resolve stays_set stays_status stays_body : sqlproxy.

Lemma layered_keeps ctx wf trigger requestID variables s o s' :
  Execute ctx wf trigger requestID variables s = (o, s') -> layered (st_rw s) -> layered (st_rw s').
Proof.
  intros E Hs. assert (stays _ (Execute ctx wf trigger requestID variables)) as Hx.
  { apply any_Execute_pred; try apply _; auto with sqlproxy.
    - apply stays_same. by intros ?.
    - intros. apply stays_same, deref_pred_keeps. }
  specialize (Hx s Hs). by rewrite E in Hx.
Qed.

Lemma layered_run h key requestID result s s' :
  finish h key requestID result s = (Some tt, s') -> layered (st_rw s) -> layered (st_rw s').
Proof.
  intros E Hs. assert (stays _ (finish h key requestID result)) as Hx.
  { apply (finish_pred stays); auto with sqlproxy; [|intros; apply mp_call]. apply stays_same. by intros ?. }
  specialize (Hx s Hs). by rewrite E in Hx.
Qed.

(** the trigger cache keeps what was sent.  When a request is served with a cache
    key, the cache is given exactly the captured status and body, and only if the
    status is 2xx or 3xx; and the client has got that status, and that body if the
    status allows one. *)
Theorem cached_as_sent h ctx r params cookies clientIP requestID key s s'
    (Hrun : run_workflow h ctx r params cookies clientIP requestID (Some key) s = (Some tt, s'))
    (Hnew : exists w, st_rw s = Some w /\ rw_status w = None /\ rw_body w = "") :
  exists w c world, st_rw s' = Some w /\ rw_capture w = Some c /\
    st_world s' = (if decide (200 <= cap_statusCode c < 400)
      then (tcache_Set (wc_Name (cw_Config (hh_workflow h))) key (cap_body c) (cap_statusCode c)
              (trigger_ttl (ct_Config (hh_trigger h))) world).2
      else world) /\
    (200 <= cap_statusCode c < 400 -> rw_status w = Some (cap_statusCode c) /\
       (bodyAllowedForStatus (cap_statusCode c) = true -> rw_body w = cap_body c)).
Proof.
  destruct Hnew as (w & Hw & Hst & Hbody). unfold run_workflow in Hrun. rewrite run_bind_Some in Hrun.
  destruct Hrun as (u & s1 & H1' & Hrun). rewrite run_bind_Some in Hrun. destruct Hrun as (result & s2 & H2' & Hrun).
  rewrite run_bind_Some in Hrun. destruct Hrun as (u' & s3 & H3' & Hrun).
  assert (capture_ok (st_rw s1)) as Hok1 by (injection H1' as _ <-; simpl; by rewrite Hw).
  assert (capture_ok (st_rw s2)) as Hok2.
  { pose proof (captures_Execute ctx (hh_workflow h) (trigger_data r params cookies clientIP) requestID
      (hh_variables h) s1 Hok1) as Hx. by rewrite H2' in Hx. }
  apply (run_keeps _ _ _ _ (mp_call _ _)) in H3'. rewrite <- H3' in Hok2.
  destruct (finish_stores _ _ _ _ _ _ Hrun Hok2) as [Hok Hstore].
  destruct (layered_run h (Some key) requestID result s3 s') as (w' & c & Hw' & Hc); [exact Hrun| |].
  { rewrite H3'. eapply layered_keeps; [exact H2'|]. injection H1' as _ <-. simpl. rewrite Hw. by eexists _, _. }
  destruct (Hstore _ _ Hw' Hc) as (world & Eworld). exists w', c, world. split_and!; try done.
  intros Hr. rewrite Hw' in Hok. simpl in Hok. rewrite Hc in Hok.
  destruct (cap_wroteHeader c); [|destruct Hok as (E & _); rewrite E in Hr; lia].
  destruct Hok as [Hi|[Hs Hb]]; [unfold informational in Hi; apply bool_decide_eq_true in Hi; lia|].
  split; [done|]. intros. symmetry. auto.
Qed.

(** ** Parameters *)

(** Where the value of a parameter comes from. *)
Inductive supplied (pathParams : gset string) (json : option row) (r : HttpRequest) (p : ParamConfig) : any -> Prop :=
| from_path v : pa_Name p ∈ pathParams -> PathValue r (pa_Name p) <> "" ->
    ConvertValue (PathValue r (pa_Name p)) (pa_Type p) = Ok v -> supplied pathParams json r p v
| from_form v : (pa_Name p ∈ pathParams -> PathValue r (pa_Name p) = "") -> FormValue r (pa_Name p) <> "" ->
    ConvertValue (FormValue r (pa_Name p)) (pa_Type p) = Ok v -> supplied pathParams json r p v
| from_json m j v : (pa_Name p ∈ pathParams -> PathValue r (pa_Name p) = "") -> FormValue r (pa_Name p) = "" ->
    json = Some m -> m !! pa_Name p = Some j ->
    ConvertJSONValue j (pa_Type p) = Ok v -> supplied pathParams json r p v
| from_default v : (pa_Name p ∈ pathParams -> PathValue r (pa_Name p) = "") -> FormValue r (pa_Name p) = "" ->
    (m ← json; m !! pa_Name p) = None -> pa_Required p = false ->
    ConvertValue (pa_Default p) (pa_Type p) = Ok v -> supplied pathParams json r p v.

Lemma invalid_param_Ok {A} p (x : result A) v : invalid_param p x = Ok v <-> x = Ok v.
Proof. by destruct x. Qed.

Lemma parse_one_spec pathParams json r p v :
  parse_one pathParams json r p = Ok v <-> supplied pathParams json r p v.
Proof.
  unfold parse_one, param_text. split.
  - assert (forall name, (name ∈ pathParams -> PathValue r name = "") \/ (name ∈ pathParams /\ PathValue r name <> "")) as Hdec.
    { intros name. destruct (decide (name ∈ pathParams)), (decide (PathValue r name = "")); tauto. }
    destruct (Hdec (pa_Name p)) as [Hn|[Hin Hne]].
    + rewrite (decide_True (P := (if decide (pa_Name p ∈ pathParams) then _ else _) = ""))
        by (case_decide; [by apply Hn|done]).
      destruct (decide (FormValue r (pa_Name p) <> "")) as [Hf|Hf]; [rewrite invalid_param_Ok; by apply from_form|].
      apply dec_stable in Hf. destruct (m ← json; m !! pa_Name p) as [j|] eqn:Ej.
      * apply bind_Some in Ej as (m & -> & Hm). rewrite invalid_param_Ok. by eapply from_json.
      * destruct (pa_Required p) eqn:Er; [done|]. rewrite invalid_param_Ok. by apply from_default.
    + rewrite (decide_True (P := pa_Name p ∈ pathParams)) by done. rewrite (decide_False (P := PathValue _ _ = "")) by done.
      rewrite decide_True by done. rewrite invalid_param_Ok. by apply from_path.
  - assert ((pa_Name p ∈ pathParams -> PathValue r (pa_Name p) = "") ->
      (if decide (pa_Name p ∈ pathParams) then PathValue r (pa_Name p) else "") = "") as Hno.
    { intros Hn. case_decide; [by apply Hn|done]. }
    intros [v' Hin Hne Hv|v' Hn Hf Hv|m j v' Hn Hf -> Hm Hv|v' Hn Hf Hj Hr Hv].
    + rewrite (decide_True (P := pa_Name p ∈ pathParams)) by done. rewrite (decide_False (P := PathValue _ _ = "")) by done.
      rewrite decide_True by done. by rewrite invalid_param_Ok.
    + rewrite Hno by done. rewrite (decide_True (P := "" = "")) by done. rewrite decide_True by done. by rewrite invalid_param_Ok.
    + rewrite Hno by done. rewrite (decide_True (P := "" = "")), Hf by done. simpl. rewrite Hm. by rewrite invalid_param_Ok.
    + rewrite Hno by done. rewrite (decide_True (P := "" = "")), Hf by done. simpl. rewrite Hj, Hr. by rewrite invalid_param_Ok.
Qed.

Lemma parse_all_spec pathParams json r ps acc params : NoDup (pa_Name <$> ps) ->
  parse_all pathParams json r ps acc = Ok params <->
  (forall p, p ∈ ps -> exists v, params !! pa_Name p = Some v /\ parse_one pathParams json r p = Ok v) /\
  (forall k, k ∉ pa_Name <$> ps -> params !! k = acc !! k).
Proof.
  revert acc. induction ps as [|p ps IH]; intros acc; cbn [parse_all].
  { intros _. split; [intros [= ->]; split; [set_solver|done]|]. intros [_ He]. f_equal. apply map_eq.
    intros k. symmetry. apply He. simpl. apply not_elem_of_nil. }
  rewrite fmap_cons, NoDup_cons. intros [Hp Hnd].
  destruct (parse_one pathParams json r p) as [v|e] eqn:Ev; simpl.
  - rewrite IH by done. split.
    + intros [H1' H2']. split.
      * intros q [->|Hq]%elem_of_cons; [|by apply H1']. exists v. split; [|done]. rewrite H2' by done. by simplify_map_eq.
      * intros k [Hk Hk']%not_elem_of_cons. rewrite H2' by done. by simplify_map_eq.
    + intros [H1' H2']. split.
      * intros q Hq. apply H1'. by right.
      * intros k Hk. destruct (decide (k = pa_Name p)) as [->|Hne].
        { destruct (H1' p) as (v' & Hv' & E); [by left|]. rewrite Ev in E. injection E as <-. by simplify_map_eq. }
        rewrite lookup_insert_ne by done. apply H2'. by apply not_elem_of_cons.
  - split; [done|]. intros [H1' _]. destruct (H1' p) as (v & _ & E); [by left|]. by rewrite Ev in E.
Qed.

(** C33: what the parameters of a request are.  Parsing succeeds exactly if the JSON
    body and the form are acceptable and every declared parameter is supplied, from
    the path, else the form, else the JSON body, else, if it is optional, from its
    default, by a value its type accepts; then exactly the declared parameters are
    set, to those values. *)
Theorem parseParameters_spec cfg r params (Hdistinct : NoDup (pa_Name <$> tc_Parameters cfg)) :
  parseParameters cfg r = Ok params <->
  exists json, json_body (tc_Parameters cfg) r = Ok json /\ (parsed_form r).1 = None /\
    dom params = list_to_set (pa_Name <$> tc_Parameters cfg) /\
    Forall (fun p => exists v, params !! pa_Name p = Some v /\
              supplied (extractPathParams (tc_Path cfg)) json r p v) (tc_Parameters cfg).
Proof.
  unfold parseParameters. destruct (json_body (tc_Parameters cfg) r) as [json|e]; simpl; [|naive_solver].
  destruct (parsed_form r).1; [naive_solver|]. rewrite parse_all_spec by done. split.
  - intros [H1' H2']. exists json. split_and!; try done.
    + apply set_eq. intros k. rewrite elem_of_dom, elem_of_list_to_set. split.
      * intros [v Hv]. destruct (decide (k ∈ pa_Name <$> tc_Parameters cfg)); [done|]. rewrite H2' in Hv by done. done.
      * intros (p & -> & Hp)%list_elem_of_fmap. destruct (H1' p Hp) as (v & Hv & _). by exists v.
    + apply Forall_forall. intros p Hp. destruct (H1' p Hp) as (v & Hv & E). exists v. split; [done|]. by apply parse_one_spec.
  - intros (json' & [= <-] & _ & Hd & Hf). rewrite Forall_forall in Hf. split.
    + intros p Hp. destruct (Hf p Hp) as (v & Hv & Hs). exists v. split; [done|]. by apply parse_one_spec.
    + intros k Hk. rewrite lookup_empty. apply not_elem_of_dom. rewrite Hd. by rewrite elem_of_list_to_set.
Qed.
End Handler.

(** ** Request ids and client addresses *)

Definition safe_byte (c : ascii) : bool := ((32 <=? byte c) && negb (byte c =? 127))%N.

Lemma byte_chr n : (n < 256)%N -> byte (ascii_of_N n) = n.
Proof. intros. by apply N_ascii_embedding. Qed.

Lemma safe_high n : (128 <= n < 256)%N -> str_all safe_byte (chr n) = true.
Proof.
  intros Hn. simpl. unfold safe_byte. rewrite byte_chr by lia. rewrite andb_true_r.
  apply andb_true_iff. split; [apply N.leb_le; lia|]. apply negb_true_iff, N.eqb_neq. lia.
Qed.

Lemma encode_rune_safe r : printable_rune r = true -> str_all safe_byte (encode_rune r) = true.
Proof.
  intros Hp. unfold encode_rune.
  assert (forall m a : N, (a = m `mod` 64)%N -> (a < 64)%N) as Hm by (intros m a ->; apply N.mod_lt; lia).
  assert (forall b k q a : N, (a = b / k)%N -> (b < k * q)%N -> (a < q)%N) as Hd
    by (intros b k q a ->; apply N.Div0.div_lt_upper_bound).
  destruct (r <? 128)%N eqn:E1.
  { simpl. apply N.ltb_lt in E1. unfold printable_rune in Hp. unfold safe_byte. rewrite byte_chr by lia.
    by rewrite Hp. }
  apply N.ltb_ge in E1. destruct (r <? 2048)%N eqn:E2; [|destruct (_ || _) eqn:E3; [done|]].
  - apply N.ltb_lt in E2. remember (r / 64)%N as q eqn:Hq. apply (Hd _ _ 32%N) in Hq; [|lia].
    remember (r `mod` 64)%N as a eqn:Ha. apply Hm in Ha. by rewrite !str_all_app, !safe_high by lia.
  - apply orb_false_iff in E3 as [_ E3]. apply N.ltb_ge in E3.
    destruct (r <? 65536)%N eqn:E4.
    + apply N.ltb_lt in E4. remember (r `mod` 64)%N as a eqn:Ha. apply Hm in Ha.
      remember ((r / 64) `mod` 64)%N as b eqn:Hb. apply Hm in Hb.
      remember (r / 4096)%N as q eqn:Hq. apply (Hd _ _ 16%N) in Hq; [|lia].
      by rewrite !str_all_app, !safe_high by lia.
    + remember (r `mod` 64)%N as a eqn:Ha. apply Hm in Ha. remember ((r / 64) `mod` 64)%N as b eqn:Hb. apply Hm in Hb.
      remember ((r / 4096) `mod` 64)%N as c eqn:Hc. apply Hm in Hc.
      remember (r / 262144)%N as q eqn:Hq. apply (Hd _ _ 16%N) in Hq; [|lia].
      by rewrite !str_all_app, !safe_high by lia.
Qed.

Lemma cat_all p l : (forall s, s ∈ l -> str_all p s = true) -> str_all p (cat l) = true.
Proof.
  induction l as [|s l IH]; intros Hl; simpl; [done|]. rewrite str_all_app, IH by set_solver.
  rewrite Hl by set_solver. done.
Qed.

Lemma sanitized_safe s : str_all safe_byte (sanitizeHeaderValue s) = true.
Proof.
  unfold sanitizeHeaderValue. apply cat_all. intros t (r & -> & Hr)%list_elem_of_fmap.
  apply list_elem_of_filter in Hr as [Hp _]. by apply encode_rune_safe.
Qed.

Lemma sanitized_printable s : str_all safe_byte s = true -> ascii_only s = true -> (String.length s <= 128)%nat ->
  sanitizeHeaderValue s = s.
Proof.
  unfold sanitizeHeaderValue. intros Hs Ha Hl.
  assert (str_take 128 s = s) as ->.
  { revert Hl. generalize 128%nat. clear. induction s as [|c s IH]; intros [|n]; simpl; try done; try lia.
    intros Hl. rewrite IH; [done|]. simpl in Hl. lia. }
  clear Hl. revert Hs Ha. unfold ascii_only, runes. induction s as [|c s IH]; [done|]. cbn [str_all].
  intros [Hc Hs]%andb_true_iff [Hca Ha]%andb_true_iff. rewrite chunks_ascii, fmap_cons by done. cbn [fst].
  rewrite filter_cons_True, fmap_cons by exact Hc. cbn [cat foldr].
  change (encode_rune (byte c) +:+ cat (encode_rune <$> filter (fun r => printable_rune r = true) (chunks s).*1) = String c s).
  rewrite IH, encode_ascii by (done || by apply N.ltb_lt). unfold chr, byte. by rewrite ascii_N_embedding.
Qed.

(** request ids cannot break the response.  What is echoed of a client's request
    id contains no control character, so no line break; a printable ASCII id of at
    most 128 bytes is echoed as it is. *)
Theorem sanitizeHeaderValue_spec s :
  str_all safe_byte (sanitizeHeaderValue s) = true /\
  (str_all safe_byte s = true -> ascii_only s = true -> (String.length s <= 128)%nat -> sanitizeHeaderValue s = s).
Proof. split; [apply sanitized_safe|apply sanitized_printable]. Qed.

Lemma has_byte_false c s : has_byte c s = false <-> str_all (fun d => negb (Ascii.eqb d c)) s = true.
Proof. unfold has_byte. by rewrite negb_false_iff. Qed.

Lemma LastIndexByte_None s c : has_byte c s = false -> LastIndexByte s c = None.
Proof.
  rewrite has_byte_false. induction s as [|d s IH]; simpl; [done|]. intros [Hd Hs]%andb_true_iff.
  rewrite IH by done. apply negb_true_iff, Ascii.eqb_neq in Hd. by rewrite decide_False.
Qed.

Lemma LastIndexByte_app a c b : has_byte c b = false ->
  LastIndexByte (a +:+ String c b) c = Some (String.length a).
Proof.
  intros Hb. induction a as [|d a IH]; simpl; [|by rewrite IH].
  rewrite LastIndexByte_None by done. by rewrite decide_True.
Qed.

Lemma has_byte_app c a b : has_byte c (a +:+ b) = has_byte c a || has_byte c b.
Proof. unfold has_byte. by rewrite str_all_app, negb_andb. Qed.

(** An address without brackets and colons. *)
Definition plain (s : string) : Prop := has_byte ":" s = false /\ has_byte "[" s = false /\ has_byte "]" s = false.

Lemma SplitHost_plain host port : plain host -> plain port -> SplitHost (host +:+ ":" +:+ port) = Some host.
Proof.
  intros (Hc & Ho & Hcl) (Pc & Po & Pcl). unfold SplitHost. change (":" +:+ port) with (String ":" port).
  rewrite LastIndexByte_app by done. simpl.
  assert (head_is (Ascii.eqb "[") (host +:+ String ":" port) = false) as ->.
  { destruct host as [|c host]; [done|]. apply has_byte_false in Ho. cbn [str_all] in Ho. bools.
    cbn [head_is String.append]. by rewrite Ascii.eqb_sym. }
  rewrite str_take_app, Hc, !has_byte_app, Ho, Hcl. unfold has_byte in *. simpl. by rewrite Po, Pcl.
Qed.

Lemma Index_bracket host rest : has_byte "]" host = false ->
  Index (String "[" (host +:+ String "]" rest)) "]" = Some (S (String.length host)).
Proof.
  intros Hh%has_byte_false. cbn [Index]. simpl String.prefix.
  assert (Index (host +:+ String "]" rest) "]" = Some (String.length host)) as ->; [|done].
  induction host as [|c host IH]; [by destruct rest|]. cbn [str_all] in Hh. bools.
  cbn [String.append Index String.prefix String.length]. destruct (ascii_dec "]" c) as [<-|]; [done|]. by rewrite IH.
Qed.

Lemma SplitHost_bracketed host port : has_byte "[" host = false -> has_byte "]" host = false -> plain port ->
  SplitHost ("[" +:+ host +:+ "]:" +:+ port) = Some host.
Proof.
  intros Ho Hcl (Pc & Po & Pcl). unfold SplitHost.
  assert (LastIndexByte ("[" +:+ host +:+ "]:" +:+ port) ":" = Some (S (S (String.length host)))) as ->.
  { replace ("[" +:+ host +:+ "]:" +:+ port) with ((("[" +:+ host) +:+ "]") +:+ String ":" port)
      by (rewrite <- !app_str_assoc; done).
    rewrite LastIndexByte_app by done. rewrite !length_app_str. simpl. f_equal. lia. }
  change ("[" +:+ host +:+ "]:" +:+ port) with (String "[" (host +:+ String "]" (String ":" port))).
  cbn [mbind option_bind]. change (head_is _ _) with true. rewrite Index_bracket by done.
  set (rest := host +:+ String "]" (String ":" port)). cbn [mbind option_bind].
  change (str_drop 1 (String "[" rest)) with rest.
  change (str_drop (S (S (String.length host))) (String "[" rest)) with (str_drop (S (String.length host)) rest).
  subst rest. rewrite decide_True by done. rewrite has_byte_app, Ho.
  assert (has_byte "[" (String "]" (String ":" port)) = false) as -> by (unfold has_byte in *; simpl; done).
  replace (str_drop (S (String.length host)) (host +:+ String "]" (String ":" port))) with (String ":" port).
  2: { replace (host +:+ String "]" (String ":" port)) with ((host +:+ "]") +:+ String ":" port) by (by rewrite <- app_str_assoc).
       replace (S (String.length host)) with (String.length (host +:+ "]")) by (rewrite length_app_str; simpl; lia).
       by rewrite str_drop_app. }
  assert (has_byte "]" (String ":" port) = false) as -> by (unfold has_byte in *; simpl; done).
  simpl. rewrite Nat.sub_0_r, str_take_app. done.
Qed.

(** the client address cannot be forged unless proxy headers are trusted.  If they
    are not, the address is that of the connection whatever headers the request has:
    the host of host:port, also for IPv6 in brackets.  If they are, it is the first
    entry of X-Forwarded-For, else X-Real-IP. *)
Theorem resolveClientIP_spec r host port (Hport : plain port)
    (Haddr : (plain host /\ hq_RemoteAddr r = host +:+ ":" +:+ port) \/
             (has_byte "[" host = false /\ has_byte "]" host = false /\
              hq_RemoteAddr r = "[" +:+ host +:+ "]:" +:+ port)) :
  resolveClientIP r false = host /\
  resolveClientIP r true =
    (let xff := header_Get (hq_Header r) "X-Forwarded-For" in
     let xri := header_Get (hq_Header r) "X-Real-IP" in
     if decide (xff = "") then if decide (xri = "") then host else TrimSpace xri else TrimSpace (first_part xff)).
Proof.
  assert (SplitHost (hq_RemoteAddr r) = Some host) as Hs.
  { destruct Haddr as [[Hp ->]|(Ho & Hc & ->)]; [by apply SplitHost_plain|by apply SplitHost_bracketed]. }
  unfold resolveClientIP. rewrite Hs. split; [done|]. cbv zeta. repeat case_decide; tauto.
Qed.

(** ** Concrete requests *)

Module Sample.
Import Executor.Sample.
#[local] Existing Instances sample_lang sample_tables sample_walk sample_funcs sample_gotext sample_floats
  sample_templates sample_platform.
#[local] Instance sample_toint : FloatToInt.
Proof. refine {| float_overflow := fun _ => 0 |}. by intros. Defined.

(** No rate limiter; a cache that never hits and keeps nothing. *)
#[local] Instance sample_services : Services := {|
  has_limiter := false;
  CheckTriggerLimits := fun _ _ w => (Ok (true, 0), w);
  has_cache := true;
  tcache_Get := fun _ _ w => (None, w);
  tcache_Set := fun _ _ _ _ _ w => (true, w);
  rand_Read := fun _ w => (Some "12345678", w);
  acc_Update := fun _ _ w => (tt, w);
  json_string := fun s => chr 34 +:+ s +:+ chr 34;
|}.

Definition no_cache_trigger (ps : list ParamConfig) : TriggerConfig :=
  {| tc_Type := "http"; tc_Path := "/items/{id}"; tc_Method := "GET"; tc_Parameters := ps; tc_RateLimit := [];
     tc_Cache := None; tc_Schedule := ""; tc_Params := ∅ |}.

Definition handler (steps : list StepConfig) (key : option string) : HTTPHandler :=
  {| hh_workflow := compiled steps;
     hh_trigger := {| ct_Config := no_cache_trigger []; ct_CacheKey := key; ct_RateLimits := [] |};
     hh_trustProxyHeaders := false; hh_version := "1"; hh_buildTime := ""; hh_variables := None |}.

Definition request (method : string) : HttpRequest :=
  {| hq_Method := method; hq_Path := "/items/7"; hq_RemoteAddr := "10.0.0.1:999"; hq_Header := ∅; hq_Body := None;
     hq_RawQuery := "q=x"; hq_Query := ∅; hq_PathValues := {[ "id" := "7" ]};
     hq_Cookies := [] |}.

(** a failed workflow is reported as a success.  A workflow whose only call gets a
    404 aborts; the client is answered 200 with success true. *)
Theorem failure_answered_with_success :
  Executor.Sample.answer (ServeHTTP (handler [call_step "a" "http://a/missing" None] None) background (request "GET") start).2 =
  Some (Some 200, encode_response true "" "3132333435363738").
Proof. by vm_compute. Qed.

(** A response by inference is followed by a default response. *)
Example second_response_appended :
  Executor.Sample.answer (ServeHTTP (handler [inferred_response "{}"] None) background (request "GET") start).2 =
  Some (Some 201, "{}" +:+ encode_response true "" "3132333435363738").
Proof. by vm_compute. Qed.

(** An optional parameter of type int without a default cannot be left out. *)
Definition optional_int : ParamConfig :=
  {| pa_Name := "n"; pa_Type := "int"; pa_Required := false; pa_Default := "" |}.

Example optional_int_needed : is_ok (parseParameters (no_cache_trigger [optional_int]) (request "GET")) = false.
Proof. by vm_compute. Qed.

Lemma ServeHTTP_answers_witness :
  committed (ServeHTTP (handler [response_step "ok"] None) background (request "GET") start).2.
Proof.
  destruct (ServeHTTP (handler [response_step "ok"] None) background (request "GET") start) as [[[]|] s'] eqn:E; [|done].
  refine (ServeHTTP_answers _ _ _ _ _ _ _ E); [by repeat constructor|by eexists].
Defined.

#[local] Instance sample_quiet : QuietOps (eq (A := Z)).
Proof. by constructor; try apply _. Qed.

Lemma start_fresh : fresh start.
Proof. by eexists. Qed.

Lemma ServeHTTP_gate_witness :
  st_world start = st_world (ServeHTTP (handler [response_step "ok"] None) background (request "POST") start).2 /\
  final_status (ServeHTTP (handler [response_step "ok"] None) background (request "POST") start).2 = Some 405.
Proof.
  destruct (ServeHTTP (handler [response_step "ok"] None) background (request "POST") start) as [[[]|] s'] eqn:E; [|done].
  exact (ServeHTTP_gate (eq (A := Z)) (handler [response_step "ok"] None) background (request "POST") start s' start_fresh E).
Defined.

Lemma cached_as_sent_witness :
  exists w c, st_rw (run_workflow (handler [response_step "ok"] (Some "k")) background (request "GET") ∅ ∅ "" "r" (Some "k") start).2 = Some w /\
    rw_capture w = Some c /\ rw_status w = Some (cap_statusCode c) /\ rw_body w = cap_body c.
Proof.
  destruct (run_workflow (handler [response_step "ok"] (Some "k")) background (request "GET") ∅ ∅ "" "r" (Some "k") start)
    as [[[]|] s'] eqn:E; [|done].
  assert (exists w, st_rw start = Some w /\ rw_status w = None /\ rw_body w = "") as Hn by (by eexists).
  destruct (cached_as_sent _ _ _ _ _ _ _ _ _ _ E Hn) as (w & c & world & Hw & Hc & _ & Hs).
  assert ((fun w => match rw_capture w with Some c => cap_statusCode c | None => 0 end) <$> st_rw s' = Some 201) as H2.
  { assert ((fun w => match rw_capture w with Some c => cap_statusCode c | None => 0 end) <$> st_rw
      (run_workflow (handler [response_step "ok"] (Some "k")) background (request "GET") ∅ ∅ "" "r" (Some "k") start).2
      = Some 201) as H2 by (by vm_compute). by rewrite E in H2. }
  rewrite Hw in H2. simpl in H2. rewrite Hc in H2. injection H2 as H2.
  exists w, c. split; [exact Hw|]. split; [exact Hc|]. rewrite H2 in *. destruct (Hs ltac:(lia)) as [H3 H4].
  split; [exact H3|]. by apply H4.
Defined.

Definition declared : list ParamConfig :=
  [ {| pa_Name := "id"; pa_Type := "int"; pa_Required := true; pa_Default := "" |};
    {| pa_Name := "q"; pa_Type := "string"; pa_Required := false; pa_Default := "" |} ].

Lemma parseParameters_spec_witness :
  exists params, parseParameters (no_cache_trigger declared) (request "GET") = Ok params /\
    dom params = list_to_set ["id"; "q"].
Proof.
  destruct (parseParameters (no_cache_trigger declared) (request "GET")) as [params|e] eqn:E; [|done].
  exists params. split; [reflexivity|].
  assert (NoDup (pa_Name <$> tc_Parameters (no_cache_trigger declared))) as Hn by (by apply (bool_decide_unpack _); vm_compute).
  destruct (proj1 (parseParameters_spec _ _ _ Hn) E) as (json & _ & _ & Hd & _). exact Hd.
Defined.

Lemma resolveClientIP_spec_witness : resolveClientIP (request "GET") false = "10.0.0.1".
Proof.
  refine (proj1 (resolveClientIP_spec (request "GET") "10.0.0.1" "999" _ _)); [done|left; done].
Defined.

Lemma sanitizeHeaderValue_spec_witness : sanitizeHeaderValue "abc-123" = "abc-123".
Proof. apply (sanitizeHeaderValue_spec "abc-123"); [reflexivity|reflexivity|simpl; lia]. Defined.
End Sample.
