(* ===== verification/WfValidate.v ===== *)
(** * Validating workflows (workflow/validate.go)

    The validator appends messages to a result that is valid as long as no error was
    added.  Each check here returns the messages it appends, in order; [Validate]
    collects them.  What a valid configuration guarantees to the executor and the
    handler is proved at the end. *)
From S2P Require Import Prelude GoStrings GoValues Numbers Patterns SqlUtil RateLimit WfConfig Params.
From S2P Require Import SqlParams Expr Compile Executor Handler.

(** ** Messages *)

Inductive issue := IError (msg : string) | IWarning (msg : string).
Abbreviation Issues := (list issue).

(** [r.addError], [r.addWarning], under a condition. *)
Definition err_if (b : bool) (msg : string) : Issues := if b then [IError msg] else [].
Definition warn_if (b : bool) (msg : string) : Issues := if b then [IWarning msg] else [].

Record ValidationResult := { vr_Valid : bool; vr_Errors : list string; vr_Warnings : list string }.

Definition error_msg (i : issue) : option string := match i with IError m => Some m | IWarning _ => None end.
Definition warning_msg (i : issue) : option string := match i with IWarning m => Some m | IError _ => None end.

Definition validation (l : Issues) : ValidationResult :=
  {| vr_Valid := bool_decide (omap error_msg l = []); vr_Errors := omap error_msg l;
     vr_Warnings := omap warning_msg l |}.

(** [Databases] maps a name to whether the database is read-only. *)
Record ValidationContext := { vc_Databases : gmap string bool; vc_RateLimitPools : gset string }.

(** [cron.ParseStandard]; [time.ParseDuration] and the text of a duration. *)
Class Schedules := {
  cron_ParseStandard : string -> option error;
  ParseDuration : string -> result Z;
  duration_String : Z -> string;
}.

(** ** Sets of values *)

Definition ValidStepTypes : list string := ["query"; "httpcall"; "response"].
Definition ValidTriggerTypes : list string := ["http"; "cron"].
Definition ValidOnErrorValues : list string := ["abort"; "continue"].
Definition ValidIterateOnErrorValues : list string := ["abort"; "continue"; "skip"].
Definition ValidParseModes : list string := ["json"; "text"; "form"; ""].
Definition ValidHTTPMethods : list string := ["GET"; "POST"; "PUT"; "PATCH"; "DELETE"; "HEAD"; "OPTIONS"; ""].
Definition validIsolationLevels : list string :=
  ["read_uncommitted"; "read_committed"; "repeatable_read"; "serializable"; "snapshot"].
Definition validDeadlockPriorities : list string := ["low"; "normal"; "high"].
Definition validParamTypes : list string := ValidParamTypes.

Definition mem (s : string) (l : list string) : bool := bool_decide (s ∈ l).

Section Validate.
Context `{UnicodeTables, EL : ExprLang, MapWalk, Schedules}.

Definition isValidParamType (t : string) : bool := mem (ToLower t) validParamTypes.
Definition isValidIsolation (level : string) : bool := mem level validIsolationLevels.
Definition isValidDeadlockPriority (p : string) : bool := mem p validDeadlockPriorities.
Definition isValidHTTPMethod (m : string) : bool := bool_decide (m <> "") && mem m ValidHTTPMethods.

(** Ranging over a set. *)
Definition walk_set (s : gset string) : list string := (walk (gset_to_gmap tt s)).*1.

(** ** Schedules *)

Definition minEveryInterval : Z := 1000000000.

Definition splitTZPrefix (expr : string) : result string :=
  if HasPrefix expr "TZ=" || HasPrefix expr "CRON_TZ=" then
    match Index expr " " with
    | None => Err (Errorf ("timezone prefix " +:+ Quote expr +:+ " must be followed by a schedule"))
    | Some i => Ok (TrimSpace (str_drop i expr))
    end
  else Ok expr.

Definition validateEveryInterval (expr : string) : option error :=
  if negb (HasPrefix expr "@every ") then None
  else match ParseDuration (str_drop (String.length "@every ") expr) with
  | Err _ => None
  | Ok d =>
    if decide (d < minEveryInterval) then
      Some (Errorf ("interval " +:+ duration_String d +:+ " is below the " +:+
              duration_String minEveryInterval +:+ " minimum"))
    else if decide (Z.rem d minEveryInterval <> 0) then
      Some (Errorf ("interval " +:+ duration_String d +:+ " must be a whole number of seconds"))
    else None
  end.

Definition validateCronExpr (expr : string) : option error :=
  match splitTZPrefix expr with
  | Err e => Some e
  | Ok schedule =>
    match cron_ParseStandard expr with
    | Some e => Some e
    | None => validateEveryInterval schedule
    end
  end.

(** ** Expressions *)

Definition validateExprSyntax (exprStr : string) : option error :=
  match compileCondition exprStr with
  | Err e => Some e
  | Ok _ => ValidateDivisions exprStr
  end.

(** An error wrapped into a message. *)
Definition err_of (e : option error) (pre : string) : Issues :=
  match e with Some e => [IError (pre +:+ Error e)] | None => [] end.

(** The steps an expression and the aliases it uses refer to; [None] if the
    expression does not parse. *)
Definition referenced_steps (exprStr : string) (aliases : gmap string string) : option (gset string) :=
  match ExtractStepRefs exprStr with
  | Err _ => None
  | Ok refs =>
    if decide (aliases = ∅) then Some (list_to_set refs)
    else match extractAliasRefs exprStr (dom aliases) with
    | Err _ => None
    | Ok used =>
      Some (list_to_set refs ∪ ⋃ ((fun a =>
        match ExtractStepRefs (default "" (aliases !! a)) with
        | Ok r => list_to_set r
        | Err _ => ∅
        end) <$> used))
    end
  end.

Definition validateStepRefs (exprStr prefix : string) (currentStepIndex : Z) (stepNames : gmap string Z)
    (aliases : gmap string string) : Issues :=
  match referenced_steps exprStr aliases with
  | None => []
  | Some refs =>
    flat_map (fun stepRef =>
      match stepNames !! stepRef with
      | None => [IError (prefix +:+ ": references unknown step '" +:+ stepRef +:+ "'")]
      | Some refIndex =>
        if decide (refIndex = currentStepIndex) then
          [IError (prefix +:+ ": step cannot reference itself ('" +:+ stepRef +:+ "')")]
        else if decide (refIndex > currentStepIndex) then
          [IError (prefix +:+ ": references step '" +:+ stepRef +:+
                     "' which comes after current step (forward reference)")]
        else []
      end) (walk_set refs)
  end.

(** ** Triggers *)

Definition validateRateLimit (cfg : RateLimitRefConfig) (prefix : string) (ctx : option ValidationContext) : Issues :=
  let isPool := bool_decide (rl_Pool cfg <> "") in
  let isInline := bool_decide (rl_RequestsPerSecond cfg > 0 \/ rl_Burst cfg > 0 \/ rl_Key cfg <> "") in
  if isPool && isInline then [IError (prefix +:+ ": cannot specify both pool and inline settings")]
  else if negb isPool && negb isInline then [IError (prefix +:+ ": must specify pool or inline settings")]
  else if isPool then
    match ctx with
    | Some ctx => err_if (bool_decide (rl_Pool cfg ∉ vc_RateLimitPools ctx))
                    (prefix +:+ ": unknown rate limit pool '" +:+ rl_Pool cfg +:+ "'")
    | None => []
    end
  else
    err_if (bool_decide (rl_RequestsPerSecond cfg <= 0)) (prefix +:+ ": requests_per_second must be positive") ++
    err_if (bool_decide (rl_Burst cfg <= 0)) (prefix +:+ ": burst must be positive").

(** The parameters of a trigger from number [i] on, with the names seen before. *)
Fixpoint validate_params (prefix : string) (pathParams seen : gset string) (i : nat) (l : list ParamConfig)
    : Issues * gset string :=
  match l with
  | [] => ([], seen)
  | p :: l' =>
    let pre := prefix +:+ ".parameters[" +:+ pretty i +:+ "]" in
    if decide (pa_Name p = "") then
      let '(rest, names) := validate_params prefix pathParams seen (S i) l' in
      (IError (pre +:+ ": name is required") :: rest, names)
    else
      let here :=
        err_if (bool_decide (pa_Name p ∈ seen)) (pre +:+ ": duplicate parameter name '" +:+ pa_Name p +:+ "'") ++
        err_if (bool_decide (pa_Name p = "_timeout" \/ pa_Name p = "_nocache"))
          (pre +:+ ": '" +:+ pa_Name p +:+ "' is a reserved parameter name") ++
        err_if (bool_decide (pa_Type p <> "") && negb (isValidParamType (pa_Type p)))
          (pre +:+ ": invalid type '" +:+ pa_Type p +:+ "'") ++
        err_if (bool_decide (pa_Name p ∈ pathParams) && negb (pa_Required p))
          (pre +:+ ": path parameter '" +:+ pa_Name p +:+ "' must be required") in
      let '(rest, names) := validate_params prefix pathParams (seen ∪ {[ pa_Name p ]}) (S i) l' in
      (here ++ rest, names)
  end.

Definition validate_trigger_cache (c : option CacheConfig) (prefix : string) : Issues :=
  match c with
  | Some c =>
    if cc_Enabled c then
      err_if (bool_decide (cc_Key c = "")) (prefix +:+ ".cache: key is required when cache is enabled") ++
      err_if (bool_decide (cc_TTLSec c < 0)) (prefix +:+ ".cache: ttl_sec cannot be negative") ++
      (if decide (cc_EvictCron c <> "")
       then err_of (validateCronExpr (cc_EvictCron c)) (prefix +:+ ".cache: invalid evict_cron: ") else [])
    else []
  | None => []
  end.

Fixpoint validate_rate_limits (prefix : string) (ctx : option ValidationContext) (i : nat)
    (l : list RateLimitRefConfig) : Issues :=
  match l with
  | [] => []
  | rl :: l' => validateRateLimit rl (prefix +:+ ".rate_limit[" +:+ pretty i +:+ "]") ctx ++
                validate_rate_limits prefix ctx (S i) l'
  end.

Definition validateHTTPTrigger (cfg : TriggerConfig) (prefix : string) (ctx : option ValidationContext) : Issues :=
  (if decide (tc_Path cfg = "") then [IError (prefix +:+ ": path is required for http trigger")]
   else err_if (negb (HasPrefix (tc_Path cfg) "/")) (prefix +:+ ": path must start with '/'") ++
        err_if (HasPrefix (tc_Path cfg) "/_/") (prefix +:+ ": path cannot start with '/_/' (reserved)")) ++
  (if decide (tc_Method cfg = "") then [IError (prefix +:+ ": method is required for http trigger")]
   else err_if (negb (isValidHTTPMethod (tc_Method cfg)))
          (prefix +:+ ": method must be GET, POST, PUT, DELETE, PATCH, HEAD, or OPTIONS")) ++
  (let pathParams := extractPathParams (tc_Path cfg) in
   let '(issues, names) := validate_params prefix pathParams ∅ 0 (tc_Parameters cfg) in
   issues ++
   flat_map (fun p => err_if (bool_decide (p ∉ names))
     (prefix +:+ ": path parameter '{" +:+ p +:+ "}' must be defined in parameters")) (walk_set pathParams)) ++
  validate_trigger_cache (tc_Cache cfg) prefix ++
  validate_rate_limits prefix ctx 0 (tc_RateLimit cfg).

Definition validateCronTrigger (cfg : TriggerConfig) (prefix : string) : Issues :=
  (if decide (tc_Schedule cfg = "") then [IError (prefix +:+ ": schedule is required for cron trigger")]
   else err_of (validateCronExpr (tc_Schedule cfg)) (prefix +:+ ": invalid schedule: ")) ++
  warn_if (bool_decide (tc_Path cfg <> "")) (prefix +:+ ": path is ignored for cron trigger") ++
  warn_if (bool_decide (tc_Method cfg <> "")) (prefix +:+ ": method is ignored for cron trigger") ++
  warn_if (match tc_Cache cfg with Some _ => true | None => false end) (prefix +:+ ": cache is ignored for cron trigger").

Definition validateTrigger (cfg : TriggerConfig) (prefix : string) (ctx : option ValidationContext) : Issues :=
  if decide (tc_Type cfg = "") then [IError (prefix +:+ ": type is required (http or cron)")]
  else if negb (mem (tc_Type cfg) ValidTriggerTypes) then
    [IError (prefix +:+ ": invalid type '" +:+ tc_Type cfg +:+ "' (must be http or cron)")]
  else if decide (tc_Type cfg = "http") then validateHTTPTrigger cfg prefix ctx
  else validateCronTrigger cfg prefix.

(** ** Steps *)

Definition validateQueryStep (cfg : StepConfig) (prefix : string) (ctx : option ValidationContext) : Issues :=
  (if decide (sc_Database cfg = "") then [IError (prefix +:+ ": database is required for query step")]
   else match ctx with
   | None => []
   | Some ctx =>
     match vc_Databases ctx !! sc_Database cfg with
     | None => [IError (prefix +:+ ": unknown database '" +:+ sc_Database cfg +:+ "'")]
     | Some isReadOnly => err_if (isReadOnly && RequiresWriteAccess (sc_SQL cfg))
         (prefix +:+ ": SQL contains write operation but database '" +:+ sc_Database cfg +:+ "' is read-only")
     end
   end) ++
  (if decide (sc_SQL cfg = "") then [IError (prefix +:+ ": sql is required for query step")]
   else err_if (containsTemplateInterpolation (sc_SQL cfg))
     (prefix +:+ ": SQL contains template interpolation ({{...}}) which is not allowed - use @param style parameters for safe parameterized queries")) ++
  err_if (bool_decide (sc_Isolation cfg <> "") && negb (isValidIsolation (sc_Isolation cfg)))
    (prefix +:+ ": invalid isolation level '" +:+ sc_Isolation cfg +:+ "'") ++
  err_if (bool_decide (sc_DeadlockPriority cfg <> "") && negb (isValidDeadlockPriority (sc_DeadlockPriority cfg)))
    (prefix +:+ ": invalid deadlock_priority '" +:+ sc_DeadlockPriority cfg +:+ "'").

Definition validate_retry (r : option RetryConfig) (prefix : string) : Issues :=
  match r with
  | None => []
  | Some r =>
    err_if (bool_decide (re_MaxAttempts r < 0)) (prefix +:+ ".retry: max_attempts cannot be negative") ++
    err_if (bool_decide (re_InitialBackoffSec r < 0)) (prefix +:+ ".retry: initial_backoff_sec cannot be negative") ++
    err_if (bool_decide (re_MaxBackoffSec r < 0)) (prefix +:+ ".retry: max_backoff_sec cannot be negative")
  end.

Definition validateHTTPCallStep (cfg : StepConfig) (prefix : string) : Issues :=
  err_if (bool_decide (sc_URL cfg = "")) (prefix +:+ ": url is required for httpcall step") ++
  err_if (bool_decide (sc_HTTPMethod cfg <> "") && negb (mem (sc_HTTPMethod cfg) ValidHTTPMethods))
    (prefix +:+ ": invalid http_method '" +:+ sc_HTTPMethod cfg +:+ "'") ++
  err_if (bool_decide (sc_Parse cfg <> "") && negb (mem (sc_Parse cfg) ValidParseModes))
    (prefix +:+ ": invalid parse mode '" +:+ sc_Parse cfg +:+ "' (must be json, text, or form)") ++
  validate_retry (sc_Retry cfg) prefix.

Definition validateResponseStep (cfg : StepConfig) (prefix : string) : Issues :=
  err_if (bool_decide (sc_Template cfg = "")) (prefix +:+ ": template is required for response step") ++
  err_if (bool_decide (sc_StatusCode cfg <> 0 /\ (sc_StatusCode cfg < 100 \/ sc_StatusCode cfg > 599)))
    (prefix +:+ ": status_code must be 100-599").

Definition step_prefix (prefix : string) (name : string) (i : nat) : string :=
  prefix +:+ ".steps[" +:+ (if decide (name = "") then "#" +:+ pretty i else name) +:+ "]".

(** Registering a step name: a duplicate is an error, and the later index stays. *)
Definition duplicate_name (names : gmap string Z) (name pre : string) : Issues :=
  err_if (bool_decide (name <> "" /\ is_Some (names !! name))) (pre +:+ ": duplicate step name").
Definition register_name (names : gmap string Z) (name : string) (i : nat) : gmap string Z :=
  if decide (name = "") then names else <[name := Z.of_nat i]> names.

Definition validate_iterate (it : option IterateConfig) (prefix : string) : Issues :=
  match it with
  | None => []
  | Some it =>
    let pre := prefix +:+ ".iterate" in
    (if decide (it_Over it = "") then [IError (pre +:+ ": over is required")]
     else err_of (validateExprSyntax (it_Over it)) (pre +:+ ".over: invalid expression: ")) ++
    err_if (bool_decide (it_As it = "")) (pre +:+ ": as is required") ++
    err_if (bool_decide (it_OnError it <> "") && negb (mem (it_OnError it) ValidIterateOnErrorValues))
      (pre +:+ ": on_error must be 'abort', 'continue', or 'skip'")
  end.

Definition validate_outputs (outputs : gmap string string) (prefix : string) : Issues :=
  flat_map (fun '(name, expr) =>
    if mem expr ["success_count"; "failure_count"; "skipped_count"] then []
    else err_of (validateExprSyntax expr) (prefix +:+ ".outputs[" +:+ name +:+ "]: invalid expression: "))
    (walk outputs).

(** The checks of [validateStep] before the type-specific one. *)
Definition validate_common (cfg : StepConfig) (prefix : string) (stepIndex : nat) (stepNames : gmap string Z)
    (aliases : gmap string string) : Issues :=
  (if decide (sc_Condition cfg = "") then []
   else match validateExprSyntax (sc_Condition cfg) with
   | Some e => [IError (prefix +:+ ".condition: invalid expression: " +:+ Error e)]
   | None => validateStepRefs (sc_Condition cfg) (prefix +:+ ".condition") (Z.of_nat stepIndex) stepNames aliases
   end) ++
  err_if (bool_decide (sc_OnError cfg <> "") && negb (mem (sc_OnError cfg) ValidOnErrorValues))
    (prefix +:+ ": on_error must be 'abort' or 'continue'").

Definition validate_shape (cfg : StepConfig) (prefix : string) : Issues :=
  (if IsBlock cfg then
     err_if (bool_decide (sc_Type cfg <> ""))
       (prefix +:+ ": step with nested steps cannot have type (got type: " +:+ sc_Type cfg +:+ ")") ++
     err_if (bool_decide (sc_SQL cfg <> "")) (prefix +:+ ": step with nested steps cannot have sql") ++
     err_if (bool_decide (sc_URL cfg <> "")) (prefix +:+ ": step with nested steps cannot have url") ++
     err_if (bool_decide (sc_Template cfg <> "")) (prefix +:+ ": step with nested steps cannot have template")
   else []) ++
  err_if (negb (IsBlock cfg) && match sc_Iterate cfg with Some _ => true | None => false end)
    (prefix +:+ ": iterate requires nested steps").

Fixpoint validateStep (cfg : StepConfig) (prefix : string) (stepIndex : nat) (stepNames : gmap string Z)
    (aliases : gmap string string) (ctx : option ValidationContext) {struct cfg} : Issues :=
  validate_common cfg prefix stepIndex stepNames aliases ++
  (if decide (StepType cfg = "unknown") then
     [IError (prefix +:+ ": must specify type or provide type-specific fields (sql, url, template, or steps)")]
   else
     validate_shape cfg prefix ++
     (if decide (StepType cfg = "query") then validateQueryStep cfg prefix ctx
      else if decide (StepType cfg = "httpcall") then validateHTTPCallStep cfg prefix
      else if decide (StepType cfg = "response") then validateResponseStep cfg prefix
      else if decide (StepType cfg = "block") then
        validate_iterate (sc_Iterate cfg) prefix ++
        (match sc_Steps cfg with
         | None | Some [] => [IError (prefix +:+ ": block must have at least one step")]
         | Some steps =>
           (fix nested (i : nat) (names : gmap string Z) (l : list StepConfig) : Issues :=
              match l with
              | [] => []
              | s :: l' =>
                let pre := step_prefix prefix (sc_Name s) i in
                let names' := register_name names (sc_Name s) i in
                duplicate_name names (sc_Name s) pre ++
                (if IsResponse s then [IError (pre +:+ ": response steps not allowed in blocks")]
                 else validateStep s pre i names' aliases ctx) ++
                nested (S i) names' l'
              end) 0%nat ∅ steps
         end) ++
        validate_outputs (sc_Outputs cfg) prefix
      else [])).

(** ** Workflows *)

(** The triggers from number [i] on, with the routes seen before. *)
Fixpoint validate_triggers (prefix : string) (ctx : option ValidationContext) (routes : gset string) (i : nat)
    (l : list TriggerConfig) : Issues :=
  match l with
  | [] => []
  | t :: l' =>
    let pre := prefix +:+ ".triggers[" +:+ pretty i +:+ "]" in
    let route := tc_Method t +:+ " " +:+ tc_Path t in
    validateTrigger t pre ctx ++
    (if decide (tc_Type t = "http") then
       err_if (bool_decide (route ∈ routes)) (pre +:+ ": duplicate route '" +:+ route +:+ "'") ++
       validate_triggers prefix ctx (routes ∪ {[ route ]}) (S i) l'
     else validate_triggers prefix ctx routes (S i) l')
  end.

Fixpoint validate_steps (prefix : string) (aliases : gmap string string) (ctx : option ValidationContext)
    (i : nat) (names : gmap string Z) (l : list StepConfig) : Issues :=
  match l with
  | [] => []
  | s :: l' =>
    let pre := step_prefix prefix (sc_Name s) i in
    let names' := register_name names (sc_Name s) i in
    duplicate_name names (sc_Name s) pre ++
    validateStep s pre i names' aliases ctx ++
    validate_steps prefix aliases ctx (S i) names' l'
  end.

Definition count_if {A} (f : A -> bool) (l : list A) : nat := List.length (List.filter f l).

Definition validate_responses (cfg : WorkflowConfig) (prefix : string) : Issues :=
  let hasHTTP := existsb (fun t => bool_decide (tc_Type t = "http")) (wc_Triggers cfg) in
  let hasCron := existsb (fun t => bool_decide (tc_Type t = "cron")) (wc_Triggers cfg) in
  let hasResponse := existsb IsResponse (wc_Steps cfg) in
  let unconditional := count_if (fun s => IsResponse s && bool_decide (sc_Condition s = "")) (wc_Steps cfg) in
  let conditional := count_if (fun s => IsResponse s && bool_decide (sc_Condition s <> "")) (wc_Steps cfg) in
  warn_if (hasHTTP && negb hasResponse)
    (prefix +:+ ": HTTP trigger but no response step - will return 500 if reached") ++
  err_if (hasCron && negb hasHTTP && hasResponse) (prefix +:+ ": response steps are only valid for HTTP triggers") ++
  err_if (bool_decide (1 < unconditional)%nat)
    (prefix +:+ ": multiple unconditional response steps - only one will execute") ++
  warn_if (hasHTTP && bool_decide (0 < conditional)%nat && bool_decide (unconditional = 0%nat))
    (prefix +:+ ": all response steps have conditions - requests may return default response if no condition matches").

Fixpoint validate_names (prefix : string) (i : nat) (l : list StepConfig) : Issues :=
  match l with
  | [] => []
  | s :: l' =>
    err_if (bool_decide (sc_Name s = "") && negb (IsResponse s))
      (prefix +:+ ".steps[#" +:+ pretty i +:+ "]: name required in multi-step workflow") ++
    validate_names prefix (S i) l'
  end.

Definition validate_issues (cfg : WorkflowConfig) (ctx : option ValidationContext) : Issues :=
  let prefix := "workflow[" +:+ wc_Name cfg +:+ "]" in
  if decide (wc_Name cfg = "") then [IError "workflow: name is required"]
  else
    err_if (bool_decide (wc_Triggers cfg = [])) (prefix +:+ ": at least one trigger is required") ++
    validate_triggers prefix ctx ∅ 0 (wc_Triggers cfg) ++
    flat_map (fun '(name, expr) => err_of (validateExprSyntax expr)
      (prefix +:+ ".conditions[" +:+ name +:+ "]: invalid expression: ")) (walk (wc_Conditions cfg)) ++
    err_if (bool_decide (wc_Steps cfg = [])) (prefix +:+ ": at least one step is required") ++
    validate_steps prefix (wc_Conditions cfg) ctx 0 ∅ (wc_Steps cfg) ++
    validate_responses cfg prefix ++
    (if decide (1 < List.length (wc_Steps cfg))%nat then validate_names prefix 0 (wc_Steps cfg) else []).

Definition Validate (cfg : WorkflowConfig) (ctx : option ValidationContext) : ValidationResult :=
  validation (validate_issues cfg ctx).

(** ** What validity means *)

Definition no_errors (l : Issues) : Prop := omap error_msg l = [].

Lemma no_errors_app l1 l2 : no_errors (l1 ++ l2) <-> no_errors l1 /\ no_errors l2.
Proof. unfold no_errors. rewrite omap_app. split; [apply app_eq_nil|]. by intros [-> ->]. Qed.

Lemma no_errors_if b m : no_errors (err_if b m) <-> b = false.
Proof. by destruct b. Qed.

Lemma no_errors_cons m l : ~ no_errors (IError m :: l).
Proof. done. Qed.

Lemma no_errors_of e m : no_errors (err_of e m) <-> e = None.
Proof. by destruct e. Qed.

Lemma Valid_spec cfg ctx : vr_Valid (Validate cfg ctx) = true <-> no_errors (validate_issues cfg ctx).
Proof. simpl. by rewrite bool_decide_eq_true. Qed.

(** The checks of the steps of a block. *)
Fixpoint validate_nested (prefix : string) (aliases : gmap string string) (ctx : option ValidationContext)
    (i : nat) (names : gmap string Z) (l : list StepConfig) : Issues :=
  match l with
  | [] => []
  | s :: l' =>
    let pre := step_prefix prefix (sc_Name s) i in
    let names' := register_name names (sc_Name s) i in
    duplicate_name names (sc_Name s) pre ++
    (if IsResponse s then [IError (pre +:+ ": response steps not allowed in blocks")]
     else validateStep s pre i names' aliases ctx) ++
    validate_nested prefix aliases ctx (S i) names' l'
  end.

Lemma validateStep_eq cfg prefix stepIndex stepNames aliases ctx :
  validateStep cfg prefix stepIndex stepNames aliases ctx =
  validate_common cfg prefix stepIndex stepNames aliases ++
  (if decide (StepType cfg = "unknown") then
     [IError (prefix +:+ ": must specify type or provide type-specific fields (sql, url, template, or steps)")]
   else validate_shape cfg prefix ++
     (if decide (StepType cfg = "query") then validateQueryStep cfg prefix ctx
      else if decide (StepType cfg = "httpcall") then validateHTTPCallStep cfg prefix
      else if decide (StepType cfg = "response") then validateResponseStep cfg prefix
      else if decide (StepType cfg = "block") then
        validate_iterate (sc_Iterate cfg) prefix ++
        (match sc_Steps cfg with
         | None | Some [] => [IError (prefix +:+ ": block must have at least one step")]
         | Some steps => validate_nested prefix aliases ctx 0 ∅ steps
         end) ++ validate_outputs (sc_Outputs cfg) prefix
      else [])).
Proof.
  assert (forall i names l, (fix nested (i : nat) (names : gmap string Z) (l : list StepConfig) : Issues :=
    match l with
    | [] => []
    | s :: l' =>
      let pre := step_prefix prefix (sc_Name s) i in
      let names' := register_name names (sc_Name s) i in
      duplicate_name names (sc_Name s) pre ++
      (if IsResponse s then [IError (pre +:+ ": response steps not allowed in blocks")]
       else validateStep s pre i names' aliases ctx) ++ nested (S i) names' l'
    end) i names l = validate_nested prefix aliases ctx i names l) as Hfix.
  { intros i names l. revert i names. induction l as [|s l IH]; intros i names; simpl; [done|]. by rewrite IH. }
  destruct cfg as [name dis condition oe ty cache params db sql iso lock dl jc url hm hd bd pa to re sc te it inp
    steps out]. cbn [validateStep]. f_equal. case_decide; [done|]. f_equal.
  case_decide; [done|]. case_decide; [done|]. case_decide; [done|]. case_decide; [|done]. f_equal. f_equal.
  cbn [sc_Steps]. destruct steps as [[|s l]|]; [done| |done]. by rewrite Hfix.
Qed.

(** A step of a workflow or, at any depth, of its blocks. *)
Inductive within : StepConfig -> StepConfig -> Prop :=
| within_self s : within s s
| within_nested s t u l : sc_Steps u = Some l -> t ∈ l -> within s t -> within s u.

Lemma validate_nested_elem prefix aliases ctx i names l t :
  no_errors (validate_nested prefix aliases ctx i names l) -> t ∈ l ->
  IsResponse t = false /\ exists pre j ns, no_errors (validateStep t pre j ns aliases ctx).
Proof.
  revert i names. induction l as [|s l IH]; intros i names Hl Ht; [by apply elem_of_nil in Ht|].
  simpl in Hl. rewrite !no_errors_app in Hl. destruct Hl as (_ & Hs & Hl).
  apply elem_of_cons in Ht as [->|Ht]; [|by eapply IH].
  destruct (IsResponse s); [by apply no_errors_cons in Hs|]. eauto.
Qed.

Lemma validate_steps_elem prefix aliases ctx i names l t :
  no_errors (validate_steps prefix aliases ctx i names l) -> t ∈ l ->
  exists pre j ns, no_errors (validateStep t pre j ns aliases ctx).
Proof.
  revert i names. induction l as [|s l IH]; intros i names Hl Ht; [by apply elem_of_nil in Ht|].
  simpl in Hl. rewrite !no_errors_app in Hl. destruct Hl as (_ & Hs & Hl).
  apply elem_of_cons in Ht as [->|Ht]; [eauto|by eapply IH].
Qed.

(** What a step has passed. *)
Record step_checked (ctx : option ValidationContext) (s : StepConfig) : Prop := {
  ck_query : StepType s = "query" ->
    sc_Database s <> "" /\ sc_SQL s <> "" /\ containsTemplateInterpolation (sc_SQL s) = false /\
    (forall c, ctx = Some c -> exists ro, vc_Databases c !! sc_Database s = Some ro /\
       (ro = true -> RequiresWriteAccess (sc_SQL s) = false));
  ck_httpcall : StepType s = "httpcall" -> sc_URL s <> "";
  ck_response : StepType s = "response" ->
    sc_Template s <> "" /\ (sc_StatusCode s = 0 \/ 100 <= sc_StatusCode s <= 599);
  ck_block : IsBlock s = true -> IsResponse s = false;
}.

Lemma query_checked cfg prefix ctx : no_errors (validateQueryStep cfg prefix ctx) ->
  sc_Database cfg <> "" /\ sc_SQL cfg <> "" /\ containsTemplateInterpolation (sc_SQL cfg) = false /\
  (forall c, ctx = Some c -> exists ro, vc_Databases c !! sc_Database cfg = Some ro /\
     (ro = true -> RequiresWriteAccess (sc_SQL cfg) = false)).
Proof.
  unfold validateQueryStep. rewrite !no_errors_app. intros (Hdb & Hsql & _ & _).
  case_decide; [done|]. case_decide; [done|]. apply no_errors_if in Hsql. split_and!; try done.
  intros c ->. destruct (vc_Databases c !! sc_Database cfg) as [ro|]; [|done]. exists ro. split; [done|].
  intros ->. by apply no_errors_if in Hdb.
Qed.

Lemma step_passed cfg pre i names aliases ctx : no_errors (validateStep cfg pre i names aliases ctx) ->
  step_checked ctx cfg.
Proof.
  rewrite validateStep_eq, !no_errors_app. intros [_ Hs]. case_decide; [done|].
  rewrite no_errors_app in Hs. destruct Hs as [Hshape Hs]. split.
  - intros Ty. rewrite decide_True in Hs by done. by apply query_checked in Hs.
  - intros Ty. rewrite Ty in Hs. simpl in Hs. unfold validateHTTPCallStep in Hs. rewrite !no_errors_app in Hs.
    destruct Hs as (Hu & _). apply no_errors_if in Hu. by apply bool_decide_eq_false in Hu.
  - intros Ty. rewrite Ty in Hs. simpl in Hs. unfold validateResponseStep in Hs. rewrite !no_errors_app in Hs.
    destruct Hs as (Ht & Hc). apply no_errors_if, bool_decide_eq_false in Ht, Hc. split; [done|]. lia.
  - intros Hb. unfold validate_shape in Hshape. rewrite Hb, !no_errors_app in Hshape.
    destruct Hshape as ((Hty & _) & _). apply no_errors_if, bool_decide_eq_false, dec_stable in Hty.
    unfold IsResponse. by rewrite Hty.
Qed.

Lemma nested_passed cfg pre i names aliases ctx l t : no_errors (validateStep cfg pre i names aliases ctx) ->
  sc_Steps cfg = Some l -> t ∈ l ->
  IsResponse t = false /\ exists pre j ns, no_errors (validateStep t pre j ns aliases ctx).
Proof.
  rewrite validateStep_eq, !no_errors_app. intros [_ Hs] Hl Ht.
  assert (StepType cfg = "block") as Ty by (unfold StepType, IsBlock; by rewrite Hl).
  rewrite Ty in Hs. simpl in Hs. rewrite !no_errors_app, Hl in Hs.
  destruct Hs as (_ & _ & Hn & _). destruct l as [|s l]; [by apply elem_of_nil in Ht|].
  by eapply validate_nested_elem.
Qed.

Lemma within_passed s cfg : within s cfg -> forall pre i names aliases ctx,
  no_errors (validateStep cfg pre i names aliases ctx) -> step_checked ctx s.
Proof.
  induction 1 as [s|s t u l Hl Ht _ IH]; intros pre i names aliases ctx Hv; [by eapply step_passed|].
  destruct (nested_passed _ _ _ _ _ _ _ _ Hv Hl Ht) as (_ & pre' & j & ns & Hn). by eapply IH.
Qed.

Lemma valid_steps cfg ctx t : vr_Valid (Validate cfg ctx) = true -> t ∈ wc_Steps cfg ->
  exists pre j ns, no_errors (validateStep t pre j ns (wc_Conditions cfg) ctx).
Proof.
  rewrite Valid_spec. unfold validate_issues. cbv zeta. case_decide; [done|]. rewrite !no_errors_app.
  intros (_ & _ & _ & _ & Hs & _). by eapply validate_steps_elem.
Qed.

(** C15: what validation promises about SQL.  In a valid workflow every query step, at
    any depth of blocks, names a database, has an SQL text without an interpolation
    the check recognises, and, if the databases are known, names a known one and
    contains no mutating keyword when that is read-only. *)
Theorem valid_queries cfg ctx top s
    (Hvalid : vr_Valid (Validate cfg ctx) = true) (Htop : top ∈ wc_Steps cfg) (Hin : within s top)
    (Hquery : StepType s = "query") :
  sc_Database s <> "" /\ sc_SQL s <> "" /\ containsTemplateInterpolation (sc_SQL s) = false /\
  (forall c, ctx = Some c -> exists ro, vc_Databases c !! sc_Database s = Some ro /\
     (ro = true -> RequiresWriteAccess (sc_SQL s) = false)).
Proof.
  destruct (valid_steps _ _ _ Hvalid Htop) as (pre & j & ns & Hs).
  by apply (ck_query _ _ (within_passed _ _ Hin _ _ _ _ _ Hs)).
Qed.

(** *** References between steps *)

(** The names registered before step [i] are names of earlier steps. *)
Definition names_ok (all : list StepConfig) (i : nat) (names : gmap string Z) : Prop :=
  forall n k, names !! n = Some k -> exists j t, k = Z.of_nat j /\ (j < i)%nat /\ all !! j = Some t /\ sc_Name t = n.

Lemma register_ok all i s names : names_ok all i names -> all !! i = Some s ->
  names_ok all (S i) (register_name names (sc_Name s) i).
Proof.
  intros Hn Hs n k. unfold register_name. case_decide.
  - intros (j & t & ? & ? & ? & ?)%Hn. exists j, t. repeat split; try done; lia.
  - intros [[<- <-]|[Hne (j & t & ? & ? & ? & ?)%Hn]]%lookup_insert_Some.
    { exists i, s. repeat split; try done; lia. }
    exists j, t. repeat split; try done; lia.
Qed.

Lemma walk_set_elem s x : x ∈ walk_set s <-> x ∈ s.
Proof.
  unfold walk_set. rewrite list_elem_of_fmap. split.
  - intros ([y []] & -> & Hy). apply walk_elem in Hy. by apply lookup_gset_to_gmap_Some in Hy as [? _].
  - intros Hx. exists (x, tt). split; [done|]. apply walk_elem. by apply lookup_gset_to_gmap_Some.
Qed.

Lemma no_errors_flat_map {A} (f : A -> Issues) l : no_errors (flat_map f l) -> forall x, x ∈ l -> no_errors (f x).
Proof.
  induction l as [|y l IH]; simpl; intros Hl x Hx; [by apply elem_of_nil in Hx|].
  apply no_errors_app in Hl as [Hy Hl]. apply elem_of_cons in Hx as [->|Hx]; [done|by apply IH].
Qed.

Lemma refs_earlier exprStr pre i names aliases refs ref :
  no_errors (validateStepRefs exprStr pre i names aliases) ->
  referenced_steps exprStr aliases = Some refs -> ref ∈ refs -> exists k, names !! ref = Some k /\ k < i.
Proof.
  unfold validateStepRefs. intros Hv Hr0 Hin. rewrite Hr0 in Hv. apply walk_set_elem in Hin.
  pose proof (no_errors_flat_map _ _ Hv ref Hin) as Hr. simpl in Hr.
  destruct (names !! ref) as [k|]; [|done]. exists k. split; [done|]. repeat case_decide; try done. lia.
Qed.

Lemma common_checked cfg pre i names aliases ctx : no_errors (validateStep cfg pre i names aliases ctx) ->
  no_errors (validate_common cfg pre i names aliases).
Proof. rewrite validateStep_eq, no_errors_app. by intros [? _]. Qed.

Lemma steps_refs prefix aliases ctx all l i names j s refs ref :
  no_errors (validate_steps prefix aliases ctx i names l) -> names_ok all i names ->
  (forall k, l !! k = all !! (i + k)%nat) -> l !! j = Some s -> sc_Condition s <> "" ->
  referenced_steps (sc_Condition s) aliases = Some refs -> ref ∈ refs ->
  exists k t, (k < i + j)%nat /\ all !! k = Some t /\ sc_Name t = ref.
Proof.
  revert i names j. induction l as [|s0 l IH]; intros i names j; [done|].
  simpl. rewrite !no_errors_app. intros (_ & Hs0 & Hl) Hn Hall Hj Hc Hrefs Hin.
  assert (all !! i = Some s0) as Hi by (rewrite <- (Nat.add_0_r i), <- Hall; done).
  pose proof (register_ok _ _ _ _ Hn Hi) as Hn'. destruct j as [|j].
  - injection Hj as ->. apply common_checked in Hs0. unfold validate_common in Hs0.
    apply no_errors_app in Hs0 as [Hcond _]. rewrite decide_False in Hcond by done.
    destruct (validateExprSyntax (sc_Condition s)); [done|].
    destruct (refs_earlier _ _ _ _ _ _ _ Hcond Hrefs Hin) as (k & Hk & Hlt).
    destruct (Hn' _ _ Hk) as (j & t & -> & _ & Ht & Hname). exists j, t. split; [lia|done].
  - destruct (IH (S i) _ j Hl Hn') as (k & t & ? & ? & ?); try done; [|exists k, t; split; [lia|done]].
    intros k. rewrite Nat.add_succ_l, <- Nat.add_succ_r. apply (Hall (S k)).
Qed.

(** conditions refer to earlier steps.  In a valid workflow every step that a
    condition refers to, itself or through an alias it uses, is the name of a step
    that comes before. *)
Theorem valid_references cfg ctx i s refs ref
    (Hvalid : vr_Valid (Validate cfg ctx) = true) (Hs : wc_Steps cfg !! i = Some s)
    (Hcond : sc_Condition s <> "") (Hrefs : referenced_steps (sc_Condition s) (wc_Conditions cfg) = Some refs)
    (Hin : ref ∈ refs) :
  exists k t, (k < i)%nat /\ wc_Steps cfg !! k = Some t /\ sc_Name t = ref.
Proof.
  apply Valid_spec in Hvalid. unfold validate_issues in Hvalid. cbv zeta in Hvalid.
  case_decide; [done|]. rewrite !no_errors_app in Hvalid. destruct Hvalid as (_ & _ & _ & _ & Hsteps & _).
  eapply (steps_refs _ _ _ (wc_Steps cfg) _ 0 ∅); try done.
Qed.
End Validate.

(** ** Valid workflows are served *)

Section Serve.
Context `{UnicodeTables, TL : TemplateLang, EL : ExprLang, MapWalk, Schedules, ExprFuncs, FloatText, FloatToInt, GoText}.
Context {W : Type} {P : Platform W} {SV : Services}.

(** What the executor needs follows from validity. *)
Lemma checked_source ctx s : step_checked ctx s -> step_source s.
Proof.
  intros [Hq Hh Hr _]. split; [split_and!|].
  - intros Ty. by destruct (Hq Ty) as (_ & ? & _).
  - done.
  - intros Ty. by destruct (Hr Ty).
  - intros Ty. destruct (Hr Ty) as [_ [?|?]]; [by left|right; lia].
Qed.

Lemma valid_sources cfg ctx : vr_Valid (Validate cfg ctx) = true -> Forall step_sources (wc_Steps cfg).
Proof.
  intros Hv. apply Forall_forall. intros s Hs. destruct (valid_steps _ _ _ Hv Hs) as (pre & j & ns & Hn). split.
  - by eapply checked_source, step_passed.
  - apply Forall_forall. intros t Ht. destruct (sc_Steps s) as [l|] eqn:El; simpl in Ht; [|by apply elem_of_nil in Ht].
    eapply checked_source, (within_passed t s); [|exact Hn]. eapply within_nested; [exact El|done|constructor].
Qed.

Lemma valid_blocks cfg ctx wf : vr_Valid (Validate cfg ctx) = true ->
  cs_Config <$> cw_Steps wf = wc_Steps cfg -> sound_blocks wf.
Proof.
  intros Hv E. apply Forall_forall. intros cs Hcs.
  assert (cs_Config cs ∈ wc_Steps cfg) as Hin by (rewrite <- E; by apply list_elem_of_fmap_2).
  destruct (valid_steps _ _ _ Hv Hin) as (pre & j & ns & Hn). by eapply ck_block, step_passed.
Qed.

(** Where the handler of a trigger panics: in a call of a database, or on a hit of the
    trigger cache whose status code net/http refuses. *)
Inductive serve_lost (h : HTTPHandler) (s : St (W := W)) : Prop :=
| lost_query : db_panicked s -> serve_lost h s
| lost_hit t key w body code :
    has_cache = true -> ct_CacheKey (hh_trigger h) = Some t ->
    tcache_Get (wc_Name (cw_Config (hh_workflow h))) key w = (Some (body, code), st_world s) ->
    valid_code code = false -> serve_lost h s.

Lemma answer_total code body : valid_code code = true -> total (answer code body).
Proof.
  intros Hc. apply total_bind; [by apply send_status_total|intros _].
  apply total_bind; [apply send_body_total|intros]. apply total_ret.
Qed.

Lemma set_total n v : total (S := St (W := W)) (on_rw (fun w => rw_Header_Set w n v)).
Proof. apply total_lift. Qed.

Lemma call_total {A} (op : W -> A * W) : total (call op).
Proof. apply total_lift. Qed.

Lemma finish_total h key requestID result : total (finish h key requestID result).
Proof.
  apply total_bind.
  { destruct (er_ResponseSent result); [apply total_ret|]. destruct (er_Error result); by apply answer_total. }
  intros _. destruct key; [|apply total_ret]. apply total_bind; [apply total_lift|]. intros [c|]; [|apply total_ret].
  case_decide; [|apply total_ret]. apply total_bind; [apply call_total|intros; apply total_ret].
Qed.

Lemma requestID_total r : total (getOrGenerateRequestID r).
Proof.
  unfold getOrGenerateRequestID, generateRequestID. repeat case_decide; try apply total_ret.
  apply total_bind; [apply call_total|]. intros [b|]; [apply total_ret|].
  apply total_bind; [apply call_total|intros; apply total_ret].
Qed.

Section Safe.
Context (h : HTTPHandler)
  (Hr : Forall (fun cs => sc_Disabled (cs_Config cs) = false -> ready cs) (cw_Steps (hh_workflow h))).

Lemma run_safe ctx r params cookies clientIP requestID key :
  safe (serve_lost h) _ (run_workflow h ctx r params cookies clientIP requestID key).
Proof using Hr.
  apply safe_bind; [apply total_safe; destruct key; [apply total_lift|apply total_ret]|]. intros _.
  apply safe_bind; [eapply safe_weaken; [apply lost_query|by apply Execute_safe]|]. intros result.
  apply safe_bind; [apply total_safe, call_total|]. intros _. apply total_safe, finish_total.
Qed.

Lemma hit_safe t key requestID body code w : has_cache = true -> ct_CacheKey (hh_trigger h) = Some t ->
  (tcache_Get (wc_Name (cw_Config (hh_workflow h))) key w).1 = Some (body, code) ->
  forall s s', st_world s = (tcache_Get (wc_Name (cw_Config (hh_workflow h))) key w).2 ->
    (let* _ := on_rw (fun w => rw_Header_Set w "X-Cache" requestID) in answer code body) s = (None, s') -> serve_lost h s'.
Proof.
  intros Hc Hk Hg s s' Hs E. destruct (valid_code code) eqn:Ev.
  { exfalso. assert (total (let* _ := on_rw (fun w => rw_Header_Set w "X-Cache" requestID) in answer code body)) as Ht
      by (apply total_bind; [apply set_total|intros _; by apply answer_total]).
    specialize (Ht s). rewrite E in Ht. by destruct Ht. }
  assert (st_world s' = st_world s) as Ew.
  { apply run_bind_None in E as [[=]|([] & s1 & [= <-] & E)]. apply run_bind_None in E as [E|([] & s1 & _ & E)].
    - unfold send_status in E. repeat case_match; by simplify_eq.
    - apply run_bind_None in E as [E|(e & s2 & _ & [=])]. pose proof (send_body_total body s1) as Hb. rewrite E in Hb. by destruct Hb. }
  apply (lost_hit h s' t key w body code Hc Hk); [|exact Ev]. rewrite Ew, Hs. revert Hg.
  destruct (tcache_Get _ key w) as [o w']. by intros [= ->].
Qed.

Lemma with_cache_safe ctx r params cookies clientIP requestID :
  safe (serve_lost h) _ (with_trigger_cache h ctx r params cookies clientIP requestID).
Proof using Hr.
  unfold with_trigger_cache. destruct has_cache eqn:Hc; [|apply run_safe].
  destruct (ct_CacheKey (hh_trigger h)) as [t|] eqn:Hk; [|apply run_safe].
  apply safe_bind; [apply total_safe, total_bind; [apply call_total|intros; apply total_ret]|].
  intros [key|e]; [|apply run_safe]. intros s s' [E|(hit & s1 & Hget & E)]%run_bind_None.
  { pose proof (call_total (tcache_Get (wc_Name (cw_Config (hh_workflow h))) key) s) as Ht. rewrite E in Ht. by destruct Ht. }
  unfold call, lift in Hget. destruct (tcache_Get _ key (st_world s)) as [o w'] eqn:Eg. injection Hget as -> <-.
  destruct hit as [[body code]|].
  - eapply (hit_safe t key "HIT" body code (st_world s) Hc Hk); [by rewrite Eg| |exact E]. by rewrite Eg.
  - revert E. apply safe_bind; [apply total_safe, set_total|intros _]. apply run_safe.
Qed.

Lemma ServeHTTP_safe ctx r : safe (serve_lost h) _ (ServeHTTP h ctx r).
Proof using Hr.
  unfold ServeHTTP. apply safe_bind; [apply total_safe, requestID_total|]. intros id.
  do 2 (apply safe_bind; [apply total_safe, set_total|intros _]).
  apply safe_bind; [apply total_safe; case_decide; [apply set_total|apply total_ret]|intros _].
  case_decide; [by apply total_safe, answer_total|]. destruct (parseParameters _ r) as [params|e]; [|by apply total_safe, answer_total].
  apply safe_bind; [apply total_safe; unfold check_limits; case_match; [apply call_total|apply total_ret]|].
  intros [[[] n]|e]; [apply with_cache_safe| |by apply total_safe, answer_total].
  apply total_safe, total_bind; [apply set_total|intros _]. by apply answer_total.
Qed.
End Safe.

(** What a request on a handler comes to: it returns with a status line sent, or it has
    panicked for one of the two reasons. *)
Definition served_or_lost (h : HTTPHandler) (ctx : gctx) (r : HttpRequest) (s : St (W := W)) : Prop :=
  match ServeHTTP h ctx r s with
  | (Some _, s') => committed s'
  | (None, s') => serve_lost h s'
  end.

(** a valid workflow serves every request.  If a configuration passes validation
    and compiles, the handler of the compiled workflow sends a status line for every
    request, for any databases, servers, limiter, cache, clock and cancellation, unless a
    call of a database panics or the trigger cache holds a status code that cannot be
    sent. *)
Theorem valid_workflow_serves cfg vctx wf h ctx r s
    (Hvalid : vr_Valid (Validate cfg vctx) = true) (Hcompile : Compile cfg = Some (Ok wf))
    (Hh : hh_workflow h = wf) (Hw : is_Some (st_rw s)) : served_or_lost h ctx r s.
Proof.
  subst wf. destruct (compiled_steps_ready _ _ Hcompile (valid_sources _ _ Hvalid)) as [Hr Hcfg].
  pose proof (ServeHTTP_safe h Hr ctx r s) as Hs. unfold served_or_lost.
  destruct (ServeHTTP h ctx r s) as [[[]|] s'] eqn:E; [|by apply Hs].
  eapply served_committed; [by eapply valid_blocks|exact Hw|exact E].
Qed.
End Serve.

(** ** Concrete configurations *)

Module Sample.
Import Executor.Sample Handler.Sample.
#[local] Existing Instances sample_tables sample_walk sample_funcs sample_gotext sample_floats sample_templates
  sample_toint.
#[local] Instance sample_schedules : Schedules :=
  {| cron_ParseStandard := fun _ => None; ParseDuration := fun s => Err (Errorf s); duration_String := fun _ => "" |}.

(** A language of identifiers and of references steps.x. *)
#[local] Instance member_lang : ExprLang := {|
  program := unit;
  parser_Parse := fun s =>
    if HasPrefix s "steps." then Ok (NMember (NIdent "steps") (NString (str_drop 6 s))) else Ok (NIdent s);
  expr_compile := fun _ _ => Ok tt;
|}.

Definition step (name type sql template condition : string) (nested : option (list StepConfig)) : StepConfig :=
  {| sc_Name := name; sc_Disabled := false; sc_Condition := condition; sc_OnError := ""; sc_Type := type;
     sc_Cache := None; sc_Params := ∅; sc_Database := "db"; sc_SQL := sql; sc_Isolation := "";
     sc_LockTimeoutMs := None; sc_DeadlockPriority := ""; sc_JSONColumns := []; sc_URL := "";
     sc_HTTPMethod := ""; sc_Headers := ∅; sc_Body := ""; sc_Parse := ""; sc_TimeoutSec := 0;
     sc_Retry := None; sc_StatusCode := 0; sc_Template := template; sc_Iterate := None; sc_Inputs := ∅;
     sc_Steps := nested; sc_Outputs := ∅ |}.

Definition query_a : StepConfig := step "a" "" "SELECT 1" "" "" None.
Definition answer_b : StepConfig := step "b" "response" "" "{}" "steps.a" None.

Definition config (aliases : gmap string string) (steps : list StepConfig) : WorkflowConfig :=
  {| wc_Name := "w"; wc_TimeoutSec := 0; wc_Conditions := aliases;
     wc_Triggers := [no_cache_trigger [
       {| pa_Name := "id"; pa_Type := "int"; pa_Required := true; pa_Default := "" |}]]; wc_Steps := steps |}.

(** A read-only database. *)
Definition databases : option ValidationContext :=
  Some {| vc_Databases := {[ "db" := true ]}; vc_RateLimitPools := ∅ |}.

Definition valid (steps : list StepConfig) : bool := vr_Valid (Validate (config ∅ steps) databases).

Example good_config : valid [query_a; answer_b] = true.
Proof. by vm_compute. Qed.

Example forward_reference : valid [answer_b; query_a] = false.
Proof. by vm_compute. Qed.

Example write_refused : valid [step "a" "" "DELETE FROM t" "" "" None] = false.
Proof. by vm_compute. Qed.

(** A step type that does not exist, a block within a block and a response by
    inference within a block are all accepted, although no run executes them. *)
Example unknown_type_accepted : valid [step "a" "bogus" "" "" "" None] = true.
Proof. by vm_compute. Qed.

Example nested_block_accepted :
  valid [step "a" "" "" "" "" (Some [step "b" "" "" "" "" (Some [query_a])])] = true.
Proof. by vm_compute. Qed.

Example inferred_response_in_block_accepted : valid [step "a" "" "" "" "" (Some [step "b" "" "" "{}" "" None])] = true.
Proof. by vm_compute. Qed.

(** An interpolation with a closing brace inside is not recognised. *)
Example interpolation_missed : valid [step "a" "" "SELECT {{printf `%s}` .trigger.params.x}}" "" "" None] = true.
Proof. by vm_compute. Qed.

(** The steps an alias refers to through another alias are not checked. *)
Example alias_chain_unchecked :
  vr_Valid (Validate (config {[ "x" := "y"; "y" := "steps.later" ]} [step "a" "" "SELECT 1" "" "x" None]) databases) = true.
Proof. by vm_compute. Qed.

Lemma valid_queries_witness :
  sc_SQL query_a <> "" /\ containsTemplateInterpolation (sc_SQL query_a) = false.
Proof.
  assert (query_a ∈ wc_Steps (config ∅ [query_a; answer_b])) as Hin by (by left).
  destruct (valid_queries (config ∅ [query_a; answer_b]) databases query_a query_a good_config Hin (within_self _) eq_refl)
    as (_ & H1 & H2 & _).
  exact (conj H1 H2).
Defined.

Lemma valid_references_witness :
  exists k t, (k < 1)%nat /\ wc_Steps (config ∅ [query_a; answer_b]) !! k = Some t /\ sc_Name t = "a".
Proof.
  refine (valid_references (config ∅ [query_a; answer_b]) databases 1 answer_b {["a"]} "a" good_config eq_refl _ _ _).
  - done.
  - by vm_compute.
  - set_solver.
Defined.
End Sample.

Module ServeSample.
Import Executor.Sample Handler.Sample WfValidate.Sample.
#[local] Existing Instances sample_lang sample_tables sample_walk sample_funcs sample_gotext sample_floats
  sample_templates sample_toint sample_platform sample_services sample_schedules.

Definition served_config : WorkflowConfig := config ∅ [query_a; step "b" "response" "" "{}" "" None].

Definition served_workflow : CompiledWorkflow :=
  match Compile served_config with
  | Some (Ok wf) => wf
  | _ => {| cw_Config := served_config; cw_Conditions := ∅; cw_Triggers := []; cw_Steps := [] |}
  end.

Definition served_handler : HTTPHandler :=
  {| hh_workflow := served_workflow;
     hh_trigger := {| ct_Config := no_cache_trigger declared; ct_CacheKey := None; ct_RateLimits := [] |};
     hh_trustProxyHeaders := false; hh_version := ""; hh_buildTime := ""; hh_variables := None |}.

Lemma valid_workflow_serves_witness : served_or_lost served_handler background (request "GET") start.
Proof.
  refine (valid_workflow_serves served_config databases served_workflow served_handler background (request "GET") start
    _ _ _ _).
  - by vm_compute.
  - reflexivity.
  - reflexivity.
  - by eexists.
Defined.
End ServeSample.
