(* ===== verification/DbText.v ===== *)
(** * internal/db: the texts the drivers send

    The settings of a database, the connection strings built from them, the session
    statements each driver issues, and the translation of a statement with [@name]
    parameters into the text and arguments the database gets.  Formatting a MySQL
    DSN is the MySQL driver's own business, hence a parameter. *)
From S2P Require Import Prelude GoStrings GoValues Patterns SqlUtil.

(** ** Settings (internal/config/config.go) *)

Record DatabaseConfig := {
  dc_Name : string; dc_Type : string;
  dc_Host : string; dc_Port : Z; dc_User : string; dc_Password : string; dc_Database : string;
  dc_Path : string; dc_ReadOnly : option bool; dc_Encrypt : string;
  dc_Isolation : string; dc_LockTimeoutMs : option Z; dc_DeadlockPriority : string;
  dc_BusyTimeoutMs : option Z; dc_JournalMode : string;
  dc_MaxOpenConns : option Z; dc_MaxIdleConns : option Z;
  dc_ConnMaxLifetime : option Z; dc_ConnMaxIdleTime : option Z;
}.

Definition IsReadOnly (d : DatabaseConfig) : bool := default true (dc_ReadOnly d).

Record SessionConfig := { se_Isolation : string; se_LockTimeoutMs : Z; se_DeadlockPriority : string }.

Definition DefaultSessionConfig (d : DatabaseConfig) : SessionConfig :=
  {| se_Isolation := if decide (dc_Type d = "mysql") then "read_committed"
                     else if IsReadOnly d then "read_uncommitted" else "read_committed";
     se_LockTimeoutMs := 5000; se_DeadlockPriority := "low" |}.

(** ** Pool settings *)

Record PoolSettings := { ps_maxOpen : Z; ps_maxIdle : Z; ps_maxLifetime : Z; ps_maxIdleTime : Z }.

Definition SecondNs : Z := 1000000000.
Definition MinuteNs : Z := 60 * SecondNs.

Definition mysqlMaxOpenConns : Z := 5.
Definition mysqlMaxIdleConns : Z := 2.
Definition mysqlConnMaxLifetime : Z := 5 * MinuteNs.
Definition mysqlConnMaxIdleTime : Z := 2 * MinuteNs.
Definition mysqlConnectionTimeout : Z := 10.
Definition mysqlDefaultLockTimeout : Z := 5.
Definition sqlserverMaxOpenConns : Z := 5.
Definition sqlserverMaxIdleConns : Z := 2.
Definition sqlserverConnMaxLifetime : Z := 5 * MinuteNs.
Definition sqlserverConnMaxIdleTime : Z := 2 * MinuteNs.
Definition sqlserverConnectionTimeout : Z := 10.
Definition sqliteMaxOpenConns : Z := 5.
Definition sqliteMaxIdleConns : Z := 2.
Definition sqliteConnMaxLifetime : Z := 5 * MinuteNs.
Definition sqliteConnMaxIdleTime : Z := 2 * MinuteNs.
Definition sqliteDefaultBusyTimeout : Z := 5000.
Definition sqliteDefaultJournalMode : string := "wal".
Definition sqliteDefaultCacheSize : Z := -64000.
Definition sqliteDefaultMmapSize : Z := 268435456.

(** A number of seconds as a duration, 64 bits wide. *)
Definition seconds (n : Z) : Z := i64 (n * SecondNs).

Definition configureMySQLPool (cfg : DatabaseConfig) : PoolSettings :=
  {| ps_maxOpen := default mysqlMaxOpenConns (dc_MaxOpenConns cfg);
     ps_maxIdle := default mysqlMaxIdleConns (dc_MaxIdleConns cfg);
     ps_maxLifetime := default mysqlConnMaxLifetime (seconds <$> dc_ConnMaxLifetime cfg);
     ps_maxIdleTime := default mysqlConnMaxIdleTime (seconds <$> dc_ConnMaxIdleTime cfg) |}.

Definition configureSQLServerPool (cfg : DatabaseConfig) : PoolSettings :=
  {| ps_maxOpen := default sqlserverMaxOpenConns (dc_MaxOpenConns cfg);
     ps_maxIdle := default sqlserverMaxIdleConns (dc_MaxIdleConns cfg);
     ps_maxLifetime := default sqlserverConnMaxLifetime (seconds <$> dc_ConnMaxLifetime cfg);
     ps_maxIdleTime := default sqlserverConnMaxIdleTime (seconds <$> dc_ConnMaxIdleTime cfg) |}.

Definition configureSQLitePool (cfg : DatabaseConfig) : PoolSettings :=
  {| ps_maxOpen := default sqliteMaxOpenConns (dc_MaxOpenConns cfg);
     ps_maxIdle := default sqliteMaxIdleConns (dc_MaxIdleConns cfg);
     ps_maxLifetime := default sqliteConnMaxLifetime (seconds <$> dc_ConnMaxLifetime cfg);
     ps_maxIdleTime := default sqliteConnMaxIdleTime (seconds <$> dc_ConnMaxIdleTime cfg) |}.

(** ** Connection strings *)

(** mysql.Config as far as the program sets it. *)
Record MySQLConfig := {
  my_User : string; my_Passwd : string; my_Net : string; my_Addr : string; my_DBName : string;
  my_ParseTime : bool; my_Timeout : Z; my_ReadTimeout : Z; my_WriteTimeout : Z; my_TLSConfig : string;
  my_InterpolateParams : bool; my_Collation : string; my_AllowNativePasswords : bool;
}.

Class MySQLFormat := { FormatDSN : MySQLConfig -> string }.

Definition mysql_tls (encrypt : string) : string :=
  if decide (encrypt = "" \/ encrypt = "false" \/ encrypt = "disable") then "false" else encrypt.

Definition buildMySQLDSN `{MySQLFormat} (cfg : DatabaseConfig) : string :=
  let port := if decide (dc_Port cfg = 0) then 3306 else dc_Port cfg in
  let timeout := seconds mysqlConnectionTimeout in
  FormatDSN {| my_User := dc_User cfg; my_Passwd := dc_Password cfg; my_Net := "tcp";
               my_Addr := dc_Host cfg +:+ ":" +:+ pretty port; my_DBName := dc_Database cfg;
               my_ParseTime := true; my_Timeout := timeout; my_ReadTimeout := timeout;
               my_WriteTimeout := timeout; my_TLSConfig := mysql_tls (dc_Encrypt cfg);
               my_InterpolateParams := false; my_Collation := "utf8mb4_general_ci";
               my_AllowNativePasswords := true |}.

Definition buildSQLServerConnStr (cfg : DatabaseConfig) : string :=
  let encrypt := if decide (dc_Encrypt cfg = "") then "disable" else dc_Encrypt cfg in
  "server=" +:+ dc_Host cfg +:+ ";port=" +:+ pretty (dc_Port cfg) +:+ ";user id=" +:+ dc_User cfg +:+
  ";password=" +:+ dc_Password cfg +:+ ";database=" +:+ dc_Database cfg +:+ ";encrypt=" +:+ encrypt +:+
  ";connection timeout=" +:+ pretty sqlserverConnectionTimeout +:+
  (if IsReadOnly cfg then ";ApplicationIntent=ReadOnly" else "").

Definition buildSQLiteDSN (path : string) (readOnly : bool) : result string :=
  if decide (path = "") then Err (Errorf "sqlite path is required")
  else
    let params := (if readOnly then [] else ["_txlock=immediate"]) ++
                  (if readOnly && negb (bool_decide (path = ":memory:")) then ["mode=ro"] else []) in
    match params with
    | [] => Ok path
    | p :: _ =>
      let separator := if Contains path "?" then "&" else "?" in
      Ok (path +:+ separator +:+ String.concat "&" params)
    end.

(** ** Session statements

    Each driver's [configureSession] is the list of statements it executes on the
    connection, one after the other, each with what it makes of an error. *)

Definition session := list (string * (error -> error)).

Definition mysqlIsolationToSQL (isolation : string) : string :=
  if decide (isolation = "read_uncommitted") then "READ UNCOMMITTED"
  else if decide (isolation = "read_committed") then "READ COMMITTED"
  else if decide (isolation = "repeatable_read") then "REPEATABLE READ"
  else if decide (isolation = "serializable") then "SERIALIZABLE"
  else "READ COMMITTED".

(** Go's [/] rounds towards zero and [+] wraps. *)
Definition mysql_lock_timeout (ms : Z) : Z :=
  let sec := Z.quot (i64 (ms + 999)) 1000 in
  if decide (sec < 1) then mysqlDefaultLockTimeout else sec.

Definition read_only_statement : string := "SET SESSION TRANSACTION READ ONLY".

Definition MySQL_configureSession (readOnly : bool) (sess : SessionConfig) : session :=
  [("SET SESSION TRANSACTION ISOLATION LEVEL " +:+ mysqlIsolationToSQL (se_Isolation sess),
    fun e => Wrapf "failed to set isolation level: " e "");
   ("SET SESSION innodb_lock_wait_timeout = " +:+ pretty (mysql_lock_timeout (se_LockTimeoutMs sess)),
    fun e => Wrapf "failed to set lock timeout: " e "")] ++
  (if readOnly then [(read_only_statement, fun e => Wrapf "failed to set read only mode: " e "")] else []).

Definition isolationToSQL (isolation : string) : string :=
  if decide (isolation = "read_uncommitted") then "READ UNCOMMITTED"
  else if decide (isolation = "read_committed") then "READ COMMITTED"
  else if decide (isolation = "repeatable_read") then "REPEATABLE READ"
  else if decide (isolation = "serializable") then "SERIALIZABLE"
  else if decide (isolation = "snapshot") then "SNAPSHOT"
  else "READ COMMITTED".

Definition deadlockPriorityToSQL (priority : string) : string :=
  if decide (priority = "low") then "LOW"
  else if decide (priority = "normal") then "NORMAL"
  else if decide (priority = "high") then "HIGH"
  else "LOW".

Definition nl2 : string := chr 10 +:+ chr 9 +:+ chr 9.

Definition SQLServer_configureSession (sess : SessionConfig) : session :=
  [(nl2 +:+ "SET TRANSACTION ISOLATION LEVEL " +:+ isolationToSQL (se_Isolation sess) +:+ ";" +:+
    nl2 +:+ "SET LOCK_TIMEOUT " +:+ pretty (se_LockTimeoutMs sess) +:+ ";" +:+
    nl2 +:+ "SET DEADLOCK_PRIORITY " +:+ deadlockPriorityToSQL (se_DeadlockPriority sess) +:+ ";" +:+
    nl2 +:+ "SET NOCOUNT ON;" +:+ nl2 +:+ "SET IMPLICIT_TRANSACTIONS OFF;" +:+
    nl2 +:+ "SET ARITHABORT ON;" +:+ chr 10 +:+ chr 9, fun e => e)].

Section SQLite.
Context `{UnicodeTables}.

Definition sqlite_busy (cfg : DatabaseConfig) : Z := default sqliteDefaultBusyTimeout (dc_BusyTimeoutMs cfg).
Definition sqlite_journal (cfg : DatabaseConfig) : string :=
  if decide (dc_JournalMode cfg = "") then sqliteDefaultJournalMode else dc_JournalMode cfg.
Definition sqlite_wal (cfg : DatabaseConfig) : bool := bool_decide (ToLower (sqlite_journal cfg) = "wal").

Definition pragma_failed (pragma : string) : error -> error :=
  fun e => Wrapf ("failed to execute " +:+ pragma +:+ ": ") e "".

Definition pragmas (l : list string) : session := (fun p => (p, pragma_failed p)) <$> l.

Definition SQLite_applyInitialPragmas (cfg : DatabaseConfig) : session :=
  pragmas (["PRAGMA busy_timeout = " +:+ pretty (sqlite_busy cfg);
            "PRAGMA journal_mode = " +:+ sqlite_journal cfg] ++
           (if sqlite_wal cfg then ["PRAGMA synchronous = NORMAL"; "PRAGMA wal_autocheckpoint = 1000"] else []) ++
           ["PRAGMA temp_store = MEMORY"; "PRAGMA cache_size = " +:+ pretty sqliteDefaultCacheSize;
            "PRAGMA mmap_size = " +:+ pretty sqliteDefaultMmapSize; "PRAGMA foreign_keys = ON"]).

Definition SQLite_configureSession (cfg : DatabaseConfig) : session :=
  pragmas (["PRAGMA busy_timeout = " +:+ pretty (sqlite_busy cfg);
            "PRAGMA journal_mode = " +:+ sqlite_journal cfg; "PRAGMA foreign_keys = ON"] ++
           (if sqlite_wal cfg then ["PRAGMA synchronous = NORMAL"] else [])).
End SQLite.

(** ** Statements *)

(** An argument of a statement: a plain value or [sql.Named(name, value)]. *)
Inductive arg := Positional (v : any) | Named (name : string) (v : any).

(** [params[name]]: nil if not present. *)
Definition param_value (params : row) (name : string) : any := default ANil (params !! name).

(** SQL Server and SQLite: one named argument per name, in the order of first
    appearance; [addedParams] is the set of names seen so far. *)
Fixpoint named_args (params : row) (addedParams : gset string) (names : list string) : list arg :=
  match names with
  | [] => []
  | n :: names' =>
    if decide (n ∈ addedParams) then named_args params addedParams names'
    else Named n (param_value params n) :: named_args params ({[n]} ∪ addedParams) names'
  end.

Definition SQLServer_buildArgs (query : string) (params : row) : list arg :=
  named_args params ∅ (ParamRegex query).

Definition SQLite_translateQuery (query : string) (params : row) : string * list arg :=
  (query, named_args params ∅ (ParamRegex query)).

(** MySQL: the loop over the matches, on the text after the last one. *)
Fixpoint translate_loop (fuel : nat) (params : row) (s : string) : string * list arg :=
  match fuel, s with
  | S fuel', String c r =>
    if decide (c = "@"%char) then
      match take_word r with
      | Some (w, t) =>
        let '(text, args) := translate_loop fuel' params t in
        (String "?" text, Positional (param_value params w) :: args)
      | None => let '(text, args) := translate_loop fuel' params r in (String c text, args)
      end
    else let '(text, args) := translate_loop fuel' params r in (String c text, args)
  | _, _ => (s, [])
  end.

Definition MySQL_translateQuery (query : string) (params : row) : string * list arg :=
  translate_loop (String.length query) params query.

(** ** What a statement with arguments means

    A bound statement is its text with values in place of the parameters.  Named
    arguments bind each [@name] to the argument of that name; positional arguments
    bind the question marks from left to right, and there must be as many. *)
Inductive piece := Text (c : ascii) | Value (v : any).

Fixpoint named_value (args : list arg) (n : string) : option any :=
  match args with
  | [] => None
  | Named m v :: args' => if decide (m = n) then Some v else named_value args' n
  | Positional _ :: args' => named_value args' n
  end.

Fixpoint bind_named_fuel (fuel : nat) (s : string) (args : list arg) : option (list piece) :=
  match fuel, s with
  | S fuel', String c r =>
    match (if decide (c = "@"%char) then take_word r else None) with
    | Some (w, t) => v ← named_value args w; l ← bind_named_fuel fuel' t args; Some (Value v :: l)
    | None => l ← bind_named_fuel fuel' r args; Some (Text c :: l)
    end
  | _, _ => Some []
  end.

Definition bind_named (s : string) (args : list arg) : option (list piece) :=
  bind_named_fuel (String.length s) s args.

Definition is_qmark (c : ascii) : bool := bool_decide (c = "?"%char).
Definition no_qmark (s : string) : bool := str_all (fun c => negb (is_qmark c)) s.

Fixpoint bind_positional (s : string) (args : list arg) : option (list piece) :=
  match s with
  | EmptyString => match args with [] => Some [] | _ => None end
  | String c r =>
    if is_qmark c then
      match args with
      | Positional v :: args' => l ← bind_positional r args'; Some (Value v :: l)
      | _ => None
      end
    else l ← bind_positional r args; Some (Text c :: l)
  end.

(** *** Named arguments *)

Definition arg_name (a : arg) : option string := match a with Named n _ => Some n | Positional _ => None end.

Lemma named_args_value params seen names n : n ∈ names -> n ∉ seen ->
  named_value (named_args params seen names) n = Some (param_value params n).
Proof.
  revert seen. induction names as [|m names IH]; intros seen Hn Hs; [by apply not_elem_of_nil in Hn|].
  cbn [named_args]. destruct (decide (m ∈ seen)) as [Hm|Hm].
  - apply IH; [|done]. apply elem_of_cons in Hn as [->|]; done.
  - cbn [named_value]. destruct (decide (m = n)) as [->|Hne]; [done|].
    apply IH; [|set_solver]. apply elem_of_cons in Hn as [->|]; done.
Qed.

Lemma named_args_elem params seen names a : a ∈ named_args params seen names <->
  exists n, a = Named n (param_value params n) /\ n ∈ names /\ (n ∉ seen).
Proof.
  revert seen. induction names as [|m names IH]; intros seen; cbn [named_args].
  { split; [by intros ?%not_elem_of_nil|]. intros (n & _ & ?%not_elem_of_nil & _). done. }
  destruct (decide (m ∈ seen)) as [Hm|Hm].
  - rewrite IH. split; intros (n & -> & Hn & Hs); exists n; split_and!; try done.
    + by right.
    + apply elem_of_cons in Hn as [->|]; done.
  - rewrite elem_of_cons, IH. split.
    + intros [->|(n & -> & Hn & Hs)]; [exists m; set_solver|exists n; set_solver].
    + intros (n & -> & Hn & Hs). destruct (decide (n = m)) as [->|]; [by left|right].
      exists n. split_and!; [done| |set_solver]. apply elem_of_cons in Hn as [->|]; done.
Qed.

Lemma named_args_NoDup params seen names : NoDup (arg_name <$> named_args params seen names).
Proof.
  revert seen. induction names as [|m names IH]; intros seen; cbn [named_args]; [constructor|].
  destruct (decide (m ∈ seen)) as [Hm|Hm]; [done|]. rewrite fmap_cons. constructor; [|done].
  intros (a & Ha & (n & -> & _ & Hn)%named_args_elem)%list_elem_of_fmap. cbn in Ha. set_solver.
Qed.

(** SQL Server and SQLite arguments.  The statement is sent as it is, with
    exactly one named argument for each name that follows an [@] in it, however
    often it does, bound to the parameter of that name or to NULL; nothing else of
    the parameter map is sent. *)
Theorem buildArgs_spec query params :
  (SQLite_translateQuery query params = (query, SQLServer_buildArgs query params)) /\
  (forall a, a ∈ SQLServer_buildArgs query params <->
     exists n, a = Named n (param_value params n) /\ n ∈ ParamRegex query) /\
  NoDup (arg_name <$> SQLServer_buildArgs query params) /\
  is_Some (bind_named query (SQLServer_buildArgs query params)).
Proof.
  split_and!; [done| |apply named_args_NoDup|].
  - intros a. unfold SQLServer_buildArgs. rewrite named_args_elem. set_solver.
  - assert (forall fuel s, (String.length s <= fuel)%nat ->
      (forall n, n ∈ ParamRegex s -> is_Some (named_value (SQLServer_buildArgs query params) n)) ->
      is_Some (bind_named_fuel fuel s (SQLServer_buildArgs query params))) as Hb.
    { generalize (SQLServer_buildArgs query params). intros args fuel.
      induction fuel as [|fuel IH]; intros s Hl Hv; [by eexists|].
      destruct s as [|c r]; [by eexists|]. cbn [bind_named_fuel].
      rewrite ParamRegex_cons in Hv. simpl in Hl.
      destruct (decide (c = "@"%char)) as [->|Hc]; [|destruct (IH r ltac:(lia) Hv) as [l ->]; by eexists].
      destruct (take_word r) as [[w t]|] eqn:E; [|destruct (IH r ltac:(lia) Hv) as [l ->]; by eexists].
      apply take_word_length in E. destruct (Hv w ltac:(left)) as [v ->].
      destruct (IH t ltac:(lia)) as [l ->]; [|by eexists]. intros n Hn. apply Hv. by right. }
    apply Hb; [done|]. intros n Hn. eexists. by apply named_args_value.
Qed.

(** *** Positional arguments *)

Lemma translate_step fuel params c r : translate_loop (S fuel) params (String c r) =
  match (if decide (c = "@"%char) then take_word r else None) with
  | Some (w, t) => (String "?" (translate_loop fuel params t).1,
                    Positional (param_value params w) :: (translate_loop fuel params t).2)
  | None => (String c (translate_loop fuel params r).1, (translate_loop fuel params r).2)
  end.
Proof.
  cbn [translate_loop]. destruct (decide (c = "@"%char)); [|by destruct (translate_loop fuel params r)].
  destruct (take_word r) as [[w t]|]; [by destruct (translate_loop fuel params t)|].
  by destruct (translate_loop fuel params r).
Qed.

Lemma translate_args fuel params s : (String.length s <= fuel)%nat ->
  (translate_loop fuel params s).2 = (fun n => Positional (param_value params n)) <$> ParamRegex s.
Proof.
  revert s. induction fuel as [|fuel IH]; intros [|c r] Hl; simpl in Hl; try done; [lia|].
  rewrite translate_step, ParamRegex_cons. destruct (decide (c = "@"%char)); [|apply IH; lia].
  destruct (take_word r) as [[w t]|] eqn:E; [|apply IH; lia].
  apply take_word_length in E. cbn [snd]. rewrite IH by lia. done.
Qed.

Lemma translate_binds fuel params args s : (String.length s <= fuel)%nat -> no_qmark s = true ->
  (forall n, n ∈ ParamRegex s -> named_value args n = Some (param_value params n)) ->
  bind_positional (translate_loop fuel params s).1 (translate_loop fuel params s).2 =
  bind_named_fuel fuel s args.
Proof.
  revert s. induction fuel as [|fuel IH]; intros [|c r] Hl Hq Hv; simpl in Hl; try done; [lia|].
  rewrite translate_step. cbn [bind_named_fuel]. rewrite ParamRegex_cons in Hv.
  unfold no_qmark in Hq. cbn [str_all] in Hq. apply andb_true_iff in Hq as [Hc%negb_true_iff Hr].
  destruct (decide (c = "@"%char)) as [->|].
  - destruct (take_word r) as [[w t]|] eqn:E; cbn [fst snd bind_positional].
    + pose proof (take_word_length _ _ _ E). change (is_qmark "?") with true. cbn iota.
      rewrite (Hv w) by left. cbn [mbind option_bind]. rewrite IH; [done|lia| |].
      * apply take_word_spec in E as (-> & _). rewrite str_all_app in Hr. by apply andb_true_iff in Hr as [_ ?].
      * intros n Hn. apply Hv. by right.
    + rewrite Hc. rewrite IH; try done; lia.
  - cbn [fst snd bind_positional]. rewrite Hc, IH; try done; lia.
Qed.

(** Nothing of the form [@name] is left: a question mark starts no name. *)
Lemma translate_head fuel params s : (String.length s <= fuel)%nat -> head_is ident_char s = false ->
  head_is ident_char (translate_loop fuel params s).1 = false.
Proof.
  destruct fuel as [|fuel], s as [|c r]; intros Hl Hh; try done. rewrite translate_step.
  destruct (decide (c = "@"%char)) as [->|]; [|done]. by destruct (take_word r) as [[w t]|].
Qed.

Lemma translate_no_params fuel params s : (String.length s <= fuel)%nat ->
  ParamRegex (translate_loop fuel params s).1 = [].
Proof.
  revert s. induction fuel as [|fuel IH]; intros [|c r] Hl; simpl in Hl; try done; [lia|].
  rewrite translate_step. destruct (decide (c = "@"%char)) as [->|Hc].
  - destruct (take_word r) as [[w t]|] eqn:E; cbn [fst]; rewrite ParamRegex_cons.
    + apply take_word_length in E. rewrite decide_False by done. apply IH. lia.
    + unfold take_word, take_name in *. destruct (head_is ident_char r) eqn:Eh; [done|].
      rewrite translate_head, decide_True by (done || lia). apply IH. lia.
  - cbn [fst]. rewrite ParamRegex_cons, decide_False by done. apply IH. lia.
Qed.

(** C30: the MySQL translation.  For a statement without question marks, the
    translated text with its positional arguments binds to the same statement, byte
    by byte and value by value, as the original with named arguments, so each [@name]
    gets the value the other drivers give it, however the names repeat; and in every
    case one argument is sent per occurrence and no [@name] is left in the text.  A
    [@name] is what [ParamRegex] matches: an at sign and letters, digits or underscores,
    so [@1] is one. *)
Theorem translateQuery_equiv query params :
  let '(text, args) := MySQL_translateQuery query params in
  args = (fun n => Positional (param_value params n)) <$> ParamRegex query /\
  ParamRegex text = [] /\
  (no_qmark query = true ->
     bind_positional text args = bind_named query (SQLServer_buildArgs query params)).
Proof.
  unfold MySQL_translateQuery.
  pose proof (translate_args (String.length query) params query (le_n _)) as Ha.
  pose proof (translate_no_params (String.length query) params query (le_n _)) as Hn.
  pose proof (translate_binds (String.length query) params (SQLServer_buildArgs query params) query (le_n _)) as Hb.
  destruct (translate_loop _ _ _) as [text args]. split_and!; [done|done|].
  intros Hq. apply Hb; [done|]. intros n Hn'. by apply named_args_value.
Qed.

(** the MySQL lock wait timeout is a positive number of seconds, the least that
    covers a positive number of milliseconds that does not overflow, and the default
    when the session asks for none. *)
Theorem mysql_lock_timeout_spec ms :
  1 <= mysql_lock_timeout ms /\
  (0 < ms < two63 - 999 ->
     1000 * (mysql_lock_timeout ms - 1) < ms <= 1000 * mysql_lock_timeout ms) /\
  (- two63 <= ms <= 0 -> mysql_lock_timeout ms = mysqlDefaultLockTimeout).
Proof.
  unfold mysql_lock_timeout, mysqlDefaultLockTimeout. split_and!.
  - case_decide; lia.
  - intros Hms. rewrite i64_small by (unfold two63 in *; lia).
    rewrite Z.quot_div_nonneg by lia. case_decide; Z.to_euclidean_division_equations; lia.
  - intros Hms. rewrite i64_small by (unfold two63 in *; lia).
    destruct (decide (ms + 999 < 0)).
    + assert (Z.quot (ms + 999) 1000 <= 0) by (Z.to_euclidean_division_equations; lia).
      rewrite decide_True by lia. done.
    + rewrite Z.quot_div_nonneg by lia.
      rewrite decide_True; [done|]. Z.to_euclidean_division_equations; lia.
Qed.

(** Read-only is the default, and a read-only connection says so to its database:
    SQL Server by its intent, a SQLite file by its mode. *)
Lemma read_only_default d : dc_ReadOnly d = None -> IsReadOnly d = true.
Proof. unfold IsReadOnly. by intros ->. Qed.

(** The SQLite DSN: refused iff there is no path; a file opened read-only carries
    [mode=ro] and no other parameter of the program's, a writable one locks at the
    start of a transaction, an in-memory database opened read-only has neither. *)
Theorem buildSQLiteDSN_spec path readOnly :
  (buildSQLiteDSN path readOnly = Err (Errorf "sqlite path is required") <-> path = "") /\
  (path <> "" -> exists tail, buildSQLiteDSN path readOnly = Ok (path +:+ tail) /\
     tail = (if readOnly then if decide (path = ":memory:") then ""
               else (if Contains path "?" then "&" else "?") +:+ "mode=ro"
             else (if Contains path "?" then "&" else "?") +:+ "_txlock=immediate")).
Proof.
  unfold buildSQLiteDSN. split.
  - case_decide; [done|]. split; [|done].
    destruct readOnly; cbn [andb app]; [|done]. by destruct (negb _).
  - intros Hp. rewrite decide_False by done. eexists. split; [|done].
    destruct readOnly; cbn [andb app]; [|done].
    destruct (decide (path = ":memory:")) as [->|Hne]; [by rewrite app_str_nil_r|].
    by rewrite bool_decide_eq_false_2.
Qed.

Module Sample.
Definition two_names : string := "SELECT * FROM t WHERE a = @x AND b = @y AND c = @x".
Definition xy : row := <["x" := AInt 1]> {["y" := AStr "b"]}.

(** The parameters of [two_names], sent to MySQL and to the others. *)
Example translated_twice :
  MySQL_translateQuery two_names xy =
    ("SELECT * FROM t WHERE a = ? AND b = ? AND c = ?",
     [Positional (AInt 1); Positional (AStr "b"); Positional (AInt 1)]) /\
  SQLServer_buildArgs two_names xy = [Named "x" (AInt 1); Named "y" (AStr "b")].
Proof. by vm_compute. Qed.

Lemma translateQuery_equiv_witness :
  no_qmark two_names = true /\
  bind_positional "SELECT * FROM t WHERE a = ? AND b = ? AND c = ?"
    [Positional (AInt 1); Positional (AStr "b"); Positional (AInt 1)] =
  bind_named two_names [Named "x" (AInt 1); Named "y" (AStr "b")].
Proof.
  split; [reflexivity|]. destruct translated_twice as [E1 <-].
  pose proof (translateQuery_equiv two_names xy) as H. rewrite E1 in H.
  destruct H as (_ & _ & H). apply H. reflexivity.
Defined.

Lemma mysql_lock_timeout_spec_witness :
  1000 * (mysql_lock_timeout 1500 - 1) < 1500 <= 1000 * mysql_lock_timeout 1500 /\
  mysql_lock_timeout 0 = mysqlDefaultLockTimeout.
Proof.
  split.
  - apply (mysql_lock_timeout_spec 1500). unfold two63. lia.
  - apply (mysql_lock_timeout_spec 0). unfold two63. lia.
Defined.

(** An e-mail address in a literal: the translation for MySQL takes [@example] for a
    parameter, so it alters the literal and sends an argument that no placeholder of
    the statement takes. *)
Example literal_altered :
  MySQL_translateQuery "SELECT id FROM users WHERE mail = 'bob@example.com'" ∅ =
    ("SELECT id FROM users WHERE mail = 'bob?.com'", [Positional ANil]).
Proof. by vm_compute. Qed.

(** A password with a semicolon ends its part of the SQL Server connection string
    and starts another one. *)
Example password_splits :
  buildSQLServerConnStr
    {| dc_Name := "main"; dc_Type := "sqlserver"; dc_Host := "db"; dc_Port := 1433; dc_User := "app";
       dc_Password := "a;b=c"; dc_Database := "prod"; dc_Path := ""; dc_ReadOnly := Some false;
       dc_Encrypt := ""; dc_Isolation := ""; dc_LockTimeoutMs := None; dc_DeadlockPriority := "";
       dc_BusyTimeoutMs := None; dc_JournalMode := ""; dc_MaxOpenConns := None; dc_MaxIdleConns := None;
       dc_ConnMaxLifetime := None; dc_ConnMaxIdleTime := None |} =
  "server=db;port=1433;user id=app;password=a;b=c;database=prod;encrypt=disable;connection timeout=10".
Proof. by vm_compute. Qed.
End Sample.
