(* ===== verification/Db.v ===== *)
(** * internal/db: drivers and the connection manager

    The drivers act on database/sql, an interface here ([SqlDB]): pools and
    connections are handles, every answer is the implementation's.  Each call is also
    entered in a log, which no code reads: the theorems say what is asked of the
    database, in which order, and that what is opened is closed.  Contexts are only
    handed on to database/sql and are left out; what they cause is an answer like any
    other.  A method call on a nil pool panics. *)
From S2P Require Import Prelude GoStrings GoValues Trace Patterns SqlUtil WfConfig RateLimit SqlParams Compile Executor DbText.
From Stdlib Require Import SpecFloat.

(** ** database/sql *)

(** The values a driver hands to [Scan] (driver.Value). *)
Inductive driver_value :=
| DNil | DInt64 (z : Z) | DFloat (f : spec_float) | DBool (b : bool)
| DBytes (s : string) | DString (s : string) | DTime (t : Z).

(** sql.Rows: the columns, the answer of each [Scan] after a [Next] that returned
    true, and [Err] after the [Next] that returned false. *)
Record Cursor := {
  cur_Columns : result (list string);
  cur_Rows : list (result (list driver_value));
  cur_Err : option error;
}.

Class SqlDB (W : Type) := {
  pool : Type;
  pool_eq_dec :: EqDecision pool;
  conn : Type;
  sql_Open : string -> string -> W -> result pool * W;
  pool_Set : pool -> PoolSettings -> W -> W;
  pool_Ping : pool -> W -> option error * W;
  pool_Close : pool -> W -> option error * W;
  pool_Exec : pool -> string -> W -> option error * W;
  pool_Stats : pool -> W -> (Z * Z) * W;
  pool_Conn : pool -> W -> result conn * W;
  conn_Exec : conn -> string -> list arg -> W -> result Z * W;
    (* the value of RowsAffected, whose error the code drops *)
  conn_Query : conn -> string -> list arg -> W -> result Cursor * W;
  rows_Close : Cursor -> W -> W;
  conn_Close : conn -> W -> W;
  time_RFC3339 : Z -> string;
}.

Section Effects.
Context {W : Type} {DB : SqlDB W}.

Inductive event :=
| EOpen (driver dsn : string) (r : result pool)
| ESet (p : pool) (s : PoolSettings)
| EPing (p : pool) (r : option error)
| EClose (p : pool)
| EPoolExec (p : pool) (q : string) (r : option error)
| EConn (p : pool) (r : result conn)
| EExec (c : conn) (q : string) (args : list arg) (r : result Z)
| EQuery (c : conn) (q : string) (args : list arg) (r : result Cursor)
| ERowsClose (cur : Cursor)
| EConnClose (c : conn).

(** The world with the log of these events. *)
Abbreviation DSt := (Traced W event).

Abbreviation X := (M DSt).

(** ** Rows *)

Definition scan_value (v : driver_value) : any :=
  match v with
  | DBytes s => AStr s
  | DTime t => AStr (time_RFC3339 t)
  | DNil => ANil
  | DInt64 z => AInt64 z
  | DFloat f => AFloat f
  | DBool b => ABool b
  | DString s => AStr s
  end.

(** One row: a column that repeats a name overwrites the one before it.  Scan fills
    one value per column. *)
Definition scan_row (columns : list string) (values : list driver_value) : row :=
  foldl (fun r '(col, v) => <[col := scan_value v]> r) ∅ (zip columns values).

Fixpoint scan_rows (columns : list string) (l : list (result (list driver_value))) : result Rows :=
  match l with
  | [] => Ok []
  | Err e :: _ => Err (Wrapf "failed to scan row: " e "")
  | Ok vs :: l' => try rest := scan_rows columns l' in Ok (scan_row columns vs :: rest)
  end.

(** No rows are a nil slice. *)
Definition ScanRows (cur : Cursor) : result (option Rows) :=
  match cur_Columns cur with
  | Err e => Err (Wrapf "failed to get columns: " e "")
  | Ok columns =>
    try results := scan_rows columns (cur_Rows cur) in
    match cur_Err cur with
    | Some e => Err (Wrapf "row iteration error: " e "")
    | None => Ok (match results with [] => None | _ => Some results end)
    end
  end.

(** ** Queries *)

Record QueryHints := { qh_IsWrite : option bool; qh_HasReturning : option bool }.

Context `{UnicodeTables}.

Definition resolveIsWrite (hints : option QueryHints) (query : string) : bool :=
  match (h ← hints; qh_IsWrite h) with Some b => b | None => IsWriteQuery query end.

(** [None] is the panic of [HasReturningClause]. *)
Definition resolveHasReturning (hints : option QueryHints) (query : string) : option bool :=
  match (h ← hints; qh_HasReturning h) with Some b => Some b | None => HasReturningClause query end.

(** The loop that executes the session statements on a connection. *)
Fixpoint run_session (c : conn) (l : session) : X (option error) :=
  match l with
  | [] => ret None
  | (q, wrap) :: l' =>
    let* r := ask (conn_Exec c q []) (EExec c q []) in
    match r with
    | Err e => ret (Some (wrap e))
    | Ok _ => run_session c l'
    end
  end.

(** From the routing of the statement on; [text] and [args] are what the driver made
    of the statement. *)
Definition run_statement (c : conn) (text : string) (args : list arg) (isWrite hasReturning : bool)
    : X (result QueryResult) :=
  if isWrite && negb hasReturning then
    let* r := ask (conn_Exec c text args) (EExec c text args) in
    ret (match r with
         | Err e => Err (Wrapf "exec failed: " e "")
         | Ok n => Ok {| qr_Rows := None; qr_RowsAffected := n |}
         end)
  else
    let* r := ask (conn_Query c text args) (EQuery c text args) in
    match r with
    | Err e => ret (Err (Wrapf "query failed: " e ""))
    | Ok cur =>
      deferred (ret (try rows := ScanRows cur in
                     Ok {| qr_Rows := rows;
                           qr_RowsAffected := if isWrite then len_rows rows else 0 |}))
        (rows_Close cur) (ERowsClose cur)
    end.

(** The drivers' [Query]: a connection of its own, the session, the statement. *)
Definition query_with (p : option pool) (sess : session) (query : string) (translated : string * list arg)
    (hints : option QueryHints) : X (result QueryResult) :=
  match p with
  | None => panic
  | Some p =>
    let* r := ask (pool_Conn p) (EConn p) in
    match r with
    | Err e => ret (Err (Wrapf "failed to get connection: " e ""))
    | Ok c =>
      deferred
        (let* e := run_session c sess in
         match e with
         | Some e => ret (Err (Wrapf "failed to configure session: " e ""))
         | None =>
           let isWrite := resolveIsWrite hints query in
           match resolveHasReturning hints query with
           | None => panic
           | Some hasReturning => run_statement c translated.1 translated.2 isWrite hasReturning
           end
         end)
        (conn_Close c) (EConnClose c)
    end
  end.

(** ** Drivers *)

(** The fields common to the three driver types; [d_source] is connStr, path or dsn. *)
Record DriverFields := {
  d_conn : option pool; d_source : string; d_cfg : DatabaseConfig; d_readOnly : bool;
}.

Inductive Driver :=
| SQLServerDriver (d : DriverFields)
| SQLiteDriver (d : DriverFields)
| MySQLDriver (d : DriverFields).

Definition fields (d : Driver) : DriverFields :=
  match d with SQLServerDriver f | SQLiteDriver f | MySQLDriver f => f end.

Definition with_conn (d : DriverFields) (p : option pool) : DriverFields :=
  {| d_conn := p; d_source := d_source d; d_cfg := d_cfg d; d_readOnly := d_readOnly d |}.

Definition SQLServer_Query (d : DriverFields) (sess : SessionConfig) (query : string) (params : row)
    (hints : option QueryHints) : X (result QueryResult) :=
  query_with (d_conn d) (SQLServer_configureSession sess) query (query, SQLServer_buildArgs query params) hints.

Definition SQLite_Query (d : DriverFields) (sess : SessionConfig) (query : string) (params : row)
    (hints : option QueryHints) : X (result QueryResult) :=
  query_with (d_conn d) (SQLite_configureSession (d_cfg d)) query (SQLite_translateQuery query params) hints.

Definition MySQL_Query (d : DriverFields) (sess : SessionConfig) (query : string) (params : row)
    (hints : option QueryHints) : X (result QueryResult) :=
  query_with (d_conn d) (MySQL_configureSession (d_readOnly d) sess) query (MySQL_translateQuery query params) hints.

Definition Query (d : Driver) : SessionConfig -> string -> row -> option QueryHints -> X (result QueryResult) :=
  match d with
  | SQLServerDriver f => SQLServer_Query f
  | SQLiteDriver f => SQLite_Query f
  | MySQLDriver f => MySQL_Query f
  end.

Definition Ping (d : Driver) : X (option error) :=
  match d_conn (fields d) with
  | None => panic
  | Some p => ask (pool_Ping p) (EPing p)
  end.

Definition Close (d : Driver) : X (option error) :=
  match d_conn (fields d) with
  | None => panic
  | Some p => ask (pool_Close p) (fun _ => EClose p)
  end.

Definition Name (d : Driver) : string := dc_Name (d_cfg (fields d)).

Definition Type_ (d : Driver) : string :=
  match d with SQLServerDriver _ => "sqlserver" | SQLiteDriver _ => "sqlite" | MySQLDriver _ => "mysql" end.

Definition driver_IsReadOnly (d : Driver) : bool := d_readOnly (fields d).

(** [_ = conn.Close()] *)
Definition discard (p : pool) : X unit := tell (fun w => (pool_Close p w).2) (EClose p).

(** Opening a pool: [sql.Open], the pool settings, the initial statements if any, and
    a ping; a pool that fails one of them is closed again.  [what] names the database
    in the messages, [initial] is [applyInitialPragmas] for SQLite. *)
Fixpoint pool_statements (p : pool) (l : session) : X (option error) :=
  match l with
  | [] => ret None
  | (q, wrap) :: l' =>
    let* r := ask (pool_Exec p q) (EPoolExec p q) in
    match r with
    | Some e => ret (Some (wrap e))
    | None => pool_statements p l'
    end
  end.

Definition open_pool (driver dsn open_msg ping_msg : string) (settings : PoolSettings) (initial : session)
    : X (result pool) :=
  let* r := ask (sql_Open driver dsn) (EOpen driver dsn) in
  match r with
  | Err e => ret (Err (Wrapf open_msg e ""))
  | Ok p =>
    let* _ := tell (pool_Set p settings) (ESet p settings) in
    let* e := pool_statements p initial in
    match e with
    | Some e => let* _ := discard p in ret (Err (Wrapf "failed to apply initial pragmas: " e ""))
    | None =>
      let* e := ask (pool_Ping p) (EPing p) in
      match e with
      | Some e => let* _ := discard p in ret (Err (Wrapf ping_msg e ""))
      | None => ret (Ok p)
      end
    end
  end.

Context `{MySQLFormat}.

Definition open_sqlserver (connStr : string) (cfg : DatabaseConfig) : X (result pool) :=
  open_pool "sqlserver" connStr "failed to open database connection: " "failed to ping database: "
    (configureSQLServerPool cfg) [].

Definition open_mysql (dsn : string) (cfg : DatabaseConfig) : X (result pool) :=
  open_pool "mysql" dsn "failed to open mysql database: " "failed to ping mysql database: "
    (configureMySQLPool cfg) [].

Definition open_sqlite (path : string) (readOnly : bool) (cfg : DatabaseConfig) : X (result pool) :=
  match buildSQLiteDSN path readOnly with
  | Err e => ret (Err e)
  | Ok dsn =>
    open_pool "sqlite" dsn "failed to open sqlite database: " "failed to ping sqlite database: "
      (configureSQLitePool cfg) (SQLite_applyInitialPragmas cfg)
  end.

(** A driver on the pool just opened. *)
Definition on_pool (mk : DriverFields -> Driver) (source : string) (cfg : DatabaseConfig) (r : result pool)
    : result Driver :=
  try p := r in
  Ok (mk {| d_conn := Some p; d_source := source; d_cfg := cfg; d_readOnly := IsReadOnly cfg |}).

Definition NewSQLServerDriver (cfg : DatabaseConfig) : X (result Driver) :=
  let connStr := buildSQLServerConnStr cfg in
  let* r := open_sqlserver connStr cfg in ret (on_pool SQLServerDriver connStr cfg r).

Definition NewSQLiteDriver (cfg : DatabaseConfig) : X (result Driver) :=
  let* r := open_sqlite (dc_Path cfg) (IsReadOnly cfg) cfg in ret (on_pool SQLiteDriver (dc_Path cfg) cfg r).

Definition NewMySQLDriver (cfg : DatabaseConfig) : X (result Driver) :=
  let dsn := buildMySQLDSN cfg in
  let* r := open_mysql dsn cfg in ret (on_pool MySQLDriver dsn cfg r).

Definition NewDriver (cfg : DatabaseConfig) : X (result Driver) :=
  if decide (dc_Type cfg = "sqlserver") then NewSQLServerDriver cfg
  else if decide (dc_Type cfg = "sqlite") then NewSQLiteDriver cfg
  else if decide (dc_Type cfg = "mysql") then NewMySQLDriver cfg
  else if decide (dc_Type cfg = "postgres") then ret (Err (Errorf "postgres support not yet implemented"))
  else ret (Err (Errorf ("unknown database type: " +:+ dc_Type cfg))).

(** [Reconnect]: the result is the error and the driver as it is left. *)
Definition reopened (d : DriverFields) (r : result pool) : option error * DriverFields :=
  match r with
  | Err e => (Some e, with_conn d None)
  | Ok p => (None, with_conn d (Some p))
  end.

Definition drop_conn (d : DriverFields) : X unit :=
  match d_conn d with Some p => discard p | None => ret tt end.

Definition SQLServer_Reconnect (d : DriverFields) : X (option error * DriverFields) :=
  let* _ := drop_conn d in
  let* r := open_sqlserver (d_source d) (d_cfg d) in ret (reopened d r).

Definition SQLite_Reconnect (d : DriverFields) : X (option error * DriverFields) :=
  let* _ := drop_conn d in
  let* r := open_sqlite (d_source d) (d_readOnly d) (d_cfg d) in ret (reopened d r).

Definition MySQL_Reconnect (d : DriverFields) : X (option error * DriverFields) :=
  let* _ := drop_conn d in
  let* r := open_mysql (d_source d) (d_cfg d) in ret (reopened d r).

Definition Reconnect (d : Driver) : X (option error * Driver) :=
  match d with
  | SQLServerDriver f => let* r := SQLServer_Reconnect f in ret (r.1, SQLServerDriver r.2)
  | SQLiteDriver f => let* r := SQLite_Reconnect f in ret (r.1, SQLiteDriver r.2)
  | MySQLDriver f => let* r := MySQL_Reconnect f in ret (r.1, MySQLDriver r.2)
  end.

Definition PoolStats (d : Driver) : DSt -> (Z * Z) * DSt := fun s =>
  match d_conn (fields d) with
  | None => ((0, 0), s)
  | Some p => let '(r, w) := pool_Stats p (ds_world s) in (r, {| ds_world := w; ds_log := ds_log s |})
  end.

(** ** The manager (manager.go)

    The drivers by connection name.  The methods hold the manager's lock; [Close] and
    [Reconnect] return the manager as they leave it. *)

Context `{MapWalk}.

Abbreviation Manager := (gmap string Driver).

(** The loop of [Close] over the drivers; [firstErr] is the first error met. *)
Fixpoint close_all (l : list (string * Driver)) (firstErr : option error) : X (option error) :=
  match l with
  | [] => ret firstErr
  | (name, driver) :: l' =>
    let* e := Close driver in
    close_all l' (match e, firstErr with
                  | Some e, None => Some (Wrapf ("failed to close connection " +:+ name +:+ ": ") e "")
                  | _, _ => firstErr
                  end)
  end.

Definition Manager_Close (m : Manager) : X (option error * Manager) :=
  let* e := close_all (walk m) None in ret (e, ∅).

Fixpoint connect_all (m : Manager) (configs : list DatabaseConfig) : X (result Manager) :=
  match configs with
  | [] => ret (Ok m)
  | cfg :: configs' =>
    let* r := NewDriver cfg in
    match r with
    | Err e =>
      let* _ := Manager_Close m in
      ret (Err (Wrapf ("failed to connect to database " +:+ dc_Name cfg +:+ ": ") e ""))
    | Ok driver => connect_all (<[dc_Name cfg := driver]> m) configs'
    end
  end.

Definition NewManager (configs : list DatabaseConfig) : X (result Manager) := connect_all ∅ configs.

Definition unknown_connection (name : string) : error := Errorf ("unknown database connection: " +:+ name).

Definition Get (m : Manager) (name : string) : result Driver :=
  match m !! name with Some d => Ok d | None => Err (unknown_connection name) end.

Definition Names (m : Manager) : list string := (walk m).*1.

Fixpoint ping_all (l : list (string * Driver)) (results : gmap string (option error))
    : X (gmap string (option error)) :=
  match l with
  | [] => ret results
  | (name, driver) :: l' => let* e := Ping driver in ping_all l' (<[name := e]> results)
  end.

Definition Manager_Ping (m : Manager) : X (gmap string (option error)) := ping_all (walk m) ∅.

Definition Manager_Reconnect (m : Manager) (name : string) : X (option error * Manager) :=
  match m !! name with
  | None => ret (Some (unknown_connection name), m)
  | Some driver => let* r := Reconnect driver in ret (r.1, <[name := r.2]> m)
  end.

(** ** What the executor calls (server.go: the DBManagerAdapter) *)

Context `{GoText}.

(** The loop over the columns of one row. *)
Fixpoint parse_columns (cols : list string) (r : row) : result row :=
  match cols with
  | [] => Ok r
  | col :: cols' =>
    match r !! col with
    | Some (AStr s) =>
      if decide (s = "") then parse_columns cols' r
      else match json_Unmarshal s with
           | Err e => Err (Wrapf ("column '" +:+ col +:+ "': invalid JSON: ") e "")
           | Ok v => parse_columns cols' (<[col := v]> r)
           end
    | _ => parse_columns cols' r
    end
  end.

Definition column_set (columns : list string) : gmap string unit :=
  list_to_map ((fun c => (c, tt)) <$> columns).

Fixpoint parse_rows (cols : list string) (l : Rows) : result Rows :=
  match l with
  | [] => Ok []
  | r :: l' => try r' := parse_columns cols r in try rest := parse_rows cols l' in Ok (r' :: rest)
  end.

(** The rows, changed in place. *)
Definition parseJSONColumns (results : option Rows) (columns : list string) : result (option Rows) :=
  match results with
  | None => Ok None
  | Some l => try l' := parse_rows (walk (column_set columns)).*1 l in Ok (Some l')
  end.

Definition adapter_session (opts : QueryOptions) : SessionConfig :=
  {| se_Isolation := qo_Isolation opts; se_LockTimeoutMs := default 0 (qo_LockTimeoutMs opts);
     se_DeadlockPriority := qo_DeadlockPriority opts |}.

Definition adapter_hints (opts : QueryOptions) : option QueryHints :=
  match qo_IsWrite opts, qo_HasReturning opts with
  | None, None => None
  | w, r => Some {| qh_IsWrite := w; qh_HasReturning := r |}
  end.

Definition dbAdapter (m : Manager) (database sqlQuery : string) (params : row) (opts : QueryOptions)
    : X (result QueryResult) :=
  match Get m database with
  | Err e => ret (Err e)
  | Ok driver =>
    let* r := Query driver (adapter_session opts) sqlQuery params (adapter_hints opts) in
    ret (try qr := r in
         if decide (qo_JSONColumns opts = []) then Ok qr
         else try rows := parseJSONColumns (qr_Rows qr) (qo_JSONColumns opts) in
              Ok {| qr_Rows := rows; qr_RowsAffected := qr_RowsAffected qr |})
  end.

(** ** What a query asks of the database *)

(** The session statements executed in order, up to the first that fails. *)
Inductive session_run (c : conn) : session -> list event -> option error -> Prop :=
| session_done : session_run c [] [] None
| session_next q wrap l n t r : session_run c l t r ->
    session_run c ((q, wrap) :: l) (EExec c q [] (Ok n) :: t) r
| session_stop q wrap l e : session_run c ((q, wrap) :: l) [EExec c q [] (Err e)] (Some (wrap e)).

Definition exec_outcome (r : result Z) : result QueryResult :=
  match r with
  | Err e => Err (Wrapf "exec failed: " e "")
  | Ok n => Ok {| qr_Rows := None; qr_RowsAffected := n |}
  end.

Definition rows_outcome (isWrite : bool) (cur : Cursor) : result QueryResult :=
  try rows := ScanRows cur in
  Ok {| qr_Rows := rows; qr_RowsAffected := if isWrite then len_rows rows else 0 |}.

(** The exchange of one query on the pool [p]: a connection is taken, the session is
    set up, the statement runs once, by Exec exactly when it is a write that returns
    no rows, and the rows and the connection are given back. *)
Inductive query_protocol (p : pool) (sess : session) (text : string) (args : list arg)
    (isWrite : bool) (hasReturning : option bool) : option (result QueryResult) -> list event -> Prop :=
| proto_no_conn e : query_protocol p sess text args isWrite hasReturning
    (Some (Err (Wrapf "failed to get connection: " e ""))) [EConn p (Err e)]
| proto_no_session c t e : session_run c sess t (Some e) ->
    query_protocol p sess text args isWrite hasReturning
      (Some (Err (Wrapf "failed to configure session: " e ""))) (EConn p (Ok c) :: t ++ [EConnClose c])
| proto_panic c t : session_run c sess t None -> hasReturning = None ->
    query_protocol p sess text args isWrite hasReturning None (EConn p (Ok c) :: t ++ [EConnClose c])
| proto_exec c t r : session_run c sess t None -> isWrite = true -> hasReturning = Some false ->
    query_protocol p sess text args isWrite hasReturning (Some (exec_outcome r))
      (EConn p (Ok c) :: t ++ [EExec c text args r; EConnClose c])
| proto_query_failed c t b e : session_run c sess t None -> hasReturning = Some b -> isWrite && negb b = false ->
    query_protocol p sess text args isWrite hasReturning (Some (Err (Wrapf "query failed: " e "")))
      (EConn p (Ok c) :: t ++ [EQuery c text args (Err e); EConnClose c])
| proto_rows c t b cur : session_run c sess t None -> hasReturning = Some b -> isWrite && negb b = false ->
    query_protocol p sess text args isWrite hasReturning (Some (rows_outcome isWrite cur))
      (EConn p (Ok c) :: t ++ [EQuery c text args (Ok cur); ERowsClose cur; EConnClose c]).

Lemma run_session_emits c l : emits (run_session c l) (fun r t => exists e, r = Some e /\ session_run c l t e).
Proof.
  induction l as [|[q wrap] l IH]; cbn [run_session].
  { apply emits_ret. exists None. split; [done|constructor]. }
  apply emits_bind, emits_ask. intros [n|e].
  - eapply emits_weaken; [exact IH|]. intros r t (e & -> & Hs). exists e. split; [done|]. by constructor.
  - apply emits_ret. exists (Some (wrap e)). split; [done|constructor].
Qed.

Lemma query_with_emits p sess query translated hints :
  emits (query_with (Some p) sess query translated hints)
    (query_protocol p sess translated.1 translated.2 (resolveIsWrite hints query)
       (resolveHasReturning hints query)).
Proof.
  unfold query_with. apply emits_bind, emits_ask. intros [c|e]; [|apply emits_ret; constructor].
  apply emits_deferred. eapply emits_seq; [apply run_session_emits| |].
  { intros t (e & ? & _). done. }
  intros e t (e' & [= <-] & Hs). destruct e as [e|].
  { apply emits_ret. rewrite app_nil_r. by apply proto_no_session. }
  destruct (resolveHasReturning hints query) as [b|] eqn:Eb.
  2:{ apply emits_panic. rewrite app_nil_r. by apply proto_panic. }
  unfold run_statement. destruct (resolveIsWrite hints query && negb b) eqn:Er.
  - apply andb_true_iff in Er as [Ew ->%negb_true_iff].
    apply emits_bind, emits_ask. intros r. apply emits_ret. cbn [app].
    rewrite <- app_assoc. by apply (proto_exec _ _ _ _ _ _ _ _ r).
  - apply emits_bind, emits_ask. intros [cur|e]; cbn [app].
    + apply emits_deferred, emits_ret. cbn [app]. rewrite <- app_assoc. by eapply (proto_rows _ _ _ _ _ _ _ _ b).
    + apply emits_ret. cbn [app]. rewrite <- app_assoc. by eapply proto_query_failed.
Qed.

(** The session and the statement of each driver. *)
Definition driver_session (d : Driver) (sess : SessionConfig) : session :=
  match d with
  | SQLServerDriver _ => SQLServer_configureSession sess
  | SQLiteDriver f => SQLite_configureSession (d_cfg f)
  | MySQLDriver f => MySQL_configureSession (d_readOnly f) sess
  end.

Definition driver_statement (d : Driver) (query : string) (params : row) : string * list arg :=
  match d with
  | MySQLDriver _ => MySQL_translateQuery query params
  | _ => (query, SQLServer_buildArgs query params)
  end.

Lemma Query_emits d p sess query params hints : d_conn (fields d) = Some p ->
  emits (Query d sess query params hints)
    (query_protocol p (driver_session d sess) (driver_statement d query params).1
       (driver_statement d query params).2 (resolveIsWrite hints query) (resolveHasReturning hints query)).
Proof.
  destruct d as [f|f|f]; cbn [fields Query]; intros Hp;
    unfold SQLServer_Query, SQLite_Query, MySQL_Query; rewrite Hp; apply query_with_emits.
Qed.

(** C16: the query protocol.  On a driver with a pool, whatever the database answers,
    a query takes one connection, sets up the session on it, runs the statement at
    most once, by Exec exactly when it is a write without returned rows, closes the
    rows and the connection on every path, a panic included, and returns what the
    exchange says. *)
Theorem Query_follows_protocol d p sess query params hints s :
  d_conn (fields d) = Some p ->
  exists t, ds_log (Query d sess query params hints s).2 = ds_log s ++ t /\
    query_protocol p (driver_session d sess) (driver_statement d query params).1
      (driver_statement d query params).2 (resolveIsWrite hints query) (resolveHasReturning hints query)
      (Query d sess query params hints s).1 t.
Proof. intros Hp. by apply Query_emits. Qed.

Lemma session_run_done c l t q wrap : session_run c l t None -> (q, wrap) ∈ l ->
  exists n, EExec c q [] (Ok n) ∈ t.
Proof.
  intros Hs. remember None as r eqn:Er. induction Hs; simplify_eq; [by intros ?%not_elem_of_nil|].
  intros [?|Hin]%elem_of_cons; simplify_eq; [exists n; left|].
  destruct (IHHs eq_refl Hin) as [m ?]. exists m. by right.
Qed.

Lemma session_run_events c l t r ev : session_run c l t r -> ev ∈ t ->
  exists q wrap n, ev = EExec c q [] n /\ (q, wrap) ∈ l.
Proof.
  induction 1; [by intros ?%not_elem_of_nil| |].
  - intros [->|Hin]%elem_of_cons; [exists q, wrap, (Ok n); split; [done|left]|].
    destruct (IHsession_run Hin) as (q' & w' & n' & -> & ?). exists q', w', n'. split; [done|by right].
  - intros ->%list_elem_of_singleton. exists q, wrap, (Err e). split; [done|left].
Qed.

(** An event that runs a statement other than one of the session's. *)
Definition runs_statement (sess : session) (c : conn) (ev : event) : Prop :=
  match ev with
  | EQuery c' _ _ _ => c' = c
  | EExec c' q args _ => c' = c /\ (q, args) ∉ (fun qw => (qw.1, [])) <$> sess
  | _ => False
  end.

Lemma session_not_statement c c' l t r ev : session_run c l t r -> ev ∈ t -> runs_statement l c' ev -> False.
Proof.
  intros Hs Hin Hr. destruct (session_run_events _ _ _ _ _ Hs Hin) as (q & wrap & n & -> & Hq).
  destruct Hr as [_ Hr]. apply Hr, list_elem_of_fmap. by exists (q, wrap).
Qed.

(** The one place of a protocol trace where a statement can run is after a session
    that was set up on the same connection. *)
Lemma trace_split_session {A} (pre t post rest : list A) (a ev : A) :
  a :: t ++ rest = pre ++ ev :: post -> (ev <> a) -> (ev ∉ t) -> exists pre', pre = a :: t ++ pre'.
Proof.
  intros E Hne Hnin. destruct pre as [|x pre]; [by simplify_eq/=|]. injection E as <- E.
  revert pre E. induction t as [|b t IH]; intros pre E; [by exists pre|].
  destruct pre as [|x pre]; injection E as <- E; [by destruct Hnin; left|].
  apply IH in E as [pre' E]; [|by intros ?; apply Hnin; right]. exists pre'. injection E as ->. done.
Qed.

Lemma protocol_guarded p sess text args w h r t pre ev post c :
  query_protocol p sess text args w h r t -> t = pre ++ ev :: post -> runs_statement sess c ev ->
  forall q wrap, (q, wrap) ∈ sess -> exists n, EExec c q [] (Ok n) ∈ pre.
Proof.
  intros Hp Ht Hr q wrap Hq.
  assert (Hev : ev ∈ t) by (rewrite Ht; set_solver).
  assert (forall c' t' rest, t = EConn p (Ok c') :: t' ++ rest -> session_run c' sess t' None ->
    (forall ev', ev' ∈ rest -> runs_statement sess c ev' -> c' = c) ->
    exists n, EExec c q [] (Ok n) ∈ pre) as Hmain.
  { intros c' t' rest -> Hs Hrest.
    assert (ev ∉ t') as Hnin by (intros ?; by eapply session_not_statement).
    assert (c' = c) as ->.
    { apply (Hrest ev); [|done]. apply elem_of_cons in Hev as [->|[?|?]%elem_of_app]; done. }
    destruct (session_run_done _ _ _ _ _ Hs Hq) as [n Hn]. exists n.
    destruct (trace_split_session _ _ _ _ _ _ Ht ltac:(by intros ->) Hnin) as [pre' ->]. set_solver. }
  destruct Hp as [e|c' t' e Hs|c' t' Hs|c' t' r Hs|c' t' b e Hs|c' t' b cur Hs].
  - apply list_elem_of_singleton in Hev as ->. done.
  - exfalso. apply elem_of_cons in Hev as [->|[?| ->%list_elem_of_singleton]%elem_of_app]; try done.
    by eapply session_not_statement.
  - by apply (Hmain c' t' _ eq_refl Hs); intros ev' ->%list_elem_of_singleton.
  - apply (Hmain c' t' _ eq_refl Hs). intros ev' [->| ->%list_elem_of_singleton]%elem_of_cons; [|done]. by intros [? _].
  - apply (Hmain c' t' _ eq_refl Hs). by intros ev' [->| ->%list_elem_of_singleton]%elem_of_cons.
  - apply (Hmain c' t' _ eq_refl Hs). intros ev' [->|[->| ->%list_elem_of_singleton]%elem_of_cons]%elem_of_cons; done.
Qed.

(** no statement outside its session.  Whenever a query runs anything but its
    session statements on a connection, all of these have succeeded on that
    connection before; on a read-only MySQL connection this includes SET SESSION
    TRANSACTION READ ONLY, so no statement can run there in a writable session. *)
Theorem statements_guarded d p sess query params hints s t pre ev post c :
  d_conn (fields d) = Some p ->
  ds_log (Query d sess query params hints s).2 = ds_log s ++ t ->
  t = pre ++ ev :: post -> runs_statement (driver_session d sess) c ev ->
  (forall q wrap, (q, wrap) ∈ driver_session d sess -> exists n, EExec c q [] (Ok n) ∈ pre) /\
  (forall f, d = MySQLDriver f -> d_readOnly f = true -> exists n, EExec c read_only_statement [] (Ok n) ∈ pre).
Proof.
  intros Hp Ht E Hr. destruct (Query_emits d p sess query params hints Hp s) as (t' & Ht' & Hproto).
  rewrite Ht in Ht'. apply app_inv_head in Ht' as <-.
  pose proof (protocol_guarded _ _ _ _ _ _ _ _ _ _ _ _ Hproto E Hr) as Hg. split; [done|].
  intros f -> Hro. eapply Hg. cbn [driver_session]. unfold MySQL_configureSession. rewrite Hro.
  apply elem_of_app. right. by left.
Qed.

(** ** Pools opened and closed *)

Definition event_balance (p : pool) (ev : event) : Z :=
  match ev with
  | EOpen _ _ (Ok p') => if decide (p' = p) then 1 else 0
  | EClose p' => if decide (p' = p) then -1 else 0
  | _ => 0
  end.

(** How often [p] was opened less how often it was closed. *)
Definition balance (p : pool) (t : list event) : Z := foldr (fun ev z => event_balance p ev + z) 0 t.

Lemma balance_app p t1 t2 : balance p (t1 ++ t2) = balance p t1 + balance p t2.
Proof. unfold balance. induction t1 as [|ev t1 IH]; simpl; [done|]. rewrite IH. lia. Qed.

Lemma balance_cons p ev t : balance p (ev :: t) = event_balance p ev + balance p t.
Proof. done. Qed.

Definition opened (p : pool) (r : result pool) : Z :=
  match r with Ok p' => if decide (p' = p) then 1 else 0 | Err _ => 0 end.

Definition holds (p : pool) (d : Driver) : Z := if decide (d_conn (fields d) = Some p) then 1 else 0.

Definition connected (d : Driver) : Prop := is_Some (d_conn (fields d)).

Lemma pool_statements_emits p l : emits (pool_statements p l)
  (fun r t => is_Some r /\ forall p', balance p' t = 0).
Proof.
  induction l as [|[q wrap] l IH]; cbn [pool_statements]; [by apply emits_ret|].
  apply emits_bind, emits_ask. intros [e|]; [by apply emits_ret|].
  eapply emits_weaken; [exact IH|]. intros r t [? Hb]. split; [done|]. intros p'. apply Hb.
Qed.

(** An opened pool that fails its checks is closed again. *)
Lemma open_pool_emits driver dsn m1 m2 settings initial :
  emits (open_pool driver dsn m1 m2 settings initial)
    (fun r t => exists x, r = Some x /\ forall p, balance p t = opened p x).
Proof.
  assert (forall p dsn (e : error) t, (forall p', balance p' t = 0) ->
    emits (let* _ := discard p in ret (@Err pool e)) (fun r t' => exists x, r = Some x /\ forall p',
      balance p' ((EOpen driver dsn (Ok p) :: t) ++ t') = opened p' x)) as Hdiscard.
  { intros p dsn' e t Ht. unfold discard, tell. apply emits_bind, emits_ask. intros [].
    apply emits_ret. exists (Err e). split; [done|]. intros p'.
    rewrite balance_app, balance_cons, Ht. unfold balance. cbn. destruct (decide (p = p')); lia. }
  unfold open_pool. apply emits_bind, emits_ask. intros [p|e]; [|apply emits_ret; by exists (Err (Wrapf m1 e ""))].
  unfold tell at 1. apply emits_bind, emits_ask. intros [].
  eapply emits_seq; [apply pool_statements_emits|by intros t [[] _]|].
  intros [e|] t [_ Ht]; cbn [app].
  { eapply emits_weaken; [apply (Hdiscard p dsn _ (ESet p settings :: t)); intros; apply Ht|]. done. }
  apply emits_bind, emits_ask. intros [e|]; cbn [app].
  - eapply emits_weaken; [apply (Hdiscard p dsn _ (ESet p settings :: t ++ [EPing p (Some e)]))|].
    + intros p'. rewrite balance_cons, balance_app, Ht. done.
    + intros r t' (x & -> & Hx). exists x. split; [done|]. intros p'. rewrite <- Hx. cbn [app]. by rewrite <- app_assoc.
  - apply emits_ret. exists (Ok p). split; [done|]. intros p'. cbn [app].
    rewrite !balance_cons, balance_app, Ht. cbn [event_balance opened balance foldr]. lia.
Qed.

Lemma open_sqlite_emits path ro cfg : emits (open_sqlite path ro cfg)
  (fun r t => exists x, r = Some x /\ forall p, balance p t = opened p x).
Proof.
  unfold open_sqlite. destruct (buildSQLiteDSN path ro) as [dsn|e]; [apply open_pool_emits|].
  apply emits_ret. by exists (Err e).
Qed.

Definition holds_new (p : pool) (r : result Driver) : Z := match r with Ok d => holds p d | Err _ => 0 end.

Lemma on_pool_holds mk source cfg r p : (forall f, fields (mk f) = f) ->
  holds_new p (on_pool mk source cfg r) = opened p r.
Proof.
  intros Hf. destruct r as [p'|e]; [|done]. cbn. unfold holds. rewrite Hf. cbn [d_conn].
  destruct (decide (p' = p)) as [->|]; [by rewrite decide_True|]. rewrite decide_False by congruence. done.
Qed.

(** A driver holds its pool and a failed attempt none. *)
Lemma NewDriver_emits cfg : emits (NewDriver cfg)
  (fun r t => exists x, r = Some x /\ (forall d, x = Ok d -> connected d /\ d_cfg (fields d) = cfg) /\
     forall p, balance p t = holds_new p x).
Proof.
  assert (forall mk source (m : X (result pool)), (forall f, fields (mk f) = f) ->
    emits m (fun r t => exists x, r = Some x /\ forall p, balance p t = opened p x) ->
    emits (let* r := m in ret (on_pool mk source cfg r)) (fun r t => exists x, r = Some x /\
      (forall d, x = Ok d -> connected d /\ d_cfg (fields d) = cfg) /\ forall p, balance p t = holds_new p x)) as Hnew.
  { intros mk source m Hf Hm. eapply emits_seq; [exact Hm|by intros t (x & ? & _)|].
    intros x t (x' & [= <-] & Hb). apply emits_ret. eexists. split; [done|]. rewrite app_nil_r. split.
    - destruct x as [p'|e]; [|done]. cbn. intros d <-%Ok_inj. unfold connected. rewrite Hf. by split; [eexists|].
    - intros p. by rewrite on_pool_holds. }
  unfold NewDriver, NewSQLServerDriver, NewSQLiteDriver, NewMySQLDriver, open_sqlserver, open_mysql.
  repeat case_decide; first [apply Hnew; [done|apply open_pool_emits || apply open_sqlite_emits]
    |apply emits_ret; eexists; by split_and!].
Qed.

(** *** Closing *)

Definition all_connected (m : Manager) : Prop := map_Forall (fun _ => connected) m.

Definition total_holds (p : pool) (l : list (string * Driver)) : Z := foldr (fun kd z => holds p kd.2 + z) 0 l.

Lemma total_holds_perm p l1 l2 : l1 ≡ₚ l2 -> total_holds p l1 = total_holds p l2.
Proof. unfold total_holds. induction 1; simpl; lia. Qed.

Lemma total_holds_walk p (m : Manager) : total_holds p (walk m) = map_sum (holds p) m.
Proof.
  assert (forall l, total_holds p l = foldr (uncurry (fun (_ : string) d t => holds p d + t)) 0 l) as Hl.
  { induction l as [|[k d] l IH]; [done|]. by apply (f_equal (Z.add (holds p d))). }
  rewrite (total_holds_perm _ _ _ (walk_perm m)). unfold map_sum. rewrite map_fold_foldr. apply Hl.
Qed.

Lemma Close_emits d : connected d -> emits (Close d)
  (fun r t => is_Some r /\ forall p, balance p t = - holds p d).
Proof.
  intros [p Hp]. unfold Close. rewrite Hp. apply emits_ask. intros e. split; [done|].
  intros p'. unfold balance, holds. cbn. rewrite Hp. destruct (decide (p = p')) as [->|].
  - by rewrite decide_True.
  - by rewrite decide_False by congruence.
Qed.

Lemma close_all_emits l err : Forall (fun kd => connected kd.2) l -> emits (close_all l err)
  (fun r t => is_Some r /\ forall p, balance p t = - total_holds p l).
Proof.
  intros Hl. revert err. induction Hl as [|[n d] l Hd Hl IH]; intros err; [by apply emits_ret|].
  cbn [close_all]. eapply emits_seq; [by apply Close_emits|by intros t [[] _]|].
  intros e t [_ Ht]. eapply emits_weaken; [apply IH|]. intros r t' [? Ht']. split; [done|].
  intros p. rewrite balance_app, Ht, Ht'. change (total_holds p ((n, d) :: l)) with (holds p d + total_holds p l). lia.
Qed.

Lemma Manager_Close_emits m : all_connected m -> emits (Manager_Close m)
  (fun r t => (exists e, r = Some (e, ∅)) /\ forall p, balance p t = - map_sum (holds p) m).
Proof.
  intros Hm. unfold Manager_Close. eapply emits_seq; [apply close_all_emits| |].
  - apply Forall_forall. intros [k d] Hin%walk_elem. by apply (Hm k).
  - by intros t [[] _].
  - intros e t [_ Ht]. apply emits_ret. split; [by eexists|]. intros p.
    rewrite app_nil_r, Ht, total_holds_walk. done.
Qed.

Definition manager_balance (p : pool) (r : result Manager) : Z :=
  match r with Ok m => map_sum (holds p) m | Err _ => 0 end.

Lemma connect_all_emits configs m : all_connected m -> NoDup (dc_Name <$> configs) ->
  (forall cfg, cfg ∈ configs -> m !! dc_Name cfg = None) ->
  emits (connect_all m configs) (fun r t => exists x, r = Some x /\
    (forall m', x = Ok m' -> all_connected m' /\ dom m' = dom m ∪ list_to_set (dc_Name <$> configs)) /\
    forall p, map_sum (holds p) m + balance p t = manager_balance p x).
Proof.
  revert m. induction configs as [|cfg configs IH]; intros m Hm Hnd Hnew; cbn [connect_all].
  { apply emits_ret. exists (Ok m). split_and!; [done| |intros p; cbn; lia].
    intros m' <-%Ok_inj. split; [done|]. cbn. set_solver. }
  rewrite fmap_cons in Hnd. apply NoDup_cons in Hnd as [Hn Hnd].
  assert (m !! dc_Name cfg = None) as Hfresh by (apply Hnew; left).
  eapply emits_seq; [apply NewDriver_emits|by intros t (x & ? & _)|].
  intros x t (x' & [= <-] & Hok & Hb). destruct x as [d|e].
  - destruct (Hok d eq_refl) as [Hd _]. eapply emits_weaken; [apply (IH (<[dc_Name cfg := d]> m))|].
    + by apply map_Forall_insert_2.
    + done.
    + intros cfg' Hin. rewrite lookup_insert_ne; [apply Hnew; by right|].
      intros E. apply Hn. rewrite E. by apply list_elem_of_fmap_2.
    + intros r t' (x & -> & Hx & Hb'). exists x. split_and!; [done| |].
      * intros m' Em. destruct (Hx m' Em) as [? E]. split; [done|].
        rewrite E, dom_insert_L, fmap_cons. cbn [list_to_set]. by rewrite (union_comm_L {[_]}), union_assoc_L.
      * intros p. specialize (Hb' p). rewrite map_sum_insert in Hb' by done.
        rewrite balance_app, Hb. cbn [holds_new]. lia.
  - eapply emits_seq; [by apply Manager_Close_emits|by intros t' [[? ?] _]|].
    intros [e' m'] t' [_ Hc]. apply emits_ret. eexists. split_and!; [done|done|].
    intros p. rewrite app_nil_r, balance_app, Hb, Hc. cbn. lia.
Qed.

(** opening the databases.  For configurations with distinct names, NewManager
    ends, on every behaviour of the databases, either with a driver on an open pool
    for exactly the configured names, every pool opened on the way that is not one of
    these being closed again, or with an error and every pool closed. *)
Theorem NewManager_pools configs s : NoDup (dc_Name <$> configs) ->
  exists x t, (NewManager configs s).1 = Some x /\ ds_log (NewManager configs s).2 = ds_log s ++ t /\
    (forall m, x = Ok m -> all_connected m /\ dom m = list_to_set (dc_Name <$> configs)) /\
    (forall p, balance p t = manager_balance p x).
Proof.
  intros Hnd. destruct (connect_all_emits configs ∅ (map_Forall_empty _) Hnd) with (s := s)
    as (t & Ht & x & Hx & Hok & Hb); [intros; apply lookup_empty|].
  exists x, t. split_and!; [done|done| |].
  - intros m Em. destruct (Hok m Em) as [? ->]. split; [done|]. set_solver.
  - intros p. rewrite <- Hb. done.
Qed.

(** ** Reconnecting *)

Definition same_driver (d d' : Driver) : Prop :=
  Type_ d' = Type_ d /\ d_source (fields d') = d_source (fields d) /\
  d_cfg (fields d') = d_cfg (fields d) /\ d_readOnly (fields d') = d_readOnly (fields d).

Lemma drop_conn_emits f mk : fields (mk f) = f -> emits (drop_conn f)
  (fun r t => r = Some tt /\ forall p, balance p t = - holds p (mk f)).
Proof.
  intros Hf. unfold drop_conn, discard, tell. destruct (d_conn f) as [p|] eqn:Ep.
  - apply emits_ask. intros []. split; [done|]. intros p'. unfold balance, holds. rewrite Hf, Ep. cbn.
    destruct (decide (p = p')) as [->|]; [by rewrite decide_True|]. by rewrite decide_False by congruence.
  - apply emits_ret. split; [done|]. intros p. unfold holds. by rewrite Hf, Ep.
Qed.

Definition reconnected (d : Driver) (r : option (option error * Driver)) (t : list event) : Prop :=
  exists e d', r = Some (e, d') /\ same_driver d d' /\ (e = None <-> connected d') /\
    forall p, balance p t = holds p d' - holds p d.

Lemma Reconnect_emits d : emits (Reconnect d) (reconnected d).
Proof.
  assert (forall mk m f, (forall f, fields (mk f) = f) -> (forall f g, Type_ (mk f) = Type_ (mk g)) ->
    emits m (fun r t => exists x, r = Some x /\ forall p, balance p t = opened p x) ->
    emits (let* r := (let* _ := drop_conn f in let* r := m in ret (reopened f r)) in ret (r.1, mk r.2))
      (reconnected (mk f))) as Hre.
  { intros mk m f Hf Ht Hm. apply emits_bind. eapply emits_seq; [by apply (drop_conn_emits f mk)|by intros t [? _]|].
    intros [] t [_ Hd]. eapply emits_seq; [exact Hm|by intros t' (x & ? & _)|].
    intros x t' (x' & [= <-] & Hb). apply emits_ret, emits_ret. rewrite !app_nil_r.
    exists (reopened f x).1, (mk (reopened f x).2). split_and!; [done|by split; [apply Ht|rewrite !Hf; destruct x]| |].
    - unfold connected. rewrite Hf. destruct x; cbn; split; try done; by intros [].
    - intros p. rewrite balance_app, Hd, Hb. unfold holds at 2. rewrite Hf.
      destruct x as [p'|e]; cbn [reopened opened snd with_conn d_conn].
      + destruct (decide (p' = p)) as [->|]; [rewrite decide_True by done|rewrite decide_False by congruence]; lia.
      + rewrite decide_False by done. lia. }
  destruct d as [f|f|f]; cbn [Reconnect].
  - apply (Hre SQLServerDriver (open_sqlserver (d_source f) (d_cfg f))); [done|done|apply open_pool_emits].
  - apply (Hre SQLiteDriver (open_sqlite (d_source f) (d_readOnly f) (d_cfg f))); [done|done|apply open_sqlite_emits].
  - apply (Hre MySQLDriver (open_mysql (d_source f) (d_cfg f))); [done|done|apply open_pool_emits].
Qed.

(** A driver without a pool has no method but Reconnect, the statistics and the
    getters that does not panic. *)
Lemma disconnected_panics d sess query params hints s : ~ connected d ->
  (Ping d s).1 = None /\ (Close d s).1 = None /\ (Query d sess query params hints s).1 = None.
Proof.
  intros Hd. assert (d_conn (fields d) = None) as E.
  { destruct (d_conn (fields d)) eqn:E; [|done]. destruct Hd. by eexists. }
  unfold Ping, Close. rewrite E. split_and!; [done|done|].
  destruct d as [f|f|f]; cbn [fields Query] in *;
    unfold SQLServer_Query, SQLite_Query, MySQL_Query, query_with; by rewrite E.
Qed.

(** reconnecting.  Reconnect closes the old pool and ends, whatever the database
    does, with the same driver on one open pool, or with an error and no pool at all,
    every pool it opened closed again.  In that second case the driver is left
    unusable: until a later Reconnect succeeds, Ping, Query and Close panic. *)
Theorem Reconnect_spec d s :
  exists e d' t, (Reconnect d s).1 = Some (e, d') /\ ds_log (Reconnect d s).2 = ds_log s ++ t /\
    same_driver d d' /\ (forall p, balance p t = holds p d' - holds p d) /\
    match e with
    | None => connected d'
    | Some _ => ~ connected d' /\ forall sess query params hints s',
        (Ping d' s').1 = None /\ (Close d' s').1 = None /\ (Query d' sess query params hints s').1 = None
    end.
Proof.
  destruct (Reconnect_emits d s) as (t & Ht & e & d' & Er & Hsame & He & Hb).
  exists e, d', t. split_and!; try done. destruct e as [e|]; [|by apply He].
  assert (~ connected d') as Hd by (intros Hc; by apply He in Hc).
  split; [done|]. intros. by apply disconnected_panics.
Qed.

(** ** The adapter *)

Lemma Query_returns d sess query params hints b s :
  connected d -> resolveHasReturning hints query = Some b -> is_Some (Query d sess query params hints s).1.
Proof.
  intros [p Hp] Hh. destruct (Query_emits d p sess query params hints Hp s) as (t & _ & Hproto).
  rewrite Hh in Hproto. inversion Hproto; simplify_eq; by eexists.
Qed.

(** the executor's view of the databases.  With the manager's drivers connected and
    the statement classified beforehand, as compiled steps always have it, a query
    through the adapter returns a result or an error and does not panic; an unknown
    database is an error that touches nothing. *)
Theorem dbAdapter_answers m database query params opts b s :
  all_connected m -> qo_HasReturning opts = Some b ->
  exists r, (dbAdapter m database query params opts s).1 = Some r /\
    (m !! database = None -> r = Err (unknown_connection database) /\
       (dbAdapter m database query params opts s).2 = s).
Proof.
  intros Hm Hb. unfold dbAdapter, Get. destruct (m !! database) as [d|] eqn:Ed.
  2:{ eexists. split; [done|]. by intros _. }
  assert (resolveHasReturning (adapter_hints opts) query = Some b) as Hh.
  { unfold adapter_hints. rewrite Hb. by destruct (qo_IsWrite opts). }
  destruct (Query_returns d (adapter_session opts) query params _ b s (Hm _ _ Ed) Hh) as [r Er].
  unfold bind. destruct (Query d _ query params _ s) as [[r'|] s']; [|done]. by eexists.
Qed.

(** ** Rows *)

Lemma fold_insert_ne l col (m : row) : (col ∉ l.*1) ->
  foldl (fun r '(c, v) => <[c := scan_value v]> r) m l !! col = m !! col.
Proof.
  revert m. induction l as [|[c v] l IH]; intros m Hc; [done|]. cbn in Hc |- *.
  apply not_elem_of_cons in Hc as [? ?]. rewrite IH by done. by rewrite lookup_insert_ne by done.
Qed.

Lemma fold_insert_lookup l i col v (m : row) : NoDup l.*1 -> l !! i = Some (col, v) ->
  foldl (fun r '(c, v) => <[c := scan_value v]> r) m l !! col = Some (scan_value v).
Proof.
  revert i m. induction l as [|[c w] l IH]; intros i m Hnd Hi; [done|].
  cbn in Hnd |- *. apply NoDup_cons in Hnd as [Hc Hnd]. destruct i as [|i]; cbn in Hi; [|by apply (IH i)].
  simplify_eq. rewrite fold_insert_ne by done. apply lookup_insert_eq.
Qed.

(** scanning.  Reading a result succeeds iff the columns, every row and the end of
    the iteration do; then there is one map per row, nil for no rows, that binds each
    of the columns, their names being distinct, to its value, byte strings as
    text and times in RFC 3339. *)
Theorem ScanRows_spec cur columns :
  cur_Columns cur = Ok columns -> NoDup columns ->
  Forall (fun r => forall vs, r = Ok vs -> List.length vs = List.length columns) (cur_Rows cur) ->
  (is_ok (ScanRows cur) = true <-> Forall (fun r => is_ok r = true) (cur_Rows cur) /\ cur_Err cur = None) /\
  forall rows, ScanRows cur = Ok rows ->
    List.length (default [] rows) = List.length (cur_Rows cur) /\
    forall i j vs col v, cur_Rows cur !! i = Some (Ok vs) -> columns !! j = Some col -> vs !! j = Some v ->
      exists r, default [] rows !! i = Some r /\ r !! col = Some (scan_value v).
Proof.
  intros Hc Hnd Hlen.
  assert (forall l, is_ok (scan_rows columns l) = true <-> Forall (fun r => is_ok r = true) l) as Hok.
  { induction l as [|[vs|e] l IH]; cbn [scan_rows].
    - split; [constructor|done].
    - rewrite Forall_cons, <- IH. destruct (scan_rows columns l); cbn; tauto.
    - rewrite Forall_cons. cbn. split; [done|]. intros [? _]. done. }
  unfold ScanRows. rewrite Hc. split.
  - rewrite <- Hok. destruct (scan_rows columns (cur_Rows cur)) as [rs|]; cbn; [|naive_solver].
    destruct (cur_Err cur); cbn; naive_solver.
  - intros rows. destruct (scan_rows columns (cur_Rows cur)) as [rs|e] eqn:Es; cbn; [|done].
    destruct (cur_Err cur); [done|]. intros <-%Ok_inj.
    assert (default [] (match rs with [] => None | _ => Some rs end) = rs) as -> by by destruct rs.
    clear Hok Hc. revert rs Es. induction (cur_Rows cur) as [|[vs|e] l IH]; cbn [scan_rows]; intros rs Es; [by simplify_eq|..|done].
    apply Forall_cons in Hlen as [Hv Hlen]. specialize (Hv vs eq_refl).
    destruct (scan_rows columns l) as [rest|] eqn:El; [|done]. cbn in Es. apply Ok_inj in Es as <-.
    destruct (IH Hlen rest eq_refl) as [Hl Hi]. split; [cbn; by rewrite Hl|].
    intros [|i] j vs' col v E1 E2 E3; cbn in E1; [|by apply (Hi i j vs')]. simplify_eq.
    eexists. split; [done|]. apply (fold_insert_lookup _ j); [by rewrite fst_zip by lia|].
    apply lookup_zip_with_Some. by exists col, v.
Qed.

(** Parsing JSON columns: each listed column that holds a non-empty string is replaced
    by the value the string encodes, once, and nothing else changes. *)
Lemma parse_columns_spec cols r r' c : NoDup cols -> parse_columns cols r = Ok r' ->
  if decide (c ∈ cols) then
    match r !! c with
    | Some (AStr s) => if decide (s = "") then r' !! c = r !! c
                       else exists v, json_Unmarshal s = Ok v /\ r' !! c = Some v
    | o => r' !! c = o
    end
  else r' !! c = r !! c.
Proof.
  intros Hnd. revert r. induction Hnd as [|col cols Hn Hnd IH]; intros r; [by intros <-%Ok_inj|].
  cbn [parse_columns]. intros E.
  assert (forall r1, parse_columns cols r1 = Ok r' -> (forall c', c' <> col -> r1 !! c' = r !! c') ->
    if decide (c = col) then r' !! col = r1 !! col
    else if decide (c ∈ cols) then
      match r !! c with
      | Some (AStr s) => if decide (s = "") then r' !! c = r !! c
                         else exists v, json_Unmarshal s = Ok v /\ r' !! c = Some v
      | o => r' !! c = o
      end
    else r' !! c = r !! c) as Hstep.
  { intros r1 E1 Hr1. specialize (IH r1 E1). destruct (decide (c = col)) as [->|Hne].
    - by rewrite decide_False in IH by done.
    - rewrite Hr1 in IH by done. done. }
  destruct (decide (c ∈ col :: cols)) as [Hin|Hin]; rewrite elem_of_cons in Hin.
  2:{ assert (c <> col /\ c ∉ cols) as [? ?] by tauto.
      destruct (r !! col) as [[]|]; try (specialize (Hstep _ E ltac:(done)); by rewrite !decide_False in Hstep by done).
      destruct (decide (s = "")); [specialize (Hstep _ E ltac:(done)); by rewrite !decide_False in Hstep by done|].
      destruct (json_Unmarshal s) as [v|]; [|done].
      specialize (Hstep _ E ltac:(intros; by rewrite lookup_insert_ne by done)). by rewrite !decide_False in Hstep by done. }
  destruct (decide (c = col)) as [->|Hne].
  - destruct (r !! col) as [[]|] eqn:Ec; try (specialize (Hstep _ E ltac:(done)); by rewrite Ec in Hstep).
    destruct (decide (s = "")); [specialize (Hstep _ E ltac:(done)); by rewrite Ec in Hstep|].
    destruct (json_Unmarshal s) as [v|]; [|done]. exists v. split; [done|].
    specialize (Hstep _ E ltac:(intros; by rewrite lookup_insert_ne by done)). by rewrite lookup_insert_eq in Hstep.
  - destruct Hin as [|Hin]; [done|]. rewrite decide_True in Hstep by done.
    destruct (r !! col) as [[]|]; try (by apply (Hstep _ E)).
    destruct (decide (s = "")); [by apply (Hstep _ E)|]. destruct (json_Unmarshal s) as [v|]; [|done].
    apply (Hstep _ E). intros. by rewrite lookup_insert_ne by done.
Qed.
End Effects.

Abbreviation DSt := (Traced _ event).

Module Sample.
#[local] Existing Instance sample_tables.
#[local] Existing Instance sample_walk.
#[local] Instance sample_format : MySQLFormat := {| FormatDSN := my_Addr |}.
#[local] Instance sample_json : GoText.
Proof.
  refine {| json_Unmarshal := fun s => Ok (AStr s); json_Marshal := fun _ => Ok "";
    json_DecodeObject := sample_Decode; ParseForm := sample_ParseForm (fun _ => ∅);
    time_Parse := fun _ _ => Ok 0; Sprint_v := fun _ => "" |}; [by left|by right].
Defined.

Definition one_row : Cursor :=
  {| cur_Columns := Ok ["id"; "name"]; cur_Rows := [Ok [DInt64 7; DBytes "alice"]]; cur_Err := None |}.

Definition refused : error := Errorf "connection refused".

(** A database server that is up or down; opening a pool does not dial. *)
#[local] Instance server : SqlDB bool := {|
  pool := Z; pool_eq_dec := Z.eq_dec; conn := Z;
  sql_Open := fun (_ _ : string) (up : bool) => (Ok 1, up);
  pool_Set := fun _ _ up => up;
  pool_Ping := fun _ up => (if up then None else Some refused, up);
  pool_Close := fun _ up => (None, up);
  pool_Exec := fun _ _ up => (if up then None else Some refused, up);
  pool_Stats := fun _ up => ((1, 1)%Z, up);
  pool_Conn := fun _ up => (if up then Ok 5 else Err refused, up);
  conn_Exec := fun _ _ _ up => (Ok 1, up);
  conn_Query := fun _ _ _ up => (Ok one_row, up);
  rows_Close := fun _ up => up;
  conn_Close := fun _ up => up;
  time_RFC3339 := fun _ => "2024-01-01T00:00:00Z";
|}.

Definition p1 : pool := 1.
Definition c5 : conn := 5.

Definition config (name type : string) : DatabaseConfig :=
  {| dc_Name := name; dc_Type := type; dc_Host := "db"; dc_Port := 0; dc_User := "app"; dc_Password := "pw";
     dc_Database := "prod"; dc_Path := "/data/app.db"; dc_ReadOnly := None; dc_Encrypt := "";
     dc_Isolation := ""; dc_LockTimeoutMs := None; dc_DeadlockPriority := ""; dc_BusyTimeoutMs := None;
     dc_JournalMode := ""; dc_MaxOpenConns := None; dc_MaxIdleConns := None; dc_ConnMaxLifetime := None;
     dc_ConnMaxIdleTime := None |}.

Definition driver : Driver :=
  MySQLDriver {| d_conn := Some p1; d_source := "db:3306"; d_cfg := config "main" "mysql"; d_readOnly := true |}.

Definition options : QueryOptions :=
  {| qo_Isolation := ""; qo_LockTimeoutMs := None; qo_DeadlockPriority := ""; qo_JSONColumns := [];
     qo_IsWrite := Some false; qo_HasReturning := Some false |}.

Definition start (up : bool) : DSt := {| ds_world := up; ds_log := [] |}.

Definition select : string := "SELECT id, name FROM users WHERE id = @id".

Definition run := Query driver (adapter_session options) select {["id" := AInt 7]} (adapter_hints options) (start true).

Lemma Query_follows_protocol_witness :
  exists t, ds_log run.2 = [] ++ t /\
    query_protocol p1 (MySQL_configureSession true (adapter_session options))
      "SELECT id, name FROM users WHERE id = ?" [Positional (AInt 7)] false (Some false) run.1 t.
Proof.
  exact (Query_follows_protocol driver p1 (adapter_session options) select {["id" := AInt 7]}
           (adapter_hints options) (start true) eq_refl).
Defined.

(** The trace of the run, and the session statements among it. *)
Definition session_part : list event :=
  [EConn p1 (Ok c5);
   EExec c5 "SET SESSION TRANSACTION ISOLATION LEVEL READ COMMITTED" [] (Ok 1);
   EExec c5 "SET SESSION innodb_lock_wait_timeout = 5" [] (Ok 1);
   EExec c5 read_only_statement [] (Ok 1)].

Definition query_event : event :=
  EQuery c5 "SELECT id, name FROM users WHERE id = ?" [Positional (AInt 7)] (Ok one_row).

Lemma statements_guarded_witness :
  ds_log run.2 = session_part ++ query_event :: [ERowsClose one_row; EConnClose c5] /\
  exists n, EExec c5 read_only_statement [] (Ok n) ∈ session_part.
Proof.
  split; [reflexivity|].
  refine (proj2 (statements_guarded driver p1 (adapter_session options) select {["id" := AInt 7]}
           (adapter_hints options) (start true)
           (session_part ++ query_event :: [ERowsClose one_row; EConnClose c5])
           session_part query_event [ERowsClose one_row; EConnClose c5] c5
           eq_refl _ eq_refl eq_refl) _ eq_refl eq_refl).
  reflexivity.
Defined.

Lemma NewManager_pools_witness :
  exists x t, (NewManager [config "main" "mysql"; config "local" "sqlite"] (start true)).1 = Some x /\
    ds_log (NewManager [config "main" "mysql"; config "local" "sqlite"] (start true)).2 = [] ++ t /\
    (forall m, x = Ok m -> all_connected m /\ dom m = list_to_set ["main"; "local"]) /\
    (forall p, balance p t = manager_balance p x).
Proof.
  apply (NewManager_pools [config "main" "mysql"; config "local" "sqlite"] (start true)).
  repeat constructor; set_solver.
Defined.

Lemma dbAdapter_answers_witness :
  exists r, (dbAdapter {["main" := driver]} "other" select ∅ options (start true)).1 = Some r /\
    (({["main" := driver]} : gmap string Driver) !! "other" = None -> r = Err (unknown_connection "other") /\
       (dbAdapter {["main" := driver]} "other" select ∅ options (start true)).2 = start true).
Proof.
  apply (dbAdapter_answers {["main" := driver]} "other" select ∅ options false (start true)); [|reflexivity].
  intros k d [<- <-]%lookup_singleton_Some. by eexists.
Defined.

Lemma ScanRows_spec_witness :
  ScanRows one_row = Ok (Some [<["name" := AStr "alice"]> {["id" := AInt64 7]}]) /\
  (is_ok (ScanRows one_row) = true <->
     Forall (fun r => is_ok r = true) (cur_Rows one_row) /\ cur_Err one_row = None).
Proof.
  split; [reflexivity|].
  apply (ScanRows_spec one_row ["id"; "name"]); [reflexivity|repeat constructor; set_solver|].
  repeat constructor. by intros vs <-%Ok_inj.
Defined.

(** Two columns of the same name: only the last is in the row. *)
Example column_overwritten :
  scan_row ["id"; "id"] [DInt64 1; DInt64 2] = {["id" := AInt64 2]}.
Proof. by vm_compute. Qed.

Definition panicked {A} (r : option A * Traced bool event) : bool := match r.1 with None => true | Some _ => false end.

(** The database goes down, Reconnect fails, the next ping of the manager panics, and
    so does closing it. *)
Example ping_after_failed_reconnect :
  match Manager_Reconnect {["main" := driver]} "main" (start false) with
  | (Some (Some e, m), s) => (Error e, panicked (Manager_Ping m s), panicked (Manager_Close m s))
  | _ => ("", false, false)
  end = ("failed to ping mysql database: connection refused", true, true).
Proof. by vm_compute. Qed.

(** Two databases of the same name: the pool of the first is never closed. *)
Example duplicate_name_leaks :
  match NewManager [config "main" "mysql"; config "main" "sqlite"] (start true) with
  | (Some (Ok m), s) => (balance p1 (ds_log s), map_sum (holds p1) m)
  | _ => (0, 0)
  end = (2, 1).
Proof. by vm_compute. Qed.

(** A step without a lock timeout runs on SQL Server with [SET LOCK_TIMEOUT 0], that
    is without waiting for any lock; the documented default is five seconds, and the
    isolation is not that of DefaultSessionConfig either. *)
Example session_defaults_unused :
  adapter_session options = {| se_Isolation := ""; se_LockTimeoutMs := 0; se_DeadlockPriority := "" |} /\
  DefaultSessionConfig (config "main" "sqlserver") =
    {| se_Isolation := "read_uncommitted"; se_LockTimeoutMs := 5000; se_DeadlockPriority := "low" |} /\
  Contains (concat "" (SQLServer_configureSession (adapter_session options)).*1) "SET LOCK_TIMEOUT 0;" = true /\
  Contains (concat "" (SQLServer_configureSession (adapter_session options)).*1)
    "ISOLATION LEVEL READ COMMITTED;" = true.
Proof. by vm_compute. Qed.
End Sample.
