(* ===== verification/Pools.v ===== *)
(** * internal/db: where pools come from

    The drivers open pools when the manager is made and when one of them reconnects.
    Here is which database a pool was opened for, what is sent over it when it is, and
    that the drivers of a manager keep to the pools of their own databases. *)
From S2P Require Import Prelude GoStrings GoValues Trace Patterns SqlUtil WfConfig RateLimit SqlParams Compile Executor DbText Db.

Section Pools.
Context {W : Type} {DB : SqlDB W} `{UnicodeTables, MySQLFormat, MapWalk}.

Abbreviation X := (M (Traced W event)).
Abbreviation Manager := (gmap string (Driver (W := W))).

(** A statement sent over a connection: connection, text, arguments. *)
Definition statement_of (ev : event) : option (conn * string * list arg) :=
  match ev with EExec c q args _ | EQuery c q args _ => Some (c, q, args) | _ => None end.

(** What [sql.Open] is given for a database, and what is sent over a new pool. *)
Definition data_source (db : DatabaseConfig) : result string :=
  if decide (dc_Type db = "sqlite") then buildSQLiteDSN (dc_Path db) (IsReadOnly db)
  else Ok (if decide (dc_Type db = "mysql") then buildMySQLDSN db else buildSQLServerConnStr db).

Definition initial_statements (db : DatabaseConfig) : session :=
  if decide (dc_Type db = "sqlite") then SQLite_applyInitialPragmas db else [].

(** The pool was opened for that database. *)
Definition opened_for (db : DatabaseConfig) (p : pool) (t : list event) : Prop :=
  exists dsn, data_source db = Ok dsn /\ EOpen (dc_Type db) dsn (Ok p) ∈ t.

Lemma opened_for_incl db p t t' : opened_for db p t -> (forall ev, ev ∈ t -> ev ∈ t') -> opened_for db p t'.
Proof. intros (dsn & Hd & Hin) Ht. exists dsn. auto. Qed.

(** The driver of a database, with any pool or none. *)
Definition driver_of (db : DatabaseConfig) (d : Driver) : Prop :=
  d_cfg (fields d) = db /\ d_readOnly (fields d) = IsReadOnly db /\ Type_ d = dc_Type db /\
  d_source (fields d) = match d with
                        | SQLServerDriver _ => buildSQLServerConnStr db
                        | SQLiteDriver _ => dc_Path db
                        | MySQLDriver _ => buildMySQLDSN db
                        end.

(** ** Opening *)

(** An event that opening a pool for a database can cause, within [t]. *)
Definition from_opening (db : DatabaseConfig) (t : list event) (ev : event) : Prop :=
  statement_of ev = None /\
  forall p q e, ev = EPoolExec p q e -> opened_for db p t /\ exists wrap, (q, wrap) ∈ initial_statements db.

Definition origin (db : DatabaseConfig) (r : option (result pool)) (t : list event) : Prop :=
  Forall (from_opening db t) t /\ forall p, r = Some (Ok p) -> opened_for db p t.

Lemma from_opening_other db t ev : statement_of ev = None -> (forall p q e, ev <> EPoolExec p q e) -> from_opening db t ev.
Proof. intros Hs Hne. split; [done|]. intros p q e E. by destruct (Hne p q e). Qed.

Lemma from_opening_incl db t t' ev : from_opening db t ev -> (forall ev, ev ∈ t -> ev ∈ t') -> from_opening db t' ev.
Proof.
  intros [Hs Hp] Ht. split; [done|]. intros p q e E. destruct (Hp p q e E) as [Ho Hw].
  split; [by eapply opened_for_incl|done].
Qed.

Lemma from_openings_app db t1 t2 : Forall (from_opening db t1) t1 -> Forall (from_opening db t2) t2 ->
  Forall (from_opening db (t1 ++ t2)) (t1 ++ t2).
Proof.
  intros Ht1 Ht2. apply Forall_app. split; (eapply Forall_impl; [eassumption|]); intros ev Hev;
    (eapply from_opening_incl; [exact Hev|]); intros ev'; rewrite elem_of_app; auto.
Qed.

Lemma pool_statements_origin p l : emits (pool_statements p l) (fun r t => is_Some r /\
  Forall (fun ev => exists q wrap e, ev = EPoolExec p q e /\ (q, wrap) ∈ l) t).
Proof.
  induction l as [|[q wrap] l IH]; cbn [pool_statements]; [by apply emits_ret|].
  apply emits_bind, emits_ask. intros [e|].
  - apply emits_ret. split; [by eexists|]. repeat constructor. eexists _, _, _. split; [done|left].
  - eapply emits_weaken; [exact IH|]. intros r t [? Ht]. split; [done|].
    constructor; [eexists _, _, _; split; [done|left]|]. eapply Forall_impl; [exact Ht|].
    intros ev (q' & w' & e & -> & Hin). eexists _, _, _. split; [done|by right].
Qed.

Lemma open_pool_origin db dsn m1 m2 settings : data_source db = Ok dsn ->
  emits (open_pool (dc_Type db) dsn m1 m2 settings (initial_statements db)) (origin db).
Proof.
  intros Hd. unfold open_pool. apply emits_bind, emits_ask. intros [p|e].
  2:{ apply emits_ret. split; [|done]. constructor; [by apply from_opening_other|constructor]. }
  assert (forall t, EOpen (dc_Type db) dsn (Ok p) ∈ t -> opened_for db p t) as Ho by (intros t Hin; by exists dsn).
  unfold tell at 1. apply emits_bind, emits_ask. intros [].
  eapply emits_seq; [apply pool_statements_origin|by intros t [[] _]|]. intros o t [_ Ht]. cbn [app].
  assert (forall post, Forall (fun ev => statement_of ev = None /\ forall p q e, ev <> EPoolExec p q e) post ->
    Forall (from_opening db (EOpen (dc_Type db) dsn (Ok p) :: ESet p settings :: t ++ post))
      (EOpen (dc_Type db) dsn (Ok p) :: ESet p settings :: t ++ post)) as Hall.
  { intros post Hpost. do 2 (apply Forall_cons; split; [by apply from_opening_other|]). apply Forall_app. split.
    - eapply Forall_impl; [exact Ht|]. intros ev (q & wrap & e & -> & Hin). split; [done|]. intros p' q' e' [= <- <- <-].
      split; [apply Ho; left|by exists wrap].
    - eapply Forall_impl; [exact Hpost|]. intros ev [Hs Hne]. by apply from_opening_other. }
  destruct o as [e|].
  - unfold discard, tell. apply emits_bind, emits_ask. intros []. apply emits_ret. split; [|done].
    apply (Hall [EClose p]). by apply Forall_singleton.
  - apply emits_bind, emits_ask. intros [e|].
    + unfold discard, tell. apply emits_bind, emits_ask. intros []. apply emits_ret. split; [|done].
      apply (Hall [EPing p (Some e); EClose p]). apply (Forall_cons_2 _ (EPing p (Some e)) [EClose p]); [done|by apply Forall_singleton].
    + apply emits_ret. split; [apply (Hall [EPing p None]); by apply Forall_singleton|]. intros p' [= <-]. apply Ho. left.
Qed.

(** Opening the pool of a database, as [NewDriver] and [Reconnect] do. *)
Lemma opening_origin db d : driver_of db d -> emits (match d with
    | SQLServerDriver f => open_sqlserver (buildSQLServerConnStr db) db
    | SQLiteDriver f => open_sqlite (dc_Path db) (IsReadOnly db) db
    | MySQLDriver f => open_mysql (buildMySQLDSN db) db
    end) (origin db).
Proof.
  intros (_ & _ & Ht & _). unfold open_sqlserver, open_sqlite, open_mysql. destruct d as [f|f|f]; cbn [Type_] in Ht.
  - pose proof (open_pool_origin db (buildSQLServerConnStr db) "failed to open database connection: " "failed to ping database: "
      (configureSQLServerPool db)) as Ho. unfold data_source, initial_statements in Ho. rewrite <- Ht in *. by apply Ho.
  - destruct (buildSQLiteDSN _ _) as [dsn|e] eqn:Ed; [|apply emits_ret; by split].
    pose proof (open_pool_origin db dsn "failed to open sqlite database: " "failed to ping sqlite database: "
      (configureSQLitePool db)) as Ho. unfold data_source, initial_statements in Ho. rewrite <- Ht in *. by apply Ho.
  - pose proof (open_pool_origin db (buildMySQLDSN db) "failed to open mysql database: " "failed to ping mysql database: "
      (configureMySQLPool db)) as Ho. unfold data_source, initial_statements in Ho. rewrite <- Ht in *. by apply Ho.
Qed.

(** A driver that keeps to the pools opened for its database. *)
Definition keeps_to (db : DatabaseConfig) (t : list event) (d : Driver) : Prop :=
  driver_of db d /\ forall p, d_conn (fields d) = Some p -> opened_for db p t.

Lemma keeps_to_incl db t t' d : keeps_to db t d -> (forall ev, ev ∈ t -> ev ∈ t') -> keeps_to db t' d.
Proof. intros [Hd Hp] Ht. split; [done|]. intros p E. eapply opened_for_incl; [by apply Hp|done]. Qed.

Lemma NewDriver_origin cfg : emits (NewDriver cfg) (fun r t => Forall (from_opening cfg t) t /\
  forall d, r = Some (Ok d) -> keeps_to cfg t d).
Proof.
  assert (forall mk source (m : X (result pool)),
    (forall p, driver_of cfg (mk {| d_conn := p; d_source := source; d_cfg := cfg; d_readOnly := IsReadOnly cfg |})) ->
    (forall f, fields (mk f) = f) -> emits m (origin cfg) ->
    emits (let* r := m in ret (on_pool mk source cfg r)) (fun r t => Forall (from_opening cfg t) t /\
      forall d, r = Some (Ok d) -> keeps_to cfg t d)) as Hnew.
  { intros mk source m Hof Hf Hm. eapply emits_seq; [exact Hm|by intros t [? _]; split|]. intros r t [Ht Ho]. apply emits_ret.
    rewrite app_nil_r. split; [done|]. intros d [= Hd]. destruct r as [p|e]; [|done]. cbn in Hd. injection Hd as <-.
    split; [apply Hof|]. intros p'. rewrite Hf. cbn. intros [= <-]. by apply Ho. }
  unfold NewDriver, NewSQLServerDriver, NewSQLiteDriver, NewMySQLDriver. set (f := {| d_conn := None; d_source := "";
    d_cfg := cfg; d_readOnly := IsReadOnly cfg |} : DriverFields (W := W)).
  repeat case_decide; [| | |apply emits_ret; by split..].
  - apply (Hnew SQLServerDriver); [by intros p; split_and!|done|].
    apply (opening_origin cfg (SQLServerDriver {| d_conn := None; d_source := buildSQLServerConnStr cfg; d_cfg := cfg; d_readOnly := IsReadOnly cfg |})).
    by split_and!.
  - apply (Hnew SQLiteDriver); [by intros p; split_and!|done|].
    apply (opening_origin cfg (SQLiteDriver {| d_conn := None; d_source := dc_Path cfg; d_cfg := cfg; d_readOnly := IsReadOnly cfg |})).
    by split_and!.
  - apply (Hnew MySQLDriver); [by intros p; split_and!|done|].
    apply (opening_origin cfg (MySQLDriver {| d_conn := None; d_source := buildMySQLDSN cfg; d_cfg := cfg; d_readOnly := IsReadOnly cfg |})).
    by split_and!.
Qed.

Lemma drop_conn_origin db f : emits (drop_conn f) (fun r t => r = Some tt /\ Forall (from_opening db t) t).
Proof.
  unfold drop_conn, discard, tell. destruct (d_conn f) as [p|]; [|apply emits_ret; by split].
  apply emits_ask. intros []. split; [done|]. constructor; [by apply from_opening_other|constructor].
Qed.

Lemma Reconnect_origin db d : driver_of db d -> emits (Reconnect d) (fun r t => Forall (from_opening db t) t /\
  forall e d', r = Some (e, d') -> keeps_to db t d').
Proof.
  assert (forall mk m f, (forall f, fields (mk f) = f) -> (forall p, driver_of db (mk (with_conn f p))) -> emits m (origin db) ->
    emits (let* r := (let* _ := drop_conn f in let* r := m in ret (reopened f r)) in ret (r.1, mk r.2))
      (fun r t => Forall (from_opening db t) t /\ forall e d', r = Some (e, d') -> keeps_to db t d')) as Hre.
  { intros mk m f Hf Hof Hm. apply emits_bind. eapply emits_seq; [apply (drop_conn_origin db f)|by intros t [? _]|].
    intros [] t [_ Ht]. eapply emits_seq; [exact Hm| |].
    - intros t' [Ht' _]. split; [by apply from_openings_app|done].
    - intros r t' [Ht' Ho]. apply emits_ret, emits_ret. rewrite !app_nil_r. split; [by apply from_openings_app|].
      intros e d' [= _ <-]. destruct r as [p|e']; cbn [reopened snd]; split; try apply Hof; intros p'; rewrite Hf; [|done].
        cbn. intros [= <-]. eapply opened_for_incl; [by apply Ho|]. intros ev. rewrite elem_of_app. auto. }
  intros Hd. pose proof (opening_origin db d Hd) as Ho. destruct Hd as (Hc & Hr & Ht & Hs).
  destruct d as [f|f|f]; cbn [Reconnect fields Type_] in *;
    unfold SQLServer_Reconnect, SQLite_Reconnect, MySQL_Reconnect; rewrite ?Hc, ?Hr, ?Hs; (apply Hre; [done|intros p; unfold driver_of; cbn; by split_and!|exact Ho]).
Qed.

(** ** The manager *)

(** Each driver is that of a configured database of its name, and keeps to its pools. *)
Definition manager_of (dbs : list DatabaseConfig) (t : list event) (m : Manager) : Prop :=
  forall n d, m !! n = Some d -> exists db, db ∈ dbs /\ dc_Name db = n /\ keeps_to db t d.

(** An event that opening or closing the pools of these databases can cause. *)
Definition from_pools (dbs : list DatabaseConfig) (t : list event) (ev : event) : Prop :=
  statement_of ev = None /\
  forall p q e, ev = EPoolExec p q e -> exists db wrap, db ∈ dbs /\ opened_for db p t /\ (q, wrap) ∈ initial_statements db.

Lemma from_opening_pools dbs db t ev : db ∈ dbs -> from_opening db t ev -> from_pools dbs t ev.
Proof. intros Hdb [Hs Hp]. split; [done|]. intros p q e E. destruct (Hp p q e E) as (Ho & wrap & Hw). by exists db, wrap. Qed.

Lemma from_pools_incl dbs t t' ev : from_pools dbs t ev -> (forall ev, ev ∈ t -> ev ∈ t') -> from_pools dbs t' ev.
Proof.
  intros [Hs Hp] Ht. split; [done|]. intros p q e E. destruct (Hp p q e E) as (db & wrap & Hdb & Ho & Hw).
  exists db, wrap. split_and!; [done|by eapply opened_for_incl|done].
Qed.

Lemma from_pools_app dbs t1 t2 : Forall (from_pools dbs t1) t1 -> Forall (from_pools dbs t2) t2 ->
  Forall (from_pools dbs (t1 ++ t2)) (t1 ++ t2).
Proof.
  intros Ht1 Ht2. apply Forall_app. split; (eapply Forall_impl; [eassumption|]); intros ev Hev;
    (eapply from_pools_incl; [exact Hev|]); intros ev'; rewrite elem_of_app; auto.
Qed.

Lemma manager_of_incl dbs t t' m : manager_of dbs t m -> (forall ev, ev ∈ t -> ev ∈ t') -> manager_of dbs t' m.
Proof.
  intros Hm Ht n d Hn. destruct (Hm n d Hn) as (db & Hdb & Hname & Hk). exists db. split_and!; [done|done|by eapply keeps_to_incl].
Qed.

Lemma manager_of_insert dbs t m db d : manager_of dbs t m -> db ∈ dbs -> keeps_to db t d ->
  manager_of dbs t (<[dc_Name db := d]> m).
Proof.
  intros Hm Hdb Hd n d' [[<- <-]|[_ Hn]]%lookup_insert_Some; [by exists db|by apply Hm].
Qed.

Lemma in_left {A} (t t' : list A) ev : ev ∈ t -> ev ∈ t ++ t'.
Proof. rewrite elem_of_app. auto. Qed.

Lemma in_right {A} (t t' : list A) ev : ev ∈ t' -> ev ∈ t ++ t'.
Proof. rewrite elem_of_app. auto. Qed.

Lemma close_all_origin dbs l err : emits (close_all l err) (fun _ t => Forall (from_pools dbs t) t).
Proof.
  revert err. induction l as [|[n d] l IH]; intros err; cbn [close_all]; [by apply emits_ret|].
  assert (forall p, from_pools dbs [EClose p] (EClose p)) as Hp by (by intros p; split).
  eapply (emits_seq _ _ (fun _ t => Forall (from_pools dbs t) t)).
  - unfold Close. destruct (d_conn (fields d)) as [p|]; [|by apply emits_panic]. apply emits_ask. intros o.
    by apply Forall_singleton.
  - done.
  - intros e t Ht. eapply emits_weaken; [apply IH|]. intros r t' Ht'. by apply from_pools_app.
Qed.

Lemma connect_all_origin dbs configs m t0 : configs ⊆ dbs -> manager_of dbs t0 m ->
  emits (connect_all m configs) (fun r t => Forall (from_pools dbs t) t /\
    forall m', r = Some (Ok m') -> manager_of dbs (t0 ++ t) m').
Proof.
  revert m t0. induction configs as [|cfg configs IH]; intros m t0 Hsub Hm; cbn [connect_all].
  { apply emits_ret. split; [done|]. intros m' [= <-]. by rewrite app_nil_r. }
  assert (cfg ∈ dbs) as Hcfg by (apply Hsub; left).
  eapply emits_seq; [apply (NewDriver_origin cfg)| |].
  { intros t [Ht _]. split; [|done]. eapply Forall_impl; [exact Ht|]. intros ev. by apply from_opening_pools. }
  intros r t [Ht Hd]. assert (Forall (from_pools dbs t) t) as Htp.
  { eapply Forall_impl; [exact Ht|]. intros ev. by apply from_opening_pools. }
  destruct r as [d|e].
  - eapply emits_weaken; [apply (IH _ (t0 ++ t))|].
    + intros c Hc. apply Hsub. by right.
    + apply manager_of_insert; [|done|].
      * eapply manager_of_incl; [exact Hm|]. intros ev. apply in_left.
      * eapply keeps_to_incl; [by apply Hd|]. intros ev. apply in_right.
    + intros o t' [Ht' Ho]. split; [by apply from_pools_app|]. intros m' E. rewrite (assoc_L (++)). by apply Ho.
  - unfold Manager_Close. eapply (emits_seq _ _ (fun _ t => Forall (from_pools dbs t) t)).
    + apply (emits_seq _ _ (fun _ t => Forall (from_pools dbs t) t)); [apply close_all_origin|done|]. intros o t' Ht'.
      apply emits_ret. by rewrite app_nil_r.
    + intros t' Ht'. split; [by apply from_pools_app|done].
    + intros o t' Ht'. apply emits_ret. rewrite app_nil_r. split; [by apply from_pools_app|done].
Qed.

Lemma NewManager_origin configs : emits (NewManager configs) (fun r t => Forall (from_pools configs t) t /\
  forall m, r = Some (Ok m) -> manager_of configs t m).
Proof. apply (connect_all_origin configs configs ∅ []); [done|]. by intros n d ?%lookup_empty_Some. Qed.

Lemma Manager_Reconnect_origin dbs m t0 name : manager_of dbs t0 m ->
  emits (Manager_Reconnect m name) (fun r t => Forall (from_pools dbs t) t /\
    forall e m', r = Some (e, m') -> manager_of dbs (t0 ++ t) m').
Proof.
  intros Hm. unfold Manager_Reconnect. destruct (m !! name) as [d|] eqn:Ed.
  2:{ apply emits_ret. split; [done|]. intros e m' [= _ <-]. by rewrite app_nil_r. }
  destruct (Hm _ _ Ed) as (db & Hdb & <- & Hd & _). eapply emits_seq; [by apply Reconnect_origin| |].
  - intros t [Ht _]. split; [|done]. eapply Forall_impl; [exact Ht|]. intros ev. by apply from_opening_pools.
  - intros [e d'] t [Ht Hr]. apply emits_ret. rewrite app_nil_r. split.
    + eapply Forall_impl; [exact Ht|]. intros ev. by apply from_opening_pools.
    + intros e' m' [= _ <-]. apply manager_of_insert; [|done|].
      * eapply manager_of_incl; [exact Hm|]. intros ev. apply in_left.
      * eapply keeps_to_incl; [by eapply Hr|]. intros ev. apply in_right.
Qed.
End Pools.
