(* ===== verification/Metrics.v ===== *)
(** * internal/metrics: the request counters

    [Record] is called by many requests at once.  Its counters are atomics and its
    maximum and minimum are kept by compare-and-swap loops, so the code is a sequence
    of atomic instructions; a run of several calls is any interleaving of theirs.
    The Prometheus library is not modelled: what the code calls on it is entered in a
    list, in order.  Durations are in nanoseconds; floating-point numbers are IEEE
    binary64. *)
From S2P Require Import Prelude GoStrings GoValues Numbers.
From Stdlib Require Import SpecFloat.

(** ** Data *)

Record RequestMetrics := {
  rm_Endpoint : string; rm_QueryName : string; rm_Database : string; rm_Method : string;
  rm_TotalDuration : Z; rm_QueryDuration : Z; rm_RowCount : Z; rm_StatusCode : Z;
  rm_Error : string; rm_ErrorType : string; rm_CacheHit : bool;
}.

Record endpointData := {
  ed_queryName : string;
  ed_requestCount : Z; ed_errorCount : Z; ed_timeoutCount : Z; ed_totalRows : Z;
  ed_totalDuration : Z; ed_totalQueryMs : Z; ed_maxDuration : Z; ed_minDuration : Z;
}.

(** A call on a Prometheus metric with its label values; a histogram observes a
    duration, a gauge is set to a number or to a duration, the row counter adds a number. *)
Inductive prom_op :=
| PInc (metric : string) (labels : list string)
| PAdd (metric : string) (labels : list string) (n : Z)
| PSet (metric : string) (labels : list string) (n : Z)
| PObserve (metric : string) (labels : list string) (duration : Z)
| PSetDuration (metric : string) (labels : list string) (duration : Z).

Record Collector := {
  co_startTime : Z; co_version : string; co_buildTime : string;
  co_totalRequests : Z; co_totalErrors : Z; co_totalTimeouts : Z;
  co_endpoints : gmap string endpointData;
  co_prom : list prom_op;
}.

Definition max_int64 : Z := two63 - 1.

Definition durationUnit : Z := 100.

(** [d.Nanoseconds() / durationUnit] *)
Definition to_units (d : Z) : Z := Z.quot d durationUnit.

Definition statusCodeString (code : Z) : string :=
  if decide (code = 200) then "200" else if decide (code = 400) then "400"
  else if decide (code = 404) then "404" else if decide (code = 405) then "405"
  else if decide (code = 429) then "429" else if decide (code = 500) then "500"
  else if decide (code = 504) then "504"
  else if decide (200 <= code < 300) then "2xx"
  else if decide (400 <= code < 500) then "4xx"
  else if decide (500 <= code) then "5xx"
  else "other".

(** ** Updates *)

Definition set_totals (c : Collector) (requests errors timeouts : Z) : Collector :=
  {| co_startTime := co_startTime c; co_version := co_version c; co_buildTime := co_buildTime c;
     co_totalRequests := requests; co_totalErrors := errors; co_totalTimeouts := timeouts;
     co_endpoints := co_endpoints c; co_prom := co_prom c |}.

Definition set_endpoints (c : Collector) (m : gmap string endpointData) : Collector :=
  {| co_startTime := co_startTime c; co_version := co_version c; co_buildTime := co_buildTime c;
     co_totalRequests := co_totalRequests c; co_totalErrors := co_totalErrors c;
     co_totalTimeouts := co_totalTimeouts c; co_endpoints := m; co_prom := co_prom c |}.

Definition prom (c : Collector) (op : prom_op) : Collector :=
  {| co_startTime := co_startTime c; co_version := co_version c; co_buildTime := co_buildTime c;
     co_totalRequests := co_totalRequests c; co_totalErrors := co_totalErrors c;
     co_totalTimeouts := co_totalTimeouts c; co_endpoints := co_endpoints c;
     co_prom := co_prom c ++ [op] |}.

(** The endpoint's record as the caller got it: a pointer into the map. *)
Definition on_endpoint (c : Collector) (e : string) (f : endpointData -> endpointData) : Collector :=
  set_endpoints c (alter f e (co_endpoints c)).

Definition new_endpoint (queryName : string) : endpointData :=
  {| ed_queryName := queryName; ed_requestCount := 0; ed_errorCount := 0; ed_timeoutCount := 0;
     ed_totalRows := 0; ed_totalDuration := 0; ed_totalQueryMs := 0; ed_maxDuration := 0;
     ed_minDuration := max_int64 |}.

(** The counters of an endpoint that are only ever added to. *)
Inductive counter := CRequests | CErrors | CTimeouts | CRows | CDuration | CQuery.

Definition get_counter (k : counter) (d : endpointData) : Z :=
  match k with
  | CRequests => ed_requestCount d | CErrors => ed_errorCount d | CTimeouts => ed_timeoutCount d
  | CRows => ed_totalRows d | CDuration => ed_totalDuration d | CQuery => ed_totalQueryMs d
  end.

(** [d.counter.Add(n)] *)
Definition add_counter (k : counter) (n : Z) (d : endpointData) : endpointData :=
  let bump k' := match k, k' with
                 | CRequests, CRequests | CErrors, CErrors | CTimeouts, CTimeouts | CRows, CRows
                 | CDuration, CDuration | CQuery, CQuery => i64 (get_counter k' d + n)
                 | _, _ => get_counter k' d
                 end in
  {| ed_queryName := ed_queryName d; ed_requestCount := bump CRequests; ed_errorCount := bump CErrors;
     ed_timeoutCount := bump CTimeouts; ed_totalRows := bump CRows; ed_totalDuration := bump CDuration;
     ed_totalQueryMs := bump CQuery; ed_maxDuration := ed_maxDuration d; ed_minDuration := ed_minDuration d |}.

Definition set_max (n : Z) (d : endpointData) : endpointData :=
  {| ed_queryName := ed_queryName d; ed_requestCount := ed_requestCount d; ed_errorCount := ed_errorCount d;
     ed_timeoutCount := ed_timeoutCount d; ed_totalRows := ed_totalRows d; ed_totalDuration := ed_totalDuration d;
     ed_totalQueryMs := ed_totalQueryMs d; ed_maxDuration := n; ed_minDuration := ed_minDuration d |}.

Definition set_min (n : Z) (d : endpointData) : endpointData :=
  {| ed_queryName := ed_queryName d; ed_requestCount := ed_requestCount d; ed_errorCount := ed_errorCount d;
     ed_timeoutCount := ed_timeoutCount d; ed_totalRows := ed_totalRows d; ed_totalDuration := ed_totalDuration d;
     ed_totalQueryMs := ed_totalQueryMs d; ed_maxDuration := ed_maxDuration d; ed_minDuration := n |}.

(** ** Record as atomic instructions *)

Inductive total := TRequests | TErrors | TTimeouts.

Inductive instr :=
| ITotal (t : total)                               (* c.total....Add(1) *)
| ILookup (e queryName : string)                   (* getOrCreateEndpoint, under the read lock *)
| ICreate (e queryName : string)                   (* getOrCreateEndpoint, under the write lock *)
| IAdd (e : string) (k : counter) (n : Z)
| IMaxLoad (e : string) (d : Z)
| IMaxCAS (e : string) (old d : Z)
| IMinLoad (e : string) (d : Z)
| IMinCAS (e : string) (old d : Z)
| IProm (op : prom_op).

Definition get_total (t : total) (c : Collector) : Z :=
  match t with TRequests => co_totalRequests c | TErrors => co_totalErrors c | TTimeouts => co_totalTimeouts c end.

Definition add_total (t : total) (c : Collector) : Collector :=
  match t with
  | TRequests => set_totals c (i64 (co_totalRequests c + 1)) (co_totalErrors c) (co_totalTimeouts c)
  | TErrors => set_totals c (co_totalRequests c) (i64 (co_totalErrors c + 1)) (co_totalTimeouts c)
  | TTimeouts => set_totals c (co_totalRequests c) (co_totalErrors c) (i64 (co_totalTimeouts c + 1))
  end.

(** The endpoint's maximum and minimum; those of a record that does not exist yet are
    the initial ones. *)
Definition max_of (e : string) (c : Collector) : Z := from_option ed_maxDuration 0 (co_endpoints c !! e).
Definition min_of (e : string) (c : Collector) : Z := from_option ed_minDuration max_int64 (co_endpoints c !! e).

(** One atomic instruction: the collector after it and the instructions it makes its
    caller go on with. *)
Definition exec1 (i : instr) (c : Collector) : Collector * list instr :=
  match i with
  | ITotal t => (add_total t c, [])
  | ILookup e q => (c, if decide (is_Some (co_endpoints c !! e)) then [] else [ICreate e q])
  | ICreate e q => (if decide (is_Some (co_endpoints c !! e)) then c
                    else set_endpoints c (<[e := new_endpoint q]> (co_endpoints c)), [])
  | IAdd e k n => (on_endpoint c e (add_counter k n), [])
  | IMaxLoad e d => (c, if decide (d <= max_of e c) then [] else [IMaxCAS e (max_of e c) d])
  | IMaxCAS e old d => if decide (max_of e c = old) then (on_endpoint c e (set_max d), [])
                       else (c, [IMaxLoad e d])
  | IMinLoad e d => (c, if decide (d >= min_of e c) then [] else [IMinCAS e (min_of e c) d])
  | IMinCAS e old d => if decide (min_of e c = old) then (on_endpoint c e (set_min d), [])
                       else (c, [IMinLoad e d])
  | IProm op => (prom c op, [])
  end.

Definition is_error (m : RequestMetrics) : bool := bool_decide (rm_Error m <> "").
Definition is_timeout (m : RequestMetrics) : bool := bool_decide (rm_StatusCode m = 504).

Definition prom_calls (m : RequestMetrics) : list prom_op :=
  [PInc "requests" [rm_Endpoint m; rm_Method m; statusCodeString (rm_StatusCode m)];
   PObserve "duration" [rm_Endpoint m] (rm_TotalDuration m)] ++
  (if decide (rm_Database m <> "") then
     [PObserve "query_duration" [rm_Endpoint m; rm_Database m] (rm_QueryDuration m)] else []) ++
  [PAdd "rows" [rm_Endpoint m] (rm_RowCount m)] ++
  (if decide (rm_ErrorType m <> "") then [PInc "errors" [rm_Endpoint m; rm_ErrorType m]]
   else if is_error m then [PInc "errors" [rm_Endpoint m; "unknown"]] else []) ++
  (if rm_CacheHit m then [PInc "cache_hits" [rm_Endpoint m]] else []).

(** The instructions of [Record] in the order of the code. *)
Definition record_code (m : RequestMetrics) : list instr :=
  let e := rm_Endpoint m in
  [ITotal TRequests] ++
  (if is_error m then [ITotal TErrors] else []) ++
  (if is_timeout m then [ITotal TTimeouts] else []) ++
  [ILookup e (rm_QueryName m);
   IAdd e CRequests 1; IAdd e CRows (rm_RowCount m);
   IAdd e CDuration (to_units (rm_TotalDuration m)); IAdd e CQuery (to_units (rm_QueryDuration m))] ++
  (if is_error m then [IAdd e CErrors 1] else []) ++
  (if is_timeout m then [IAdd e CTimeouts 1] else []) ++
  [IMaxLoad e (to_units (rm_TotalDuration m)); IMinLoad e (to_units (rm_TotalDuration m))] ++
  (IProm <$> prom_calls m).

(** ** Interleavings

    The callers are the lists of instructions they have still to do. *)
Record State := { s_coll : Collector; s_callers : list (list instr) }.

Inductive step : State -> State -> Prop :=
| step_caller c before i code after c' more : exec1 i c = (c', more) ->
    step {| s_coll := c; s_callers := before ++ (i :: code) :: after |}
         {| s_coll := c'; s_callers := before ++ (more ++ code) :: after |}.

Definition start (c : Collector) (ms : list RequestMetrics) : State :=
  {| s_coll := c; s_callers := record_code <$> ms |}.

Definition finished (s : State) : Prop := Forall (eq []) (s_callers s).

(** One call after the other: a caller that runs alone.  Its swaps do not fail, so
    [exec_all] needs no more steps than twice its instructions. *)
Fixpoint exec_all (fuel : nat) (code : list instr) (c : Collector) : Collector :=
  match fuel, code with
  | S fuel', i :: code' => let '(c', more) := exec1 i c in exec_all fuel' (more ++ code') c'
  | _, _ => c
  end.

Definition Record_ (oc : option Collector) (m : RequestMetrics) : option Collector :=
  (fun c => exec_all (2 * List.length (record_code m)) (record_code m) c) <$> oc.

(** ** The other calls *)

Definition RecordCacheMiss (oc : option Collector) (endpoint : string) : option Collector :=
  (fun c => prom c (PInc "cache_misses" [endpoint])) <$> oc.
Definition RecordRateLimitAllowed (oc : option Collector) (pool : string) : option Collector :=
  (fun c => prom c (PInc "ratelimit_allowed" [pool])) <$> oc.
Definition RecordRateLimitDenied (oc : option Collector) (pool : string) : option Collector :=
  (fun c => prom c (PInc "ratelimit_denied" [pool])) <$> oc.
Definition RecordCronPanic (oc : option Collector) (workflow : string) : option Collector :=
  (fun c => prom c (PInc "cron_panics" [workflow])) <$> oc.
Definition UpdateDBHealth (oc : option Collector) (database : string) (healthy : bool) : option Collector :=
  (fun c => prom c (PSet "db_healthy" [database] (if healthy then 1 else 0))) <$> oc.
Definition UpdateDBPoolStats (oc : option Collector) (database : string) (open idle : Z) : option Collector :=
  (fun c => prom (prom c (PSet "db_connections_open" [database] open))
              (PSet "db_connections_idle" [database] idle)) <$> oc.
Definition UpdateCacheStats (oc : option Collector) (endpoint : string) (sizeBytes keyCount : Z) : option Collector :=
  (fun c => prom (prom c (PSet "cache_size_bytes" [endpoint] sizeBytes))
              (PSet "cache_keys" [endpoint] keyCount)) <$> oc.
Definition UpdateRateLimitBuckets (oc : option Collector) (pool : string) (count : Z) : option Collector :=
  (fun c => prom c (PSet "ratelimit_active_buckets" [pool] count)) <$> oc.

Definition Init (version buildTime : string) (now : Z) : Collector :=
  {| co_startTime := now; co_version := version; co_buildTime := buildTime; co_totalRequests := 0;
     co_totalErrors := 0; co_totalTimeouts := 0; co_endpoints := ∅;
     co_prom := [PSet "info" [version; buildTime] 1] |}.

(** ** Snapshots *)

Definition f64 (z : Z) : spec_float := binary_normalize 53 1024 z 0 false.
Definition f64_mul : spec_float -> spec_float -> spec_float := SFmul 53 1024.
Definition f64_div : spec_float -> spec_float -> spec_float := SFdiv 53 1024.

(** The constant [float64(durationUnit) / 1e6]. *)
Definition unitToMs : spec_float := f64_div (f64 durationUnit) (f64 1000000).

Record EndpointStats := {
  es_Endpoint : string; es_QueryName : string; es_RequestCount : Z; es_ErrorCount : Z;
  es_TimeoutCount : Z; es_TotalRows : Z;
  es_AvgDurationMs : spec_float; es_MaxDurationMs : spec_float; es_MinDurationMs : spec_float;
  es_AvgQueryMs : spec_float;
}.

Definition endpoint_stats (endpoint : string) (d : endpointData) : EndpointStats :=
  let n := ed_requestCount d in
  let avg z := if decide (n > 0) then f64_div (f64_mul (f64 z) unitToMs) (f64 n) else f64 0 in
  {| es_Endpoint := endpoint; es_QueryName := ed_queryName d; es_RequestCount := n;
     es_ErrorCount := ed_errorCount d; es_TimeoutCount := ed_timeoutCount d; es_TotalRows := ed_totalRows d;
     es_AvgDurationMs := avg (ed_totalDuration d);
     es_MaxDurationMs := f64_mul (f64 (ed_maxDuration d)) unitToMs;
     es_MinDurationMs := if decide (n = 0 \/ ed_minDuration d = max_int64) then f64 0
                         else f64_mul (f64 (ed_minDuration d)) unitToMs;
     es_AvgQueryMs := avg (ed_totalQueryMs d) |}.

(** [d.Seconds()] *)
Definition duration_Seconds (d : Z) : spec_float :=
  SFadd 53 1024 (f64 (Z.quot d 1000000000)) (f64_div (f64 (Z.rem d 1000000000)) (f64 1000000000)).

(** The snapshot without the figures of the Go runtime and the snapshots of the cache
    and the limiter, which are taken as they are. *)
Record Snapshot := {
  ss_Timestamp : Z; ss_Version : string; ss_BuildTime : string; ss_UptimeSec : Z;
  ss_TotalRequests : Z; ss_TotalErrors : Z; ss_TotalTimeouts : Z;
  ss_Endpoints : gmap string EndpointStats; ss_DBHealthy : bool;
}.

(** The uptime gauge is set on the way. *)
Definition GetSnapshot `{FloatToInt} (oc : option Collector) (healthy : bool) (now : Z)
    : option Snapshot * option Collector :=
  let up c := time_Sub now (co_startTime c) in
  ((fun c => {| ss_Timestamp := now; ss_Version := co_version c; ss_BuildTime := co_buildTime c;
                ss_UptimeSec := float_to_int (duration_Seconds (up c));
                ss_TotalRequests := co_totalRequests c; ss_TotalErrors := co_totalErrors c;
                ss_TotalTimeouts := co_totalTimeouts c;
                ss_Endpoints := map_imap (fun e d => Some (endpoint_stats e d)) (co_endpoints c);
                ss_DBHealthy := healthy |}) <$> oc,
   (fun c => prom c (PSetDuration "uptime" [] (up c))) <$> oc).

(** ** Accounting

    Along any interleaving the present value of a counter and what the callers have
    still to add make up the same sum. *)

Inductive quantity := QTotal (t : total) | QCounter (e : string) (k : counter).

#[global] Instance counter_eq_dec : EqDecision counter.
Proof. solve_decision. Defined.
#[global] Instance total_eq_dec : EqDecision total.
Proof. solve_decision. Defined.

Definition value (q : quantity) (c : Collector) : Z :=
  match q with
  | QTotal t => get_total t c
  | QCounter e k => from_option (get_counter k) 0 (co_endpoints c !! e)
  end.

(** What an instruction has still to add. *)
Definition owed (q : quantity) (i : instr) : Z :=
  match q, i with
  | QTotal t, ITotal t' => if decide (t' = t) then 1 else 0
  | QCounter e k, IAdd e' k' n => if decide (e' = e /\ k' = k) then n else 0
  | _, _ => 0
  end.

Definition sum (l : list Z) : Z := foldr Z.add 0 l.
Definition owed_by (q : quantity) (code : list instr) : Z := sum (owed q <$> code).
Definition owed_all (q : quantity) (callers : list (list instr)) : Z := sum (owed_by q <$> callers).

Lemma sum_app l1 l2 : sum (l1 ++ l2) = sum l1 + sum l2.
Proof. unfold sum. induction l1 as [|x l1 IH]; simpl; [done|]. rewrite IH. lia. Qed.

(** Two values with the same 64-bit representation. *)
Definition same64 (a b : Z) : Prop := i64 a = i64 b.

(** An endpoint's instruction is preceded by the lookup that makes its record. *)
Definition needs (i : instr) : option string :=
  match i with IAdd e _ _ | IMaxLoad e _ | IMaxCAS e _ _ | IMinLoad e _ | IMinCAS e _ _ => Some e | _ => None end.
Definition makes (i : instr) : option string :=
  match i with ILookup e _ | ICreate e _ => Some e | _ => None end.

(** A swap is only tried for a duration beyond the value that was loaded. *)
Definition swap_ok (i : instr) : Prop :=
  match i with IMaxCAS _ old d => old < d | IMinCAS _ old d => d < old | _ => True end.

Fixpoint ready (known : gset string) (code : list instr) : Prop :=
  match code with
  | [] => True
  | i :: code' =>
    (forall e, needs i = Some e -> e ∈ known) /\ swap_ok i /\
    ready (match makes i with Some e => {[e]} ∪ known | None => known end) code'
  end.

Lemma ready_mono k1 k2 code : k1 ⊆ k2 -> ready k1 code -> ready k2 code.
Proof.
  revert k1 k2. induction code as [|i code IH]; intros k1 k2 Hk; [done|]. intros (Hn & Hs & Hr). split_and!; [|done|].
  - intros e He. by apply Hk, Hn.
  - eapply IH; [|exact Hr]. destruct (makes i); set_solver.
Qed.

Lemma record_code_ready m known : ready known (record_code m).
Proof.
  assert (forall known l, ready known (IProm <$> l)) as Hp.
  { intros k l. induction l as [|op l IH]; simpl; [done|]. by split_and!. }
  unfold record_code. destruct (is_error m), (is_timeout m); cbn -[fmap];
    repeat (split; [by intros ? [= <-]; set_solver|split; [done|]]); apply Hp.
Qed.

Lemma exec1_dom i c c' more : exec1 i c = (c', more) ->
  dom (co_endpoints c) ⊆ dom (co_endpoints c').
Proof.
  destruct i as [t|e q|e q|e k n|e d|e old d|e d|e old d|op]; cbn [exec1]; intros E; simplify_eq; try done.
  - destruct t; done.
  - case_decide; [done|]. cbn. set_solver.
  - unfold on_endpoint. cbn. by rewrite dom_alter.
  - case_decide; simplify_eq; [|done]. unfold on_endpoint. cbn. by rewrite dom_alter.
  - case_decide; simplify_eq; [|done]. unfold on_endpoint. cbn. by rewrite dom_alter.
Qed.

Lemma exec1_ready i c c' more code : exec1 i c = (c', more) ->
  ready (dom (co_endpoints c)) (i :: code) -> ready (dom (co_endpoints c')) (more ++ code).
Proof.
  intros E (Hn & Hs & Hr). pose proof (exec1_dom _ _ _ _ E) as Hd.
  destruct i as [t|e q|e q|e k n|e d|e old d|e d|e old d|op]; cbn [exec1 makes needs] in *;
    try (simplify_eq; by eapply ready_mono).
  - injection E as <- <-. case_decide as He; cbn [app].
    + eapply ready_mono; [|exact Hr]. apply elem_of_dom in He. set_solver.
    + by split_and!.
  - injection E as <- <-. cbn [app]. eapply ready_mono; [|exact Hr].
    case_decide as He; [apply elem_of_dom in He; set_solver|]. cbn. set_solver.
  - injection E as <- <-. case_decide; cbn [app]; [done|]. split_and!; [done|cbn; lia|done].
  - case_decide; simplify_eq; cbn [app]; [by eapply ready_mono|]. by split_and!.
  - injection E as <- <-. case_decide; cbn [app]; [done|]. split_and!; [done|cbn; lia|done].
  - case_decide; simplify_eq; cbn [app]; [by eapply ready_mono|]. by split_and!.
Qed.

(** A view of the collector, and what each instruction will in the end do to it.  If
    the effects commute and an instruction together with what it leaves to do has its
    effect, then no interleaving changes the value the view ends with. *)
Section View.
Context {T : Type} (R : relation T) `{!Equivalence R} (obs : Collector -> T) (act : instr -> T -> T).
Context (act_proper : forall i, Proper (R ==> R) (act i)).
Context (act_comm : forall i j t, R (act i (act j t)) (act j (act i t))).
Context (act_exec : forall i c c' more code, ready (dom (co_endpoints c)) (i :: code) ->
  exec1 i c = (c', more) -> R (foldr act (obs c') more) (act i (obs c))).

Definition outcome (s : State) : T := foldr act (obs (s_coll s)) (List.concat (s_callers s)).

Lemma acts_proper l t t' : R t t' -> R (foldr act t l) (foldr act t' l).
Proof. intros Ht. induction l as [|i l IH]; simpl; [done|]. by apply act_proper. Qed.

Lemma acts_swap i l t : R (foldr act (act i t) l) (act i (foldr act t l)).
Proof. induction l as [|j l IH]; simpl; [done|]. rewrite (act_proper _ _ _ IH). apply act_comm. Qed.

Lemma acts_perm l l' t : l ≡ₚ l' -> R (foldr act t l) (foldr act t l').
Proof.
  induction 1 as [|i l l' _ IH|i j l|l1 l2 l3 _ IH1 _ IH2]; simpl; [done|by apply act_proper|apply act_comm|].
  by etrans.
Qed.

Lemma outcome_step s s' : Forall (ready (dom (co_endpoints (s_coll s)))) (s_callers s) ->
  step s s' -> R (outcome s') (outcome s).
Proof.
  intros Hr Hs. destruct Hs as [c before i code after c' more E]. unfold outcome. cbn [s_coll s_callers] in *.
  apply Forall_app in Hr as [_ [Hi _]%Forall_cons].
  set (rest := List.concat before ++ code ++ List.concat after).
  transitivity (foldr act (obs c') (rest ++ more)).
  { apply acts_perm. rewrite concat_app. cbn [List.concat]. subst rest. solve_Permutation. }
  transitivity (foldr act (obs c) (rest ++ [i])).
  - rewrite !foldr_app. apply acts_proper. cbn [foldr]. by eapply act_exec.
  - apply acts_perm. rewrite concat_app. cbn [List.concat]. subst rest. cbn [app]. solve_Permutation.
Qed.
End View.

Definition all_ready (s : State) : Prop := Forall (ready (dom (co_endpoints (s_coll s)))) (s_callers s).

Lemma step_ready s s' : step s s' -> all_ready s -> all_ready s'.
Proof.
  intros [c before i code after c' more E] Hr. unfold all_ready in *. cbn [s_coll s_callers] in *.
  pose proof (exec1_dom _ _ _ _ E) as Hd.
  apply Forall_app in Hr as [Hb [Hi Ha]%Forall_cons]. apply Forall_app. split; [|constructor].
  - eapply Forall_impl; [exact Hb|]. intros code'. by apply ready_mono.
  - by eapply exec1_ready.
  - eapply Forall_impl; [exact Ha|]. intros code'. by apply ready_mono.
Qed.

Lemma start_ready c ms : all_ready (start c ms).
Proof. apply Forall_fmap, Forall_forall. intros m _. apply record_code_ready. Qed.

Lemma steps_ready s s' : rtc step s s' -> all_ready s -> all_ready s'.
Proof. induction 1; [done|]. intros Hr. by eauto using step_ready. Qed.

Lemma outcome_steps {T} (R : relation T) `{!Equivalence R} obs act
    (act_proper : forall i, Proper (R ==> R) (act i))
    (act_comm : forall i j t, R (act i (act j t)) (act j (act i t)))
    (act_exec : forall i c c' more code, ready (dom (co_endpoints c)) (i :: code) ->
       exec1 i c = (c', more) -> R (foldr act (obs c') more) (act i (obs c))) s s' :
  rtc step s s' -> all_ready s -> R (outcome obs act s') (outcome obs act s).
Proof.
  induction 1 as [|s s1 s' Hs _ IH]; intros Hr; [done|].
  rewrite (IH (step_ready _ _ Hs Hr)). by eapply outcome_step.
Qed.

(** When the callers are done the view shows the effects of all their code. *)
Lemma outcome_finished {T} (R : relation T) `{!Equivalence R} obs act
    (act_proper : forall i, Proper (R ==> R) (act i))
    (act_comm : forall i j t, R (act i (act j t)) (act j (act i t)))
    (act_exec : forall i c c' more code, ready (dom (co_endpoints c)) (i :: code) ->
       exec1 i c = (c', more) -> R (foldr act (obs c') more) (act i (obs c))) c ms s :
  rtc step (start c ms) s -> finished s ->
  R (obs (s_coll s)) (foldr act (obs c) (List.concat (record_code <$> ms))).
Proof.
  intros Hs Hf. pose proof (outcome_steps R obs act act_proper act_comm act_exec _ _ Hs (start_ready c ms)) as H.
  unfold outcome in H. cbn [start s_coll s_callers] in H.
  assert (List.concat (s_callers s) = []) as E; [|by rewrite E in H].
  clear -Hf. unfold finished in Hf. induction Hf as [|l ls <- _ IH]; [done|]. exact IH.
Qed.

(** *** Sums *)

#[global] Instance same64_equiv : Equivalence same64.
Proof. unfold same64. split; congruence. Qed.

Lemma same64_add a b n : same64 a b -> same64 (a + n) (b + n).
Proof. unfold same64. intros E. by rewrite <- i64_add_l, E, i64_add_l. Qed.

Lemma same64_i64 a : same64 (i64 a) a.
Proof. apply i64_small, i64_range. Qed.

Lemma get_add_counter k k' n d :
  get_counter k (add_counter k' n d) = if decide (k' = k) then i64 (get_counter k d + n) else get_counter k d.
Proof. by destruct k, k'. Qed.

Lemma value_on_endpoint e k c f : value (QCounter e k) (on_endpoint c e f) =
  from_option (get_counter k) 0 (f <$> co_endpoints c !! e).
Proof. cbn. by rewrite lookup_alter_eq. Qed.

Lemma value_on_other e e' k c f : e <> e' -> value (QCounter e k) (on_endpoint c e' f) = value (QCounter e k) c.
Proof. intros Hne. cbn. by rewrite lookup_alter_ne. Qed.

Lemma value_same_endpoints q c c' : co_endpoints c' = co_endpoints c ->
  (forall t, get_total t c' = get_total t c) -> value q c' = value q c.
Proof. intros E Et. destruct q as [t|e k]; cbn; [apply Et|by rewrite E]. Qed.

Lemma value_set_max q c e f : (f = set_max \/ f = set_min) -> forall d,
  value q (on_endpoint c e (f d)) = value q c.
Proof.
  intros Hf d. destruct q as [t|e' k]; [by destruct t|].
  destruct (decide (e' = e)) as [->|Hne]; [|by apply value_on_other].
  rewrite value_on_endpoint. cbn. destruct (co_endpoints c !! e) as [x|]; cbn; [|done].
  by destruct Hf as [-> | ->], k.
Qed.

Lemma value_exec q i c c' more code : ready (dom (co_endpoints c)) (i :: code) ->
  exec1 i c = (c', more) -> same64 (value q c' + owed_by q more) (value q c + owed q i).
Proof.
  intros (Hn & _) E. destruct i as [t|e qn|e qn|e k n|e d|e old d|e d|e old d|op]; cbn [exec1] in E.
  - injection E as <- <-. rewrite Z.add_0_r. destruct q as [t'|e k]; [|cbn; by rewrite Z.add_0_r; destruct t].
    cbn [owed value]. destruct t, t'; cbn; rewrite ?Z.add_0_r; try done; apply same64_i64.
  - injection E as <- <-. destruct q; case_decide; done.
  - injection E as <- <-. replace (owed q (ICreate e qn)) with 0 by by destruct q. cbn [owed_by]. rewrite !Z.add_0_r.
    case_decide as He; [done|]. destruct q as [t|e' k]; [by destruct t|]. cbn.
    destruct (decide (e' = e)) as [->|Hne]; [|by rewrite lookup_insert_ne].
    rewrite lookup_insert_eq. apply eq_None_not_Some in He. rewrite He. by destruct k.
  - injection E as <- <-. cbn [owed_by sum fmap list_fmap foldr]. rewrite Z.add_0_r.
    destruct q as [t|e' k']; [cbn; rewrite Z.add_0_r; by destruct t|]. cbn [owed].
    destruct (decide (e = e' /\ k = k')) as [[-> ->]|Hne].
    + rewrite value_on_endpoint. specialize (Hn e' eq_refl). apply elem_of_dom in Hn as [d Hd].
      cbn. rewrite Hd. cbn. rewrite get_add_counter, decide_True by done. apply same64_i64.
    + rewrite Z.add_0_r. destruct (decide (e' = e)) as [->|He]; [|by rewrite value_on_other].
      rewrite value_on_endpoint. cbn. destruct (co_endpoints c !! e) as [d|]; cbn; [|done].
      rewrite get_add_counter, decide_False by naive_solver. done.
  - injection E as <- <-. destruct q; case_decide; done.
  - case_decide; simplify_eq; [rewrite value_set_max by auto|]; by destruct q.
  - injection E as <- <-. destruct q; case_decide; done.
  - case_decide; simplify_eq; [rewrite value_set_max by auto|]; by destruct q.
  - injection E as <- <-. replace (owed q (IProm op)) with 0 by by destruct q. cbn [owed_by]. rewrite !Z.add_0_r.
    destruct q as [t|]; [by destruct t|done].
Qed.

Lemma foldr_owed q base code : foldr (fun i t => t + owed q i) base code = base + owed_by q code.
Proof.
  unfold owed_by, sum. induction code as [|i code IH]; cbn; [lia|]. rewrite IH. lia.
Qed.

(** What one call adds to a quantity. *)
Definition amount (q : quantity) (m : RequestMetrics) : Z :=
  match q with
  | QTotal TRequests => 1
  | QTotal TErrors => if is_error m then 1 else 0
  | QTotal TTimeouts => if is_timeout m then 1 else 0
  | QCounter e k =>
    if decide (rm_Endpoint m = e) then
      match k with
      | CRequests => 1
      | CErrors => if is_error m then 1 else 0
      | CTimeouts => if is_timeout m then 1 else 0
      | CRows => rm_RowCount m
      | CDuration => to_units (rm_TotalDuration m)
      | CQuery => to_units (rm_QueryDuration m)
      end
    else 0
  end.

Lemma owed_prom q l : owed_by q (IProm <$> l) = 0.
Proof. unfold owed_by, sum. induction l as [|op l IH]; [done|]. cbn. rewrite IH. by destruct q. Qed.

Lemma owed_by_app q l1 l2 : owed_by q (l1 ++ l2) = owed_by q l1 + owed_by q l2.
Proof. unfold owed_by. by rewrite fmap_app, sum_app. Qed.

Lemma owed_add e k e' k' n : owed (QCounter e k) (IAdd e' k' n) =
  if decide (e' = e) then if decide (k' = k) then n else 0 else 0.
Proof. cbn. repeat case_decide; naive_solver. Qed.

Lemma owed_record q m : owed_by q (record_code m) = amount q m.
Proof.
  unfold record_code. rewrite !owed_by_app, owed_prom. unfold amount.
  destruct q as [t|e k]; [destruct t; by destruct (is_error m), (is_timeout m)|].
  assert (forall k' n, owed (QCounter e k) (IAdd (rm_Endpoint m) k' n) =
    if decide (rm_Endpoint m = e) then if decide (k' = k) then n else 0 else 0) as Hadd by (intros; apply owed_add).
  unfold owed_by, sum. destruct (is_error m), (is_timeout m); rewrite ?fmap_cons, ?fmap_nil, !Hadd;
    destruct (decide (rm_Endpoint m = e)), k; cbn -[Z.add]; by rewrite ?Z.add_0_r, ?Z.add_0_l.
Qed.

Lemma owed_concat q ms : owed_by q (List.concat (record_code <$> ms)) = sum (amount q <$> ms).
Proof.
  induction ms as [|m ms IH]; [done|]. rewrite !fmap_cons. cbn [List.concat]. by rewrite owed_by_app, owed_record, IH.
Qed.

(** *** Maximum and minimum *)

Definition big_max : Z -> list Z -> Z := foldr Z.max.
Definition big_min : Z -> list Z -> Z := foldr Z.min.

(** The durations an instruction has still to compare. *)
Definition max_act (e : string) (i : instr) (t : Z) : Z :=
  match i with IMaxLoad e' d | IMaxCAS e' _ d => if decide (e' = e) then Z.max d t else t | _ => t end.
Definition min_act (e : string) (i : instr) (t : Z) : Z :=
  match i with IMinLoad e' d | IMinCAS e' _ d => if decide (e' = e) then Z.min d t else t | _ => t end.

(** An update of the record that leaves the field alone leaves the view alone. *)
Lemma max_of_update e e' c f : (forall d, ed_maxDuration (f d) = ed_maxDuration d) ->
  max_of e (on_endpoint c e' f) = max_of e c.
Proof.
  intros Hf. unfold max_of, on_endpoint. cbn. destruct (decide (e = e')) as [->|]; [|by rewrite lookup_alter_ne].
  rewrite lookup_alter_eq. destruct (co_endpoints c !! e'); cbn; [apply Hf|done].
Qed.

Lemma min_of_update e e' c f : (forall d, ed_minDuration (f d) = ed_minDuration d) ->
  min_of e (on_endpoint c e' f) = min_of e c.
Proof.
  intros Hf. unfold min_of, on_endpoint. cbn. destruct (decide (e = e')) as [->|]; [|by rewrite lookup_alter_ne].
  rewrite lookup_alter_eq. destruct (co_endpoints c !! e'); cbn; [apply Hf|done].
Qed.

Lemma created_bounds e e' c q : co_endpoints c !! e' = None ->
  let c' := set_endpoints c (<[e' := new_endpoint q]> (co_endpoints c)) in
  max_of e c' = max_of e c /\ min_of e c' = min_of e c.
Proof.
  intros Hn. unfold max_of, min_of. cbn. destruct (decide (e = e')) as [->|].
  - by rewrite lookup_insert_eq, Hn.
  - by rewrite lookup_insert_ne.
Qed.

Lemma max_exec e i c c' more code : ready (dom (co_endpoints c)) (i :: code) ->
  exec1 i c = (c', more) -> foldr (max_act e) (max_of e c') more = max_act e i (max_of e c).
Proof.
  intros (Hn & Hs & _) E. destruct i as [t|e' q|e' q|e' k n|e' d|e' old d|e' d|e' old d|op]; cbn [exec1] in E.
  - injection E as <- <-. by destruct t.
  - injection E as <- <-. by case_decide.
  - injection E as <- <-. case_decide as He; [done|]. apply eq_None_not_Some in He. by apply created_bounds.
  - injection E as <- <-. by apply max_of_update.
  - injection E as <- <-. cbn [max_act]. destruct (decide (e' = e)) as [->|].
    + destruct (decide (d <= max_of e c)); cbn; [lia|]. by rewrite decide_True.
    + destruct (decide (d <= max_of e' c)); cbn; [done|]. by rewrite decide_False.
  - cbn [max_act]. destruct (decide (max_of e' c = old)) as [<-|]; injection E as <- <-; cbn [foldr max_act]; [|done].
    destruct (decide (e' = e)) as [->|].
    + cbn in Hs. rewrite Z.max_l by lia. specialize (Hn e eq_refl). apply elem_of_dom in Hn as [x Hx].
      unfold max_of, on_endpoint. cbn. by rewrite lookup_alter_eq, Hx.
    + unfold max_of, on_endpoint. cbn. by rewrite lookup_alter_ne by done.
  - injection E as <- <-. by case_decide.
  - destruct (decide (min_of e' c = old)); injection E as <- <-; cbn; [|done]. by apply max_of_update.
  - by injection E as <- <-.
Qed.

Lemma min_exec e i c c' more code : ready (dom (co_endpoints c)) (i :: code) ->
  exec1 i c = (c', more) -> foldr (min_act e) (min_of e c') more = min_act e i (min_of e c).
Proof.
  intros (Hn & Hs & _) E. destruct i as [t|e' q|e' q|e' k n|e' d|e' old d|e' d|e' old d|op]; cbn [exec1] in E.
  - injection E as <- <-. by destruct t.
  - injection E as <- <-. by case_decide.
  - injection E as <- <-. case_decide as He; [done|]. apply eq_None_not_Some in He. by apply created_bounds.
  - injection E as <- <-. by apply min_of_update.
  - injection E as <- <-. by case_decide.
  - destruct (decide (max_of e' c = old)); injection E as <- <-; cbn; [|done]. by apply min_of_update.
  - injection E as <- <-. cbn [min_act]. destruct (decide (e' = e)) as [->|].
    + destruct (decide (d >= min_of e c)); cbn; [lia|]. by rewrite decide_True.
    + destruct (decide (d >= min_of e' c)); cbn; [done|]. by rewrite decide_False.
  - cbn [min_act]. destruct (decide (min_of e' c = old)) as [<-|]; injection E as <- <-; cbn [foldr min_act]; [|done].
    destruct (decide (e' = e)) as [->|].
    + cbn in Hs. rewrite Z.min_l by lia. specialize (Hn e eq_refl). apply elem_of_dom in Hn as [x Hx].
      unfold min_of, on_endpoint. cbn. by rewrite lookup_alter_eq, Hx.
    + unfold min_of, on_endpoint. cbn. by rewrite lookup_alter_ne by done.
  - by injection E as <- <-.
Qed.

(** The durations recorded for an endpoint. *)
Definition durations (e : string) (ms : list RequestMetrics) : list Z :=
  (fun m => to_units (rm_TotalDuration m)) <$> filter (fun m => rm_Endpoint m = e) ms.

Lemma foldr_id {T} (act : instr -> T -> T) code t : Forall (fun i => forall t, act i t = t) code -> foldr act t code = t.
Proof. induction 1 as [|i code Hi _ IH]; [done|]. cbn. by rewrite Hi. Qed.

Lemma max_record e m t : foldr (max_act e) t (record_code m) =
  if decide (rm_Endpoint m = e) then Z.max (to_units (rm_TotalDuration m)) t else t.
Proof.
  unfold record_code. rewrite !foldr_app.
  rewrite (foldr_id (max_act e) (IProm <$> _)) by (apply Forall_fmap, Forall_true; done).
  by destruct (is_error m), (is_timeout m).
Qed.

Lemma min_record e m t : foldr (min_act e) t (record_code m) =
  if decide (rm_Endpoint m = e) then Z.min (to_units (rm_TotalDuration m)) t else t.
Proof.
  unfold record_code. rewrite !foldr_app.
  rewrite (foldr_id (min_act e) (IProm <$> _)) by (apply Forall_fmap, Forall_true; done).
  by destruct (is_error m), (is_timeout m).
Qed.

Lemma max_concat e ms t : foldr (max_act e) t (List.concat (record_code <$> ms)) = big_max t (durations e ms).
Proof.
  induction ms as [|m ms IH]; [done|]. rewrite fmap_cons. cbn [List.concat]. rewrite foldr_app, IH, max_record.
  unfold durations. rewrite filter_cons. by case_decide.
Qed.

Lemma min_concat e ms t : foldr (min_act e) t (List.concat (record_code <$> ms)) = big_min t (durations e ms).
Proof.
  induction ms as [|m ms IH]; [done|]. rewrite fmap_cons. cbn [List.concat]. rewrite foldr_app, IH, min_record.
  unfold durations. rewrite filter_cons. by case_decide.
Qed.

(** *** Prometheus calls and endpoints *)

Definition prom_act (i : instr) (t : list prom_op) : list prom_op :=
  match i with IProm op => t ++ [op] | _ => t end.

Definition dom_act (i : instr) (t : gset string) : gset string :=
  match makes i with Some e => {[e]} ∪ t | None => t end.

Lemma prom_exec i c c' more code : ready (dom (co_endpoints c)) (i :: code) ->
  exec1 i c = (c', more) -> foldr prom_act (co_prom c') more ≡ₚ prom_act i (co_prom c).
Proof.
  intros _ E. destruct i as [t|e q|e q|e k n|e d|e old d|e d|e old d|op]; cbn [exec1] in E;
    repeat case_decide; simplify_eq; try done; by destruct t.
Qed.

Lemma dom_exec i c c' more code : ready (dom (co_endpoints c)) (i :: code) ->
  exec1 i c = (c', more) -> foldr dom_act (dom (co_endpoints c')) more = dom_act i (dom (co_endpoints c)).
Proof.
  intros _ E. unfold dom_act.
  destruct i as [t|e q|e q|e k n|e d|e old d|e d|e old d|op]; cbn [exec1 makes] in E |- *.
  1: injection E as <- <-; by destruct t.
  1,2: injection E as <- <-; case_decide as He; cbn; rewrite ?dom_insert_L; try done;
    apply elem_of_dom in He; set_solver.
  all: repeat case_decide; simplify_eq; unfold on_endpoint; cbn; by rewrite ?dom_alter_L.
Qed.

Lemma prom_record m t : foldr prom_act t (record_code m) ≡ₚ t ++ prom_calls m.
Proof.
  unfold record_code. rewrite !foldr_app.
  assert (forall l t, foldr prom_act t (IProm <$> l) ≡ₚ t ++ l) as Hl.
  { induction l as [|op l IH]; intros t'; cbn; [by rewrite app_nil_r|].
    change (foldr prom_act t' (list_fmap _ _ IProm l)) with (foldr prom_act t' (IProm <$> l)).
    rewrite IH. solve_Permutation. }
  rewrite <- Hl. by destruct (is_error m), (is_timeout m).
Qed.

Lemma prom_concat ms t : foldr prom_act t (List.concat (record_code <$> ms)) ≡ₚ t ++ List.concat (prom_calls <$> ms).
Proof.
  induction ms as [|m ms IH]; [by cbn; rewrite app_nil_r|]. rewrite !fmap_cons. cbn [List.concat].
  rewrite foldr_app, prom_record, IH. solve_Permutation.
Qed.

Lemma dom_concat ms t : foldr dom_act t (List.concat (record_code <$> ms)) =
  t ∪ list_to_set (rm_Endpoint <$> ms).
Proof.
  assert (forall m t, foldr dom_act t (record_code m) = {[rm_Endpoint m]} ∪ t) as Hm.
  { intros m t'. unfold record_code. rewrite !foldr_app.
    rewrite (foldr_id dom_act (IProm <$> _)) by (apply Forall_fmap, Forall_true; done).
    by destruct (is_error m), (is_timeout m). }
  induction ms as [|m ms IH]; [cbn; set_solver|]. rewrite !fmap_cons. cbn [List.concat list_to_set].
  rewrite foldr_app, IH, Hm. set_solver.
Qed.

(** *** Ranges *)

Definition ranged (c : Collector) : Prop := forall q, - two63 <= value q c < two63.

Lemma exec1_ranged i c c' more : exec1 i c = (c', more) -> ranged c -> ranged c'.
Proof.
  intros E Hc q. specialize (Hc q). assert (- two63 <= 0 < two63) by (unfold two63; lia).
  destruct i as [t|e qn|e qn|e k n|e d|e old d|e d|e old d|op]; cbn [exec1] in E;
    repeat case_decide; simplify_eq; try done; try (rewrite value_set_max by auto; done).
  - destruct q as [t'|]; [|by destruct t]. destruct t, t'; cbn in *; try done; apply i64_range.
  - destruct q as [t|e' k]; [by destruct t|]. cbn in *. destruct (decide (e' = e)) as [->|].
    + rewrite lookup_insert_eq. by destruct k.
    + by rewrite lookup_insert_ne.
  - destruct q as [t|e' k']; [by destruct t|]. destruct (decide (e' = e)) as [->|]; [|by rewrite value_on_other].
    rewrite value_on_endpoint. cbn in *. destruct (co_endpoints c !! e); cbn in *; [|done].
    rewrite get_add_counter. case_decide; [apply i64_range|done].
Qed.

Lemma steps_ranged s s' : rtc step s s' -> ranged (s_coll s) -> ranged (s_coll s').
Proof.
  induction 1 as [|s s1 s' Hs _ IH]; [done|]. intros Hr. apply IH. destruct Hs. by eapply exec1_ranged.
Qed.

(** When the callers are done a counter has grown by what they add. *)
Lemma counters_grown c ms s q : ranged c -> rtc step (start c ms) s -> finished s ->
  value q (s_coll s) = i64 (value q c + sum (amount q <$> ms)).
Proof.
  intros Hc Hs Hf. rewrite <- (i64_small (value q (s_coll s))) by (by apply (steps_ranged _ _ Hs)).
  rewrite <- owed_concat, <- foldr_owed.
  apply (outcome_finished same64 (value q) (fun i t => t + owed q i)); try done.
  - intros i t t'. by apply same64_add.
  - intros i j t. unfold same64. f_equal. lia.
  - intros i c1 c' more code Hr E. rewrite foldr_owed. by eapply value_exec.
Qed.

(** C24: concurrent recording.  However the atomic steps of any number of concurrent
    calls of Record interleave, when they are done every counter has grown by exactly
    what the calls add to it (modulo 64 bits), the maximum and minimum of each
    endpoint are those of the old ones and the durations recorded for it, an endpoint
    has a record iff it had one or was recorded, and every Prometheus call was made
    once: no update is lost. *)
Theorem Record_concurrent c ms s :
  ranged c -> rtc step (start c ms) s -> finished s ->
  (forall q, value q (s_coll s) = i64 (value q c + sum (amount q <$> ms))) /\
  (forall e, max_of e (s_coll s) = big_max (max_of e c) (durations e ms) /\
             min_of e (s_coll s) = big_min (min_of e c) (durations e ms)) /\
  dom (co_endpoints (s_coll s)) = dom (co_endpoints c) ∪ list_to_set (rm_Endpoint <$> ms) /\
  co_prom (s_coll s) ≡ₚ co_prom c ++ List.concat (prom_calls <$> ms).
Proof.
  intros Hc Hs Hf. split_and!.
  - intros q. by apply counters_grown.
  - intros e. rewrite <- max_concat, <- min_concat. split.
    + apply (outcome_finished eq (max_of e) (max_act e)); [by intros i t t' ->|intros i j t|apply max_exec|done|done].
      destruct i, j; cbn; repeat case_decide; lia.
    + apply (outcome_finished eq (min_of e) (min_act e)); [by intros i t t' ->|intros i j t|apply min_exec|done|done].
      destruct i, j; cbn; repeat case_decide; lia.
  - rewrite <- dom_concat. apply (outcome_finished eq (fun c => dom (co_endpoints c)) dom_act); [by intros i t t' ->|intros i j t|apply dom_exec|done|done].
    unfold dom_act. destruct (makes i), (makes j); set_solver.
  - rewrite <- prom_concat. apply (outcome_finished (≡ₚ) co_prom prom_act); [| |apply prom_exec|done|done].
    + intros i t t' Ht. destruct i; cbn; try done. by rewrite Ht.
    + intros i j t. destruct i, j; cbn; try done. solve_Permutation.
Qed.

(** ** Termination

    A compare-and-swap fails only when another one has succeeded since its load. *)

Definition length_of (i : instr) : nat := match i with ILookup _ _ => 2 | _ => 1 end.

Definition weight (c : Collector) (i : instr) : nat :=
  match i with
  | IMaxLoad _ _ | IMinLoad _ _ => 2
  | IMaxCAS e old _ => if decide (max_of e c = old) then 1 else 3
  | IMinCAS e old _ => if decide (min_of e c = old) then 1 else 3
  | _ => 0
  end.

Definition nsum (l : list nat) : nat := foldr Nat.add 0%nat l.

Definition left (s : State) : nat := nsum (length_of <$> List.concat (s_callers s)).
Definition waiting (s : State) : nat := nsum (weight (s_coll s) <$> List.concat (s_callers s)).

(** A number that every step lowers. *)
Definition budget (s : State) : nat := (3 * left s * left s + waiting s)%nat.

Lemma nsum_app l1 l2 : nsum (l1 ++ l2) = (nsum l1 + nsum l2)%nat.
Proof. unfold nsum. induction l1 as [|x l1 IH]; simpl; [done|]. rewrite IH. lia. Qed.

Lemma waiting_left s : (waiting s <= 3 * left s)%nat.
Proof.
  unfold waiting, left, nsum. induction (List.concat (s_callers s)) as [|i l IH]; cbn; [lia|].
  assert (weight (s_coll s) i <= 3 * length_of i)%nat; [|lia].
  destruct i; cbn; repeat case_decide; lia.
Qed.

(** What is left shrinks, or the collector is unchanged and the caller waits less. *)
Lemma exec1_progress i c c' more : exec1 i c = (c', more) ->
  (nsum (length_of <$> more) < length_of i)%nat \/
  c' = c /\ nsum (length_of <$> more) = length_of i /\ (nsum (weight c <$> more) < weight c i)%nat.
Proof.
  intros E. destruct i as [t|e q|e q|e k n|e d|e old d|e d|e old d|op]; cbn [exec1] in E.
  - injection E as <- <-. left. cbn. lia.
  - injection E as <- <-. left. case_decide; cbn; lia.
  - injection E as <- <-. left. cbn. lia.
  - injection E as <- <-. left. cbn. lia.
  - injection E as <- <-. destruct (decide (d <= max_of e c)); [left; cbn; lia|]. right.
    cbn. rewrite decide_True by done. split_and!; [done|done|lia].
  - destruct (decide (max_of e c = old)) as [Ho|Ho]; injection E as <- <-; [left; cbn; lia|]. right.
    cbn. rewrite decide_False by done. split_and!; [done|done|lia].
  - injection E as <- <-. destruct (decide (d >= min_of e c)); [left; cbn; lia|]. right.
    cbn. rewrite decide_True by done. split_and!; [done|done|lia].
  - destruct (decide (min_of e c = old)) as [Ho|Ho]; injection E as <- <-; [left; cbn; lia|]. right.
    cbn. rewrite decide_False by done. split_and!; [done|done|lia].
  - injection E as <- <-. left. cbn. lia.
Qed.

Lemma nsum_callers (f : instr -> nat) before code after :
  nsum (f <$> List.concat (before ++ code :: after)) =
  (nsum (f <$> code) + nsum (f <$> List.concat before) + nsum (f <$> List.concat after))%nat.
Proof. rewrite concat_app. cbn [List.concat]. rewrite !fmap_app, !nsum_app. lia. Qed.

Lemma step_budget s s' : step s s' -> (budget s' < budget s)%nat.
Proof.
  intros [c before i code after c' more E].
  pose proof (waiting_left {| s_coll := c'; s_callers := before ++ (more ++ code) :: after |}) as Hw.
  unfold budget, left, waiting in *. cbn [s_coll s_callers] in *.
  rewrite !nsum_callers, !fmap_app, !nsum_app, !fmap_cons in *.
  change (nsum (?x :: ?l)) with (x + nsum l)%nat in *.
  destruct (exec1_progress _ _ _ _ E) as [Hl|(-> & Hl & Hx)]; nia.
Qed.

Lemma budget_start c ms : (budget (start c ms) <= 3 * left (start c ms) * (left (start c ms) + 1))%nat.
Proof. pose proof (waiting_left (start c ms)). unfold budget. lia. Qed.

(** C35: recording terminates.  Under every schedule, fair or not, concurrent calls of
    Record take at most a quadratic number of atomic steps in the length of their
    code, failed swaps included, so the swap loops cannot run for ever; and as long
    as a call is not done some step is possible. *)
Theorem Record_terminates c ms :
  (forall n s, nsteps step n (start c ms) s -> (n <= 3 * left (start c ms) * (left (start c ms) + 1))%nat) /\
  (forall s, rtc step (start c ms) s -> finished s \/ exists s', step s s').
Proof.
  split.
  - intros n s Hn. assert (n + budget s <= budget (start c ms))%nat as H; [|pose proof (budget_start c ms); lia].
    revert Hn. generalize (start c ms). intros s0 Hn.
    induction Hn as [s0|n s0 s1 s2 Hs _ IH]; [lia|]. apply step_budget in Hs. lia.
  - intros s _. destruct s as [co callers]. unfold finished. cbn [s_callers].
    induction callers as [|[|i code] callers IH]; [by left|..].
    + destruct IH as [Hf|[s' Hs]]; [left; by constructor|right].
      inversion Hs as [c0 before i code after c' more E]; simplify_eq.
      exists {| s_coll := c'; s_callers := ([] :: before) ++ (more ++ code) :: after |}.
      by apply (step_caller co ([] :: before)).
    + right. destruct (exec1 i co) as [c' more] eqn:E. eexists. by apply (step_caller co []).
Qed.

(** ** A caller alone *)

(** An instruction as [record_code] has it, before any load. *)
Definition plain (i : instr) : Prop :=
  match i with ICreate _ _ | IMaxCAS _ _ _ | IMinCAS _ _ _ => False | _ => True end.

Lemma plain_two i c : plain i ->
  (exec1 i c).2 = [] \/ exists j, exec1 i c = (c, [j]) /\ (exec1 j c).2 = [].
Proof.
  destruct i as [t|e q|e q|e k n|e d|e old d|e d|e old d|op]; intros Hp; try done; cbn [exec1]; try by left.
  - case_decide; [by left|right]. by eexists.
  - case_decide; [by left|right]. eexists. split; [done|]. cbn. by rewrite decide_True.
  - case_decide; [by left|right]. eexists. split; [done|]. cbn. by rewrite decide_True.
Qed.

Lemma step_alone i code c : step {| s_coll := c; s_callers := [i :: code] |}
  {| s_coll := (exec1 i c).1; s_callers := [(exec1 i c).2 ++ code] |}.
Proof. destruct (exec1 i c) as [c' more] eqn:E. by apply (step_caller c [] i code [] c' more). Qed.

Lemma exec_all_step fuel i code c :
  exec_all (S fuel) (i :: code) c = exec_all fuel ((exec1 i c).2 ++ code) (exec1 i c).1.
Proof. cbn [exec_all]. by destruct (exec1 i c). Qed.

Lemma exec_alone fuel code c : Forall plain code -> (2 * List.length code <= fuel)%nat ->
  rtc step {| s_coll := c; s_callers := [code] |}
           {| s_coll := exec_all fuel code c; s_callers := [[]] |}.
Proof.
  intros Hp. revert fuel c. induction Hp as [|i code Hi _ IH]; intros fuel c Hf; [by destruct fuel|].
  cbn [List.length] in Hf. destruct fuel as [|[|fuel]]; [lia..|]. rewrite exec_all_step.
  eapply rtc_l; [apply step_alone|]. destruct (plain_two i c Hi) as [->|(j & E & Ej)].
  - apply IH. lia.
  - rewrite E. cbn [fst snd app]. rewrite exec_all_step. eapply rtc_l; [apply step_alone|].
    rewrite Ej. cbn [app]. apply IH. lia.
Qed.

Lemma record_code_plain m : Forall plain (record_code m).
Proof.
  assert (forall l, Forall plain (IProm <$> l)) as Hp by (intros l; by apply Forall_fmap, Forall_true).
  unfold record_code. destruct (is_error m), (is_timeout m); cbn -[fmap]; repeat (constructor; [done|]); apply Hp.
Qed.

(** [Record] called alone runs to its end. *)
Lemma Record_runs c m : exists c', Record_ (Some c) m = Some c' /\
  rtc step (start c [m]) {| s_coll := c'; s_callers := [[]] |}.
Proof. eexists. split; [done|]. apply exec_alone; [apply record_code_plain|done]. Qed.

Lemma Record_value c m q : ranged c -> exists c', Record_ (Some c) m = Some c' /\ ranged c' /\
  value q c' = i64 (value q c + amount q m).
Proof.
  intros Hc. destruct (Record_runs c m) as (c' & E & Hs). exists c'. split_and!; [done|by apply (steps_ranged _ _ Hs)|].
  pose proof (counters_grown c [m] _ q Hc Hs ltac:(by repeat constructor)) as Hq. cbn [s_coll] in Hq. rewrite Hq.
  cbn. f_equal. lia.
Qed.

(** ** Labels *)

(** The status label takes one of eleven values, whatever the status. *)
Lemma statusCodeString_bounded code : statusCodeString code ∈
  ["200"; "400"; "404"; "405"; "429"; "500"; "504"; "2xx"; "4xx"; "5xx"; "other"].
Proof. unfold statusCodeString. repeat case_decide; apply (bool_decide_unpack _); by vm_compute. Qed.

(** A schedule: which caller is next. *)
Definition step_at (s : State) (k : nat) : State :=
  match s_callers s !! k with
  | Some (i :: code) =>
    {| s_coll := (exec1 i (s_coll s)).1; s_callers := <[k := (exec1 i (s_coll s)).2 ++ code]> (s_callers s) |}
  | _ => s
  end.

Lemma step_at_steps s k : rtc step s (step_at s k).
Proof.
  unfold step_at. destruct (s_callers s !! k) as [[|i code]|] eqn:Ek; try done.
  apply rtc_once. destruct s as [c callers]. cbn [s_callers s_coll] in *.
  destruct (exec1 i c) as [c' more] eqn:E. cbn [fst snd].
  rewrite (insert_take_drop callers k) by (by eapply lookup_lt_Some).
  rewrite <- (take_drop_middle callers k (i :: code)) at 1 by done. by constructor.
Qed.

Lemma schedule_steps s ks : rtc step s (foldl step_at s ks).
Proof.
  revert s. induction ks as [|k ks IH]; intros s; [done|]. cbn.
  etrans; [apply step_at_steps|apply IH].
Qed.

Module Sample.
Definition request (d : Z) (err : string) : RequestMetrics :=
  {| rm_Endpoint := "orders"; rm_QueryName := "q"; rm_Database := "main"; rm_Method := "GET";
     rm_TotalDuration := d; rm_QueryDuration := 100; rm_RowCount := 3; rm_StatusCode := 200;
     rm_Error := err; rm_ErrorType := ""; rm_CacheHit := false |}.

Definition c0 : Collector := Init "1.0" "now" 0.
Definition two : list RequestMetrics := [request 5000 ""; request 7000 "boom"].

(** Both calls step by step in turn: both load the maximum before either swaps. *)
Definition turns : list nat := List.concat (replicate 20 [0; 1]%nat).
Definition done_state : State := foldl step_at (start c0 two) turns.

Lemma c0_ranged : ranged c0.
Proof. intros [[]|e k]; cbn -[lookup]; rewrite ?lookup_empty; cbn; unfold two63; lia. Qed.

Lemma Record_concurrent_witness :
  value (QTotal TErrors) (s_coll done_state) = i64 (0 + sum (amount (QTotal TErrors) <$> two)) /\
  max_of "orders" (s_coll done_state) = big_max 0 (durations "orders" two) /\
  big_max 0 (durations "orders" two) = 70.
Proof.
  assert (finished done_state) as Hf by (vm_compute; repeat constructor).
  destruct (Record_concurrent c0 two done_state c0_ranged (schedule_steps _ turns) Hf) as (Hv & Hm & _).
  split; [exact (Hv (QTotal TErrors))|]. split; [exact (proj1 (Hm "orders"))|reflexivity].
Defined.
End Sample.
