(* ===== verification/Health.v ===== *)
(** * internal/server: the health checker and the health endpoints

    A round of [runHealthChecker] pings every database, counts consecutive failures,
    reconnects after the third and publishes the result; its loop runs a round at the
    start and one at every tick until its context ends.  It runs in a goroutine of its own: a panic there ends the program.
    The snapshots of the cache and of the limiter, which a round only turns into
    gauges, are arguments; log calls are left out. *)
From S2P Require Import Prelude GoStrings GoValues Trace Numbers SqlUtil DbText Db Metrics.

Definition healthCheckFailuresBeforeReconnect : Z := 3.

Section Health.
Context {W : Type} {DB : SqlDB W} `{UnicodeTables, MySQLFormat, MapWalk}.

Abbreviation X := (M (Traced W event)).
Abbreviation Manager := (gmap string (Driver (W := W))).

Record Health := {
  hl_mgr : Manager; hl_failures : gmap string Z; hl_healthy : bool; hl_metrics : option Collector;
}.

Definition failures (h : Health) (name : string) : Z := default 0 (hl_failures h !! name).

Definition count_failures (h : Health) (name : string) (n : Z) : Health :=
  {| hl_mgr := hl_mgr h; hl_failures := <[name := n]> (hl_failures h); hl_healthy := hl_healthy h;
     hl_metrics := hl_metrics h |}.

Definition publish (h : Health) (name : string) (up : bool) : Health :=
  {| hl_mgr := hl_mgr h; hl_failures := hl_failures h; hl_healthy := hl_healthy h && up;
     hl_metrics := UpdateDBHealth (hl_metrics h) name up |}.

Definition set_mgr (h : Health) (m : Manager) : Health :=
  {| hl_mgr := m; hl_failures := hl_failures h; hl_healthy := hl_healthy h; hl_metrics := hl_metrics h |}.

(** One result of the ping; [hl_healthy] is the round's [allHealthy] so far. *)
Definition check_result (h : Health) (name : string) (err : option error) : X Health :=
  let h := publish h name (match err with None => true | Some _ => false end) in
  match err with
  | None => ret (count_failures h name 0)
  | Some _ =>
    let n := i64 (failures h name + 1) in
    let h := count_failures h name n in
    if decide (n >= healthCheckFailuresBeforeReconnect) then
      let* r := Manager_Reconnect (hl_mgr h) name in
      let h := set_mgr h r.2 in
      match r.1 with
      | Some _ => ret h
      | None => ret (count_failures h name 0)
      end
    else ret h
  end.

Fixpoint check_results (h : Health) (l : list (string * option error)) : X Health :=
  match l with
  | [] => ret h
  | (name, err) :: l' => let* h := check_result h name err in check_results h l'
  end.

(** [driver.PoolStats()] of each connection as gauges. *)
Fixpoint pool_gauges (h : Health) (names : list string) : X Health :=
  match names with
  | [] => ret h
  | name :: names' =>
    match Db.Get (hl_mgr h) name with
    | Err _ => pool_gauges h names'
    | Ok driver =>
      let* st := lift (PoolStats driver) in
      pool_gauges {| hl_mgr := hl_mgr h; hl_failures := hl_failures h; hl_healthy := hl_healthy h;
                     hl_metrics := UpdateDBPoolStats (hl_metrics h) name st.1 st.2 |} names'
    end
  end.

Definition cache_gauges (mc : option Collector) (l : list (string * (Z * Z))) : option Collector :=
  foldl (fun mc x => UpdateCacheStats mc x.1 x.2.1 x.2.2) mc l.
Definition limiter_gauges (mc : option Collector) (l : list (string * Z)) : option Collector :=
  foldl (fun mc x => UpdateRateLimitBuckets mc x.1 x.2) mc l.

(** The body of the loop of [runHealthChecker]. *)
Definition health_round (h : Health) (cacheStats : list (string * (Z * Z))) (buckets : list (string * Z)) : X Health :=
  let* results := Manager_Ping (hl_mgr h) in
  let h := {| hl_mgr := hl_mgr h; hl_failures := hl_failures h; hl_healthy := true; hl_metrics := hl_metrics h |} in
  let* h := check_results h (walk results) in
  let* h := pool_gauges h (Names (hl_mgr h)) in
  ret {| hl_mgr := hl_mgr h; hl_failures := hl_failures h; hl_healthy := hl_healthy h;
         hl_metrics := limiter_gauges (cache_gauges (hl_metrics h) cacheStats) buckets |}.

(** What ends the wait of a round: the ticker, after which the round sees these
    snapshots, or the end of the context.  Which of the two is received when both are
    ready is not determined; a list of them is one possible history. *)
Inductive wakeup :=
| Done
| Tick (cacheStats : list (string * (Z * Z))) (buckets : list (string * Z)).

(** The loop from its [select] on, through the given wake-ups: whether it returned
    ([false]: it waits for the next one) and what it left. *)
Fixpoint health_loop (h : Health) (l : list wakeup) : X (bool * Health) :=
  match l with
  | [] => ret (false, h)
  | Done :: _ => ret (true, h)
  | Tick cacheStats buckets :: l' =>
    let* h := health_round h cacheStats buckets in
    health_loop h l'
  end.

(** The first round does not wait, and nothing has failed before it. *)
Definition runHealthChecker (mgr : Manager) (dbHealthy : bool) (mc : option Collector)
    (cacheStats : list (string * (Z * Z))) (buckets : list (string * Z)) (l : list wakeup) : X (bool * Health) :=
  let h := {| hl_mgr := mgr; hl_failures := ∅; hl_healthy := dbHealthy; hl_metrics := mc |} in
  health_loop h (Tick cacheStats buckets :: l).

(** ** The endpoints *)

Definition health_counts (results : list (string * option error)) : Z * Z :=
  (Z.of_nat (List.length (filter (fun r => r.2 = None) results)), Z.of_nat (List.length results)).

Definition health_status (healthyCount totalCount : Z) : string :=
  if decide (healthyCount = 0 /\ totalCount > 0) then "unhealthy"
  else if decide (healthyCount < totalCount) then "degraded"
  else "healthy".

Definition connection_status (e : option error) : string :=
  match e with None => "connected" | Some _ => "disconnected" end.

(** The answer of /_/health: the status and each database's, always 200. *)
Definition healthHandler (m : Manager) : X (string * gmap string string) :=
  let* results := Manager_Ping m in
  let '(healthy, total) := health_counts (walk results) in
  ret (health_status healthy total, connection_status <$> results).

Inductive db_health :=
| NameRequired                       (* 400 *)
| NotFound (name : string)           (* 404 *)
| DbHealth (name status type : string) (readonly : bool).

Definition dbHealthHandler (m : Manager) (path : string) : X db_health :=
  let dbName := TrimPrefix path "/_/health/" in
  if decide (dbName = "") then ret NameRequired
  else match Db.Get m dbName with
  | Err _ => ret (NotFound dbName)
  | Ok driver =>
    let* e := Ping driver in
    ret (DbHealth dbName (connection_status e) (Type_ driver) (driver_IsReadOnly driver))
  end.

(** ** Pings *)

Lemma Ping_returns d s : connected d -> is_Some (Ping d s).1.
Proof.
  intros [p Hp]. unfold Ping. rewrite Hp. unfold ask, lift. destruct (pool_Ping p (ds_world s)). by eexists.
Qed.

Lemma ping_all_returns l res s : Forall (fun kd => connected kd.2) l ->
  exists res' s', ping_all l res s = (Some res', s') /\ dom res' = dom res ∪ list_to_set l.*1.
Proof.
  intros Hl. revert res s. induction Hl as [|[n d] l Hd _ IH]; intros res s; cbn [ping_all].
  { exists res, s. split; [done|]. cbn. set_solver. }
  unfold bind. destruct (Ping_returns d s Hd) as [e He]. destruct (Ping d s) as [[e'|] s1]; [|done].
  destruct (IH (<[n := e']> res) s1) as (res' & s' & -> & Hdom). exists res', s'. split; [done|].
  rewrite Hdom, dom_insert_L. cbn. set_solver.
Qed.

Lemma ping_all_panics l res s kd : kd ∈ l -> ~ connected kd.2 -> (ping_all l res s).1 = None.
Proof.
  revert res s. induction l as [|[n d] l IH]; intros res s Hin Hc; [by apply not_elem_of_nil in Hin|].
  cbn [ping_all]. unfold bind. apply elem_of_cons in Hin as [->|Hin].
  - destruct (disconnected_panics d {| se_Isolation := ""; se_LockTimeoutMs := 0; se_DeadlockPriority := "" |}
      "" ∅ None s Hc) as (Hp & _). by destruct (Ping d s) as [[e|] s1].
  - destruct (Ping d s) as [[e|] s1]; [|done]. by apply IH.
Qed.

Lemma Manager_Ping_returns m s : all_connected m ->
  exists res s', Manager_Ping m s = (Some res, s') /\ dom res = dom m.
Proof.
  intros Hm. destruct (ping_all_returns (walk m) ∅ s) as (res & s' & E & Hd).
  { apply Forall_forall. intros [k d] Hin%walk_elem. by apply (Hm k). }
  exists res, s'. split; [done|]. rewrite Hd. apply set_eq. intros k.
  rewrite elem_of_union, elem_of_list_to_set, dom_empty_L, list_elem_of_fmap, elem_of_dom. split.
  - intros [?|([k' d] & -> & Hin%walk_elem)]; [set_solver|by eexists].
  - intros [d Hd']. right. exists (k, d). split; [done|]. by apply walk_elem.
Qed.

#[local] Instance connected_dec (d : Driver (W := W)) : Decision (connected d).
Proof. unfold connected. destruct (d_conn (fields d)); [left; by eexists|right; by intros []]. Defined.

Lemma Manager_Ping_panics m s : ~ all_connected m -> (Manager_Ping m s).1 = None.
Proof.
  intros Hm. apply map_not_Forall in Hm as (k & d & Hk & Hd); [|apply _].
  apply (ping_all_panics _ _ _ (k, d)); [by apply walk_elem|done].
Qed.

(** ** One round *)

(** What a round does for one database, by the answer to its ping: nothing but the
    counter changes below the threshold; from it on the driver is reconnected. *)
Definition round_effect (before : Z) (ping : option error) (d d' : Driver) (after : Z) : Prop :=
  match ping with
  | None => d' = d /\ after = 0
  | Some _ =>
    let n := i64 (before + 1) in
    if decide (n >= healthCheckFailuresBeforeReconnect) then
      same_driver d d' /\ (connected d' /\ after = 0 \/ ~ connected d' /\ after = n)
    else d' = d /\ after = n
  end.

Lemma Manager_Reconnect_run m name d s : m !! name = Some d ->
  exists e d' s', Manager_Reconnect m name s = (Some (e, <[name := d']> m), s') /\ same_driver d d' /\
    (e = None <-> connected d').
Proof.
  intros Hd. unfold Manager_Reconnect, bind. rewrite Hd.
  destruct (Reconnect_emits d s) as (t & _ & e & d' & Er & Hsame & He & _).
  destruct (Reconnect d s) as [r s']. cbn [fst] in Er. subst r. by exists e, d', s'.
Qed.

Lemma check_result_run h name err d s : hl_mgr h !! name = Some d ->
  exists h' d' s', check_result h name err s = (Some h', s') /\
    hl_mgr h' = <[name := d']> (hl_mgr h) /\
    hl_healthy h' = hl_healthy h && bool_decide (err = None) /\
    (forall name', name' <> name -> failures h' name' = failures h name') /\
    round_effect (failures h name) err d d' (failures h' name).
Proof.
  intros Hd. unfold check_result, failures. destruct err as [e|]; cbn [round_effect].
  - cbn [publish hl_failures hl_mgr count_failures].
    destruct (decide (i64 (default 0 (hl_failures h !! name) + 1) >= healthCheckFailuresBeforeReconnect)) as [Hn|Hn].
    + unfold bind. destruct (Manager_Reconnect_run (hl_mgr h) name d s Hd) as (e' & d' & s' & E & Hsame & He).
      rewrite E. cbn [fst snd]. destruct e' as [e'|].
      * eexists _, d', s'. split; [done|]. cbn. rewrite lookup_insert_eq. split_and!; [done|done| |done|].
        -- intros name' Hne. by rewrite lookup_insert_ne by done.
        -- right. split; [|done]. intros Hc. by apply He in Hc.
      * eexists _, d', s'. split; [done|]. cbn. rewrite lookup_insert_eq. split_and!; [done|done| |done|].
        -- intros name' Hne. by rewrite !lookup_insert_ne by done.
        -- left. split; [by apply He|done].
    + eexists _, d, s. split; [done|]. cbn. rewrite lookup_insert_eq. split_and!; try done.
      * by rewrite insert_id.
      * intros name' Hne. by rewrite lookup_insert_ne by done.
  - eexists _, d, s. split; [done|]. cbn. rewrite lookup_insert_eq. split_and!; try done.
    + by rewrite insert_id.
    + intros name' Hne. by rewrite lookup_insert_ne by done.
Qed.

Definition effect_on (h h' : Health) (res : gmap string (option error)) (name : string) : Prop :=
  match hl_mgr h !! name, res !! name with
  | Some d, Some err => exists d', hl_mgr h' !! name = Some d' /\
      round_effect (failures h name) err d d' (failures h' name)
  | o, _ => hl_mgr h' !! name = o /\ failures h' name = failures h name
  end.

Lemma check_results_run l h s : NoDup l.*1 -> (forall n, n ∈ l.*1 -> is_Some (hl_mgr h !! n)) ->
  exists h' s', check_results h l s = (Some h', s') /\
    hl_healthy h' = hl_healthy h && forallb (fun r => bool_decide (r.2 = None)) l /\
    forall name, effect_on h h' (list_to_map l) name.
Proof.
  intros Hnd. revert h s. induction l as [|[n err] l IH]; intros h s Hin; cbn [check_results].
  { exists h, s. split_and!; [done|by rewrite andb_true_r|]. intros name. unfold effect_on. cbn.
    rewrite lookup_empty. by destruct (hl_mgr h !! name). }
  cbn in Hnd. apply NoDup_cons in Hnd as [Hn Hnd].
  destruct (Hin n ltac:(left)) as [d Hd].
  destruct (check_result_run h n err d s Hd) as (h1 & d1 & s1 & E1 & Em & Eh & Ef & Er).
  destruct (IH Hnd h1 s1) as (h' & s' & E' & Eh' & He).
  { intros n' Hn'. rewrite Em. destruct (decide (n' = n)) as [->|]; [rewrite lookup_insert_eq; by eexists|].
    rewrite lookup_insert_ne by done. apply Hin. by right. }
  exists h', s'. unfold bind. rewrite E1. split_and!; [done| |].
  - rewrite Eh', Eh. cbn [forallb snd]. by rewrite andb_assoc.
  - intros name. specialize (He name). unfold effect_on in *. cbn [list_to_map foldr fst snd].
    destruct (decide (name = n)) as [->|Hne].
    + rewrite Hd, lookup_insert_eq. rewrite (not_elem_of_list_to_map_1 l n) in He by done.
      rewrite Em, lookup_insert_eq in He. destruct He as [-> ->]. by exists d1.
    + rewrite lookup_insert_ne by done. rewrite Em, lookup_insert_ne, Ef in He by done. done.
Qed.

Lemma pool_gauges_run h names s : exists h' s', pool_gauges h names s = (Some h', s') /\
  hl_mgr h' = hl_mgr h /\ hl_failures h' = hl_failures h /\ hl_healthy h' = hl_healthy h.
Proof.
  revert h s. induction names as [|n names IH]; intros h s; cbn [pool_gauges]; [by exists h, s|].
  destruct (Db.Get (hl_mgr h) n) as [d|]; [|apply IH]. unfold bind, lift.
  destruct (PoolStats d s) as [st s1]. match goal with |- context [pool_gauges ?x names s1] => apply (IH x s1) end.
Qed.

Lemma health_round_run h cacheStats buckets s : all_connected (hl_mgr h) ->
  exists res h' s', health_round h cacheStats buckets s = (Some h', s') /\
    (Manager_Ping (hl_mgr h) s).1 = Some res /\ dom res = dom (hl_mgr h) /\
    (hl_healthy h' = true <-> map_Forall (fun _ e => e = None) res) /\
    (forall name, effect_on h h' res name).
Proof.
  intros Hm. destruct (Manager_Ping_returns (hl_mgr h) s Hm) as (res & s1 & Ep & Hdom).
  set (h0 := {| hl_mgr := hl_mgr h; hl_failures := hl_failures h; hl_healthy := true; hl_metrics := hl_metrics h |}).
  destruct (check_results_run (walk res) h0 s1 (walk_NoDup res)) as (h1 & s2 & Ec & Eh & He).
  { intros n ([n' e] & -> & Hn%walk_elem)%list_elem_of_fmap. cbn. apply elem_of_dom. rewrite <- Hdom.
    apply elem_of_dom. by eexists. }
  destruct (pool_gauges_run h1 (Names (hl_mgr h1)) s2) as (h2 & s3 & Eg & Em & Ef & Eh2).
  exists res. eexists _, s3. split.
  { unfold health_round, bind. rewrite Ep. fold h0. rewrite Ec, Eg. done. }
  split_and!; [by rewrite Ep|done| |].
  - cbn. rewrite Eh2, Eh. cbn. rewrite forallb_forall. split.
    + intros Ha k e Hk%walk_elem%list_elem_of_In. specialize (Ha _ Hk). by apply bool_decide_eq_true in Ha.
    + intros Ha [k e] Hk%list_elem_of_In%walk_elem. apply bool_decide_eq_true. by apply (Ha k e).
  - intros name. specialize (He name). unfold effect_on, failures in *. cbn. rewrite Em, Ef.
    assert (list_to_map (walk res) = res) as E; [|by rewrite E in He].
    rewrite (list_to_map_proper _ _ (walk_NoDup res) (walk_perm res)). apply list_to_map_to_list.
Qed.

Lemma health_round_panics h cacheStats buckets s : ~ all_connected (hl_mgr h) ->
  (health_round h cacheStats buckets s).1 = None.
Proof.
  intros Hm%(Manager_Ping_panics _ s). unfold health_round, bind. by destruct (Manager_Ping (hl_mgr h) s) as [[res|] s'].
Qed.

(** a round of the health checker.  With every driver connected, a round returns,
    whatever the databases do: it reports healthy iff every ping succeeded; a ping
    that succeeds resets the counter of its database; one that fails raises it, and
    from the third in a row on the driver is reconnected, on success with a fresh
    counter.  But a Reconnect that fails leaves the driver without a pool, and the
    next round, which pings it, panics, in a goroutine that nothing recovers: the next
    round survives iff every driver is still connected. *)
Theorem health_round_spec h cacheStats buckets s : all_connected (hl_mgr h) ->
  exists res h' s', health_round h cacheStats buckets s = (Some h', s') /\
    (Manager_Ping (hl_mgr h) s).1 = Some res /\ dom res = dom (hl_mgr h) /\
    (hl_healthy h' = true <-> map_Forall (fun _ e => e = None) res) /\
    (forall name, effect_on h h' res name) /\
    (forall s1, is_Some (health_round h' cacheStats buckets s1).1 <-> all_connected (hl_mgr h')).
Proof.
  intros Hm. destruct (health_round_run h cacheStats buckets s Hm) as (res & h' & s' & E & Hp & Hd & Hh & He).
  exists res, h', s'. split_and!; try done. intros s1. split.
  - intros Hs. destruct (decide (all_connected (hl_mgr h'))) as [|Hn]; [done|].
    rewrite (health_round_panics h' cacheStats buckets s1 Hn) in Hs. by destruct Hs.
  - intros Hc. destruct (health_round_run h' cacheStats buckets s1 Hc) as (? & h2 & s2 & -> & _). by eexists.
Qed.

(** ** The loop *)

(** The answers to the pings of the rounds the loop runs. *)
Fixpoint ping_history (h : Health) (l : list wakeup) (s : Traced W event) : list (gmap string (option error)) :=
  match l with
  | Tick cacheStats buckets :: l' =>
    match (Manager_Ping (hl_mgr h) s).1, health_round h cacheStats buckets s with
    | Some res, (Some h', s') => res :: ping_history h' l' s'
    | _, _ => []
    end
  | _ => []
  end.

(** Failures in a row of one database, [k] before the rounds [rs]. *)
Definition next_streak (name : string) (k : Z) (res : gmap string (option error)) : Z :=
  match res !! name with Some (Some _) => k + 1 | _ => 0 end.
Definition streak (name : string) (k : Z) (rs : list (gmap string (option error))) : Z :=
  foldl (next_streak name) k rs.

Fixpoint ticks (l : list wakeup) : nat :=
  match l with Tick _ _ :: l' => S (ticks l') | _ => O end.
Fixpoint cancelled (l : list wakeup) : bool :=
  match l with [] => false | Done :: _ => true | Tick _ _ :: l' => cancelled l' end.

(** The counter of a connected driver is its streak since the last reconnection; a
    driver loses its connection in a round whose failure is the third, the sixth... in
    a row. *)
Definition third_failure (k : Z) : Prop := 0 < k /\ k `mod` 3 = 0.
Definition counted (h : Health) (name : string) (k : Z) : Prop :=
  forall d, hl_mgr h !! name = Some d ->
    0 <= k /\ (connected d /\ failures h name = k `mod` 3 \/ ~ connected d /\ third_failure k).

Lemma effect_counted h h' res name k : all_connected (hl_mgr h) -> dom res = dom (hl_mgr h) ->
  effect_on h h' res name -> counted h name k -> counted h' name (next_streak name k res).
Proof.
  intros Hm Hdom He Hk d' Hd'. unfold effect_on in He. unfold next_streak.
  destruct (hl_mgr h !! name) as [d|] eqn:Hd; [|naive_solver].
  assert (is_Some (res !! name)) as [err Hr] by (apply elem_of_dom; rewrite Hdom; apply elem_of_dom; by eexists).
  rewrite Hr in He |- *. destruct He as (d1 & Hd1 & He). assert (d1 = d') as -> by congruence.
  pose proof (Hm name d Hd) as Hc. destruct (Hk d Hd) as (Hpos & [[_ Hf]|[Hn _]]); [|done].
  destruct err as [e|]; cbn [round_effect] in He; [|destruct He as [-> ->]; split; [lia|by left]].
  pose proof (Z.mod_pos_bound k 3 ltac:(lia)). rewrite Hf, i64_small in He by (unfold two63; lia).
  pose proof (Z.div_mod k 3). pose proof (Z.div_mod (k + 1) 3). pose proof (Z.mod_pos_bound (k + 1) 3 ltac:(lia)).
  split; [lia|]. unfold third_failure, healthCheckFailuresBeforeReconnect in *. cbn zeta in He.
  destruct (decide _) as [Hge|Hge]; [destruct He as (_ & [[Hc' ->]|[Hc' ->]])|destruct He as [-> ->]].
  - left. split; [done|lia].
  - right. split; [done|lia].
  - left. split; [done|lia].
Qed.

Lemma effects_dom h h' res : (forall name, effect_on h h' res name) -> dom (hl_mgr h') = dom (hl_mgr h).
Proof.
  intros He. apply set_eq. intros n. rewrite !elem_of_dom. specialize (He n). unfold effect_on in He.
  destruct (hl_mgr h !! n), (res !! n); try by destruct He as [-> _].
  destruct He as (d' & -> & _). split; intros _; by eexists.
Qed.

Lemma health_loop_run l h s (k : string -> Z) : (forall name, counted h name (k name)) ->
  let rs := ping_history h l s in
  match (health_loop h l s).1 with
  | Some (ended, h') => ended = cancelled l /\ List.length rs = ticks l /\ dom (hl_mgr h') = dom (hl_mgr h) /\
      (hl_healthy h' = true <-> match last rs with
                                | Some res => map_Forall (fun _ e => e = None) res
                                | None => hl_healthy h = true
                                end) /\
      (forall name, counted h' name (streak name (k name) rs))
  | None => exists name, name ∈ dom (hl_mgr h) /\ third_failure (streak name (k name) rs)
  end.
Proof.
  revert h s k. induction l as [|[|cs bs] l IH]; intros h s k Hk; cbn [health_loop ping_history ticks cancelled]; [done..|].
  destruct (decide (all_connected (hl_mgr h))) as [Hm|Hm].
  - destruct (health_round_run h cs bs s Hm) as (res & h1 & s1 & E & Hp & Hd & Hh & He).
    rewrite Hp, E. unfold bind. rewrite E. pose proof (effects_dom _ _ _ He) as Hdom.
    specialize (IH h1 s1 (fun n => next_streak n (k n) res) (fun n => effect_counted _ _ _ _ _ Hm Hd (He n) (Hk n))).
    cbn zeta in IH. change (streak ?n (k ?n) (res :: ?rs)) with (streak n (next_streak n (k n) res) rs).
    destruct (health_loop h1 l s1) as [[[en h']|] s2]; cbn [fst] in *.
    + destruct IH as (? & ? & ? & Hl & ?). split_and!; [done|cbn; congruence|congruence| |done].
      rewrite Hl, last_cons. by destruct (last (ping_history h1 l s1)).
    + rewrite <- Hdom. done.
  - rewrite (Manager_Ping_panics _ s Hm). unfold bind.
    pose proof (health_round_panics h cs bs s Hm) as Hp. destruct (health_round h cs bs s) as [[|] s1]; [done|].
    apply map_not_Forall in Hm as (n & d & Hn & Hc); [|apply _]. exists n. split; [apply elem_of_dom; by eexists|].
    by destruct (Hk n d Hn) as (_ & [[? _]|[_ ?]]).
Qed.

(** C25: the health checker.  Started on connected databases, its loop either
    gets through the wake-ups, returning iff the context ended among them, or panics.
    If it gets through, one round was run at the start and one for every tick before
    the end of the context; /_/health's gauge says healthy iff every ping of the last
    round succeeded; and a database's counter is the number of its failed pings in a
    row, modulo the reconnections, one at every third.  It panics, which ends the
    program, only where some database failed three pings in a row (or six, nine...)
    and could not be reconnected: below three failures in a row it always survives. *)
Theorem runHealthChecker_spec mgr dbHealthy mc cacheStats buckets l s : all_connected mgr ->
  let h0 := {| hl_mgr := mgr; hl_failures := ∅; hl_healthy := dbHealthy; hl_metrics := mc |} in
  let rs := ping_history h0 (Tick cacheStats buckets :: l) s in
  match (runHealthChecker mgr dbHealthy mc cacheStats buckets l s).1 with
  | Some (ended, h') => ended = cancelled l /\ List.length rs = S (ticks l) /\
      (exists res, last rs = Some res /\ (hl_healthy h' = true <-> map_Forall (fun _ e => e = None) res)) /\
      dom (hl_mgr h') = dom mgr /\
      (forall name d, hl_mgr h' !! name = Some d ->
         connected d /\ failures h' name = streak name 0 rs `mod` 3 \/
         ~ connected d /\ third_failure (streak name 0 rs))
  | None => exists name, name ∈ dom mgr /\ third_failure (streak name 0 rs)
  end.
Proof.
  intros Hm h0 rs.
  pose proof (health_loop_run (Tick cacheStats buckets :: l) h0 s (fun _ => 0)) as Hr. fold rs in Hr.
  assert (forall name, counted h0 name 0) as Hz.
  { intros n d Hd. split; [done|]. left. split; [by apply (Hm n)|]. unfold failures. cbn. by rewrite lookup_empty. }
  specialize (Hr Hz). unfold runHealthChecker. fold h0. cbn zeta in Hr.
  destruct (health_loop h0 _ s) as [[[en h']|] s']; cbn [fst] in *; [|done].
  destruct Hr as (-> & Hl & Hd & Hh & Hc). split_and!; [done|done| |done|].
  - destruct (last rs) as [res|] eqn:E; [by exists res|]. apply last_None in E. by rewrite E in Hl.
  - intros n d Hn. by destruct (Hc n d Hn).
Qed.

(** The status of /_/health: healthy iff every database answers, unhealthy iff there
    are some and none does. *)
Lemma health_status_spec (l : list (string * option error)) :
  let '(h, t) := health_counts l in
  (health_status h t = "healthy" <-> Forall (fun r => r.2 = None) l) /\
  (health_status h t = "unhealthy" <-> l <> [] /\ Forall (fun r => r.2 <> None) l).
Proof.
  unfold health_counts, health_status.
  pose proof (length_filter (fun r : string * option error => r.2 = None) l) as Hle.
  assert (List.length (filter (fun r => r.2 = None) l) = List.length l <-> Forall (fun r => r.2 = None) l) as Hall.
  { clear Hle. induction l as [|r l IH]; [done|]. rewrite filter_cons, Forall_cons, <- IH.
    pose proof (length_filter (fun r : string * option error => r.2 = None) l).
    case_decide; cbn; [|split; [lia|tauto]]. split; [intros; split; [done|lia]|lia]. }
  assert (List.length (filter (fun r => r.2 = None) l) = 0%nat <-> Forall (fun r => r.2 <> None) l) as Hnone.
  { clear Hle Hall. induction l as [|r l IH]; [done|]. rewrite filter_cons, Forall_cons, <- IH. case_decide; cbn; [|tauto].
    split; [lia|]. by intros [? _]. }
  destruct l as [|r l]; [split; [done|]; split; [done|by intros [? _]]|]. cbn [List.length] in *.
  rewrite <- Hall, <- Hnone. split; repeat case_decide; split; try done; intros; try split; try done; lia.
Qed.
End Health.

Module Sample.
#[local] Existing Instance sample_tables.
#[local] Existing Instance sample_walk.
#[local] Existing Instance Db.Sample.server.
#[local] Existing Instance Db.Sample.sample_format.

Definition health : Health :=
  {| hl_mgr := {["main" := Db.Sample.driver]}; hl_failures := ∅; hl_healthy := true; hl_metrics := None |}.

Lemma health_round_spec_witness :
  exists res h' s', health_round health [] [] (Db.Sample.start true) = (Some h', s') /\
    (Manager_Ping (hl_mgr health) (Db.Sample.start true)).1 = Some res /\ dom res = dom (hl_mgr health) /\
    (hl_healthy h' = true <-> map_Forall (fun _ e => e = None) res) /\
    (forall name, effect_on health h' res name) /\
    (forall s1, is_Some (health_round h' [] [] s1).1 <-> all_connected (hl_mgr h')).
Proof.
  apply (health_round_spec health [] [] (Db.Sample.start true)).
  intros k d Hk. cbn [hl_mgr health] in Hk. apply lookup_singleton_Some in Hk as [<- <-]. by eexists.
Defined.

Definition tick : wakeup := Tick [] [].

Lemma runHealthChecker_spec_witness :
  match (runHealthChecker (hl_mgr health) false None [] [] [tick; tick; tick] (Db.Sample.start false)).1 with
  | Some (ended, h') => False
  | None => exists name, name ∈ dom (hl_mgr health) /\
      third_failure (streak name 0 (ping_history {| hl_mgr := hl_mgr health; hl_failures := ∅; hl_healthy := false;
        hl_metrics := None |} [tick; tick; tick; tick] (Db.Sample.start false)))
  end.
Proof.
  assert (all_connected (hl_mgr health)) as Hm.
  { intros k d Hk. cbn [hl_mgr health] in Hk. apply lookup_singleton_Some in Hk as [<- <-]. by eexists. }
  pose proof (runHealthChecker_spec (hl_mgr health) false None [] [] [tick; tick; tick] (Db.Sample.start false) Hm) as H.
  assert ((runHealthChecker (hl_mgr health) false None [] [] [tick; tick; tick] (Db.Sample.start false)).1 = None) as E
    by by vm_compute.
  rewrite E in H |- *. exact H.
Defined.

(** A database that is down: after the third round its driver has no pool and the next
    tick ends the program, unless the context ends before it.  A database that is up is
    never counted. *)
Definition outcome (up : bool) (l : list wakeup) : option (bool * bool * Z) :=
  (fun r => (r.1, hl_healthy r.2, failures r.2 "main")) <$>
    (runHealthChecker (hl_mgr health) false None [] [] l (Db.Sample.start up)).1.

Example checker_runs :
  outcome false [tick] = Some (false, false, 2) /\ outcome false [tick; tick] = Some (false, false, 3) /\
  outcome false [tick; tick; Done; tick] = Some (true, false, 3) /\ outcome false [tick; tick; tick; Done] = None /\
  outcome true [tick; tick; tick; tick; Done] = Some (true, true, 0).
Proof. by vm_compute. Qed.

(** The rounds a checker gets through before it panics, at most [n]. *)
Fixpoint rounds (n : nat) (h : Health) (s : DSt) : nat :=
  match n with
  | O => O
  | S n' => match health_round h [] [] s with
            | (Some h', s') => S (rounds n' h' s')
            | (None, _) => O
            end
  end.

(** A database that is down: three rounds, then the program is gone.  With the
    database up the checker goes on. *)
Example down_for_four_rounds :
  rounds 10 health (Db.Sample.start false) = 3%nat /\ rounds 10 health (Db.Sample.start true) = 10%nat.
Proof. by vm_compute. Qed.
End Sample.
