(* ===== verification/Adapters.v ===== *)
(** * internal/server and internal/tmpl: between the handler and its services

    The context of rate limit keys (tmpl/context.go), and the two adapters of
    server.go through which the HTTP handler uses the rate limiter and the response
    cache.  The adapters also count what they see in the metrics. *)
From S2P Require Import Prelude GoStrings Cache GoValues Numbers RateLimit WfConfig Compile Executor Handler Metrics.

(** ** Template contexts *)

Record TriggerContext := {
  tr_Params : row; tr_ClientIP : string; tr_Method : string; tr_Path : string;
  tr_Headers : gmap string string; tr_Query : gmap string string; tr_Cookies : gmap string string;
}.

Record TmplContext := {
  tx_Trigger : option TriggerContext; tx_RequestID : string; tx_Timestamp : string; tx_Version : string;
}.

Record ContextBuilder := { cb_trustProxyHeaders : bool; cb_version : string }.

(** The timestamp is the current time in RFC 3339, an argument here. *)
Definition BuildForRateLimit (b : ContextBuilder) (data : RateLimitContext) (timestamp : string) : TmplContext :=
  {| tx_Trigger := Some {| tr_Params := rd_Params data; tr_ClientIP := rd_ClientIP data; tr_Method := "";
                           tr_Path := ""; tr_Headers := rd_Headers data; tr_Query := rd_Query data;
                           tr_Cookies := rd_Cookies data |};
     tx_RequestID := ""; tx_Timestamp := timestamp; tx_Version := cb_version b |}.

Section Contexts.
Context `{UnicodeTables}.

(** [headers[name] = r.Header.Get(name)]: the name is canonicalised for the lookup. *)
Definition header_values (h : Header) : gmap string string := map_imap (fun name _ => Some (header_Get h name)) h.

Definition getRequestID (r : HttpRequest) : string :=
  let id := header_Get (hq_Header r) "X-Request-ID" in
  if decide (id <> "") then id
  else
    let id := header_Get (hq_Header r) "X-Correlation-ID" in
    if decide (id <> "") then id else "".

(** Of several cookies of a name the last wins here. *)
Definition Build (b : ContextBuilder) (r : HttpRequest) (params : row) (timestamp : string) : TmplContext :=
  {| tx_Trigger := Some {|
       tr_Params := params; tr_ClientIP := resolveClientIP r (cb_trustProxyHeaders b);
       tr_Method := hq_Method r; tr_Path := hq_Path r; tr_Headers := header_values (hq_Header r);
       tr_Query := first_value ∘ Some <$> hq_Query r;
       tr_Cookies := foldl (fun m c => <[c.1 := c.2]> m) ∅ (hq_Cookies r) |};
     tx_RequestID := getRequestID r; tx_Timestamp := timestamp; tx_Version := cb_version b |}.
End Contexts.

Definition toMap (c : TmplContext) : row :=
  let trigger : row :=
    match tx_Trigger c with
    | None => ∅
    | Some t => list_to_map [
        ("params", AMap (tr_Params t)); ("client_ip", AStr (tr_ClientIP t)); ("method", AStr (tr_Method t));
        ("path", AStr (tr_Path t)); ("headers", AStrMap (tr_Headers t)); ("query", AStrMap (tr_Query t));
        ("cookies", AStrMap (tr_Cookies t))]
    end in
  list_to_map [("trigger", AMap trigger); ("request_id", AStr (tx_RequestID c));
               ("timestamp", AStr (tx_Timestamp c)); ("version", AStr (tx_Version c))].

(** ** Rate limits *)

Section Limits.
Context `{UnicodeTables, TokenBucket, !KeyEngine TmplContext, FloatToInt, TemplateLang}.

(** The label a limit is counted under when it lets a request through. *)
Definition limit_label (rl : CompiledRateLimit) : string :=
  if decide (rl_Pool (crl_Config rl) <> "") then rl_Pool (crl_Config rl) else "inline".

Definition count_allowed (mc : option Collector) (limits : list CompiledRateLimit) : option Collector :=
  foldl (fun mc rl => RecordRateLimitAllowed mc (limit_label rl)) mc limits.

(** [int(retryAfter.Seconds())], at least one when the request is refused. *)
Definition retry_seconds (allowed : bool) (retryAfter : Z) : Z :=
  let sec := float_to_int (duration_Seconds retryAfter) in
  if decide (sec < 1 /\ allowed = false) then 1 else sec.

Definition adapter_CheckTriggerLimits (ol : option Limiter) (mc : option Collector) (b : ContextBuilder)
    (limits : list CompiledRateLimit) (rd : RateLimitContext) (timestamp : string) (clk : nat -> nat -> Z)
    : result (bool * Z) * option Limiter * option Collector :=
  match ol, limits with
  | None, _ | _, [] => (Ok (true, 0), ol, mc)
  | Some l, _ =>
    let configs := crl_Config <$> limits in
    match Allow l configs (BuildForRateLimit b rd timestamp) clk with
    | (Err e, l') => (Err e, Some l', mc)
    | (Ok (allowed, retryAfter, denyingPool), l') =>
      (Ok (allowed, retry_seconds allowed retryAfter), Some l',
       if allowed then count_allowed mc limits else RecordRateLimitDenied mc denyingPool)
    end
  end.

(** the limiter behind the handler.  A trigger with limits is let through exactly
    when every limit, in order, lets the request through on the context built from
    it; a refusal always asks the client to wait a second or more; and a request
    that fails to evaluate is an error, not a pass. *)
Theorem CheckTriggerLimits_spec l mc b limits rd ts clk : limits <> [] ->
  let '(r, ol', mc') := adapter_CheckTriggerLimits (Some l) mc b limits rd ts clk in
  let '(a, l') := Allow l (crl_Config <$> limits) (BuildForRateLimit b rd ts) clk in
  ol' = Some l' /\
  match r with
  | Ok (true, _) => exists n pool, a = Ok (true, n, pool)
  | Ok (false, sec) => 1 <= sec /\ exists n pool, a = Ok (false, n, pool) /\
      mc' = RecordRateLimitDenied mc pool
  | Err e => a = Err e /\ mc' = mc
  end.
Proof.
  intros Hl. destruct limits as [|rl limits]; [done|]. unfold adapter_CheckTriggerLimits.
  destruct (Allow _ _ _ _) as [[[[[] n] pool]|e] l']; split; try done.
  - by exists n, pool.
  - split; [|by exists n, pool]. unfold retry_seconds. case_decide as Hd; [done|].
    destruct (decide (float_to_int (duration_Seconds n) < 1)); [by destruct Hd|lia].
Qed.
End Limits.

(** ** The trigger cache *)

Section TriggerCache.
Context `{FloatToInt}.
Context `{!Cache.JsonSize any, !Cache.AgeOrder, R : !Cache.Ristretto (option (Cache.Entry any))}.

Abbreviation RespCache := (Cache.Cache (V := any)).

(** What the adapter finds in the rows of an entry. *)
Definition decode_response (data : Rows) : option (string * Z) :=
  match data with
  | [] => None
  | entry :: _ =>
    match entry !! "__body__", entry !! "__status__" with
    | Some (AStr body), Some (AFloat status) => Some (body, float_to_int status)
    | _, _ => None
    end
  end.

Definition encode_response (body : string) (statusCode : Z) : Rows :=
  [<["__body__" := AStr body]> {["__status__" := AFloat (f64 statusCode)]}].

Definition triggerCache_Get (oc : option RespCache) (mc : option Collector) (workflowName key : string)
    : option (string * Z) * option RespCache * option Collector :=
  match oc with
  | None => (None, None, mc)
  | Some _ =>
    let '(data, oc) := Cache.Get oc workflowName key in
    match (d ← data; decode_response d) with
    | Some r => (Some r, oc, mc)
    | None => (None, oc, RecordCacheMiss mc workflowName)
    end
  end.

Definition triggerCache_Set (oc : option RespCache) (workflowName key body : string) (statusCode ttl now now' : Z)
    : bool * option RespCache :=
  match oc with
  | None => (false, None)
  | Some _ => Cache.Set' oc workflowName key (encode_response body statusCode) ttl now now'
  end.

(** Status codes survive the detour through a float. *)
Lemma status_roundtrip code : 100 <= code <= 999 -> float_to_int (f64 code) = code.
Proof.
  intros Hc. assert (forallb (fun z => float_to_int (f64 z) =? z) (seqZ 100 900) = true) as Hall by by vm_compute.
  rewrite forallb_forall in Hall. apply Z.eqb_eq, Hall, list_elem_of_In, elem_of_seqZ. lia.
Qed.

Lemma decode_encode body code : 100 <= code <= 999 ->
  decode_response (encode_response body code) = Some (body, code).
Proof.
  intros Hc. unfold decode_response, encode_response.
  rewrite lookup_insert_eq, lookup_insert_ne, lookup_singleton_eq by done. by rewrite status_roundtrip.
Qed.

(** trigger cache round trip.  When a response is stored under a key for which
    nothing could be answered before, a later hit for the same workflow and key gives
    back that very body and status: the detour of the status through a float and of
    the response through a row of the cache loses nothing. *)
Theorem trigger_cache_roundtrip c mc workflowName key body code ttl now now' r :
  100 <= code <= 999 ->
  (forall d, ~ Cache.may_answer c (Cache.fullKey workflowName key) d) ->
  (triggerCache_Get (triggerCache_Set (Some c) workflowName key body code ttl now now').2 mc workflowName key).1.1 = Some r ->
  r = (body, code).
Proof.
  intros Hc Hnone. cbn [triggerCache_Set Cache.Set'].
  destruct (Cache.Set_ c workflowName key (encode_response body code) ttl now now') as [b c'] eqn:E.
  cbn [snd triggerCache_Get Cache.Get].
  destruct (Cache.store_Get _ _) as [[en|]|] eqn:Eg; cbn [mbind option_bind]; try done.
  assert (Cache.may_answer c' (Cache.fullKey workflowName key) (Cache.e_Data en)) as Hm.
  { exists en. split; [by apply Cache.store_Get_may|done]. }
  replace c' with (b, c').2 in Hm by done. rewrite <- E in Hm. unfold Cache.Set_ in Hm.
  apply Cache.commit_may in Hm as [[_ Hd]|Hm]; [|by apply Cache.make_room_may, Hnone in Hm].
  rewrite Hd, decode_encode by done. by intros [= <-].
Qed.
End TriggerCache.

Module Sample.
#[local] Existing Instances sample_tables sample_bucket sample_order.
#[local] Instance sample_templates : TemplateLang := {| template := string; template_Parse := fun _ s => Ok s |}.
#[local] Instance by_ip : KeyEngine TmplContext :=
  {| engine_Validate := fun _ => None; ExecuteInline := fun _ c => Ok (from_option tr_ClientIP "" (tx_Trigger c)) |}.
#[local] Instance sample_toint : FloatToInt.
Proof. refine {| float_overflow := fun _ => 0 |}. intros. unfold two63. lia. Defined.
#[local] Instance sample_size : Cache.JsonSize any.
Proof. refine {| Cache.json_len := fun _ => 1 |}. intros. unfold two63. lia. Defined.
#[local] Instance any_store : Cache.Ristretto (option (Cache.Entry any)) := sample_store _.

Definition builder : ContextBuilder := {| cb_trustProxyHeaders := false; cb_version := "1.0" |}.
Definition client : RateLimitContext :=
  {| rd_ClientIP := "10.0.0.1"; rd_Params := ∅; rd_Headers := ∅; rd_Query := ∅; rd_Cookies := ∅ |}.
Definition api_limit : CompiledRateLimit := {| crl_Config := RateLimit.Sample.api; crl_KeyTmpl := None |}.
Definition inline_limit : CompiledRateLimit := {| crl_Config := RateLimit.Sample.inl; crl_KeyTmpl := None |}.
Definition limiter : Limiter := foldl with_pool empty_limiter RateLimit.Sample.cfgs.
Definition at_once : nat -> nat -> Z := fun _ _ => RateLimit.Sample.t0.

Lemma CheckTriggerLimits_spec_witness :
  match adapter_CheckTriggerLimits (Some limiter) None builder [api_limit] client "" at_once with
  | (Ok (true, _), _, _) => exists n pool,
      (Allow limiter [RateLimit.Sample.api] (BuildForRateLimit builder client "") at_once).1 = Ok (true, n, pool)
  | _ => False
  end.
Proof.
  assert (is_ok (adapter_CheckTriggerLimits (Some limiter) None builder [api_limit] client "" at_once).1.1 &&
    match (adapter_CheckTriggerLimits (Some limiter) None builder [api_limit] client "" at_once).1.1 with
    | Ok (b, _) => b | Err _ => false end = true) as Hok by by vm_compute.
  pose proof (CheckTriggerLimits_spec limiter None builder [api_limit] client "" at_once ltac:(done)) as H.
  destruct (adapter_CheckTriggerLimits _ _ _ _ _ _ _) as [[[[[] sec]|e] ol'] mc']; try discriminate Hok.
  change (crl_Config <$> [api_limit]) with [RateLimit.Sample.api] in H.
  destruct (Allow _ _ _ _) as [a l']. destruct H as [_ H]. exact H.
Defined.

Definition empty_cache : Cache.Cache (V := any) :=
  {| Cache.c_store := (∅ : gmap string (option (Cache.Entry any))); Cache.c_maxCost := 268435456;
     Cache.c_defaultTTL := 300000000000; Cache.c_endpoints := ∅; Cache.c_totalHits := 0; Cache.c_totalMisses := 0 |}.

Lemma trigger_cache_roundtrip_witness :
  exists r, (triggerCache_Get (triggerCache_Set (Some empty_cache) "orders" "k" "[]" 201 0 0 0).2 None "orders" "k").1.1
    = Some r /\ r = ("[]", 201).
Proof.
  exists ("[]", 201). split; [by vm_compute|].
  apply (trigger_cache_roundtrip empty_cache None "orders" "k" "[]" 201 0 0 0); [lia| |by vm_compute].
  intros d (en & Hen & _). discriminate Hen.
Defined.

(** The same inline limit is counted under one label when it lets a request through
    and under another when it refuses. *)
Example inline_labels_differ :
  let ask l mc := adapter_CheckTriggerLimits (Some l) mc builder [inline_limit] client "" at_once in
  let again x := match x with (r, Some l, mc) => ask l mc | _ => x end in
  from_option (fun c => co_prom c) [] (Nat.iter 5 again (ask limiter (Some (Init "" "" 0)))).2 =
    [PSet "info" [""; ""] 1; PInc "ratelimit_allowed" ["inline"]; PInc "ratelimit_allowed" ["inline"];
     PInc "ratelimit_allowed" ["inline"]; PInc "ratelimit_allowed" ["inline"]; PInc "ratelimit_allowed" ["inline"];
     PInc "ratelimit_denied" ["_inline:10:5:{{.trigger.client_ip}}"]].
Proof. by vm_compute. Qed.
End Sample.
