(* ===== verification/Middleware.v ===== *)
(** * internal/server: the middleware around the routes

    [recoveryMiddleware] turns a panic of a handler into an answer,
    [bodySizeLimitMiddleware] cuts off long bodies, [gzipMiddleware] compresses what the
    handler writes, [metricsMiddleware] records the request with the status its
    [statusWriter] has seen.  A handler is a computation on the response writer that may
    panic; the bytes of a gzip stream are a parameter. *)
From S2P Require Import Prelude GoStrings GoValues Numbers WfConfig RateLimit SqlParams Compile Executor Handler Metrics.

(** The complete gzip stream of a text, header and trailer included. *)
Class Gzip := { gzip : string -> string; gzip_nonempty : forall s, gzip s <> "" }.

Definition quoted_text (s : string) : string := chr 34 +:+ s +:+ chr 34.

(** The JSON of errorResponse, with the newline of the encoder. *)
Definition internal_error_body : string :=
  "{" +:+ quoted_text "success" +:+ ":false," +:+ quoted_text "error" +:+ ":" +:+
  quoted_text "internal server error" +:+ "}" +:+ chr 10.

Section Middleware.
Context {W : Type} `{Gzip}.

Abbreviation X := (M (St (W := W))).

Definition with_rw (s : St (W := W)) (f : RespWriter -> RespWriter) : St := {| st_world := st_world s; st_rw := f <$> st_rw s |}.

(** ** Recovery *)

(** [w] is net/http's writer here, whatever layers the handler put on top of it. *)
Definition answer_panic (w : RespWriter) : RespWriter :=
  let w := rw_Header_Set w "Content-Type" "application/json" in
  let w := default w (http_WriteHeader w 500) in
  (http_Write w internal_error_body).2.

Definition recoveryMiddleware (next : X unit) : X unit := fun s =>
  match next s with
  | (Some _, s') => (Some tt, s')
  | (None, s') => (Some tt, with_rw s' answer_panic)
  end.

(** ** Compression *)

(** The deferred [gz.Close()]: what was written goes out as one gzip stream after the
    bytes [sent] sent before, if the status allows a body. *)
Definition gzip_close (sent : string) (w : RespWriter) : RespWriter :=
  let plain := str_drop (String.length sent) (rw_body w) in
  let w := {| rw_header := rw_header w; rw_status := rw_status w; rw_sent := rw_sent w; rw_body := sent;
              rw_recorded := rw_recorded w; rw_capture := rw_capture w |} in
  (http_Write w (gzip plain)).2.

Definition gzip_headers (w : RespWriter) : RespWriter :=
  let w := rw_Header_Set w "Content-Encoding" "gzip" in
  {| rw_header := delete "Content-Length" (rw_header w); rw_status := rw_status w; rw_sent := rw_sent w;
     rw_body := rw_body w; rw_recorded := rw_recorded w; rw_capture := rw_capture w |}.

Definition gzipMiddleware (r : HttpRequest) (next : X unit) : X unit := fun s =>
  if negb (Contains (header_Get (hq_Header r) "Accept-Encoding") "gzip") then next s
  else
    let s := with_rw s gzip_headers in
    let '(a, s') := next s in
    (a, with_rw s' (gzip_close (from_option rw_body "" (st_rw s)))).

(** ** The body size limit *)

Definition maxRequestBodySize : Z := Z.shiftl 1 20.

Definition too_large : error := Errorf "http: request body too large".

(** http.MaxBytesReader: reading past the limit is an error.  (net/http also closes the
    connection after the answer then.) *)
Definition MaxBytesReader (b : Body) (n : Z) : Body :=
  if decide (Z.of_nat (String.length (bd_text b)) <= n) then b
  else {| bd_text := str_take (Z.to_nat n) (bd_text b); bd_err := Some too_large |}.

Definition with_body (r : HttpRequest) (b : option Body) : HttpRequest :=
  {| hq_Method := hq_Method r; hq_Path := hq_Path r; hq_RemoteAddr := hq_RemoteAddr r; hq_Header := hq_Header r;
     hq_Body := b; hq_RawQuery := hq_RawQuery r; hq_Query := hq_Query r; hq_PathValues := hq_PathValues r;
     hq_Cookies := hq_Cookies r |}.

Definition limited (r : HttpRequest) : HttpRequest :=
  with_body r ((fun b => MaxBytesReader b maxRequestBodySize) <$> hq_Body r).

Definition bodySizeLimitMiddleware (r : HttpRequest) (next : HttpRequest -> X unit) : X unit := next (limited r).

(** The chain of [New]. *)
Definition chain (r : HttpRequest) (mux : HttpRequest -> X unit) : X unit :=
  recoveryMiddleware (bodySizeLimitMiddleware r (fun r => gzipMiddleware r (mux r))).

(** ** What the client gets *)

Definition accepts_gzip (r : HttpRequest) : bool := Contains (header_Get (hq_Header r) "Accept-Encoding") "gzip".

Definition blank : RespWriter :=
  {| rw_header := ∅; rw_status := None; rw_sent := ∅; rw_body := ""; rw_recorded := 0; rw_capture := None |}.

(** The handler panics before it has sent anything. *)
Definition panics_early (next : X unit) (s : St) : Prop :=
  exists s' w, next s = (None, s') /\ st_rw s' = Some w /\ rw_status w = None /\ rw_body w = "".

Lemma http_Write_commits w b : is_Some (rw_status (http_Write w b).2).
Proof.
  unfold http_Write. destruct (rw_status w) eqn:E; repeat case_match; cbn; rewrite ?E; by eexists.
Qed.

Lemma http_Write_status w b code : rw_status w = Some code -> rw_status (http_Write w b).2 = Some code.
Proof. intros E. unfold http_Write. rewrite E. by repeat case_match. Qed.

Lemma http_Write_first w b : rw_status w = None -> rw_status (http_Write w b).2 = Some 200.
Proof. intros E. unfold http_Write. rewrite E. by repeat case_match. Qed.

Lemma answer_panic_commits w : is_Some (rw_status (answer_panic w)).
Proof. apply http_Write_commits. Qed.

Lemma answer_panic_status w : rw_status (answer_panic w) = Some (default 500 (rw_status w)).
Proof.
  unfold answer_panic, http_WriteHeader. cbn [rw_Header_Set rw_status].
  destruct (rw_status w) eqn:E; cbn; apply http_Write_status; [done|reflexivity].
Qed.

Lemma answer_panic_body w : (rw_status w = None \/ rw_status w = Some 200) ->
  rw_body (answer_panic w) = rw_body w +:+ internal_error_body.
Proof.
  intros Hs. unfold answer_panic, http_WriteHeader, http_Write. cbn [rw_Header_Set rw_status].
  by destruct Hs as [E|E]; rewrite E; cbn; rewrite ?E.
Qed.

Lemma gzip_close_early w : rw_status w = None -> rw_body w = "" ->
  rw_status (gzip_close "" w) = Some 200 /\ rw_body (gzip_close "" w) = gzip "".
Proof.
  intros Hs Hb. unfold gzip_close, http_Write. rewrite Hb, Hs. cbn.
  pose proof (gzip_nonempty ""). by destruct (decide (gzip "" = "")).
Qed.

(** C39: panics and the client.  The chain always returns; after a panic of the handler
    the client has got a status line in any case.  If nothing had been sent the
    status is 500 for a client that does not accept gzip, but 200 for one that does:
    closing the gzip writer sends its header, and with it the status line, before the
    recovery can answer; the error text then follows the compressed stream. *)
Theorem panic_answered r next s w : st_rw s = Some w ->
  exists s', chain r (fun _ => next) s = (Some tt, s') /\
    ((next (if accepts_gzip r then with_rw s gzip_headers else s)).1 = None ->
       st_rw (next (if accepts_gzip r then with_rw s gzip_headers else s)).2 <> None -> committed s') /\
    (panics_early next (if accepts_gzip r then with_rw s gzip_headers else s) -> rw_body w = "" ->
       final_status s' = Some (if accepts_gzip r then 200 else 500) /\
       exists w', st_rw s' = Some w' /\
         rw_body w' = (if accepts_gzip r then gzip "" else "") +:+ internal_error_body).
Proof.
  intros Hw. unfold chain, bodySizeLimitMiddleware, recoveryMiddleware, gzipMiddleware.
  change (Contains (header_Get (hq_Header (limited r)) "Accept-Encoding") "gzip") with (accepts_gzip r).
  destruct (accepts_gzip r); cbn [negb].
  - destruct (next (with_rw s gzip_headers)) as [[[]|] s1] eqn:E; eexists; (split; [done|]).
    { split; [done|]. intros (s' & w' & Hp & _). congruence. }
    split.
    + intros _ Hn. cbn in Hn |- *. destruct (st_rw s1) as [w1|] eqn:E1; [|done].
      unfold committed. cbn. rewrite E1. cbn. eexists. split; [done|]. apply answer_panic_commits.
    + intros (s' & w' & Hp & Hw' & Hs & Hb) Hb0. rewrite E in Hp. injection Hp as <-.
      unfold final_status. cbn [with_rw st_rw]. rewrite Hw', Hw. cbn [fmap option_fmap option_map from_option].
      change (rw_body (gzip_headers w)) with (rw_body w). rewrite Hb0.
      destruct (gzip_close_early w' Hs Hb) as [E1 E2]. cbn [mbind option_bind]. rewrite answer_panic_status, E1.
      split; [done|]. eexists. split; [done|]. rewrite answer_panic_body by auto. by rewrite E2.
  - destruct (next s) as [[[]|] s1] eqn:E; eexists; (split; [done|]).
    { split; [done|]. intros (s' & w' & Hp & _). congruence. }
    split.
    + intros _ Hn. cbn in Hn |- *. destruct (st_rw s1) as [w1|] eqn:E1; [|done].
      unfold committed. cbn. rewrite E1. cbn. eexists. split; [done|]. apply answer_panic_commits.
    + intros (s' & w' & Hp & Hw' & Hs & Hb) Hb0. rewrite E in Hp. injection Hp as <-.
      unfold final_status. cbn [with_rw st_rw]. rewrite Hw'. cbn [fmap option_fmap option_map mbind option_bind].
      rewrite answer_panic_status, Hs. split; [done|]. eexists. split; [done|].
      rewrite answer_panic_body by auto. by rewrite Hb.
Qed.
End Middleware.

(** ** The status the metrics record *)

(** The calls a handler makes on its writer, on the status writer. *)
Inductive rcall := WriteHeader (code : Z) | Write (b : string).

Definition sw_call (w : RespWriter) (c : rcall) : RespWriter :=
  match c with
  | WriteHeader code => default w (sw_WriteHeader w code)
  | Write b => (sw_Write w b).2
  end.

Definition sw_calls (calls : list rcall) : RespWriter := foldl sw_call blank calls.

Definition is_write (c : rcall) : bool := match c with Write _ => true | WriteHeader _ => false end.

Lemma http_Write_recorded w b : rw_recorded (http_Write w b).2 = rw_recorded w.
Proof. unfold http_Write. destruct (rw_status w); by repeat case_match. Qed.

(** Writing keeps a recorded status that is the one sent. *)
Lemma writes_keep w code writes : rw_status w = Some code -> rw_recorded w = code -> code <> 0 ->
  Forall (fun c => is_write c = true) writes ->
  rw_status (foldl sw_call w writes) = Some code /\ rw_recorded (foldl sw_call w writes) = code.
Proof.
  intros Hs Hr Hc Hw. revert w Hs Hr. induction Hw as [|[] writes Hx _ IH]; intros w Hs Hr; cbn [foldl sw_call]; [done|done|].
  apply IH; unfold sw_Write; rewrite Hr, decide_False by done.
  - by apply http_Write_status.
  - by rewrite http_Write_recorded.
Qed.

(** For a handler that sets the status once, at most, and before it writes, the
    metrics record the status that was sent. *)
Lemma recorded_is_sent calls writes :
  Forall (fun c => is_write c = true) writes ->
  (exists code, calls = WriteHeader code :: writes /\ valid_code code = true /\ informational code = false) \/
  calls = writes /\ writes <> [] ->
  rw_status (sw_calls calls) = Some (rw_recorded (sw_calls calls)).
Proof.
  intros Hw [(code & -> & Hv & Hi)|[-> Hne]].
  - unfold sw_calls. cbn [foldl sw_call]. unfold sw_WriteHeader, http_WriteHeader. cbn. rewrite Hv, Hi. cbn.
    destruct (writes_keep (commit_header (record_status blank code) code) code writes) as [-> ->]; try done.
    intros ->. discriminate Hv.
  - destruct Hw as [|c writes Hc Hw]; [done|]. destruct c as [|b]; [done|].
    unfold sw_calls. cbn [foldl sw_call].
    destruct (writes_keep (sw_Write blank b).2 200 writes) as [-> ->]; try done.
    + by apply http_Write_first.
    + unfold sw_Write. by rewrite http_Write_recorded.
Qed.

(** ** metricsMiddleware *)

(** What is recorded for a request: the accumulator as the handler left it, the
    recorded status, whether the X-Cache header says HIT. *)
Definition request_metrics (workflowName method : string) (acc : RequestAccumulator) (total status : Z)
    (xcache : string) : RequestMetrics :=
  {| rm_Endpoint := workflowName; rm_QueryName := ac_QueryName acc; rm_Database := ac_Database acc;
     rm_Method := method; rm_TotalDuration := total; rm_QueryDuration := ac_QueryDuration acc;
     rm_RowCount := ac_RowCount acc; rm_StatusCode := status; rm_Error := ac_Error acc;
     rm_ErrorType := ac_ErrorType acc; rm_CacheHit := bool_decide (xcache = "HIT") |}.

(** What [metrics.NewRequestContext] puts into the context. *)
Definition empty_acc : RequestAccumulator :=
  {| ac_QueryName := ""; ac_Database := ""; ac_QueryDuration := 0; ac_RowCount := 0; ac_Error := ""; ac_ErrorType := "" |}.

(** The accumulator of a request, in its context, and the collector. *)
Class Recorder (W : Type) := {
  acc_New : W -> W;                       (* metrics.NewRequestContext *)
  acc_Read : W -> RequestAccumulator;
  metrics_Record : RequestMetrics -> W -> W;
}.

Section Metrics.
Context {W : Type} `{TemplateLang, ExprLang, P : Platform W, Recorder W}.

Abbreviation X := (M (St (W := W))).

Definition record_of (workflowName method : string) (total : Z) (s : St (W := W)) : RequestMetrics :=
  request_metrics workflowName method (acc_Read (st_world s)) total (from_option rw_recorded 0 (st_rw s))
    (from_option (fun w => header_Get (rw_header w) "X-Cache") "" (st_rw s)).

Definition metricsMiddleware (workflowName method : string) (next : X unit) : X unit :=
  let* start := call time_Now in
  let* _ := call (fun w => (tt, acc_New w)) in
  let* _ := on_rw (fun w => record_status w 0) in
  let* _ := next in
  let* now := call time_Now in
  fun s => (Some tt, {| st_world := metrics_Record (record_of workflowName method (time_Sub now start) s) (st_world s);
                        st_rw := st_rw s |}).
End Metrics.

(** ** Long bodies *)

Section BodyLimit.
Context `{UnicodeTables, MapWalk, FloatText, FloatToInt, GoText, Gzip} {W : Type}.

Definition oversized (r : HttpRequest) : Prop :=
  exists b, hq_Body r = Some b /\ 1048576 < Z.of_nat (String.length (bd_text b)).

Lemma limited_fits r : ~ oversized r -> limited r = r.
Proof.
  intros Hr. unfold limited. destruct r as [me pa ra hd [b|] rq q pv ck]; [|done]. unfold with_body. cbn. do 2 f_equal.
  unfold MaxBytesReader. destruct (decide (Z.of_nat (String.length (bd_text b)) <= maxRequestBodySize)) as [|Hn]; [done|]. destruct Hr. exists b. change maxRequestBodySize with 1048576 in *. cbn in *. split; [done|lia].
Qed.

(** What is left of a long body. *)
Lemma limited_cut r : oversized r -> exists p q o, String.length p = Z.to_nat maxRequestBodySize /\
  hq_Body r = Some {| bd_text := p +:+ q; bd_err := o |} /\
  limited r = with_body r (Some {| bd_text := p; bd_err := Some too_large |}).
Proof.
  intros ([t o] & Hb & Hlong). cbn in Hlong. change 1048576 with maxRequestBodySize in Hlong. exists (str_take (Z.to_nat maxRequestBodySize) t), (str_drop (Z.to_nat maxRequestBodySize) t), o.
  split_and!.
  - apply str_take_length. lia.
  - by rewrite str_take_drop.
  - unfold limited. rewrite Hb. cbn [fmap option_fmap option_map]. unfold MaxBytesReader. by rewrite decide_False by (cbn; lia).
Qed.

Lemma parse_all_ext pathParams json r r' ps params : hq_PathValues r' = hq_PathValues r -> parsed_form r' = parsed_form r ->
  parse_all pathParams json r' ps params = parse_all pathParams json r ps params.
Proof.
  intros Hp Hf. revert params. induction ps as [|p ps IH]; intros params; [done|]. cbn [parse_all].
  replace (parse_one pathParams json r' p) with (parse_one pathParams json r p).
  - destruct (parse_one _ _ _ _); [apply IH|done].
  - unfold parse_one, param_text, FormValue, PathValue. by rewrite Hp, Hf.
Qed.

Lemma limited_length r b : hq_Body (limited r) = Some b -> Z.of_nat (String.length (bd_text b)) <= 1048576.
Proof.
  unfold limited. destruct (hq_Body r) as [b0|]; [|done]. cbn. intros [= <-]. unfold MaxBytesReader.
  change maxRequestBodySize with 1048576. case_decide as Hd; [done|]. cbn [bd_text]. rewrite str_take_length; lia.
Qed.

(** The parameters of a long body. *)
Lemma limited_parameters cfg r : oversized r ->
  parseParameters cfg (limited r) = parseParameters cfg r \/
  parseParameters cfg (limited r) = Err (Wrapf "failed to parse JSON body: " too_large "") \/
  parseParameters cfg (limited r) = Err (Wrapf "failed to parse form: " too_large "").
Proof.
  intros (p & q & o & _ & Hb & ->)%limited_cut. unfold parseParameters.
  set (r' := with_body r (Some {| bd_text := p; bd_err := Some too_large |})).
  assert (json_body (tc_Parameters cfg) r' = json_body (tc_Parameters cfg) r \/
          json_body (tc_Parameters cfg) r' = Err (Wrapf "failed to parse JSON body: " too_large "")) as [Hj|Hj].
  { unfold json_body. cbn [r' with_body hq_Header hq_Body]. rewrite Hb. destruct (HasPrefix _ _); [|by left].
    destruct (json_Decode_read p too_large) as [->|Hd]; [by right|left]. by rewrite (Hd q o). }
  2: { right. left. by rewrite Hj. }
  rewrite Hj. destruct (json_body (tc_Parameters cfg) r) as [json|e]; [|by left].
  assert ((parsed_form r').1 = Some too_large \/
    (parsed_form r').1 = (parsed_form r).1 /\ ((parsed_form r').1 = None -> (parsed_form r').2 = (parsed_form r).2)) as [Hf|[Hf1 Hf2]].
  { unfold parsed_form. cbn [r' with_body hq_Method hq_Header hq_RawQuery hq_Body]. rewrite Hb.
    destruct (ParseForm_read (hq_Method r) (header_Get (hq_Header r) "Content-Type") (hq_RawQuery r) p too_large) as [Hf|Hf]; [by left|right].
    apply (Hf q o). }
  - right. right. by rewrite Hf.
  - left. rewrite <- Hf1. destruct (parsed_form r').1 as [e|] eqn:E; [done|]. apply parse_all_ext; [done|].
    apply injective_projections; [congruence|by apply Hf2].
Qed.

(** C40: the body limit.  Whatever handler the chain of the server is put before, it runs
    it on a request whose body has at most 2^20 = 1048576 bytes; on the request itself if
    its body is not longer.  For a longer one the parameters are refused with the error of
    the limit, by the JSON decoder or the form parser, unless neither needs more than the
    first 2^20 bytes, when the outcome is that of the whole body. *)
Theorem body_limit cfg r : exists r',
  (forall (mux : HttpRequest -> M (St (W := W)) unit) s, chain r mux s = recoveryMiddleware (gzipMiddleware r' (mux r')) s) /\
  (forall b, hq_Body r' = Some b -> Z.of_nat (String.length (bd_text b)) <= 1048576) /\
  (~ oversized r -> r' = r) /\
  (oversized r -> parseParameters cfg r' = parseParameters cfg r \/
     parseParameters cfg r' = Err (Wrapf "failed to parse JSON body: " too_large "") \/
     parseParameters cfg r' = Err (Wrapf "failed to parse form: " too_large "")).
Proof.
  exists (limited r). split_and!; [done|apply limited_length|apply limited_fits|apply limited_parameters].
Qed.
End BodyLimit.

Module Sample.
#[local] Instance stored : Gzip.
Proof. refine {| gzip := fun s => "GZ" +:+ s |}. by intros. Defined.

Definition panicking : M (St (W := unit)) unit := panic.

Definition asking (enc : string) : HttpRequest :=
  {| hq_Method := "GET"; hq_Path := "/"; hq_RemoteAddr := "10.0.0.1:1"; hq_Header := {["Accept-Encoding" := [enc]]};
     hq_Body := None; hq_RawQuery := ""; hq_Query := ∅; hq_PathValues := ∅; hq_Cookies := [] |}.

Definition start : St (W := unit) := {| st_world := tt; st_rw := Some blank |}.

Lemma panic_answered_witness :
  final_status (chain (asking "gzip") (fun _ => panicking) start).2 = Some 200 /\
  final_status (chain (asking "br") (fun _ => panicking) start).2 = Some 500.
Proof.
  split.
  - destruct (panic_answered (asking "gzip") panicking start blank eq_refl) as (s' & E & _ & H).
    rewrite E. apply H; [|reflexivity]. eexists _, _. split_and!; reflexivity.
  - destruct (panic_answered (asking "br") panicking start blank eq_refl) as (s' & E & _ & H).
    rewrite E. apply H; [|reflexivity]. eexists _, _. split_and!; reflexivity.
Defined.

Lemma length_string_of_list l : String.length (string_of_list_ascii l) = List.length l.
Proof. induction l; cbn; congruence. Qed.

(** A JSON body of a megabyte and one byte. *)
Import Executor.Sample.
#[local] Existing Instances sample_tables sample_walk sample_gotext sample_floats Params.Sample.sample_toint.

Definition long_request : HttpRequest :=
  with_body {| hq_Method := "POST"; hq_Path := "/"; hq_RemoteAddr := "10.0.0.1:1"; hq_RawQuery := ""; hq_Query := ∅;
     hq_Header := {["Content-Type" := ["application/json"]]}; hq_Body := None; hq_PathValues := ∅; hq_Cookies := [] |}
    (Some {| bd_text := string_of_list_ascii (repeat "1"%char (Z.to_nat 1048577)); bd_err := None |}).

Lemma body_limit_witness : oversized long_request /\ exists r',
  (forall (mux : HttpRequest -> M (St (W := unit)) unit) s,
     chain long_request mux s = recoveryMiddleware (gzipMiddleware r' (mux r')) s) /\
  let outcome := parseParameters (Handler.Sample.no_cache_trigger []) r' in
  outcome = parseParameters (Handler.Sample.no_cache_trigger []) long_request \/
  outcome = Err (Wrapf "failed to parse JSON body: " too_large "") \/
  outcome = Err (Wrapf "failed to parse form: " too_large "").
Proof.
  assert (oversized long_request) as Hlong.
  { eexists. split; [reflexivity|]. cbn [bd_text]. rewrite length_string_of_list, repeat_length. lia. }
  split; [exact Hlong|].
  destruct (body_limit (W := unit) (Handler.Sample.no_cache_trigger []) long_request) as (r' & Hm & _ & _ & Hp).
  exists r'. split; [exact Hm|exact (Hp Hlong)].
Defined.

(** Two response steps: the client gets the status of the first, the metrics record
    that of the second. *)
Example second_status_recorded :
  let w := sw_calls [WriteHeader 201; Write "a"; WriteHeader 404; Write "b"] in
  rw_status w = Some 201 /\ rw_recorded w = 404.
Proof. done. Qed.
End Sample.
