(* ===== verification/TmplEngine.v ===== *)
(** * internal/tmpl/engine.go: the template engine

    [text/template] is the standard library's: a template has a parse tree, whose
    node types are those of [text/template/parse] as far as the code tells them
    apart, and executing it on data gives a text or an error.  The engine's own
    part is modelled: registration, execution, and the validation of key
    templates, which walks the parse tree.  The engine discharges the interface
    [KeyEngine] through which the rate limiter evaluates its keys. *)
From S2P Require Import Prelude GoStrings Patterns GoValues Numbers PublicID RateLimit WfConfig Handler Adapters.

(** ** Parse trees *)

(** The arguments of a command; [PipeArg] is a parenthesised pipeline.  A pipeline
    is the list of its commands, a command the list of its arguments. *)
Inductive Arg : Type :=
| FieldNode (ident : list string)
| ChainNode (node : option Arg) (field : list string)
| PipeArg (cmds : list (list Arg))
| VariableNode (ident : list string)
| OtherArg (text : string).

Abbreviation Pipe := (list (list Arg)).

(** The nodes of a template; an absent else branch is a [nil] list. *)
Inductive Node : Type :=
| TextNode (text : string)
| ListNode (nodes : option (list Node))
| ActionNode (pipe : option Pipe)
| IfNode (pipe : option Pipe) (body els : option (list Node))
| RangeNode (pipe : option Pipe) (body els : option (list Node))
| WithNode (pipe : option Pipe) (body els : option (list Node))
| TemplateNode (name : string) (pipe : option Pipe)
| OtherNode (text : string).

(** The functions a template is parsed with: those of [BaseFuncMap], or the
    engine's, which adds [publicID] and [privateID] on its encoder. *)
Inductive Funcs := BaseFuncs | EngineFuncs (publicIDs : option Encoder).

(** [template.New(name).Funcs(f).Option("missingkey=error").Parse(text)] *)
Class TextTemplate := {
  parsed : Type;
  Parse : Funcs -> string -> string -> result parsed;
  Root : parsed -> option Node;
  tmpl_Execute : parsed -> Funcs -> row -> result string;
}.

(** ** Field paths *)

Definition Join (l : list string) (sep : string) : string :=
  match l with [] => "" | s :: l => foldl (fun acc x => acc +:+ sep +:+ x) s l end.

Fixpoint extractPathsFromArg (arg : Arg) : gset string :=
  match arg with
  | FieldNode ident => if decide (ident = []) then ∅ else {[ "." +:+ Join ident "." ]}
  | ChainNode (Some n) _ => extractPathsFromArg n
  | PipeArg cmds => ⋃ (map (fun args => ⋃ (map extractPathsFromArg args)) cmds)
  | _ => ∅
  end.

Definition extractPathsFromPipe (pipe : option Pipe) : gset string :=
  match pipe with
  | None => ∅
  | Some cmds => ⋃ (map (fun args => ⋃ (map extractPathsFromArg args)) cmds)
  end.

Fixpoint extractFieldPaths (node : Node) : gset string :=
  let list_paths (l : option (list Node)) : gset string :=
    match l with None => ∅ | Some l => ⋃ (map extractFieldPaths l) end in
  match node with
  | ListNode l => list_paths l
  | ActionNode p => extractPathsFromPipe p
  | IfNode p body els | RangeNode p body els | WithNode p body els =>
    extractPathsFromPipe p ∪ list_paths body ∪ list_paths els
  | TemplateNode _ p => extractPathsFromPipe p
  | _ => ∅
  end.

Definition validPathPrefixes : list string := [".trigger"; ".steps"; ".workflow"; ".iter"; ".parent"].

Definition isValidPath (path : string) : bool := existsb (HasPrefix path) validPathPrefixes.

(** The sample data of [Validate]. *)
Definition sampleContextMap : row :=
  list_to_map [
    ("trigger", AMap (list_to_map [
       ("client_ip", AStr "192.168.1.1"); ("method", AStr "GET"); ("path", AStr "/api/sample");
       ("params", AMap ∅); ("headers", AStrMap ∅); ("query", AStrMap ∅); ("cookies", AStrMap ∅)]));
    ("RequestID", AStr "sample-request-id"); ("Timestamp", AStr "2024-01-01T00:00:00Z");
    ("Version", AStr "1.0.0")].

(** The execution errors that only mean that the sample lacks a value. *)
Definition expected_error (e : error) : bool :=
  Contains (Error e) "map has no entry" || Contains (Error e) "not found" || Contains (Error e) "is empty".

(** ** Parameter references (tmpl/context.go)

    The regular expression is greedy: of several references in one action the
    last one is captured. *)
Definition param_ref_at (s : string) : option string :=
  if HasPrefix s ".trigger.params." then
    fst <$> take_ident (TrimPrefix s ".trigger.params.")
  else None.

Fixpoint last_param_ref (body : string) : option string :=
  match body with
  | EmptyString => None
  | String _ r => match last_param_ref r with Some w => Some w | None => param_ref_at body end
  end.

(** A match at the head of the text: the name captured and what follows. *)
Definition param_action_at (s : string) : option (string * string) :=
  if HasPrefix s "{{" then
    let '(body, rest) := span not_brace (TrimPrefix s "{{") in
    if HasPrefix rest "}}" then (fun w => (w, TrimPrefix rest "}}")) <$> last_param_ref body else None
  else None.

Fixpoint param_refs_fuel (fuel : nat) (s : string) : list string :=
  match fuel, s with
  | S fuel, String _ r =>
    match param_action_at s with
    | Some (w, rest) => w :: param_refs_fuel fuel rest
    | None => param_refs_fuel fuel r
    end
  | _, _ => []
  end.

(** The first occurrences, in order. *)
Fixpoint dedup (seen : gset string) (l : list string) : list string :=
  match l with
  | [] => []
  | w :: l => if decide (w ∈ seen) then dedup seen l else w :: dedup ({[w]} ∪ seen) l
  end.

Definition ExtractParamRefs (tmpl : string) : list string :=
  dedup ∅ (param_refs_fuel (String.length tmpl) tmpl).

(** ** The engine *)

Section Engine.
Context `{UnicodeTables, TextTemplate, FloatToInt, MapWalk}.

Record Engine := { en_templates : gmap string parsed; en_publicIDs : option Encoder }.

Definition engine_New : Engine := {| en_templates := ∅; en_publicIDs := None |}.

Definition SetPublicIDEncoder (e : Engine) (enc : Encoder) : Engine :=
  {| en_templates := en_templates e; en_publicIDs := Some enc |}.

Definition funcs (e : Engine) : Funcs := EngineFuncs (en_publicIDs e).

Definition publicIDFunc (e : Engine) (namespace : string) (id : any) : result string :=
  match en_publicIDs e with
  | None => Err (Errorf "publicID: encoder not configured")
  | Some enc =>
    match id with
    | AInt v | AInt64 v => Encode enc namespace v
    | AFloat v => Encode enc namespace (float_to_int v)
    | _ => Err (Errorf ("publicID: invalid id type " +:+ type_name id))
    end
  end.

Definition privateIDFunc (e : Engine) (namespace publicID : string) : result Z :=
  match en_publicIDs e with
  | None => Err (Errorf "privateID: encoder not configured")
  | Some enc => Decode enc namespace publicID
  end.

Definition Register (e : Engine) (name tmplStr : string) : result unit * Engine :=
  if decide (tmplStr = "") then (Err (Errorf ("template " +:+ Quote name +:+ ": empty template")), e)
  else match Parse (funcs e) name tmplStr with
  | Err err => (Err (Wrapf ("template " +:+ Quote name +:+ ": ") err ""), e)
  | Ok t => (Ok tt, {| en_templates := <[name := t]> (en_templates e); en_publicIDs := en_publicIDs e |})
  end.

Definition engine_Execute (e : Engine) (name : string) (ctx : TmplContext) : result string :=
  match en_templates e !! name with
  | None => Err (Errorf ("template " +:+ Quote name +:+ " not registered"))
  | Some t =>
    try r := tmpl_Execute t (funcs e) (toMap ctx) in
    if decide (r = "") then Err (Errorf ("template " +:+ Quote name +:+ " produced empty result")) else Ok r
  end.

Definition engine_ExecuteInline (e : Engine) (tmplStr : string) (ctx : TmplContext) : result string :=
  if decide (tmplStr = "") then Err (Errorf "empty template")
  else
    try t := Parse (funcs e) "inline" tmplStr in
    try r := tmpl_Execute t (funcs e) (toMap ctx) in
    if decide (r = "") then Err (Errorf "template produced empty result") else Ok r.

Definition invalid_path (path : string) : error :=
  Errorf ("invalid template path " +:+ Quote path +:+
          " - must start with .trigger, .steps, .workflow, .iter, or .parent").

(** The first invalid path in the order the map is walked. *)
Definition check_paths (t : parsed) : option error :=
  match Root t with
  | None => None
  | Some root =>
    let paths := (walk (gset_to_gmap tt (extractFieldPaths root))).*1 in
    invalid_path <$> List.find (fun p => negb (isValidPath p)) paths
  end.

Definition Validate (e : Engine) (tmplStr : string) : option error :=
  if decide (tmplStr = "") then Some (Errorf "empty template")
  else match Parse (funcs e) "validate" tmplStr with
  | Err err => Some (Wrapf "parse error: " err "")
  | Ok t =>
    match check_paths t with
    | Some err => Some err
    | None =>
      match tmpl_Execute t (funcs e) sampleContextMap with
      | Ok _ => None
      | Err err => if expected_error err then None else Some (Wrapf "execution error: " err "")
      end
    end
  end.

Definition ValidateWithParams (e : Engine) (tmplStr : string) (paramNames : list string) : option error :=
  match Validate e tmplStr with
  | Some err => Some err
  | None =>
    (fun ref => Errorf ("template references .trigger.params." +:+ ref +:+ " but no such parameter defined"))
      <$> List.find (fun ref => negb (bool_decide (ref ∈ paramNames))) (ExtractParamRefs tmplStr)
  end.

(** The engine behind the rate limiter. *)
Definition engine_keys (e : Engine) : KeyEngine TmplContext :=
  {| RateLimit.engine_Validate := Validate e; RateLimit.ExecuteInline := engine_ExecuteInline e |}.
End Engine.

(** ** The paths a template mentions *)

(** The field chains in argument position, at any depth of parentheses. *)
Inductive arg_mentions (p : string) : Arg -> Prop :=
| am_field ident : ident <> [] -> p = "." +:+ Join ident "." -> arg_mentions p (FieldNode ident)
| am_chain n field : arg_mentions p n -> arg_mentions p (ChainNode (Some n) field)
| am_pipe cmds args a : args ∈ cmds -> a ∈ args -> arg_mentions p a -> arg_mentions p (PipeArg cmds).

Definition pipe_mentions (p : string) (pipe : option Pipe) : Prop :=
  exists cmds args a, pipe = Some cmds /\ args ∈ cmds /\ a ∈ args /\ arg_mentions p a.

(** A branching node has a pipeline and two lists. *)
Definition branches (n : Node) : option (option Pipe * list Node) :=
  match n with
  | ListNode l => Some (None, default [] l)
  | ActionNode p | TemplateNode _ p => Some (p, [])
  | IfNode p body els | RangeNode p body els | WithNode p body els => Some (p, default [] body ++ default [] els)
  | _ => None
  end.

(** The paths of a tree: those of its own pipeline and those of the nodes below. *)
Inductive mentions (p : string) : Node -> Prop :=
| me_pipe n pipe l : branches n = Some (pipe, l) -> pipe_mentions p pipe -> mentions p n
| me_below n pipe l n' : branches n = Some (pipe, l) -> n' ∈ l -> mentions p n' -> mentions p n.

Fixpoint arg_size (a : Arg) : nat :=
  match a with
  | ChainNode (Some n) _ => S (arg_size n)
  | PipeArg cmds => S (sum_list (map (fun args => sum_list (map arg_size args)) cmds))
  | _ => 1
  end.

Fixpoint node_size (n : Node) : nat :=
  let size_of (l : option (list Node)) := match l with None => 0%nat | Some l => sum_list (map node_size l) end in
  match n with
  | ListNode l => S (size_of l)
  | IfNode _ b e | RangeNode _ b e | WithNode _ b e => S (size_of b + size_of e)
  | _ => 1
  end.

Lemma elem_sum_list {A} (f : A -> nat) l x : x ∈ l -> (f x <= sum_list (map f l))%nat.
Proof. induction 1; simpl; lia. Qed.

Lemma elem_union_map {A} (f : A -> gset string) l p : p ∈ ⋃ (map f l) <-> exists x, x ∈ l /\ p ∈ f x.
Proof.
  rewrite elem_of_union_list. setoid_rewrite list_elem_of_fmap. naive_solver.
Qed.

Lemma extractPathsFromArg_spec p a : p ∈ extractPathsFromArg a <-> arg_mentions p a.
Proof.
  induction a as [a IH] using (well_founded_induction (well_founded_ltof _ arg_size)). unfold ltof in IH. split.
  - destruct a as [ident|[n|] field|cmds|ident|text]; cbn [extractPathsFromArg]; try by intros ?%elem_of_empty.
    + case_decide; [by intros ?%elem_of_empty|]. intros Hj%elem_of_singleton. by constructor.
    + intros Hp. constructor. apply IH; simpl; [lia|done].
    + rewrite elem_union_map. intros (args & Ha & Hp). rewrite elem_union_map in Hp. destruct Hp as (a' & Ha' & Hp).
      apply (am_pipe _ _ args a'); try done. apply IH; [|done].
      pose proof (elem_sum_list arg_size _ _ Ha').
      pose proof (elem_sum_list (fun args => sum_list (map arg_size args)) _ _ Ha). simpl in *. lia.
  - intros Hm. destruct Hm as [ident Hi Hj|n field Hm|cmds args a' Ha Ha' Hm]; cbn [extractPathsFromArg].
    + rewrite decide_False by done. by apply elem_of_singleton.
    + apply IH; [simpl; lia|done].
    + apply elem_union_map. exists args. split; [done|]. apply elem_union_map. exists a'. split; [done|].
      apply IH; [|done]. pose proof (elem_sum_list arg_size _ _ Ha').
      pose proof (elem_sum_list (fun args => sum_list (map arg_size args)) _ _ Ha). simpl in *. lia.
Qed.

Lemma extractPathsFromPipe_spec p pipe : p ∈ extractPathsFromPipe pipe <-> pipe_mentions p pipe.
Proof.
  unfold pipe_mentions. destruct pipe as [cmds|]; cbn [extractPathsFromPipe];
    [|split; [by intros ?%elem_of_empty|naive_solver]].
  rewrite elem_union_map. setoid_rewrite elem_union_map. setoid_rewrite extractPathsFromArg_spec. naive_solver.
Qed.

Lemma extract_branches p n : p ∈ extractFieldPaths n <->
  exists pipe l, branches n = Some (pipe, l) /\
    (pipe_mentions p pipe \/ exists n', n' ∈ l /\ p ∈ extractFieldPaths n').
Proof.
  assert (forall l : option (list Node), p ∈ (match l with None => ∅ | Some l => ⋃ (map extractFieldPaths l) end : gset string)
    <-> exists n', n' ∈ default [] l /\ p ∈ extractFieldPaths n') as Hl.
  { intros [l|]; simpl; [apply elem_union_map|]. split; [by intros ?%elem_of_empty|].
    intros (n' & []%not_elem_of_nil & _). }
  assert (~ pipe_mentions p None) as Hnone by (unfold pipe_mentions; naive_solver).
  assert (forall pipe b e, (pipe_mentions p pipe \/ (exists n', n' ∈ b /\ p ∈ extractFieldPaths n')) \/
      (exists n', n' ∈ e /\ p ∈ extractFieldPaths n') <->
    exists pipe' l, Some (pipe, b ++ e) = Some (pipe', l) /\
      (pipe_mentions p pipe' \/ exists n', n' ∈ l /\ p ∈ extractFieldPaths n')) as Hb.
  { intros pipe b e. split.
    - intros Hp. exists pipe, (b ++ e). split; [done|]. setoid_rewrite elem_of_app. naive_solver.
    - intros (pipe' & l & [= <- <-] & Hp). setoid_rewrite elem_of_app in Hp. naive_solver. }
  assert (forall pipe, pipe_mentions p pipe <-> exists pipe' l, Some (pipe, []) = Some (pipe', l) /\
      (pipe_mentions p pipe' \/ exists n' : Node, n' ∈ l /\ p ∈ extractFieldPaths n')) as Hp.
  { intros pipe. split; [naive_solver|]. intros (? & ? & [= <- <-] & [?|(? & []%not_elem_of_nil & _)]); done. }
  destruct n; cbn [extractFieldPaths branches]; rewrite ?elem_of_union, ?Hl, ?extractPathsFromPipe_spec;
    [|split; [naive_solver|]; intros (? & ? & [= <- <-] & [?|?]); naive_solver|apply Hp|apply Hb..|apply Hp|];
    (split; [by intros ?%elem_of_empty|naive_solver]).
Qed.

Lemma below_smaller n pipe l n' : branches n = Some (pipe, l) -> n' ∈ l -> (node_size n' < node_size n)%nat.
Proof.
  assert (forall ol : option (list Node), n' ∈ default [] ol ->
    (node_size n' <= match ol with None => 0 | Some l => sum_list (map node_size l) end)%nat) as Hs.
  { intros [ol|] Hn; simpl in *; [by apply elem_sum_list|by apply not_elem_of_nil in Hn]. }
  destruct n; simpl; intros [= <- <-]; rewrite ?elem_of_app; intros Hn;
    try (by apply not_elem_of_nil in Hn); try (apply Hs in Hn; lia).
  all: destruct Hn as [Hn|Hn]; apply Hs in Hn; lia.
Qed.

Lemma extractFieldPaths_spec p n : p ∈ extractFieldPaths n <-> mentions p n.
Proof.
  induction n as [n IH] using (well_founded_induction (well_founded_ltof _ node_size)). unfold ltof in IH. rewrite extract_branches. split.
  - intros (pipe & l & Hb & [Hp|(n' & Hn & Hp)]); [by eapply me_pipe|].
    apply (me_below _ _ pipe l n'); [done..|]. by apply (IH _ (below_smaller _ _ _ _ Hb Hn)).
  - intros Hm. inversion Hm as [n1 pipe l Hb Hp|n1 pipe l n' Hb Hn Hm']; exists pipe, l; (split; [done|]); [by left|].
    right. exists n'. split; [done|]. by apply (IH _ (below_smaller _ _ _ _ Hb Hn)).
Qed.

(** ** Key templates *)

Section Keys.
Context `{UnicodeTables, TextTemplate, FloatToInt, MapWalk}.

Lemma find_None_forall {A} (f : A -> bool) l : List.find f l = None <-> forall x, x ∈ l -> f x = false.
Proof.
  split.
  - intros Hf x Hx. apply (find_none _ _ Hf). by apply list_elem_of_In.
  - intros Hl. destruct (List.find f l) as [x|] eqn:E; [|done].
    apply find_some in E as [Hx%list_elem_of_In Hf]. by rewrite Hl in Hf.
Qed.

Lemma isValidPath_spec path : isValidPath path = true <->
  exists prefix rest, prefix ∈ validPathPrefixes /\ path = prefix +:+ rest.
Proof.
  unfold isValidPath. rewrite existsb_exists. setoid_rewrite <- list_elem_of_In.
  unfold HasPrefix. setoid_rewrite prefix_spec. naive_solver.
Qed.

Lemma check_paths_None t : check_paths t = None <->
  forall root p, Root t = Some root -> mentions p root -> isValidPath p = true.
Proof.
  unfold check_paths. destruct (Root t) as [root|]; [|naive_solver].
  rewrite fmap_None, find_None_forall. split.
  - intros Hf root' p [= <-] Hp. specialize (Hf p). rewrite negb_false_iff in Hf. apply Hf.
    apply extractFieldPaths_spec in Hp. apply list_elem_of_fmap. exists (p, tt). split; [done|].
    apply walk_elem. by apply lookup_gset_to_gmap_Some.
  - intros Hm p ((p' & []) & -> & Hp%walk_elem)%list_elem_of_fmap. apply negb_false_iff, (Hm root); [done|].
    apply lookup_gset_to_gmap_Some in Hp as [Hp _]. by apply extractFieldPaths_spec.
Qed.

(** C12: a key template is accepted exactly when it is not empty and parses, every field
    path it mentions, in any pipeline, branch or parenthesis, begins with one of the
    five roots, and running it on the sample data succeeds or fails only for want of
    a value. *)
Theorem Validate_spec e tmplStr : Validate e tmplStr = None <->
  tmplStr <> "" /\ exists t, Parse (funcs e) "validate" tmplStr = Ok t /\
    (forall root path, Root t = Some root -> mentions path root ->
       exists prefix rest, prefix ∈ validPathPrefixes /\ path = prefix +:+ rest) /\
    match tmpl_Execute t (funcs e) sampleContextMap with
    | Ok _ => True
    | Err err => expected_error err = true
    end.
Proof.
  unfold Validate. setoid_rewrite <- isValidPath_spec. case_decide as Hs; [naive_solver|].
  destruct (Parse _ _ _) as [t|err]; [|naive_solver].
  destruct (check_paths t) as [err|] eqn:Ec.
  - split; [done|]. intros (_ & t' & <-%Ok_inj & Hp & _). apply check_paths_None in Hp. congruence.
  - split.
    + intros Hx. split; [done|]. exists t. split; [done|]. rewrite check_paths_None in Ec. split; [done|].
      destruct (tmpl_Execute _ _ _); [done|]. by destruct (expected_error _).
    + intros (_ & t' & <-%Ok_inj & _ & Hx). destruct (tmpl_Execute _ _ _); [done|]. by rewrite Hx.
Qed.
End Keys.

(** ** Buckets and their keys *)

(** Whatever holds of every key the engine evaluates holds of every bucket there is. *)
Section Keyed.
Context {Ctx : Type} `{UnicodeTables, TokenBucket, !KeyEngine Ctx} (good : string -> Prop).
Context (good_keys : forall tm ctx key, ExecuteInline tm ctx = Ok key -> good key).

Definition keyed (l : Limiter) : Prop := forall r key b, bucket_of l r key = Some b -> good key.

Lemma store_keyed l r p : keyed l -> (forall key, is_Some (p_buckets p !! key) -> good key) ->
  keyed (store_pool l r p).
Proof.
  intros Hl Hp r' key b. unfold bucket_of. rewrite lookup_store_pool. case_decide; [|apply Hl].
  simpl. intros Hb. apply Hp. by eexists.
Qed.

Lemma pool_keyed l r p : keyed l -> lookup_pool l r = Some p -> forall key, is_Some (p_buckets p !! key) -> good key.
Proof. intros Hl Hp key [b Hb]. apply (Hl r key b). unfold bucket_of. by rewrite Hp. Qed.

Lemma allow_in_keyed l r p tm ctx clk : keyed l -> lookup_pool l r = Some p -> keyed (allow_in l r p tm ctx clk).2.
Proof.
  intros Hl Hp. destruct (ExecuteInline tm ctx) as [k|] eqn:Ek; [|unfold allow_in; by rewrite Ek].
  rewrite (allow_in_Ok _ _ _ _ _ _ _ Ek). destruct (decision _ _) as [al re]. cbn [snd].
  apply store_keyed; [intros r' key b; unfold bucket_of; rewrite count_lookup; apply Hl|].
  intros key Hk. pose proof (maybeCleanup_lookup
    (set_buckets p (<[k := after_use (default_bucket p k) clk]> (p_buckets p)) (p_lastClean p)) (clk 5%nat) key) as Hc.
  destruct Hc as [Hc|[Hc _]]; rewrite Hc in Hk; [|by destruct Hk]. simpl in Hk.
  rewrite lookup_insert in Hk. destruct (decide (k = key)) as [<-|]; [by apply (good_keys tm ctx)|].
  by apply (pool_keyed l r p).
Qed.

Lemma ensure_inline_keyed l limit : keyed l -> keyed (ensure_inline l limit).2.
Proof.
  intros Hl. unfold ensure_inline. destruct (l_inlinePools l !! _) as [p|] eqn:E; [done|].
  intros [n|k] key b; unfold bucket_of; simpl; [apply (Hl (Named n) key b)|].
  rewrite lookup_insert. case_decide; [by simpl|]. apply (Hl (Inline k) key b).
Qed.

Lemma allowOne_keyed l limit ctx clk : keyed l -> keyed (allowOne l limit ctx clk).2.
Proof.
  intros Hl. unfold allowOne. destruct (IsPoolReference limit).
  - destruct (l_pools l !! rl_Pool limit) as [p|] eqn:Ep; [|done]. by apply allow_in_keyed.
  - destruct (IsInline limit); [|done]. pose proof (ensure_inline_keyed l limit Hl) as He.
    pose proof (ensure_inline_lookup l limit) as Hp.
    destruct (ensure_inline l limit) as [p l']. destruct Hp as [Hp _]. by apply allow_in_keyed.
Qed.

Lemma Allow_keyed l limits ctx clk : keyed l -> keyed (Allow l limits ctx clk).2.
Proof.
  revert l clk. induction limits as [|limit limits IH]; intros l clk Hl; cbn [Allow]; [done|].
  pose proof (allowOne_keyed l limit ctx (clk 0%nat) Hl) as H'.
  destruct (allowOne l limit ctx (clk 0%nat)) as [[[[[] re] pn]|e] l']; simpl; try done. by apply IH.
Qed.

Lemma op_keyed l o : keyed l -> keyed (exec_op l o).
Proof.
  intros Hl. destruct o as [limits ctx clk|now|name now|name key]; cbn [exec_op].
  - by apply Allow_keyed.
  - intros [n|k] key b; unfold bucket_of; simpl; rewrite lookup_fmap; by destruct (_ !! _).
  - unfold ResetPool. destruct (find_pool l name) as [[r p]|] eqn:E; [|done]. cbn. apply store_keyed; [done|].
    intros key. simpl. by intros [].
  - unfold ResetKey. destruct (find_pool l name) as [[r p]|] eqn:E; [|done]. apply find_pool_lookup in E.
    pose proof (pool_keyed _ _ _ Hl E) as Hp. unfold pool_ResetKey. case_decide; cbn; apply store_keyed; try done.
    intros key'. simpl. rewrite lookup_delete. case_decide; [by intros []|apply Hp].
Qed.

Lemma ops_keyed l ops : keyed l -> keyed (foldl exec_op l ops).
Proof. revert l. induction ops as [|o ops IH]; intros l Hl; simpl; [done|]. by apply IH, op_keyed. Qed.
End Keyed.

Section Composed.
Context `{UnicodeTables, TokenBucket, TextTemplate, FloatToInt, MapWalk}.

Lemma engine_key_nonempty e tm ctx key : engine_ExecuteInline e tm ctx = Ok key -> key <> "".
Proof.
  unfold engine_ExecuteInline. case_decide; [done|]. destruct (Parse _ _ _) as [t|]; simpl; [|done].
  destruct (tmpl_Execute _ _ _) as [r|]; simpl; [|done]. case_decide; [done|]. by intros <-%Ok_inj.
Qed.

(** the limiter on the real engine.  If the limiter can be built, every configured key
    template passed validation; and after any sequence of requests and resets no
    pool, named or inline, has a bucket with an empty key: a template that evaluates
    to nothing refuses the request instead of pooling it with others. *)
Theorem engine_keyed_buckets e cfgs l ops
    (Hnew : RateLimit.New (H1 := engine_keys e) cfgs = Ok l) :
  Forall (fun cfg => Validate e (pc_Key cfg) = None) cfgs /\
  forall r, bucket_of (foldl (exec_op (H1 := engine_keys e)) l ops) r "" = None.
Proof.
  apply add_pools_Ok in Hnew as (Hok & Hnd & _ & ->). split.
  { eapply Forall_impl; [exact Hok|]. by intros cfg (_ & _ & _ & _ & Hv). }
  intros r. destruct (bucket_of _ r "") as [b|] eqn:E; [|done]. exfalso.
  apply (ops_keyed (fun key => key <> "")) in E; [done|intros tm ctx key Hk; exact (engine_key_nonempty e tm ctx key Hk)|].
  assert (keyed (fun key => key <> "") empty_limiter) as H0'.
  { intros [n|k] key b'; unfold bucket_of; simpl; by rewrite lookup_empty. }
  revert H0'. clear Hok Hnd E. generalize empty_limiter.
  induction cfgs as [|cfg cfgs IH]; intros l Hl; cbn [foldl]; [done|]. apply IH.
  intros [n|k] key b'; unfold bucket_of; simpl; [|apply (Hl (Inline k) key b')].
  rewrite lookup_insert. case_decide; [by simpl|]. apply (Hl (Named n) key b').
Qed.
End Composed.

(** ** Evaluation at concrete inputs *)

Module Sample.
(** Templates of one field access, or plain text. *)
Fixpoint split_dots (cur s : string) : list string :=
  match s with
  | EmptyString => [cur]
  | String c r => if decide (c = "."%char) then cur :: split_dots "" r else split_dots (cur +:+ String c "") r
  end.

Inductive tiny := Plain (s : string) | Field (path : list string) | Var (path : list string).

Definition tiny_parse (s : string) : result tiny :=
  let inner := str_take (String.length s - 4) (str_drop 2 s) in
  if HasPrefix s "{{." && HasSuffix s "}}" then Ok (Field (split_dots "" (str_drop 1 inner)))
  else if HasPrefix s "{{$." && HasSuffix s "}}" then Ok (Var (split_dots "" (str_drop 2 inner)))
  else if HasPrefix s "{{" then Err (Errorf "unexpected action") else Ok (Plain s).

Fixpoint tiny_walk (v : any) (path : list string) : result string :=
  match path, v with
  | [], AStr s => Ok s
  | [], _ => Ok "<value>"
  | k :: path, AMap m =>
    match m !! k with Some v' => tiny_walk v' path | None => Err (Errorf "map has no entry for key") end
  | _, _ => Err (Errorf "cannot evaluate field")
  end.

Definition tiny_exec (t : tiny) (data : row) : result string :=
  match t with Plain s => Ok s | Field p | Var p => tiny_walk (AMap data) p end.

Definition tiny_templates : TextTemplate := {|
  parsed := tiny;
  Parse := fun _ _ => tiny_parse;
  Root := fun t => Some (ListNode (Some [match t with
    | Plain s => TextNode s
    | Field p => ActionNode (Some [[FieldNode p]])
    | Var p => ActionNode (Some [[VariableNode ("$" :: p)]]) end]));
  tmpl_Execute := fun t _ => tiny_exec t |}.

#[local] Existing Instances sample_tables RateLimit.sample_bucket tiny_templates sample_walk.

Definition accepts (s : string) : bool := bool_decide (Validate engine_New s = None).

(** The roots are those of workflow templates: a key that names a step, which no
    request has, is accepted; the request id, which every request has, is not. *)
Example key_roots :
  (accepts "{{.trigger.client_ip}}", accepts "{{.steps.fetch}}", accepts "{{.request_id}}", accepts "{{$.RequestID}}")
  = (true, true, false, true).
Proof. by vm_compute. Qed.

Lemma not_ok {A} (r : result A) : is_ok r = false -> exists e, r = Err e.
Proof. destruct r; [done|]. by eexists. Qed.

(** Both accepted keys fail on every request. *)
Example accepted_key_always_fails ctx :
  is_ok (engine_ExecuteInline engine_New "{{.steps.fetch}}" ctx) = false /\
  is_ok (engine_ExecuteInline engine_New "{{$.RequestID}}" ctx) = false.
Proof. by destruct ctx. Qed.

(** Only the last reference of an action is seen. *)
Example first_reference_missed :
  ExtractParamRefs "{{printf .trigger.params.a .trigger.params.b}}" = ["b"].
Proof. by vm_compute. Qed.

Definition ip_pool : RateLimitPoolConfig :=
  {| pc_Name := "api"; pc_RequestsPerSecond := 5; pc_Burst := 1; pc_Key := "{{.trigger.client_ip}}" |}.
Definition from (ip : string) : TmplContext :=
  {| tx_Trigger := Some {| tr_Params := ∅; tr_ClientIP := ip; tr_Method := ""; tr_Path := ""; tr_Headers := ∅;
       tr_Query := ∅; tr_Cookies := ∅ |};
     tx_RequestID := ""; tx_Timestamp := ""; tx_Version := "" |}.
Definition by_pool : RateLimitRefConfig :=
  {| rl_Pool := "api"; rl_RequestsPerSecond := 0; rl_Burst := 0; rl_Key := "" |}.

Lemma engine_keyed_buckets_witness :
  bucket_of (foldl (exec_op (H1 := engine_keys engine_New)) (foldl with_pool empty_limiter [ip_pool])
    [LAllow [by_pool] (from "") (fun _ _ => 0); LAllow [by_pool] (from "10.0.0.1") (fun _ _ => 0)]) (Named "api") "" = None.
Proof.
  apply (engine_keyed_buckets engine_New [ip_pool]). apply (add_pools_Ok (H1 := engine_keys engine_New)).
  split_and!; [|by apply NoDup_singleton|by constructor|done]. constructor; [|done]. split_and!; try done.
Defined.
End Sample.
