(* ===== verification/ConfigLoad.v ===== *)
(** * internal/config: loading the configuration

    The configuration records, [Load] with its two passes over the YAML text, the
    expansion of [${VAR:default}] and [{{.vars.X}}], and the rendering of the
    fields that must be known before the program runs (config.go,
    static_template.go).  The file system, the environment, YAML and the env file
    parser are parameters; templates are those of [TmplEngine]. *)
From S2P Require Import Prelude GoStrings Patterns GoValues PublicID RateLimit WfConfig DbText Cache TmplEngine.

(** ** The configuration *)

Record VariablesConfig := { va_EnvFile : string; va_Values : option (gmap string string) }.
Record PublicIDsConfig := { pi_SecretKey : string; pi_Namespaces : list NamespaceConfig }.
Record LoggingConfig := {
  lg_Level : string; lg_FilePath : string; lg_MaxSizeMB : Z; lg_MaxBackups : Z; lg_MaxAgeDays : Z;
}.
Record DebugConfig := { de_Enabled : bool; de_Port : Z; de_Host : string }.
Record ServerConfig := {
  sv_Port : Z; sv_Host : string; sv_DefaultTimeoutSec : Z; sv_MaxTimeoutSec : Z;
  sv_Cache : option Cache.CacheConfig; sv_TrustProxyHeaders : bool; sv_APIVersion : string;
  sv_Version : string; sv_BuildTime : string;
}.

Record Config := {
  cf_Server : ServerConfig; cf_Databases : list DatabaseConfig; cf_Logging : LoggingConfig;
  cf_Metrics_Enabled : bool; cf_Debug : DebugConfig; cf_RateLimits : list RateLimitPoolConfig;
  cf_Workflows : list WorkflowConfig; cf_Variables : VariablesConfig; cf_PublicIDs : option PublicIDsConfig;
}.

(** ** Replacing the matches of a pattern

    Go's [ReplaceAllStringFunc] and [FindAllStringSubmatch] visit the same
    matches: leftmost, not overlapping.  A pattern is what it matches at the head
    of a text: the text matched, its captures, and the rest.  A text falls apart
    into the matches and the single bytes between them. *)
Section Scan.
Context {A : Type} (at_ : string -> option (string * A * string)).

Abbreviation token := (string * option A)%type.

Fixpoint tokens_fuel (fuel : nat) (s : string) : list token :=
  match fuel, s with
  | S fuel, String c r =>
    match at_ s with
    | Some (raw, a, rest) => (raw, Some a) :: tokens_fuel fuel rest
    | None => (String c "", None) :: tokens_fuel fuel r
    end
  | _, _ => []
  end.

Definition tokens (s : string) : list token := tokens_fuel (String.length s) s.

Definition find_all (s : string) : list A := omap snd (tokens s).

Definition replace_all (f : string -> A -> string) (s : string) : string :=
  cat ((fun t => match t.2 with Some a => f t.1 a | None => t.1 end) <$> tokens s).
End Scan.

(** ** [${VAR}] and [${VAR:default}] *)

Definition name_byte (c : ascii) : bool := not_brace c && negb (Ascii.eqb c ":").

(** The variable and the default, which is empty if there is none. *)
Definition var_ref_at (s : string) : option (string * (string * string) * string) :=
  if HasPrefix s "${" then
    let '(name, r) := span name_byte (TrimPrefix s "${") in
    if decide (name = "") then None
    else match r with
    | EmptyString => None
    | String c r =>
      if decide (c = "}"%char) then Some ("${" +:+ name +:+ "}", (name, ""), r)
      else
        let '(d, r) := span not_brace r in
        match r with
        | EmptyString => None
        | String _ r => Some ("${" +:+ name +:+ ":" +:+ d +:+ "}", (name, d), r)
        end
    end
  else None.

Definition var_value (f : string -> option string) (nd : string * string) : string := default nd.2 (f nd.1).

Definition expand_with (f : string -> option string) (s : string) : string :=
  replace_all var_ref_at (fun _ nd => var_value f nd) s.

Definition expandVars (s : string) (lookup : gmap string string) : string := expand_with (fun x => lookup !! x) s.

(** The variables a value refers to. *)
Definition var_names (s : string) : list string := fst <$> find_all var_ref_at s.

(** ** [{{.vars.X}}] *)

(** [\s]: tab, newline, form feed, carriage return, space. *)
Definition re_space (c : ascii) : bool := in_range 9 10 c || in_range 12 13 c || Ascii.eqb c " ".

Definition vars_template_at (s : string) : option (string * string * string) :=
  if HasPrefix s "{{" then
    let '(sp1, r) := span re_space (TrimPrefix s "{{") in
    if HasPrefix r ".vars." then
      match take_ident (TrimPrefix r ".vars.") with
      | None => None
      | Some (name, r) =>
        let '(sp2, r) := span re_space r in
        if HasPrefix r "}}" then
          Some ("{{" +:+ sp1 +:+ ".vars." +:+ name +:+ sp2 +:+ "}}", name, TrimPrefix r "}}")
        else None
      end
    else None
  else None.

Definition preRenderVarsTemplates (yamlStr : string) (vars : option (gmap string string)) : string :=
  replace_all vars_template_at (fun m name => default m (default ∅ vars !! name)) yamlStr.

(** ** Static templates (static_template.go) *)

Definition dynamicPathPrefixes : list string := [".trigger"; ".steps"; ".params"; ".iter"; ".workflow"].

Definition is_dynamic (path : string) : bool := existsb (HasPrefix path) dynamicPathPrefixes.

Definition filterDynamicPaths (paths : list string) : list string := List.filter is_dynamic paths.

(** The walk over the tree is, line by line, that of the engine. *)
Definition extractPathsFromNode (node : Node) : gset string := extractFieldPaths node.

Section Static.
Context `{TextTemplate, MapWalk}.

Definition ExtractTemplatePaths (tmplStr : string) : result (list string) :=
  try t := Parse BaseFuncs "analyze" tmplStr in
  let paths := match Root t with Some root => extractPathsFromNode root | None => ∅ end in
  Ok (walk (gset_to_gmap tt paths)).*1.

Definition RenderStaticTemplate (vars : gmap string string) (tmplStr : string) : result string :=
  if decide (tmplStr = "") then Ok ""
  else if negb (Contains tmplStr "{{") then Ok tmplStr
  else match ExtractTemplatePaths tmplStr with
  | Err err => Err (Wrapf "template syntax error: " err "")
  | Ok paths =>
    match filterDynamicPaths paths with
    | path :: _ => Err (Errorf ("template references dynamic path '" +:+ path +:+
                                "' but this field must be resolvable at config load time"))
    | [] =>
      match Parse BaseFuncs "static" tmplStr with
      | Err err => Err (Wrapf "template parse error: " err "")
      | Ok t =>
        match tmpl_Execute t BaseFuncs {[ "vars" := AStrMap vars ]} with
        | Err err => Err (Wrapf "template execution error: " err "")
        | Ok out => Ok out
        end
      end
    end
  end.

(** ** The fields that must be static *)

Definition wrap {A} (pre : string) (r : result A) : result A :=
  match r with Ok a => Ok a | Err e => Err (Wrapf pre e "") end.

Definition render_database (vars : gmap string string) (i : nat) (db : DatabaseConfig) : result DatabaseConfig :=
  let pre field := "databases[" +:+ pretty i +:+ "]." +:+ field +:+ ": " in
  try host := wrap (pre "host") (RenderStaticTemplate vars (dc_Host db)) in
  try user := wrap (pre "user") (RenderStaticTemplate vars (dc_User db)) in
  try password := wrap (pre "password") (RenderStaticTemplate vars (dc_Password db)) in
  try database := wrap (pre "database") (RenderStaticTemplate vars (dc_Database db)) in
  try path := wrap (pre "path") (RenderStaticTemplate vars (dc_Path db)) in
  Ok {| dc_Name := dc_Name db; dc_Type := dc_Type db; dc_Host := host; dc_Port := dc_Port db;
        dc_User := user; dc_Password := password; dc_Database := database; dc_Path := path;
        dc_ReadOnly := dc_ReadOnly db; dc_Encrypt := dc_Encrypt db; dc_Isolation := dc_Isolation db;
        dc_LockTimeoutMs := dc_LockTimeoutMs db; dc_DeadlockPriority := dc_DeadlockPriority db;
        dc_BusyTimeoutMs := dc_BusyTimeoutMs db; dc_JournalMode := dc_JournalMode db;
        dc_MaxOpenConns := dc_MaxOpenConns db; dc_MaxIdleConns := dc_MaxIdleConns db;
        dc_ConnMaxLifetime := dc_ConnMaxLifetime db; dc_ConnMaxIdleTime := dc_ConnMaxIdleTime db |}.

(** [for i := range l] with an early return. *)
Fixpoint each {A} (f : nat -> A -> result A) (i : nat) (l : list A) : result (list A) :=
  match l with
  | [] => Ok []
  | x :: l => try y := f i x in try l := each f (S i) l in Ok (y :: l)
  end.

Definition render_param (vars : gmap string string) (pre : string) (k : nat) (p : ParamConfig) : result ParamConfig :=
  if decide (pa_Default p <> "") then
    try d := wrap (pre +:+ ".parameters[" +:+ pretty k +:+ "].default: ")
               (RenderStaticTemplate vars (pa_Default p)) in
    Ok {| pa_Name := pa_Name p; pa_Type := pa_Type p; pa_Required := pa_Required p; pa_Default := d |}
  else Ok p.

Definition render_trigger (vars : gmap string string) (pre : string) (j : nat) (t : TriggerConfig) : result TriggerConfig :=
  try ps := each (render_param vars (pre +:+ ".triggers[" +:+ pretty j +:+ "]")) 0 (tc_Parameters t) in
  Ok {| tc_Type := tc_Type t; tc_Path := tc_Path t; tc_Method := tc_Method t; tc_Parameters := ps;
        tc_RateLimit := tc_RateLimit t; tc_Cache := tc_Cache t; tc_Schedule := tc_Schedule t;
        tc_Params := tc_Params t |}.

Definition render_workflow (vars : gmap string string) (i : nat) (wf : WorkflowConfig) : result WorkflowConfig :=
  try ts := each (render_trigger vars ("workflows[" +:+ pretty i +:+ "]")) 0 (wc_Triggers wf) in
  Ok {| wc_Name := wc_Name wf; wc_TimeoutSec := wc_TimeoutSec wf; wc_Conditions := wc_Conditions wf;
        wc_Triggers := ts; wc_Steps := wc_Steps wf |}.

Definition render_public_ids (vars : gmap string string) (p : option PublicIDsConfig) : result (option PublicIDsConfig) :=
  match p with
  | None => Ok None
  | Some p =>
    try key := wrap "public_ids.secret_key: " (RenderStaticTemplate vars (pi_SecretKey p)) in
    Ok (Some {| pi_SecretKey := key; pi_Namespaces := pi_Namespaces p |})
  end.

Definition renderStaticFields (cfg : Config) : result Config :=
  let vars := default ∅ (va_Values (cf_Variables cfg)) in
  try dbs := each (render_database vars) 0 (cf_Databases cfg) in
  try pids := render_public_ids vars (cf_PublicIDs cfg) in
  try wfs := each (render_workflow vars) 0 (cf_Workflows cfg) in
  Ok {| cf_Server := cf_Server cfg; cf_Databases := dbs; cf_Logging := cf_Logging cfg;
        cf_Metrics_Enabled := cf_Metrics_Enabled cfg; cf_Debug := cf_Debug cfg;
        cf_RateLimits := cf_RateLimits cfg; cf_Workflows := wfs; cf_Variables := cf_Variables cfg;
        cf_PublicIDs := pids |}.
End Static.

(** ** Loading *)

(** The operating system, the YAML parser (into the two types [Load] asks for)
    and the env file parser. *)
Class ConfigSource := {
  ReadFile : string -> result string;
  LookupEnv : string -> option string;
  yaml_Variables : string -> result VariablesConfig;
  yaml_Config : string -> result Config;
  godotenv_Read : string -> result (gmap string string);
  filepath_IsAbs : string -> bool;
  filepath_JoinDir : string -> string -> string;      (* filepath.Join(filepath.Dir(path), p) *)
}.

Section Load.
Context `{UnicodeTables, TextTemplate, MapWalk, ConfigSource}.

(** [loadEnvFile] with the path it is given. *)
Definition env_file_vars (path envFile : string) : result (gmap string string) :=
  if decide (envFile <> "") then
    let envFilePath := if filepath_IsAbs envFile then envFile else filepath_JoinDir path envFile in
    wrap ("failed to load env file " +:+ Quote envFile +:+ " (resolved to " +:+ Quote envFilePath +:+ "): ")
      (godotenv_Read envFilePath)
  else Ok ∅.

Definition from_env (lookup : gmap string string) (name : string) : gmap string string :=
  match LookupEnv name with Some v => <[name := v]> lookup | None => lookup end.

(** The environment variables the values refer to override the file. *)
Definition env_vars (lookup : gmap string string) (values : gmap string string) : gmap string string :=
  foldl (fun lk kv => foldl from_env lk (var_names kv.2)) lookup (walk values).

Definition with_values (cfg : Config) (values : option (gmap string string)) : Config :=
  {| cf_Server := cf_Server cfg; cf_Databases := cf_Databases cfg; cf_Logging := cf_Logging cfg;
     cf_Metrics_Enabled := cf_Metrics_Enabled cfg; cf_Debug := cf_Debug cfg;
     cf_RateLimits := cf_RateLimits cfg; cf_Workflows := cf_Workflows cfg;
     cf_Variables := {| va_EnvFile := va_EnvFile (cf_Variables cfg); va_Values := values |};
     cf_PublicIDs := cf_PublicIDs cfg |}.

Definition Load (path : string) : result Config :=
  try data := wrap "failed to read config file: " (ReadFile path) in
  try pre := wrap "failed to pre-parse config: " (yaml_Variables data) in
  try fileVars := env_file_vars path (va_EnvFile pre) in
  let varLookup := env_vars fileVars (default ∅ (va_Values pre)) in
  let values := (fun m : gmap string string => (fun v => expandVars v varLookup) <$> m) <$> va_Values pre in
  let expandedYAML := preRenderVarsTemplates data values in
  try cfg := wrap "failed to parse config file: " (yaml_Config expandedYAML) in
  renderStaticFields (with_values cfg values).
End Load.

(** ** Scanning *)

Section ScanSpec.
Context {A : Type} (at_ : string -> option (string * A * string)).
Context (consumes : forall s raw a rest, at_ s = Some (raw, a, rest) -> s = raw +:+ rest /\ raw <> "").

Lemma at_shorter s raw a rest : at_ s = Some (raw, a, rest) -> (String.length rest < String.length s)%nat.
Proof. intros [-> Hr]%consumes. rewrite length_app_str. destruct raw; [done|]. simpl. lia. Qed.

Lemma tokens_enough n s : (String.length s <= n)%nat -> tokens_fuel at_ n s = tokens at_ s.
Proof.
  unfold tokens. remember (String.length s) as m eqn:Hm. revert s n Hm.
  induction m as [m IH] using lt_wf_ind. intros s n -> Hn.
  destruct s as [|c r]; [by destruct n|]. destruct n as [|n]; [simpl in Hn; lia|]. cbn [String.length] in *.
  cbn [tokens_fuel]. destruct (at_ (String c r)) as [[[raw a] rest]|] eqn:E.
  - apply at_shorter in E. cbn [String.length] in E. f_equal.
    rewrite (IH (String.length rest)) by (done || lia). symmetry. by apply (IH (String.length rest)); try lia.
  - f_equal. by apply (IH (String.length r)); try lia.
Qed.

Lemma tokens_cons c r : tokens at_ (String c r) =
  match at_ (String c r) with
  | Some (raw, a, rest) => (raw, Some a) :: tokens at_ rest
  | None => (String c "", None) :: tokens at_ r
  end.
Proof.
  unfold tokens at 1. cbn [String.length tokens_fuel]. destruct (at_ (String c r)) as [[[raw a] rest]|] eqn:E; [|done].
  apply at_shorter in E. cbn [String.length] in E. by rewrite tokens_enough by lia.
Qed.

(** Induction along the tokens of a text. *)
Lemma tokens_ind (P : string -> list (string * option A) -> Prop) : P "" [] ->
  (forall s raw a rest, at_ s = Some (raw, a, rest) -> s = raw +:+ rest ->
     P rest (tokens at_ rest) -> P s ((raw, Some a) :: tokens at_ rest)) ->
  (forall c r, at_ (String c r) = None -> P r (tokens at_ r) -> P (String c r) ((String c "", None) :: tokens at_ r)) ->
  forall s, P s (tokens at_ s).
Proof.
  intros H0 Hm Hc s. remember (String.length s) as m eqn:Hm'. revert s Hm'.
  induction m as [m IH] using lt_wf_ind. intros [|c r] ->; [done|]. rewrite tokens_cons.
  destruct (at_ (String c r)) as [[[raw a] rest]|] eqn:E.
  - pose proof (at_shorter _ _ _ _ E). pose proof (consumes _ _ _ _ E) as [? _]. apply Hm; [done..|]. by eapply IH.
  - apply Hc; [done|]. eapply IH; [|done]. simpl. lia.
Qed.

Lemma tokens_source s : cat (tokens at_ s).*1 = s.
Proof.
  apply (tokens_ind (fun s l => cat l.*1 = s)); [done|..].
  - intros s' raw a rest _ -> IH. rewrite fmap_cons. simpl. by rewrite IH.
  - intros c r _ IH. rewrite fmap_cons. simpl. by rewrite IH.
Qed.

(** Every token is a match at its place, or a byte at which nothing matches. *)
Lemma tokens_leftmost s pre t post : tokens at_ s = pre ++ t :: post ->
  let here := cat (t :: post).*1 in
  match t.2 with
  | Some a => at_ here = Some (t.1, a, cat post.*1)
  | None => at_ here = None /\ String.length t.1 = 1%nat
  end.
Proof.
  revert pre. apply (tokens_ind (fun s l => forall pre, l = pre ++ t :: post ->
    let here := cat (t :: post).*1 in
    match t.2 with
    | Some a => at_ here = Some (t.1, a, cat post.*1)
    | None => at_ here = None /\ String.length t.1 = 1%nat
    end)); [by intros []|..].
  - intros s' raw a rest E -> IH [|t' pre]; intros [= Ht Hp]; [subst t post|by apply (IH pre)].
    cbn [snd fst fmap list_fmap cat foldr]. change (foldr String.append "" _) with (cat (tokens at_ rest).*1).
    by rewrite tokens_source.
  - intros c r E IH [|t' pre]; intros [= Ht Hp]; [subst t post|by apply (IH pre)].
    cbn [snd fst fmap list_fmap cat foldr]. change (foldr String.append "" _) with (cat (tokens at_ r).*1).
    by rewrite tokens_source.
Qed.
End ScanSpec.

(** ** Variable references *)

Lemma span_stop p w t : str_all p w = true -> head_is p t = false -> span p (w +:+ t) = (w, t).
Proof.
  intros Hw Ht. induction w as [|c w IH]; simpl in *.
  - destruct t as [|c t]; [done|]. simpl in *. by rewrite Ht.
  - apply andb_true_iff in Hw as [Hc Hw]. by rewrite Hc, IH.
Qed.

(** [reference raw x d]: [raw] is a reference to the variable [x] with default [d]. *)
Definition reference (raw x d : string) : Prop :=
  x <> "" /\ str_all name_byte x = true /\ str_all not_brace d = true /\
  ((raw = "${" +:+ x +:+ "}" /\ d = "") \/ raw = "${" +:+ x +:+ ":" +:+ d +:+ "}").

Lemma name_byte_stop c : name_byte c = false <-> c = "}"%char \/ c = ":"%char.
Proof.
  unfold name_byte, not_brace. rewrite andb_false_iff, !negb_false_iff, !Ascii.eqb_eq. done.
Qed.

Lemma var_ref_at_spec s raw x d rest :
  var_ref_at s = Some (raw, (x, d), rest) <-> s = raw +:+ rest /\ reference raw x d.
Proof.
  unfold var_ref_at, reference. split.
  - destruct (HasPrefix s "${") eqn:Hp; [|done]. apply prefix_spec in Hp as [t ->].
    rewrite TrimPrefix_app. destruct (span name_byte t) as [w r] eqn:Es.
    apply span_spec in Es as (-> & Hw & Hr). case_decide as Hne; [done|]. destruct r as [|c r]; [done|].
    simpl in Hr. apply name_byte_stop in Hr. case_decide as Hc.
    + intros [= <- <- <- <-]. subst c. split; [simpl; by rewrite <- !app_str_assoc|]. naive_solver.
    + destruct Hr as [->| ->]; [done|]. destruct (span not_brace r) as [d' r'] eqn:Ed.
      apply span_spec in Ed as (-> & Hd & Hr'). destruct r' as [|c' r']; [done|]. simpl in Hr'.
      apply negb_false_iff, Ascii.eqb_eq in Hr'. subst c'. intros [= <- <- <- <-].
      split; [simpl; rewrite <- !app_str_assoc; simpl; by rewrite <- !app_str_assoc|]. naive_solver.
  - intros (-> & Hx & Hw & Hd & Hraw). assert (HasPrefix (raw +:+ rest) "${" = true) as ->.
    { destruct Hraw as [[-> _]| ->]; rewrite <- !app_str_assoc; apply HasPrefix_app. }
    destruct Hraw as [[-> ->]| ->]; rewrite <- !app_str_assoc, TrimPrefix_app.
    + rewrite (span_stop name_byte x) by done. by rewrite decide_False.
    + rewrite (span_stop name_byte x) by done. rewrite decide_False by done. cbn [String.append].
      rewrite decide_False by done. by rewrite (span_stop not_brace d).
Qed.

Lemma var_ref_consumes s raw a rest : var_ref_at s = Some (raw, a, rest) -> s = raw +:+ rest /\ raw <> "".
Proof.
  destruct a as [x d]. intros (-> & _ & _ & _ & Hr)%var_ref_at_spec. split; [done|].
  destruct Hr as [[-> _]| ->]; done.
Qed.

(** what [${VAR:default}] means.  The text is cut, from the left, into references and
    single bytes at which no reference begins; the result is the text with each
    reference replaced by the value of its variable, or else by its default.  What
    is put in is not looked at again. *)
Theorem expandVars_spec s lookup : exists toks,
  s = cat toks.*1 /\
  expandVars s lookup =
    cat ((fun t => match t.2 with Some (x, d) => default d (lookup !! x) | None => t.1 end) <$> toks) /\
  forall pre raw ref post, toks = pre ++ (raw, ref) :: post ->
    match ref with
    | Some (x, d) => reference raw x d
    | None => String.length raw = 1%nat /\
        forall raw' x d rest, raw +:+ cat post.*1 = raw' +:+ rest -> ~ reference raw' x d
    end.
Proof.
  exists (tokens var_ref_at s). split_and!.
  - by rewrite (tokens_source _ var_ref_consumes).
  - unfold expandVars, expand_with, replace_all. f_equal. apply list_fmap_ext. by intros _ [raw [[x d]|]] _.
  - intros pre raw ref post Ht. apply (tokens_leftmost _ var_ref_consumes) in Ht. cbn [fst snd] in Ht.
    destruct ref as [[x d]|].
    + by apply var_ref_at_spec in Ht as [_ ?].
    + destruct Ht as [Ha Hl]. split; [done|]. intros raw' x d rest E Hr.
      assert (var_ref_at (raw' +:+ rest) = Some (raw', (x, d), rest)) as Hs by (by apply var_ref_at_spec).
      rewrite <- E in Hs. change (cat _) with (raw +:+ cat post.*1) in Ha. congruence.
Qed.

Lemma expand_agree f g s : (forall x, x ∈ var_names s -> f x = g x) -> expand_with f s = expand_with g s.
Proof.
  intros Hfg. unfold expand_with, replace_all. f_equal. apply list_fmap_ext. intros i [raw [nd|]] Ht; [|done].
  simpl. unfold var_value. rewrite Hfg; [done|]. apply list_elem_of_fmap. exists nd. split; [done|].
  unfold find_all. apply list_elem_of_omap. exists (raw, Some nd). split; [|done]. by apply list_elem_of_lookup_2 in Ht.
Qed.

(** ** What [Load] returns *)

Section LoadSpec.
Context `{UnicodeTables, TextTemplate, MapWalk, ConfigSource}.

(** The value of a variable: the environment, then the env file. *)
Definition resolve (file : gmap string string) (x : string) : option string :=
  match LookupEnv x with Some v => Some v | None => file !! x end.

Lemma from_env_lookup names lk x : foldl from_env lk names !! x =
  if decide (x ∈ names) then match LookupEnv x with Some v => Some v | None => lk !! x end else lk !! x.
Proof.
  revert lk. induction names as [|n names IH]; intros lk; [by rewrite decide_False by apply not_elem_of_nil|].
  cbn [foldl]. rewrite IH. unfold from_env. destruct (decide (x = n)) as [->|Hne].
  - rewrite (decide_True (P := n ∈ n :: names)) by (by left).
    destruct (LookupEnv n) as [v|]; [|by destruct (decide _)]. rewrite lookup_insert_eq. by destruct (decide _).
  - assert ((match LookupEnv n with Some v => <[n := v]> lk | None => lk end) !! x = lk !! x) as ->.
    { destruct (LookupEnv n); [|done]. by rewrite lookup_insert_ne. }
    destruct (decide (x ∈ names)) as [Hx|Hx].
    + by rewrite decide_True by (by right).
    + rewrite decide_False; [done|]. by intros [?|?]%elem_of_cons.
Qed.

(** Only the variables referred to are read from the environment, which makes no
    difference to the expansion. *)
Lemma env_vars_lookup lk values x :
  env_vars lk values !! x = resolve lk x \/
  (env_vars lk values !! x = lk !! x /\ forall k v, values !! k = Some v -> x ∉ var_names v).
Proof.
  unfold env_vars. assert (forall l lk, foldl (fun lk kv => foldl from_env lk (var_names kv.2)) lk l !! x =
    foldl from_env lk (flat_map (fun kv : string * string => var_names kv.2) l) !! x) as ->.
  { intros l. induction l as [|kv l IH]; intros lk'; [done|]. cbn [foldl flat_map]. by rewrite foldl_app, <- IH. }
  rewrite from_env_lookup. unfold resolve. case_decide as Hx; [by left|]. right. split; [done|].
  intros k v Hk Hv. apply Hx, list_elem_of_In, in_flat_map. exists (k, v).
  split; apply list_elem_of_In; [by apply walk_elem|done].
Qed.

Lemma env_vars_expand lk values k v : values !! k = Some v ->
  expandVars v (env_vars lk values) = expand_with (resolve lk) v.
Proof.
  intros Hk. apply expand_agree. intros x Hx. destruct (env_vars_lookup lk values x) as [?|[_ Hn]]; [done|].
  by destruct (Hn k v Hk).
Qed.

Lemma wrap_Ok {A} pre (r : result A) a : wrap pre r = Ok a <-> r = Ok a.
Proof. destruct r; simpl; naive_solver. Qed.

Lemma try_Ok {A B} (r : result A) (f : A -> result B) b : result_bind f r = Ok b <-> exists a, r = Ok a /\ f a = Ok b.
Proof. destruct r; simpl; naive_solver. Qed.

Lemma each_Ok {A} (f : nat -> A -> result A) i l l' : each f i l = Ok l' ->
  Forall2 (fun x y => exists j, f j x = Ok y) l l'.
Proof.
  revert i l'. induction l as [|x l IH]; intros i l'; simpl; [intros <-%Ok_inj; constructor|].
  rewrite try_Ok. intros (y & Hy & Hk). rewrite try_Ok in Hk. destruct Hk as (l2 & Hl & <-%Ok_inj).
  constructor; [by exists i|]. by apply (IH (S i)).
Qed.

(** A text that needed no template, or a template that mentions none of the paths
    of a running workflow, with its value on the variables. *)
Definition static_text (vars : gmap string string) (raw out : string) : Prop :=
  (Contains raw "{{" = false /\ out = raw) \/
  exists t t', Parse BaseFuncs "analyze" raw = Ok t /\ Parse BaseFuncs "static" raw = Ok t' /\
    (forall root path prefix rest, Root t = Some root -> mentions path root ->
       prefix ∈ dynamicPathPrefixes -> path <> prefix +:+ rest) /\
    tmpl_Execute t' BaseFuncs {[ "vars" := AStrMap vars ]} = Ok out.

Lemma filter_nil {A} (f : A -> bool) l x : List.filter f l = [] -> x ∈ l -> f x = false.
Proof.
  intros Hf Hx. destruct (f x) eqn:E; [|done]. apply list_elem_of_In in Hx.
  assert (In x (List.filter f l)) as Hin by (by apply filter_In). by rewrite Hf in Hin.
Qed.

Lemma RenderStaticTemplate_Ok vars raw out : RenderStaticTemplate vars raw = Ok out -> static_text vars raw out.
Proof.
  unfold RenderStaticTemplate, static_text. case_decide as Hr; [intros <-%Ok_inj; left; by subst raw|].
  destruct (Contains raw "{{"); [|intros <-%Ok_inj; by left]. cbn [negb].
  unfold ExtractTemplatePaths. destruct (Parse BaseFuncs "analyze" raw) as [t|] eqn:Et; [|done]. cbn [result_bind].
  destruct (filterDynamicPaths _) as [|? ?] eqn:Ef; [|done].
  destruct (Parse BaseFuncs "static" raw) as [t'|] eqn:Et'; [|done].
  destruct (tmpl_Execute _ _ _) as [o|] eqn:Ex; [|done]. intros <-%Ok_inj. right. exists t, t'.
  split_and!; [done..| |done]. intros root path prefix rest HR Hm Hp ->. rewrite HR in Ef.
  apply extractFieldPaths_spec in Hm.
  assert (is_dynamic (prefix +:+ rest) = false) as Hd.
  { eapply filter_nil; [exact Ef|]. apply list_elem_of_fmap. exists (prefix +:+ rest, tt). split; [done|].
    apply walk_elem. by apply lookup_gset_to_gmap_Some. }
  unfold is_dynamic in Hd. apply not_true_iff_false in Hd. apply Hd, existsb_exists. exists prefix.
  split; [by apply list_elem_of_In|apply HasPrefix_app].
Qed.

Lemma render_database_Ok vars i db db' : render_database vars i db = Ok db' ->
  static_text vars (dc_Host db) (dc_Host db') /\ static_text vars (dc_User db) (dc_User db') /\
  static_text vars (dc_Password db) (dc_Password db') /\ static_text vars (dc_Database db) (dc_Database db') /\
  static_text vars (dc_Path db) (dc_Path db') /\ dc_Name db' = dc_Name db /\ dc_Type db' = dc_Type db.
Proof.
  unfold render_database. repeat setoid_rewrite try_Ok. repeat setoid_rewrite wrap_Ok.
  intros (h & Hh & u & Hu & p & Hp & d & Hd & pa & Hpa & <-%Ok_inj). simpl.
  split_and!; try done; by apply RenderStaticTemplate_Ok.
Qed.

(** C11: what [Load] returns.  Every configured variable is the text of the file with its
    references resolved from the environment, then from the env file, then by their
    defaults, although only some variables are read; the rest of the configuration
    is the YAML with the variables put in; and the connection fields of every
    database and the secret key are static: no request can influence them. *)
Theorem Load_spec path cfg (Hload : Load path = Ok cfg) : exists data pre file raw,
  ReadFile path = Ok data /\ yaml_Variables data = Ok pre /\ env_file_vars path (va_EnvFile pre) = Ok file /\
  let values := (fun m : gmap string string => expand_with (resolve file) <$> m) <$> va_Values pre in
  let vars := default ∅ values in
  va_Values (cf_Variables cfg) = values /\
  yaml_Config (preRenderVarsTemplates data values) = Ok raw /\
  Forall2 (fun db db' =>
    static_text vars (dc_Host db) (dc_Host db') /\ static_text vars (dc_User db) (dc_User db') /\
    static_text vars (dc_Password db) (dc_Password db') /\ static_text vars (dc_Database db) (dc_Database db') /\
    static_text vars (dc_Path db) (dc_Path db') /\ dc_Name db' = dc_Name db /\ dc_Type db' = dc_Type db)
    (cf_Databases raw) (cf_Databases cfg) /\
  (forall p', cf_PublicIDs cfg = Some p' -> exists p, cf_PublicIDs raw = Some p /\
     static_text vars (pi_SecretKey p) (pi_SecretKey p')).
Proof.
  revert Hload. unfold Load. rewrite try_Ok. intros (data & Hd%wrap_Ok & Hk). rewrite try_Ok in Hk.
  destruct Hk as (pre & Hp%wrap_Ok & Hk). rewrite try_Ok in Hk. destruct Hk as (file & Hf & Hk).
  exists data, pre, file. cbv zeta in *.
  assert (((fun m : gmap string string => (fun v => expandVars v (env_vars file (default ∅ (va_Values pre)))) <$> m)
    <$> va_Values pre) = ((fun m : gmap string string => expand_with (resolve file) <$> m) <$> va_Values pre)) as Hv.
  { destruct (va_Values pre) as [m|]; [|done]. cbn. f_equal. apply map_fmap_ext. intros k v Hm.
    by apply (env_vars_expand file m k). }
  rewrite Hv in Hk. clear Hv. generalize dependent ((fun m : gmap string string => expand_with (resolve file) <$> m) <$> va_Values pre).
  intros values Hk. rewrite try_Ok in Hk. destruct Hk as (raw & Hr%wrap_Ok & Hk). exists raw.
  unfold renderStaticFields in Hk. rewrite try_Ok in Hk. destruct Hk as (dbs & Hdbs & Hk).
  rewrite try_Ok in Hk. destruct Hk as (pids & Hpids & Hk). rewrite try_Ok in Hk. destruct Hk as (wfs & _ & <-%Ok_inj).
  split_and!; try done.
  - cbn in Hdbs |- *. apply each_Ok in Hdbs. eapply Forall2_impl; [exact Hdbs|]. intros db db' [j Hj].
    by apply render_database_Ok in Hj.
  - cbn in Hpids |- *. intros p' ->. destruct (cf_PublicIDs raw) as [p|]; [|done]. exists p. split; [done|].
    cbn in Hpids. rewrite try_Ok in Hpids. destruct Hpids as (key & Hkey%wrap_Ok & [= <-]%Ok_inj).
    by apply RenderStaticTemplate_Ok.
Qed.
End LoadSpec.

(** ** Evaluation at concrete inputs *)

Module Sample.
#[local] Existing Instances sample_tables TmplEngine.Sample.tiny_templates sample_walk.

Definition vars : gmap string string := {[ "A" := "1"; "pw" := "se#cret # x"; "B" := "${A}" ]}.

Example expansion :
  (expandVars "a=${A}, b=${NONE:dflt}, c=${NONE}, d=${A:x:y}" vars, expandVars "${B} ${} $A ${A" vars)
  = ("a=1, b=dflt, c=, d=1", "${A} ${} $A ${A").
Proof. by vm_compute. Qed.

(** The value of a variable is put into the YAML text as it is: what follows a hash
    sign is a comment to the parser, and a line break would start a new key. *)
Example value_becomes_yaml :
  preRenderVarsTemplates "password: {{ .vars.pw }} # {{.vars.none}}" (Some vars)
  = "password: se#cret # x # {{.vars.none}}".
Proof. by vm_compute. Qed.

Definition db_at (host : string) : DatabaseConfig :=
  {| dc_Name := "main"; dc_Type := "mysql"; dc_Host := host; dc_Port := 3306; dc_User := ""; dc_Password := "";
     dc_Database := ""; dc_Path := ""; dc_ReadOnly := None; dc_Encrypt := ""; dc_Isolation := "";
     dc_LockTimeoutMs := None; dc_DeadlockPriority := ""; dc_BusyTimeoutMs := None; dc_JournalMode := "";
     dc_MaxOpenConns := None; dc_MaxIdleConns := None; dc_ConnMaxLifetime := None; dc_ConnMaxIdleTime := None |}.

Definition with_db (host : string) : Config :=
  {| cf_Server := {| sv_Port := 80; sv_Host := "h"; sv_DefaultTimeoutSec := 1; sv_MaxTimeoutSec := 2; sv_Cache := None;
       sv_TrustProxyHeaders := false; sv_APIVersion := ""; sv_Version := ""; sv_BuildTime := "" |};
     cf_Databases := [db_at host];
     cf_Logging := {| lg_Level := "info"; lg_FilePath := ""; lg_MaxSizeMB := 1; lg_MaxBackups := 1; lg_MaxAgeDays := 1 |};
     cf_Metrics_Enabled := false; cf_Debug := {| de_Enabled := false; de_Port := 0; de_Host := "" |};
     cf_RateLimits := []; cf_Workflows := [];
     cf_Variables := {| va_EnvFile := ""; va_Values := None |}; cf_PublicIDs := None |}.

(** The file is the host of the only database. *)
#[local] Instance files : ConfigSource := {|
  ReadFile := fun path => if decide (path = "c.yaml") then Ok "db-{{.vars.env}}" else Err (Errorf "no such file");
  LookupEnv := fun x => if decide (x = "STAGE") then Some "test" else None;
  yaml_Variables := fun _ => Ok {| va_EnvFile := ""; va_Values := Some {[ "env" := "${STAGE:prod}-${ZONE:a}" ]} |};
  yaml_Config := fun text => Ok (with_db text);
  godotenv_Read := fun _ => Ok ∅;
  filepath_IsAbs := fun _ => true;
  filepath_JoinDir := fun _ p => p |}.

Definition loaded : Config := match Load "c.yaml" with Ok c => c | Err _ => with_db "" end.

Example loaded_host : dc_Host <$> cf_Databases loaded = ["db-test-a"].
Proof. by vm_compute. Qed.

Lemma loads : Load "c.yaml" = Ok loaded.
Proof.
  assert (is_ok (Load "c.yaml") = true) as Hok by (by vm_compute). unfold loaded. by destruct (Load "c.yaml").
Qed.

Lemma Load_spec_witness : Load "c.yaml" = Ok loaded /\ exists pre,
  yaml_Variables "db-{{.vars.env}}" = Ok pre /\
  va_Values (cf_Variables loaded) =
    (fun m : gmap string string => expand_with (resolve ∅) <$> m) <$> va_Values pre.
Proof.
  split; [exact loads|].
  destruct (Load_spec "c.yaml" loaded loads) as (data & pre & file & raw & [= <-] & Hp & Hf & Hv & _).
  exists pre. split; [done|]. rewrite Hv. injection Hp as <-. by injection Hf as <-.
Defined.
End Sample.
