(* ===== verification/CfgValidate.v ===== *)
(** * internal/validate: checking a configuration before it is used

    [Run] appends errors and warnings to a result; the model lists them in the
    order they are appended, as for workflows.  The last check opens each database
    and closes it again, which runs on the drivers' interface.  Contexts are left
    out as there. *)
From S2P Require Import Prelude GoStrings Patterns GoValues Trace Numbers PublicID RateLimit WfConfig SqlParams Expr Compile Executor Handler WfValidate DbText Db Cache Adapters TmplEngine ConfigLoad.

(** ** Value sets (config.go) *)

Definition ValidIsolationLevels : list string :=
  ["read_uncommitted"; "read_committed"; "repeatable_read"; "serializable"; "snapshot"].
Definition ValidDeadlockPriorities : list string := ["low"; "normal"; "high"].
Definition ValidJournalModes : list string := ["wal"; "delete"; "truncate"; "memory"; "off"].
Definition ValidDatabaseTypes : list string := ["sqlserver"; "mysql"; "sqlite"].
Definition validMySQLIsolation : list string := ["read_uncommitted"; "read_committed"; "repeatable_read"; "serializable"].

Definition negative (o : option Z) : bool := match o with Some n => bool_decide (n < 0) | None => false end.

(** ** Server, logging, debug *)

Definition validateServer (cfg : Config) : Issues :=
  let s := cf_Server cfg in
  err_if (bool_decide (sv_Host s = "")) "server.host is required" ++
  (if decide (sv_Port s = 0) then [IError "server.port is required"]
   else err_if (bool_decide (sv_Port s < 0) || bool_decide (sv_Port s > 65535))
          ("server.port must be 1-65535, got: " +:+ pretty (sv_Port s))) ++
  (if decide (sv_DefaultTimeoutSec s = 0) then [IError "server.default_timeout_sec is required"]
   else err_if (bool_decide (sv_DefaultTimeoutSec s < 1)) "server.default_timeout_sec must be at least 1 second") ++
  (if decide (sv_MaxTimeoutSec s = 0) then [IError "server.max_timeout_sec is required"]
   else err_if (bool_decide (sv_MaxTimeoutSec s < sv_DefaultTimeoutSec s))
          ("server.max_timeout_sec (" +:+ pretty (sv_MaxTimeoutSec s) +:+ ") must be >= server.default_timeout_sec (" +:+
           pretty (sv_DefaultTimeoutSec s) +:+ ")")) ++
  match sv_Cache s with
  | Some c =>
    if Cache.cc_Enabled c then
      err_if (bool_decide (Cache.cc_MaxSizeMB c < 0)) "server.cache.max_size_mb cannot be negative" ++
      err_if (bool_decide (Cache.cc_DefaultTTLSec c < 0)) "server.cache.default_ttl_sec cannot be negative"
    else []
  | None => []
  end.

(** A rotation setting: required, not negative. *)
Definition rotation (n : Z) (name : string) : Issues :=
  if decide (n = 0) then [IError (name +:+ " is required")]
  else err_if (bool_decide (n < 0)) (name +:+ " cannot be negative").

Definition validateDebug (cfg : Config) : Issues :=
  let d := cf_Debug cfg in
  if negb (de_Enabled d) then []
  else
    let sharesMainPort := bool_decide (de_Port d = 0) || bool_decide (de_Port d = sv_Port (cf_Server cfg)) in
    err_if (bool_decide (de_Port d < 0) || bool_decide (de_Port d > 65535))
      ("debug.port must be 0-65535, got: " +:+ pretty (de_Port d)) ++
    err_if (bool_decide (de_Host d <> "") && sharesMainPort)
      "debug.host cannot be set when debug endpoints share the main server port (debug.port is 0 or same as server.port); debug.host only applies when using a separate debug port".

(** ** Databases *)

(** The settings of a server that is reached over the network. *)
Definition network_fields (d : DatabaseConfig) (prefix : string) : Issues :=
  let type := dc_Type d in
  err_if (bool_decide (dc_Host d = "")) (prefix +:+ ": host is required for " +:+ type) ++
  err_if (bool_decide (dc_Port d = 0)) (prefix +:+ ": port is required for " +:+ type) ++
  err_if (bool_decide (dc_User d = "")) (prefix +:+ ": user is required for " +:+ type) ++
  err_if (bool_decide (dc_Password d = "")) (prefix +:+ ": password is required for " +:+ type) ++
  err_if (bool_decide (dc_Database d = "")) (prefix +:+ ": database is required for " +:+ type) ++
  warn_if (HasPrefix (dc_Host d) "${") (prefix +:+ ": host appears to be an unresolved env var: " +:+ dc_Host d) ++
  warn_if (HasPrefix (dc_Password d) "${") (prefix +:+ ": password appears to be an unresolved env var").

Definition lock_timeout (d : DatabaseConfig) (prefix : string) : Issues :=
  err_if (negative (dc_LockTimeoutMs d)) (prefix +:+ ": lock_timeout_ms cannot be negative").

Definition validate_type (d : DatabaseConfig) (prefix : string) : Issues :=
  if decide (dc_Type d = "sqlserver") then
    network_fields d prefix ++
    err_if (bool_decide (dc_Isolation d <> "") && negb (mem (dc_Isolation d) ValidIsolationLevels))
      (prefix +:+ ": invalid isolation level '" +:+ dc_Isolation d +:+
       "' (must be read_uncommitted, read_committed, repeatable_read, serializable, or snapshot)") ++
    err_if (bool_decide (dc_DeadlockPriority d <> "") && negb (mem (dc_DeadlockPriority d) ValidDeadlockPriorities))
      (prefix +:+ ": invalid deadlock_priority '" +:+ dc_DeadlockPriority d +:+ "' (must be low, normal, or high)") ++
    lock_timeout d prefix
  else if decide (dc_Type d = "mysql") then
    network_fields d prefix ++
    err_if (bool_decide (dc_Isolation d <> "") && negb (mem (dc_Isolation d) validMySQLIsolation))
      (prefix +:+ ": invalid isolation level '" +:+ dc_Isolation d +:+
       "' for mysql (must be read_uncommitted, read_committed, repeatable_read, or serializable)") ++
    lock_timeout d prefix
  else if decide (dc_Type d = "sqlite") then
    err_if (bool_decide (dc_Path d = "")) (prefix +:+ ": path is required for sqlite") ++
    err_if (bool_decide (dc_JournalMode d <> "") && negb (mem (dc_JournalMode d) ValidJournalModes))
      (prefix +:+ ": invalid journal_mode '" +:+ dc_JournalMode d +:+ "' (must be wal, delete, truncate, memory, or off)") ++
    err_if (negative (dc_BusyTimeoutMs d)) (prefix +:+ ": busy_timeout_ms cannot be negative")
  else [].

Fixpoint validate_databases (names : gset string) (i : nat) (l : list DatabaseConfig) : Issues :=
  match l with
  | [] => []
  | d :: l =>
    let prefix := "databases[" +:+ pretty i +:+ "] (" +:+ dc_Name d +:+ ")" in
    if decide (dc_Name d = "") then
      IError ("databases[" +:+ pretty i +:+ "]: name is required") :: validate_databases names (S i) l
    else
      err_if (bool_decide (dc_Name d ∈ names)) (prefix +:+ ": duplicate database name") ++
      (if decide (dc_Type d = "") then [IError (prefix +:+ ": type is required (must be sqlserver, mysql, or sqlite)")]
       else if negb (mem (dc_Type d) ValidDatabaseTypes) then
         [IError (prefix +:+ ": invalid type '" +:+ dc_Type d +:+ "' (must be sqlserver, mysql, or sqlite)")]
       else validate_type d prefix) ++
      validate_databases ({[dc_Name d]} ∪ names) (S i) l
  end.

Definition validateDatabase (cfg : Config) : Issues :=
  match cf_Databases cfg with
  | [] => [IError "At least one database connection is required in 'databases'"]
  | l => validate_databases ∅ 0 l
  end.

(** ** Public ids *)

(** The regular expression matches the whole words that are one of the names. *)
Definition word_byte (c : ascii) : bool := ident_char c.

Fixpoint words (cur s : string) : list string :=
  match s with
  | EmptyString => [cur]
  | String c r => if word_byte c then words (cur +:+ String c "") r else cur :: words "" r
  end.

Definition public_id_functions : list string := ["publicID"; "privateID"; "isValidPublicID"].

Definition public_id_calls (tmplStr : string) : list string :=
  List.filter (fun w => mem w public_id_functions) (words "" tmplStr).

Record publicIDUsage := { pu_workflow : string; pu_function : string }.

Section Format.
Context `{UnicodeTables, EL : ExprLang, MapWalk, Schedules, Hmac, TextTemplate, FloatToInt}.

Definition validateLogging (cfg : Config) : Issues :=
  let lg := cf_Logging cfg in
  (if decide (lg_Level lg = "") then [IError "logging.level is required"]
   else err_if (negb (mem (ToLower (lg_Level lg)) ["debug"; "info"; "warn"; "error"]))
          ("logging.level must be debug, info, warn, or error, got: " +:+ lg_Level lg)) ++
  rotation (lg_MaxSizeMB lg) "logging.max_size_mb" ++
  rotation (lg_MaxBackups lg) "logging.max_backups" ++
  rotation (lg_MaxAgeDays lg) "logging.max_age_days".

Fixpoint validate_pools (names : gset string) (i : nat) (l : list RateLimitPoolConfig) : Issues :=
  match l with
  | [] => []
  | pool :: l =>
    let prefix := "rate_limits[" +:+ pretty i +:+ "] (" +:+ pc_Name pool +:+ ")" in
    if decide (pc_Name pool = "") then
      IError ("rate_limits[" +:+ pretty i +:+ "]: name is required") :: validate_pools names (S i) l
    else
      err_if (bool_decide (pc_Name pool ∈ names)) (prefix +:+ ": duplicate pool name") ++
      err_if (HasPrefix (pc_Name pool) "_inline:")
        (prefix +:+ ": pool name cannot start with '_inline:' (reserved for internal use)") ++
      err_if (bool_decide (pc_RequestsPerSecond pool <= 0)) (prefix +:+ ": requests_per_second must be positive") ++
      err_if (bool_decide (pc_Burst pool <= 0)) (prefix +:+ ": burst must be positive") ++
      (if decide (pc_Key pool = "") then [IError (prefix +:+ ": key template is required")]
       else err_of (TmplEngine.Validate engine_New (pc_Key pool)) (prefix +:+ ": invalid key template: ")) ++
      validate_pools ({[pc_Name pool]} ∪ names) (S i) l
  end.

Definition validateRateLimits (cfg : Config) : Issues := validate_pools ∅ 0 (cf_RateLimits cfg).

(** ** Workflows *)

(** The context both the validation and the server build for workflows; a later
    database of the same name overwrites. *)
Definition workflow_context (cfg : Config) : ValidationContext :=
  {| vc_Databases := foldl (fun m d => <[dc_Name d := DbText.IsReadOnly d]> m) ∅ (cf_Databases cfg);
     vc_RateLimitPools := list_to_set (pc_Name <$> cf_RateLimits cfg) |}.

(** The errors of a workflow first, then its warnings. *)
Fixpoint validate_workflows (ctx : ValidationContext) (i : nat) (l : list WorkflowConfig) : Issues :=
  match l with
  | [] => []
  | wf :: l =>
    let r := WfValidate.Validate wf (Some ctx) in
    let pre := "workflows[" +:+ pretty i +:+ "]: " in
    ((fun m => IError (pre +:+ m)) <$> vr_Errors r) ++ ((fun m => IWarning (pre +:+ m)) <$> vr_Warnings r) ++
    validate_workflows ctx (S i) l
  end.

Definition validateWorkflows (cfg : Config) : Issues := validate_workflows (workflow_context cfg) 0 (cf_Workflows cfg).

Definition opt (s : string) : list string := if decide (s <> "") then [s] else [].

Fixpoint step_templates (s : StepConfig) : list string :=
  opt (sc_Condition s) ++ (walk (sc_Params s)).*2 ++
  match sc_Cache s with Some c => opt (sk_Key c) | None => [] end ++
  opt (sc_URL s) ++ opt (sc_Body s) ++ (walk (sc_Headers s)).*2 ++ opt (sc_Template s) ++
  (walk (sc_Inputs s)).*2 ++ (walk (sc_Outputs s)).*2 ++
  match sc_Steps s with Some l => flat_map step_templates l | None => [] end.

Definition collectStepTemplates (steps : list StepConfig) : list string := flat_map step_templates steps.

Definition trigger_templates (t : TriggerConfig) : list string :=
  match tc_Cache t with Some c => opt (cc_Key c) | None => [] end ++
  flat_map (fun rl => opt (rl_Key rl)) (tc_RateLimit t).

Definition collectWorkflowTemplates (wf : WorkflowConfig) : list string :=
  flat_map trigger_templates (wc_Triggers wf) ++ (walk (wc_Conditions wf)).*2 ++ collectStepTemplates (wc_Steps wf).

Definition findPublicIDUsages (workflows : list WorkflowConfig) : list publicIDUsage :=
  flat_map (fun wf => flat_map (fun t =>
    (fun fn => {| pu_workflow := wc_Name wf; pu_function := fn |}) <$> dedup ∅ (public_id_calls t))
    (collectWorkflowTemplates wf)) workflows.

Fixpoint validate_namespaces (names prefixes : gset string) (i : nat) (l : list NamespaceConfig) : Issues :=
  match l with
  | [] => []
  | ns :: l =>
    let at_i := "public_ids.namespaces[" +:+ pretty i +:+ "]: " in
    if decide (nc_Name ns = "") then IError (at_i +:+ "name is required") :: validate_namespaces names prefixes (S i) l
    else
      err_if (bool_decide (nc_Name ns ∈ names)) (at_i +:+ "duplicate namespace name " +:+ Quote (nc_Name ns)) ++
      (if decide (nc_Prefix ns <> "") then
         err_if (bool_decide (nc_Prefix ns ∈ prefixes)) (at_i +:+ "duplicate prefix " +:+ Quote (nc_Prefix ns)) else []) ++
      validate_namespaces ({[nc_Name ns]} ∪ names)
        (if decide (nc_Prefix ns <> "") then {[nc_Prefix ns]} ∪ prefixes else prefixes) (S i) l
  end.

Definition validatePublicIDs (cfg : Config) : Issues :=
  let usages := findPublicIDUsages (cf_Workflows cfg) in
  match cf_PublicIDs cfg with
  | None => (fun u => IError ("workflow " +:+ Quote (pu_workflow u) +:+ " uses " +:+ pu_function u +:+
                              " function but public_ids is not configured")) <$> usages
  | Some p =>
    if decide (pi_SecretKey p = "") then [IError "public_ids.secret_key is required when public_ids is configured"]
    else if decide (String.length (pi_SecretKey p) < 32)%nat then
      [IError ("public_ids.secret_key must be at least 32 characters, got " +:+ pretty (String.length (pi_SecretKey p)))]
    else match pi_Namespaces p with
    | [] => [IError "public_ids.namespaces must have at least one namespace"]
    | nss =>
      validate_namespaces ∅ ∅ 0 nss ++
      match NewEncoder (pi_SecretKey p) nss with
      | Ok _ => []
      | Err e => [IError ("public_ids: " +:+ Error e)]
      end
    end
  end.

(** The checks of [Run] that only look at the configuration. *)
Definition format_issues (cfg : Config) : Issues :=
  validateServer cfg ++ validateDatabase cfg ++ validateLogging cfg ++ validateDebug cfg ++
  validateRateLimits cfg ++ validatePublicIDs cfg ++
  match cf_Workflows cfg with
  | [] => [IWarning "No workflows configured - service will have no endpoints"]
  | _ => validateWorkflows cfg
  end.

(** ** Connections *)

Context {W : Type} {DB : SqlDB W} `{MySQLFormat}.

Abbreviation X := (M (Traced W event)).

(** Only SQL Server settings are examined for unresolved variables. *)
Definition skip_connection (d : DatabaseConfig) : bool :=
  bool_decide (dc_Type d = "sqlserver") && (HasPrefix (dc_Host d) "${" || HasPrefix (dc_Password d) "${").

Definition test_connection (d : DatabaseConfig) : X Issues :=
  if skip_connection d then ret []
  else
    let* r := NewDriver d in
    match r with
    | Err e => ret [IError ("databases[" +:+ dc_Name d +:+ "]: connection failed: " +:+ Error e)]
    | Ok driver =>
      let* err := Ping driver in
      let* _ := Db.Close driver in
      ret (err_of err ("databases[" +:+ dc_Name d +:+ "]: ping failed: "))
    end.

Fixpoint testDBConnections (l : list DatabaseConfig) : X Issues :=
  match l with
  | [] => ret []
  | d :: l => let* i := test_connection d in let* r := testDBConnections l in ret (i ++ r)
  end.

Definition Run (cfg : Config) : X ValidationResult :=
  let format := format_issues cfg in
  if vr_Valid (validation format) then
    let* conns := testDBConnections (cf_Databases cfg) in
    ret (validation (format ++ conns))
  else ret (validation format).
End Format.

(** ** What an accepted configuration looks like *)

Section Accepted.
Context `{UnicodeTables, EL : ExprLang, MapWalk, Schedules, Hmac, TextTemplate, FloatToInt}.

Lemma mem_spec s l : mem s l = true <-> s ∈ l.
Proof. apply bool_decide_eq_true. Qed.

(** A loop that reports duplicates of a key accepts lists without any. *)
Lemma fresh_names {A} (name : A -> string) (names : gset string) x l :
  name x ∉ names -> (Forall (fun y => name y ∉ {[name x]} ∪ names) l /\ NoDup (name <$> l)) ->
  Forall (fun y => name y ∉ names) (x :: l) /\ NoDup (name <$> x :: l).
Proof.
  intros Hx [Hl Hnd]. split.
  - constructor; [done|]. eapply Forall_impl; [exact Hl|]. intros y Hy Hin. apply Hy, elem_of_union. by right.
  - rewrite fmap_cons. apply NoDup_cons. split; [|done]. intros (y & Hn & Hy)%list_elem_of_fmap.
    rewrite Forall_forall in Hl. apply (Hl _ Hy), elem_of_union. left. by apply elem_of_singleton.
Qed.

Lemma validate_databases_ok names i l : no_errors (validate_databases names i l) ->
  (Forall (fun d => dc_Name d ∉ names) l /\ NoDup (dc_Name <$> l)) /\
  Forall (fun d => dc_Name d <> "" /\ dc_Type d ∈ ValidDatabaseTypes) l.
Proof.
  revert names i. induction l as [|d l IH]; intros names i; [by repeat constructor|]. cbn [validate_databases].
  case_decide as Hn; [by intros ?%no_errors_cons|]. rewrite !no_errors_app, no_errors_if.
  intros (Hfresh%bool_decide_eq_false & Ht & Hl). destruct (IH _ _ Hl) as [Hd Hf].
  split; [by apply fresh_names|]. constructor; [|done]. split; [done|]. revert Ht.
  case_decide; [by intros ?%no_errors_cons|]. destruct (mem (dc_Type d) _) eqn:Em; [|by intros ?%no_errors_cons].
  intros _. by apply mem_spec.
Qed.

Lemma validate_pools_ok names i l : no_errors (validate_pools names i l) ->
  (Forall (fun c => pc_Name c ∉ names) l /\ NoDup (pc_Name <$> l)) /\
  Forall (fun c => pool_ok (H1 := engine_keys engine_New) c /\ reserved_name (pc_Name c) = false) l.
Proof.
  revert names i. induction l as [|c l IH]; intros names i; [by repeat constructor|]. cbn [validate_pools].
  case_decide as Hn; [by intros ?%no_errors_cons|]. rewrite !no_errors_app, !no_errors_if, !bool_decide_eq_false.
  intros (Hfresh & Hr & Hrps & Hburst & Hkey & Hl). destruct (IH _ _ Hl) as [Hd Hf].
  split; [by apply fresh_names|]. constructor; [|done]. split; [|done]. revert Hkey.
  case_decide; [by intros ?%no_errors_cons|]. rewrite no_errors_of. intros Hv. split_and!; try done; lia.
Qed.

Lemma no_errors_labelled pre l : no_errors ((fun m => IError (pre +:+ m)) <$> l) -> l = [].
Proof. destruct l; [done|]. by intros ?%no_errors_cons. Qed.

Lemma validate_workflows_ok ctx i l : no_errors (validate_workflows ctx i l) ->
  Forall (fun wf => vr_Valid (WfValidate.Validate wf (Some ctx)) = true) l.
Proof.
  revert i. induction l as [|wf l IH]; intros i; cbn [validate_workflows]; [by constructor|].
  rewrite !no_errors_app. intros (He%no_errors_labelled & _ & Hl). constructor; [|by apply (IH (S i))].
  unfold WfValidate.Validate, validation in *. cbn in *. by apply bool_decide_eq_true.
Qed.

Lemma validatePublicIDs_ok cfg p : no_errors (validatePublicIDs cfg) -> cf_PublicIDs cfg = Some p ->
  pi_SecretKey p <> "" /\ exists enc, NewEncoder (pi_SecretKey p) (pi_Namespaces p) = Ok enc.
Proof.
  unfold validatePublicIDs. intros Hv Hp. rewrite Hp in Hv. revert Hv. case_decide; [by intros ?%no_errors_cons|].
  case_decide; [by intros ?%no_errors_cons|]. destruct (pi_Namespaces p) as [|ns nss]; [by intros ?%no_errors_cons|].
  rewrite no_errors_app. destruct (NewEncoder _ _) as [enc|e]; [|by intros [_ ?%no_errors_cons]]. eauto.
Qed.

(** What the checks of the configuration guarantee to the rest of the program. *)
Record accepted (cfg : Config) : Prop := {
  ac_names : NoDup (dc_Name <$> cf_Databases cfg);
  ac_types : Forall (fun d => dc_Name d <> "" /\ dc_Type d ∈ ValidDatabaseTypes) (cf_Databases cfg);
  ac_pool_names : NoDup (pc_Name <$> cf_RateLimits cfg);
  ac_pools : Forall (fun c => pool_ok (H1 := engine_keys engine_New) c /\ reserved_name (pc_Name c) = false)
               (cf_RateLimits cfg);
  ac_encoder : forall p, cf_PublicIDs cfg = Some p ->
    pi_SecretKey p <> "" /\ exists enc, NewEncoder (pi_SecretKey p) (pi_Namespaces p) = Ok enc;
  ac_workflows : Forall (fun wf => vr_Valid (WfValidate.Validate wf (Some (workflow_context cfg))) = true)
                   (cf_Workflows cfg);
}.

Lemma format_accepted cfg : no_errors (format_issues cfg) -> accepted cfg.
Proof.
  unfold format_issues. rewrite !no_errors_app. intros (_ & Hd & _ & _ & Hr & Hp & Hw).
  apply validate_pools_ok in Hr as [[_ Hpn] Hpo].
  assert ((Forall (fun d => dc_Name d ∉ (∅ : gset string)) (cf_Databases cfg) /\ NoDup (dc_Name <$> cf_Databases cfg)) /\
    Forall (fun d => dc_Name d <> "" /\ dc_Type d ∈ ValidDatabaseTypes) (cf_Databases cfg)) as [[_ Hn] Ht].
  { unfold validateDatabase in Hd. destruct (cf_Databases cfg); [by repeat constructor|]. by apply validate_databases_ok in Hd. }
  constructor; try done.
  - intros p. by apply validatePublicIDs_ok.
  - destruct (cf_Workflows cfg) eqn:E; [constructor|]. unfold validateWorkflows in Hw. rewrite E in Hw.
    by apply validate_workflows_ok in Hw.
Qed.

Lemma validation_valid l : vr_Valid (validation l) = true <-> no_errors l.
Proof. unfold validation. cbn. apply bool_decide_eq_true. Qed.
End Accepted.

Section Connections.
Context `{UnicodeTables, EL : ExprLang, MapWalk, Schedules, Hmac, TextTemplate, FloatToInt}.
Context {W : Type} {DB : SqlDB W} `{MySQLFormat}.

Definition quiet_pools {A} (m : M (Traced W event) A) : Prop :=
  emits m (fun r t => is_Some r /\ forall p, balance p t = 0).

Lemma Ping_quiet d : connected d -> quiet_pools (Ping d).
Proof. intros [p Hp]. unfold Ping, quiet_pools. rewrite Hp. by apply emits_ask. Qed.

Lemma test_connection_quiet d : quiet_pools (test_connection d).
Proof.
  unfold quiet_pools, test_connection. destruct (skip_connection d); [by apply emits_ret|].
  eapply emits_seq; [apply NewDriver_emits|by intros t (? & ? & _)|].
  intros x t (x' & [= <-] & Hc & Hb). destruct x as [driver|e].
  - destruct (Hc driver eq_refl) as [Hd _].
    eapply emits_seq; [by apply Ping_quiet|by intros t' [[] _]|]. intros err t1 [_ Ht1].
    eapply emits_seq; [by apply Close_emits|by intros t' [[] _]|]. intros e2 t2 [_ Ht2].
    apply emits_ret. split; [done|]. intros p. rewrite app_nil_r, !balance_app, Hb, Ht1, Ht2. cbn. lia.
  - apply emits_ret. split; [done|]. intros p. by rewrite app_nil_r, Hb.
Qed.

Lemma testDBConnections_quiet l : quiet_pools (testDBConnections l).
Proof.
  unfold quiet_pools. induction l as [|d l IH]; cbn [testDBConnections]; [by apply emits_ret|].
  eapply emits_seq; [apply test_connection_quiet|by intros t [[] _]|]. intros i t [_ Ht].
  eapply emits_seq; [apply IH|by intros t' [[] _]|]. intros r t' [_ Ht'].
  apply emits_ret. split; [done|]. intros p. by rewrite app_nil_r, balance_app, Ht, Ht'.
Qed.

(** What a run gives, does to the pools, and accepts. *)
Lemma Run_outcome cfg s : exists r t, (Run cfg s).1 = Some r /\ ds_log (Run cfg s).2 = ds_log s ++ t /\
  (forall p, balance p t = 0) /\
  (~ no_errors (format_issues cfg) -> (Run cfg s).2 = s /\ vr_Valid r = false) /\
  (vr_Valid r = true -> accepted cfg).
Proof.
  unfold Run. destruct (vr_Valid (validation (format_issues cfg))) eqn:Hv.
  - apply validation_valid in Hv. unfold bind. destruct (testDBConnections_quiet (cf_Databases cfg) s) as (t & Ht & Hs & Hb).
    destruct (testDBConnections (cf_Databases cfg) s) as [[conns|] s1]; [|by destruct Hs]. cbn [fst snd ret] in *.
    exists (validation (format_issues cfg ++ conns)), t. split_and!; try done. intros _. by apply format_accepted.
  - assert (~ no_errors (format_issues cfg)) as Hn by (rewrite <- validation_valid; congruence).
    exists (validation (format_issues cfg)), []. cbn [fst snd ret]. rewrite app_nil_r. split_and!; try done.
    by intros ?%validation_valid.
Qed.

(** C10: validation is a dry run.  [Run] never panics; it contacts no database unless the
    configuration itself is acceptable, and every pool it opens it closes again,
    whether connecting and pinging worked or not; and a configuration it calls valid
    has distinct known databases, limits and public ids the program can be built
    with, and valid workflows. *)
Theorem Run_spec cfg s : exists r t, (Run cfg s).1 = Some r /\ ds_log (Run cfg s).2 = ds_log s ++ t /\
  (forall p, balance p t = 0) /\
  (~ no_errors (format_issues cfg) -> (Run cfg s).2 = s /\ vr_Valid r = false) /\
  (vr_Valid r = true -> accepted cfg).
Proof. apply Run_outcome. Qed.
End Connections.

(** ** Evaluation at concrete inputs *)

Module Sample.
(** A key of a JSON answer counts as a call. *)
Example answer_key_counts : public_id_calls "{ publicID : 1 } notpublicID publicID_" = ["publicID"].
Proof. by vm_compute. Qed.
End Sample.
