(* ===== verification/Mux.v ===== *)
(** * Routing: patterns of net/http's ServeMux, as the server uses them

    The server registers its own endpoints, which take any method, and one pattern
    METHOD PATH per HTTP trigger on one [http.ServeMux].  Registration panics on a
    pattern that does not parse and on one that conflicts with an earlier one: two
    patterns that some request matches, neither of which is more specific.  This
    file has the standard library's rules for patterns without a host; the server
    is in [ServerInit]. *)
From S2P Require Import Prelude GoStrings Patterns GoValues.

(** The identifiers of Go (Unicode) and [url.PathUnescape], which keeps a text
    without escapes. *)
Class UrlText := {
  valid_wildcard_name : string -> bool;
  pathUnescape : string -> string;
  pathUnescape_plain : forall s, Contains s "%" = false -> pathUnescape s = s;
}.

(** ** Paths *)

(** The parts between slashes. *)
Fixpoint split_slash (cur s : string) : list string :=
  match s with
  | EmptyString => [cur]
  | String c r => if decide (c = "/"%char) then cur :: split_slash "" r else split_slash (cur +:+ String c "") r
  end.

(** The parts of a rooted path after its first slash; a trailing slash leaves an
    empty last part. *)
Definition parts (path : string) : list string := List.tl (split_slash "" path).

(** [cleanPath] on the parts: no empty, dot or dot-dot part is left, but a trailing
    slash stays. *)
Definition clean_step (acc : list string) (s : string) : list string :=
  if decide (s = "" \/ s = ".") then acc
  else if decide (s = "..") then removelast acc else acc ++ [s].

Definition cleanPath (path : string) : list string :=
  let l := foldl clean_step [] (parts path) in
  if decide (last (parts path) = Some "") then l ++ [""] else match l with [] => [""] | _ => l end.

(** ** Patterns *)

(** A literal (the text / for the end of a path), a wildcard for one part, or a
    wildcard for the rest of the path. *)
Inductive segment := Lit (s : string) | Wild (name : string) | Multi (name : string).

#[global] Instance segment_eq_dec : EqDecision segment.
Proof. solve_decision. Defined.

Record pattern := { pt_method : string; pt_segments : list segment }.

Definition strip_last (n : nat) (s : string) : string := str_take (String.length s - n) s.

Section Parse.
Context `{UrlText}.

Fixpoint parse_segments (seen : gset string) (l : list string) : option (list segment) :=
  match l with
  | [] => Some []
  | seg :: rest =>
    if decide (seg = "" /\ rest = []) then Some [Multi ""]
    else match Index seg "{" with
    | None => cons (Lit (pathUnescape seg)) <$> parse_segments seen rest
    | Some i =>
      if decide (i <> 0%nat) then None
      else if negb (HasSuffix seg "}") then None
      else
        let name := strip_last 1 (str_drop 1 seg) in
        if decide (name = "$") then (if decide (rest = []) then Some [Lit "/"] else None)
        else
          let multi := HasSuffix name "..." in
          let name := if multi then strip_last 3 name else name in
          if multi && negb (bool_decide (rest = [])) then None
          else if decide (name = "" \/ valid_wildcard_name name = false \/ name ∈ seen) then None
          else cons (if multi then Multi name else Wild name) <$> parse_segments ({[name]} ∪ seen) rest
    end
  end.

(** [parsePattern] of a method (possibly empty) and a path that begins with a slash.
    With a method, a path that is not clean could never match. *)
Definition parsePattern (method path : string) : option pattern :=
  if decide (method <> "" /\ cleanPath path <> parts path) then None
  else Build_pattern method <$> parse_segments ∅ (parts path).
End Parse.

(** ** How two patterns compare *)

Inductive relationship := equivalent | moreGeneral | moreSpecific | disjoint | overlaps.

#[global] Instance relationship_eq_dec : EqDecision relationship.
Proof. solve_decision. Defined.

Definition combineRelationships (r1 r2 : relationship) : relationship :=
  match r1, r2 with
  | equivalent, _ => r2
  | disjoint, _ => disjoint
  | overlaps, disjoint => disjoint
  | overlaps, _ => overlaps
  | _, equivalent => r1
  | moreGeneral, moreSpecific | moreSpecific, moreGeneral => overlaps
  | _, _ => r2
  end.

Definition compareMethods (m1 m2 : string) : relationship :=
  if decide (m1 = m2) then equivalent
  else if decide (m1 = "") then moreGeneral
  else if decide (m2 = "") then moreSpecific
  else if decide (m1 = "GET" /\ m2 = "HEAD") then moreGeneral
  else if decide (m2 = "GET" /\ m1 = "HEAD") then moreSpecific
  else disjoint.

Definition compareSegments (s1 s2 : segment) : relationship :=
  match s1, s2 with
  | Multi _, Multi _ => equivalent
  | Multi _, _ => moreGeneral
  | _, Multi _ => moreSpecific
  | Wild _, Wild _ => equivalent
  | Wild _, Lit s => if decide (s = "/") then disjoint else moreGeneral
  | Lit s, Wild _ => if decide (s = "/") then disjoint else moreSpecific
  | Lit a, Lit b => if decide (a = b) then equivalent else disjoint
  end.

Definition ends_in_multi (l : list segment) : bool :=
  match last l with Some (Multi _) => true | _ => false end.

(** The loop over corresponding segments and what follows it; [multi1] and [multi2]
    are about the whole patterns. *)
Fixpoint compare_loop (multi1 multi2 : bool) (rel : relationship) (l1 l2 : list segment) : relationship :=
  match l1, l2 with
  | s1 :: l1, s2 :: l2 =>
    let rel := combineRelationships rel (compareSegments s1 s2) in
    if decide (rel = disjoint) then disjoint else compare_loop multi1 multi2 rel l1 l2
  | [], [] => rel
  | [], _ => if multi1 then combineRelationships rel moreGeneral else disjoint
  | _, [] => if multi2 then combineRelationships rel moreSpecific else disjoint
  end.

Definition comparePaths (l1 l2 : list segment) : relationship :=
  let multi1 := ends_in_multi l1 in
  let multi2 := ends_in_multi l2 in
  if decide (List.length l1 <> List.length l2 /\ multi1 = false /\ multi2 = false) then disjoint
  else compare_loop multi1 multi2 equivalent l1 l2.

Definition comparePathsAndMethods (p1 p2 : pattern) : relationship :=
  let mrel := compareMethods (pt_method p1) (pt_method p2) in
  if decide (mrel = disjoint) then disjoint
  else combineRelationships mrel (comparePaths (pt_segments p1) (pt_segments p2)).

Definition conflictsWith (p1 p2 : pattern) : bool :=
  match comparePathsAndMethods p1 p2 with equivalent | overlaps => true | _ => false end.

(** ** Registration and dispatch *)

Section Registry.
Context `{UrlText} {Hd : Type}.

(** What is registered, in order. *)
Abbreviation ServeMux := (list (pattern * Hd)).

(** [mux.Handle]; [None] is a panic. *)
Definition Handle (mux : ServeMux) (method path : string) (h : Hd) : option ServeMux :=
  match parsePattern method path with
  | None => None
  | Some p => if existsb (fun q => conflictsWith p q.1) mux then None else Some (mux ++ [(p, h)])
  end.

Fixpoint handle_all (mux : ServeMux) (l : list (string * string * Hd)) : option ServeMux :=
  match l with
  | [] => Some mux
  | (method, path, h) :: l => match Handle mux method path h with Some mux' => handle_all mux' l | None => None end
  end.

Definition method_matches (pm m : string) : bool :=
  bool_decide (pm = "") || bool_decide (pm = m) || bool_decide (pm = "GET" /\ m = "HEAD").

Fixpoint path_matches (segs : list segment) (l : list string) : bool :=
  match segs, l with
  | [], [] => true
  | Multi _ :: _, _ :: _ => true
  | Lit s :: segs, x :: l =>
    if decide (s = "/") then bool_decide (x = "" /\ l = []) else bool_decide (s = x) && path_matches segs l
  | Wild _ :: segs, x :: l => bool_decide (x <> "") && path_matches segs l
  | _, _ => false
  end.

Definition matches (p : pattern) (method path : string) : bool :=
  method_matches (pt_method p) method && path_matches (pt_segments p) (parts path).

(** The pattern that matches and is more specific than any other that does. *)
Definition mux_Handler (mux : ServeMux) (method path : string) : option (pattern * Hd) :=
  let candidates := List.filter (fun q => matches q.1 method path) mux in
  List.find (fun q => forallb (fun q' =>
    match comparePathsAndMethods q.1 q'.1 with equivalent | moreSpecific => true | _ => false end) candidates) candidates.
End Registry.

(** ** Plain paths

    A plain path has only literal parts: no wildcard, escape, trailing slash, empty
    or dot part. *)
Definition plain_part (s : string) : bool :=
  bool_decide (s <> "") && bool_decide (s <> ".") && bool_decide (s <> "..") &&
  negb (Contains s "{") && negb (Contains s "%") && bool_decide (s <> "/").

Definition plain (path : string) : bool := HasPrefix path "/" && forallb plain_part (parts path).

Fixpoint join_slash (l : list string) : string :=
  match l with [] => "" | [s] => s | s :: l => s +:+ "/" +:+ join_slash l end.

Lemma split_slash_nonempty cur s : split_slash cur s <> [].
Proof. revert cur. induction s as [|c r IH]; intros cur; simpl; [done|]. by case_decide. Qed.

Lemma join_parts cur s : join_slash (split_slash cur s) = cur +:+ s.
Proof.
  revert cur. induction s as [|c r IH]; intros cur; simpl; [by rewrite app_str_nil_r|]. case_decide as Hc.
  - subst c. pose proof (split_slash_nonempty "" r) as Hne. specialize (IH "").
    destruct (split_slash "" r) as [|x l] eqn:E; [done|]. change ("" +:+ r) with r in IH.
    change (cur +:+ String "/" (join_slash (x :: l)) = cur +:+ String "/" r). by rewrite IH.
  - rewrite IH, <- app_str_assoc. done.
Qed.

Lemma parts_slash r : parts ("/" +:+ r) = split_slash "" r.
Proof. done. Qed.

Lemma parts_inj p1 p2 : HasPrefix p1 "/" = true -> HasPrefix p2 "/" = true -> parts p1 = parts p2 -> p1 = p2.
Proof.
  intros [r1 ->]%prefix_spec [r2 ->]%prefix_spec. rewrite !parts_slash. intros E.
  apply (f_equal join_slash) in E. rewrite !join_parts in E. simpl in E. by subst.
Qed.

Lemma parts_nonempty p : HasPrefix p "/" = true -> parts p <> [].
Proof. intros [r ->]%prefix_spec. rewrite parts_slash. apply split_slash_nonempty. Qed.

Lemma plain_spec path : plain path = true <-> HasPrefix path "/" = true /\ Forall (fun s => plain_part s = true) (parts path).
Proof.
  unfold plain. rewrite andb_true_iff, forallb_forall, Forall_forall. by setoid_rewrite list_elem_of_In.
Qed.

Section Plain.
Context `{UrlText}.

Lemma plain_part_facts s : plain_part s = true -> s <> "" /\ s <> "." /\ s <> ".." /\ Index s "{" = None /\
  pathUnescape s = s /\ s <> "/".
Proof.
  unfold plain_part. rewrite !andb_true_iff, !negb_true_iff, !bool_decide_eq_true.
  intros (((((? & ?) & ?) & Hb) & Hp) & ?). split_and!; try done.
  - unfold Contains in Hb. by destruct (Index s "{").
  - by apply pathUnescape_plain.
Qed.

Lemma clean_plain l acc : Forall (fun s => plain_part s = true) l -> foldl clean_step acc l = acc ++ l.
Proof.
  revert acc. induction l as [|s l IH]; intros acc Hl; simpl; [by rewrite app_nil_r|].
  apply Forall_cons in Hl as [Hs Hl]. apply plain_part_facts in Hs as (? & ? & ? & _).
  unfold clean_step at 2. rewrite decide_False by tauto. rewrite decide_False by done. rewrite IH by done.
  by rewrite <- app_assoc.
Qed.

Lemma parse_plain l seen : Forall (fun s => plain_part s = true) l -> parse_segments seen l = Some (Lit <$> l).
Proof.
  induction l as [|s l IH]; intros Hl; cbn [parse_segments]; [done|].
  apply Forall_cons in Hl as [Hs Hl]. apply plain_part_facts in Hs as (? & _ & _ & Hi & Hu & _).
  rewrite decide_False by tauto. rewrite Hi, Hu, IH by done. done.
Qed.

Lemma plain_pattern method path : plain path = true ->
  parsePattern method path = Some {| pt_method := method; pt_segments := Lit <$> parts path |}.
Proof.
  intros [Hp Hl]%plain_spec. unfold parsePattern. rewrite decide_False.
  - by rewrite parse_plain.
  - intros [_ Hc]. apply Hc. unfold cleanPath. rewrite (clean_plain _ []) by done. cbn [app].
    assert (last (parts path) <> Some "") as Hlast.
    { intros Hlast. apply last_Some_elem_of in Hlast. rewrite Forall_forall in Hl.
      by apply Hl, plain_part_facts in Hlast as (? & _). }
    rewrite decide_False by done. pose proof (parts_nonempty path Hp). by destruct (parts path).
Qed.
Lemma parse_dir l seen : Forall (fun s => plain_part s = true) l ->
  parse_segments seen (l ++ [""]) = Some ((Lit <$> l) ++ [Multi ""]).
Proof.
  induction l as [|s l IH]; intros Hl; [done|]. apply Forall_cons in Hl as [Hs Hl].
  apply plain_part_facts in Hs as (? & _ & _ & Hi & Hu & _). cbn [app parse_segments].
  rewrite decide_False by tauto. rewrite Hi, Hu, IH by done. done.
Qed.

(** A path with a trailing slash, any method. *)
Lemma dir_pattern path l : parts path = l ++ [""] -> forallb plain_part l = true ->
  parsePattern "" path = Some {| pt_method := ""; pt_segments := (Lit <$> l) ++ [Multi ""] |}.
Proof.
  intros Hp Hl. unfold parsePattern. rewrite decide_False by tauto. rewrite Hp, parse_dir; [done|].
  apply Forall_forall. rewrite forallb_forall in Hl. intros s Hs%list_elem_of_In. by apply Hl.
Qed.
End Plain.

(** *** Conflicts *)

Lemma lit_not_multi l : ends_in_multi (Lit <$> l) = false.
Proof. unfold ends_in_multi. rewrite fmap_last. by destruct (last l). Qed.

Lemma compare_lits l1 l2 : comparePaths (Lit <$> l1) (Lit <$> l2) = if decide (l1 = l2) then equivalent else disjoint.
Proof.
  unfold comparePaths. rewrite !lit_not_multi, !length_fmap.
  assert (forall l1 l2, compare_loop false false equivalent (Lit <$> l1) (Lit <$> l2) =
    if decide (l1 = l2) then equivalent else disjoint) as Hloop.
  { clear. intros l1. induction l1 as [|a l1 IH]; intros [|b l2]; try done. cbn -[decide].
    destruct (decide (a = b)) as [->|Hne]; cbn -[decide].
    - rewrite decide_False by done. rewrite IH. destruct (decide (l1 = l2)) as [->|].
      + by rewrite decide_True.
      + by rewrite decide_False by congruence.
    - rewrite decide_True by done. by rewrite decide_False by congruence. }
  case_decide as Hlen; [|apply Hloop]. rewrite decide_False; [done|]. intros ->. by destruct Hlen.
Qed.

Lemma user_user m1 l1 m2 l2 : (m1, l1) <> (m2, l2) ->
  conflictsWith {| pt_method := m1; pt_segments := Lit <$> l1 |} {| pt_method := m2; pt_segments := Lit <$> l2 |} = false.
Proof.
  intros Hne. unfold conflictsWith, comparePathsAndMethods. cbn [pt_method pt_segments]. rewrite compare_lits.
  destruct (decide (l1 = l2)) as [->|]; cbn -[decide].
  - unfold compareMethods. destruct (decide (m1 = m2)) as [->|]; [done|]. by repeat case_decide.
  - case_decide; [done|]. by destruct (compareMethods m1 m2).
Qed.

(** The endpoints of the server itself: any method, and a path under /_/ or the
    catch-all. *)
Definition internal (q : pattern) : Prop := pt_method q = "" /\
  (pt_segments q = [Multi ""] \/ exists s rest, pt_segments q = Lit "_" :: s :: rest).

(** A path outside /_/. *)
Definition outside (l : list string) : Prop := l <> [] /\ forall s rest, l <> "_" :: s :: rest.

Lemma compare_under l s rest : outside l -> comparePaths (Lit <$> l) (Lit "_" :: s :: rest) = disjoint.
Proof.
  intros [Hne Hout]. unfold comparePaths. rewrite lit_not_multi. case_decide; [done|].
  destruct l as [|a [|b l]]; [done|..]; cbn -[decide]; destruct (decide (a = "_")) as [->|]; try done.
  by destruct (Hout b l).
Qed.

Lemma compare_catch_all l : l <> [] -> comparePaths (Lit <$> l) [Multi ""] = moreSpecific.
Proof.
  intros Hl. unfold comparePaths. rewrite lit_not_multi. rewrite decide_False by (intros (_ & _ & [=])).
  by destruct l as [|a [|b l]].
Qed.

Lemma user_internal m l q : m <> "" -> outside l -> internal q ->
  conflictsWith {| pt_method := m; pt_segments := Lit <$> l |} q = false.
Proof.
  intros Hm Ho [Hq Hs]. unfold conflictsWith, comparePathsAndMethods. cbn [pt_method pt_segments]. rewrite Hq.
  assert (compareMethods m "" = moreSpecific) as ->.
  { unfold compareMethods. rewrite (decide_False (P := m = "")) by done. by rewrite (decide_False (P := m = "")) by done. }
  rewrite decide_False by done. destruct Hs as [Hs|(s & rest & Hs)]; rewrite Hs.
  - rewrite compare_catch_all; [done|]. apply Ho.
  - by rewrite compare_under.
Qed.

Lemma under_compare l s rest : outside l -> comparePaths (Lit "_" :: s :: rest) (Lit <$> l) = disjoint.
Proof.
  intros [Hne Hout]. unfold comparePaths. rewrite lit_not_multi. case_decide; [done|].
  destruct l as [|a [|b l]]; [done|..]; cbn -[decide]; destruct (decide ("_" = a)) as [<-|]; try done.
  by destruct (Hout b l).
Qed.

Lemma internal_user m l s rest : m <> "" -> outside l ->
  conflictsWith {| pt_method := ""; pt_segments := Lit "_" :: s :: rest |} {| pt_method := m; pt_segments := Lit <$> l |} = false.
Proof.
  intros Hm Ho. unfold conflictsWith, comparePathsAndMethods. cbn [pt_method pt_segments]. rewrite under_compare by done.
  case_decide; [done|]. by destruct (compareMethods _ _).
Qed.

Section Register.
Context `{UrlText} {Hd : Type}.

Lemma handle_all_cons (mux : list (pattern * Hd)) method path h l p : parsePattern method path = Some p ->
  existsb (fun q => conflictsWith p q.1) mux = false ->
  handle_all mux ((method, path, h) :: l) = handle_all (mux ++ [(p, h)]) l.
Proof. intros Hp Hc. cbn [handle_all]. unfold Handle. by rewrite Hp, Hc. Qed.

Lemma handle_all_app (mux : list (pattern * Hd)) l1 l2 :
  handle_all mux (l1 ++ l2) = mux' ← handle_all mux l1; handle_all mux' l2.
Proof.
  revert mux. induction l1 as [|[[m p] h] l1 IH]; intros mux; [done|]. cbn [app handle_all].
  destruct (Handle mux m p h); [apply IH|done].
Qed.

(** A registry of internal endpoints and of plain routes. *)
Definition plain_entry (q : pattern * Hd) : Prop :=
  internal q.1 \/ exists l, pt_segments q.1 = Lit <$> l /\ pt_method q.1 <> "" /\ outside l.

Definition plain_route (r : string * string * Hd) : Prop :=
  r.1.1 <> "" /\ plain r.1.2 = true /\ outside (parts r.1.2).

Definition entry_of (r : string * string * Hd) : pattern * Hd :=
  ({| pt_method := r.1.1; pt_segments := Lit <$> parts r.1.2 |}, r.2).

Lemma Handle_plain mux r : Forall plain_entry mux -> plain_route r ->
  (forall q, q ∈ mux -> q.1 <> (entry_of r).1) -> Handle mux r.1.1 r.1.2 r.2 = Some (mux ++ [entry_of r]).
Proof.
  intros Hmux (Hm & Hp & Ho) Hnew. unfold Handle. rewrite plain_pattern by done.
  destruct (existsb _ mux) eqn:Hex; [|done]. exfalso. apply existsb_exists in Hex as (q & Hq%list_elem_of_In & Hc).
  rewrite Forall_forall in Hmux. destruct (Hmux q Hq) as [Hi|(l & Hl & Hqm & Hlo)].
  - by rewrite user_internal in Hc.
  - specialize (Hnew q Hq). destruct q as [[qm qs] h]. cbn in *. subst qs. rewrite user_user in Hc; [done|].
    intros [= <- <-]. by apply Hnew.
Qed.

Lemma handle_all_plain mux l : Forall plain_entry mux -> Forall plain_route l -> NoDup (fst <$> l) ->
  (forall q r, q ∈ mux -> r ∈ l -> q.1 <> (entry_of r).1) -> handle_all mux l = Some (mux ++ (entry_of <$> l)).
Proof.
  revert mux. induction l as [|r l IH]; intros mux Hmux Hl Hnd Hnew; [by rewrite app_nil_r|].
  apply Forall_cons in Hl as [Hr Hl]. rewrite fmap_cons in Hnd. apply NoDup_cons in Hnd as [Hni Hnd].
  destruct r as [[method path] h]. cbn [handle_all].
  assert (Handle mux method path h = Some (mux ++ [entry_of (method, path, h)])) as ->.
  { apply (Handle_plain mux (method, path, h)); [done..|]. intros q Hq. apply Hnew; [done|by left]. }
  rewrite IH; [by rewrite <- app_assoc| |done|done|].
  - apply Forall_app. split; [done|]. apply Forall_singleton. right. exists (parts path). by destruct Hr as (? & ? & ?).
  - intros q r [Hq|Hq]%elem_of_app Hr'; [apply Hnew; [done|by right]|].
    apply list_elem_of_singleton in Hq as ->. destruct r as [[m2 p2] h2]. cbn. intros [= <- Hparts].
    apply list_fmap_eq_inj in Hparts; [|by intros ?? [= ->]]. apply Hni. apply list_elem_of_fmap. exists (method, p2, h2).
    split; [|done]. rewrite Forall_forall in Hl. destruct (Hl _ Hr') as (_ & [Hp2 _]%plain_spec & _).
    destruct Hr as (_ & [Hp1 _]%plain_spec & _). cbn in *. by rewrite (parts_inj path p2).
Qed.

(** *** Dispatch *)

Lemma find_unique {A} (f : A -> bool) l x : x ∈ l -> f x = true -> (forall y, y ∈ l -> f y = true -> y = x) ->
  List.find f l = Some x.
Proof.
  intros Hx Hf Hu. destruct (List.find f l) as [y|] eqn:E.
  - apply find_some in E as [Hy%list_elem_of_In Hfy]. by rewrite (Hu y).
  - apply list_elem_of_In in Hx. pose proof (find_none _ _ E x Hx). congruence.
Qed.

Lemma catch_all_general l : l <> [] -> comparePaths [Multi ""] (Lit <$> l) = moreGeneral.
Proof.
  intros Hl. unfold comparePaths. rewrite lit_not_multi. rewrite decide_False by (intros (_ & [=] & _)).
  by destruct l as [|a [|b l]].
Qed.

Lemma lits_match l ps : Forall (fun s => plain_part s = true) ps -> path_matches (Lit <$> l) ps = true -> l = ps.
Proof.
  revert ps. induction l as [|s l IH]; intros [|x ps] Hp; cbn -[decide]; try done.
  apply Forall_cons in Hp as [(Hx & _)%plain_part_facts Hp]. case_decide.
  - intros [-> _]%bool_decide_eq_true. done.
  - intros [->%bool_decide_eq_true Hm]%andb_true_iff. by rewrite (IH ps).
Qed.

Lemma lits_match_self ps : Forall (fun s => plain_part s = true) ps -> path_matches (Lit <$> ps) ps = true.
Proof.
  induction ps as [|x ps IH]; intros Hp; [done|]. apply Forall_cons in Hp as [Hx Hp].
  apply plain_part_facts in Hx as (_ & _ & _ & _ & _ & Hx). cbn -[decide]. rewrite decide_False by done.
  rewrite bool_decide_eq_true_2 by done. by apply IH.
Qed.

(** What can match a plain route's request: the route, a GET route for a HEAD
    request, or the catch-all. *)
Lemma plain_candidates (r : string * string * Hd) q : plain_route r -> plain_entry q -> matches q.1 r.1.1 r.1.2 = true ->
  (pt_method q.1 = "" /\ pt_segments q.1 = [Multi ""]) \/
  (pt_segments q.1 = Lit <$> parts r.1.2 /\
     (pt_method q.1 = r.1.1 \/ (pt_method q.1 = "GET" /\ r.1.1 = "HEAD"))).
Proof.
  intros (Hm & [Hp Hps]%plain_spec & Hne & Hout) Hq [Hmm Hpm]%andb_true_iff.
  destruct Hq as [[Hqm [Hs|(s & rest & Hs)]]|(l & Hs & Hqm & Ho)]; rewrite Hs in *.
  - by left.
  - exfalso. destruct (parts r.1.2) as [|x ps]; [done|]. cbn -[decide] in Hpm.
    rewrite decide_False in Hpm by done. apply andb_true_iff in Hpm as [<-%bool_decide_eq_true Hpm].
    destruct ps as [|y ps]; [by destruct s|]. by destruct (Hout y ps).
  - right. apply lits_match in Hpm; [|done]. split; [by rewrite Hpm|]. unfold method_matches in Hmm.
    rewrite !orb_true_iff, !bool_decide_eq_true in Hmm. naive_solver.
Qed.

(** A request for a plain route goes to that route. *)
Lemma dispatch_plain mux (r : string * string * Hd) : Forall plain_entry mux -> plain_route r -> entry_of r ∈ mux ->
  (forall q, q ∈ mux -> q.1 = (entry_of r).1 -> q = entry_of r) ->
  mux_Handler mux r.1.1 r.1.2 = Some (entry_of r).
Proof.
  intros Hmux Hr Hin Huniq. unfold mux_Handler. rewrite Forall_forall in Hmux.
  pose proof Hr as (Hm & [Hp Hps]%plain_spec & Hne & Hout).
  assert (forall q, q ∈ List.filter (fun q => matches q.1 r.1.1 r.1.2) mux <-> q ∈ mux /\ matches q.1 r.1.1 r.1.2 = true) as Hf.
  { intros q. rewrite !list_elem_of_In. apply filter_In. }
  assert (entry_of r ∈ List.filter (fun q => matches q.1 r.1.1 r.1.2) mux) as Hself.
  { apply Hf. split; [done|]. apply andb_true_iff. split; [|by apply lits_match_self].
    unfold method_matches. cbn. rewrite (bool_decide_eq_true_2 (r.1.1 = r.1.1)) by done. by rewrite orb_true_r. }
  apply find_unique; [done|..].
  - apply forallb_forall. intros q Hq%list_elem_of_In. apply Hf in Hq as [Hq Hqm].
    destruct (plain_candidates r q Hr (Hmux q Hq) Hqm) as [[Hqe Hqs]|[Hqs Hqe]];
      unfold comparePathsAndMethods; cbn [entry_of fst pt_method pt_segments]; rewrite Hqs.
    + rewrite Hqe. assert (compareMethods r.1.1 "" = moreSpecific) as ->.
      { unfold compareMethods. by rewrite !(decide_False (P := r.1.1 = "")) by done. }
      rewrite decide_False by done. by rewrite compare_catch_all.
    + rewrite compare_lits, (decide_True (P := parts r.1.2 = parts r.1.2)) by done. destruct Hqe as [->|[-> ->]]; [|done].
      unfold compareMethods. by rewrite (decide_True (P := r.1.1 = r.1.1)) by done.
  - intros q Hq Hall. apply Hf in Hq as [Hq Hqm]. apply Huniq; [done|].
    rewrite forallb_forall in Hall. apply list_elem_of_In in Hself. specialize (Hall _ Hself). revert Hall.
    destruct (plain_candidates r q Hr (Hmux q Hq) Hqm) as [[Hqe Hqs]|[Hqs Hqe]];
      unfold comparePathsAndMethods; cbn [entry_of fst pt_method pt_segments]; rewrite Hqs.
    + rewrite Hqe. unfold compareMethods. rewrite (decide_False (P := "" = r.1.1)) by congruence.
      rewrite (decide_True (P := "" = "")) by done. cbn -[comparePaths]. by rewrite catch_all_general.
    + destruct Hqe as [Hqe|[-> ->]]; [|by rewrite compare_lits, (decide_True (P := parts _ = parts _)) by done].
      intros _. destruct q as [[qm qs] h]. cbn in *. by subst.
Qed.
End Register.
