(* ===== verification/Logging.v ===== *)
(** * internal/logging (logging.go)

    The package variables of the logger: the level, which can be changed at run
    time, the file to close on shutdown and the destination of the default logger.
    A record goes to the destination if its level is at least the current one.  The
    directory of the log file and the rotating writer (lumberjack) are parameters. *)
From S2P Require Import Prelude GoStrings GoValues Patterns.

Inductive Level := LevelDebug | LevelInfo | LevelWarn | LevelError.

#[export] Instance Level_eq_dec : EqDecision Level.
Proof. solve_decision. Defined.

(** The values of [slog]. *)
Definition level_value (l : Level) : Z :=
  match l with LevelDebug => -4 | LevelInfo => 0 | LevelWarn => 4 | LevelError => 8 end.

(** The rotating file; [Compress] and [LocalTime] are always set. *)
Record Rotation := { lj_Filename : string; lj_MaxSize : Z; lj_MaxBackups : Z; lj_MaxAge : Z }.

Inductive Output := Stderr | Stdout | Rotated (lj : Rotation).

Record Logger := { lo_level : Level; lo_closer : option Rotation; lo_out : Output }.

(** The package before [Init]: level info, the standard logger. *)
Definition logger0 : Logger := {| lo_level := LevelInfo; lo_closer := None; lo_out := Stderr |}.

(** [os.MkdirAll(filepath.Dir(path), 0755)] and [lumberjack.Logger.Close]. *)
Class LogFiles := {
  MkdirAll_Dir : string -> option error;
  lumberjack_Close : Rotation -> option error;
}.

Section Logging.
Context `{UnicodeTables, MapWalk, LogFiles}.

Definition parseLevel (s : string) : Level :=
  let l := ToLower s in
  if decide (l = "debug") then LevelDebug
  else if decide (l = "warn" \/ l = "warning") then LevelWarn
  else if decide (l = "error") then LevelError
  else LevelInfo.

Definition SetLevel (lg : Logger) (level : string) : Logger :=
  {| lo_level := parseLevel level; lo_closer := lo_closer lg; lo_out := lo_out lg |}.

Definition GetLevel (lg : Logger) : string :=
  match lo_level lg with
  | LevelDebug => "debug" | LevelWarn => "warn" | LevelError => "error" | LevelInfo => "info"
  end.

(** The level is set even if the directory cannot be made, and a logger on standard
    output keeps the file of an earlier call to be closed. *)
Definition Init (lg : Logger) (level filePath : string) (maxSizeMB maxBackups maxAgeDays : Z) : option error * Logger :=
  let lg := SetLevel lg level in
  if decide (filePath = "") then
    (None, {| lo_level := lo_level lg; lo_closer := lo_closer lg; lo_out := Stdout |})
  else match MkdirAll_Dir filePath with
  | Some err => (Some err, lg)
  | None =>
    let lj := {| lj_Filename := filePath; lj_MaxSize := maxSizeMB; lj_MaxBackups := maxBackups; lj_MaxAge := maxAgeDays |} in
    (None, {| lo_level := lo_level lg; lo_closer := Some lj; lo_out := Rotated lj |})
  end.

Definition Close (lg : Logger) : option error :=
  match lo_closer lg with Some lj => lumberjack_Close lj | None => None end.

(** The fields in the order of the map, keys and values alternating. *)
Definition mapToAttrs (m : option (gmap string any)) : list any :=
  match m with
  | None => []
  | Some m => flat_map (fun kv => [AStr kv.1; kv.2]) (walk m)
  end.

(** [slog.Log]: the record and where it goes. *)
Definition log_at (lvl : Level) (lg : Logger) (msg : string) (fields : option (gmap string any))
    : option (Output * Level * string * list any) :=
  if decide (level_value (lo_level lg) <= level_value lvl) then Some (lo_out lg, lvl, msg, mapToAttrs fields) else None.

Definition Debug := log_at LevelDebug.
Definition Info := log_at LevelInfo.
Definition Warn := log_at LevelWarn.
Definition ErrorLog := log_at LevelError.

(** What [GetLevel] reports sets the same level again. *)
Lemma GetLevel_SetLevel lg : SetLevel lg (GetLevel lg) = lg.
Proof. destruct lg as [[] ? ?]; reflexivity. Qed.

Lemma Init_level lg level f a b c : lo_level (Init lg level f a b c).2 = parseLevel level.
Proof. unfold Init. case_decide; [done|]. by destruct (MkdirAll_Dir f). Qed.

(** A logger that opened its file closes that file. *)
Lemma Init_closes lg level f a b c : (Init lg level f a b c).1 = None -> f <> "" ->
  Close (Init lg level f a b c).2 = lumberjack_Close {| lj_Filename := f; lj_MaxSize := a; lj_MaxBackups := b; lj_MaxAge := c |}.
Proof. intros Hi Hf. unfold Init in *. case_decide; [done|]. by destruct (MkdirAll_Dir f). Qed.
End Logging.
