(* ===== verification/ServerInit.v ===== *)
(** * internal/server: starting the server (server.go)

    [New] builds the server out of the components: it connects the databases,
    makes the cache, the encoder of public ids, the limiter and the metrics,
    validates and compiles the workflows, schedules the cron triggers and registers
    the routes.  The records it logs are left out.  The
    health checker that [New] starts is in [Health].  A route is registered on the
    mux of [Mux], where a bad pattern or a conflict panics. *)
From S2P Require Import Prelude GoStrings Patterns GoValues Trace Numbers PublicID Cache RateLimit WfConfig SqlParams Expr Compile Executor Handler WfValidate DbText Db Metrics Adapters TmplEngine ConfigLoad CfgValidate Mux Logging.

(** ** Workflows *)

Section Workflows.
Context `{UnicodeTables, TL : TemplateLang, EL : ExprLang, MapWalk, Schedules}.

(** The text of a slice of strings. *)
Definition show_strings (l : list string) : string := "[" +:+ Join l " " +:+ "]".

Fixpoint compile_workflows (ctx : ValidationContext) (l : list WorkflowConfig) : C (list CompiledWorkflow) :=
  match l with
  | [] => cret []
  | wf :: l =>
    let r := WfValidate.Validate wf (Some ctx) in
    let name := "workflow " +:+ Quote (wc_Name wf) in
    if negb (vr_Valid r) then cerr (Errorf (name +:+ " validation failed: " +:+ show_strings (vr_Errors r)))
    else
      cbind (cwrap (name +:+ " compilation failed: ") (Compile wf)) (fun compiled =>
      cbind (compile_workflows ctx l) (fun r => cret (compiled :: r)))
  end.

Definition triggers_of (type : string) (wf : CompiledWorkflow) : list (CompiledWorkflow * CompiledTrigger) :=
  (fun t => (wf, t)) <$> List.filter (fun t => bool_decide (tc_Type (ct_Config t) = type)) (cw_Triggers wf).

(** The triggers of a type, workflow by workflow. *)
Definition all_triggers (type : string) (wfs : list CompiledWorkflow) : list (CompiledWorkflow * CompiledTrigger) :=
  flat_map (triggers_of type) wfs.

Definition route_of (wt : CompiledWorkflow * CompiledTrigger) : string :=
  tc_Method (ct_Config wt.2) +:+ " " +:+ tc_Path (ct_Config wt.2).

Fixpoint route_clash (routes : gmap string string) (l : list (CompiledWorkflow * CompiledTrigger)) : option error :=
  match l with
  | [] => None
  | wt :: l =>
    let route := route_of wt in
    let name := wc_Name (cw_Config wt.1) in
    match routes !! route with
    | Some other => Some (Errorf ("route clash: " +:+ route +:+ " is defined in both " +:+ Quote other +:+ " and " +:+ Quote name))
    | None => route_clash (<[route := name]> routes) l
    end
  end.

(** [initWorkflows]; the executor it makes is that of [Executor] on the adapter
    [dbAdapter]. *)
Definition initWorkflows (cfg : Config) : C (list CompiledWorkflow) :=
  cbind (compile_workflows (workflow_context cfg) (cf_Workflows cfg)) (fun wfs =>
  match route_clash ∅ (all_triggers "http" wfs) with
  | Some e => cerr e
  | None => cret wfs
  end).

(** The jobs of the scheduler; [cron.AddFunc] refuses what [ParseStandard] does. *)
Fixpoint add_jobs (l : list (CompiledWorkflow * CompiledTrigger)) : C (list (CompiledWorkflow * CompiledTrigger)) :=
  match l with
  | [] => cret []
  | wt :: l =>
    match cron_ParseStandard (tc_Schedule (ct_Config wt.2)) with
    | Some e => cerr (Wrapf ("failed to add workflow " +:+ Quote (wc_Name (cw_Config wt.1)) +:+ " cron job: ") e "")
    | None => cbind (add_jobs l) (fun r => cret (wt :: r))
    end
  end.

(** No scheduler is made without cron triggers. *)
Definition addWorkflowCronJobs (wfs : list CompiledWorkflow) : C (option (list (CompiledWorkflow * CompiledTrigger))) :=
  match all_triggers "cron" wfs with
  | [] => cret None
  | l => cbind (add_jobs l) (fun jobs => cret (Some jobs))
  end.
End Workflows.

(** ** Routes *)

Section Routes.
Context `{UnicodeTables, TL : TemplateLang, EL : ExprLang, UrlText}.

(** What a route leads to. *)
Inductive route_handler :=
| RHealth | RDbHealth | RMetricsJSON | RMetrics | ROpenAPI | RLogLevel | RCacheClear | RRateLimits
| RRateLimitsReset | RListEndpoints
| RWorkflow (workflowName method : string) (h : HTTPHandler)
| RPprof (name : string).

Definition internal_routes : list (string * string * route_handler) := [
  ("", "/_/health", RHealth); ("", "/_/health/", RDbHealth); ("", "/_/metrics.json", RMetricsJSON);
  ("", "/_/metrics", RMetrics); ("", "/_/openapi.json", ROpenAPI); ("", "/_/config/loglevel", RLogLevel);
  ("", "/_/cache/clear", RCacheClear); ("", "/_/ratelimits", RRateLimits);
  ("", "/_/ratelimits/reset", RRateLimitsReset); ("", "/", RListEndpoints)].

(** [NewHTTPHandler] for a trigger, under the metrics middleware.  The pattern is the
    method, a space and the path, which begins with a slash in a valid workflow. *)
Definition workflow_route (cfg : Config) (wt : CompiledWorkflow * CompiledTrigger) : string * string * route_handler :=
  let t := ct_Config wt.2 in
  (tc_Method t, tc_Path t, RWorkflow (wc_Name (cw_Config wt.1)) (tc_Method t)
     {| hh_workflow := wt.1; hh_trigger := wt.2; hh_trustProxyHeaders := sv_TrustProxyHeaders (cf_Server cfg);
        hh_version := sv_Version (cf_Server cfg); hh_buildTime := sv_BuildTime (cf_Server cfg);
        hh_variables := va_Values (cf_Variables cfg) |}).

Abbreviation Mux_ := (list (pattern * route_handler)).

Definition setupRoutes (cfg : Config) (wfs : list CompiledWorkflow) : option Mux_ :=
  handle_all [] (internal_routes ++ (workflow_route cfg <$> all_triggers "http" wfs)).

Definition pprof_routes : list (string * string * route_handler) := [
  ("", "/_/debug/pprof/", RPprof "index"); ("", "/_/debug/pprof/cmdline", RPprof "cmdline");
  ("", "/_/debug/pprof/profile", RPprof "profile"); ("", "/_/debug/pprof/symbol", RPprof "symbol");
  ("", "/_/debug/pprof/trace", RPprof "trace")].

(** The profiler on the main port, on a port of its own, or nowhere: the mux of the
    server and the address and mux of the debug server. *)
Definition setup_debug (cfg : Config) (mux : Mux_) : option (Mux_ * option (string * Mux_)) :=
  let d := cf_Debug cfg in
  if negb (de_Enabled d) then Some (mux, None)
  else if decide (de_Port d = 0 \/ de_Port d = sv_Port (cf_Server cfg)) then
    (fun m => (m, None)) <$> handle_all mux pprof_routes
  else
    let host := if decide (de_Host d = "") then "localhost" else de_Host d in
    (fun m => (mux, Some (host +:+ ":" +:+ pretty (de_Port d), m))) <$> handle_all [] pprof_routes.
End Routes.

(** ** The server *)

Section Server.
Context `{UnicodeTables, TL : TemplateLang, EL : ExprLang, MapWalk, Schedules, Hmac, TextTemplate, FloatToInt}.
Context `{TokenBucket, UrlText, LogFiles}.
Context `{!Cache.JsonSize any, !Cache.AgeOrder, R : !Cache.Ristretto (option (Cache.Entry any))}.
Context {W : Type} {DB : SqlDB W} `{MySQLFormat}.

Abbreviation X := (M (Traced W event)).
Abbreviation Manager := (gmap string (Driver (W := W))).
Abbreviation RespCache := (Cache.Cache (V := any)).

(** The log is a variable of its package. *)
Record Server := {
  se_log : Logger; se_dbManager : Manager; se_dbHealthy : bool; se_createdAt : Z; se_config : Config;
  se_cache : option RespCache; se_ctxBuilder : ContextBuilder; se_engine : Engine;
  se_rateLimiter : option Limiter; se_metrics : option Collector;
  se_workflows : list CompiledWorkflow; se_cron : option (list (CompiledWorkflow * CompiledTrigger));
  se_mux : list (pattern * route_handler); se_Addr : string; se_WriteTimeout : Z;
  se_debug : option (string * list (pattern * route_handler));
}.

Definition init_cache (cfg : Config) : C (option RespCache) :=
  match sv_Cache (cf_Server cfg) with
  | Some c => if Cache.cc_Enabled c then cwrap "failed to initialize cache: " (Some (Cache.New c)) else cret None
  | None => cret None
  end.

Definition init_engine (cfg : Config) : C Engine :=
  match cf_PublicIDs cfg with
  | Some p =>
    if decide (pi_SecretKey p <> "") then
      cbind (cwrap "failed to initialize public ID encoder: " (Some (NewEncoder (pi_SecretKey p) (pi_Namespaces p))))
        (fun enc => cret (SetPublicIDEncoder engine_New enc))
    else cret engine_New
  | None => cret engine_New
  end.

Definition init_limiter (cfg : Config) (e : Engine) : C (option Limiter) :=
  match cf_RateLimits cfg with
  | [] => cret None
  | l => cbind (cwrap "failed to initialize rate limiter: " (Some (RateLimit.New (H1 := engine_keys e) l)))
           (fun l => cret (Some l))
  end.

Definition init_workflows (cfg : Config)
    : C (list CompiledWorkflow * option (list (CompiledWorkflow * CompiledTrigger))) :=
  match cf_Workflows cfg with
  | [] => cret ([], None)
  | _ => cbind (initWorkflows cfg) (fun wfs => cbind (addWorkflowCronJobs wfs) (fun jobs => cret (wfs, jobs)))
  end.

Definition writeTimeoutBuffer : Z := 30 * RateLimit.Second.

(** What [New] does once the databases are connected, at the instant [now]; [None]
    is a panic. *)
Definition build (cfg : Config) (m : Manager) (log : Logger) (now : Z) : C Server :=
  cbind (init_cache cfg) (fun cache =>
  cbind (init_engine cfg) (fun engine =>
  cbind (init_limiter cfg engine) (fun limiter =>
  cbind (init_workflows cfg) (fun '(wfs, jobs) =>
  match setupRoutes cfg wfs with
  | None => None
  | Some mux =>
    match setup_debug cfg mux with
    | None => None
    | Some (mux, debug) =>
      let sv := cf_Server cfg in
      cret {| se_dbManager := m; se_log := log; se_dbHealthy := true; se_createdAt := now; se_config := cfg; se_cache := cache;
              se_ctxBuilder := {| cb_trustProxyHeaders := sv_TrustProxyHeaders sv; cb_version := sv_Version sv |};
              se_engine := engine; se_rateLimiter := limiter;
              se_metrics := if cf_Metrics_Enabled cfg then Some (Metrics.Init (sv_Version sv) (sv_BuildTime sv) now) else None;
              se_workflows := wfs; se_cron := jobs; se_mux := mux;
              se_Addr := sv_Host sv +:+ ":" +:+ pretty (sv_Port sv);
              se_WriteTimeout := i64 (i64 (sv_MaxTimeoutSec sv * RateLimit.Second) + writeTimeoutBuffer);
              se_debug := debug |}
    end
  end)))).

Definition New (cfg : Config) (interactive : bool) (now : Z) : X (result Server) :=
  let lg := cf_Logging cfg in
  match Logging.Init logger0 (lg_Level lg) (if interactive then "" else lg_FilePath lg) (lg_MaxSizeMB lg) (lg_MaxBackups lg)
          (lg_MaxAgeDays lg) with
  | (Some e, _) => ret (Err (Wrapf "failed to initialize logging: " e ""))
  | (None, log) =>
    let* r := NewManager (cf_Databases cfg) in
    match r with
    | Err e => ret (Err (Wrapf "failed to connect to databases: " e ""))
    | Ok m => match build cfg m log now with Some r => ret r | None => panic end
    end
  end.
End Server.

(** ** What compilation keeps *)

Section Compiled.
Context `{UnicodeTables, TL : TemplateLang, EL : ExprLang, MapWalk, Schedules}.

Lemma compile_triggers_config i l ts : compile_triggers i l = Some (Ok ts) -> ct_Config <$> ts = l.
Proof.
  revert i ts. induction l as [|t l IH]; intros i ts; cbn [compile_triggers]; [by intros [= <-]|].
  rewrite cbind_Ok. intros (ct & Hct%cwrap_Ok & Hk). rewrite cbind_Ok in Hk. destruct Hk as (r & Hr & [= <-]).
  rewrite fmap_cons, (IH (S i)) by done. f_equal. unfold compileTrigger in Hct.
  apply cbind_Ok in Hct as (key & _ & Hct). apply cbind_Ok in Hct as (rls & _ & [= <-]). done.
Qed.

Lemma Compile_config cfg wf : Compile cfg = Some (Ok wf) ->
  cw_Config wf = cfg /\ ct_Config <$> cw_Triggers wf = wc_Triggers cfg.
Proof.
  unfold Compile. rewrite cbind_Ok. intros (asts & _ & Hk). rewrite cbind_Ok in Hk. destruct Hk as (ts & Hts & Hk).
  rewrite cbind_Ok in Hk. destruct Hk as (steps & _ & [= <-]). split; [done|]. by apply compile_triggers_config in Hts.
Qed.

(** The workflows of a started server are valid ones, compiled. *)
Definition validated (ctx : ValidationContext) (cfg : WorkflowConfig) (wf : CompiledWorkflow) : Prop :=
  vr_Valid (WfValidate.Validate cfg (Some ctx)) = true /\ Compile cfg = Some (Ok wf).

Lemma compile_workflows_Ok ctx l wfs : compile_workflows ctx l = Some (Ok wfs) <-> Forall2 (validated ctx) l wfs.
Proof.
  revert wfs. induction l as [|c l IH]; intros wfs; cbn [compile_workflows].
  { split; [intros [= <-]; constructor|]. by intros ->%Forall2_nil_inv_l. }
  destruct (vr_Valid _) eqn:Hv; cbn [negb].
  - rewrite cbind_Ok. setoid_rewrite cbind_Ok. split.
    + intros (wf & Hwf%cwrap_Ok & r & Hr & [= <-]). constructor; [done|]. by apply IH.
    + intros (wf & r & [_ Hwf] & Hr & ->)%Forall2_cons_inv_l. exists wf. split; [by apply cwrap_Ok|].
      exists r. split; [by apply IH|done].
  - split; [done|]. intros (wf & r & [Hv' _] & _ & _)%Forall2_cons_inv_l. unfold validated in *. congruence.
Qed.

Lemma all_triggers_elem type wfs wf t : (wf, t) ∈ all_triggers type wfs <->
  wf ∈ wfs /\ t ∈ cw_Triggers wf /\ tc_Type (ct_Config t) = type.
Proof.
  unfold all_triggers. rewrite list_elem_of_In, in_flat_map. setoid_rewrite <- list_elem_of_In. unfold triggers_of. split.
  - intros (wf' & Hwf & (t' & [= -> ->] & Ht)%list_elem_of_fmap).
    apply list_elem_of_In, filter_In in Ht as [Ht%list_elem_of_In ?%bool_decide_eq_true]. done.
  - intros (Hwf & Ht & Hty). exists wf. split; [done|]. apply list_elem_of_fmap. exists t. split; [done|].
    apply list_elem_of_In, filter_In. split; [by apply list_elem_of_In|by apply bool_decide_eq_true].
Qed.

(** The configuration of a trigger of a validated workflow. *)
Lemma trigger_config ctx l wfs type wf t : Forall2 (validated ctx) l wfs -> (wf, t) ∈ all_triggers type wfs ->
  exists cfg, cfg ∈ l /\ validated ctx cfg wf /\ ct_Config t ∈ wc_Triggers cfg /\ tc_Type (ct_Config t) = type.
Proof.
  intros Hl (Hwf & Ht & Hty)%all_triggers_elem. apply list_elem_of_lookup in Hwf as [i Hi].
  destruct (Forall2_lookup_r _ _ _ _ _ Hl Hi) as (cfg & Hc & Hv). exists cfg.
  split_and!; [by apply list_elem_of_lookup_2 in Hc|done| |done].
  destruct Hv as [_ (_ & <-)%Compile_config]. by apply list_elem_of_fmap_2.
Qed.

Lemma validate_triggers_elem prefix ctx routes i l t : no_errors (validate_triggers prefix ctx routes i l) -> t ∈ l ->
  exists pre, no_errors (validateTrigger t pre ctx).
Proof.
  revert routes i. induction l as [|t' l IH]; intros routes i; [by intros _ ?%not_elem_of_nil|].
  cbn [validate_triggers]. rewrite no_errors_app. intros [Ht Hl] [->|Hin]%elem_of_cons; [by eexists|].
  case_decide; [rewrite no_errors_app in Hl; destruct Hl as [_ Hl]|]; by eapply IH.
Qed.

Lemma valid_trigger cfg ctx t : vr_Valid (WfValidate.Validate cfg ctx) = true -> t ∈ wc_Triggers cfg ->
  exists pre, no_errors (validateTrigger t pre ctx).
Proof.
  rewrite Valid_spec. unfold validate_issues. case_decide; [by intros ?%no_errors_cons|].
  rewrite !no_errors_app. intros (_ & Ht & _) Hin. by eapply validate_triggers_elem.
Qed.

Lemma valid_http cfg ctx t : vr_Valid (WfValidate.Validate cfg ctx) = true -> t ∈ wc_Triggers cfg -> tc_Type t = "http" ->
  tc_Method t <> "" /\ HasPrefix (tc_Path t) "/" = true /\ HasPrefix (tc_Path t) "/_/" = false.
Proof.
  intros Hv Ht Hty. destruct (valid_trigger _ _ _ Hv Ht) as [pre Hn]. unfold validateTrigger in Hn. rewrite Hty in Hn.
  change (no_errors (validateHTTPTrigger t pre ctx)) in Hn. unfold validateHTTPTrigger in Hn. rewrite !no_errors_app in Hn.
  destruct Hn as (Hp & Hm & _). split_and!.
  - intros E. rewrite decide_True in Hm by done. by apply no_errors_cons in Hm.
  - destruct (decide (tc_Path t = "")) as [E|E]; [by apply no_errors_cons in Hp|]. rewrite no_errors_app, !no_errors_if in Hp.
    destruct Hp as [?%negb_false_iff _]. done.
  - destruct (decide (tc_Path t = "")) as [E|E]; [by apply no_errors_cons in Hp|]. rewrite no_errors_app, !no_errors_if in Hp. by destruct Hp.
Qed.

Lemma valid_cron cfg ctx t : vr_Valid (WfValidate.Validate cfg ctx) = true -> t ∈ wc_Triggers cfg -> tc_Type t = "cron" ->
  cron_ParseStandard (tc_Schedule t) = None.
Proof.
  intros Hv Ht Hty. destruct (valid_trigger _ _ _ Hv Ht) as [pre Hn]. unfold validateTrigger in Hn. rewrite Hty in Hn.
  change (no_errors (validateCronTrigger t pre)) in Hn. unfold validateCronTrigger in Hn. rewrite !no_errors_app in Hn.
  destruct Hn as (Hs & _). destruct (decide (tc_Schedule t = "")); [by apply no_errors_cons in Hs|]. apply no_errors_of in Hs.
  unfold validateCronExpr in Hs. destruct (splitTZPrefix _); [|done]. by destruct (cron_ParseStandard _).
Qed.

Lemma add_jobs_ok l : Forall (fun wt => cron_ParseStandard (tc_Schedule (ct_Config wt.2)) = None) l ->
  add_jobs l = cret l.
Proof. induction 1 as [|wt l Hwt _ IH]; cbn [add_jobs]; [done|]. by rewrite Hwt, IH. Qed.

Lemma route_clash_None routes l : NoDup (route_of <$> l) -> Forall (fun wt => routes !! route_of wt = None) l ->
  route_clash routes l = None.
Proof.
  revert routes. induction l as [|wt l IH]; intros routes Hnd Hr; cbn [route_clash]; [done|].
  rewrite fmap_cons in Hnd. apply NoDup_cons in Hnd as [Hni Hnd]. apply Forall_cons in Hr as [-> Hr].
  apply IH; [done|]. rewrite Forall_forall in *. intros wt' Hin. rewrite lookup_insert_ne; [by apply Hr|].
  intros E. apply Hni. rewrite E. by apply list_elem_of_fmap_2.
Qed.

Lemma route_clash_NoDup routes l : route_clash routes l = None -> NoDup (route_of <$> l) /\
  Forall (fun wt => routes !! route_of wt = None) l.
Proof.
  revert routes. induction l as [|wt l IH]; intros routes; cbn [route_clash]; [by repeat constructor|].
  destruct (routes !! route_of wt) eqn:E; [done|]. intros [Hnd Hf]%IH. rewrite Forall_forall in Hf. split.
  - rewrite fmap_cons. apply NoDup_cons. split; [|done]. intros (wt' & Hr & Hin)%list_elem_of_fmap.
    specialize (Hf _ Hin). rewrite Hr in Hf. by rewrite lookup_insert_eq in Hf.
  - constructor; [done|]. apply Forall_forall. intros wt' Hin. specialize (Hf _ Hin). by apply lookup_insert_None in Hf as [? _].
Qed.
End Compiled.

(** ** A server that has started *)

Section Started.
Context `{UnicodeTables, TL : TemplateLang, EL : ExprLang, MapWalk, Schedules, Hmac, TextTemplate, FloatToInt}.
Context `{TokenBucket, UrlText, LogFiles}.
Context `{!Cache.JsonSize any, !Cache.AgeOrder, R : !Cache.Ristretto (option (Cache.Entry any))}.
Context {W : Type} {DB : SqlDB W} `{MySQLFormat}.

Lemma handle_all_handlers {A} (mux mux' : list (pattern * A)) l : handle_all mux l = Some mux' ->
  mux'.*2 = mux.*2 ++ l.*2.
Proof.
  revert mux. induction l as [|[[method path] h] l IH]; intros mux; cbn [handle_all].
  { intros [= <-]. by rewrite app_nil_r. }
  destruct (Handle mux method path h) as [mux1|] eqn:E; [|done]. intros Hl. rewrite (IH _ Hl).
  unfold Handle in E. destruct (parsePattern method path); [|done]. destruct (existsb _ mux); [done|].
  injection E as <-. rewrite fmap_app, fmap_cons. by rewrite <- app_assoc.
Qed.

Lemma init_workflows_Ok cfg wfs jobs : init_workflows cfg = Some (Ok (wfs, jobs)) ->
  Forall2 (validated (workflow_context cfg)) (cf_Workflows cfg) wfs /\ NoDup (route_of <$> all_triggers "http" wfs).
Proof.
  unfold init_workflows. destruct (cf_Workflows cfg) as [|c l] eqn:E.
  { intros [= <- <-]. split; constructor. }
  rewrite cbind_Ok. intros (wfs' & Hw & Hk). rewrite cbind_Ok in Hk. destruct Hk as (jobs' & _ & [= <- <-]).
  unfold initWorkflows in Hw. rewrite cbind_Ok in Hw. destruct Hw as (wfs1 & Hc & Hr). rewrite E in Hc.
  apply compile_workflows_Ok in Hc. destruct (route_clash _ _) eqn:Er; [done|]. injection Hr as <-.
  split; [done|]. by apply route_clash_NoDup in Er as [? _].
Qed.

Lemma build_Ok cfg m log now server : build cfg m log now = Some (Ok server) -> exists mux,
  init_workflows cfg = Some (Ok (se_workflows server, se_cron server)) /\
  setupRoutes cfg (se_workflows server) = Some mux /\
  setup_debug cfg mux = Some (se_mux server, se_debug server) /\ se_config server = cfg.
Proof.
  unfold build. rewrite cbind_Ok. intros (cache & _ & Hk). rewrite cbind_Ok in Hk. destruct Hk as (engine & _ & Hk).
  rewrite cbind_Ok in Hk. destruct Hk as (limiter & _ & Hk). rewrite cbind_Ok in Hk.
  destruct Hk as ([wfs jobs] & Hw & Hk). destruct (setupRoutes cfg wfs) as [mux|] eqn:Em; [|done].
  destruct (setup_debug cfg mux) as [[mux' debug]|] eqn:Ed; [|done]. injection Hk as <-. by exists mux.
Qed.

Lemma New_Ok cfg interactive now s server s' : New cfg interactive now s = (Some (Ok server), s') ->
  exists m log, (NewManager (cf_Databases cfg) s).1 = Some (Ok m) /\ build cfg m log now = Some (Ok server).
Proof.
  unfold New. destruct (Logging.Init _ _ _ _ _ _) as [[e|] log]; [done|]. unfold bind.
  destruct (NewManager _ s) as [[[m|e]|] s1]; [|done..]. destruct (build cfg m log now) as [[sv|e]|] eqn:Eb; try done.
  intros [= <- <-]. by exists m, log.
Qed.

(** The HTTP routes of a started server lead to valid workflows. *)
Lemma started_routes cfg interactive now s server s' p name method h :
  New cfg interactive now s = (Some (Ok server), s') -> (p, RWorkflow name method h) ∈ se_mux server ->
  exists wcfg, wcfg ∈ cf_Workflows cfg /\ validated (workflow_context cfg) wcfg (hh_workflow h).
Proof.
  intros (m & log & _ & (mux & Hw & Hr & Hd & _)%build_Ok)%New_Ok Hin.
  apply init_workflows_Ok in Hw as [Hv _].
  assert (RWorkflow name method h ∈ mux.*2) as Hmux.
  { apply (list_elem_of_fmap_2 snd) in Hin. cbn in Hin. unfold setup_debug in Hd.
    destruct (de_Enabled _); cbn [negb] in Hd; [|injection Hd as Hd _; by rewrite Hd].
    case_decide.
    - apply fmap_Some in Hd as (mux1 & Hh & [= Hd _]). apply handle_all_handlers in Hh. rewrite Hd, Hh in Hin.
      apply elem_of_app in Hin as [?|Hin]; [done|]. cbn in Hin.
      by repeat (apply elem_of_cons in Hin as [Hin|Hin]; [done|]); apply not_elem_of_nil in Hin.
    - apply fmap_Some in Hd as (mux1 & _ & [= Hd _]). by rewrite Hd in Hin. }
  apply handle_all_handlers in Hr. rewrite Hr, fmap_nil, app_nil_l, fmap_app in Hmux.
  apply elem_of_app in Hmux as [Hmux|Hmux].
  { cbn in Hmux. by repeat (apply elem_of_cons in Hmux as [Hmux|Hmux]; [done|]); apply not_elem_of_nil in Hmux. }
  apply list_elem_of_fmap in Hmux as (r & Hr' & ([wf t] & -> & Ht)%list_elem_of_fmap). cbn in Hr'. injection Hr' as _ _ ->.
  destruct (trigger_config _ _ _ _ _ _ Hv Ht) as (wcfg & ? & ? & _). by exists wcfg.
Qed.

Context `{ExprFuncs, FloatText, GoText} {W2 : Type} {P : Platform W2} {SV : Services}.

(** C5: a server that has started serves.  If [New] returns a server, then the handler
    behind every HTTP route it registered sends a status line for every request, or it
    panics, and that for one of two reasons only: a call of a database panicked (a driver
    whose reconnection failed has no pool), or the trigger cache was asked and gave a
    status code that cannot be sent.  Everything else that could panic was refused when
    the server was built. *)
Theorem New_serves cfg interactive now s server s' p name method h ctx r st
    (Hnew : New cfg interactive now s = (Some (Ok server), s'))
    (Hroute : (p, RWorkflow name method h) ∈ se_mux server) (Hw : is_Some (st_rw st)) :
  match ServeHTTP h ctx r st with
  | (Some _, st') => committed st'
  | (None, st') => serve_lost h st'
  end.
Proof.
  destruct (started_routes _ _ _ _ _ _ _ _ _ _ Hnew Hroute) as (wcfg & _ & Hv & Hc).
  by eapply valid_workflow_serves.
Qed.
End Started.

(** ** A configuration with which the server starts *)

Section Starts.
Context `{UnicodeTables, TL : TemplateLang, EL : ExprLang, MapWalk, Schedules, Hmac, TextTemplate, FloatToInt}.
Context `{TokenBucket, UrlText, LogFiles}.
Context `{!Cache.JsonSize any, !Cache.AgeOrder, R : !Cache.Ristretto (option (Cache.Entry any))}.
Context {W : Type} {DB : SqlDB W} `{MySQLFormat}.

Definition has_type (type : string) (t : TriggerConfig) : bool := bool_decide (tc_Type t = type).

(** The triggers of a type that a configuration has, workflow by workflow. *)
Definition configured_triggers (type : string) (l : list WorkflowConfig) : list TriggerConfig :=
  List.filter (has_type type) (flat_map wc_Triggers l).

Definition http_triggers : list WorkflowConfig -> list TriggerConfig := configured_triggers "http".

Definition route_text (t : TriggerConfig) : string := tc_Method t +:+ " " +:+ tc_Path t.

Lemma filter_map {A B} (f : A -> B) (g : B -> bool) l : f <$> List.filter (fun a => g (f a)) l = List.filter g (f <$> l).
Proof. induction l as [|a l IH]; [done|]. cbn. destruct (g (f a)); cbn; by rewrite IH. Qed.

Lemma all_triggers_config type ctx l wfs : Forall2 (validated ctx) l wfs ->
  (fun wt => ct_Config wt.2) <$> all_triggers type wfs = configured_triggers type l.
Proof.
  unfold configured_triggers. induction 1 as [|cfg wf l wfs [_ (_ & Ht)%Compile_config] _ IH]; [done|].
  unfold all_triggers in *. cbn [flat_map]. rewrite List.filter_app, fmap_app, IH. f_equal.
  unfold triggers_of. rewrite <- list_fmap_compose, <- Ht. unfold compose. cbn [snd].
  apply (filter_map ct_Config (has_type type)).
Qed.

(** Every trigger of the configuration is among those of the compiled workflows. *)
Lemma configured_trigger type ctx l wfs wcfg tcfg : Forall2 (validated ctx) l wfs -> wcfg ∈ l ->
  tcfg ∈ wc_Triggers wcfg -> tc_Type tcfg = type -> exists wf t, (wf, t) ∈ all_triggers type wfs /\
    Compile wcfg = Some (Ok wf) /\ t ∈ cw_Triggers wf /\ ct_Config t = tcfg.
Proof.
  intros Hl Hw Ht Hty. apply list_elem_of_lookup in Hw as [i Hi].
  destruct (Forall2_lookup_l _ _ _ _ _ Hl Hi) as (wf & Hwf & [_ Hc]). pose proof Hc as (_ & Hts)%Compile_config.
  rewrite <- Hts in Ht. apply list_elem_of_fmap in Ht as (t & -> & Ht). exists wf, t. split_and!; [|done..].
  apply all_triggers_elem. split_and!; [by apply list_elem_of_lookup_2 in Hwf|done|done].
Qed.

Ltac register := erewrite handle_all_cons;
  [|first [apply plain_pattern; vm_compute; reflexivity
          |apply (dir_pattern _ ["_"; "health"]); vm_compute; reflexivity
          |apply (dir_pattern _ ["_"; "debug"; "pprof"]); vm_compute; reflexivity
          |apply (dir_pattern _ []); vm_compute; reflexivity]
   |vm_compute; reflexivity].

Definition under (segs : list segment) : pattern := {| pt_method := ""; pt_segments := Lit "_" :: segs |}.

Definition internal_mux : list (pattern * route_handler) := [
  (under [Lit "health"], RHealth); (under [Lit "health"; Multi ""], RDbHealth); (under [Lit "metrics.json"], RMetricsJSON);
  (under [Lit "metrics"], RMetrics); (under [Lit "openapi.json"], ROpenAPI);
  (under [Lit "config"; Lit "loglevel"], RLogLevel); (under [Lit "cache"; Lit "clear"], RCacheClear);
  (under [Lit "ratelimits"], RRateLimits); (under [Lit "ratelimits"; Lit "reset"], RRateLimitsReset);
  ({| pt_method := ""; pt_segments := [Multi ""] |}, RListEndpoints)].

Definition pprof_mux : list (pattern * route_handler) :=
  let at_ l := under (Lit "debug" :: Lit "pprof" :: l) in
  [(at_ [Multi ""], RPprof "index"); (at_ [Lit "cmdline"], RPprof "cmdline"); (at_ [Lit "profile"], RPprof "profile");
   (at_ [Lit "symbol"], RPprof "symbol"); (at_ [Lit "trace"], RPprof "trace")].

Ltac all_internal :=
  repeat (apply Forall_cons; split; [split; [reflexivity|first [left; reflexivity|right; do 2 eexists; reflexivity]]|]);
  constructor.

Lemma internal_registered : handle_all [] internal_routes = Some internal_mux.
Proof. unfold internal_routes. repeat register. reflexivity. Qed.

Lemma internal_mux_internal : Forall (fun q => internal q.1) internal_mux.
Proof. all_internal. Qed.

Lemma pprof_mux_internal : Forall (fun q => internal q.1) pprof_mux.
Proof. all_internal. Qed.

(** An endpoint under /_/ next to plain routes. *)
Definition plain_user (q : pattern * route_handler) : Prop :=
  exists m l, q.1 = {| pt_method := m; pt_segments := Lit <$> l |} /\ m <> "" /\ outside l.

Lemma handle_under mux0 users mux1 path h l segs : parsePattern "" path = Some (under segs) -> segs <> [] ->
  Forall plain_user users -> existsb (fun q => conflictsWith (under segs) q.1) mux0 = false ->
  existsb (fun q => conflictsWith (under segs) q.1) mux1 = false ->
  handle_all (mux0 ++ users ++ mux1) (("", path, h) :: l) = handle_all (mux0 ++ users ++ (mux1 ++ [(under segs, h)])) l.
Proof.
  intros Hp Hs Hu H0' H1'. rewrite (handle_all_cons _ _ _ _ _ _ Hp).
  - by rewrite <- !app_assoc.
  - rewrite !existsb_app, H0', H1'. cbn. rewrite orb_false_r. apply not_true_iff_false.
    intros (q & Hq%list_elem_of_In & Hc)%existsb_exists. rewrite Forall_forall in Hu.
    destruct (Hu _ Hq) as (m & ls & Hq' & Hm & Ho). rewrite Hq' in Hc. destruct segs as [|s segs]; [done|].
    unfold under in Hc. by rewrite internal_user in Hc.
Qed.

Ltac register_under segs := erewrite (handle_under _ _ _ _ _ _ segs);
  [|first [apply plain_pattern; vm_compute; reflexivity
          |apply (dir_pattern _ ["_"; "debug"; "pprof"]); vm_compute; reflexivity]
   |done|done|vm_compute; reflexivity|vm_compute; reflexivity].

Lemma pprof_registered users : Forall plain_user users ->
  handle_all (internal_mux ++ users) pprof_routes = Some (internal_mux ++ users ++ pprof_mux).
Proof.
  intros Hu. rewrite <- (app_nil_r users) at 1. unfold pprof_routes.
  register_under [Lit "debug"; Lit "pprof"; Multi ""]. register_under [Lit "debug"; Lit "pprof"; Lit "cmdline"].
  register_under [Lit "debug"; Lit "pprof"; Lit "profile"]. register_under [Lit "debug"; Lit "pprof"; Lit "symbol"].
  register_under [Lit "debug"; Lit "pprof"; Lit "trace"]. done.
Qed.

Lemma pprof_alone : exists mux, handle_all [] pprof_routes = Some mux.
Proof. eexists. unfold pprof_routes. repeat register. reflexivity. Qed.

(** The routes of valid workflows with plain paths. *)
Lemma workflow_route_plain cfg ctx l wfs wt : Forall2 (validated ctx) l wfs ->
  Forall (fun t => plain (tc_Path t) = true) (http_triggers l) -> wt ∈ all_triggers "http" wfs ->
  plain_route (workflow_route cfg wt).
Proof.
  intros Hv Hp Hwt. destruct wt as [wf t]. pose proof Hwt as Hwt'.
  apply (list_elem_of_fmap_2 (fun wt => ct_Config wt.2)) in Hwt'. rewrite (all_triggers_config _ _ _ _ Hv) in Hwt'.
  rewrite Forall_forall in Hp. specialize (Hp _ Hwt'). cbn [snd] in Hp.
  destruct (trigger_config _ _ _ _ _ _ Hv Hwt) as (wcfg & _ & [Hval _] & Ht & Hty).
  destruct (valid_http _ _ _ Hval Ht Hty) as (Hm & Hs & Hr). unfold plain_route. cbn. split_and!; try done.
  split; [by apply parts_nonempty|]. intros s rest E. apply prefix_spec in Hs as [r Hs]. rewrite Hs in *.
  rewrite parts_slash in E. pose proof (join_parts "" r) as Hj. rewrite E in Hj. cbn [String.append] in Hj.
  apply not_true_iff_false in Hr. apply Hr. apply prefix_spec. exists (join_slash (s :: rest)).
  rewrite <- Hj. by destruct rest.
Qed.

Lemma NoDup_fmap_inv {A B C} (f : A -> B) (g : B -> C) (l : list A) : NoDup ((fun a => g (f a)) <$> l) -> NoDup (f <$> l).
Proof.
  induction l as [|a l IH]; [constructor|]. rewrite !fmap_cons, !NoDup_cons. intros [Hni Hnd]. split; [|by apply IH].
  intros (b & Hb & Hin)%list_elem_of_fmap. apply Hni. apply list_elem_of_fmap. exists b. by rewrite Hb.
Qed.

(** Every route of the configuration is registered. *)
Lemma routes_registered cfg ctx wfs : Forall2 (validated ctx) (cf_Workflows cfg) wfs ->
  NoDup (route_text <$> http_triggers (cf_Workflows cfg)) ->
  Forall (fun t => plain (tc_Path t) = true) (http_triggers (cf_Workflows cfg)) ->
  setupRoutes cfg wfs = Some (internal_mux ++ (entry_of <$> (workflow_route cfg <$> all_triggers "http" wfs))).
Proof.
  intros Hv Hnd Hp. unfold setupRoutes. rewrite handle_all_app, internal_registered. cbn [mbind option_bind].
  pose proof internal_mux_internal as Hi. apply handle_all_plain.
  - eapply Forall_impl; [exact Hi|]. by left.
  - apply Forall_fmap, Forall_forall. intros wt Hwt. by eapply workflow_route_plain.
  - unfold http_triggers in *. rewrite <- (all_triggers_config _ _ _ _ Hv), <- list_fmap_compose in Hnd. rewrite <- list_fmap_compose.
    exact (NoDup_fmap_inv (fun wt => (workflow_route cfg wt).1) (fun mp : string * string => mp.1 +:+ " " +:+ mp.2) _ Hnd).
  - intros q r Hq (wt & -> & Hwt)%list_elem_of_fmap E. rewrite Forall_forall in Hi. destruct (Hi _ Hq) as [Hm _].
    destruct (workflow_route_plain cfg _ _ _ _ Hv Hp Hwt) as [Hne _]. rewrite E in Hm. by apply Hne.
Qed.

Lemma NoDup_fmap_eq {A B} (f : A -> B) l x y : NoDup (f <$> l) -> x ∈ l -> y ∈ l -> f x = f y -> x = y.
Proof.
  induction l as [|a l IH]; [by intros _ ?%not_elem_of_nil|]. rewrite fmap_cons, NoDup_cons.
  intros [Hni Hnd] [->|Hx]%elem_of_cons [->|Hy]%elem_of_cons E; try done.
  - exfalso. apply Hni. rewrite E. by apply list_elem_of_fmap_2.
  - exfalso. apply Hni. rewrite <- E. by apply list_elem_of_fmap_2.
  - by apply IH.
Qed.

(** A template that behaves the same whether or not public ids are configured. *)
Definition encoder_free (key : string) : Prop := forall enc,
  Parse (EngineFuncs (Some enc)) "validate" key = Parse (EngineFuncs None) "validate" key /\
  forall t, tmpl_Execute t (EngineFuncs (Some enc)) sampleContextMap = tmpl_Execute t (EngineFuncs None) sampleContextMap.

Lemma encoder_free_Validate key enc : encoder_free key ->
  TmplEngine.Validate (SetPublicIDEncoder engine_New enc) key = TmplEngine.Validate engine_New key.
Proof.
  intros Hf. destruct (Hf enc) as [Hp Hx]. unfold TmplEngine.Validate, funcs. cbn [en_publicIDs SetPublicIDEncoder engine_New].
  rewrite Hp. case_decide; [done|]. destruct (Parse (EngineFuncs None) "validate" key) as [t|]; [|done]. destruct (check_paths t); [done|]. by rewrite Hx.
Qed.

Lemma limiter_starts cfg engine : accepted cfg ->
  Forall (fun pool => TmplEngine.Validate engine (pc_Key pool) = TmplEngine.Validate engine_New (pc_Key pool)) (cf_RateLimits cfg) ->
  exists l, init_limiter cfg engine = cret l.
Proof.
  intros Hacc Hk. unfold init_limiter. destruct (cf_RateLimits cfg) as [|c cs] eqn:E; [by eexists|]. rewrite <- E in *.
  assert (RateLimit.New (H1 := engine_keys engine) (cf_RateLimits cfg) =
    Ok (foldl with_pool empty_limiter (cf_RateLimits cfg))) as HN.
  { apply (add_pools_Ok (H1 := engine_keys engine)). split_and!; [|by apply ac_pool_names|by apply Forall_true|done].
    apply Forall_forall. intros pool Hin. pose proof (ac_pools _ Hacc) as Hp. rewrite Forall_forall in Hp, Hk.
    destruct (Hp _ Hin) as [(? & ? & ? & ? & Hv) _]. specialize (Hk _ Hin). split_and!; try done. cbn in *. congruence. }
  rewrite HN. by eexists.
Qed.

Lemma engine_starts cfg : accepted cfg -> exists engine, init_engine cfg = cret engine /\
  forall key, encoder_free key -> TmplEngine.Validate engine key = TmplEngine.Validate engine_New key.
Proof.
  intros Hacc. unfold init_engine. destruct (cf_PublicIDs cfg) as [p|] eqn:E; [|by eexists].
  destruct (ac_encoder _ Hacc p E) as (Hs & enc & He). rewrite decide_True by done. rewrite He. eexists. split; [done|].
  intros key. apply encoder_free_Validate.
Qed.

Lemma workflows_start cfg : accepted cfg -> Forall (fun wf => exists c, Compile wf = Some (Ok c)) (cf_Workflows cfg) ->
  NoDup (route_text <$> http_triggers (cf_Workflows cfg)) ->
  exists wfs jobs, init_workflows cfg = cret (wfs, jobs) /\ Forall2 (validated (workflow_context cfg)) (cf_Workflows cfg) wfs.
Proof.
  intros Hacc Hc Hnd. unfold init_workflows. destruct (cf_Workflows cfg) as [|c l] eqn:E.
  { exists [], None. by split. }
  rewrite <- E in *. assert (exists wfs, Forall2 (validated (workflow_context cfg)) (cf_Workflows cfg) wfs) as [wfs Hv].
  { pose proof (ac_workflows _ Hacc) as Hw. clear Hnd E. induction Hc as [|wf ws [cw Hcw] _ IH]; [by exists []|].
    apply Forall_cons in Hw as [Hw Hws]. destruct (IH Hws) as [wfs Hv]. exists (cw :: wfs). by constructor. }
  assert (initWorkflows cfg = cret wfs) as ->.
  { unfold initWorkflows. assert (compile_workflows (workflow_context cfg) (cf_Workflows cfg) = cret wfs) as ->
      by (by apply compile_workflows_Ok). cbn [cbind cret].
    unfold http_triggers in *. rewrite <- (all_triggers_config _ _ _ _ Hv), <- list_fmap_compose in Hnd. rewrite route_clash_None; [done| |].
    - exact Hnd.
    - apply Forall_forall. intros. apply lookup_empty. }
  cbn [cbind cret]. assert (exists jobs, addWorkflowCronJobs wfs = cret jobs) as [jobs Hj].
  { unfold addWorkflowCronJobs. destruct (all_triggers "cron" wfs) as [|wt ts] eqn:Et; [by eexists|]. rewrite <- Et.
    rewrite add_jobs_ok; [by eexists|]. apply Forall_forall. intros [wf t] Hin.
    destruct (trigger_config _ _ _ _ _ _ Hv Hin) as (wcfg & _ & [Hval _] & Ht & Hty). by eapply valid_cron. }
  rewrite Hj. by exists wfs, jobs.
Qed.

Lemma route_user cfg ctx l wfs : Forall2 (validated ctx) l wfs ->
  Forall (fun t => plain (tc_Path t) = true) (http_triggers l) ->
  Forall plain_user (entry_of <$> (workflow_route cfg <$> all_triggers "http" wfs)).
Proof.
  intros Hv Hp. apply Forall_forall. intros q (r & -> & (wt & -> & Hwt)%list_elem_of_fmap)%list_elem_of_fmap.
  destruct (workflow_route_plain cfg _ _ _ _ Hv Hp Hwt) as (Hm & _ & Ho). by exists (workflow_route cfg wt).1.1, (parts (workflow_route cfg wt).1.2).
Qed.

Lemma debug_starts cfg users : Forall plain_user users -> exists extra debug,
  Forall (fun q => internal q.1) extra /\
  setup_debug cfg (internal_mux ++ users) = Some (internal_mux ++ users ++ extra, debug).
Proof.
  intros Hu. unfold setup_debug. destruct (de_Enabled _); cbn [negb].
  - case_decide.
    + rewrite pprof_registered by done. exists pprof_mux, None. split; [apply pprof_mux_internal|done].
    + destruct pprof_alone as [mux ->]. exists []. rewrite app_nil_r. by eexists.
  - exists [], None. by rewrite app_nil_r.
Qed.

Lemma log_opens (Hlog : forall file, MkdirAll_Dir file = None) level f a b c :
  exists log, Logging.Init logger0 level f a b c = (None, log).
Proof. unfold Logging.Init. case_decide; [by eexists|]. rewrite Hlog. by eexists. Qed.

End Starts.

(** ** Evaluation at concrete inputs *)

Module Sample.
Import Executor.Sample Handler.Sample WfValidate.Sample.
#[local] Existing Instances sample_lang sample_tables sample_walk sample_funcs sample_gotext sample_floats
  sample_templates sample_toint sample_platform sample_services sample_schedules sample_hmac sample_bucket
  sample_order TmplEngine.Sample.tiny_templates Db.Sample.sample_format Db.Sample.server
  Adapters.Sample.sample_size Adapters.Sample.any_store.

#[local] Instance ascii_urls : UrlText :=
  {| valid_wildcard_name := is_ident; pathUnescape := fun s => s; pathUnescape_plain := fun _ _ => eq_refl |}.
#[local] Instance open_log : LogFiles := {| MkdirAll_Dir := fun _ => None; lumberjack_Close := fun _ => None |}.

Definition trigger_at (method path : string) (params : list ParamConfig) : TriggerConfig :=
  {| tc_Type := "http"; tc_Path := path; tc_Method := method; tc_Parameters := params; tc_RateLimit := [];
     tc_Cache := None; tc_Schedule := ""; tc_Params := ∅ |}.

Definition workflow_at (name method path : string) (params : list ParamConfig) : WorkflowConfig :=
  {| wc_Name := name; wc_TimeoutSec := 0; wc_Conditions := ∅; wc_Triggers := [trigger_at method path params];
     wc_Steps := [query_a; step "b" "response" "" "{}" "" None] |}.

Definition config_with (wfs : list WorkflowConfig) : Config :=
  {| cf_Server := {| sv_Port := 8080; sv_Host := "0.0.0.0"; sv_DefaultTimeoutSec := 30; sv_MaxTimeoutSec := 60;
       sv_Cache := None; sv_TrustProxyHeaders := false; sv_APIVersion := ""; sv_Version := "1"; sv_BuildTime := "" |};
     cf_Databases := [Db.Sample.config "db" "sqlite"];
     cf_Logging := {| lg_Level := "info"; lg_FilePath := ""; lg_MaxSizeMB := 1; lg_MaxBackups := 1; lg_MaxAgeDays := 1 |};
     cf_Metrics_Enabled := false; cf_Debug := {| de_Enabled := true; de_Port := 0; de_Host := "" |};
     cf_RateLimits := [TmplEngine.Sample.ip_pool]; cf_Workflows := wfs;
     cf_Variables := {| va_EnvFile := ""; va_Values := None |}; cf_PublicIDs := None |}.

Definition param (name : string) : ParamConfig :=
  {| pa_Name := name; pa_Type := "string"; pa_Required := true; pa_Default := "" |}.

(** Whether validation accepts the configuration, and what starting it gives: a
    server, an error, or a panic. *)
Definition outcome (wfs : list WorkflowConfig) : bool * option bool :=
  (vr_Valid (validation (format_issues (config_with wfs))),
   is_ok <$> (New (config_with wfs) true 0 (Db.Sample.start true)).1).

(** The first starts.  The others pass validation; then one is refused for a clash
    between workflows and the rest panic while the routes are registered: a route at
    the root, wildcards that could match an internal endpoint, two routes that
    differ only in the name of a wildcard, and a path that is not clean. *)
Example outcomes :
  outcome <$> [[workflow_at "users" "GET" "/users" []];
    [workflow_at "a" "GET" "/users" []; workflow_at "b" "GET" "/users" []];
    [workflow_at "root" "GET" "/" []];
    [workflow_at "two" "GET" "/{a}/{b}" [param "a"; param "b"]];
    [workflow_at "a" "GET" "/users/{id}" [param "id"]; workflow_at "b" "GET" "/users/{name}" [param "name"]];
    [workflow_at "dirty" "GET" "/users//all" []]]
  = [(true, Some true); (true, Some false); (true, None); (true, None); (true, None); (true, None)].
Proof. by vm_compute. Qed.

Definition small : Config := config_with [workflow_at "users" "GET" "/users" []].

Definition boot : option (result (gmap string Driver)) * DSt := NewManager (cf_Databases small) (Db.Sample.start true).
Definition manager : gmap string Driver := match boot.1 with Some (Ok m) => m | _ => ∅ end.

Lemma boots : NewManager (cf_Databases small) (Db.Sample.start true) = (Some (Ok manager), boot.2).
Proof.
  assert (from_option is_ok false boot.1 = true) as Hok by (by vm_compute). unfold manager. fold boot.
  destruct boot as [[[m|e]|] s1]; done.
Qed.

Lemma compiles : exists c, Compile (workflow_at "users" "GET" "/users" []) = Some (Ok c).
Proof.
  assert (from_option is_ok false (Compile (workflow_at "users" "GET" "/users" [])) = true) as Hok by (by vm_compute).
  destruct (Compile _) as [[c|e]|]; [by exists c|done..].
Qed.


Definition started : option (result Server) * DSt := New small true 0 (Db.Sample.start true).

(** The handler of the only route. *)
Definition users_handler : option HTTPHandler :=
  match started.1 with
  | Some (Ok sv) => match se_mux sv !! 10%nat with Some (_, RWorkflow _ _ h) => Some h | _ => None end
  | _ => None
  end.

Lemma New_serves_witness : exists h st', users_handler = Some h /\
  ServeHTTP h background (request "GET") Executor.Sample.start = (Some tt, st') /\ committed st'.
Proof.
  assert (match users_handler with
    | Some h => match ServeHTTP h background (request "GET") Executor.Sample.start with (Some _, _) => true | _ => false end
    | None => false
    end = true) as Hok by (by vm_compute).
  unfold users_handler in *. destruct (started) as [[[sv|e]|] s1] eqn:E; [|discriminate Hok..]. cbn [fst] in *.
  destruct (se_mux sv !! 10%nat) as [[p []]|] eqn:Em; try discriminate Hok. eexists.
  unfold started in E. pose proof (New_serves small true 0 (Db.Sample.start true) sv s1 p workflowName method h background (request "GET")
    Executor.Sample.start E (list_elem_of_lookup_2 _ _ _ Em) ltac:(by eexists)) as Hs.
  destruct (ServeHTTP h background (request "GET") Executor.Sample.start) as [[[]|] st'] eqn:Er; [|discriminate Hok].
  exists st'. split_and!; [reflexivity|exact Er|exact Hs].
Defined.
End Sample.
