(* ===== verification/Openapi.v ===== *)
(** * internal/openapi: the description of the API (openapi.go)

    The OpenAPI document is a tree of string maps that is built from the
    configuration.  Each map literal of the code is an [obj]; the built-in paths
    and the schemas are a definition each.  The document is then encoded as JSON
    by the handler of [/_/openapi.json], see [Admin]. *)
From S2P Require Import Prelude GoStrings GoValues Numbers WfConfig Params ConfigLoad.
From Stdlib Require Import SpecFloat.

(** A [map[string]any] literal. *)
Definition row_of (l : list (string * any)) : row := list_to_map l.
Definition obj (l : list (string * any)) : any := AMap (row_of l).

(** What encoding/json can write: not an infinity or NaN, nor a function; of the types that
    are not modelled, which a document has no values of, nothing is said. *)
Definition finite (f : spec_float) : bool := match f with S754_infinity _ | S754_nan => false | _ => true end.

Fixpoint encodable (v : any) : bool :=
  match v with
  | AFloat f => finite f
  | AList l => forallb encodable l
  | AMap m => map_fold (fun _ x b => encodable x && b) true m
  | ARows l => forallb (map_fold (fun _ x b => encodable x && b) true) l
  | AFunc _ | AOther _ => false
  | _ => true
  end.

(** ** Built-in paths *)

Definition health_path : any := obj [
  ("get", obj [
    ("summary", AStr "Health check");
    ("description", AStr "Returns service and database health status. Always returns 200; parse the 'status' field (healthy/degraded/unhealthy) for actual state.");
    ("tags", AStrs ["System"]);
    ("responses", obj [
      ("200", obj [
        ("description", AStr "Health status (check 'status' field for healthy/degraded/unhealthy)");
        ("content", obj [
          ("application/json", obj [("schema", obj [("$ref", AStr "#/components/schemas/HealthResponse")])])])])])])].

Definition db_health_path : any := obj [
  ("get", obj [
    ("summary", AStr "Per-database health check");
    ("description", AStr "Returns health status for a specific database connection. Always returns 200 if database exists; parse 'status' field (connected/disconnected).");
    ("tags", AStrs ["System"]);
    ("parameters", ARows [row_of [
        ("name", AStr "dbname"); ("in", AStr "path"); ("required", ABool true);
        ("description", AStr "Database connection name"); ("schema", obj [("type", AStr "string")])]]);
    ("responses", obj [
      ("200", obj [
        ("description", AStr "Database status (check 'status' field for connected/disconnected)");
        ("content", obj [
          ("application/json", obj [("schema", obj [("$ref", AStr "#/components/schemas/DbHealthResponse")])])])]);
      ("404", obj [("description", AStr "Database not found in configuration")])])])].

Definition metrics_path : any := obj [
  ("get", obj [
    ("summary", AStr "Prometheus metrics");
    ("description", AStr "Returns metrics in Prometheus/OpenMetrics format for scraping by monitoring systems");
    ("tags", AStrs ["System"]);
    ("responses", obj [
      ("200", obj [
        ("description", AStr "Prometheus metrics");
        ("content", obj [("text/plain", obj [("schema", obj [("type", AStr "string")])])])])])])].

Definition metrics_json_path : any := obj [
  ("get", obj [
    ("summary", AStr "JSON metrics snapshot");
    ("description", AStr "Returns current metrics in human-readable JSON format including request counts, latencies, and error rates");
    ("tags", AStrs ["System"]);
    ("responses", obj [
      ("200", obj [
        ("description", AStr "Metrics snapshot");
        ("content", obj [
          ("application/json", obj [("schema", obj [("$ref", AStr "#/components/schemas/MetricsResponse")])])])])])])].

Definition loglevel_path : any := obj [
  ("get", obj [
    ("summary", AStr "Get current log level"); ("tags", AStrs ["System"]);
    ("responses", obj [("200", obj [("description", AStr "Current log level")])])]);
  ("post", obj [
    ("summary", AStr "Change log level"); ("description", AStr "Change log level at runtime without restart");
    ("tags", AStrs ["System"]);
    ("parameters", ARows [row_of [
        ("name", AStr "level"); ("in", AStr "query"); ("required", ABool true);
        ("description", AStr "Log level to set");
        ("schema", obj [("type", AStr "string"); ("enum", AStrs ["debug"; "info"; "warn"; "error"])])]]);
    ("responses", obj [("200", obj [("description", AStr "Log level changed")])])])].

Definition cacheClearOp : any := obj [
  ("summary", AStr "Clear cache");
  ("description", AStr "Clear all cache entries or entries for a specific endpoint");
  ("tags", AStrs ["System"]);
  ("parameters", ARows [row_of [
      ("name", AStr "endpoint"); ("in", AStr "query"); ("required", ABool false);
      ("description", AStr "Endpoint path to clear cache for (e.g., /api/machines). If omitted, clears all cache.");
      ("schema", obj [("type", AStr "string")])]]);
  ("responses", obj [
    ("200", obj [("description", AStr "Cache cleared successfully")]);
    ("404", obj [("description", AStr "Cache not enabled")])])].

Definition cache_clear_path : any := obj [("post", cacheClearOp); ("delete", cacheClearOp)].

Definition ratelimits_path : any := obj [
  ("get", obj [
    ("summary", AStr "Rate limit status");
    ("description", AStr "Returns rate limit configuration and current metrics for all pools");
    ("tags", AStrs ["System"]);
    ("responses", obj [
      ("200", obj [
        ("description", AStr "Rate limit status");
        ("content", obj [
          ("application/json", obj [("schema", obj [("$ref", AStr "#/components/schemas/RateLimitsResponse")])])])])])])].

Definition builtin_paths : row := row_of [
  ("/_/health", health_path); ("/_/health/{dbname}", db_health_path); ("/_/metrics", metrics_path);
  ("/_/metrics.json", metrics_json_path); ("/_/config/loglevel", loglevel_path);
  ("/_/cache/clear", cache_clear_path); ("/_/ratelimits", ratelimits_path)].

(** ** Schemas *)

Definition WorkflowResponse : any := obj [
  ("type", AStr "object");
  ("properties", obj [
    ("success", obj [("type", AStr "boolean"); ("example", ABool true)]);
    ("data", obj [
      ("type", AStr "array"); ("items", obj [("type", AStr "object")]);
      ("description", AStr "Array of result rows (from query steps)")]);
    ("count", obj [("type", AStr "integer"); ("description", AStr "Number of rows returned")]);
    ("request_id", obj [("type", AStr "string"); ("description", AStr "Unique request ID for tracing")])])].

Definition ErrorResponse : any := obj [
  ("type", AStr "object");
  ("properties", obj [
    ("success", obj [("type", AStr "boolean"); ("example", ABool false)]);
    ("error", obj [("type", AStr "string"); ("description", AStr "Error message")]);
    ("request_id", obj [("type", AStr "string"); ("description", AStr "Unique request ID for tracing")])])].

Definition HealthResponse : any := obj [
  ("type", AStr "object");
  ("properties", obj [
    ("status", obj [("type", AStr "string"); ("enum", AStrs ["healthy"; "degraded"; "unhealthy"])]);
    ("databases", obj [
      ("type", AStr "object"); ("description", AStr "Per-database connection status (connected/disconnected)");
      ("additionalProperties", obj [("type", AStr "string"); ("enum", AStrs ["connected"; "disconnected"])])]);
    ("uptime", obj [("type", AStr "string"); ("description", AStr "Service uptime")])])].

Definition DbHealthResponse : any := obj [
  ("type", AStr "object");
  ("properties", obj [
    ("database", obj [("type", AStr "string"); ("description", AStr "Database connection name")]);
    ("status", obj [("type", AStr "string"); ("enum", AStrs ["connected"; "disconnected"])]);
    ("type", obj [("type", AStr "string"); ("description", AStr "Database type (sqlserver, mysql, sqlite)")]);
    ("readonly", obj [("type", AStr "boolean"); ("description", AStr "Whether connection is read-only")])])].

Definition MetricsResponse : any := obj [
  ("type", AStr "object");
  ("properties", obj [
    ("timestamp", obj [("type", AStr "string"); ("format", AStr "date-time")]);
    ("uptime_sec", obj [("type", AStr "integer")]); ("total_requests", obj [("type", AStr "integer")]);
    ("total_errors", obj [("type", AStr "integer")]); ("db_healthy", obj [("type", AStr "boolean")]);
    ("endpoints", obj [("type", AStr "object"); ("description", AStr "Per-endpoint statistics")])])].

Definition RateLimitsResponse : any := obj [
  ("type", AStr "object");
  ("properties", obj [
    ("enabled", obj [("type", AStr "boolean")]);
    ("total_allowed", obj [("type", AStr "integer"); ("description", AStr "Total requests allowed since startup")]);
    ("total_denied", obj [("type", AStr "integer"); ("description", AStr "Total requests denied since startup")]);
    ("pools", obj [
      ("type", AStr "array"); ("description", AStr "Rate limit pool configurations and metrics");
      ("items", obj [
        ("type", AStr "object");
        ("properties", obj [
          ("name", obj [("type", AStr "string")]); ("requests_per_second", obj [("type", AStr "integer")]);
          ("burst", obj [("type", AStr "integer")]); ("allowed", obj [("type", AStr "integer")]);
          ("denied", obj [("type", AStr "integer")]);
          ("active_buckets", obj [("type", AStr "integer"); ("description", AStr "Number of active client buckets")])])])])])].

Definition RateLimitErrorResponse : any := obj [
  ("type", AStr "object");
  ("properties", obj [
    ("success", obj [("type", AStr "boolean"); ("example", ABool false)]);
    ("error", obj [("type", AStr "string"); ("example", AStr "rate limit exceeded")]);
    ("retry_after_sec", obj [("type", AStr "integer"); ("description", AStr "Seconds to wait before retrying")])])].

Definition schemas : row := row_of [
  ("WorkflowResponse", WorkflowResponse);
  ("ErrorResponse", ErrorResponse);
  ("HealthResponse", HealthResponse);
  ("DbHealthResponse", DbHealthResponse);
  ("MetricsResponse", MetricsResponse);
  ("RateLimitsResponse", RateLimitsResponse);
  ("RateLimitErrorResponse", RateLimitErrorResponse)].

Definition buildComponents : any := obj [("schemas", AMap schemas)].

(** ** Parameters *)

Definition buildParamDescription (p : ParamConfig) : string :=
  let desc := "Type: " +:+ pa_Type p in
  if decide (pa_Default p <> "") then desc +:+ ", Default: " +:+ pa_Default p else desc.

Definition array_schema (item description : string) : list (string * any) :=
  [("type", AStr "array"); ("items", obj [("type", AStr item)]); ("description", AStr description)].

Definition paramTypeToSchema `{FloatText} (typeName defaultVal : string) : row :=
  let default v := if decide (defaultVal <> "") then match v with Some d => [("default", d)] | None => [] end else [] in
  let among l := decide (typeName ∈ l) in
  row_of (
    if among ["int"; "integer"] then
      [("type", AStr "integer")] ++ default (AInt <$> Atoi defaultVal)
    else if among ["float"; "double"] then
      [("type", AStr "number"); ("format", AStr "double")] ++
      default (match ParseFloat defaultVal with Ok f => Some (AFloat f) | Err _ => None end)
    else if among ["bool"; "boolean"] then
      [("type", AStr "boolean")] ++ default (ABool <$> ParseBool defaultVal)
    else if among ["datetime"; "date"] then
      [("type", AStr "string"); ("format", AStr "date-time")] ++ default (Some (AStr defaultVal))
    else if among ["json"] then
      [("type", AStr "string");
       ("description", AStr "JSON value (object, array, or primitive). Use JSON functions in SQL to extract fields.")] ++
      default (Some (AStr defaultVal))
    else if among ["int[]"] then
      array_schema "integer" "Array of integers. Passed as JSON array for use with json_each (SQLite) or OPENJSON (SQL Server)."
    else if among ["string[]"] then
      array_schema "string" "Array of strings. Passed as JSON array for use with json_each (SQLite) or OPENJSON (SQL Server)."
    else if among ["float[]"] then
      array_schema "number" "Array of numbers. Passed as JSON array for use with json_each (SQLite) or OPENJSON (SQL Server)."
    else if among ["bool[]"] then
      array_schema "boolean" "Array of booleans. Passed as JSON array for use with json_each (SQLite) or OPENJSON (SQL Server)."
    else [("type", AStr "string")] ++ default (Some (AStr defaultVal))).

(** ** Workflow paths *)

Definition builtin_params (serverCfg : ServerConfig) : list row := [row_of [
    ("name", AStr "_timeout"); ("in", AStr "query"); ("required", ABool false);
    ("description", AStr ("Workflow timeout in seconds (max: " +:+ pretty (sv_MaxTimeoutSec serverCfg) +:+ ")"));
    ("schema", obj [
      ("type", AStr "integer"); ("default", AInt (sv_DefaultTimeoutSec serverCfg));
      ("maximum", AInt (sv_MaxTimeoutSec serverCfg))])]; row_of [
    ("name", AStr "_nocache"); ("in", AStr "query"); ("required", ABool false);
    ("description", AStr "Bypass cache and fetch fresh data (set to 1 to enable)");
    ("schema", obj [("type", AStr "integer"); ("enum", AList [AInt 0; AInt 1])])]].

Definition param_entry `{FloatText} (p : ParamConfig) : row := row_of [
    ("name", AStr (pa_Name p)); ("in", AStr "query"); ("required", ABool (pa_Required p));
    ("description", AStr (buildParamDescription p)); ("schema", AMap (paramTypeToSchema (pa_Type p) (pa_Default p)))].

Definition base_responses : row := row_of [
  ("200", obj [
    ("description", AStr "Successful workflow execution");
    ("content", obj [
      ("application/json", obj [("schema", obj [("$ref", AStr "#/components/schemas/WorkflowResponse")])])])]);
  ("400", obj [
    ("description", AStr "Bad request (missing or invalid parameters)");
    ("content", obj [
      ("application/json", obj [("schema", obj [("$ref", AStr "#/components/schemas/ErrorResponse")])])])]);
  ("500", obj [
    ("description", AStr "Workflow execution failed");
    ("content", obj [
      ("application/json", obj [("schema", obj [("$ref", AStr "#/components/schemas/ErrorResponse")])])])]);
  ("504", obj [
    ("description", AStr "Workflow timeout");
    ("content", obj [
      ("application/json", obj [("schema", obj [("$ref", AStr "#/components/schemas/ErrorResponse")])])])])].

Definition rate_limited : any := obj [
  ("description", AStr "Rate limit exceeded");
  ("headers", obj [
    ("Retry-After", obj [
      ("description", AStr "Seconds to wait before retrying"); ("schema", obj [("type", AStr "integer")])])]);
  ("content", obj [
    ("application/json", obj [("schema", obj [("$ref", AStr "#/components/schemas/RateLimitErrorResponse")])])])].

Definition responses (trigger : TriggerConfig) : row :=
  if decide (tc_RateLimit trigger <> []) then <["429" := rate_limited]> base_responses else base_responses.

Definition doc_method (trigger : TriggerConfig) : string := if decide (tc_Method trigger = "POST") then "post" else "get".

Definition operation `{FloatText} (wf : WorkflowConfig) (trigger : TriggerConfig) (serverCfg : ServerConfig) : any :=
  let effectiveTimeout := if decide (wc_TimeoutSec wf > 0) then wc_TimeoutSec wf else sv_DefaultTimeoutSec serverCfg in
  obj [
    ("summary", AStr (wc_Name wf));
    ("description", AStr ("Workflow endpoint (default timeout: " +:+ pretty effectiveTimeout +:+ "s)"));
    ("tags", AStrs ["Workflows"]);
    ("operationId", AStr (wc_Name wf));
    ("parameters", ARows (builtin_params serverCfg ++ (param_entry <$> tc_Parameters trigger)));
    ("responses", AMap (responses trigger))].

Definition buildWorkflowPath `{FloatText} (wf : WorkflowConfig) (trigger : TriggerConfig) (serverCfg : ServerConfig) : any :=
  obj [(doc_method trigger, operation wf trigger serverCfg)].

(** ** The document *)

(** The loop over the triggers of the workflows, in the order of the configuration. *)
Definition triggers_in_order (cfg : Config) : list (WorkflowConfig * TriggerConfig) :=
  flat_map (fun wf => (fun t => (wf, t)) <$> wc_Triggers wf) (cf_Workflows cfg).

Definition has_endpoint (trigger : TriggerConfig) : bool := bool_decide (tc_Type trigger = "http" /\ tc_Path trigger <> "").

Definition buildPaths `{FloatText} (cfg : Config) : row :=
  foldl (fun (paths : row) wt =>
    if has_endpoint wt.2 then <[tc_Path wt.2 := buildWorkflowPath wt.1 wt.2 (cf_Server cfg)]> paths else paths)
    builtin_paths (triggers_in_order cfg).

Definition Spec `{FloatText} (cfg : Config) : row :=
  let apiVersion := if decide (sv_APIVersion (cf_Server cfg) = "") then "1.0.0" else sv_APIVersion (cf_Server cfg) in
  row_of [
    ("openapi", AStr "3.0.3");
    ("info", obj [
      ("title", AStr "SQL Proxy API");
      ("description", AStr "Auto-generated API for workflow endpoints (SQL Server, SQLite)");
      ("version", AStr apiVersion)]);
    ("servers", ARows [row_of [("url", AStr "/"); ("description", AStr "Current server")]]);
    ("paths", AMap (buildPaths cfg));
    ("components", buildComponents)].

(** ** Lookup in a literal *)

Lemma row_of_cons k v l k' : row_of ((k, v) :: l) !! k' = if decide (k = k') then Some v else row_of l !! k'.
Proof. unfold row_of. cbn. rewrite lookup_insert. by repeat case_decide. Qed.

Lemma row_of_nil k : row_of [] !! k = None.
Proof. done. Qed.

Lemma row_of_elem l k v : row_of l !! k = Some v -> (k, v) ∈ l.
Proof. apply elem_of_list_to_map_2. Qed.

(** ** What is documented *)

(** The trigger whose operation stands under a path. *)
Definition last_endpoint (cfg : Config) (path : string) : option (WorkflowConfig * TriggerConfig) :=
  last (List.filter (fun wt => has_endpoint wt.2 && bool_decide (tc_Path wt.2 = path)) (triggers_in_order cfg)).

(** The paths of the document are the built-in ones and those of the HTTP triggers;
    of several triggers with one path only the last is described. *)
Lemma buildPaths_lookup `{FloatText} cfg path : buildPaths cfg !! path =
  match last_endpoint cfg path with
  | Some (wf, trigger) => Some (buildWorkflowPath wf trigger (cf_Server cfg))
  | None => builtin_paths !! path
  end.
Proof.
  unfold buildPaths, last_endpoint. induction (triggers_in_order cfg) as [|[wf t] l IH] using rev_ind; [done|].
  rewrite foldl_app, List.filter_app. cbn [foldl List.filter fst snd]. destruct (has_endpoint t); cbn [andb].
  - rewrite lookup_insert. case_decide as E; [rewrite bool_decide_true by done|rewrite bool_decide_false by done].
    + by rewrite last_snoc.
    + by rewrite app_nil_r.
  - by rewrite app_nil_r.
Qed.

(** Settles the tests on literal type names. *)
Ltac settle := repeat match goal with
  | |- context [@decide ?P ?d] =>
    first [rewrite (@decide_True _ P d) by (apply (bool_decide_unpack P); exact I)
          |rewrite (@decide_False _ P d) by (apply (bool_decide_eq_false_1 P); reflexivity)]
  end.

(** For a scalar type the default in the schema is the value the handler takes for a
    parameter that is left out; it is missing when that value cannot be converted. *)
Theorem default_documented `{UnicodeTables, FloatText, FloatToInt, GoText} typeName defaultVal v
    (Ht : typeName ∈ ["int"; "integer"; "float"; "double"; "bool"; "boolean"; "string"]) (Hd : defaultVal <> "") :
  paramTypeToSchema typeName defaultVal !! "default" = Some v <-> ConvertValue defaultVal typeName = Ok v.
Proof.
  unfold paramTypeToSchema, ConvertValue, atoi_value, bool_value, float_value. rewrite !(decide_True _ _ Hd).
  repeat (apply elem_of_cons in Ht as [-> |Ht]); [..|by apply elem_of_nil in Ht];
    cbv zeta; settle; cbn [app];
    match goal with |- context [ToLower ?t] => change (ToLower t) with t end; settle;
    match goal with |- context [IsArrayType ?t] => change (IsArrayType t) with false | _ => idtac end; settle.
  all: repeat rewrite (decide_True _ _ Hd);
    repeat match goal with
    | |- context [Atoi ?d] => destruct (Atoi d)
    | |- context [ParseFloat ?d] => destruct (ParseFloat d)
    | |- context [ParseBool ?d] => destruct (ParseBool d)
    end.
  all: cbn [fmap option_fmap option_map]; rewrite ?row_of_cons, ?row_of_nil; settle; naive_solver.
Qed.

(** ** References *)

(** A reference anywhere in a value. *)
Inductive ref_in (r : string) : any -> Prop :=
| ref_here m : m !! "$ref" = Some (AStr r) -> ref_in r (AMap m)
| ref_map m k v : m !! k = Some v -> ref_in r v -> ref_in r (AMap m)
| ref_list l v : v ∈ l -> ref_in r v -> ref_in r (AList l)
| ref_rows l m : m ∈ l -> ref_in r (AMap m) -> ref_in r (ARows l).

Definition resolves (r : string) : Prop := exists name, r = "#/components/schemas/" +:+ name /\ is_Some (schemas !! name).

(** Every reference in the value resolves. *)
Definition closed (v : any) : Prop := forall r, ref_in r v -> resolves r.

Definition closed_entry (kv : string * any) : Prop :=
  closed kv.2 /\ (kv.1 = "$ref" -> match kv.2 with AStr r => resolves r | _ => True end).

Lemma closed_map (m : row) : (forall k v, m !! k = Some v -> closed_entry (k, v)) -> closed (AMap m).
Proof.
  intros Hm r Hr. inversion Hr as [? Hk|? k v Hk Hv| |]; subst.
  - by apply (Hm _ _ Hk).
  - by apply (Hm _ _ Hk).
Qed.

Lemma closed_obj l : Forall closed_entry l -> closed (obj l).
Proof. intros Hl. apply closed_map. intros k v Hv%row_of_elem. by apply (Forall_forall closed_entry l). Qed.

Lemma closed_row l : Forall closed_entry l -> closed (AMap (row_of l)).
Proof. apply closed_obj. Qed.

Lemma closed_rows l : Forall (fun m => closed (AMap m)) l -> closed (ARows l).
Proof. intros Hl r Hr. inversion Hr; subst. by eapply (Forall_forall (fun m => closed (AMap m)) l). Qed.

Lemma closed_list l : Forall closed l -> closed (AList l).
Proof. intros Hl r Hr. inversion Hr; subst. by eapply (Forall_forall closed l). Qed.

Lemma closed_entry_plain k v : k <> "$ref" -> closed v -> closed_entry (k, v).
Proof. by split. Qed.

Lemma closed_entry_ref r : resolves r -> closed_entry ("$ref", AStr r).
Proof. split; [|done]. intros r' Hr. inversion Hr. Qed.

Lemma resolves_schema name : is_Some (schemas !! name) -> resolves ("#/components/schemas/" +:+ name).
Proof. intros H. by exists name. Qed.

(** Values that hold no map. *)
Definition leaf (v : any) : bool := match v with AMap _ | AList _ | ARows _ => false | _ => true end.

Lemma closed_leaf v : leaf v = true -> closed v.
Proof. intros Hv r Hr. by inversion Hr; subst. Qed.

Create HintDb openapi.
#[export] Hint Resolve closed_obj closed_row closed_rows closed_list List.Forall_cons List.Forall_nil closed_entry_plain : openapi.
#[export] Hint Extern 0 (closed _) => apply closed_leaf; reflexivity : openapi.
#[export] Hint Extern 0 (closed_entry ("$ref", AStr _)) =>
  apply closed_entry_ref; eexists; split; [reflexivity|by eexists] : openapi.
#[export] Hint Extern 1 (_ <> "$ref") => discriminate : openapi.

Lemma builtin_paths_closed : closed (AMap builtin_paths).
Proof.
  unfold builtin_paths, health_path, db_health_path, metrics_path, metrics_json_path, loglevel_path, cache_clear_path,
    cacheClearOp, ratelimits_path. auto 60 with openapi.
Qed.

Lemma schemas_closed : closed buildComponents.
Proof.
  unfold buildComponents, schemas, WorkflowResponse, ErrorResponse, HealthResponse, DbHealthResponse, MetricsResponse,
    RateLimitsResponse, RateLimitErrorResponse. auto 60 with openapi.
Qed.

Lemma base_responses_closed : closed (AMap base_responses).
Proof. unfold base_responses. auto 60 with openapi. Qed.

Lemma rate_limited_closed : closed rate_limited.
Proof. unfold rate_limited. auto 60 with openapi. Qed.

Lemma closed_insert (m : row) k v : closed (AMap m) -> closed_entry (k, v) -> closed (AMap (<[k := v]> m)).
Proof.
  intros Hm [Hv Hk] r Hr. inversion Hr as [? Hl|? k' v' Hl Hv'| |]; subst; rewrite lookup_insert in Hl; case_decide.
  - injection Hl as ->. by apply Hk.
  - apply Hm. by constructor.
  - injection Hl as ->. by apply Hv.
  - apply Hm. by eapply ref_map.
Qed.

Lemma responses_closed t : closed (AMap (responses t)).
Proof.
  unfold responses. case_decide; [|apply base_responses_closed].
  apply closed_insert; [apply base_responses_closed|]. apply closed_entry_plain; [done|apply rate_limited_closed].
Qed.

Lemma paramTypeToSchema_closed `{FloatText} t d : closed (AMap (paramTypeToSchema t d)).
Proof.
  unfold paramTypeToSchema, array_schema. apply closed_row.
  repeat match goal with |- context [decide (t ∈ ?l)] => destruct (decide (t ∈ l)) end;
    [destruct (Atoi d)|destruct (ParseFloat d)|destruct (ParseBool d)|..];
    try destruct (decide (d <> "")); cbn [app fmap option_fmap option_map]; auto 20 with openapi.
Qed.

Lemma operation_closed `{FloatText} wf t c : closed (operation wf t c).
Proof.
  pose proof (responses_closed t) as Hr. unfold operation.
  assert (closed (ARows (builtin_params c ++ (param_entry <$> tc_Parameters t)))) as Hp.
  { apply closed_rows, List.Forall_app. split; [unfold builtin_params; auto 60 with openapi|].
    apply Forall_fmap, Forall_true. intros p. unfold compose, param_entry.
    pose proof (paramTypeToSchema_closed (pa_Type p) (pa_Default p)). auto 60 with openapi. }
  auto 60 with openapi.
Qed.

Lemma buildPaths_closed `{FloatText} cfg : closed (AMap (buildPaths cfg)).
Proof.
  unfold buildPaths. generalize (triggers_in_order cfg) as l. induction l as [|[wf t] l IH] using rev_ind.
  - apply builtin_paths_closed.
  - rewrite foldl_app. cbn [foldl fst snd]. destruct (has_endpoint t); [|done]. apply closed_insert; [done|]. split; [|done].
    apply closed_obj. constructor; [|constructor]. apply closed_entry_plain; [|apply operation_closed].
    unfold doc_method. by case_decide.
Qed.

(** Every reference in the document, in whatever place, names a schema that the
    document contains. *)
Theorem Spec_references `{FloatText} cfg r (Hr : ref_in r (AMap (Spec cfg))) : exists name schema,
  r = "#/components/schemas/" +:+ name /\
  Spec cfg !! "components" = Some (obj [("schemas", AMap schemas)]) /\ schemas !! name = Some schema.
Proof.
  assert (closed (AMap (Spec cfg))) as Hc.
  { pose proof (buildPaths_closed cfg). pose proof schemas_closed. unfold Spec. auto 60 with openapi. }
  destruct (Hc r Hr) as (name & -> & schema & Hs). by exists name, schema.
Qed.

(** ** Evaluation at concrete inputs *)

Module Sample.
#[local] Existing Instances sample_tables Params.Sample.sample_gotext Params.Sample.sample_toint.
#[local] Instance texts : FloatText :=
  {| ParseFloat := fun s => if decide (s = "Inf") then Ok (S754_infinity false) else Err (Errorf s); FormatFloat := fun _ => "" |}.

Definition limit : ParamConfig := {| pa_Name := "limit"; pa_Type := "Int"; pa_Required := false; pa_Default := "10" |}.

Definition endpoint (method : string) : TriggerConfig :=
  {| tc_Type := "http"; tc_Path := "/users/{id}"; tc_Method := method; tc_Parameters := [limit]; tc_RateLimit := [];
     tc_Cache := None; tc_Schedule := ""; tc_Params := ∅ |}.

Definition users : WorkflowConfig :=
  {| wc_Name := "users"; wc_TimeoutSec := 0; wc_Conditions := ∅;
     wc_Triggers := [endpoint "PUT"; endpoint "DELETE"; endpoint "POST"]; wc_Steps := [] |}.

Definition cfg : Config :=
  let c := ConfigLoad.Sample.with_db "h" in
  {| cf_Server := cf_Server c; cf_Databases := []; cf_Logging := cf_Logging c; cf_Metrics_Enabled := false;
     cf_Debug := cf_Debug c; cf_RateLimits := []; cf_Workflows := [users]; cf_Variables := cf_Variables c;
     cf_PublicIDs := None |}.

Definition documented_methods (c : Config) (path : string) : list string :=
  match buildPaths c !! path with Some (AMap m) => (map_to_list m).*1 | _ => [] end.

(** Three routes share a path: the document has the last one alone. *)
Example operations_lost : documented_methods cfg "/users/{id}" = ["post"].
Proof. by vm_compute. Qed.

(** A method that is not POST is described as GET. *)
Example methods_described : doc_method <$> [endpoint "PUT"; endpoint "DELETE"; endpoint "GET"] = ["get"; "get"; "get"].
Proof. by vm_compute. Qed.

(** The names of the types are compared as they are written: Int is converted as an
    integer by the handler, but is a string here. *)
Example type_name_case : (paramTypeToSchema "Int" "10" !! "type", paramTypeToSchema "int" "10" !! "type", ConvertValue "10" "Int")
  = (Some (AStr "string"), Some (AStr "integer"), Ok (AInt 10)).
Proof. by vm_compute. Qed.

(** The configuration with one parameter of one route changed. *)
Definition with_parameter (p : ParamConfig) : Config :=
  let t := {| tc_Type := "http"; tc_Path := "/users/{id}"; tc_Method := "GET"; tc_Parameters := [p]; tc_RateLimit := [];
              tc_Cache := None; tc_Schedule := ""; tc_Params := ∅ |} in
  {| cf_Server := cf_Server cfg; cf_Databases := []; cf_Logging := cf_Logging cfg; cf_Metrics_Enabled := false;
     cf_Debug := cf_Debug cfg; cf_RateLimits := []; cf_Variables := cf_Variables cfg; cf_PublicIDs := None;
     cf_Workflows := [{| wc_Name := "users"; wc_TimeoutSec := 0; wc_Conditions := ∅; wc_Triggers := [t]; wc_Steps := [] |}] |}.

(** A default that JSON cannot express: the whole document cannot be written. *)
Example infinite_default :
  paramTypeToSchema "float" "Inf" !! "default" = Some (AFloat (S754_infinity false)) /\
  encodable (AMap (Spec (with_parameter limit))) = true /\
  encodable (AMap (Spec (with_parameter {| pa_Name := "ratio"; pa_Type := "float"; pa_Required := false; pa_Default := "Inf" |}))) = false.
Proof. by vm_compute. Qed.

Lemma default_documented_witness : paramTypeToSchema "int" "-7" !! "default" = Some (AInt (-7)).
Proof. apply default_documented; [by repeat constructor|done|by vm_compute]. Defined.

Lemma Spec_references_witness : exists name schema,
  "#/components/schemas/HealthResponse" = "#/components/schemas/" +:+ name /\ schemas !! name = Some schema.
Proof.
  assert (forall m k v r, m !! k = Some (AMap v) -> ref_in r (AMap v) -> ref_in r (AMap m)) as Hin by (intros; by eapply ref_map).
  destruct (Spec_references cfg "#/components/schemas/HealthResponse") as (name & schema & Hn & _ & Hs).
  - apply (Hin _ "paths" (buildPaths cfg)); [reflexivity|].
    eapply (Hin _ "/_/health"); [by vm_compute|]. eapply (Hin _ "get"); [by vm_compute|].
    eapply (Hin _ "responses"); [by vm_compute|]. eapply (Hin _ "200"); [by vm_compute|].
    eapply (Hin _ "content"); [by vm_compute|]. eapply (Hin _ "application/json"); [by vm_compute|].
    eapply (Hin _ "schema"); [by vm_compute|]. apply ref_here. by vm_compute.
  - exists name, schema. split; [exact Hn|exact Hs].
Defined.
End Sample.
