(* ===== verification/Admin.v ===== *)
(** * internal/server: the administration endpoints (server.go)

    The handlers under [/_/] that read or change the running server: the log level,
    the cache, the rate limits and the metrics, and the list of endpoints at [/].
    The state they act on is the record [Server] of [ServerInit]; [None] is a panic.
    An answer is its status, its content type and the value that [writeJSON]
    encodes.  The health endpoints are in [Health]. *)
From S2P Require Import Prelude GoStrings Patterns GoValues Trace Numbers PublicID Cache RateLimit WfConfig SqlParams Expr Compile Executor Handler WfValidate DbText Db Metrics Adapters TmplEngine ConfigLoad CfgValidate Mux Logging ServerInit Openapi.

Section Admin.
Context `{UnicodeTables, TL : TemplateLang, EL : ExprLang, MapWalk, Schedules, Hmac, TextTemplate, FloatToInt}.
Context `{TokenBucket, UrlText, LogFiles, FloatText}.
Context `{!Cache.JsonSize any, !Cache.AgeOrder, R : !Cache.Ristretto (option (Cache.Entry any)), !Cache.Cron}.
Context {W : Type} {DB : SqlDB W} `{MySQLFormat}.

Abbreviation RespCache := (Cache.Cache (V := any)).
Abbreviation Srv := (Server (W := W)).

(** ** The parts of the server that change *)

Definition with_log (s : Srv) (v : Logger) : Srv :=
  {| se_log := v; se_dbManager := se_dbManager s; se_dbHealthy := se_dbHealthy s; se_createdAt := se_createdAt s;
     se_config := se_config s; se_cache := se_cache s; se_ctxBuilder := se_ctxBuilder s; se_engine := se_engine s;
     se_rateLimiter := se_rateLimiter s; se_metrics := se_metrics s; se_workflows := se_workflows s;
     se_cron := se_cron s; se_mux := se_mux s; se_Addr := se_Addr s; se_WriteTimeout := se_WriteTimeout s;
     se_debug := se_debug s |}.

Definition with_cache (s : Srv) (v : option RespCache) : Srv :=
  {| se_log := se_log s; se_dbManager := se_dbManager s; se_dbHealthy := se_dbHealthy s; se_createdAt := se_createdAt s;
     se_config := se_config s; se_cache := v; se_ctxBuilder := se_ctxBuilder s; se_engine := se_engine s;
     se_rateLimiter := se_rateLimiter s; se_metrics := se_metrics s; se_workflows := se_workflows s;
     se_cron := se_cron s; se_mux := se_mux s; se_Addr := se_Addr s; se_WriteTimeout := se_WriteTimeout s;
     se_debug := se_debug s |}.

Definition with_limiter (s : Srv) (v : option Limiter) : Srv :=
  {| se_log := se_log s; se_dbManager := se_dbManager s; se_dbHealthy := se_dbHealthy s; se_createdAt := se_createdAt s;
     se_config := se_config s; se_cache := se_cache s; se_ctxBuilder := se_ctxBuilder s; se_engine := se_engine s;
     se_rateLimiter := v; se_metrics := se_metrics s; se_workflows := se_workflows s;
     se_cron := se_cron s; se_mux := se_mux s; se_Addr := se_Addr s; se_WriteTimeout := se_WriteTimeout s;
     se_debug := se_debug s |}.

Definition with_metrics (s : Srv) (v : option Collector) : Srv :=
  {| se_log := se_log s; se_dbManager := se_dbManager s; se_dbHealthy := se_dbHealthy s; se_createdAt := se_createdAt s;
     se_config := se_config s; se_cache := se_cache s; se_ctxBuilder := se_ctxBuilder s; se_engine := se_engine s;
     se_rateLimiter := se_rateLimiter s; se_metrics := v; se_workflows := se_workflows s;
     se_cron := se_cron s; se_mux := se_mux s; se_Addr := se_Addr s; se_WriteTimeout := se_WriteTimeout s;
     se_debug := se_debug s |}.

(** ** Answers *)

Record poolInfo := {
  po_Name : string; po_RequestsPerSecond : Z; po_Burst : Z; po_Allowed : Z; po_Denied : Z; po_ActiveBuckets : Z;
}.
Record endpointInfo := {
  ei_Name : string; ei_Path : string; ei_Method : string; ei_Parameters : list ParamConfig; ei_TimeoutSec : Z;
}.
Record scheduledInfo := { si_Name : string; si_Schedule : string }.

Inductive body :=
| ErrorBody (msg : string)
| LogLevelSet (status level : string)
| LogLevelIs (currentLevel usage : string)
| CacheCleared (status message endpoint : string)
| RateLimits (totalAllowed totalDenied : Z) (pools : list poolInfo)
| LimitsReset (status message pool key : string) (bucketsCleared : nat)
| MetricsSnapshot (snap : Snapshot)
| Scrape                                       (* what promhttp writes *)
| PlainText (text : string)
| Document (spec : row)
| Nothing                                      (* an encoder that fails has written nothing *)
| Endpoints (version buildTime : string) (defaultTimeoutSec maxTimeoutSec : Z) (databases : list string)
    (dbHealthy : bool) (workflows : list endpointInfo) (scheduled : list scheduledInfo).

Record answer := { an_Status : Z; an_ContentType : string; an_Body : body }.

Definition json (status : Z) (b : body) : answer :=
  {| an_Status := status; an_ContentType := "application/json"; an_Body := b |}.
Definition text (status : Z) (contentType t : string) : answer :=
  {| an_Status := status; an_ContentType := contentType; an_Body := PlainText (t +:+ chr 10) |}.

(** [r.URL.Query().Get(name)] *)
Definition query_Get (r : HttpRequest) (name : string) : string := first_value (hq_Query r !! name).

(** ** Handlers *)

Definition logLevelHandler (r : HttpRequest) (s : Srv) : answer * Srv :=
  if decide (hq_Method r = "POST" \/ hq_Method r = "PUT") then
    let level := query_Get r "level" in
    if decide (level = "") then (json 400 (ErrorBody "level parameter required (debug, info, warn, error)"), s)
    else (json 200 (LogLevelSet "ok" level), with_log s (SetLevel (se_log s) level))
  else (json 200 (LogLevelIs (GetLevel (se_log s)) "POST /_/config/loglevel?level=debug|info|warn|error"), s).

Definition clearing (r : HttpRequest) : bool := bool_decide (hq_Method r = "POST" \/ hq_Method r = "DELETE").

Definition not_allowed : answer := json 405 (ErrorBody "method not allowed, use POST or DELETE").

Definition cacheClearHandler (r : HttpRequest) (s : Srv) : answer * Srv :=
  if negb (clearing r) then (not_allowed, s)
  else match se_cache s with
  | None => (json 404 (ErrorBody "cache not enabled"), s)
  | Some c =>
    let endpoint := query_Get r "endpoint" in
    if decide (endpoint <> "") then
      (json 200 (CacheCleared "ok" "cache cleared for endpoint" endpoint), with_cache s (Cache.Clear (Some c) endpoint))
    else (json 200 (CacheCleared "ok" "all cache cleared" ""), with_cache s (Cache.ClearAll (Some c)))
  end.

(** The entry of a pool; a pool without an entry in the snapshot would be a panic. *)
Definition pool_info (l : Limiter) (snap : gmap string PoolMetrics) (name : string) : option (list poolInfo) :=
  match GetPool l name with
  | None => Some []
  | Some p =>
    m ← snap !! name;
    Some [{| po_Name := name; po_RequestsPerSecond := p_requestsPerSecond p; po_Burst := p_burst p;
             po_Allowed := pm_Allowed m; po_Denied := pm_Denied m; po_ActiveBuckets := pm_ActiveBuckets m |}]
  end.

Definition rateLimitsHandler (s : Srv) : option answer :=
  match se_rateLimiter s with
  | None => Some (json 200 (ErrorBody "rate limiting not configured"))
  | Some l =>
    '(totalAllowed, totalDenied, snap) ← RateLimit.Snapshot l;
    infos ← mapM (pool_info l snap) (PoolNames l);
    Some (json 200 (RateLimits totalAllowed totalDenied (List.concat infos)))
  end.

Definition rateLimitsResetHandler (r : HttpRequest) (now : Z) (s : Srv) : answer * Srv :=
  if negb (clearing r) then (not_allowed, s)
  else match se_rateLimiter s with
  | None => (json 404 (ErrorBody "rate limiting not configured"), s)
  | Some l =>
    let pool := query_Get r "pool" in
    let key := query_Get r "key" in
    if decide (key <> "") then
      if decide (pool = "") then (json 400 (ErrorBody "key parameter requires pool parameter"), s)
      else match ResetKey l pool key with
      | (Err e, _) => (json 404 (ErrorBody (Error e)), s)
      | (Ok cleared, l') =>
        (json 200 (LimitsReset "ok" "rate limit key reset" pool key (if cleared : bool then 1 else 0)), with_limiter s (Some l'))
      end
    else if decide (pool <> "") then
      match ResetPool l pool now with
      | (Err e, _) => (json 404 (ErrorBody (Error e)), s)
      | (Ok n, l') => (json 200 (LimitsReset "ok" "rate limit pool reset" pool "" n), with_limiter s (Some l'))
      end
    else
      let '(n, l') := ResetAll l now in
      (json 200 (LimitsReset "ok" "all rate limits reset" "" "" n), with_limiter s (Some l'))
  end.

Definition metricsJSONHandler (now : Z) (s : Srv) : answer * Srv :=
  match GetSnapshot (se_metrics s) (se_dbHealthy s) now with
  | (None, m) => (json 200 (ErrorBody "metrics not enabled"), with_metrics s m)
  | (Some snap, m) => (json 200 (MetricsSnapshot snap), with_metrics s m)
  end.

(** The registry exists once the metrics are initialised; it is promhttp that answers
    then, with a content type of its own choice. *)
Definition metricsPrometheusHandler (s : Srv) : answer :=
  match se_metrics s with
  | None => text 503 "text/plain" "# metrics not enabled"
  | Some _ => {| an_Status := 200; an_ContentType := ""; an_Body := Scrape |}
  end.

Definition effective_timeout (s : Srv) (wf : CompiledWorkflow) : Z :=
  if decide (wc_TimeoutSec (cw_Config wf) > 0) then wc_TimeoutSec (cw_Config wf)
  else sv_DefaultTimeoutSec (cf_Server (se_config s)).

Definition endpoints_of (s : Srv) (wf : CompiledWorkflow) : list endpointInfo :=
  omap (fun t => let c := ct_Config t in
    if decide (tc_Type c = "http" /\ tc_Path c <> "") then
      Some {| ei_Name := wc_Name (cw_Config wf); ei_Path := tc_Path c; ei_Method := tc_Method c;
              ei_Parameters := tc_Parameters c; ei_TimeoutSec := effective_timeout s wf |}
    else None) (cw_Triggers wf).

Definition scheduled_of (wf : CompiledWorkflow) : list scheduledInfo :=
  omap (fun t => let c := ct_Config t in
    if decide (tc_Type c = "http" /\ tc_Path c <> "") then None
    else if decide (tc_Type c = "cron") then
      Some {| si_Name := wc_Name (cw_Config wf); si_Schedule := tc_Schedule c |}
    else None) (cw_Triggers wf).

Definition listEndpointsHandler (r : HttpRequest) (s : Srv) : answer :=
  if decide (hq_Path r <> "/") then text 404 "text/plain; charset=utf-8" "404 page not found"
  else
    let sv := cf_Server (se_config s) in
    json 200 (Endpoints (sv_Version sv) (sv_BuildTime sv) (sv_DefaultTimeoutSec sv) (sv_MaxTimeoutSec sv)
      (Db.Names (se_dbManager s)) (se_dbHealthy s) (flat_map (endpoints_of s) (se_workflows s))
      (flat_map scheduled_of (se_workflows s))).

(** The document is the one answer that [writeJSON] may fail to encode. *)
Definition openAPIHandler (s : Srv) : answer :=
  let spec := Openapi.Spec (se_config s) in
  json 200 (if encodable (AMap spec) then Document spec else Nothing).

(** The handler of a route; the health endpoints ping the databases, and the profiler
    is that of net/http. *)
Definition administer (h : route_handler) (r : HttpRequest) (now : Z) (s : Srv) : option (answer * Srv) :=
  match h with
  | RLogLevel => Some (logLevelHandler r s)
  | RCacheClear => Some (cacheClearHandler r s)
  | RRateLimits => a ← rateLimitsHandler s; Some (a, s)
  | RRateLimitsReset => Some (rateLimitsResetHandler r now s)
  | RMetricsJSON => Some (metricsJSONHandler now s)
  | RMetrics => Some (metricsPrometheusHandler s, s)
  | RListEndpoints => Some (listEndpointsHandler r s, s)
  | ROpenAPI => Some (openAPIHandler s, s)
  | RHealth | RDbHealth | RWorkflow _ _ _ | RPprof _ => None
  end.

Definition administrative (h : route_handler) : Prop :=
  match h with
  | RHealth | RDbHealth | RWorkflow _ _ _ | RPprof _ => False
  | _ => True
  end.

(** ** The running server

    Triggers consult the limiter and the cache, requests are recorded, and
    administrators act, in any order. *)
Inductive runs : Srv -> Srv -> Prop :=
| runs_limits s l limits ctx clk : se_rateLimiter s = Some l ->
    runs s (with_limiter s (Some (Allow (H1 := engine_keys (se_engine s)) l limits ctx clk).2))
| runs_cache s c op : se_cache s = Some c -> runs s (with_cache s (Some (Cache.exec_op c op)))
| runs_metrics s m : runs s (with_metrics s m)
| runs_admin s h r now a s' : administer h r now s = Some (a, s') -> runs s s'.
End Admin.

(** ** The pools of a running limiter *)

Section Shape.
Context {Ctx : Type} `{UnicodeTables, TokenBucket, !KeyEngine Ctx}.

(** The rate and burst of the named pools, which no operation changes. *)
Definition shape (l : Limiter) : gmap string (Z * Z) := (fun p => (p_requestsPerSecond p, p_burst p)) <$> l_pools l.

Lemma store_shape l r p p' : lookup_pool l r = Some p ->
  p_requestsPerSecond p' = p_requestsPerSecond p -> p_burst p' = p_burst p -> shape (store_pool l r p') = shape l.
Proof.
  intros Hp Hr Hb. destruct r as [n|k]; unfold shape; simpl in *; [|done].
  rewrite fmap_insert. apply insert_id. by rewrite lookup_fmap, Hp, Hr, Hb.
Qed.

Lemma allow_in_shape l r p tm ctx clk : lookup_pool l r = Some p -> shape (allow_in l r p tm ctx clk).2 = shape l.
Proof.
  intros Hp. destruct (ExecuteInline tm ctx) as [k|] eqn:Ek; [|unfold allow_in; by rewrite Ek].
  rewrite (allow_in_Ok _ _ _ _ _ _ _ Ek). destruct (decision _ _) as [al re]. cbn [snd].
  rewrite (store_shape _ r p); [done|by rewrite count_lookup|unfold maybeCleanup; by case_decide..].
Qed.

Lemma Allow_shape l limits ctx clk : shape (Allow l limits ctx clk).2 = shape l.
Proof.
  revert l clk. induction limits as [|limit limits IH]; intros l clk; cbn [Allow]; [done|].
  assert (shape (allowOne l limit ctx (clk 0%nat)).2 = shape l) as Hone.
  { unfold allowOne. destruct (IsPoolReference limit).
    - destruct (l_pools l !! rl_Pool limit) as [p|] eqn:Ep; [|done]. by apply allow_in_shape.
    - destruct (IsInline limit); [|done]. pose proof (ensure_inline_lookup l limit) as Hp.
      assert (shape (ensure_inline l limit).2 = shape l) as Hs by (unfold ensure_inline; by destruct (_ !! _)).
      destruct (ensure_inline l limit) as [p l']. destruct Hp as [Hp _]. by rewrite allow_in_shape. }
  destruct (allowOne l limit ctx (clk 0%nat)) as [[[[[] re] pn]|e] l']; simpl in *; try done. by rewrite IH.
Qed.

Lemma ResetPool_shape l name now : shape (ResetPool l name now).2 = shape l.
Proof.
  unfold ResetPool. destruct (find_pool l name) as [[r p]|] eqn:E; [|done]. apply find_pool_lookup in E.
  by apply (store_shape _ r p).
Qed.

Lemma ResetKey_shape l name key : shape (ResetKey l name key).2 = shape l.
Proof.
  unfold ResetKey. destruct (find_pool l name) as [[r p]|] eqn:E; [|done]. apply find_pool_lookup in E.
  unfold pool_ResetKey. case_decide; by apply (store_shape _ r p).
Qed.

Lemma ResetAll_shape l now : shape (ResetAll l now).2 = shape l.
Proof. unfold shape. cbn. rewrite <- map_fmap_compose. by apply map_fmap_ext. Qed.

(** The named pools of a limiter that was built are those of the configuration. *)
Lemma New_shape cfgs l : RateLimit.New cfgs = Ok l ->
  shape l = list_to_map ((fun c => (pc_Name c, (pc_RequestsPerSecond c, pc_Burst c))) <$> cfgs).
Proof.
  intros (_ & Hnd & _ & ->)%add_pools_Ok. revert Hnd.
  induction cfgs as [|c cfgs IH] using rev_ind; intros Hnd; [done|].
  rewrite foldl_app, fmap_app. rewrite fmap_app in Hnd. apply NoDup_app in Hnd as (Hnd & Hc & _). cbn [foldl].
  unfold shape in *. cbn [with_pool l_pools]. rewrite fmap_insert, (IH Hnd), list_to_map_app. cbn.
  rewrite <- insert_union_r; [by rewrite (right_id_L ∅ _)|].
  apply not_elem_of_list_to_map_1. rewrite <- list_fmap_compose. intros Hin. by apply (Hc (pc_Name c) Hin), list_elem_of_here.
Qed.

Lemma New_lim_inv cfgs l : RateLimit.New cfgs = Ok l ->
  Forall (fun c => reserved_name (pc_Name c) = false) cfgs -> lim_inv l.
Proof.
  intros (_ & Hnd & _ & ->)%add_pools_Ok Hres. apply with_pools_inv; try done; [by apply Forall_true|].
  constructor; simpl; try done. intros n. by intros [].
Qed.

(** The snapshot covers every named pool. *)
Lemma Snapshot_covers l : lim_inv l -> exists snap,
  RateLimit.Snapshot l = Some (l_TotalAllowed l, l_TotalDenied l, snap) /\
  forall name p, l_pools l !! name = Some p -> is_Some (snap !! name).
Proof.
  intros Hl. unfold RateLimit.Snapshot. rewrite decide_True; [|by intros n p (_ & _ & ?)%(inv_named _ Hl)].
  eexists. split; [reflexivity|]. intros name p Hp. pose proof (inv_named _ Hl _ _ Hp) as (_ & _ & [m Hm]).
  apply (map_fold_weak_ind (fun (acc : gmap string PoolMetrics) _ => is_Some (acc !! name))).
  - rewrite map_lookup_imap, Hp. cbn. rewrite Hm. by eexists.
  - intros k q ms acc _ Ha. case_match; [|done]. rewrite lookup_insert. by case_decide.
Qed.
End Shape.

(** ** What administration does *)

Section Running.
Context `{UnicodeTables, TL : TemplateLang, EL : ExprLang, MapWalk, Schedules, Hmac, TextTemplate, FloatToInt}.
Context `{TokenBucket, UrlText, LogFiles, FloatText}.
Context `{!Cache.JsonSize any, !Cache.AgeOrder, R : !Cache.Ristretto (option (Cache.Entry any)), !Cache.Cron}.
Context {W : Type} {DB : SqlDB W} `{MySQLFormat}.

Abbreviation Srv := (Server (W := W)).

Definition configured (cfgs : list RateLimitPoolConfig) : list (string * (Z * Z)) :=
  (fun c => (pc_Name c, (pc_RequestsPerSecond c, pc_Burst c))) <$> cfgs.

(** The limiter and the cache keep their invariants, the limiter its pools. *)
Record sound (cfgs : list RateLimitPoolConfig) (s : Srv) : Prop := {
  sound_limiter : forall l, se_rateLimiter s = Some l -> lim_inv l /\ shape l = list_to_map (configured cfgs);
  sound_cache : forall c, se_cache s = Some c -> Cache.cache_inv c;
}.

Lemma sound_with_limiter cfgs s l l' : sound cfgs s -> se_rateLimiter s = Some l -> lim_inv l' -> shape l' = shape l ->
  sound cfgs (with_limiter s (Some l')).
Proof.
  intros [Hl Hc] El Hi Hs. constructor; [|done]. cbn. intros l0 [= <-]. split; [done|]. by rewrite Hs, (proj2 (Hl _ El)).
Qed.

Lemma sound_with_cache cfgs s c : sound cfgs s -> Cache.cache_inv c -> sound cfgs (with_cache s (Some c)).
Proof. intros [Hl Hc] Hi. constructor; [done|]. cbn. by intros c0 [= <-]. Qed.

Lemma reset_sound cfgs r now s : sound cfgs s -> sound cfgs (rateLimitsResetHandler r now s).2.
Proof.
  intros Hs. unfold rateLimitsResetHandler. destruct (clearing r); cbn [negb]; [|done].
  destruct (se_rateLimiter s) as [l|] eqn:El; [|done]. destruct (sound_limiter _ _ Hs _ El) as [Hl _].
  pose (e := engine_keys (se_engine s)). case_decide; [case_decide; [done|]|case_decide].
  - pose proof (limiter_op_inv (H1 := e) l (LResetKey (query_Get r "pool") (query_Get r "key")) Hl) as Hi.
    pose proof (ResetKey_shape l (query_Get r "pool") (query_Get r "key")) as Hsh. cbn [RateLimit.exec_op] in Hi.
    destruct (ResetKey l _ _) as [[n|e'] l']; [|done]. by apply (sound_with_limiter _ _ l).
  - pose proof (limiter_op_inv (H1 := e) l (LResetPool (query_Get r "pool") now) Hl) as Hi.
    pose proof (ResetPool_shape l (query_Get r "pool") now) as Hsh. cbn [RateLimit.exec_op] in Hi.
    destruct (ResetPool l _ _) as [[n|e'] l']; [|done]. by apply (sound_with_limiter _ _ l).
  - pose proof (limiter_op_inv (H1 := e) l (LResetAll now) Hl) as Hi. pose proof (ResetAll_shape l now) as Hsh.
    cbn [RateLimit.exec_op] in Hi. destruct (ResetAll l now) as [n l']. by apply (sound_with_limiter _ _ l).
Qed.

Lemma clear_sound cfgs r s : sound cfgs s -> sound cfgs (cacheClearHandler r s).2.
Proof.
  intros Hs. unfold cacheClearHandler. destruct (clearing r); cbn [negb]; [|done].
  destruct (se_cache s) as [c|] eqn:Ec; [|done]. pose proof (sound_cache _ _ Hs _ Ec) as Hc. case_decide; cbn [snd].
  - assert (exists c', Cache.Clear (Some c) (query_Get r "endpoint") = Some c') as [c' E].
    { unfold Cache.Clear. case_match; by eexists. }
    pose proof (Cache.exec_op_inv c (Cache.OClear (query_Get r "endpoint")) Hc) as Hi. cbn [Cache.exec_op] in Hi.
    rewrite E in *. by apply sound_with_cache.
  - by apply sound_with_cache, (Cache.exec_op_inv c Cache.OClearAll).
Qed.

Lemma administer_sound cfgs h r now s a s' : sound cfgs s -> administer h r now s = Some (a, s') -> sound cfgs s'.
Proof.
  intros Hs Ha. destruct h; cbn [administer] in Ha; try done.
  - injection Ha as Ha. unfold metricsJSONHandler in Ha.
    destruct (GetSnapshot _ _ _) as [[snap|] m]; injection Ha as _ <-; by destruct Hs.
  - by injection Ha as _ <-.
  - by injection Ha as _ <-.
  - injection Ha as Ha. unfold logLevelHandler in Ha. repeat case_decide; injection Ha as _ <-; by destruct Hs.
  - injection Ha as Ha. apply (clear_sound _ r) in Hs. by rewrite Ha in Hs.
  - apply bind_Some in Ha as (a' & _ & [= _ <-]). done.
  - injection Ha as Ha. apply (reset_sound _ r now) in Hs. by rewrite Ha in Hs.
  - by injection Ha as _ <-.
Qed.

Lemma runs_sound cfgs s s' : runs s s' -> sound cfgs s -> sound cfgs s'.
Proof.
  intros [s0 l limits ctx clk El|s0 c op Ec|s0 m|s0 h r now a s1 Ha] Hs.
  - destruct (sound_limiter _ _ Hs _ El) as [Hl _]. apply (sound_with_limiter _ _ l); [done..| |].
    + by apply Allow_inv.
    + apply Allow_shape.
  - apply sound_with_cache; [done|]. apply Cache.exec_op_inv. by apply Hs.
  - by destruct Hs.
  - by eapply administer_sound.
Qed.

Lemma started_sound cfg interactive now st server st' : accepted cfg ->
  ServerInit.New cfg interactive now st = (Some (Ok server), st') -> sound (cf_RateLimits cfg) server.
Proof.
  intros Hacc (m & log & _ & Hb)%New_Ok. unfold build in Hb. apply cbind_Ok in Hb as (cache & Hc & Hb).
  apply cbind_Ok in Hb as (engine & _ & Hb). apply cbind_Ok in Hb as (limiter & Hl & Hb).
  apply cbind_Ok in Hb as ([wfs jobs] & _ & Hb). destruct (setupRoutes cfg wfs) as [mux|]; [|done].
  destruct (setup_debug cfg mux) as [[mux' debug]|]; [|done]. injection Hb as <-. constructor; cbn.
  - intros l ->. unfold init_limiter in Hl. destruct (cf_RateLimits cfg) as [|c cfgs] eqn:E; [done|].
    apply cbind_Ok in Hl as (l' & Hl & [= ->]). apply cwrap_Ok in Hl. injection Hl as Hl.
    split; [|by apply New_shape in Hl]. eapply New_lim_inv; [exact Hl|]. rewrite <- E.
    eapply Forall_impl; [apply (ac_pools _ Hacc)|]. by intros x [_ Hx].
  - intros c ->. unfold init_cache in Hc. destruct (sv_Cache _) as [cc|]; [|done].
    destruct (Cache.cc_Enabled cc); [|done]. apply cwrap_Ok in Hc. injection Hc as Hc. by eapply Cache.New_inv.
Qed.

(** The pools listed are the configured ones. *)
Lemma pool_infos l snap names : (forall n, n ∈ names -> is_Some (l_pools l !! n) /\ is_Some (snap !! n)) ->
  exists infos, mapM (pool_info l snap) names = Some infos /\
    (fun i => (po_Name i, (po_RequestsPerSecond i, po_Burst i))) <$> List.concat infos =
    omap (fun n => (fun p => (n, (p_requestsPerSecond p, p_burst p))) <$> (l_pools l !! n)) names.
Proof.
  induction names as [|n names IH]; intros Hn; [by exists []|].
  destruct IH as (infos & Hm & Hi). { intros n' Hn'. apply Hn. by right. }
  destruct (Hn n (list_elem_of_here _ _)) as [[p Hp] [pm Hs]].
  assert (pool_info l snap n = Some [{| po_Name := n; po_RequestsPerSecond := p_requestsPerSecond p; po_Burst := p_burst p;
    po_Allowed := pm_Allowed pm; po_Denied := pm_Denied pm; po_ActiveBuckets := pm_ActiveBuckets pm |}]) as Hone.
  { unfold pool_info, GetPool. rewrite Hp, Hs. done. }
  eexists. cbn [mapM]. rewrite Hone, Hm. cbn. split; [reflexivity|]. cbn. rewrite Hp. cbn. by rewrite Hi.
Qed.

Lemma listed_shape l : omap (fun n => (fun p => (n, (p_requestsPerSecond p, p_burst p))) <$> (l_pools l !! n)) (PoolNames l)
  ≡ₚ map_to_list (shape l).
Proof.
  unfold shape. rewrite map_to_list_fmap. unfold PoolNames. apply reflexive_eq.
  assert (forall n p, (n, p) ∈ map_to_list (l_pools l) -> l_pools l !! n = Some p) as Hin by (intros n p; apply elem_of_map_to_list).
  revert Hin. generalize (map_to_list (l_pools l)). intros m Hin. induction m as [|[n p] m IH]; [done|].
  cbn. rewrite (Hin n p) by apply list_elem_of_here. cbn. f_equal. apply IH. intros n' p' ?. apply Hin. by right.
Qed.

(** C9: administration does not fail.  Start the server with a configuration that passes
    validation and let triggers consult the limiter and the cache, requests be
    recorded and administrators act, in any order.  Then every administration
    endpoint answers, without a panic; and the rate limit report lists exactly the
    configured pools with their rates, and its totals are the sums over all pools,
    the inline ones included, as [int64]. *)
Theorem administration_answers cfg interactive now0 st server st' s h r now
    (Hvalid : no_errors (format_issues cfg))
    (Hnew : ServerInit.New cfg interactive now0 st = (Some (Ok server), st'))
    (Hrun : rtc runs server s) (Hadmin : administrative h) :
  exists a s', administer h r now s = Some (a, s') /\
    (h = RRateLimits -> forall l, se_rateLimiter s = Some l -> exists infos,
       an_Body a = RateLimits (i64 (map_sum pm_Allowed (l_metrics l))) (i64 (map_sum pm_Denied (l_metrics l))) infos /\
       (fun i => (po_Name i, (po_RequestsPerSecond i, po_Burst i))) <$> infos ≡ₚ configured (cf_RateLimits cfg)).
Proof.
  apply format_accepted in Hvalid as Hacc. assert (sound (cf_RateLimits cfg) s) as Hs.
  { apply (started_sound _ _ _ _ _ _ Hacc) in Hnew. clear -Hrun Hnew. induction Hrun; eauto using runs_sound. }
  assert (h <> RRateLimits -> exists a s', administer h r now s = Some (a, s')) as Hothers.
  { intros Hne. destruct h; try done; cbn [administer]; try (by eexists _, _);
      match goal with |- context [Some ?x] => destruct x; by eexists _, _ end. }
  destruct h; try (destruct (Hothers ltac:(done)) as (a & s' & Ha); exists a, s'; by split).
  cbn [administer]. unfold rateLimitsHandler. destruct (se_rateLimiter s) as [l|] eqn:El; [|by eexists _, _].
  destruct (sound_limiter _ _ Hs _ El) as [Hl Hsh]. destruct (Snapshot_covers l Hl) as (snap & Hsn & Hc).
  destruct (pool_infos l snap (PoolNames l)) as (infos & Hm & Hi).
  { intros n Hn. apply list_elem_of_fmap in Hn as ([n' p] & -> & Hp%elem_of_map_to_list). split; [by eexists|by eapply Hc]. }
  rewrite Hsn. cbn. rewrite Hm. eexists _, _. split; [reflexivity|]. intros _ l0 [= <-]. eexists. split.
  - cbn. by rewrite (inv_allowed _ Hl), (inv_denied _ Hl).
  - rewrite Hi, listed_shape, Hsh. apply map_to_list_to_map. unfold configured. rewrite <- list_fmap_compose.
    apply (ac_pool_names _ Hacc).
Qed.

(** ** Resetting *)

Definition bucket_count (l : Limiter) : Z :=
  map_sum (fun p => Z.of_nat (size (p_buckets p))) (l_pools l) + map_sum (fun p => Z.of_nat (size (p_buckets p))) (l_inlinePools l).

(** The buckets a reset is for: all, those of a pool, or one. *)
Definition targeted (l : Limiter) (pool key : string) (ref : pool_ref) (k : string) : Prop :=
  pool = "" \/ (exists p, find_pool l pool = Some (ref, p)) /\ (key = "" \/ k = key).

Lemma count_store l r p p' : lookup_pool l r = Some p ->
  bucket_count (store_pool l r p') = bucket_count l - Z.of_nat (size (p_buckets p)) + Z.of_nat (size (p_buckets p')).
Proof.
  intros Hp. unfold bucket_count. destruct r as [n|k]; cbn in *; rewrite <- insert_delete_eq, map_sum_insert by apply lookup_delete_eq;
    rewrite (map_sum_delete _ _ _ _ Hp); lia.
Qed.

Lemma bucket_store l r p' ref k : bucket_of (store_pool l r p') ref k =
  if decide (ref = r) then p_buckets p' !! k else bucket_of l ref k.
Proof. unfold bucket_of. rewrite lookup_store_pool. by case_decide. Qed.

Lemma ResetAll_count l now : Z.of_nat (ResetAll l now).1 = bucket_count l /\ bucket_count (ResetAll l now).2 = 0.
Proof.
  unfold ResetAll, bucket_count. cbn [fst snd l_pools l_inlinePools set_inline set_pools]. split.
  - assert (forall m : gmap string Pool,
      Z.of_nat (map_fold (fun _ p t => ((pool_Reset p now).1 + t)%nat) 0%nat m) = map_sum (fun p => Z.of_nat (size (p_buckets p))) m) as Hm.
    { intros m. induction m as [|n p m Hn IH] using map_ind; [by rewrite map_fold_empty|].
      rewrite map_sum_insert, map_fold_insert_L by (done || intros; lia). rewrite Nat2Z.inj_add, IH. done. }
    by rewrite Nat2Z.inj_add, !Hm.
  - assert (forall m : gmap string Pool, map_sum (fun p => Z.of_nat (size (p_buckets p))) ((fun p => (pool_Reset p now).2) <$> m) = 0) as H0'.
    { intros m. induction m as [|n p m Hn IH] using map_ind; [by rewrite fmap_empty|].
      rewrite fmap_insert, map_sum_insert by (by rewrite lookup_fmap, Hn). by rewrite IH. }
    by rewrite !H0'.
Qed.

(** What a reset of the limiter does to buckets and counters. *)
Record reset (l l' : Limiter) (pool key : string) (n : nat) : Prop := {
  reset_gone : forall ref k, targeted l pool key ref k -> bucket_of l' ref k = None;
  reset_kept : forall ref k, ~ targeted l pool key ref k -> bucket_of l' ref k = bucket_of l ref k;
  reset_count : Z.of_nat n = bucket_count l - bucket_count l';
  reset_metrics : l_metrics l' = l_metrics l /\ l_TotalAllowed l' = l_TotalAllowed l /\ l_TotalDenied l' = l_TotalDenied l;
}.

Lemma store_metrics l r p : l_metrics (store_pool l r p) = l_metrics l /\
  l_TotalAllowed (store_pool l r p) = l_TotalAllowed l /\ l_TotalDenied (store_pool l r p) = l_TotalDenied l.
Proof. by destruct r. Qed.

Lemma ResetPool_reset l pool now n l' : pool <> "" -> ResetPool l pool now = (Ok n, l') -> reset l l' pool "" n.
Proof.
  intros Hne. unfold ResetPool. destruct (find_pool l pool) as [[r p]|] eqn:E; [|done]. intros [= <- <-].
  pose proof (find_pool_lookup _ _ _ _ E) as Hp. constructor; [| | |apply store_metrics].
  - intros ref k [?|[[p' Hf] _]]; [done|]. rewrite E in Hf. injection Hf as <- <-. rewrite bucket_store. by rewrite decide_True.
  - intros ref k Hk. rewrite bucket_store. case_decide as Er; [|done]. subst. exfalso. apply Hk. right. split; [by eexists|by left].
  - rewrite (count_store _ _ _ _ Hp). cbn. rewrite map_size_empty. lia.
Qed.

Lemma ResetKey_reset l pool key b l' : pool <> "" -> key <> "" -> ResetKey l pool key = (Ok b, l') ->
  reset l l' pool key (if b : bool then 1 else 0).
Proof.
  intros Hne Hke. unfold ResetKey. destruct (find_pool l pool) as [[r p]|] eqn:E; [|done].
  pose proof (find_pool_lookup _ _ _ _ E) as Hp. unfold pool_ResetKey. destruct (decide (is_Some (p_buckets p !! key))) as [[b' Hb]|Hn].
  - intros [= <- <-]. constructor; [| | |apply store_metrics].
    + intros ref k [?|[[p' Hf] [?| ->]]]; [done..|]. rewrite E in Hf. injection Hf as <- <-.
      rewrite bucket_store, decide_True by done. cbn. apply lookup_delete_eq.
    + intros ref k Hk. rewrite bucket_store. case_decide as Er; [|done]. subst. cbn.
      rewrite lookup_delete_ne; [unfold bucket_of; by rewrite Hp|]. intros ->. apply Hk. right. split; [by eexists|by right].
    + rewrite (count_store _ _ _ _ Hp). cbn. rewrite map_size_delete_Some by (by eexists).
      assert (size (p_buckets p) <> 0)%nat by (intros E0%map_size_empty_inv; by rewrite E0 in Hb). lia.
  - intros [= <- <-]. assert (forall ref k, bucket_of (store_pool l r p) ref k = bucket_of l ref k) as Hsame.
    { intros ref k. rewrite bucket_store. case_decide as Er; [|done]. subst. unfold bucket_of. by rewrite Hp. }
    constructor; [| | |apply store_metrics].
    + intros ref k [?|[[p' Hf] [?| ->]]]; [done..|]. rewrite E in Hf. injection Hf as <- <-. rewrite Hsame. unfold bucket_of.
      rewrite Hp. cbn. by apply eq_None_not_Some.
    + intros ref k _. apply Hsame.
    + rewrite (count_store _ _ _ _ Hp). lia.
Qed.

Lemma ResetAll_reset l now n l' : ResetAll l now = (n, l') -> reset l l' "" "" n.
Proof.
  intros E. destruct (ResetAll_count l now) as [Hn H0']. rewrite E in Hn, H0'. cbn in Hn, H0'.
  injection E as _ <-. constructor.
  - intros [m|m] k _; unfold bucket_of; cbn; rewrite lookup_fmap; by destruct (_ !! m).
  - intros ref k Hk. exfalso. apply Hk. by left.
  - rewrite H0'. lia.
  - done.
Qed.

(** the reset endpoint.  It changes the server only when it reports a reset, which
    only a POST or a DELETE with a configured limiter gets; then exactly the buckets
    asked for are gone (all of them, those of a pool, or the one of a key), every
    other bucket and all counters are as before, and the number it reports is the
    number of buckets removed. *)
Theorem reset_spec r now s :
  let '(a, s') := rateLimitsResetHandler r now s in
  match an_Body a with
  | LimitsReset _ _ pool key n => an_Status a = 200 /\ clearing r = true /\
      pool = query_Get r "pool" /\ key = query_Get r "key" /\
      exists l l', se_rateLimiter s = Some l /\ s' = with_limiter s (Some l') /\ reset l l' pool key n
  | _ => s' = s /\ an_Status a <> 200
  end.
Proof.
  unfold rateLimitsResetHandler. destruct (clearing r); cbn [negb]; [|done].
  destruct (se_rateLimiter s) as [l|]; [|done]. destruct (decide (query_Get r "key" <> "")) as [Hk|Hk%dec_stable].
  - destruct (decide (query_Get r "pool" = "")) as [|Hp]; [done|].
    destruct (ResetKey l _ _) as [[b|e] l'] eqn:E; [|done]. cbn. split_and!; try done. exists l, l'.
    split_and!; [done..|]. by apply ResetKey_reset.
  - rewrite Hk. destruct (decide (query_Get r "pool" <> "")) as [Hp|Hp%dec_stable].
    + destruct (ResetPool l _ _) as [[n|e] l'] eqn:E; [|done]. cbn. split_and!; try done. exists l, l'.
      split_and!; [done..|]. by eapply ResetPool_reset.
    + rewrite Hp. destruct (ResetAll l now) as [n l'] eqn:E. cbn. split_and!; try done. exists l, l'.
      split_and!; [done..|]. by eapply ResetAll_reset.
Qed.

(** Clearing the whole cache leaves nothing to be read. *)
Lemma cleared_misses r s endpoint key : clearing r = true -> query_Get r "endpoint" = "" ->
  (Cache.Get (se_cache (cacheClearHandler r s).2) endpoint key).1 = None.
Proof.
  intros Hc He. unfold cacheClearHandler. rewrite Hc. cbn [negb]. destruct (se_cache s) as [c|] eqn:Ec; [|cbn [snd]; by rewrite ?Ec].
  case_decide; [done|]. cbn. destruct (Cache.store_Get _ _) as [[en|]|] eqn:Eg; [|done..].
  exfalso. by eapply Cache.store_Clear_may, Cache.store_Get_may.
Qed.

(** Clearing an endpoint that was not registered with the cache, as the server's
    endpoints are not, removes nothing. *)
Lemma unregistered_not_cleared r s c : clearing r = true -> se_cache s = Some c -> query_Get r "endpoint" <> "" ->
  Cache.getEndpoint c (query_Get r "endpoint") = None ->
  cacheClearHandler r s = (json 200 (CacheCleared "ok" "cache cleared for endpoint" (query_Get r "endpoint")), with_cache s (Some c)).
Proof.
  intros Hc Ec He Hn. unfold cacheClearHandler. rewrite Hc, Ec. cbn [negb]. rewrite decide_True by done.
  unfold Cache.Clear. by rewrite Hn.
Qed.
(** ** The document of the API *)

(** Where the trigger of a compiled workflow stands in the configuration. *)
Lemma trigger_in_order cfg wfs wf t : Forall2 (validated (workflow_context cfg)) (cf_Workflows cfg) wfs ->
  (wf, t) ∈ all_triggers "http" wfs -> (cw_Config wf, ct_Config t) ∈ triggers_in_order cfg /\ tc_Type (ct_Config t) = "http".
Proof.
  intros Hv Hin. destruct (trigger_config _ _ _ _ _ _ Hv Hin) as (wcfg & Hw & [_ [Hc _]%Compile_config] & Ht & Hty). split; [|done].
  unfold triggers_in_order. rewrite Hc. apply list_elem_of_In, in_flat_map. exists wcfg. split; [by apply list_elem_of_In|].
  apply list_elem_of_In, list_elem_of_fmap. by exists (ct_Config t).
Qed.

Lemma last_elem {A} (l : list A) x : x ∈ l -> exists y, last l = Some y /\ y ∈ l.
Proof.
  intros Hx. destruct (last l) as [y|] eqn:E; [|apply last_None in E as ->; by apply elem_of_nil in Hx].
  exists y. split; [done|]. apply last_Some in E as [l' ->]. apply elem_of_app. right. apply list_elem_of_here.
Qed.

Lemma last_endpoint_some cfg wf t : (wf, t) ∈ triggers_in_order cfg -> has_endpoint t = true -> exists wf' t',
  last_endpoint cfg (tc_Path t) = Some (wf', t') /\ (wf', t') ∈ triggers_in_order cfg /\ has_endpoint t' = true /\ tc_Path t' = tc_Path t.
Proof.
  intros Hin He. destruct (last_elem (List.filter (fun wt => has_endpoint wt.2 && bool_decide (tc_Path wt.2 = tc_Path t))
    (triggers_in_order cfg)) (wf, t)) as ([wf' t'] & Hl & Hy).
  { apply list_elem_of_In, filter_In. split; [by apply list_elem_of_In|]. cbn. by rewrite He, bool_decide_true. }
  apply list_elem_of_In, filter_In in Hy as [Hy [He' Hp%bool_decide_eq_true]%andb_true_iff].
  exists wf', t'. by apply list_elem_of_In in Hy.
Qed.

(** C28: The document of a started server describes every route of a workflow: its path is
    there, with the operation of a trigger of that path.  It is the trigger's own one
    when no other trigger has the path.  The document is what is answered, unless it
    cannot be encoded: the answer is then empty. *)
Theorem document_covers_routes cfg interactive now st server st'
    (Hnew : ServerInit.New cfg interactive now st = (Some (Ok server), st')) : exists paths,
  (exists doc, an_Body (openAPIHandler server) = (if encodable (AMap doc) then Document doc else Nothing) /\ doc !! "paths" = Some (AMap paths)) /\
  forall wf t, (wf, t) ∈ all_triggers "http" (se_workflows server) -> tc_Path (ct_Config t) <> "" ->
    exists wf' t', (wf', t') ∈ triggers_in_order cfg /\ tc_Type t' = "http" /\ tc_Path t' = tc_Path (ct_Config t) /\
      paths !! tc_Path (ct_Config t) = Some (AMap {[ doc_method t' := operation wf' t' (cf_Server cfg) ]}) /\
      ((forall wt, wt ∈ triggers_in_order cfg -> tc_Path wt.2 = tc_Path (ct_Config t) -> wt = (cw_Config wf, ct_Config t)) ->
       wf' = cw_Config wf /\ t' = ct_Config t).
Proof.
  apply New_Ok in Hnew as (m & log & _ & (mux & Hw & _ & _ & Hc)%build_Ok). apply init_workflows_Ok in Hw as [Hv _].
  exists (buildPaths cfg). split; [eexists; split; [reflexivity|by rewrite Hc]|]. intros wf t Hin Hp.
  destruct (trigger_in_order _ _ _ _ Hv Hin) as [Ho Hty].
  destruct (last_endpoint_some _ _ _ Ho) as (wf' & t' & Hl & Ho' & He & Hp'); [by apply bool_decide_eq_true|].
  exists wf', t'. apply bool_decide_eq_true in He as [Hty' _]. split_and!; [done..| |].
  - rewrite buildPaths_lookup, Hl. done.
  - intros Huniq. by injection (Huniq _ Ho' Hp') as -> ->.
Qed.

(** The built-in paths of the document are routes of the server. *)
Lemma builtin_paths_routed path : is_Some (builtin_paths !! path) -> exists h,
  ("", if decide (path = "/_/health/{dbname}") then "/_/health/" else path, h) ∈ internal_routes.
Proof.
  intros [v Hv%row_of_elem]. apply (list_elem_of_fmap_2 fst) in Hv. cbn in Hv.
  repeat (apply elem_of_cons in Hv as [-> |Hv]; [eexists; cbn; by repeat constructor|]). by apply elem_of_nil in Hv.
Qed.
End Running.

(** ** Evaluation at concrete inputs *)

Module Sample.
Import Executor.Sample Handler.Sample WfValidate.Sample ServerInit.Sample.
#[local] Existing Instances sample_lang sample_tables sample_walk sample_funcs sample_gotext sample_floats
  sample_templates sample_toint sample_platform sample_services sample_schedules sample_hmac sample_bucket
  sample_order TmplEngine.Sample.tiny_templates Db.Sample.sample_format Db.Sample.server
  Adapters.Sample.sample_size Adapters.Sample.any_store ascii_urls open_log Cache.Sample.no_cron.

Definition admin_request (method : string) (q : gmap string (list string)) : HttpRequest :=
  {| hq_Method := method; hq_Path := "/_/"; hq_RemoteAddr := ""; hq_Header := ∅; hq_Body := None; hq_RawQuery := ""; hq_Query := q; hq_PathValues := ∅; hq_Cookies := [] |}.

(** A level that is not one of the four is acknowledged as set, but means info. *)
Example unknown_level_accepted :
  (fun o => match o with
    | Some (Ok sv) =>
      let '(a, sv') := logLevelHandler (admin_request "POST" {[ "level" := ["verbose"] ]}) sv in
      Some (an_Status a, an_Body a, GetLevel (se_log sv'))
    | _ => None
    end) started.1 = Some (200, LogLevelSet "ok" "verbose", "info").
Proof. by vm_compute. Qed.

(** One request is let through the limiter, then the report is asked for. *)
Lemma administration_answers_witness : exists server st s a s',
  started = (Some (Ok server), st) /\ rtc runs server s /\
  administer RRateLimits (admin_request "GET" ∅) 0 s = Some (a, s').
Proof.
  assert (match started.1 with Some (Ok sv) => match se_rateLimiter sv with Some _ => true | None => false end | _ => false end = true)
    as Hok by (by vm_compute).
  destruct started as [[[sv|e]|] s1] eqn:E; [|discriminate Hok..]. cbn [fst] in Hok.
  destruct (se_rateLimiter sv) as [l|] eqn:El; [|discriminate Hok]. pose proof E as E'. unfold started in E.
  pose (s := with_limiter sv (Some (Allow (H1 := engine_keys (se_engine sv)) l [TmplEngine.Sample.by_pool]
    (TmplEngine.Sample.from "10.0.0.1") (fun _ _ => 0)).2)).
  assert (rtc runs sv s) as Hrun by (apply rtc_once; by apply runs_limits).
  destruct (administration_answers small true 0 (Db.Sample.start true) sv s1 s RRateLimits (admin_request "GET" ∅) 0)
    as (a & s' & Ha & _); [by vm_compute|exact E|exact Hrun|done|].
  exists sv, s1, s, a, s'. split; [reflexivity|]. split; [exact Hrun|exact Ha].
Defined.

Lemma document_covers_routes_witness : exists server st paths,
  started = (Some (Ok server), st) /\ all_triggers "http" (se_workflows server) <> [] /\
  buildPaths (se_config server) = paths /\ is_Some (paths !! "/users").
Proof.
  assert (match started.1 with
          | Some (Ok sv) => match all_triggers "http" (se_workflows sv) with
                            | wt :: _ => encodable (AMap (Openapi.Spec (se_config sv))) && bool_decide (tc_Path (ct_Config wt.2) = "/users") | [] => false end
          | _ => false end = true) as Hok by (by vm_compute).
  destruct started as [[[sv|e]|] s1] eqn:E; [|discriminate Hok..]. cbn [fst] in Hok.
  pose proof E as E'. unfold started in E'.
  destruct (document_covers_routes _ _ _ _ _ _ E') as (paths & (doc & Hd & Hp) & Hall).
  destruct (all_triggers "http" (se_workflows sv)) as [|[wf t] l] eqn:Et; [discriminate Hok|].
  apply andb_true_iff in Hok as [He Hok%bool_decide_eq_true]. cbn [snd] in Hok.
  unfold openAPIHandler in Hd. cbn [json an_Body] in Hd. rewrite He in Hd. destruct (encodable (AMap doc)); [|discriminate Hd].
  destruct (Hall wf t) as (wf' & t' & _ & _ & _ & Hpath & _); [apply list_elem_of_here|by rewrite Hok|].
  exists sv, s1, paths. split; [reflexivity|]. split; [by rewrite Et|].
  injection Hd as <-. injection Hp as <-. split; [reflexivity|]. rewrite Hok in Hpath. by eexists.
Defined.
End Sample.
