(* ===== verification/Cron.v ===== *)
(** * internal/server: cron jobs, start and shutdown (server.go)

    A job of the scheduler runs its workflow under [recover], with parameters that
    may name days.  [Start] starts what [New] prepared and [Shutdown] stops it in
    order.  The calendar of the local time zone, and the HTTP servers of net/http
    and the scheduler, are parameters. *)
From S2P Require Import Prelude GoStrings Patterns GoValues Trace Numbers PublicID Cache RateLimit WfConfig SqlParams Expr Compile Executor Handler WfValidate DbText Db Metrics Adapters TmplEngine ConfigLoad CfgValidate Mux Logging ServerInit Admin.

(** The calendar of the local time zone: [Year], [Month], [Day]; [time.Date] at
    midnight; [AddDate] in days. *)
Class LocalTime := {
  civil : Z -> Z * Z * Z;
  midnight_of : Z * Z * Z -> Z;
  AddDays : Z -> Z -> Z;
}.

(** ** Jobs *)

Section Jobs.
Context `{UnicodeTables, TL : TemplateLang, EL : ExprLang, MapWalk, ExprFuncs, FloatText, FloatToInt, GoText}.
Context {W : Type} {P : Platform W} {SV : Services} `{LocalTime}.

Abbreviation X := (M (St (W := W))).

Definition resolve_at (now : Z) (value : string) : any :=
  let lower := ToLower value in
  if decide (lower = "now") then ATime now
  else if decide (lower = "today") then ATime (midnight_of (civil now))
  else if decide (lower = "yesterday") then ATime (midnight_of (civil (AddDays now (-1))))
  else if decide (lower = "tomorrow") then ATime (midnight_of (civil (AddDays now 1)))
  else AStr value.

Definition resolveDynamicValue (value : string) : X any :=
  let* now := call time_Now in ret (resolve_at now value).

(** The parameters of the trigger, resolved one by one. *)
Fixpoint resolve_params (l : list (string * string)) (params : row) : X row :=
  match l with
  | [] => ret params
  | (k, v) :: l => let* a := resolveDynamicValue v in resolve_params l (<[k := a]> params)
  end.

(** [counter] is [fallbackIDCounter]. *)
Definition generateCronRequestID (counter : Z) : X (string * Z) :=
  let* b := call (rand_Read 8) in
  match b with
  | Some b => ret ("cron-" +:+ hex_EncodeToString b, counter)
  | None =>
    let counter := u64 (counter + 1) in
    let* now := call time_Now in
    ret ("cron-" +:+ hex_Z now +:+ "-" +:+ pretty counter, counter)
  end.

Inductive cron_end := CronPanic | CronFailed (e : error) (durationMs : Z) | CronCompleted (success : bool) (durationMs : Z).

Definition cron_trigger (t : CompiledTrigger) (now : Z) (params : row) : TriggerData :=
  {| td_Type := "cron"; td_Params := params; td_Headers := ∅; td_Cookies := ∅; td_ClientIP := "";
     td_Method := ""; td_Path := ""; td_ScheduleTime := now; td_CronExpr := tc_Schedule (ct_Config t) |}.

Definition job_end (r : ExecuteResult) : cron_end :=
  match er_Error r with
  | Some e => CronFailed e (er_DurationMs r)
  | None => CronCompleted (er_Success r) (er_DurationMs r)
  end.

(** The body of [executeWorkflowCron] under its deferred function. *)
Definition run_cron (cronCtx : gctx) (wf : CompiledWorkflow) (t : CompiledTrigger) (variables : option (gmap string string))
    (requestID : string) : X cron_end :=
  let* now := call time_Now in
  let* params := resolve_params (walk (tc_Params (ct_Config t))) ∅ in
  let* ctx := if decide (wc_TimeoutSec (cw_Config wf) > 0)
              then call (ctx_WithTimeout cronCtx (i64 (wc_TimeoutSec (cw_Config wf) * Second))) else ret cronCtx in
  let* r := Execute ctx wf (cron_trigger t now params) requestID variables in
  ret (job_end r).

(** How the run ended, the counter of request ids and the metrics. *)
Definition executeWorkflowCron (cronCtx : gctx) (wf : CompiledWorkflow) (t : CompiledTrigger)
    (variables : option (gmap string string)) (counter : Z) (mc : option Collector) : X (cron_end * Z * option Collector) :=
  let* idc := generateCronRequestID counter in
  fun s =>
    match run_cron cronCtx wf t variables idc.1 s with
    | (Some e, s') => (Some (e, idc.2, mc), s')
    | (None, s') => (Some (CronPanic, idc.2, RecordCronPanic mc (wc_Name (cw_Config wf))), s')
    end.

Lemma resolve_params_total l params : GoValues.total (resolve_params l params).
Proof.
  revert params. induction l as [|[k v] l IH]; intros params; cbn; [apply total_ret|].
  apply total_bind; [apply total_bind; [apply total_lift|intros; apply total_ret]|intros; apply IH].
Qed.

Lemma generateCronRequestID_total counter : GoValues.total (generateCronRequestID counter).
Proof.
  apply total_bind; [apply total_lift|intros [b|]; [apply total_ret|]].
  apply total_bind; [apply total_lift|intros; apply total_ret].
Qed.

(** Every parameter of the trigger reaches the workflow, as a time or as written. *)
Lemma resolve_params_keys l params s p s' : resolve_params l params s = (Some p, s') ->
  dom p = dom params ∪ list_to_set l.*1.
Proof.
  revert params s. induction l as [|[k v] l IH]; intros params s; cbn; [intros [= -> _]; by rewrite (right_id_L ∅ _)|].
  unfold bind at 1. destruct (resolveDynamicValue v s) as [[a|] s1]; [|done]. intros Hl. rewrite (IH _ _ Hl). cbn.
  rewrite dom_insert_L. rewrite (assoc_L (∪)), (comm_L (∪) {[k]}). done.
Qed.

(** The body of a job reaches the workflow, and ends as its run does. *)
Lemma run_cron_reaches ctx wf t variables id s : exists ctx' now params st1,
  dom params = dom (tc_Params (ct_Config t)) /\
  let '(o, s') := Execute ctx' wf (cron_trigger t now params) id variables st1 in
    run_cron ctx wf t variables id s = (job_end <$> o, s').
Proof.
  unfold run_cron. destruct (total_run (call time_Now) s) as (now & s1 & E1); [apply total_lift|].
  rewrite (run_bind _ _ _ _ _ E1). destruct (total_run (resolve_params (walk (tc_Params (ct_Config t))) ∅) s1) as (ps & s2 & E2);
    [apply resolve_params_total|]. rewrite (run_bind _ _ _ _ _ E2).
  match goal with |- context [bind ?m _ s2] => destruct (total_run m s2) as (c & s3 & E3) end.
  { case_decide; [apply total_lift|apply total_ret]. }
  rewrite (run_bind _ _ _ _ _ E3). exists c, now, ps, s3. split.
  - apply resolve_params_keys in E2. by rewrite E2, dom_empty_L, (left_id_L ∅ _), walk_keys.
  - unfold bind. by destruct (Execute c wf _ id variables s3) as [[r|] s4].
Qed.
End Jobs.

(** ** Jobs of a started server *)

Section Started.
Context `{UnicodeTables, TL : TemplateLang, EL : ExprLang, MapWalk, Schedules, Hmac, TextTemplate, FloatToInt}.
Context `{TokenBucket, UrlText, LogFiles}.
Context `{!Cache.JsonSize any, !Cache.AgeOrder, R : !Cache.Ristretto (option (Cache.Entry any))}.
Context {W : Type} {DB : SqlDB W} `{MySQLFormat}.
Context `{ExprFuncs, FloatText, GoText} {W2 : Type} {P : Platform W2} {SV : Services} `{LocalTime}.

Lemma started_jobs cfg interactive now s server s' : ServerInit.New cfg interactive now s = (Some (Ok server), s') ->
  Forall2 (validated (workflow_context cfg)) (cf_Workflows cfg) (se_workflows server) /\
  default [] (se_cron server) = all_triggers "cron" (se_workflows server).
Proof.
  intros (m & log & _ & (mux & Hw & _)%build_Ok)%New_Ok. apply init_workflows_Ok in Hw as Hv. destruct Hv as [Hv _].
  split; [done|]. unfold init_workflows in Hw. destruct (cf_Workflows cfg) as [|c cs]; [by injection Hw as <- <-|].
  apply cbind_Ok in Hw as (wfs & _ & Hw). apply cbind_Ok in Hw as (jobs & Hj & [= <- <-]).
  unfold addWorkflowCronJobs in Hj. destruct (all_triggers "cron" wfs) as [|wt l]; [by injection Hj as <-|].
  apply cbind_Ok in Hj as (js & Hj & [= <-]). cbn [default]. clear Hv. revert js Hj.
  generalize (wt :: l). intros l0. induction l0 as [|wt0 l0 IH]; intros js; cbn; [by intros [= <-]|].
  destruct (cron_ParseStandard _); [done|]. intros (r & Hr & [= <-])%cbind_Ok. f_equal. by apply IH.
Qed.

(** C8: the cron jobs of a started server.  The scheduler has exactly one job per cron
    trigger of the configuration, in the order of the configuration, and a job runs the
    workflow compiled from the configuration of its trigger.  Whatever the databases,
    servers, clock and cancellation do, a run of the job comes to a run of that
    workflow with a value for each parameter of the trigger and ends as it does.  The run of the
    workflow can only panic in a call of a database; then, and only then, the deferred
    recovery counts one panic of the workflow. *)
Theorem cron_jobs_run cfg interactive now s server s'
    (Hnew : ServerInit.New cfg interactive now s = (Some (Ok server), s')) :
  (fun wt => ct_Config wt.2) <$> default [] (se_cron server) = configured_triggers "cron" (cf_Workflows cfg) /\
  forall wf t, (wf, t) ∈ default [] (se_cron server) ->
    (exists wcfg, wcfg ∈ cf_Workflows cfg /\ ct_Config t ∈ wc_Triggers wcfg /\ Compile wcfg = Some (Ok wf)) /\
    forall ctx variables counter mc st, exists ctx' now params id st1 counter',
      dom params = dom (tc_Params (ct_Config t)) /\
      let '(o, st') := Execute ctx' wf (cron_trigger t now params) id variables st1 in
        (o = None -> db_panicked st') /\
        executeWorkflowCron ctx wf t variables counter mc st =
          match o with
          | Some r => (Some (job_end r, counter', mc), st')
          | None => (Some (CronPanic, counter', RecordCronPanic mc (wc_Name (cw_Config wf))), st')
          end.
Proof.
  destruct (started_jobs _ _ _ _ _ _ Hnew) as [Hv Hjobs]. rewrite Hjobs. split; [by eapply all_triggers_config|].
  intros wf t Hin. destruct (trigger_config _ _ _ _ _ _ Hv Hin) as (wcfg & Hw & [Hval Hc] & Ht & _).
  split; [by exists wcfg|]. intros ctx variables counter mc st.
  destruct (compiled_steps_ready _ _ Hc (valid_sources _ _ Hval)) as [Hr _]. unfold executeWorkflowCron.
  destruct (total_run (generateCronRequestID counter) st) as ([id c'] & st1 & Eg); [apply generateCronRequestID_total|].
  rewrite (run_bind _ _ _ _ _ Eg). cbn [fst snd].
  destruct (run_cron_reaches ctx wf t variables id st1) as (ctx' & now' & params & st2 & Hp & Hrun).
  exists ctx', now', params, id, st2, c'. split; [done|].
  pose proof (Execute_safe ctx' wf (cron_trigger t now' params) id variables Hr st2) as Hs.
  destruct (Execute ctx' wf _ id variables st2) as [o st3]. rewrite Hrun. split; [by intros ->; apply Hs|].
  by destruct o.
Qed.
End Started.

(** ** Start and shutdown *)

(** [http.Server] and the scheduler: [ListenAndServe], [Shutdown] of the main and of the
    debug server. *)
Class HttpServers (W : Type) := {
  ListenAndServe : string -> W -> error * W;
  main_Shutdown : W -> option error * W;
  debug_Shutdown : W -> option error * W;
}.

Inductive lifecycle :=
| StartScheduler (jobs : nat) | StartDebug (addr : string)
| CancelJobs | StopScheduler | StopHealthChecker | StopDebug | StopHTTP | CloseCache | CloseDatabases | CloseLog.

Section Shutdown.
Context `{UnicodeTables, TL : TemplateLang, EL : ExprLang, MapWalk, Schedules, Hmac, TextTemplate, FloatToInt}.
Context `{TokenBucket, UrlText, LogFiles, FloatText}.
Context `{!Cache.JsonSize any, !Cache.AgeOrder, R : !Cache.Ristretto (option (Cache.Entry any)), !Cache.Cron}.
Context {W : Type} {DB : SqlDB W} `{MySQLFormat, !HttpServers W}.

Abbreviation X := (M (Traced W event)).
Abbreviation Srv := (Server (W := W)).

Definition on_world {A} (op : W -> A * W) : X A :=
  lift (fun s => let '(a, w) := op (ds_world s) in (a, {| ds_world := w; ds_log := ds_log s |})).

(** [Start] returns when the main server does; the debug server runs beside it. *)
Definition Start (s : Srv) : X (error * list lifecycle) :=
  let* err := on_world (ListenAndServe (se_Addr s)) in
  ret (err, match se_cron s with Some jobs => [StartScheduler (List.length jobs)] | None => [] end ++
            match se_debug s with Some (addr, _) => [StartDebug addr] | None => [] end).

Definition with_databases (s : Srv) (m : gmap string (Driver (W := W))) : Srv :=
  {| se_log := se_log s; se_dbManager := m; se_dbHealthy := se_dbHealthy s; se_createdAt := se_createdAt s;
     se_config := se_config s; se_cache := se_cache s; se_ctxBuilder := se_ctxBuilder s; se_engine := se_engine s;
     se_rateLimiter := se_rateLimiter s; se_metrics := se_metrics s; se_workflows := se_workflows s;
     se_cron := se_cron s; se_mux := se_mux s; se_Addr := se_Addr s; se_WriteTimeout := se_WriteTimeout s;
     se_debug := se_debug s |}.

Definition stop_cron (s : Srv) : list lifecycle :=
  match se_cron s with Some _ => [CancelJobs; StopScheduler] | None => [] end.

Definition stop_debug (s : Srv) : X (list lifecycle) :=
  match se_debug s with
  | Some _ => let* _ := on_world debug_Shutdown in ret [StopDebug]
  | None => ret []
  end.

(** [Shutdown]: the error, the steps taken and the server afterwards.  The scheduler is
    waited for until the running jobs are done. *)
Definition Shutdown (s : Srv) : X (option error * list lifecycle * Srv) :=
  let* dbg := stop_debug s in
  let* err := on_world main_Shutdown in
  let first := stop_cron s ++ [StopHealthChecker] ++ dbg ++ [StopHTTP] in
  match err with
  | Some e => ret (Some e, first, s)
  | None =>
    let closing := match se_cache s with Some _ => [CloseCache] | None => [] end in
    let s := with_cache s (Cache.Close (se_cache s)) in
    let* r := Manager_Close (se_dbManager s) in
    let s := with_databases s r.2 in
    match r.1 with
    | Some e => ret (Some e, first ++ closing ++ [CloseDatabases], s)
    | None => ret (None, first ++ closing ++ [CloseDatabases; CloseLog], s)
    end
  end.

Lemma runs_databases (s s' : Srv) : runs s s' -> se_dbManager s' = se_dbManager s.
Proof.
  intros [s0 l limits ctx clk El|s0 c op Ec|s0 m|s0 h r now a s1 Ha]; try done.
  destruct h; cbn [administer] in Ha; try done.
  - injection Ha as Ha. unfold metricsJSONHandler in Ha. by destruct (GetSnapshot _ _ _) as [[snap|] m]; injection Ha as _ <-.
  - by injection Ha as _ <-.
  - by injection Ha as _ <-.
  - injection Ha as Ha. unfold logLevelHandler in Ha. by repeat case_decide; injection Ha as _ <-.
  - injection Ha as Ha. unfold cacheClearHandler in Ha. by repeat case_match; injection Ha as _ <-.
  - by apply bind_Some in Ha as (a' & _ & [= _ <-]).
  - injection Ha as Ha. unfold rateLimitsResetHandler in Ha. by repeat case_match; injection Ha as _ <-.
  - by injection Ha as _ <-.
Qed.

Lemma on_world_emits {A} (op : W -> A * W) : emits (on_world op) (fun r t => is_Some r /\ t = []).
Proof.
  intros s. exists []. unfold on_world, lift. destruct (op (ds_world s)) as [a w]. cbn.
  rewrite app_nil_r. split_and!; [done|by eexists|done].
Qed.

Lemma stop_debug_emits s : emits (stop_debug s) (fun r t => is_Some r /\ t = []).
Proof.
  unfold stop_debug. destruct (se_debug s); [|by apply emits_ret; split; [eexists|]].
  eapply emits_seq; [apply on_world_emits|by intros t [[] _]|]. intros a t [_ ->]. apply emits_ret.
  split; [by eexists|done].
Qed.

(** What a shutdown does to the pools of connected databases. *)
Lemma Shutdown_emits s : all_connected (se_dbManager s) -> emits (Shutdown s) (fun r t => exists err steps s',
  r = Some (err, steps, s') /\
  ((is_Some err /\ s' = s /\ t = []) \/
   (se_dbManager s' = ∅ /\ se_cache s' = Cache.Close (se_cache s) /\
    forall p, balance p t = - map_sum (holds p) (se_dbManager s)))).
Proof.
  intros Hc. unfold Shutdown. eapply emits_seq; [apply stop_debug_emits|by intros t [[] _]|]. intros dbg t [[d Hd] ->].
  eapply emits_seq; [apply on_world_emits|by intros t [[] _]|]. intros [e|] t [_ ->].
  - apply emits_ret. eexists _, _, _. split; [done|]. left. split_and!; [by eexists|done|done].
  - cbn [with_cache se_dbManager]. eapply emits_seq; [by apply Manager_Close_emits|by intros t [[? ?] _]|].
    intros r t [[e [= ->]] Hb]. cbn [fst snd]. destruct e; apply emits_ret; eexists _, _, _; (split; [done|]); right;
      (split_and!; [done..|]); intros p; by rewrite app_nil_r, Hb.
Qed.

Lemma NewManager_emits configs : NoDup (dc_Name <$> configs) -> emits (NewManager configs) (fun r t => exists x, r = Some x /\
  (forall m, x = Ok m -> all_connected m) /\ forall p, balance p t = manager_balance p x).
Proof.
  intros Hnd. eapply emits_weaken; [apply (connect_all_emits configs ∅ (map_Forall_empty _) Hnd); intros; apply lookup_empty|].
  intros r t (x & -> & Hok & Hb). exists x. split_and!; [done| |].
  - intros m Em. by apply Hok.
  - intros p. by rewrite <- Hb.
Qed.

Lemma New_databases cfg interactive now st server st1 : NoDup (dc_Name <$> cf_Databases cfg) ->
  ServerInit.New cfg interactive now st = (Some (Ok server), st1) -> exists t,
    ds_log st1 = ds_log st ++ t /\ all_connected (se_dbManager server) /\
    forall p, balance p t = map_sum (holds p) (se_dbManager server).
Proof.
  intros Hnd. destruct (NewManager_emits _ Hnd st) as (t & Ht & x & Hx & Hok & Hb). unfold ServerInit.New.
  destruct (Logging.Init _ _ _ _ _ _) as [[e|] log]; [done|]. unfold bind.
  destruct (NewManager _ st) as [r s1]. cbn in Ht, Hx. subst r. destruct x as [m|e]; [|done].
  destruct (build cfg m log now) as [[sv|e]|] eqn:Eb; try done. intros [= <- <-].
  assert (se_dbManager sv = m) as Em.
  { unfold build in Eb. do 3 apply cbind_Ok in Eb as (? & _ & Eb). apply cbind_Ok in Eb as ([wfs jobs] & _ & Eb).
    destruct (setupRoutes cfg wfs) as [mux|]; [|done]. destruct (setup_debug cfg mux) as [[mux' debug]|]; [|done].
    by injection Eb as <-. }
  exists t. rewrite Em. split_and!; [done|by apply Hok|done].
Qed.

(** the databases over the life of a server.  For a server started from a
    configuration that passes validation and used in any way that does not reconnect
    databases, [Shutdown] does not panic, and either every pool that [New] opened has
    been closed by then and none is left, or the HTTP server could not be shut down
    and everything, the pools included, is left as it was with an error. *)
Theorem pools_closed_at_shutdown cfg interactive now st server st1 s
    (Hvalid : no_errors (format_issues cfg))
    (Hnew : ServerInit.New cfg interactive now st = (Some (Ok server), st1)) (Hrun : rtc runs server s) :
  exists err steps s' t, (Shutdown s st1).1 = Some (err, steps, s') /\
    ds_log (Shutdown s st1).2 = ds_log st ++ t /\
    ((is_Some err /\ s' = s /\ forall p, balance p t = map_sum (holds p) (se_dbManager s)) \/
     (se_dbManager s' = ∅ /\ se_cache s' = Cache.Close (se_cache s) /\ forall p, balance p t = 0)).
Proof.
  apply format_accepted in Hvalid as Hacc.
  destruct (New_databases _ _ _ _ _ _ (ac_names _ Hacc) Hnew) as (t1 & Hl1 & Hc & Hb1).
  assert (se_dbManager s = se_dbManager server) as Em.
  { clear -Hrun. induction Hrun as [|? ? ? Hr _ IH]; [done|]. by rewrite IH, (runs_databases _ _ Hr). }
  rewrite <- Em in Hc, Hb1. destruct (Shutdown_emits s Hc st1) as (t2 & Hl2 & err & steps & s' & Hs & Hcase).
  exists err, steps, s', (t1 ++ t2). split_and!; [done|by rewrite Hl2, Hl1, (assoc_L (++))|].
  destruct Hcase as [(He & -> & ->)|(Hm & Hk & Hb2)]; [left|right]; split_and!; try done; intros p.
  - by rewrite app_nil_r, Hb1.
  - rewrite balance_app, Hb1, Hb2. lia.
Qed.
End Shutdown.

(** ** Evaluation at concrete inputs *)

Module Sample.
Import Executor.Sample Handler.Sample WfValidate.Sample ServerInit.Sample.
#[local] Existing Instances sample_lang sample_tables sample_walk sample_funcs sample_gotext sample_floats
  sample_templates sample_toint sample_platform sample_services sample_schedules sample_hmac sample_bucket
  sample_order TmplEngine.Sample.tiny_templates Db.Sample.sample_format Db.Sample.server
  Adapters.Sample.sample_size Adapters.Sample.any_store ascii_urls open_log Cache.Sample.no_cron.

(** Days of 24 hours from 1970, in UTC. *)
Definition day : Z := 24 * 60 * 60 * RateLimit.Second.
#[local] Instance utc_days : LocalTime :=
  {| civil := fun t => (0, 0, t / day); midnight_of := fun d => d.2 * day; AddDays := fun t n => t + n * day |}.
#[local] Instance quiet_servers : HttpServers bool :=
  {| ListenAndServe := fun _ w => (Errorf "http: Server closed", w); main_Shutdown := fun w => (None, w);
     debug_Shutdown := fun w => (None, w) |}.

Definition nightly : WorkflowConfig :=
  {| wc_Name := "nightly"; wc_TimeoutSec := 0; wc_Conditions := ∅;
     wc_Triggers := [{| tc_Type := "cron"; tc_Path := ""; tc_Method := ""; tc_Parameters := []; tc_RateLimit := [];
                        tc_Cache := None; tc_Schedule := "0 3 * * *"; tc_Params := {[ "day" := "Yesterday" ]} |}];
     wc_Steps := [query_a] |}.

Definition scheduled : Config := config_with [nightly].
Definition running : option (result (Server (W := bool))) * DSt := ServerInit.New scheduled true 0 (Db.Sample.start true).

Example days : (fun v => resolve_at (3 * day + 7) v) <$> ["NOW"; "today"; "yesterday"; "Tomorrow"; "2024"] =
  [ATime (3 * day + 7); ATime (3 * day); ATime (2 * day); ATime (4 * day); AStr "2024"].
Proof. by vm_compute. Qed.

(** The job of the only cron trigger is run once, without a response writer. *)
Definition the_job : option (CompiledWorkflow * CompiledTrigger) :=
  match running.1 with Some (Ok sv) => head (default [] (se_cron sv)) | _ => None end.

Lemma cron_jobs_run_witness : exists wt e counter' mc st', the_job = Some wt /\
  executeWorkflowCron background wt.1 wt.2 None 0 None {| st_world := st_world Executor.Sample.start; st_rw := None |}
    = (Some (e, counter', mc), st') /\ e <> CronPanic.
Proof.
  assert (match the_job with Some wt =>
    match executeWorkflowCron background wt.1 wt.2 None 0 None {| st_world := st_world Executor.Sample.start; st_rw := None |} with
    | (Some (CronPanic, _, _), _) | (None, _) => false
    | _ => true
    end | None => false end = true) as Hok by (by vm_compute). unfold the_job in *.
  destruct running as [[[sv|e]|] s1] eqn:E; [|discriminate Hok..]. cbn [fst] in *. unfold running in E.
  destruct (cron_jobs_run scheduled true 0 (Db.Sample.start true) sv s1 E) as [_ Hj].
  destruct (default [] (se_cron sv)) as [|[wf t] l] eqn:El; [discriminate Hok|]. cbn [head] in *.
  destruct (Hj wf t (list_elem_of_here _ _)) as [_ Hrun].
  destruct (Hrun background None 0 None {| st_world := st_world Executor.Sample.start; st_rw := None |})
    as (ctx' & n & ps & id & st1 & c' & _ & Hx). destruct (Execute ctx' wf _ id None st1) as [[r|] st'];
    destruct Hx as [_ Hx]; cbn [fst snd] in *; rewrite Hx in *; [|discriminate Hok].
  exists (wf, t), (job_end r), c', None, st'. split; [reflexivity|]. cbn [fst snd]. split; [exact Hx|].
  unfold job_end. by destruct (er_Error r).
Defined.

Lemma pools_closed_at_shutdown_witness : exists server st1 err steps s',
  running = (Some (Ok server), st1) /\ (Shutdown server st1).1 = Some (err, steps, s').
Proof.
  assert (match running.1 with Some (Ok sv) => true | _ => false end = true) as Hok by (by vm_compute).
  destruct running as [[[sv|e]|] s1] eqn:E; [|discriminate Hok..]. unfold running in E.
  destruct (pools_closed_at_shutdown scheduled true 0 (Db.Sample.start true) sv s1 sv) as (err & steps & s' & t & Hs & _);
    [by vm_compute|exact E|apply rtc_refl|].
  exists sv, s1, err, steps, s'. split; [reflexivity|exact Hs].
Defined.

(** A start that fails after the databases are connected leaves their pools open. *)
Example failed_start_leaks :
  let '(r, st) := ServerInit.New (config_with [workflow_at "a" "GET" "/users" []; workflow_at "b" "GET" "/users" []]) true 0
    (Db.Sample.start true) in
  (is_ok <$> r, existsb (fun ev => match ev with EClose _ => true | _ => false end) (ds_log st)) = (Some false, false) /\
  ds_log st <> [].
Proof. by vm_compute. Qed.
End Sample.
