(* ===== verification/TmplFuncs.v ===== *)
(** * internal/tmpl: the template functions on values and texts (engine.go)

    The functions a template or an expression can call on data: lookups with a
    fallback, collections, maps, navigation, strings and dates.  A nil map is [None]
    where the code tells it from an empty one; [None] as the result of a function
    that slices a string is the panic of the slice expression.  Reflection sees the
    slices and maps of [any]; a value of any other type is neither.  Numbers are in
    [TmplNum], identifiers and addresses in [TmplIds]. *)
From S2P Require Import Prelude GoStrings Utf8 GoValues Numbers RateLimit WfConfig SqlParams Executor TmplEngine ConfigLoad.
From Stdlib Require Import SpecFloat.

(** ** Keys that must, may or do exist *)

Definition requireFunc `{UnicodeTables} (m : option (gmap string string)) (key : string) : result string :=
  match m with
  | None => Err (Errorf ("required key " +:+ Quote key +:+ ": nil map"))
  | Some m =>
    match m !! key with
    | None => Err (Errorf ("required key " +:+ Quote key +:+ " not found"))
    | Some v => if decide (v = "") then Err (Errorf ("required key " +:+ Quote key +:+ " is empty")) else Ok v
    end
  end.

Definition getOrFunc (m : option (gmap string string)) (key fallback : string) : string :=
  match m with
  | None => fallback
  | Some m => match m !! key with
              | Some v => if decide (v <> "") then v else fallback
              | None => fallback
              end
  end.

Definition hasFunc (m : option (gmap string string)) (key : string) : bool :=
  match m with
  | None => false
  | Some m => match m !! key with Some v => bool_decide (v <> "") | None => false end
  end.

(** [v == 0] on a float: either zero, and no NaN. *)
Definition float_is_zero (f : spec_float) : bool := match f with S754_zero _ => true | _ => false end.

Definition defaultFunc (def val : any) : any :=
  match val with
  | ANil => def
  | AStr v => if decide (v = "") then def else val
  | AInt v | AInt64 v => if decide (v = 0) then def else val
  | AFloat v => if float_is_zero v then def else val
  | _ => val
  end.

Fixpoint coalesceFunc (vals : list string) : string :=
  match vals with
  | [] => ""
  | v :: vals => if decide (v <> "") then v else coalesceFunc vals
  end.

Fixpoint andFunc (args : list bool) : bool :=
  match args with [] => true | a :: args => if negb a then false else andFunc args end.

Fixpoint orFunc (args : list bool) : bool :=
  match args with [] => false | a :: args => if a then true else orFunc args end.

(** The headers a template has: maps of the context, or a header itself. *)
Inductive header_arg := HeaderMap (v : any) | HeaderOf (h : Header).

Definition string_entry (v : any) (key : string) : option string :=
  match v with
  | AStrMap m => s ← m !! key; if decide (s <> "") then Some s else None
  | AMap m => match m !! key with
              | Some (AStr s) => if decide (s <> "") then Some s else None
              | _ => None
              end
  | _ => None
  end.

Definition headerFunc (headers : header_arg) (name : string) (defaultVal : list string) : string :=
  let def := default "" (head defaultVal) in
  match headers with
  | HeaderMap v => default def (string_entry v (CanonicalHeaderKey name))
  | HeaderOf h => let v := header_Get h name in if decide (v <> "") then v else def
  end.

Definition cookieFunc (cookies : any) (name : string) (defaultVal : list string) : string :=
  default (default "" (head defaultVal)) (string_entry cookies name).

(** ** Collections *)

(** The elements of a slice. *)
Definition elems (v : any) : option (list any) :=
  match v with
  | AList l => Some l
  | ARows l => Some (AMap <$> l)
  | AStrs l => Some (AStr <$> l)
  | _ => None
  end.

(** The size of a map. *)
Definition entries (v : any) : option nat :=
  match v with AMap m => Some (size m) | AStrMap m => Some (size m) | _ => None end.

Definition firstFunc (arr : any) : any := default ANil (l ← elems arr; head l).
Definition lastFunc (arr : any) : any := default ANil (l ← elems arr; last l).

Definition lenFunc (v : any) : nat :=
  match elems v, entries v, v with
  | Some l, _, _ => List.length l
  | _, Some n, _ => n
  | _, _, AStr s => String.length s
  | _, _, _ => 0%nat
  end.

Definition pluckFunc (arr : any) (field : string) : option (list any) :=
  (fun l : list any => omap (fun e => match e with AMap m => m !! field | _ => None end) l) <$> elems arr.

Definition isEmptyFunc (v : any) : bool :=
  match elems v, entries v, v with
  | Some l, _, _ => Nat.eqb (List.length l) 0
  | _, Some n, _ => Nat.eqb n 0
  | _, _, ANil => true
  | _, _, AStr s => Nat.eqb (String.length s) 0
  | _, _, ABool b => negb b
  | _, _, (AInt z | AInt64 z) => bool_decide (z = 0)
  | _, _, AFloat f => float_is_zero f
  | _, _, _ => false
  end.

Definition boolFunc (v : any) : bool :=
  match v with
  | ANil => false
  | ABool b => b
  | AStr s => bool_decide (s ∉ [""; "0"; "false"; "False"; "FALSE"])
  | AInt z | AInt64 z => bool_decide (z <> 0)
  | AFloat f => negb (float_is_zero f)
  | _ => true
  end.

Definition typeOfFunc (v : any) : string := match v with ANil => "nil" | _ => type_name v end.

(** The keys of a map in the order of [MapKeys]. *)
Definition map_keys `{MapWalk} (v : any) : option (list string) :=
  match v with AMap m => Some (walk m).*1 | AStrMap m => Some (walk m).*1 | _ => None end.

Definition map_index (v : any) (key : string) : any :=
  match v with
  | AMap m => default ANil (m !! key)
  | AStrMap m => default ANil (AStr <$> m !! key)
  | _ => ANil
  end.

Definition keysFunc `{MapWalk} (m : any) : option (list string) := sort_Strings <$> map_keys m.

Definition valuesFunc `{MapWalk} (m : any) : option (list any) :=
  (fun keys => map_index m <$> sort_Strings keys) <$> map_keys m.

(** ** Maps *)

Definition pickFunc (m : option row) (keys : list string) : row :=
  match m with None => ∅ | Some m => filter (fun kv => kv.1 ∈ keys) m end.

Definition omitFunc (m : option row) (keys : list string) : row :=
  match m with None => ∅ | Some m => filter (fun kv => kv.1 ∉ keys) m end.

(** The entries of the later maps overwrite. *)
Definition mergeFunc (maps : list (option row)) : row := foldl (fun result m => default ∅ m ∪ result) ∅ maps.

Definition ternaryFunc (condition : bool) (trueVal falseVal : any) : any := if condition then trueVal else falseVal.
Definition whenFunc (condition : bool) (value : any) : any := if condition then value else AStr "".

(** ** Navigation *)

Section Dig.
Context `{FloatToInt}.

Definition toInt (v : any) : option Z :=
  match v with
  | AInt n | AInt64 n => Some n
  | AFloat n => Some (float_to_int n)
  | AStr n => Atoi n
  | _ => None
  end.

(** The element at an index within bounds. *)
Definition at_index (l : list any) (key : any) : any :=
  match toInt key with
  | Some i => if decide (0 <= i /\ i < Z.of_nat (List.length l)) then default ANil (l !! Z.to_nat i) else ANil
  | None => ANil
  end.

(** One turn of the loop, on a value that is not nil. *)
Definition dig_step (current key : any) : any :=
  match current with
  | AMap m => match key with AStr k => default ANil (m !! k) | _ => ANil end
  | AStrMap m => match key with AStr k => default ANil (AStr <$> m !! k) | _ => ANil end
  | _ => match elems current with Some l => at_index l key | None => ANil end
  end.

Fixpoint digFunc (data : any) (path : list any) : any :=
  match path with
  | [] => data
  | key :: path => match data with ANil => ANil | _ => digFunc (dig_step data key) path end
  end.
End Dig.

(** ** Strings *)

(** A slice [l[i:j]] of runes; the bounds must be in order and within it. *)
Definition rune_slice (l : list N) (i j : Z) : option string :=
  if decide (0 <= i /\ i <= j /\ j <= Z.of_nat (List.length l))
  then Some (cat (encode_rune <$> take (Z.to_nat (j - i)) (drop (Z.to_nat i) l))) else None.

Definition truncateFunc (s : string) (maxLen : Z) (suffix : list string) : option string :=
  let rs := runes s in
  if decide (Z.of_nat (List.length rs) <= maxLen) then Some s
  else
    let sfx := default "..." (head suffix) in
    let n := Z.of_nat (List.length (runes sfx)) in
    if decide (maxLen <= n) then rune_slice rs 0 maxLen
    else (fun t => t +:+ sfx) <$> rune_slice rs 0 (maxLen - n).

(** [start + length] is computed in an [int]. *)
Definition substrFunc (s : string) (start : Z) (length : list Z) : option string :=
  let rs := runes s in
  let n := Z.of_nat (List.length rs) in
  let start := if decide (start < 0) then n + start else start in
  let start := if decide (start < 0) then 0 else start in
  if decide (start >= n) then Some ""
  else
    let stop :=
      match length with
      | l :: _ => if decide (l >= 0) then (let e := i64 (start + l) in if decide (e > n) then n else e) else n
      | [] => n
      end in
    rune_slice rs start stop.

(** [strings.Split]; an empty separator gives the characters. *)
Fixpoint split_fuel (fuel : nat) (s sep : string) : list string :=
  match fuel with
  | O => [s]
  | S fuel =>
    match Index s sep with
    | Some i => str_take i s :: split_fuel fuel (str_drop (i + String.length sep) s) sep
    | None => [s]
    end
  end.

Definition Split (s sep : string) : list string :=
  if decide (sep = "") then (chunks s).*2 else split_fuel (String.length s) s sep.

Definition splitFunc (sep s : string) : list string := Split s sep.

Section Text.
Context `{GoText, FloatToInt}.

Definition stringFunc (v : any) : string := match v with ANil => "" | _ => Sprint_v v end.

Definition joinFunc (sep : string) (arr : any) : string :=
  match elems arr with None => Sprint_v arr | Some l => Join (Sprint_v <$> l) sep end.

Definition jsonFunc (v : any) : string :=
  match json_Marshal v with Ok b => b | Err e => "[json error: " +:+ Error e +:+ "]" end.

(** [json.MarshalIndent] with two blanks is a parameter, as is [json.Marshal]. *)
Definition jsonIndentFunc (json_MarshalIndent : any -> result string) (v : any) : string :=
  match json_MarshalIndent v with Ok b => b | Err e => "[json error: " +:+ Error e +:+ "]" end.

(** The padding character is the first byte of [padChar]. *)
Definition pad_with (s : string) (width : Z) (c : ascii) : string :=
  Nat.iter (Z.to_nat (width - Z.of_nat (String.length s))) (String c) s.

Definition padFunc (v : any) (width : Z) (padChar : string) : string :=
  pad_with (Sprint_v v) width (match padChar with String c _ => c | EmptyString => " "%char end).

(** ** Dates *)

(** [strings.ReplaceAll] for a text that is not empty. *)
Definition literal_at (old s : string) : option (string * unit * string) :=
  if HasPrefix s old then Some (old, tt, TrimPrefix s old) else None.

Definition ReplaceAll (s old new : string) : string := replace_all (literal_at old) (fun _ _ => new) s.

Definition time_tokens : list (string * string) := [
  ("YYYY", "2006"); ("YY", "06"); ("SSS", "000"); ("MM", "01"); ("DD", "02"); ("HH", "15"); ("mm", "04"); ("ss", "05")].

Definition convertTimeFormat (format : string) : string :=
  foldl (fun result r => ReplaceAll result r.1 r.2) format time_tokens.

Definition RFC3339 : string := "2006-01-02T15:04:05Z07:00".

Definition layout (format : list string) : string :=
  match format with f :: _ => convertTimeFormat f | [] => RFC3339 end.

(** [t.UTC().Format(layout)] *)
Context (time_Format : Z -> string -> string).

Definition nowFunc (now : Z) (format : list string) : string := time_Format now (layout format).

Definition formatTimeFunc (t : any) (format : string) : string :=
  let at_ tm := time_Format tm (convertTimeFormat format) in
  match t with
  | ATime v => at_ v
  | AStr v => match time_Parse RFC3339 v with Ok tm => at_ tm | Err _ => v end
  | AInt v | AInt64 v => at_ (v * RateLimit.Second)
  | AFloat v => at_ (float_to_int v * RateLimit.Second)
  | _ => Sprint_v t
  end.

Definition parseTimeOrFunc (s : string) (defaultVal : Z) (format : list string) : Z :=
  match time_Parse (layout format) s with Ok t => Unix t | Err _ => defaultVal end.

Definition parseTimeFunc (s : string) (format : list string) : Z :=
  match time_Parse (layout format) s with Ok t => Unix t | Err _ => 0 end.

Definition unixTimeFunc (now : Z) : Z := Unix now.
End Text.

(** ** Lookups agree *)

(** [has] is true exactly if [require] succeeds, and [getOr] gives the value of
    [require] or its fallback; [cookie] looks a string map up like [getOr]. *)
Lemma lookup_functions_agree `{UnicodeTables} m key fallback :
  hasFunc m key = is_ok (requireFunc m key) /\
  getOrFunc m key fallback = match requireFunc m key with Ok v => v | Err _ => fallback end /\
  forall m', m = Some m' -> cookieFunc (AStrMap m') key [fallback] = getOrFunc m key fallback.
Proof.
  unfold hasFunc, getOrFunc, requireFunc, cookieFunc. destruct m as [m|]; [|done].
  split_and!; [..|intros m' [= <-]; cbn]; destruct (m !! key) as [v|]; cbn; repeat case_decide; subst; try done;
    by rewrite ?bool_decide_true, ?bool_decide_false by naive_solver.
Qed.

(** ** Maps *)

Lemma merge_last maps m k : mergeFunc (maps ++ [m]) !! k =
  match (default ∅ m : row) !! k with Some v => Some v | None => mergeFunc maps !! k end.
Proof. unfold mergeFunc. rewrite foldl_app. cbn. rewrite lookup_union. by destruct (_ !! k), (_ !! k). Qed.

(** [pick] and [omit] split a map by a set of keys, and [merge] puts it together in
    either order; in a merge the last map with a key gives its value. *)
Theorem pick_omit_merge (m : option row) keys :
  pickFunc m keys ##ₘ omitFunc m keys /\
  (forall k, is_Some (pickFunc m keys !! k) <-> is_Some ((default ∅ m : row) !! k) /\ k ∈ keys) /\
  mergeFunc [Some (pickFunc m keys); Some (omitFunc m keys)] = default ∅ m /\
  mergeFunc [Some (omitFunc m keys); Some (pickFunc m keys)] = default ∅ m.
Proof.
  destruct m as [m|]; cbn; [|split_and!; first [done|apply map_disjoint_empty_l|by intros k; split; [intros []|intros [[] _]]]].
  pose proof (map_disjoint_filter_complement (fun kv : string * any => kv.1 ∈ keys) m) as Hd.
  pose proof (map_filter_union_complement (fun kv : string * any => kv.1 ∈ keys) m) as Hu.
  split_and!; [exact Hd| | |].
  - intros k. split.
    + intros [v (Hv & Hk)%map_lookup_filter_Some]. split; [by eexists|done].
    + intros [[v Hv] Hk]. exists v. by apply map_lookup_filter_Some.
  - rewrite (right_id_L ∅ (∪)), map_union_comm by done. exact Hu.
  - rewrite (right_id_L ∅ (∪)). exact Hu.
Qed.

Lemma str_le_anti : AntiSymm eq str_le.
Proof. intros a b. apply String.leb_antisym. Qed.

Lemma sort_Strings_unique l1 l2 : l1 ≡ₚ l2 -> sort_Strings l1 = sort_Strings l2.
Proof.
  intros Hp. pose proof str_le_trans. pose proof str_le_anti. apply (StronglySorted_unique str_le).
  - apply sort_Strings_sorted.
  - apply sort_Strings_sorted.
  - by rewrite !sort_Strings_perm.
Qed.

(** [keys] and [values] of a map correspond, in the order of the keys, and do not
    depend on the order in which Go walks the map. *)
Theorem keys_values_spec (m : row) (w1 w2 : MapWalk) : exists keys values,
  @keysFunc w1 (AMap m) = Some keys /\ @valuesFunc w1 (AMap m) = Some values /\
  @keysFunc w2 (AMap m) = Some keys /\ @valuesFunc w2 (AMap m) = Some values /\
  StronglySorted str_le keys /\ NoDup keys /\
  list_to_map (zip keys values) = m /\ List.length keys = size m.
Proof.
  set (ks := sort_Strings (@walk w1 _ m).*1). exists ks, (map_index (AMap m) <$> ks).
  assert ((@walk w1 _ m).*1 ≡ₚ (@walk w2 _ m).*1) as Hp.
  { apply fmap_Permutation. rewrite (@walk_perm w1), (@walk_perm w2). done. }
  assert (NoDup ks) as Hnd by (subst ks; rewrite sort_Strings_perm; apply walk_NoDup).
  assert (forall k, k ∈ ks <-> is_Some (m !! k)) as Hin.
  { intros k. subst ks. rewrite sort_Strings_perm, list_elem_of_fmap. split.
    - intros ([k' v] & -> & Hw%walk_elem). by eexists.
    - intros [v Hv]. exists (k, v). split; [done|by apply walk_elem]. }
  unfold keysFunc, valuesFunc, map_keys. split_and!; try done.
  - cbn. f_equal. symmetry. by apply sort_Strings_unique.
  - cbn. f_equal. f_equal. symmetry. by apply sort_Strings_unique.
  - apply sort_Strings_sorted.
  - apply map_eq. intros k. apply option_eq. intros v.
    rewrite <- elem_of_list_to_map by (rewrite fst_zip; [done|by rewrite length_fmap]).
    assert (zip ks (map_index (AMap m) <$> ks) = (fun k => (k, map_index (AMap m) k)) <$> ks) as ->.
    { clear. induction ks; [done|]. cbn. by f_equal. }
    rewrite list_elem_of_fmap. split.
    + intros (k' & [= <- ->] & Hk). apply Hin in Hk as [v Hv]. cbn. by rewrite Hv.
    + intros Hv. exists k. split; [|apply Hin; by eexists]. cbn. by rewrite Hv.
  - rewrite <- (length_fmap (fun k => (k, ())) ks). subst ks. rewrite length_fmap.
    rewrite (Permutation_length (sort_Strings_perm _)), length_fmap, (Permutation_length (walk_perm m)). apply length_map_to_list.
Qed.

(** ** Navigation *)

Section DigSpec.
Context `{FloatToInt}.

Lemma dig_nil path : digFunc ANil path = ANil.
Proof. by destruct path. Qed.

Lemma dig_step_nil key : dig_step ANil key = ANil.
Proof. done. Qed.

Lemma dig_cons data key path : digFunc data (key :: path) = digFunc (dig_step data key) path.
Proof. destruct data; try done. by rewrite dig_step_nil, !dig_nil. Qed.

(** What a key leads to: an entry of a map, or the element at an index, which may be
    written as a number or as its decimal text. *)
Inductive leads : any -> any -> any -> Prop :=
| leads_map m k v : m !! k = Some v -> leads (AMap m) (AStr k) v
| leads_str_map m k v : m !! k = Some v -> leads (AStrMap m) (AStr k) (AStr v)
| leads_elem c l key i v : elems c = Some l -> toInt key = Some i -> 0 <= i -> l !! Z.to_nat i = Some v -> leads c key v.

Inductive follows : any -> list any -> any -> Prop :=
| follows_nil v : follows v [] v
| follows_cons data key v path v' : leads data key v -> follows v path v' -> follows data (key :: path) v'.

Lemma dig_step_spec c key v : v <> ANil -> dig_step c key = v <-> leads c key v.
Proof.
  intros Hv. split.
  - intros E. assert (forall l, elems c = Some l -> at_index l key = v -> leads c key v) as Hel.
    { intros l El Ha. unfold at_index in Ha. destruct (toInt key) as [i|] eqn:Ei; [|congruence].
      destruct (decide (0 <= i /\ i < Z.of_nat (List.length l))) as [[H0 Hl]|]; [|congruence].
      destruct (l !! Z.to_nat i) as [x|] eqn:Ex; cbn in Ha; [|congruence]. subst x. by eapply leads_elem. }
    destruct c; cbn in E, Hel; try congruence; try by eapply Hel.
    + destruct key; try congruence. destruct (m !! s) as [x|] eqn:Ex; cbn in E; [|congruence]. subst x. by constructor.
    + destruct key; try congruence. destruct (m !! s) as [x|] eqn:Ex; cbn in E; [|congruence]. subst v. by constructor.
  - intros [m k x Hx|m k x Hx|c' l key' i x El Ei Hi Hx]; cbn; [by rewrite Hx..|].
    assert (at_index l key' = x) as <-.
    { unfold at_index. rewrite Ei, decide_True; [by rewrite Hx|]. apply lookup_lt_Some in Hx. lia. }
    destruct c'; cbn in El; try done; by injection El as <-.
Qed.

(** [dig] finds a value exactly if the path leads to it; it never fails, and what is
    not there is nil. *)
Theorem dig_spec data path v : v <> ANil -> digFunc data path = v <-> follows data path v.
Proof.
  intros Hv. revert data. induction path as [|key path IH]; intros data.
  - cbn. split; [intros ->; constructor|by inversion 1].
  - rewrite dig_cons. split.
    + intros E. assert (dig_step data key <> ANil) as Hn by (intros En; by rewrite En, dig_nil in E).
      apply (follows_cons _ _ (dig_step data key)); [by apply dig_step_spec|by apply IH].
    + inversion 1 as [|? ? v1 ? ? Hl Hf]; subst. apply IH.
      assert (v1 = ANil \/ v1 <> ANil) as [->|Hn] by (destruct v1; (by left) || (by right)).
      * exfalso. inversion Hf as [|? ? ? ? ? Hl2]; subst; [done|]. inversion Hl2; subst; done.
      * apply dig_step_spec in Hl; [by rewrite Hl|done].
Qed.
End DigSpec.

(** ** Splitting and joining *)

Lemma foldl_join sep p s l : foldl (fun acc x => acc +:+ sep +:+ x) (p +:+ s) l = p +:+ foldl (fun acc x => acc +:+ sep +:+ x) s l.
Proof. revert s. induction l as [|x l IH]; intros s; [done|]. cbn [foldl]. by rewrite <- app_str_assoc, IH. Qed.

Lemma Join_cons sep x l : l <> [] -> Join (x :: l) sep = x +:+ sep +:+ Join l sep.
Proof. destruct l as [|y l]; [done|]. intros _. unfold Join. cbn [foldl]. by rewrite foldl_join, (foldl_join sep sep y). Qed.

Lemma split_fuel_nonempty n s sep : split_fuel n s sep <> [].
Proof. destruct n; cbn; [done|]. by destruct (Index s sep). Qed.

Lemma Join_empty_sep l : Join l "" = cat l.
Proof.
  induction l as [|x [|y l] IH]; [done|cbn; by rewrite app_str_nil_r|]. rewrite Join_cons by done. by rewrite IH.
Qed.

Lemma Join_split n s sep : Join (split_fuel n s sep) sep = s.
Proof.
  revert s. induction n as [|n IH]; intros s; [done|]. cbn [split_fuel]. destruct (Index s sep) as [i|] eqn:E; [|done].
  rewrite Join_cons by apply split_fuel_nonempty. rewrite IH. apply Index_Some in E as (pre & post & -> & <-).
  rewrite str_take_app, (app_str_assoc pre sep post), <- length_app_str, str_drop_app. by rewrite app_str_assoc.
Qed.

(** No part contains the separator: the split is complete. *)
Lemma split_parts n s sep : sep <> "" -> (String.length s <= n)%nat ->
  Forall (fun part => Contains part sep = false) (split_fuel n s sep).
Proof.
  intros Hsep. revert s. induction n as [|n IH]; intros s Hn.
  - destruct s; [|simpl in Hn; lia]. constructor; [|constructor]. unfold Contains. by destruct sep.
  - cbn [split_fuel]. destruct (Index s sep) as [i|] eqn:E.
    + pose proof E as E'. apply Index_Some in E' as (pre & post & -> & <-). rewrite str_take_app.
      rewrite (app_str_assoc pre sep post), <- length_app_str, str_drop_app. constructor.
      * destruct (Contains pre sep) eqn:Ec; [|done]. apply Contains_spec in Ec as (a & b & ->). exfalso.
        rewrite <- !app_str_assoc in E. apply (Index_first _ _ _ a (b +:+ sep +:+ post)) in E; [|done].
        rewrite !length_app_str in E. destruct sep; [done|]. simpl in E. lia.
      * apply IH. rewrite !length_app_str in Hn. destruct sep; [done|]. simpl in Hn. lia.
    + constructor; [|constructor]. unfold Contains. by rewrite E.
Qed.

(** [split] then [join] with the same separator gives the text back; with a separator
    that is not empty no part still contains it. *)
Theorem Split_Join `{GoText} sep s (Hv : forall t, Sprint_v (AStr t) = t) :
  joinFunc sep (AStrs (splitFunc sep s)) = s /\
  (sep <> "" -> Forall (fun part => Contains part sep = false) (splitFunc sep s)).
Proof.
  unfold joinFunc, splitFunc, Split. cbn [elems]. rewrite <- list_fmap_compose.
  rewrite (list_fmap_ext _ id) by (intros; apply Hv). rewrite list_fmap_id. case_decide; subst.
  - split; [|done]. by rewrite Join_empty_sep, cat_chunks.
  - split; [apply Join_split|]. intros _. by apply split_parts.
Qed.

(** ** Slices of characters *)

Lemma rune_slice_spec s i j u : 0 <= i -> i <= j -> j <= Z.of_nat (List.length (runes s)) ->
  exists t, rune_slice (runes s) i j = Some t /\
    runes (t +:+ u) = take (Z.to_nat (j - i)) (drop (Z.to_nat i) (runes s)) ++ runes u.
Proof.
  intros Hi Hij Hj. unfold rune_slice. rewrite decide_True by done. eexists. split; [done|]. apply runes_encode.
  apply Forall_take, Forall_drop, runes_valid.
Qed.

Lemma rune_slice_0 s j : 0 <= j <= Z.of_nat (List.length (runes s)) ->
  exists t, rune_slice (runes s) 0 j = Some t /\ forall u, runes (t +:+ u) = take (Z.to_nat j) (runes s) ++ runes u.
Proof.
  intros Hj. unfold rune_slice. rewrite decide_True by lia. eexists. split; [done|]. intros u.
  rewrite drop_0, Z.sub_0_r. apply runes_encode. apply Forall_take, runes_valid.
Qed.

(** [truncate] keeps a text of at most [maxLen] characters and makes any other exactly
    [maxLen] characters long: the first ones of the text, the suffix taking the last
    places if there is room for more than the suffix.  A negative length panics. *)
Theorem truncate_spec s maxLen suffix :
  let rs := runes s in
  let sfx := runes (default "..." (head suffix)) in
  (maxLen < 0 -> truncateFunc s maxLen suffix = None) /\
  (0 <= maxLen -> exists t, truncateFunc s maxLen suffix = Some t /\
    (Z.of_nat (List.length rs) <= maxLen -> t = s) /\
    (Z.of_nat (List.length rs) > maxLen -> Z.of_nat (List.length (runes t)) = maxLen /\
       runes t = if decide (maxLen <= Z.of_nat (List.length sfx)) then take (Z.to_nat maxLen) rs
                 else take (Z.to_nat maxLen - List.length sfx) rs ++ sfx)).
Proof.
  cbv zeta. set (sfx := default "..." (head suffix)). unfold truncateFunc. fold sfx.
  set (n := Z.of_nat (List.length (runes s))). set (k := Z.of_nat (List.length (runes sfx))). split.
  - intros Hneg. rewrite decide_False by lia. rewrite decide_True by lia. unfold rune_slice. by rewrite decide_False by lia.
  - intros Hmax. destruct (decide (n <= maxLen)) as [Hn|Hn]; [by exists s; split_and!; try lia|].
    destruct (decide (maxLen <= k)) as [Hk|Hk].
    + destruct (rune_slice_0 s maxLen) as (t & -> & Ht); [lia|]. exists t. specialize (Ht "").
      rewrite app_str_nil_r, app_nil_r in Ht. split_and!; [done|lia|]. intros _. rewrite Ht, length_take. split; [lia|done].
    + destruct (rune_slice_0 s (maxLen - k)) as (t & -> & Ht); [lia|]. exists (t +:+ sfx).
      split_and!; [done|lia|]. intros _. rewrite Ht, length_app, length_take.
      split; [lia|]. f_equal. f_equal. lia.
Qed.

(** [substr] takes up to [length] characters from [start], a negative start counting
    from the end and a negative length meaning the rest; it panics exactly if the sum
    of the two leaves the range of [int]. *)
Theorem substr_spec s start length
    (Hs : Z.of_nat (List.length (runes s)) < two63) (Hstart : - two63 <= start < two63) (Hl : Forall (fun l => l < two63) length) :
  let rs := runes s in
  let n := Z.of_nat (List.length rs) in
  let from := Z.max 0 (if decide (start < 0) then n + start else start) in
  let len := match length with l :: _ => if decide (l >= 0) then l else n | [] => n end in
  let overflow := from < n /\ exists l, head length = Some l /\ l >= 0 /\ from + l >= two63 in
  (overflow -> substrFunc s start length = None) /\
  (~ overflow -> exists t, substrFunc s start length = Some t /\ runes t = take (Z.to_nat len) (drop (Z.to_nat from) rs)).
Proof.
  cbv zeta. unfold substrFunc. set (n := Z.of_nat (List.length (runes s))) in *.
  set (st := if decide (start < 0) then n + start else start).
  assert ((if decide (st < 0) then 0 else st) = Z.max 0 st) as -> by (case_decide; lia). set (from := Z.max 0 st).
  assert (0 <= from < two63) as Hfrom by (unfold from, st; case_decide; lia).
  destruct (decide (from >= n)) as [Hge|Hlt].
  { split; [intros [? _]; lia|]. intros _. exists "". split; [done|]. rewrite drop_ge by lia. by rewrite take_nil. }
  destruct length as [|l length]; cbn [head]; [|apply Forall_cons in Hl as [Hl _]; destruct (decide (l >= 0)) as [Hp|Hneg]].
  - split; [by intros (_ & l & ? & _)|]. intros _. destruct (rune_slice_spec s from n "") as (t & -> & Ht); [lia..|].
    exists t. rewrite app_str_nil_r, app_nil_r in Ht. split; [done|]. rewrite Ht, !take_ge by (rewrite length_drop; lia). done.
  - destruct (decide (from + l >= two63)) as [Ho|Ho].
    + split; [|intros Hno; exfalso; apply Hno; split; [lia|by exists l]]. intros _.
      assert (i64 (from + l) < 0) as Hw.
      { unfold i64. rewrite (Z.mod_eq _ two64) by done.
        assert ((from + l + two63) / two64 = 1) as -> by (symmetry; apply (Z.div_unique _ _ _ (from + l + two63 - two64)); unfold two63, two64 in *; lia).
        unfold two63, two64 in *. lia. }
      rewrite (decide_False (P := i64 (from + l) > n)) by lia. unfold rune_slice. by rewrite decide_False by lia.
    + split; [intros (_ & l' & [= <-] & _ & ?); lia|]. intros _.
      rewrite i64_small by (unfold two63 in *; lia).
      destruct (decide (from + l > n)) as [Hc|Hc].
      * destruct (rune_slice_spec s from n "") as (t & -> & Ht); [lia..|]. exists t.
        rewrite app_str_nil_r, app_nil_r in Ht. split; [done|]. rewrite Ht, !take_ge by (rewrite length_drop; lia). done.
      * destruct (rune_slice_spec s from (from + l) "") as (t & -> & Ht); [lia..|]. exists t.
        rewrite app_str_nil_r, app_nil_r in Ht. split; [done|]. rewrite Ht. f_equal. lia.
  - split; [intros (_ & l' & [= <-] & ? & _); lia|]. intros _.
    destruct (rune_slice_spec s from n "") as (t & -> & Ht); [lia..|]. exists t.
    rewrite app_str_nil_r, app_nil_r in Ht. split; [done|]. rewrite Ht, !take_ge by (rewrite length_drop; lia). done.
Qed.

(** ** Date formats *)

Section Replace.
Context {A : Type} (at_ : string -> option (string * A * string)) (f : string -> A -> string).
Context (consumes : forall s raw a rest, at_ s = Some (raw, a, rest) -> s = raw +:+ rest /\ raw <> "").

Lemma replace_all_match s raw a rest : at_ s = Some (raw, a, rest) -> replace_all at_ f s = f raw a +:+ replace_all at_ f rest.
Proof.
  intros E. destruct s as [|c r]; [apply consumes in E as [E ?]; by destruct raw|].
  unfold replace_all. rewrite (tokens_cons at_ consumes), E. done.
Qed.

Lemma replace_all_skip c r : at_ (String c r) = None -> replace_all at_ f (String c r) = String c (replace_all at_ f r).
Proof. intros E. unfold replace_all. rewrite (tokens_cons at_ consumes), E. done. Qed.
End Replace.

(** The first token of a list that begins a text. *)
Fixpoint token_at (toks : list (string * string)) (s : string) : option (string * string * string) :=
  match toks with
  | [] => None
  | (old, new) :: toks => if HasPrefix s old then Some (old, new, TrimPrefix s old) else token_at toks s
  end.

(** One pass over the text that replaces, at each place, the first token that fits. *)
Definition one_pass (toks : list (string * string)) (s : string) : string := replace_all (token_at toks) (fun _ new => new) s.

Fixpoint rep (c : ascii) (n : nat) : string := match n with O => "" | S n => String c (rep c n) end.
#[local] Arguments rep : simpl never.

Lemma rep_S c n : rep c (S n) = String c (rep c n).
Proof. done. Qed.

Fixpoint lead (d : ascii) (s : string) : nat :=
  match s with String c r => if decide (c = d) then S (lead d r) else 0%nat | EmptyString => 0%nat end.

(** A run of one letter that becomes digits. *)
Definition run_token (r : string * string) : Prop :=
  exists c k, r.1 = rep c (S k) /\ is_digit c = false /\ str_all is_digit r.2 = true /\ r.2 <> "".

Lemma rep_prefix c n s : HasPrefix s (rep c n) = true <-> (n <= lead c s)%nat.
Proof.
  unfold HasPrefix. revert s. induction n as [|n IH]; intros s; [split; [lia|by destruct s]|]. rewrite rep_S.
  destruct s as [|x s]; cbn; [split; [intros [=]|lia]|]. destruct (ascii_dec c x) as [->|Hne].
  - rewrite decide_True by done. rewrite IH. lia.
  - rewrite decide_False by congruence. split; [intros [=]|lia].
Qed.

Lemma trim_rep_0 c s : TrimPrefix s (rep c 0) = s.
Proof. by destruct s. Qed.

Lemma rep_trim c n s : (n <= lead c s)%nat -> s = rep c n +:+ TrimPrefix s (rep c n).
Proof.
  intros Hn. apply rep_prefix in Hn. unfold HasPrefix in Hn. apply prefix_spec in Hn as [t ->].
  by rewrite TrimPrefix_app.
Qed.

Lemma run_consumes toks s raw a rest : Forall run_token toks -> token_at toks s = Some (raw, a, rest) ->
  s = raw +:+ rest /\ raw <> "".
Proof.
  induction 1 as [|[old new] toks (c & k & Ho & _) _ IH]; cbn; [done|]. destruct (HasPrefix s old) eqn:E; [|done].
  intros [= <- <- <-]. cbn in Ho. subst old. split; [|done]. by apply rep_trim, rep_prefix.
Qed.

Lemma token_at_digit toks x s : Forall run_token toks -> is_digit x = true -> token_at toks (String x s) = None.
Proof.
  intros Ht Hx. induction Ht as [|[old new] l (c & k & Ho & Hc & _) _ IH]; [done|]. cbn [token_at fst] in *. subst old.
  destruct (HasPrefix _ (rep c (S k))) eqn:E; [|done]. apply rep_prefix in E. cbn in E.
  destruct (decide (x = c)) as [->|]; [congruence|lia].
Qed.

Definition do_pass (r : string * string) (s : string) : string := ReplaceAll s r.1 r.2.

Section Pass.
Context (r : string * string) (Hr : run_token r) (toks : list (string * string)) (Htoks : Forall run_token toks).

Abbreviation pass := (do_pass r).

Lemma literal_consumes s raw (a : unit) rest : literal_at r.1 s = Some (raw, a, rest) -> s = raw +:+ rest /\ raw <> "".
Proof.
  unfold literal_at. destruct Hr as (c & k & -> & _). destruct (HasPrefix s _) eqn:E; [|done]. intros [= <- <- <-].
  split; [|done]. by apply rep_trim, rep_prefix.
Qed.

Lemma pass_match s : HasPrefix s r.1 = true -> pass s = r.2 +:+ pass (TrimPrefix s r.1).
Proof.
  intros E. unfold do_pass, ReplaceAll. by rewrite (replace_all_match _ _ literal_consumes s r.1 tt (TrimPrefix s r.1))
    by (unfold literal_at; by rewrite E).
Qed.

Lemma pass_skip c s : HasPrefix (String c s) r.1 = false -> pass (String c s) = String c (pass s).
Proof. intros E. unfold do_pass, ReplaceAll. apply replace_all_skip; [apply literal_consumes|]. unfold literal_at. by rewrite E. Qed.

(** A text that begins with the token has no other run at its head, before and after. *)
Lemma match_lead d s : HasPrefix s r.1 = true -> is_digit d = false ->
  lead d (pass s) = 0%nat /\ (forall x, HasPrefix (String x s) r.1 = false -> x = d -> lead d s = 0%nat).
Proof.
  intros E Hd. rewrite (pass_match _ E). destruct Hr as (c & k & Hc & Hcd & Hn & Hne). split.
  - destruct r.2 as [|y new]; [done|]. cbn in *. apply andb_true_iff in Hn as [Hy _]. rewrite decide_False; [done|]. intros ->. congruence.
  - intros x Ex ->. rewrite Hc in E, Ex. apply rep_prefix in E. destruct (decide (d = c)) as [->|Hdc].
    + exfalso. assert (HasPrefix (String c s) (rep c (S k)) = true); [|congruence]. apply rep_prefix. cbn. rewrite decide_True by done. lia.
    + destruct s as [|y s]; [done|]. cbn in *. destruct (decide (y = c)) as [->|]; [|lia]. by rewrite decide_False.
Qed.

Lemma pass_lead d s : HasPrefix s r.1 = false -> is_digit d = false -> lead d (pass s) = lead d s.
Proof.
  intros E Hd. induction s as [|x s IH]; [done|]. rewrite (pass_skip _ _ E). cbn. case_decide as Ex; [|done]. f_equal.
  destruct (HasPrefix s r.1) eqn:Es; [|by apply IH]. destruct (match_lead d s Es Hd) as [-> Hl]. by rewrite (Hl x E Ex).
Qed.

Lemma pass_run d n s : HasPrefix s r.1 = false -> is_digit d = false -> (n <= lead d s)%nat ->
  pass s = rep d n +:+ pass (TrimPrefix s (rep d n)).
Proof.
  intros E Hd. revert s E. induction n as [|n IH]; intros s E Hn; [by rewrite trim_rep_0|].
  destruct s as [|x s]; cbn in Hn; [lia|]. destruct (decide (x = d)) as [->|]; [|lia].
  rewrite (pass_skip _ _ E). unfold TrimPrefix. rewrite (proj2 (rep_prefix d (S n) (String d s))) by (cbn; rewrite decide_True by done; lia).
  rewrite rep_S. cbn. f_equal. destruct (HasPrefix s r.1) eqn:Es.
  - destruct (match_lead d s Es Hd) as [_ Hl]. rewrite (Hl d E eq_refl) in Hn. assert (n = 0)%nat as -> by lia.
    by destruct s.
  - rewrite (IH s Es) by lia. f_equal. unfold TrimPrefix. by rewrite (proj2 (rep_prefix d n s)) by lia.
Qed.

Lemma one_pass_digits n s : str_all is_digit n = true -> one_pass toks (n +:+ s) = n +:+ one_pass toks s.
Proof.
  induction n as [|x n IH]; [done|]. cbn [str_all]. intros [Hx Hn]%andb_true_iff.
  change (String x n +:+ s) with (String x (n +:+ s)). unfold one_pass in *.
  rewrite replace_all_skip; [by rewrite IH|intros; by eapply run_consumes|by apply token_at_digit].
Qed.

(** Where the token of the pass does not begin, the others begin as before. *)
Lemma token_at_pass l s : Forall run_token l -> HasPrefix s r.1 = false -> token_at l (pass s) =
  (fun '(old, new, rest) => (old, new, pass rest)) <$> token_at l s.
Proof.
  intros Hl E. induction Hl as [|[old new] l (c & k & Ho & Hc & _) _ IH]; [done|]. cbn [token_at fst] in *. subst old.
  destruct (HasPrefix s (rep c (S k))) eqn:Es.
  - apply rep_prefix in Es. rewrite (proj2 (rep_prefix c (S k) (pass s))) by (by rewrite pass_lead).
    cbn. do 2 f_equal. by rewrite (pass_run c (S k) s E Hc Es), TrimPrefix_app.
  - destruct (HasPrefix (pass s) (rep c (S k))) eqn:Ep; [|done]. apply rep_prefix in Ep. rewrite pass_lead in Ep by done.
    apply rep_prefix in Ep. congruence.
Qed.

Lemma one_pass_after s : one_pass toks (pass s) = one_pass (r :: toks) s.
Proof.
  remember (String.length s) as n eqn:Hn. revert s Hn. induction (lt_wf n) as [n _ IH]. intros s ->.
  assert (forall s', (String.length s' < String.length s)%nat -> one_pass toks (pass s') = one_pass (r :: toks) s') as Hs by (intros; by eapply IH).
  assert (forall s raw a rest, token_at (r :: toks) s = Some (raw, a, rest) -> s = raw +:+ rest /\ raw <> "") as Hcons.
  { intros. eapply run_consumes; [|done]. by constructor. }
  assert (forall s raw a rest, token_at toks s = Some (raw, a, rest) -> s = raw +:+ rest /\ raw <> "") as Hcons'.
  { intros. by eapply run_consumes. }
  destruct (HasPrefix s r.1) eqn:E.
  - rewrite (pass_match _ E). rewrite one_pass_digits by (by destruct Hr as (? & ? & _ & _ & ? & _)).
    assert (token_at (r :: toks) s = Some (r.1, r.2, TrimPrefix s r.1)) as Et by (destruct r; cbn in *; by rewrite E).
    unfold one_pass at 2. rewrite (replace_all_match _ _ Hcons _ _ _ _ Et). f_equal. apply Hs.
    apply Hcons in Et as [Et Hne]. rewrite Et at 2. rewrite length_app_str. destruct r.1; [done|]. simpl. lia.
  - assert (token_at (r :: toks) s = token_at toks s) as Et by (destruct r; cbn in *; by rewrite E).
    pose proof (token_at_pass toks s Htoks E) as Ep. destruct (token_at toks s) as [[[old new] rest]|] eqn:Es; cbn in Ep.
    + unfold one_pass. rewrite (replace_all_match _ _ Hcons' _ _ _ _ Ep), (replace_all_match _ _ Hcons _ _ _ _ Et).
      f_equal. apply Hs. apply Hcons' in Es as [-> Hne]. rewrite length_app_str. destruct old; [done|]. simpl. lia.
    + destruct s as [|c s]; [done|]. rewrite (pass_skip _ _ E) in *. unfold one_pass.
      rewrite (replace_all_skip _ _ Hcons' _ _ Ep), (replace_all_skip _ _ Hcons _ _ Et). f_equal. apply Hs. simpl. lia.
Qed.
End Pass.

Lemma one_pass_nil s : one_pass [] s = s.
Proof.
  induction s as [|c s IH]; [done|]. unfold one_pass in *.
  rewrite replace_all_skip; [by rewrite IH|intros ? ? ? ? Hx; discriminate Hx|done].
Qed.

(** The eight replacements, done one after the other over the whole text, are one pass
    that replaces at each place the first token that fits, YYYY before YY: no
    replacement touches what an earlier one wrote. *)
Theorem convertTimeFormat_equiv format : convertTimeFormat format = one_pass time_tokens format.
Proof.
  assert (Forall run_token time_tokens) as Ht.
  { unfold time_tokens, run_token. repeat constructor; cbn [fst snd];
      first [by exists "Y"%char, 3%nat|by exists "Y"%char, 1%nat|by exists "S"%char, 2%nat|by exists "M"%char, 1%nat
        |by exists "D"%char, 1%nat|by exists "H"%char, 1%nat|by exists "m"%char, 1%nat|by exists "s"%char, 1%nat]. }
  unfold convertTimeFormat. revert format. induction Ht as [|r toks Hr Ht IH]; intros format; cbn [foldl].
  - by rewrite one_pass_nil.
  - rewrite IH. by apply (one_pass_after r Hr toks Ht).
Qed.

(** ** Evaluation at concrete inputs *)

Module Sample.
Example texts_cut :
  (truncateFunc "hello world" 8 [], truncateFunc "hello" 2 [], truncateFunc "hello" 9 [], truncateFunc "hello" (-1) [],
   truncateFunc "hello world" 8 ["~"])
  = (Some "hello...", Some "he", Some "hello", None, Some "hello w~").
Proof. by vm_compute. Qed.

Example texts_sliced :
  (substrFunc "hello" 1 [3], substrFunc "hello" (-3) [], substrFunc "hello" 9 [1], substrFunc "hello" 3 [9], substrFunc "hello" (-9) [2])
  = (Some "ell", Some "llo", Some "", Some "lo", Some "he").
Proof. by vm_compute. Qed.

(** The sum of start and length wraps, and the slice expression panics. *)
Example substr_wraps : substrFunc "hello" 1 [two63 - 1] = None.
Proof. by vm_compute. Qed.

Example separators : (splitFunc "," "a,b,,c", splitFunc "" "abc", splitFunc "," "") = (["a"; "b"; ""; "c"], ["a"; "b"; "c"], [""]).
Proof. by vm_compute. Qed.

(** Letters of a word are taken for a token as well. *)
Example formats : (convertTimeFormat "YYYY-MM-DD HH:mm:ss.SSS", convertTimeFormat "YYY", convertTimeFormat "HAMMER")
  = ("2006-01-02 15:04:05.000", "06Y", "HA01ER").
Proof. by vm_compute. Qed.

Lemma substr_spec_witness : exists t, substrFunc "hello" (-3) [2] = Some t /\ runes t = take 2 (drop 2 (runes "hello")).
Proof.
  destruct (substr_spec "hello" (-3) [2]) as [_ Hok]; [by vm_compute| |by repeat constructor|].
  - unfold two63. split; [by vm_compute|by vm_compute].
  - apply Hok. intros [_ (l & Hh & _ & Hl)]. injection Hh as <-. vm_compute in Hl. by apply Hl.
Defined.
End Sample.
