(* ===== verification/TmplNum.v ===== *)
(** * internal/tmpl: the template functions on numbers (engine.go)

    Arithmetic on [float64] values and their texts: [formatNumber], [formatPercent],
    [formatBytes], [zeropad].  Floats are IEEE data of 53 bits; the operations of the
    language are those of [SpecFloat], comparisons with an integer constant and the
    functions of [math] are computed exactly.  Printing a float with the verb f is the
    exact decimal value rounded half to even, as strconv does it; what [Sprintf] makes
    of a precision that is negative or above a million is a parameter. *)
From S2P Require Import Prelude GoStrings GoValues Numbers RateLimit WfConfig SqlParams Executor TmplEngine ConfigLoad Metrics TmplFuncs.
From Stdlib Require Import SpecFloat.

(** ** Values *)

Definition toNumber `{FloatText} (v : any) : spec_float :=
  match v with
  | AInt n | AInt64 n => f64 n
  | AFloat n => n
  | AStr n => match ParseFloat n with Ok f => f | Err _ => S754_zero false end
  | _ => S754_zero false
  end.

Definition floatFunc `{FloatText} (v : any) : spec_float := toNumber v.

Definition isNumericFunc `{FloatText} (s : string) : bool := is_ok (ParseFloat s).

(** A finite float of sign [s] and magnitude [q], a whole number below 2^53 or one that
    was a float already; zero keeps the sign. *)
Definition whole (s : bool) (q : Z) : spec_float :=
  if decide (q = 0) then S754_zero s
  else let f := binary_normalize 53 1024 q 0 false in if s then SFopp f else f.

(** The whole part of [m * 2^e] and, with it, how far the rest is from a whole number:
    the remainder and the unit, both times [2^(-e)]. *)
Definition split_float (m : positive) (e : Z) : Z * Z * Z :=
  if decide (0 <= e) then (Z.pos m * 2 ^ e, 0, 1)
  else (Z.pos m / 2 ^ (- e), Z.pos m `mod` 2 ^ (- e), 2 ^ (- e)).

Definition math_Trunc (f : spec_float) : spec_float :=
  match f with S754_finite s m e => whole s (split_float m e).1.1 | _ => f end.

Definition math_Floor (f : spec_float) : spec_float :=
  match f with
  | S754_finite s m e =>
    let '(q, r, _) := split_float m e in whole s (if s && negb (r =? 0) then q + 1 else q)
  | _ => f
  end.

(** Half away from zero. *)
Definition math_Round (f : spec_float) : spec_float :=
  match f with
  | S754_finite s m e =>
    let '(q, r, d) := split_float m e in whole s (if 2 * r >=? d then q + 1 else q)
  | _ => f
  end.

Definition math_Ceil (f : spec_float) : spec_float := SFopp (math_Floor (SFopp f)).

(** [math.Mod]: the exact remainder with the sign of the dividend. *)
Definition math_Mod (x y : spec_float) : spec_float :=
  match x, y with
  | S754_nan, _ | _, S754_nan | S754_infinity _, _ | _, S754_zero _ => S754_nan
  | _, S754_infinity _ | S754_zero _, _ => x
  | S754_finite s m e, S754_finite _ m' e' =>
    let k := Z.min e e' in
    let r := (Z.pos m * 2 ^ (e - k)) `mod` (Z.pos m' * 2 ^ (e' - k)) in
    if decide (r = 0) then S754_zero s
    else let f := binary_normalize 53 1024 r k false in if s then SFopp f else f
  end.

Definition is_neg (f : spec_float) : bool :=
  match f with S754_zero s | S754_infinity s | S754_finite s _ _ => s | S754_nan => false end.

Definition math_Min (x y : spec_float) : spec_float :=
  match x, y with
  | S754_infinity true, _ | _, S754_infinity true => S754_infinity true
  | S754_nan, _ | _, S754_nan => S754_nan
  | S754_zero s, S754_zero s' => S754_zero (s || s')
  | _, _ => if SFltb x y then x else y
  end.

Definition math_Max (x y : spec_float) : spec_float :=
  match x, y with
  | S754_infinity false, _ | _, S754_infinity false => S754_infinity false
  | S754_nan, _ | _, S754_nan => S754_nan
  | S754_zero s, S754_zero s' => S754_zero (s && s')
  | _, _ => if SFltb y x then x else y
  end.

(** ** Arithmetic of templates *)

Section Arith.
Context `{FloatText, FloatToInt}.

Definition addFunc (a b : any) : spec_float := SFadd 53 1024 (toNumber a) (toNumber b).
Definition subFunc (a b : any) : spec_float := SFsub 53 1024 (toNumber a) (toNumber b).
Definition mulFunc (a b : any) : spec_float := SFmul 53 1024 (toNumber a) (toNumber b).

Definition divOrFunc (a b defaultVal : any) : spec_float :=
  let bv := toNumber b in if float_is_zero bv then toNumber defaultVal else SFdiv 53 1024 (toNumber a) bv.
Definition divFunc (a b : any) : spec_float :=
  let bv := toNumber b in if float_is_zero bv then S754_zero false else SFdiv 53 1024 (toNumber a) bv.
Definition modOrFunc (a b defaultVal : any) : spec_float :=
  let bv := toNumber b in if float_is_zero bv then toNumber defaultVal else math_Mod (toNumber a) bv.
Definition modFunc (a b : any) : spec_float :=
  let bv := toNumber b in if float_is_zero bv then S754_zero false else math_Mod (toNumber a) bv.

Definition roundFunc (v : any) : spec_float := math_Round (toNumber v).
Definition floorFunc (v : any) : spec_float := math_Floor (toNumber v).
Definition ceilFunc (v : any) : spec_float := math_Ceil (toNumber v).
Definition truncFunc (v : any) : spec_float := math_Trunc (toNumber v).
Definition absFunc (v : any) : spec_float := SFabs (toNumber v).
Definition minFunc (a b : any) : spec_float := math_Min (toNumber a) (toNumber b).
Definition maxFunc (a b : any) : spec_float := math_Max (toNumber a) (toNumber b).

Definition ltFunc (a b : any) : bool := SFltb (toNumber a) (toNumber b).
Definition leFunc (a b : any) : bool := SFleb (toNumber a) (toNumber b).
Definition gtFunc (a b : any) : bool := SFltb (toNumber b) (toNumber a).
Definition geFunc (a b : any) : bool := SFleb (toNumber b) (toNumber a).

Definition int64Func (v : any) : Z := float_to_int (toNumber v).

(** [fmt.Sprintf] of an integer with verb d and a width: zeros after the sign, or
    spaces behind the number if the width is negative. *)
Definition sprintf_width (width n : Z) : string :=
  if decide (Z.abs width > 1000000) then "%!(BADWIDTH)" +:+ pretty n
  else if decide (width < 0) then pretty n +:+ rep " " (Z.to_nat (- width) - String.length (pretty n))
  else (if decide (n < 0) then "-" else "") +:+
       rep "0" (Z.to_nat width - String.length (pretty n)) +:+ pretty (Z.abs n).

Definition zeropadFunc (v : any) (width : Z) : string := sprintf_width width (float_to_int (toNumber v)).
End Arith.

(** ** Decimal texts *)

Definition round_half_even (n d : Z) : Z :=
  let q := n / d in
  let r := n `mod` d in
  if decide (2 * r < d) then q else if decide (2 * r > d) then q + 1 else if Z.even q then q else q + 1.

Definition sign_text (s : bool) : string := if s then "-" else "".

(** [N] units of [10^(-dec)]. *)
Definition decimal (dec : nat) (N : Z) : string :=
  pretty (N / 10 ^ Z.of_nat dec) +:+
  (if decide (dec = 0)%nat then ""
   else let f := pretty (N `mod` 10 ^ Z.of_nat dec) in "." +:+ rep "0" (dec - String.length f) +:+ f).

(** [fmt.Sprintf] with [dec] digits after the point. *)
Definition FormatFixed (dec : nat) (f : spec_float) : string :=
  match f with
  | S754_nan => "NaN"
  | S754_infinity s => if s then "-Inf" else "+Inf"
  | S754_zero s => sign_text s +:+ decimal dec 0
  | S754_finite s m e =>
    sign_text s +:+ decimal dec (if decide (0 <= e) then Z.pos m * 2 ^ e * 10 ^ Z.of_nat dec
                                 else round_half_even (Z.pos m * 10 ^ Z.of_nat dec) (2 ^ (- e)))
  end.

Section Format.
Context `{FloatText, FloatToInt} (Sprintf_odd : Z -> spec_float -> string).

Definition sprintf_f (dec : Z) (f : spec_float) : string :=
  if decide (0 <= dec <= 1000000) then FormatFixed (Z.to_nat dec) f else Sprintf_odd dec f.

(** The loop over the integer part, of which [len] is the length and [i] the place. *)
Fixpoint add_commas (len i : nat) (s : string) : string :=
  match s with
  | EmptyString => ""
  | String c r =>
    (if bool_decide (0 < i)%nat && Nat.eqb ((len - i) `mod` 3) 0 then "," else "") +:+ String c (add_commas len (S i) r)
  end.

(** What [formatNumber] does with the text of the number. *)
Definition group_digits (s : string) : string :=
  match Split s "." with
  | intPart :: rest =>
    let negative := HasPrefix intPart "-" in
    let intPart := if negative then str_drop 1 intPart else intPart in
    let formatted := add_commas (String.length intPart) 0 intPart in
    let formatted := if negative then "-" +:+ formatted else formatted in
    match rest with f :: _ => formatted +:+ "." +:+ f | [] => formatted end
  | [] => ""
  end.

Definition formatNumberFunc (v : any) (decimals : list Z) : string :=
  group_digits (sprintf_f (default 0 (head decimals)) (toNumber v)).

Definition formatPercentFunc (v : any) (decimals : list Z) : string :=
  sprintf_f (default 1 (head decimals)) (SFmul 53 1024 (toNumber v) (f64 100)) +:+ "%".

(** ** Sizes *)

(** [f / 1024^k] for a float of at least [1024^k]: a smaller exponent. *)
Definition shift10 (f : spec_float) (k : nat) : spec_float :=
  match f with S754_finite s m e => S754_finite s m (e - 10 * Z.of_nat k) | _ => f end.

(** [m * 2^e >= z] *)
Definition mag_ge (m : positive) (e z : Z) : bool :=
  if decide (0 <= e) then Z.pos m * 2 ^ e >=? z else Z.pos m >=? z * 2 ^ (- e).

(** [f >= z] for a positive constant; nothing compares with NaN. *)
Definition float_ge (f : spec_float) (z : Z) : bool :=
  match f with S754_finite false m e => mag_ge m e z | S754_infinity false => true | _ => false end.

(** The loop; [None] if the fuel runs out. *)
Fixpoint bytes_loop (fuel : nat) (n : spec_float) (exp : nat) : option nat :=
  match fuel with
  | O => None
  | S fuel => if float_ge n 1024 then bytes_loop fuel (shift10 n 1) (S exp) else Some exp
  end.

(** The text of a size that is not negative; inside, [None] is the panic of the index
    into the six units. *)
Definition bytes_text (fuel : nat) (b : spec_float) : option (option string) :=
  if match b with S754_nan => false | _ => negb (float_ge b 1024) end then Some (Some (FormatFixed 0 b +:+ " B"))
  else
    exp ← bytes_loop fuel (shift10 b 1) 0;
    Some (c ← String.get exp "KMGTPE"; Some (FormatFixed 1 (shift10 b (S exp)) +:+ " " +:+ String c "B")).

(** [b < 0] is false for a negative zero and for NaN. *)
Definition formatBytesFunc (fuel : nat) (v : any) : option (option string) :=
  let b := toNumber v in
  let negative := match b with S754_finite s _ _ | S754_infinity s => s | _ => false end in
  match bytes_text fuel (if negative then SFopp b else b) with
  | None => None
  | Some None => Some None
  | Some (Some t) => Some (Some (if negative then "-" +:+ t else t))
  end.
End Format.

(** ** Grouping *)

Lemma commas_tail (s : string) : exists g gs, String.length g = (String.length s `mod` 3)%nat /\
  Forall (fun x => String.length x = 3%nat) gs /\ s = g +:+ cat gs /\
  forall len i, (0 < i)%nat -> (i + String.length s = len)%nat -> add_commas len i s = g +:+ cat ((String.append ",") <$> gs).
Proof.
  induction s as [|c r (g & gs & Hg & Hgs & -> & Hadd)]; [by exists "", []|].
  set (r := g +:+ cat gs) in *. cbn [String.length].
  assert (forall len i, (0 < i)%nat -> (i + S (String.length r) = len)%nat ->
    add_commas len i (String c r) = (if Nat.eqb (S (String.length r) `mod` 3) 0 then "," else "") +:+
      String c (g +:+ cat ((String.append ",") <$> gs))) as Hstep.
  { intros len i Hi Hl. cbn [add_commas]. rewrite (Hadd len (S i)) by lia. rewrite bool_decide_true by done. cbn [andb].
    by replace (len - i)%nat with (S (String.length r)) by lia. }
  pose proof (Nat.mod_upper_bound (String.length r) 3 ltac:(lia)) as Hb.
  pose proof (Nat.div_mod (String.length r) 3 ltac:(lia)) as Hdm.
  destruct (decide (String.length r `mod` 3 = 2)%nat) as [E|E].
  - assert (S (String.length r) `mod` 3 = 0)%nat as E'.
    { symmetry. apply (Nat.mod_unique _ _ (S (String.length r / 3))); lia. }
    exists "", (String c g :: gs). rewrite E'. split_and!; [done| |done|].
    + constructor; [cbn; lia|done].
    + intros len i Hi Hl. rewrite Hstep by done. by rewrite E'.
  - assert (S (String.length r) `mod` 3 = S (String.length r `mod` 3))%nat as E'.
    { symmetry. apply (Nat.mod_unique _ _ (String.length r / 3)); lia. }
    exists (String c g), gs. rewrite E'. split_and!; [by apply (f_equal S)|done|done|].
    intros len i Hi Hl. rewrite Hstep by done. by rewrite E'.
Qed.

Lemma Join_groups g gs : Join (g :: gs) "," = g +:+ cat ((String.append ",") <$> gs).
Proof.
  revert g. induction gs as [|g' gs IH]; intros g; [cbn; by rewrite app_str_nil_r|].
  rewrite Join_cons by done. by rewrite IH.
Qed.

(** Groups of three from the right, the first of one to three. *)
Definition grouped (s : string) (groups : list string) : Prop :=
  cat groups = s /\ exists g gs, groups = g :: gs /\ (1 <= String.length g <= 3)%nat /\
    Forall (fun x => String.length x = 3%nat) gs.

Lemma add_commas_spec s : s <> "" -> exists groups, grouped s groups /\
  add_commas (String.length s) 0 s = Join groups ",".
Proof.
  destruct s as [|c r]; [done|]. intros _. destruct (commas_tail r) as (g & gs & Hg & Hgs & Er & Hadd).
  exists (String c g :: gs). split.
  - split; [by rewrite Er|]. exists (String c g), gs. split_and!; [done|cbn; lia| |done].
    pose proof (Nat.mod_upper_bound (String.length r) 3 ltac:(lia)). cbn. lia.
  - rewrite Join_groups. cbn [add_commas String.length]. rewrite (Hadd _ 1%nat) by (cbn; lia). done.
Qed.

Lemma pretty_nonneg (z : Z) : 0 <= z -> str_all is_digit (pretty z) = true /\ pretty z <> "".
Proof.
  intros Hz. destruct z as [|p|p]; [done| |lia]. change (pretty (Z.pos p)) with (pretty (Npos p)).
  split; [apply pretty_N_digits|]. destruct (pretty_head (Npos p)) as (c & r & -> & _); [lia|done].
Qed.

Definition no_dot (s : string) : bool := str_all (fun c => negb (Ascii.eqb c ".")) s.

Lemma digits_no_dot s : str_all is_digit s = true -> no_dot s = true.
Proof.
  unfold no_dot. induction s as [|c s IH]; [done|]. cbn [str_all]. intros [Hc Hs]%andb_true_iff. rewrite (IH Hs), andb_true_r.
  destruct (Ascii.eqb_spec c "."); [by subst|done].
Qed.

Lemma Index_no_dot s : no_dot s = true -> Index s "." = None.
Proof.
  unfold no_dot. induction s as [|c s IH]; [done|]. cbn [str_all Index]. intros [Hc Hs]%andb_true_iff.
  cbn [String.prefix]. destruct (ascii_dec "." c) as [<-|Hne]; [done|]. by rewrite (IH Hs).
Qed.

Lemma Index_dot a b : no_dot a = true -> Index (a +:+ "." +:+ b) "." = Some (String.length a).
Proof.
  unfold no_dot. induction a as [|c a IH]; [by destruct b|]. cbn [str_all]. intros [Hc Hs]%andb_true_iff.
  change (String c a +:+ "." +:+ b) with (String c (a +:+ "." +:+ b)). cbn [Index String.prefix].
  destruct (ascii_dec "." c) as [<-|Hne]; [done|]. by rewrite (IH Hs).
Qed.

Lemma Split_no_dot s : no_dot s = true -> Split s "." = [s].
Proof. intros Hs. unfold Split. rewrite decide_False by done. destruct s; [done|]. cbn [String.length split_fuel]. by rewrite Index_no_dot. Qed.

Lemma Split_dot a b : no_dot a = true -> no_dot b = true -> Split (a +:+ "." +:+ b) "." = [a; b].
Proof.
  intros Ha Hb. unfold Split. rewrite decide_False by done. rewrite !length_app_str. cbn [String.length].
  replace (String.length a + (1 + String.length b))%nat with (S (String.length a + String.length b)) by lia.
  cbn [split_fuel]. rewrite (Index_dot a b Ha), str_take_app, (app_str_assoc a "." b). cbn [String.length].
  replace (String.length a + 1)%nat with (String.length (a +:+ ".")) by (rewrite length_app_str; done).
  rewrite str_drop_app. f_equal. destruct (String.length a + String.length b)%nat; cbn [split_fuel]; [done|].
  by rewrite (Index_no_dot b Hb).
Qed.

(** The grouping keeps sign, digits and fraction. *)
Lemma group_digits_spec (s : bool) i f : str_all is_digit i = true -> i <> "" -> str_all is_digit f = true ->
  forall frac, frac = "" \/ frac = "." +:+ f ->
  exists groups, grouped i groups /\ group_digits (sign_text s +:+ i +:+ frac) = sign_text s +:+ Join groups "," +:+ frac.
Proof.
  intros Hi Hne Hf frac Hfrac. destruct (add_commas_spec i Hne) as (groups & Hg & Ha). exists groups. split; [done|].
  assert (no_dot (sign_text s +:+ i) = true) as Hnd.
  { unfold no_dot. rewrite str_all_app. fold (no_dot i). rewrite (digits_no_dot i Hi). by destruct s. }
  assert (HasPrefix (sign_text s +:+ i) "-" = s) as Hp.
  { destruct s; [by destruct i|]. destruct i as [|c r]; [done|]. cbn [str_all] in Hi. apply andb_true_iff in Hi as [Hc _].
    change (String.prefix "-" (String c r) = false). cbn [String.prefix]. destruct (ascii_dec "-" c) as [<-|]; [discriminate Hc|done]. }
  assert ((if s then str_drop 1 (sign_text s +:+ i) else sign_text s +:+ i) = i) as Hd by (by destruct s, i).
  destruct Hfrac as [-> | ->].
  - rewrite !app_str_nil_r. unfold group_digits. rewrite Split_no_dot by done. cbv zeta. rewrite Hp, Hd, Ha. by destruct s.
  - rewrite (app_str_assoc (sign_text s) i). unfold group_digits. rewrite Split_dot by (done || by apply digits_no_dot).
    cbv zeta. rewrite Hp, Hd, Ha. by destruct s.
Qed.

Lemma rep_digits n : str_all is_digit (rep "0" n) = true.
Proof. induction n; [done|]. rewrite rep_S. cbn [str_all]. by rewrite IHn. Qed.

Lemma length_rep c n : String.length (rep c n) = n.
Proof. induction n; [done|]. rewrite rep_S. cbn. by rewrite IHn. Qed.

(** The decimal text of a number of units: digits, and a point with digits. *)
Lemma decimal_split dec N : 0 <= N -> exists i f frac, decimal dec N = i +:+ frac /\
  str_all is_digit i = true /\ i <> "" /\ str_all is_digit f = true /\
  (dec = 0%nat /\ frac = "" \/ frac = "." +:+ f).
Proof.
  intros HN. assert (0 < 10 ^ Z.of_nat dec) by (apply Z.pow_pos_nonneg; lia). unfold decimal.
  destruct (pretty_nonneg (N / 10 ^ Z.of_nat dec)) as [Hi Hne]; [by apply Z.div_pos|].
  destruct (pretty_nonneg (N `mod` 10 ^ Z.of_nat dec)) as [Hf _]; [by apply Z.mod_pos_bound|].
  destruct (decide (dec = 0)%nat) as [->|Hd].
  - exists (pretty (N / 10 ^ Z.of_nat 0)), "", "". split_and!; try done. by left.
  - eexists _, _, _. split_and!; [reflexivity|done|done| |by right]. by rewrite str_all_app, rep_digits.
Qed.

Lemma round_half_even_nonneg n d : 0 <= n -> 0 < d -> 0 <= round_half_even n d.
Proof. intros Hn Hd. unfold round_half_even. pose proof (Z.div_pos n d Hn Hd). repeat case_match; lia. Qed.

Lemma FormatFixed_finite dec s m e : exists N, 0 <= N /\ FormatFixed dec (S754_finite s m e) = sign_text s +:+ decimal dec N.
Proof.
  cbn [FormatFixed]. eexists. split; [|reflexivity]. case_decide.
  - apply Z.mul_nonneg_nonneg; [|apply Z.pow_nonneg; lia]. apply Z.mul_nonneg_nonneg; [lia|apply Z.pow_nonneg; lia].
  - apply round_half_even_nonneg; [|apply Z.pow_pos_nonneg; lia].
    apply Z.mul_nonneg_nonneg; [lia|apply Z.pow_nonneg; lia].
Qed.

(** [formatNumber] prints a finite number as the fixed-point text with the commas it
    needs and nothing else: without them it is what [Sprintf] gives, and they
    separate groups of three digits, the first of one to three. *)
Theorem formatNumber_spec `{FloatText} odd v decimals s m e (Hn : toNumber v = S754_finite s m e)
    (Hd : 0 <= default 0 (head decimals) <= 1000000) :
  exists i groups frac, formatNumberFunc odd v decimals = sign_text s +:+ Join groups "," +:+ frac /\
    sign_text s +:+ cat groups +:+ frac = FormatFixed (Z.to_nat (default 0 (head decimals))) (S754_finite s m e) /\
    grouped i groups /\ str_all is_digit i = true /\
    (frac = "" \/ exists f, frac = "." +:+ f /\ str_all is_digit f = true).
Proof.
  unfold formatNumberFunc, sprintf_f. rewrite Hn, decide_True by done. set (dec := Z.to_nat _).
  destruct (FormatFixed_finite dec s m e) as (N & HN & ->). destruct (decimal_split dec N HN) as (i & f & frac & -> & Hi & Hne & Hf & Hfrac).
  destruct (group_digits_spec s i f Hi Hne Hf frac) as (groups & Hg & ->); [destruct Hfrac as [[_ ->]|]; auto|].
  exists i, groups, frac. split_and!; [done| |done|done|].
  - by rewrite (proj1 Hg).
  - destruct Hfrac as [[_ ->]|]; [by left|right; by exists f].
Qed.

(** ** Sizes *)

Lemma mag_ge_spec m e z K : 0 <= K -> 0 <= e + K -> mag_ge m e z = true <-> z * 2 ^ K <= Z.pos m * 2 ^ (e + K).
Proof.
  intros HK HeK. unfold mag_ge. case_decide as He; rewrite Z.geb_le.
  - assert (0 < 2 ^ K) by (apply Z.pow_pos_nonneg; lia). rewrite Z.pow_add_r by lia. nia.
  - assert (2 ^ K = 2 ^ (- e) * 2 ^ (e + K)) as -> by (rewrite <- Z.pow_add_r by lia; f_equal; lia).
    assert (0 < 2 ^ (e + K)) by (apply Z.pow_pos_nonneg; lia). nia.
Qed.

Lemma mag_ge_scale m e z k : 0 <= k -> mag_ge m (e - k) z = mag_ge m e (2 ^ k * z).
Proof.
  intros Hk. apply eq_bool_prop_intro. rewrite !Is_true_true. set (K := Z.max 0 (k - e)).
  rewrite (mag_ge_spec m (e - k) z K), (mag_ge_spec m e _ K) by lia. assert (0 < 2 ^ k) by (apply Z.pow_pos_nonneg; lia).
  assert (2 ^ (e + K) = 2 ^ k * 2 ^ (e - k + K)) as -> by (rewrite <- Z.pow_add_r by lia; f_equal; lia). nia.
Qed.

Lemma mag_ge_mono m e z z' : z <= z' -> mag_ge m e z' = true -> mag_ge m e z = true.
Proof.
  intros Hz. unfold mag_ge. case_decide as He; rewrite !Z.geb_leb, !Z.leb_le; [lia|].
  assert (0 < 2 ^ (- e)) by (apply Z.pow_pos_nonneg; lia). nia.
Qed.

Lemma pow_1024 (k : nat) : 2 ^ (10 * Z.of_nat k) = 1024 ^ Z.of_nat k.
Proof. rewrite Z.pow_mul_r by lia. done. Qed.

Lemma shift_ge m e k : float_ge (shift10 (S754_finite false m e) k) 1024 = mag_ge m e (1024 ^ Z.of_nat (S k)).
Proof.
  cbn [shift10 float_ge]. rewrite mag_ge_scale by lia. rewrite pow_1024. f_equal.
  rewrite Nat2Z.inj_succ, Z.pow_succ_r by lia. lia.
Qed.

(** The size lies between two powers of 1024. *)
Definition in_unit (m : positive) (e : Z) (j : nat) : Prop :=
  mag_ge m e (1024 ^ Z.of_nat (S j)) = true /\ mag_ge m e (1024 ^ Z.of_nat (S (S j))) = false.

Lemma shift10_S f k : shift10 (shift10 f k) 1 = shift10 f (S k).
Proof. destruct f; try done. cbn [shift10]. f_equal. lia. Qed.

Lemma bytes_loop_spec m e j fuel i : in_unit m e j -> (i <= j)%nat -> (j - i < fuel)%nat ->
  bytes_loop fuel (shift10 (S754_finite false m e) (S i)) i = Some j.
Proof.
  intros [Hlo Hhi]. revert i. induction fuel as [|fuel IH]; intros i Hi Hf; [lia|]. cbn [bytes_loop].
  rewrite shift_ge, shift10_S. destruct (decide (i = j)) as [->|Hne]; [by rewrite Hhi|].
  rewrite (mag_ge_mono _ _ _ (1024 ^ Z.of_nat (S j))); [|apply Z.pow_le_mono_r; lia|done]. apply IH; lia.
Qed.

Lemma bytes_loop_infinite fuel i : bytes_loop fuel (S754_infinity false) i = None.
Proof. revert i. induction fuel as [|fuel IH]; intros i; [done|]. cbn. apply IH. Qed.

Lemma digits2_bound m : Z.pos m < 2 ^ Z.pos (digits2_pos m).
Proof.
  induction m as [m IH|m IH|]; cbn [digits2_pos]; rewrite ?Pos2Z.inj_succ, ?Z.pow_succ_r by lia; lia.
Qed.

(** A [float64] is below 1024^103. *)
Lemma valid_float_bound s m e : valid_binary 53 1024 (S754_finite s m e) = true -> mag_ge m e (1024 ^ 103) = false.
Proof.
  cbn [valid_binary]. unfold bounded, canonical_mantissa, fexp, SpecFloat.emin. rewrite andb_true_iff. intros [Hc He].
  apply Z.eqb_eq in Hc. apply Z.leb_le in He. pose proof (digits2_bound m) as Hm.
  assert (Z.pos m < 2 ^ 53) as Hm' by (eapply Z.lt_le_trans; [exact Hm|apply Z.pow_le_mono_r; lia]).
  unfold mag_ge. rewrite Z.geb_leb. case_decide as Hp.
  - apply Z.leb_gt. apply Z.lt_le_trans with (2 ^ 53 * 2 ^ e).
    + apply Zmult_lt_compat_r; [apply Z.pow_pos_nonneg; lia|done].
    + rewrite <- Z.pow_add_r by lia. change (1024 ^ 103) with (2 ^ 1030). apply Z.pow_le_mono_r; lia.
  - rewrite Z.geb_leb. apply Z.leb_gt. assert (0 < 2 ^ (- e)) by (apply Z.pow_pos_nonneg; lia).
    assert (2 ^ 53 <= 1024 ^ 103) by (change (1024 ^ 103) with (2 ^ 1030); apply Z.pow_le_mono_r; lia). nia.
Qed.

Lemma find_unit m e n : mag_ge m e 1024 = true -> mag_ge m e (1024 ^ Z.of_nat (S n)) = false ->
  exists j, (j < n)%nat /\ in_unit m e j.
Proof.
  intros H1. induction n as [|n IH]; intros Hn; [change (1024 ^ Z.of_nat 1) with 1024 in Hn; congruence|].
  destruct (mag_ge m e (1024 ^ Z.of_nat (S n))) eqn:E; [by exists n; split; [lia|]|].
  destruct (IH eq_refl) as (j & ? & ?). exists j. split; [lia|done].
Qed.

(** [formatBytes] on a finite number: below 1024 it is a count of bytes; else the loop
    ends within 102 turns, with the unit whose power of 1024 fits, and there is a
    text exactly if the size is below 1024^7: from there on the index into the six
    units panics.  On an infinite size the loop never ends. *)
Theorem formatBytes_spec `{FloatText} v :
  (forall s m e, toNumber v = S754_finite s m e -> valid_binary 53 1024 (S754_finite s m e) = true ->
     (mag_ge m e 1024 = false -> forall fuel,
        formatBytesFunc fuel v = Some (Some (sign_text s +:+ FormatFixed 0 (S754_finite false m e) +:+ " B"))) /\
     (mag_ge m e 1024 = true -> exists j, (j < 102)%nat /\ in_unit m e j /\ forall fuel, (j < fuel)%nat ->
        formatBytesFunc fuel v = Some (c ← String.get j "KMGTPE";
          Some (sign_text s +:+ FormatFixed 1 (shift10 (S754_finite false m e) (S j)) +:+ " " +:+ String c "B"))) /\
     (formatBytesFunc 102 v = Some None <-> mag_ge m e (1024 ^ 7) = true)) /\
  (forall s, toNumber v = S754_infinity s -> forall fuel, formatBytesFunc fuel v = None).
Proof.
  split.
  - intros s m e Hn Hv.
    assert (mag_ge m e 1024 = false -> forall fuel,
      formatBytesFunc fuel v = Some (Some (sign_text s +:+ FormatFixed 0 (S754_finite false m e) +:+ " B"))) as Hsmall.
    { intros Hs fuel. unfold formatBytesFunc. rewrite Hn. replace (if s then SFopp (S754_finite s m e) else S754_finite s m e)
        with (S754_finite false m e) by (by destruct s). unfold bytes_text. cbn [float_ge]. rewrite Hs. by destruct s. }
    assert (forall j, in_unit m e j -> forall fuel, (j < fuel)%nat ->
      formatBytesFunc fuel v = Some (c ← String.get j "KMGTPE";
        Some (sign_text s +:+ FormatFixed 1 (shift10 (S754_finite false m e) (S j)) +:+ " " +:+ String c "B"))) as Hbig.
    { intros j Hj fuel Hf. unfold formatBytesFunc. rewrite Hn. replace (if s then SFopp (S754_finite s m e) else S754_finite s m e)
        with (S754_finite false m e) by (by destruct s). unfold bytes_text. cbn [float_ge].
      rewrite (mag_ge_mono _ _ 1024 (1024 ^ Z.of_nat (S j))); [|change 1024 with (1024 ^ 1) at 1; apply Z.pow_le_mono_r; lia|apply Hj].
      cbn [negb]. rewrite (bytes_loop_spec m e j fuel 0 Hj) by lia. cbn [mbind option_bind].
      destruct (String.get j "KMGTPE") as [c|]; [|done]. by destruct s. }
    assert (mag_ge m e 1024 = true -> exists j, (j < 102)%nat /\ in_unit m e j) as Hex.
    { intros H1. apply (find_unit m e 102 H1). by apply valid_float_bound in Hv. }
    split_and!; [done| |].
    + intros H1. destruct (Hex H1) as (j & Hj & Hu). exists j. split_and!; [done|done|]. by apply Hbig.
    + destruct (mag_ge m e 1024) eqn:E.
      * destruct (Hex eq_refl) as (j & Hj & Hu). rewrite (Hbig j Hu 102%nat Hj). destruct (decide (j < 6)%nat) as [H6|H6].
        -- assert (mag_ge m e (1024 ^ 7) = false) as ->.
           { destruct (mag_ge m e (1024 ^ 7)) eqn:E7; [|done]. destruct Hu as [_ Hhi].
             rewrite (mag_ge_mono _ _ _ (1024 ^ 7)) in Hhi; [done| |done]. apply Z.pow_le_mono_r; lia. }
           do 6 (destruct j as [|j]; [done|]). lia.
        -- split; [intros _|].
           ++ destruct Hu as [Hlo _]. apply (mag_ge_mono _ _ _ (1024 ^ Z.of_nat (S j))); [|done]. apply Z.pow_le_mono_r; lia.
           ++ intros _. do 6 (destruct j as [|j]; [lia|]). by destruct j.
      * rewrite Hsmall by done. split; [done|]. intros E7. rewrite (mag_ge_mono _ _ 1024 (1024 ^ 7)) in E; done.
  - intros s Hn fuel. unfold formatBytesFunc. rewrite Hn. replace (if s then SFopp (S754_infinity s) else S754_infinity s)
      with (S754_infinity false) by (by destruct s). unfold bytes_text. cbn [float_ge negb shift10]. by rewrite bytes_loop_infinite.
Qed.

(** ** Padding with zeros *)

Lemma digits_value_zeros k s acc : digits_value (rep "0" k +:+ s) (acc * 0) = digits_value s 0.
Proof. rewrite Z.mul_0_r. induction k as [|k IH]; [done|]. rewrite rep_S. cbn. exact IH. Qed.

Lemma ParseUint_zeros k z : 0 <= z -> ParseUint (rep "0" k +:+ pretty z) = Some z.
Proof.
  intros Hz. assert (digits_value (rep "0" k +:+ pretty z) 0 = Some z) as Hd.
  { change 0 with (0 * 0) at 1. rewrite digits_value_zeros. destruct z as [|p|p]; [done| |lia].
    change (pretty (Z.pos p)) with (pretty (Npos p)). pose proof (ParseUint_pretty (Npos p) ltac:(lia)) as Hp.
    unfold ParseUint in Hp. by destruct (pretty (Npos p)). }
  unfold ParseUint. destruct (rep "0" k +:+ pretty z) eqn:E; [|by rewrite <- E in *].
  exfalso. apply app_str_eq_nil in E as [_ E]. by destruct (pretty_nonneg z Hz).
Qed.

(** [zeropad] with a width that is not negative is at least so wide and reads back as
    the number. *)
Theorem zeropad_roundtrip `{FloatText, FloatToInt} v width (Hw : 0 <= width <= 1000000) :
  ParseInt (zeropadFunc v width) = Some (int64Func v) /\ width <= Z.of_nat (String.length (zeropadFunc v width)).
Proof.
  unfold zeropadFunc, int64Func. pose proof (float_to_int_range (toNumber v)) as Hr. set (n := float_to_int (toNumber v)) in *. clearbody n.
  unfold sprintf_width. rewrite decide_False by lia. rewrite decide_False by lia.
  set (k := (Z.to_nat width - String.length (pretty n))%nat). destruct (decide (n < 0)) as [Hn|Hn].
  - assert (pretty n = "-" +:+ pretty (Z.abs n)) as Ep by (by destruct n). split.
    + cbn [String.append]. unfold ParseInt. rewrite decide_True by done. rewrite ParseUint_zeros by lia. cbn.
      rewrite decide_True by (unfold two63 in *; lia). f_equal. lia.
    + rewrite !length_app_str, length_rep. unfold k. rewrite Ep, length_app_str. cbn [String.length]. lia.
  - rewrite Z.abs_eq by lia. change ("" +:+ (rep "0" k +:+ pretty n)) with (rep "0" k +:+ pretty n). split.
    + pose proof (ParseUint_zeros k n ltac:(lia)) as Hp.
      destruct (rep "0" k +:+ pretty n) as [|c r] eqn:E; [done|]. unfold ParseInt.
      assert (is_digit c = true) as Hc.
      { destruct (pretty_nonneg n ltac:(lia)) as [Hd _]. pose proof (rep_digits k) as Hz.
        assert (str_all is_digit (String c r) = true) as Ha by (by rewrite <- E, str_all_app, Hz, Hd).
        cbn in Ha. by apply andb_true_iff in Ha as [? _]. }
      rewrite decide_False by (by intros ->). rewrite decide_False by (by intros ->). rewrite Hp. cbn. by rewrite decide_True by lia.
    + rewrite length_app_str, length_rep. unfold k. lia.
Qed.

(** ** Evaluation at concrete inputs *)

Module Sample.
#[local] Instance texts : FloatText :=
  {| ParseFloat := fun s => match ParseInt s with Some z => Ok (f64 z) | None => Err (Errorf s) end; FormatFloat := fun _ => "" |}.
#[local] Instance overflow : FloatToInt.
Proof. refine {| float_overflow := fun _ => 0 |}. intros. unfold two63. lia. Defined.

Definition odd_format (dec : Z) (f : spec_float) : string := "?".

Example numbers :
  (formatNumberFunc odd_format (AInt (-1234567)) [], formatNumberFunc odd_format (AStr "999") [2],
   formatNumberFunc odd_format (AFloat (f64_div (f64 12345) (f64 10))) [1], formatPercentFunc odd_format (AFloat (f64_div (f64 1) (f64 8))) [])
  = ("-1,234,567", "999.00", "1,234.5", "12.5%").
Proof. by vm_compute. Qed.

(** Shifting the exponent is dividing by 1024. *)
Example shift_is_division : Forall (fun z => shift10 (f64 z) 1 = f64_div (f64 z) (f64 1024)) [1024; 1536; 1000000; 2 ^ 62 + 12345].
Proof. repeat constructor. Qed.

Example sizes : (fun z => formatBytesFunc 102 (AInt z)) <$> [0; 1023; 1536; -1048576; two63 - 1] =
  [Some (Some "0 B"); Some (Some "1023 B"); Some (Some "1.5 KB"); Some (Some "-1.0 MB"); Some (Some "8.0 EB")].
Proof. by vm_compute. Qed.

(** 2^70 and more: no unit is left, the template function panics. *)
Example size_too_large : formatBytesFunc 102 (AFloat (f64 (2 ^ 70))) = Some None.
Proof. by vm_compute. Qed.

(** An infinite number gets a comma. *)
Example infinity_grouped : formatNumberFunc odd_format (AFloat (S754_infinity false)) [] = "+,Inf".
Proof. by vm_compute. Qed.

Example rounding : (math_Round (f64_div (f64 5) (f64 2)), math_Floor (f64_div (f64 (-5)) (f64 2)), math_Ceil (f64_div (f64 (-5)) (f64 2)),
  math_Mod (f64 (-7)) (f64 3)) = (f64 3, f64 (-3), f64 (-2), f64 (-1)).
Proof. by vm_compute. Qed.

Lemma formatNumber_spec_witness : exists i groups frac,
  formatNumberFunc odd_format (AInt (-1234567)) [2] = "-" +:+ Join groups "," +:+ frac /\ grouped i groups.
Proof.
  destruct (formatNumber_spec odd_format (AInt (-1234567)) [2] true 5302424889720832 (-32)) as (i & groups & frac & Hf & _ & Hg & _).
  - by vm_compute.
  - vm_compute. by split.
  - exists i, groups, frac. split; [exact Hf|exact Hg].
Defined.

Lemma zeropad_roundtrip_witness : zeropadFunc (AInt (-42)) 6 = "-00042" /\ ParseInt (zeropadFunc (AInt (-42)) 6) = Some (-42).
Proof. split; [by vm_compute|]. destruct (zeropad_roundtrip (AInt (-42)) 6) as [Hp _]; [lia|]. exact Hp. Defined.
End Sample.
