(* ===== verification/Encoding.v ===== *)
(** * internal/tmpl: encodings and digests (engine.go)

    The template functions that encode and decode texts: query escaping and base 64
    as the standard library defines them, and the digests in hexadecimal, whose hash
    functions are parameters of which only the length of the output is known. *)
From S2P Require Import Prelude GoStrings PublicID.

(** ** Percent encoding *)

(** The bytes [url.QueryEscape] leaves alone. *)
Definition unreserved (c : ascii) : bool :=
  in_range 48 57 c || in_range 65 90 c || in_range 97 122 c || bool_decide (c = "-" \/ c = "_" \/ c = "." \/ c = "~")%char.

Definition upper_hex (n : N) : ascii := ascii_of_N (if (n <? 10)%N then 48 + n else 55 + n).

Definition escape_byte (c : ascii) : string :=
  if unreserved c then String c ""
  else if decide (c = " "%char) then "+"
  else String "%" (String (upper_hex (byte c / 16)) (String (upper_hex (byte c `mod` 16)) "")).

Fixpoint QueryEscape (s : string) : string :=
  match s with "" => "" | String c s => escape_byte c +:+ QueryEscape s end.

(** The value of a hexadecimal digit of either case. *)
Definition unhex (c : ascii) : option N :=
  if in_range 48 57 c then Some (byte c - 48)%N
  else if in_range 97 102 c then Some (byte c - 87)%N
  else if in_range 65 70 c then Some (byte c - 55)%N
  else None.

(** [None] for a percent sign that two hexadecimal digits do not follow. *)
Fixpoint QueryUnescape (s : string) : option string :=
  match s with
  | "" => Some ""
  | String "%" s =>
    match s with
    | String a (String b s) => x ← unhex a; y ← unhex b; String (ascii_of_N (16 * x + y)) <$> QueryUnescape s
    | _ => None
    end
  | String "+" s => String " " <$> QueryUnescape s
  | String c s => String c <$> QueryUnescape s
  end.

Definition urlEncodeFunc (s : string) : string := QueryEscape s.
Definition urlDecodeFunc (s : string) : string := default s (QueryUnescape s).
Definition urlDecodeOrFunc (s defaultVal : string) : string := default defaultVal (QueryUnescape s).

(** ** Base 64 *)

Definition Base64Alphabet : string := "ABCDEFGHIJKLMNOPQRSTUVWXYZabcdefghijklmnopqrstuvwxyz0123456789+/".

Definition digit64 (n : N) : ascii := default "="%char (String.get (N.to_nat n) Base64Alphabet).

(** Three bytes give four digits; one or two bytes are padded. *)
Fixpoint EncodeToString (s : string) : string :=
  match s with
  | "" => ""
  | String a "" =>
    let v := (65536 * byte a)%N in
    String (digit64 (v / 262144)) (String (digit64 ((v / 4096) `mod` 64)) "==")
  | String a (String b "") =>
    let v := (65536 * byte a + 256 * byte b)%N in
    String (digit64 (v / 262144)) (String (digit64 ((v / 4096) `mod` 64)) (String (digit64 ((v / 64) `mod` 64)) "="))
  | String a (String b (String c s)) =>
    let v := (65536 * byte a + 256 * byte b + byte c)%N in
    String (digit64 (v / 262144)) (String (digit64 ((v / 4096) `mod` 64))
      (String (digit64 ((v / 64) `mod` 64)) (String (digit64 (v `mod` 64)) (EncodeToString s))))
  end.

(** The value of a digit, read off the ranges of the alphabet. *)
Definition undigit64 (c : ascii) : option N :=
  if in_range 65 90 c then Some (byte c - 65)%N
  else if in_range 97 122 c then Some (byte c - 71)%N
  else if in_range 48 57 c then Some (byte c + 4)%N
  else if decide (c = "+"%char) then Some 62%N
  else if decide (c = "/"%char) then Some 63%N
  else None.

(** Line breaks are skipped wherever they stand. *)
Fixpoint skip_breaks (s : string) : string :=
  match s with
  | "" => ""
  | String c s => if (byte c =? 10)%N || (byte c =? 13)%N then skip_breaks s else String c (skip_breaks s)
  end.

(** Groups of four digits; padding ends the text.  The spare bits of the last digit
    are not looked at. *)
Fixpoint decode_groups (s : string) : option string :=
  match s with
  | "" => Some ""
  | String a (String b (String c (String d s))) =>
    x ← undigit64 a; y ← undigit64 b;
    if decide (c = "="%char) then
      if decide (d = "="%char /\ s = "") then Some (String (ascii_of_N (4 * x + y / 16)) "") else None
    else
      z ← undigit64 c;
      let first := String (ascii_of_N (4 * x + y / 16)) ∘ String (ascii_of_N (16 * (y `mod` 16) + z / 4)) in
      if decide (d = "="%char) then
        if decide (s = "") then Some (first "") else None
      else
        w ← undigit64 d;
        (first ∘ String (ascii_of_N (64 * (z `mod` 4) + w))) <$> decode_groups s
  | _ => None
  end.

Definition DecodeString (s : string) : option string := decode_groups (skip_breaks s).

Definition base64EncodeFunc (s : string) : string := EncodeToString s.
Definition base64DecodeFunc (s : string) : string := default s (DecodeString s).
Definition base64DecodeOrFunc (s defaultVal : string) : string := default defaultVal (DecodeString s).

(** ** Digests *)

(** [hex.EncodeToString] *)
Fixpoint hex_text (s : string) : string :=
  match s with "" => "" | String c s => hex 2 (byte c) +:+ hex_text s end.

Class Digests := {
  sha256_Sum256 : string -> string;
  md5_Sum : string -> string;
  sha256_length : forall s, String.length (sha256_Sum256 s) = 32%nat;
  md5_length : forall s, String.length (md5_Sum s) = 16%nat;
}.

Definition sha256Func `{Digests} (s : string) : string := hex_text (sha256_Sum256 s).
Definition md5Func `{Digests} (s : string) : string := hex_text (md5_Sum s).
Definition hmacSHA256Func `{Hmac} (key message : string) : string := hex_text (hmac_sha256 key message).

(** ** Round trips *)

Lemma unescape_byte c s : QueryUnescape (escape_byte c +:+ s) = String c <$> QueryUnescape s.
Proof. by destruct c as [[] [] [] [] [] [] [] []]. Qed.

(** What an escaped text is made of. *)
Definition query_byte (c : ascii) : bool := unreserved c || bool_decide (c = "%" \/ c = "+")%char.

Lemma escape_byte_query c : str_all query_byte (escape_byte c) = true.
Proof. by destruct c as [[] [] [] [] [] [] [] []]. Qed.

(** An escaped text is made of bytes that a query may contain as they are, and is
    decoded to the text it came from. *)
Theorem urlEncode_roundtrip s d :
  str_all query_byte (urlEncodeFunc s) = true /\ urlDecodeFunc (urlEncodeFunc s) = s /\ urlDecodeOrFunc (urlEncodeFunc s) d = s.
Proof.
  unfold urlDecodeFunc, urlDecodeOrFunc, urlEncodeFunc. assert (QueryUnescape (QueryEscape s) = Some s) as ->.
  { induction s as [|c s IH]; [done|]. cbn [QueryEscape]. by rewrite unescape_byte, IH. }
  split; [|done]. induction s as [|c s IH]; [done|]. cbn [QueryEscape]. by rewrite str_all_app, escape_byte_query, IH.
Qed.

(** The 64 digits, checked one by one. *)
Lemma digit64_spec n : (n < 64)%N -> undigit64 (digit64 n) = Some n /\ digit64 n <> "="%char /\
  ((byte (digit64 n) =? 10)%N || (byte (digit64 n) =? 13)%N) = false.
Proof.
  intros Hn. assert (Forall (fun k => undigit64 (digit64 (N.of_nat k)) = Some (N.of_nat k) /\
    digit64 (N.of_nat k) <> "="%char /\
    ((byte (digit64 (N.of_nat k)) =? 10)%N || (byte (digit64 (N.of_nat k)) =? 13)%N) = false) (seq 0 64)) as Hall.
  { apply (bool_decide_unpack _). by vm_compute. }
  apply (Forall_forall _ (seq 0 64)) with (x := N.to_nat n) in Hall; [by rewrite N2Nat.id in Hall|].
  apply elem_of_seq. lia.
Qed.

Lemma skip_digit n s : (n < 64)%N -> skip_breaks (String (digit64 n) s) = String (digit64 n) (skip_breaks s).
Proof. intros (_ & _ & Hb)%digit64_spec. cbn [skip_breaks]. by rewrite Hb. Qed.

(** Recursion by three bytes. *)
Lemma triple_ind (P : string -> Prop) : P "" -> (forall a, P (String a "")) -> (forall a b, P (String a (String b ""))) ->
  (forall a b c s, P s -> P (String a (String b (String c s)))) -> forall s, P s.
Proof.
  intros H0 H1 H2 H3 s. remember (String.length s) as n eqn:E. revert s E.
  induction n as [n IH] using lt_wf_ind. intros s ->. destruct s as [|a [|b [|c s]]]; auto.
  apply H3. eapply IH; [|done]. simpl. lia.
Qed.

Lemma group_digits24 v : (v < 16777216)%N ->
  (v / 262144 < 64 /\ (v / 4096) `mod` 64 < 64 /\ (v / 64) `mod` 64 < 64 /\ v `mod` 64 < 64)%N.
Proof. intros. repeat split; try (by apply N.mod_lt). by apply N.Div0.div_lt_upper_bound. Qed.

(** The three bytes of a group, out of its four digits. *)
Lemma group_bytes (a b c : ascii) : let v := (65536 * byte a + 256 * byte b + byte c)%N in
  (v < 16777216 /\
   4 * (v / 262144) + (v / 4096) `mod` 64 / 16 = byte a /\
   16 * (((v / 4096) `mod` 64) `mod` 16) + ((v / 64) `mod` 64) / 4 = byte b /\
   64 * (((v / 64) `mod` 64) `mod` 4) + v `mod` 64 = byte c)%N.
Proof.
  intros v. pose proof (byte_lt a). pose proof (byte_lt b). pose proof (byte_lt c). unfold v.
  generalize dependent (byte a). generalize dependent (byte b). generalize dependent (byte c). clear. intros c Hc b Hb a Ha.
  split; [lia|]. split; [zify; Z.to_euclidean_division_equations; lia|]. split; zify; Z.to_euclidean_division_equations; lia.
Qed.

Lemma ascii_of_byte (c : ascii) n : n = byte c -> ascii_of_N n = c.
Proof. intros ->. apply ascii_N_embedding. Qed.

Lemma decode_EncodeToString s : DecodeString (EncodeToString s) = Some s.
Proof.
  unfold DecodeString. induction s as [|a|a b|a b c s IH] using triple_ind; [done|..]; cbn [EncodeToString].
  - destruct (group_bytes a Ascii.zero Ascii.zero) as (Hv & H1 & _). change (byte Ascii.zero) with 0%N in *.
    rewrite !N.mul_0_r, !N.add_0_r in *. destruct (group_digits24 _ Hv) as (Hx & Hy & _).
    rewrite !skip_digit by done. change (skip_breaks "==") with "==". change (skip_breaks "=") with "=". destruct (digit64_spec _ Hx) as [Ex _], (digit64_spec _ Hy) as [Ey _].
    cbn [decode_groups mbind option_bind]. rewrite Ex, Ey. cbn [decode_groups mbind option_bind]. by rewrite (ascii_of_byte a).
  - destruct (group_bytes a b Ascii.zero) as (Hv & H1 & H2 & _). change (byte Ascii.zero) with 0%N in *.
    rewrite !N.add_0_r in *. destruct (group_digits24 _ Hv) as (Hx & Hy & Hz & _).
    rewrite !skip_digit by done. change (skip_breaks "==") with "==". change (skip_breaks "=") with "=". destruct (digit64_spec _ Hx) as [Ex _], (digit64_spec _ Hy) as [Ey _], (digit64_spec _ Hz) as (Ez & Nz & _).
    cbn [decode_groups mbind option_bind]. rewrite Ex, Ey. cbn [decode_groups mbind option_bind]. rewrite decide_False by done. rewrite Ez.
    cbn [decode_groups mbind option_bind]. by rewrite (ascii_of_byte a), (ascii_of_byte b).
  - destruct (group_bytes a b c) as (Hv & H1 & H2 & H3). destruct (group_digits24 _ Hv) as (Hx & Hy & Hz & Hw).
    rewrite !skip_digit by done. change (skip_breaks "==") with "==". change (skip_breaks "=") with "=". destruct (digit64_spec _ Hx) as [Ex _], (digit64_spec _ Hy) as [Ey _],
      (digit64_spec _ Hz) as (Ez & Nz & _), (digit64_spec _ Hw) as (Ew & Nw & _).
    cbn [decode_groups mbind option_bind]. rewrite Ex, Ey. cbn [decode_groups mbind option_bind]. rewrite decide_False by done. rewrite Ez.
    cbn [decode_groups mbind option_bind]. rewrite decide_False by done. rewrite Ew. cbn [decode_groups mbind option_bind].
    rewrite IH. cbn. by rewrite (ascii_of_byte a), (ascii_of_byte b), (ascii_of_byte c).
Qed.

(** A text is got back from its base 64 form, also when that was broken into lines. *)
Theorem base64_roundtrip s broken d (Hb : skip_breaks broken = skip_breaks (base64EncodeFunc s)) :
  base64DecodeFunc broken = s /\ base64DecodeOrFunc broken d = s.
Proof.
  unfold base64DecodeFunc, base64DecodeOrFunc, DecodeString. rewrite Hb.
  fold (DecodeString (base64EncodeFunc s)). unfold base64EncodeFunc. by rewrite decode_EncodeToString.
Qed.

Definition hex_byte (c : ascii) : bool := in_range 48 57 c || in_range 97 102 c.

Lemma hex_text_spec s : str_all hex_byte (hex_text s) = true /\ String.length (hex_text s) = (2 * String.length s)%nat.
Proof.
  induction s as [|c s [IHa IHl]]; [done|]. cbn [hex_text]. rewrite str_all_app, length_app_str, IHl, IHa.
  assert (str_all hex_byte (hex 2 (byte c)) = true /\ String.length (hex 2 (byte c)) = 2%nat) as [-> ->]
    by (by destruct c as [[] [] [] [] [] [] [] []]).
  split; [done|]. cbn. lia.
Qed.

(** A digest is 64 or 32 hexadecimal digits whatever the text, so it can stand in a
    cache key or a path. *)
Theorem digests_spec `{Digests, Hmac} s key :
  (str_all hex_byte (sha256Func s) && str_all hex_byte (md5Func s) && str_all hex_byte (hmacSHA256Func key s)) = true /\
  String.length (sha256Func s) = 64%nat /\ String.length (md5Func s) = 32%nat /\ String.length (hmacSHA256Func key s) = 64%nat.
Proof.
  unfold sha256Func, md5Func, hmacSHA256Func.
  destruct (hex_text_spec (sha256_Sum256 s)) as [-> ->], (hex_text_spec (md5_Sum s)) as [-> ->],
    (hex_text_spec (hmac_sha256 key s)) as [-> ->].
  by rewrite sha256_length, md5_length, hmac_sha256_length.
Qed.

(** ** Evaluation at concrete inputs *)

Module Sample.
Example encoded : (base64EncodeFunc <$> [""; "f"; "fo"; "foo"; "foob"; "fooba"; "foobar"]) =
  [""; "Zg=="; "Zm8="; "Zm9v"; "Zm9vYg=="; "Zm9vYmE="; "Zm9vYmFy"].
Proof. by vm_compute. Qed.

(** Missing padding, text after the padding and a foreign byte are errors, and the
    text is returned as it is; spare bits are not. *)
Example decoded : (base64DecodeFunc <$> ["Zg="; "Zg==Zg=="; "Z.=="; "Zh=="], base64DecodeOrFunc "Zg" "no") =
  (["Zg="; "Zg==Zg=="; "Z.=="; "f"], "no").
Proof. by vm_compute. Qed.

Example queries : (urlEncodeFunc "a b&c=~%", urlDecodeFunc "a+b%26c%3d", urlDecodeFunc "100%", urlDecodeOrFunc "%zz" "-") =
  ("a+b%26c%3D~%25", "a b&c=", "100%", "-").
Proof. by vm_compute. Qed.

Lemma base64_roundtrip_witness : base64DecodeFunc ("Zm9v" +:+ chr 10 +:+ "YmFy") = "foobar".
Proof. by apply (base64_roundtrip "foobar" _ ""). Defined.
End Sample.
