(* ===== verification/TmplIds.v ===== *)
(** * internal/tmpl: addresses, identifiers and validation helpers (engine.go)

    The network of an address for rate limit and cache keys, random identifiers,
    and the predicates on texts, among them [matches] with its cache of compiled
    patterns, which calls share and which is modelled one atomic access at a time.
    Addresses are numbers; their text form, regular expressions, URLs and UUIDs are
    parameters. *)
From S2P Require Import Prelude GoStrings PublicID Numbers ConfigLoad TmplFuncs TmplNum Encoding.

(** ** Addresses *)

(** [netip.Addr]: 32 bits, or 128 bits with a zone. *)
Inductive Addr :=
| V4 (n : Z)
| V6 (n : Z) (zone : string).

#[export] Instance Addr_eq_dec : EqDecision Addr.
Proof. solve_decision. Defined.

Definition Is4 (a : Addr) : bool := match a with V4 _ => true | V6 _ _ => false end.
Definition Is6 (a : Addr) : bool := negb (Is4 a).
(** [::ffff:0:0/96] *)
Definition Is4In6 (a : Addr) : bool := match a with V4 _ => false | V6 n _ => bool_decide (n / two32 = 65535) end.
Definition Unmap (a : Addr) : Addr := match a with V6 n _ => if Is4In6 a then V4 (n `mod` two32) else a | V4 _ => a end.

(** The top [b] of [width] bits. *)
Definition masked (width b n : Z) : Z := n / 2 ^ (width - b) * 2 ^ (width - b).

(** [Addr.Prefix(b)], the address of it: without zone, [None] for an error. *)
Definition Prefix (a : Addr) (b : Z) : option Addr :=
  match a with
  | V4 n => if decide (0 <= b <= 32) then Some (V4 (masked 32 b n)) else None
  | V6 n _ => if decide (0 <= b <= 128) then Some (V6 (masked 128 b n) "") else None
  end.

Definition addr_valid (a : Addr) : Prop := match a with V4 n => 0 <= n < 2 ^ 32 | V6 n _ => 0 <= n < 2 ^ 128 end.
Definition zoneless (a : Addr) : Prop := match a with V4 _ => True | V6 _ z => z = "" end.

(** The texts of addresses: what is printed is parsed again, and so is unique. *)
Class NetIP := {
  ParseAddr : string -> option Addr;
  Addr_String : Addr -> string;
  ParseAddr_valid : forall s a, ParseAddr s = Some a -> addr_valid a;
  ParseAddr_String : forall a, addr_valid a -> zoneless a -> ParseAddr (Addr_String a) = Some a;
}.

Definition defaultIPv4Prefix : Z := 32.
Definition defaultIPv6Prefix : Z := 64.

(** The prefix length for an address that is not an IPv4 one in IPv6. *)
Definition prefix_length (addr : Addr) (prefixes : list Z) : Z :=
  if Is4 addr then
    match prefixes with
    | p :: _ => if decide (p > 0 /\ p <= 32) then p else defaultIPv4Prefix
    | [] => defaultIPv4Prefix
    end
  else
    match prefixes with
    | [p] => if decide (p > 0 /\ p <= 128) then p else defaultIPv6Prefix
    | _ :: p :: _ => if decide (p > 0 /\ p <= 128) then p else defaultIPv6Prefix
    | [] => defaultIPv6Prefix
    end.

Section Network.
Context `{NetIP}.

Definition getIPNetwork (ip : string) (prefixes : list Z) : string * Z :=
  match ParseAddr ip with
  | None => (ip, 0)
  | Some addr =>
    let addr := if Is4In6 addr then Unmap addr else addr in
    let prefix := prefix_length addr prefixes in
    match Prefix addr prefix with None => (ip, 0) | Some pfx => (Addr_String pfx, prefix) end
  end.

Definition ipNetworkFunc (ip : string) (prefixes : list Z) : string := (getIPNetwork ip prefixes).1.

Definition ipPrefixFunc (ip : string) (prefixes : list Z) : string :=
  let '(network, prefix) := getIPNetwork ip prefixes in
  if decide (prefix = 0) then ip else network +:+ "/" +:+ pretty prefix.

Definition normalizeIPFunc (ip : string) : string :=
  match ParseAddr ip with
  | None => ip
  | Some addr => if Is4In6 addr then Addr_String (Unmap addr) else Addr_String addr
  end.

Definition isIPFunc (s : string) : bool := bool_decide (is_Some (ParseAddr s)).

Definition isIPv4Func (s : string) : bool :=
  match ParseAddr s with None => false | Some addr => Is4 addr || Is4In6 addr end.

Definition isIPv6Func (s : string) : bool :=
  match ParseAddr s with None => false | Some addr => Is6 addr && negb (Is4In6 addr) end.
End Network.

(** ** Identifiers

    [draw i] is the result of the [i]th [rand.Int], [None] for an error of the
    source; [uuid] is the text of the next UUID. *)

Definition uuidFunc (uuid : string) : string := uuid.
Definition uuidShortFunc (uuid : string) : string := ReplaceAll uuid "-" "".

Definition id_length (dflt : Z) (length : list Z) : Z :=
  match length with
  | l :: _ => if decide (l > 0) then (if decide (l > 32) then 32 else l) else dflt
  | [] => dflt
  end.

(** [uuidShortFunc()[:n]]; a text that is too short is a panic. *)
Definition uuid_prefix (uuid : string) (n : nat) : option string :=
  if decide (n <= String.length (uuidShortFunc uuid))%nat then Some (str_take n (uuidShortFunc uuid)) else None.

Definition text_of (l : list ascii) : string := foldr String "" l.

Definition shortIDFunc (draw : nat -> option Z) (uuid : string) (length : list Z) : option string :=
  let n := Z.to_nat (id_length 12 length) in
  match mapM draw (seq 0 n) with
  | None => uuid_prefix uuid n
  | Some idx => Some (text_of (digit62 <$> idx))
  end.

Definition nanoidAlphabet : string := "0123456789ABCDEFGHIJKLMNOPQRSTUVWXYZ_abcdefghijklmnopqrstuvwxyz-".

(** [rand n] are the bytes [rand.Read] gives. *)
Definition nanoidFunc (rand : nat -> option (list ascii)) (uuid : string) (length : list Z) : option string :=
  let n := Z.to_nat (id_length 21 length) in
  match rand n with
  | None => uuid_prefix uuid n
  | Some bytes => Some (text_of ((fun b => default "0"%char (String.get (N.to_nat (byte b `mod` 64)) nanoidAlphabet)) <$> bytes))
  end.

(** ** Validation helpers *)

Definition local_byte (c : ascii) : bool :=
  in_range 97 122 c || in_range 65 90 c || in_range 48 57 c || bool_decide (c ∈ [".";"_";"%";"+";"-"]%char).
Definition domain_byte (c : ascii) : bool :=
  in_range 97 122 c || in_range 65 90 c || in_range 48 57 c || bool_decide (c ∈ [".";"-"]%char).
Definition letter (c : ascii) : bool := in_range 97 122 c || in_range 65 90 c.

(** [[a-zA-Z0-9.\-]+\.[a-zA-Z]{2,}$]: the text after a dot that something precedes. *)
Fixpoint domain_matches (some : bool) (s : string) : bool :=
  match s with
  | "" => false
  | String c s =>
    (some && bool_decide (c = "."%char) && str_all letter s && bool_decide (2 <= String.length s)%nat)
    || (domain_byte c && domain_matches true s)
  end.

(** [emailRegex.MatchString] *)
Fixpoint email_matches (some : bool) (s : string) : bool :=
  match s with
  | "" => false
  | String c s =>
    (some && bool_decide (c = "@"%char) && domain_matches false s) || (local_byte c && email_matches true s)
  end.

Definition isEmailFunc (s : string) : bool := email_matches false s.

(** Third-party and URL parsing: the scheme and the host of a URL. *)
Class TextParsers := {
  uuid_Parse : string -> bool;
  url_Parse : string -> option (string * string);
}.

Definition isUUIDFunc `{TextParsers} (s : string) : bool := uuid_Parse s.

Definition isURLFunc `{TextParsers} (s : string) : bool :=
  match url_Parse s with Some (scheme, host) => bool_decide (scheme <> "") && bool_decide (host <> "") | None => false end.

(** ** Patterns and their cache

    [matches] loads the pattern from the cache, or compiles it, reads the counter,
    stores the pattern and counts it.  Each of the four is one atomic access; calls
    run beside each other.  A call is a value of [match_call]: what it has left to do. *)
Class Regexp := {
  regexp : Type;
  regexp_Compile : string -> option regexp;
  MatchString : regexp -> string -> bool;
}.

Definition regexCacheMaxSize : Z := 100.

Record RegexCache `{Regexp} := { regexCache : gmap string regexp; regexCacheSize : Z }.

Inductive match_call `{Regexp} :=
| Loading (pattern s : string)                     (* before regexCache.Load *)
| Checking (re : regexp) (pattern s : string)      (* compiled, before the counter is read *)
| Storing (re : regexp) (pattern s : string)       (* before LoadOrStore *)
| Counting (re : regexp) (pattern s : string)      (* stored, before AddInt64 *)
| Done (pattern s : string) (answer : bool).

Section Matches.
Context `{Regexp}.

(** The next access of a call; a call that is done does nothing more. *)
Definition advance (c : RegexCache) (k : match_call) : RegexCache * match_call :=
  match k with
  | Loading pattern s =>
    match regexCache c !! pattern with
    | Some re => (c, Done pattern s (MatchString re s))
    | None => match regexp_Compile pattern with
              | None => (c, Done pattern s false)
              | Some re => (c, Checking re pattern s)
              end
    end
  | Checking re pattern s =>
    if decide (regexCacheSize c < regexCacheMaxSize) then (c, Storing re pattern s)
    else (c, Done pattern s (MatchString re s))
  | Storing re pattern s =>
    match regexCache c !! pattern with
    | Some _ => (c, Done pattern s (MatchString re s))
    | None => ({| regexCache := <[pattern := re]> (regexCache c); regexCacheSize := regexCacheSize c |}, Counting re pattern s)
    end
  | Counting re pattern s =>
    ({| regexCache := regexCache c; regexCacheSize := regexCacheSize c + 1 |}, Done pattern s (MatchString re s))
  | Done _ _ _ => (c, k)
  end.

(** A call with nothing beside it: at most four accesses. *)
Definition matchesFunc (pattern s : string) (c : RegexCache) : RegexCache * bool :=
  let run r := advance r.1 r.2 in
  match Nat.iter 4 run (c, Loading pattern s) with
  | (c, Done _ _ answer) => (c, answer)
  | (c, _) => (c, false)
  end.

(** What [matches] means: no cache. *)
Definition matches (pattern s : string) : bool :=
  match regexp_Compile pattern with Some re => MatchString re s | None => false end.

(** Goroutines that call [matches]: one of them takes its next step, or begins another
    call when it is done. *)
Inductive calls_step : RegexCache * list match_call -> RegexCache * list match_call -> Prop :=
| step_advance c ks i k : ks !! i = Some k ->
    calls_step (c, ks) ((advance c k).1, <[i := (advance c k).2]> ks)
| step_again c ks i pattern s answer pattern' s' : ks !! i = Some (Done pattern s answer) ->
    calls_step (c, ks) (c, <[i := Loading pattern' s']> ks).

Definition empty_cache : RegexCache := {| regexCache := ∅; regexCacheSize := 0 |}.

(** *** The invariant *)

(** What a call knows of its pattern. *)
Definition call_ok (k : match_call) : Prop :=
  match k with
  | Loading _ _ => True
  | Checking re pattern _ | Storing re pattern _ | Counting re pattern _ => regexp_Compile pattern = Some re
  | Done pattern s answer => answer = matches pattern s
  end.

(** A call that has seen room and not counted its pattern yet, and one that has
    stored it but not counted. *)
Definition pending (k : match_call) : Z := match k with Storing _ _ _ | Counting _ _ _ => 1 | _ => 0 end.
Definition uncounted (k : match_call) : Z := match k with Counting _ _ _ => 1 | _ => 0 end.

Definition total_of (f : match_call -> Z) (ks : list match_call) : Z := foldr (fun k t => f k + t) 0 ks.

Record cache_ok (c : RegexCache) (ks : list match_call) : Prop := {
  ok_calls : Forall call_ok ks;
  ok_entries : map_Forall (fun pattern re => regexp_Compile pattern = Some re) (regexCache c);
  ok_count : Z.of_nat (size (regexCache c)) = regexCacheSize c + total_of uncounted ks;
  ok_bound : regexCacheSize c + total_of pending ks <= regexCacheMaxSize - 1 + Z.of_nat (List.length ks);
}.

Lemma total_cons f k ks : total_of f (k :: ks) = f k + total_of f ks.
Proof. done. Qed.

Lemma total_of_insert f ks i k k' : ks !! i = Some k -> total_of f (<[i := k']> ks) = total_of f ks - f k + f k'.
Proof.
  revert i. induction ks as [|k0 ks IH]; intros [|i] Hi; [done..| |].
  - injection Hi as ->. cbn [insert list_insert]. rewrite !total_cons. lia.
  - change (ks !! i = Some k) in Hi. cbn [insert list_insert]. rewrite !total_cons, IH by done. lia.
Qed.

Lemma pending_bound ks : total_of pending ks <= Z.of_nat (List.length ks).
Proof. induction ks as [|k ks IH]; [done|]. rewrite total_cons. destruct k; cbn [pending List.length]; lia. Qed.

(** At most the other calls are pending. *)
Lemma pending_others ks i k : ks !! i = Some k -> pending k = 0 -> total_of pending ks <= Z.of_nat (List.length ks) - 1.
Proof.
  revert i. induction ks as [|k0 ks IH]; intros [|i] Hi Hk; [done..| |]; rewrite total_cons; cbn [List.length].
  - injection Hi as ->. pose proof (pending_bound ks). lia.
  - specialize (IH i Hi Hk). destruct k0; cbn [pending]; lia.
Qed.

Ltac settle_call Hi := constructor; cbn [fst snd regexCache regexCacheSize];
  rewrite ?length_insert, ?(total_of_insert _ _ _ _ _ Hi); cbn [pending uncounted]; unfold regexCacheMaxSize in *; try done; try lia.

Lemma advance_ok c ks i k : ks !! i = Some k -> cache_ok c ks ->
  cache_ok (advance c k).1 (<[i := (advance c k).2]> ks).
Proof.
  intros Hi [Hk He Hc Hb]. pose proof (Forall_lookup_1 _ _ _ _ Hk Hi) as Hck.
  assert (forall k', call_ok k' -> Forall call_ok (<[i := k']> ks)) as Hcalls by (intros; by apply Forall_insert).
  pose proof (pending_others _ _ _ Hi) as Hothers.
  destruct k as [p s|re p s|re p s|re p s|p s a]; cbn [advance call_ok pending] in *.
  - destruct (regexCache c !! p) as [re|] eqn:El; [|destruct (regexp_Compile p) as [re|] eqn:Ec]; settle_call Hi;
      apply Hcalls; cbn; unfold matches; [by rewrite (He _ _ El)|done|by rewrite Ec].
  - specialize (Hothers eq_refl). unfold regexCacheMaxSize in *. case_decide; settle_call Hi; apply Hcalls; cbn; unfold matches; by rewrite ?Hck.
  - destruct (regexCache c !! p) as [re'|] eqn:El; settle_call Hi.
    + apply Hcalls; cbn; unfold matches; by rewrite Hck.
    + by apply Hcalls.
    + by apply map_Forall_insert_2.
    + rewrite map_size_insert_None by done. lia.
  - settle_call Hi. apply Hcalls; cbn; unfold matches; by rewrite Hck.
  - rewrite list_insert_id by done. by constructor.
Qed.

Lemma calls_step_ok st st' : calls_step st st' -> cache_ok st.1 st.2 -> cache_ok st'.1 st'.2.
Proof.
  intros [c ks i k Hi|c ks i p s a p' s' Hi] Hok; cbn in *; [by apply advance_ok|].
  destruct Hok as [Hk He Hc Hb]. constructor; cbn; rewrite ?length_insert, ?(total_of_insert _ _ _ _ _ Hi); try done; cbn; try lia.
  by apply Forall_insert.
Qed.

Lemma calls_step_length st st' : rtc calls_step st st' -> List.length st'.2 = List.length st.2.
Proof. induction 1 as [|x y z Hs _ IH]; [done|]. rewrite IH. destruct Hs; cbn; by rewrite length_insert. Qed.

Lemma calls_ok st st' : rtc calls_step st st' -> cache_ok st.1 st.2 -> cache_ok st'.1 st'.2.
Proof. induction 1; eauto using calls_step_ok. Qed.

(** C27: However the calls of [matches] interleave, each of them answers what compiling and
    matching the pattern would, and with [n] goroutines the cache never holds more than
    99 + n patterns: 100 when calls do not overlap. *)
Theorem matches_concurrent queries c ks
    (Hrun : rtc calls_step (empty_cache, (fun q => Loading q.1 q.2) <$> queries) (c, ks)) :
  (forall pattern s answer, Done pattern s answer ∈ ks -> answer = matches pattern s) /\
  Z.of_nat (size (regexCache c)) <= regexCacheMaxSize - 1 + Z.of_nat (List.length queries).
Proof.
  assert (cache_ok empty_cache ((fun q => Loading q.1 q.2) <$> queries)) as H0.
  { assert (forall f, f = pending \/ f = uncounted -> total_of f ((fun q => Loading q.1 q.2) <$> queries) = 0) as Hz.
    { intros f Hf. clear Hrun. induction queries as [|q l IH]; [done|]. rewrite fmap_cons, total_cons, IH. by destruct Hf as [-> | ->]. }
    constructor; rewrite ?Hz by auto.
    - apply Forall_fmap. by apply Forall_true.
    - apply map_Forall_empty.
    - done.
    - unfold regexCacheMaxSize. cbn [empty_cache regexCacheSize]. lia. }
  apply calls_step_length in Hrun as Hlen. cbn in Hlen. rewrite length_fmap in Hlen.
  assert (cache_ok c ks) as [Hk He Hc Hb] by (by apply (calls_ok _ _ Hrun)).
  split.
  - intros p s a Hin. by apply (proj1 (Forall_forall _ _) Hk) in Hin.
  - assert (total_of uncounted ks <= total_of pending ks) as Hle.
    { clear. induction ks as [|k ks IH]; [done|]. rewrite !total_cons. destruct k; cbn [pending uncounted]; lia. }
    rewrite <- Hlen. lia.
Qed.

(** Without overlap a call answers at once what it means, whatever the cache holds. *)
Lemma matchesFunc_spec pattern s c : map_Forall (fun p re => regexp_Compile p = Some re) (regexCache c) ->
  (matchesFunc pattern s c).2 = matches pattern s.
Proof.
  intros Hc. unfold matchesFunc, matches, Nat.iter, nat_rect. cbn [advance fst snd].
  destruct (regexCache c !! pattern) as [re|] eqn:El; cbn [advance fst snd]; [by rewrite (Hc _ _ El)|].
  destruct (regexp_Compile pattern) as [re|]; cbn [advance fst snd]; [|done].
  case_decide; cbn [advance fst snd]; [|done]. by rewrite El.
Qed.
End Matches.

(** ** Networks *)

Section Networks.
Context `{NetIP}.

(** The address a request is counted under. *)
Definition client (a : Addr) : Addr := if Is4In6 a then Unmap a else a.

Lemma client_spec a : addr_valid a -> addr_valid (client a) /\ Is4In6 (client a) = false.
Proof.
  intros Ha. unfold client. destruct (Is4In6 a) eqn:E; [|done]. destruct a as [n|n z]; [done|]. cbn [Unmap]. rewrite E.
  split; [|done]. cbn. unfold two32. by apply Z.mod_pos_bound.
Qed.

Lemma prefix_length_range a prefixes : 0 < prefix_length a prefixes <= (if Is4 a then 32 else 128).
Proof.
  unfold prefix_length, defaultIPv4Prefix, defaultIPv6Prefix.
  destruct (Is4 a), prefixes as [|p [|q prefixes]]; repeat case_decide; lia.
Qed.

(** The network of an address that is not mapped. *)
Definition network (a : Addr) (prefixes : list Z) : Addr :=
  let p := prefix_length a prefixes in
  match a with V4 n => V4 (masked 32 p n) | V6 n _ => V6 (masked 128 p n) "" end.

Lemma masked_range width b n : 0 <= b <= width -> 0 <= n < 2 ^ width -> 0 <= masked width b n <= n.
Proof.
  intros Hb Hn. unfold masked. assert (0 < 2 ^ (width - b)) by (apply Z.pow_pos_nonneg; lia).
  pose proof (Z.mul_div_le n (2 ^ (width - b)) ltac:(lia)). pose proof (Z.div_pos n (2 ^ (width - b)) ltac:(lia) ltac:(lia)).
  rewrite Z.mul_comm. split; [by apply Z.mul_nonneg_nonneg; lia|lia].
Qed.

Lemma network_valid a prefixes : addr_valid a -> addr_valid (network a prefixes) /\ zoneless (network a prefixes).
Proof.
  pose proof (prefix_length_range a prefixes) as Hp. unfold network.
  destruct a as [n|n z]; cbn [Is4 addr_valid zoneless] in *; intros Hn; (split; [|done]).
  - pose proof (masked_range 32 (prefix_length (V4 n) prefixes) n). lia.
  - pose proof (masked_range 128 (prefix_length (V6 n z) prefixes) n). lia.
Qed.

Lemma getIPNetwork_Some ip a prefixes : ParseAddr ip = Some a ->
  getIPNetwork ip prefixes = (Addr_String (network (client a) prefixes), prefix_length (client a) prefixes).
Proof.
  intros E. unfold getIPNetwork. rewrite E. fold (client a). pose proof (prefix_length_range (client a) prefixes) as Hp.
  unfold network. destruct (client a) as [n|n z]; cbn [Prefix Is4] in *; by rewrite decide_True by lia.
Qed.

Lemma Addr_String_inj a b : addr_valid a -> addr_valid b -> zoneless a -> zoneless b ->
  Addr_String a = Addr_String b -> a = b.
Proof. intros Ha Hb Za Zb E. apply (f_equal ParseAddr) in E. rewrite !ParseAddr_String in E by done. by injection E. Qed.

Lemma masked_eq width p n m : p <= width -> masked width p n = masked width p m <-> n / 2 ^ (width - p) = m / 2 ^ (width - p).
Proof. intros Hp. unfold masked. split; [|by intros ->]. intros E. eapply Z.mul_reg_r; [|exact E]. by apply Z.pow_nonzero; lia. Qed.

(** Two addresses are in one network if they are of one version, a mapped IPv4 address
    counting as IPv4, and agree in the leading bits. *)
Definition same_network (prefixes : list Z) (a b : Addr) : Prop :=
  match a, b with
  | V4 n, V4 m => n / 2 ^ (32 - prefix_length a prefixes) = m / 2 ^ (32 - prefix_length a prefixes)
  | V6 n _, V6 m _ => n / 2 ^ (128 - prefix_length a prefixes) = m / 2 ^ (128 - prefix_length a prefixes)
  | _, _ => False
  end.

Lemma network_eq prefixes a b : network a prefixes = network b prefixes <-> same_network prefixes a b.
Proof.
  pose proof (prefix_length_range a prefixes) as Hp. unfold network, same_network.
  destruct a as [n|n z], b as [m|m z']; cbn [Is4] in Hp; try done.
  - change (prefix_length (V4 m) prefixes) with (prefix_length (V4 n) prefixes). rewrite <- masked_eq by lia.
    split; [by intros [= ->]|by intros ->].
  - change (prefix_length (V6 m z') prefixes) with (prefix_length (V6 n z) prefixes). rewrite <- masked_eq by lia.
    split; [by intros [= ->]|by intros ->].
Qed.

(** Masking makes no mapped address. *)
Lemma network_client prefixes a : addr_valid a -> Is4In6 a = false -> client (network a prefixes) = network a prefixes.
Proof.
  intros Ha E. unfold client. destruct (Is4In6 (network a prefixes)) eqn:E'; [exfalso|done].
  pose proof (prefix_length_range a prefixes) as Hp. unfold network in E'. destruct a as [n|n z]; [done|]. cbn [Is4 Is4In6 addr_valid] in *.
  apply bool_decide_eq_true in E'. apply bool_decide_eq_false in E. apply E. clear E. revert Hp E'.
  generalize (prefix_length (V6 n z) prefixes). intros p Hp E'. unfold masked, two32 in *.
  assert (0 < 2 ^ (128 - p)) as Hpow by (apply Z.pow_pos_nonneg; lia).
  destruct (decide (96 <= p)) as [Hge|Hlt].
  - assert (2 ^ 32 = 2 ^ (p - 96) * 2 ^ (128 - p)) as E32 by (rewrite <- Z.pow_add_r by lia; f_equal; lia).
    assert (0 < 2 ^ (p - 96)) by (apply Z.pow_pos_nonneg; lia).
    change 4294967296 with (2 ^ 32) in *. rewrite E32 in *. rewrite Z.div_mul_cancel_r in E' by lia.
    by rewrite Z.mul_comm, <- Z.div_div by lia.
  - assert (2 ^ (128 - p) = 2 ^ (96 - p) * 2 ^ 32) as Ep by (rewrite <- Z.pow_add_r by lia; f_equal; lia).
    change 4294967296 with (2 ^ 32) in *. rewrite Ep, Z.mul_assoc, Z.div_mul in E' by done.
    assert (2 ^ (96 - p) = 2 * 2 ^ (95 - p)) as Eq by (rewrite <- Z.pow_succ_r by lia; f_equal; lia).
    rewrite Eq in E'. apply (f_equal Z.odd) in E'. rewrite !Z.odd_mul in E'. cbn in E'. by rewrite andb_false_r in E'.
Qed.

(** The network of an address is a key for its network: two addresses have the same key
    exactly if they are in one network, and the key of a key is the key. *)
Theorem ipNetwork_keys ip1 ip2 a1 a2 prefixes (H1 : ParseAddr ip1 = Some a1) (H2 : ParseAddr ip2 = Some a2) :
  (ipNetworkFunc ip1 prefixes = ipNetworkFunc ip2 prefixes <-> same_network prefixes (client a1) (client a2)) /\
  ipNetworkFunc (ipNetworkFunc ip1 prefixes) prefixes = ipNetworkFunc ip1 prefixes.
Proof.
  destruct (client_spec a1 (ParseAddr_valid _ _ H1)) as [V1 C1]. destruct (client_spec a2 (ParseAddr_valid _ _ H2)) as [V2 _].
  destruct (network_valid _ prefixes V1) as [N1 Z1], (network_valid _ prefixes V2) as [N2 Z2]. unfold ipNetworkFunc.
  rewrite (getIPNetwork_Some _ _ _ H1), (getIPNetwork_Some _ _ _ H2). cbn [fst]. split.
  - rewrite <- network_eq. split; [by apply Addr_String_inj|by intros ->].
  - rewrite (getIPNetwork_Some _ _ _ (ParseAddr_String _ N1 Z1)). cbn [fst]. rewrite (network_client _ _ V1 C1). f_equal.
    unfold network. pose proof (prefix_length_range (client a1) prefixes) as Hp.
    destruct (client a1) as [n|n z]; cbn [Is4] in Hp; f_equal.
    + match goal with |- masked _ ?p _ = masked _ ?q _ => change p with q end.
      rewrite masked_eq by lia. unfold masked. rewrite Z.div_mul; [done|]. by apply Z.pow_nonzero; lia.
    + match goal with |- masked _ ?p _ = masked _ ?q _ => change p with q end.
      rewrite masked_eq by lia. unfold masked. rewrite Z.div_mul; [done|]. by apply Z.pow_nonzero; lia.
Qed.

(** A text is an address of exactly one version, or none at all. *)
Theorem ip_versions s : isIPFunc s = isIPv4Func s || isIPv6Func s /\ (isIPv4Func s && isIPv6Func s) = false.
Proof.
  unfold isIPFunc, isIPv4Func, isIPv6Func, Is6. destruct (ParseAddr s) as [a|]; [|done]. rewrite bool_decide_true by (by eexists).
  by destruct (Is4 a), (Is4In6 a).
Qed.
End Networks.

(** ** Identifiers *)

(** 8, 4, 4, 4 and 12 hexadecimal digits. *)
Definition canonical_uuid (u : string) : Prop := exists a b c d e,
  u = a +:+ "-" +:+ b +:+ "-" +:+ c +:+ "-" +:+ d +:+ "-" +:+ e /\
  (String.length a, String.length b, String.length c, String.length d, String.length e) = (8, 4, 4, 4, 12)%nat /\
  str_all hex_byte (a +:+ b +:+ c +:+ d +:+ e) = true.

Lemma dash_consumes s raw (a : unit) rest : literal_at "-" s = Some (raw, a, rest) -> s = raw +:+ rest /\ raw <> "".
Proof.
  unfold literal_at. destruct (HasPrefix s "-") eqn:E; [|done]. intros [= <- <- <-]. split; [|discriminate].
  apply prefix_spec in E as [t ->]. by rewrite TrimPrefix_app.
Qed.

Lemma no_dash_kept a s : str_all hex_byte a = true -> ReplaceAll (a +:+ s) "-" "" = a +:+ ReplaceAll s "-" "".
Proof.
  intros Ha. induction a as [|c a IH]; [done|]. cbn in Ha. apply andb_true_iff in Ha as [Hc Ha].
  rewrite !app_str_cons. unfold ReplaceAll in *. rewrite (replace_all_skip _ _ dash_consumes); [by rewrite IH|].
  unfold literal_at. destruct (HasPrefix _ "-") eqn:E; [|done]. apply prefix_spec in E as [t [= -> _]]. discriminate Hc.
Qed.

Lemma dash_dropped s : ReplaceAll (String "-" s) "-" "" = ReplaceAll s "-" "".
Proof.
  change (String "-" s) with ("-" +:+ s). unfold ReplaceAll.
  rewrite (replace_all_match _ _ dash_consumes ("-" +:+ s) "-" tt s); [done|]. unfold literal_at. by rewrite HasPrefix_app, TrimPrefix_app.
Qed.

(** Without hyphens a UUID is 32 hexadecimal digits. *)
Lemma uuidShort_spec u : canonical_uuid u ->
  str_all hex_byte (uuidShortFunc u) = true /\ String.length (uuidShortFunc u) = 32%nat.
Proof.
  intros (a & b & c & d & e & -> & [= Ha Hb Hc Hd He] & Hh). unfold uuidShortFunc.
  assert (ReplaceAll (a +:+ "-" +:+ b +:+ "-" +:+ c +:+ "-" +:+ d +:+ "-" +:+ e) "-" "" = a +:+ b +:+ c +:+ d +:+ e) as ->.
  { rewrite !str_all_app in Hh. repeat (apply andb_true_iff in Hh as [? Hh]).
    repeat (rewrite no_dash_kept by done; f_equal; cbn [String.append]; rewrite ?dash_dropped).
    pose proof (no_dash_kept e "" Hh) as E. change (ReplaceAll "" "-" "") with "" in E.
    by rewrite app_str_nil_r in E. }
  split; [done|]. rewrite !length_app_str. lia.
Qed.

Lemma text_of_spec p l : Forall (fun c => p c = true) l -> str_all p (text_of l) = true /\ String.length (text_of l) = List.length l.
Proof.
  unfold text_of. induction 1 as [|c l Hc _ [IHa IHl]]; [done|]. cbn [foldr str_all String.length List.length]. by rewrite Hc, IHa, IHl.
Qed.

Lemma str_all_impl (p q : ascii -> bool) s : (forall c, p c = true -> q c = true) -> str_all p s = true -> str_all q s = true.
Proof.
  intros Hpq. induction s as [|c s IH]; [done|]. cbn. intros [Hc Hs]%andb_true_iff. by rewrite Hpq, IH.
Qed.

Lemma str_all_take p n s : str_all p s = true -> str_all p (str_take n s) = true.
Proof. intros Hs. rewrite <- (str_take_drop n s), str_all_app in Hs. by apply andb_true_iff in Hs as [? _]. Qed.

Lemma uuid_prefix_spec u n q : canonical_uuid u -> (n <= 32)%nat -> (forall c, hex_byte c = true -> q c = true) ->
  exists id, uuid_prefix u n = Some id /\ String.length id = n /\ str_all q id = true.
Proof.
  intros [Hh Hl]%uuidShort_spec Hn Hq. unfold uuid_prefix. rewrite decide_True by lia. eexists. split; [done|].
  split; [apply str_take_length; lia|]. by apply str_all_take, (str_all_impl hex_byte).
Qed.

Definition base62_byte (c : ascii) : bool := in_range 48 57 c || in_range 65 90 c || in_range 97 122 c.
Definition nanoid_byte (c : ascii) : bool := base62_byte c || bool_decide (c = "_" \/ c = "-")%char.

Lemma hex_base62 c : hex_byte c = true -> base62_byte c = true.
Proof.
  unfold hex_byte, base62_byte. rewrite !orb_true_iff, !byte_range. lia.
Qed.

Lemma id_length_range d l : 0 < d <= 32 -> 0 < id_length d l <= 32.
Proof. intros Hd. destruct l as [|x l]; cbn; repeat case_decide; lia. Qed.

Lemma digit62_byte i : 0 <= i < 62 -> base62_byte (digit62 i) = true.
Proof.
  intros Hi. assert (Forall (fun k => base62_byte (digit62 (Z.of_nat k)) = true) (seq 0 62)) as Hall by (apply (bool_decide_unpack _); by vm_compute).
  assert (Z.to_nat i ∈ seq 0 62) as Hin by (apply elem_of_seq; lia).
  apply (proj1 (Forall_forall _ _) Hall) in Hin. by rewrite Z2Nat.id in Hin by lia.
Qed.

(** Every identifier has the length asked for, between 1 and 32, or 12 and 21 by
    default, and consists of base 62 digits, in a NanoID also of _ and -; also when
    the random source fails and a UUID has to do. *)
Theorem identifiers_spec draw rand uuid length (Hu : canonical_uuid uuid)
    (Hdraw : forall i z, draw i = Some z -> 0 <= z < 62) (Hrand : forall n l, rand n = Some l -> List.length l = n) :
  (exists id, shortIDFunc draw uuid length = Some id /\ Z.of_nat (String.length id) = id_length 12 length /\
     1 <= Z.of_nat (String.length id) <= 32 /\ str_all base62_byte id = true) /\
  (exists id, nanoidFunc rand uuid length = Some id /\ Z.of_nat (String.length id) = id_length 21 length /\
     1 <= Z.of_nat (String.length id) <= 32 /\ str_all nanoid_byte id = true).
Proof.
  pose proof (id_length_range 12 length ltac:(lia)) as H12. pose proof (id_length_range 21 length ltac:(lia)) as H21.
  unfold shortIDFunc, nanoidFunc. split.
  - destruct (mapM draw _) as [idx|] eqn:E.
    + eexists. split; [done|]. apply mapM_Some in E. destruct (text_of_spec base62_byte (digit62 <$> idx)) as [Ha Hl].
      { apply Forall_fmap, Forall_forall. intros z Hz. apply list_elem_of_lookup in Hz as [i Hi].
        destruct (Forall2_lookup_r _ _ _ _ _ E Hi) as (k & _ & Hk). by eapply digit62_byte, Hdraw. }
      apply Forall2_length in E. rewrite length_seq in E. rewrite Hl, length_fmap, <- E. split; [lia|]. split; [lia|done].
    + destruct (uuid_prefix_spec uuid (Z.to_nat (id_length 12 length)) base62_byte Hu) as (id & -> & Hl & Ha); [lia|apply hex_base62|].
      exists id. rewrite Hl. split; [done|]. split; [lia|]. split; [lia|done].
  - destruct (rand _) as [bytes|] eqn:E.
    + eexists. split; [done|]. apply Hrand in E.
      destruct (text_of_spec nanoid_byte ((fun b => default "0"%char (String.get (N.to_nat (byte b `mod` 64)) nanoidAlphabet)) <$> bytes)) as [Ha Hl].
      { apply Forall_fmap, Forall_true. intros b. by destruct b as [[] [] [] [] [] [] [] []]. }
      rewrite Hl, length_fmap, E. split; [lia|]. split; [lia|done].
    + destruct (uuid_prefix_spec uuid (Z.to_nat (id_length 21 length)) nanoid_byte Hu) as (id & -> & Hl & Ha); [lia| |].
      { intros c Hc%hex_base62. unfold nanoid_byte. by rewrite Hc. }
      exists id. rewrite Hl. split; [done|]. split; [lia|]. split; [lia|done].
Qed.

(** ** Mail addresses *)

Lemma domain_matches_spec some s : domain_matches some s = true <-> exists d t,
  s = d +:+ "." +:+ t /\ str_all domain_byte d = true /\ (some = true \/ d <> "") /\
  str_all letter t = true /\ (2 <= String.length t)%nat.
Proof.
  revert some. induction s as [|c s IH]; intros some; cbn [domain_matches].
  { split; [done|]. intros (d & t & E & _). by destruct d. }
  rewrite orb_true_iff, !andb_true_iff, IH, !bool_decide_eq_true. split.
  - intros [[[[Hs ->] Ht] Hl]|[Hc (d & t & -> & Hd & _ & Ht & Hl)]].
    + exists "", s. split_and!; auto.
    + exists (String c d), t. cbn [str_all]. rewrite Hc, Hd. split_and!; auto.
  - intros ([|c' d] & t & E & Hd & Hs & Ht & Hl).
    + injection E as -> ->. left. destruct Hs as [-> |Hs]; [by split_and!|done].
    + rewrite app_str_cons in E. injection E as -> ->. cbn [str_all] in Hd. apply andb_true_iff in Hd as [Hc Hd].
      right. split; [done|]. exists d, t. by split_and!; auto.
Qed.

Lemma email_matches_spec some s : email_matches some s = true <-> exists l d t,
  s = l +:+ "@" +:+ d +:+ "." +:+ t /\ str_all local_byte l = true /\ (some = true \/ l <> "") /\
  str_all domain_byte d = true /\ d <> "" /\ str_all letter t = true /\ (2 <= String.length t)%nat.
Proof.
  revert some. induction s as [|c s IH]; intros some; cbn [email_matches].
  { split; [done|]. intros (l & d & t & E & _). by destruct l. }
  rewrite orb_true_iff, !andb_true_iff, IH, !bool_decide_eq_true, domain_matches_spec. split.
  - intros [[[Hs ->] (d & t & -> & Hd & [?|Hne] & Ht & Hl)]|[Hc (l & d & t & -> & Hl & _ & Hrest)]]; [done| |].
    + exists "", d, t. split_and!; auto.
    + exists (String c l), d, t. cbn [str_all]. rewrite Hc, Hl. split_and!; auto; apply Hrest.
  - intros ([|c' l] & d & t & E & Hl & Hs & Hd & Hne & Ht & Hlen).
    + injection E as -> ->. left. split; [destruct Hs as [-> |Hs]; [by split|done]|]. exists d, t. split_and!; auto.
    + rewrite app_str_cons in E. injection E as -> ->. cbn [str_all] in Hl. apply andb_true_iff in Hl as [Hc Hl].
      right. split; [done|]. exists l, d, t. split_and!; auto.
Qed.

(** A mail address is a local part, an at sign, and a domain that ends in a dot and at
    least two letters, each of the bytes allowed there. *)
Theorem isEmail_spec s : isEmailFunc s = true <-> exists l d t,
  s = l +:+ "@" +:+ d +:+ "." +:+ t /\ str_all local_byte l = true /\ l <> "" /\
  str_all domain_byte d = true /\ d <> "" /\ str_all letter t = true /\ (2 <= String.length t)%nat.
Proof. unfold isEmailFunc. rewrite email_matches_spec. naive_solver. Qed.

(** ** Evaluation at concrete inputs *)

Module Sample.
(** Addresses written as a version and a number. *)
Definition plain_Parse (s : string) : option Addr :=
  match s with
  | String v r =>
    n ← ParseUint r;
    if decide (v = "4"%char) then (if decide (0 <= n < 2 ^ 32) then Some (V4 n) else None)
    else if decide (v = "6"%char) then (if decide (0 <= n < 2 ^ 128) then Some (V6 n "") else None) else None
  | "" => None
  end.

Definition plain_String (a : Addr) : string :=
  match a with V4 n => String "4" (pretty n) | V6 n _ => String "6" (pretty n) end.

#[local] Instance plain_addresses : NetIP.
Proof.
  refine {| ParseAddr := plain_Parse; Addr_String := plain_String |}.
  - intros [|v r] a; [done|]. cbn. destruct (ParseUint r) as [n|]; [|done]. cbn.
    repeat case_decide; naive_solver.
  - assert (forall n, 0 <= n -> ParseUint (pretty n) = Some n) as Hp by (intros n Hn; exact (ParseUint_zeros 0 n Hn)).
    intros [n|n z]; cbn [addr_valid zoneless plain_String plain_Parse]; intros Hn Hz; rewrite Hp by lia; cbn [mbind option_bind].
    + by rewrite decide_True, decide_True by done.
    + rewrite decide_False, decide_True, decide_True by done. by subst.
Defined.

(** 10.1.2.3, 10.1.2.200 and 10.1.3.3 with a prefix of 24, the first also as a mapped
    address. *)
Example networks : (fun ip => ipNetworkFunc ip [24]) <$> ["4167838211"; "4167838408"; "4167838467"; "6281470849581571"; "x"]
  = ["4167838208"; "4167838208"; "4167838464"; "4167838208"; "x"].
Proof. by vm_compute. Qed.

Example prefixes : (ipPrefixFunc "4167838211" [24], ipPrefixFunc "4167838211" [0], ipPrefixFunc "x" [24], normalizeIPFunc "6281470849581571")
  = ("4167838208/24", "4167838211/32", "x", "4167838211").
Proof. by vm_compute. Qed.

(** A single prefix is used for both versions, of two the second is for IPv6. *)
Example both_versions : (prefix_length (V6 0 "") [24], prefix_length (V6 0 "") [24; 48], prefix_length (V6 0 "") [24; 0], prefix_length (V4 0) [48])
  = (24, 48, 64, 32).
Proof. done. Qed.

Lemma ipNetwork_keys_witness : ipNetworkFunc "4167838211" [24] = ipNetworkFunc "4167838408" [24].
Proof.
  destruct (ipNetwork_keys "4167838211" "4167838408" (V4 167838211) (V4 167838408) [24]) as [Heq _]; [by vm_compute..|].
  apply Heq. by vm_compute.
Defined.

Definition some_uuid : string := "550e8400-e29b-41d4-a716-446655440000".

Lemma some_uuid_canonical : canonical_uuid some_uuid.
Proof. exists "550e8400", "e29b", "41d4", "a716", "446655440000". by vm_compute. Qed.

Example ids : (shortIDFunc (fun i => Some (Z.of_nat i)) some_uuid [], shortIDFunc (fun _ => None) some_uuid [5],
  nanoidFunc (fun n => Some (repeat "?"%char n)) some_uuid [40]) =
  (Some "0123456789AB", Some "550e8", Some (text_of (repeat "-"%char 32))).
Proof. by vm_compute. Qed.

Lemma identifiers_spec_witness : exists id, shortIDFunc (fun _ => None) some_uuid [5] = Some id /\ Z.of_nat (String.length id) = 5.
Proof.
  destruct (identifiers_spec (fun _ => None) (fun _ => None) some_uuid [5]) as [(id & Hid & Hl & _) _];
    [apply some_uuid_canonical|discriminate|discriminate|].
  exists id. split; [exact Hid|exact Hl].
Defined.

Example mails : isEmailFunc <$> ["a.b+c@x-y.example"; "a@b.c"; "a@b@c.de"; "@b.de"; "a@.de"; "a@b.de" +:+ chr 10] =
  [true; false; false; false; false; false].
Proof. by vm_compute. Qed.

(** Patterns that are literal texts; the empty pattern is refused. *)
#[local] Instance literals : Regexp :=
  {| regexp := string; regexp_Compile := fun p => if decide (p = "") then None else Some p; MatchString := fun re s => Contains s re |}.

Example cached_matches :
  let c1 := matchesFunc "an" "banana" empty_cache in
  let c2 := matchesFunc "an" "apple" c1.1 in
  let c3 := matchesFunc "" "apple" c2.1 in
  (c1.2, c2.2, c3.2, regexCacheSize c3.1) = (true, false, false, 1).
Proof. by vm_compute. Qed.

(** Two calls with one pattern beside each other: the second to store it finds it. *)
Lemma matches_concurrent_witness : exists c ks,
  rtc calls_step (empty_cache, (fun q => Loading q.1 q.2) <$> [("an", "banana"); ("an", "apple")]) (c, ks) /\
  Done "an" "apple" false ∈ ks /\ Z.of_nat (size (regexCache c)) <= 101.
Proof.
  pose (run := fun i (st : RegexCache * list match_call) => match st.2 !! i with
    | Some k => ((advance st.1 k).1, <[i := (advance st.1 k).2]> st.2) | None => st end).
  assert (forall st i, rtc calls_step st (run i st)) as Hstep.
  { intros [c ks] i. unfold run. cbn [fst snd]. destruct (ks !! i) as [k|] eqn:E; [|done]. apply rtc_once. by constructor. }
  pose (final := foldl (fun st i => run i st) (empty_cache, (fun q => Loading q.1 q.2) <$> [("an", "banana"); ("an", "apple")])
    [0; 1; 0; 1; 0; 0; 1]%nat).
  assert (rtc calls_step (empty_cache, (fun q => Loading q.1 q.2) <$> [("an", "banana"); ("an", "apple")]) final) as Hrun.
  { unfold final. cbn [foldl]. do 7 (etrans; [|apply Hstep]). done. }
  destruct final as [c ks] eqn:E. exists c, ks. split; [exact Hrun|].
  destruct (matches_concurrent [("an", "banana"); ("an", "apple")] c ks Hrun) as [_ Hsize]. split; [|unfold regexCacheMaxSize in Hsize; cbn [List.length] in Hsize; lia].
  injection E as _ <-. vm_compute. right. left.
Defined.
End Sample.
