(* ===== verification/Program.v ===== *)
(** * The program: main.go and internal/service (service_other.go)

    [main] reads the flags, answers the ones that only print, loads the
    configuration, and validates it or runs the service: validation, the server's
    start, and its end by an error of the HTTP server or by a signal.  What is
    printed is a list of lines; the end of the process is its exit status, [None] a
    panic.  This is the program on systems other than Windows. *)
From S2P Require Import Prelude GoStrings Patterns GoValues Trace Numbers PublicID Cache RateLimit WfConfig SqlParams Expr Compile Executor Handler WfValidate DbText Db Metrics Adapters TmplEngine ConfigLoad CfgValidate Mux Logging ServerInit Openapi Admin Cron.

(** ** Service files and instructions *)

Record serviceTemplateData := { sd_Name : string; sd_ExePath : string; sd_ConfigPath : string; sd_Label : string }.

(** The embedded templates, and text/template on that data. *)
Class ServiceTemplates := {
  systemdUnitTemplate : string;
  launchdPlistTemplate : string;
  service_Parse : string -> option error;
  service_Execute : string -> serviceTemplateData -> result string;
  filepath_Abs : string -> result string;
  os_Executable : result string;
  GOOS : string;
}.

Definition defaultServiceName : string := "sql-proxy".

Definition or_default (name : string) : string := if decide (name = "") then defaultServiceName else name.

Definition plist_label (name : string) : string := "com.sqlproxy." +:+ name.

Section Instructions.
Context `{ServiceTemplates}.

(** A service file from its template. *)
Definition service_file (kind template : string) (data : serviceTemplateData) : result string :=
  match service_Parse template with
  | Some e => Err (Wrapf ("failed to parse " +:+ kind +:+ " template: ") e "")
  | None => match service_Execute template data with
            | Err e => Err (Wrapf ("failed to execute " +:+ kind +:+ " template: ") e "")
            | Ok text => Ok text
            end
  end.

Definition installLinux (name exePath configPath : string) : result (list string) :=
  try unitFile := service_file "systemd" systemdUnitTemplate
    {| sd_Name := name; sd_ExePath := exePath; sd_ConfigPath := configPath; sd_Label := "" |} in
  let unitPath := "/etc/systemd/system/" +:+ name +:+ ".service" in
  Ok ["=== Systemd Service Installation ==="; "";
      "1. Create the service file:";
      "   sudo tee " +:+ unitPath +:+ " << 'EOF'";
      unitFile +:+ "EOF"; "";
      "2. Reload systemd and enable the service:";
      "   sudo systemctl daemon-reload";
      "   sudo systemctl enable " +:+ name;
      "   sudo systemctl start " +:+ name; "";
      "3. Check status:";
      "   sudo systemctl status " +:+ name;
      "   sudo journalctl -u " +:+ name +:+ " -f"; ""].

Definition installDarwin (name exePath configPath : string) : result (list string) :=
  let plistLabel := plist_label name in
  try plistFile := service_file "launchd" launchdPlistTemplate
    {| sd_Name := name; sd_ExePath := exePath; sd_ConfigPath := configPath; sd_Label := plistLabel |} in
  let plistPath := "/Library/LaunchDaemons/" +:+ plistLabel +:+ ".plist" in
  Ok ["=== launchd Service Installation ==="; "";
      "1. Create the plist file:";
      "   sudo tee " +:+ plistPath +:+ " << 'EOF'";
      plistFile +:+ "EOF"; "";
      "2. Set permissions and load the service:";
      "   sudo chown root:wheel " +:+ plistPath;
      "   sudo chmod 644 " +:+ plistPath;
      "   sudo launchctl load " +:+ plistPath; "";
      "3. Check status:";
      "   sudo launchctl list | grep " +:+ name;
      "   tail -f /var/log/" +:+ name +:+ ".log"; ""].

Definition absolute (path : string) : string := match filepath_Abs path with Ok p => p | Err _ => path end.

Definition Install (name exePath configPath : string) : result (list string) :=
  let name := or_default name in
  let absExePath := absolute exePath in
  let absConfigPath := absolute configPath in
  if decide (GOOS = "linux") then installLinux name absExePath absConfigPath
  else if decide (GOOS = "darwin") then installDarwin name absExePath absConfigPath
  else Ok ["Service installation is not supported on " +:+ GOOS +:+ ".";
           "Run the binary directly with --daemon flag for background operation."].

(** One set of instructions for Linux, one for macOS, one for other systems. *)
Definition instructions (linux darwin other : list string) : list string :=
  if decide (GOOS = "linux") then linux else if decide (GOOS = "darwin") then darwin else other.

Definition Uninstall (name : string) : list string :=
  let name := or_default name in
  let plistPath := "/Library/LaunchDaemons/" +:+ plist_label name +:+ ".plist" in
  instructions
    ["To uninstall the systemd service:"; "";
     "   sudo systemctl stop " +:+ name;
     "   sudo systemctl disable " +:+ name;
     "   sudo rm /etc/systemd/system/" +:+ name +:+ ".service";
     "   sudo systemctl daemon-reload"]
    ["To uninstall the launchd service:"; ""; "   sudo launchctl unload " +:+ plistPath; "   sudo rm " +:+ plistPath]
    ["Service uninstallation is not supported on " +:+ GOOS +:+ "."].

Definition service_Start (name : string) : list string :=
  let name := or_default name in
  instructions ["To start the service:"; "   sudo systemctl start " +:+ name]
    ["To start the service:"; "   sudo launchctl start " +:+ plist_label name]
    ["Run the binary directly with --daemon flag to start."].

Definition service_Stop (name : string) : list string :=
  let name := or_default name in
  instructions ["To stop the service:"; "   sudo systemctl stop " +:+ name]
    ["To stop the service:"; "   sudo launchctl stop " +:+ plist_label name]
    ["Send SIGTERM to the process to stop it gracefully."].

Definition service_Restart (name : string) : list string :=
  let name := or_default name in
  instructions ["To restart the service:"; "   sudo systemctl restart " +:+ name]
    ["To restart the service:"; "   sudo launchctl stop " +:+ plist_label name; "   sudo launchctl start " +:+ plist_label name]
    ["Stop and start the process manually."].

Definition service_Status (name : string) : list string * string :=
  let name := or_default name in
  (instructions ["To check service status:"; "   sudo systemctl status " +:+ name]
     ["To check service status:"; "   sudo launchctl list | grep " +:+ plist_label name]
     ["Check if the process is running using ps or your platform's tools."],
   "use platform tools").
End Instructions.

(** ** Validation report *)

(** The description of a database and of a trigger. *)
Definition database_line (db : DatabaseConfig) : string :=
  let mode := if DbText.IsReadOnly db then "read-only" else "read-write" in
  let dbType := if decide (dc_Type db = "") then "sqlserver" else dc_Type db in
  if decide (dbType = "sqlite") then "  - " +:+ dc_Name db +:+ ": sqlite:" +:+ dc_Path db +:+ " (" +:+ mode +:+ ")"
  else "  - " +:+ dc_Name db +:+ ": " +:+ dc_User db +:+ "@" +:+ dc_Host db +:+ "/" +:+ dc_Database db +:+ " (" +:+ mode +:+ ")".

Definition trigger_lines (wf : WorkflowConfig) (t : TriggerConfig) : list string :=
  if decide (tc_Type t = "http" /\ tc_Path t <> "") then
    ["  " +:+ tc_Method t +:+ " " +:+ tc_Path t +:+ " - " +:+ wc_Name wf +:+ " (" +:+ pretty (List.length (tc_Parameters t)) +:+ " params)"]
  else if decide (tc_Type t = "cron") then ["  [cron] " +:+ tc_Schedule t +:+ " - " +:+ wc_Name wf]
  else [].

(** A heading with its lines, if there are any. *)
Definition report_section {A} (heading : string) (l : list A) (lines : list string) : list string :=
  match l with [] => [] | _ => [""; heading] ++ lines end.

Definition printValidationResult (configPath : string) (cfg : Config) (result : ValidationResult) : list string :=
  ["SQL Proxy Configuration Validator"; "=================================="; "Config file: " +:+ configPath; "";
   "Server: " +:+ sv_Host (cf_Server cfg) +:+ ":" +:+ pretty (sv_Port (cf_Server cfg));
   "Databases: " +:+ pretty (List.length (cf_Databases cfg)) +:+ " configured"] ++
  (database_line <$> cf_Databases cfg) ++
  ["Workflows: " +:+ pretty (List.length (cf_Workflows cfg)) +:+ " configured"] ++
  report_section "Workflows:" (cf_Workflows cfg) (flat_map (fun wf => flat_map (trigger_lines wf) (wc_Triggers wf)) (cf_Workflows cfg)) ++
  report_section "Warnings:" (vr_Warnings result) ((fun w => "  [WARN] " +:+ w) <$> vr_Warnings result) ++
  report_section "Errors:" (vr_Errors result) ((fun e => "  [ERROR] " +:+ e) <$> vr_Errors result) ++
  [""; if vr_Valid result then "Configuration valid" else "Configuration invalid"].

(** ** The service and the program *)

Record flags := {
  fl_config : string; fl_serviceName : string; fl_daemon : bool; fl_install : bool; fl_uninstall : bool; fl_start : bool;
  fl_stop : bool; fl_restart : bool; fl_status : bool; fl_validate : bool; fl_version : bool;
}.

(** What is printed, and the exit status. *)
Record outcome := { ou_stdout : list string; ou_stderr : list string; ou_status : Z }.

Definition success (lines : list string) : outcome := {| ou_stdout := lines; ou_stderr := []; ou_status := 0 |}.
Definition fatal (lines : list string) (msg : string) (e : error) : outcome :=
  {| ou_stdout := lines; ou_stderr := [msg +:+ Error e]; ou_status := 1 |}.

(** What ends a running service first: the HTTP server returned, or a signal came. *)
Inductive ending := StartReturned | SignalReceived.

Section Program.
Context `{UnicodeTables, TL : TemplateLang, EL : ExprLang, MapWalk, Schedules, Hmac, TextTemplate, FloatToInt}.
Context `{TokenBucket, UrlText, LogFiles, FloatText, ConfigSource, ServiceTemplates}.
Context `{!Cache.JsonSize any, !Cache.AgeOrder, R : !Cache.Ristretto (option (Cache.Entry any)), !Cache.Cron}.
Context {W : Type} {DB : SqlDB W} `{MySQLFormat, !HttpServers W}.

Abbreviation X := (M (Traced W event)).
Abbreviation Srv := (Server (W := W)).

(** [life] is what happens between the start and the signal, to the databases and to the
    server. *)
Context (life : Srv -> X Srv).

Definition joinErrors (errors : list string) : string := Join errors (chr 10 +:+ "  ").

Definition Run (cfg : Config) (interactive : bool) (now : Z) (e : ending) : X (option error) :=
  let* result := CfgValidate.Run cfg in
  if negb (vr_Valid result) then
    ret (Some (Errorf ("configuration validation failed:" +:+ chr 10 +:+ "  " +:+ joinErrors (vr_Errors result))))
  else
    let* r := ServerInit.New cfg interactive now in
    match r with
    | Err err => ret (Some err)
    | Ok srv =>
      match e with
      | StartReturned => let* r := Cron.Start srv in ret (Some r.1)
      | SignalReceived => let* srv := life srv in let* r := Shutdown srv in ret r.1.1
      end
    end.

(** The build sets the version. *)
Definition with_build (Version BuildTime : string) (cfg : Config) : Config :=
  let sv := cf_Server cfg in
  {| cf_Server := {| sv_Port := sv_Port sv; sv_Host := sv_Host sv; sv_DefaultTimeoutSec := sv_DefaultTimeoutSec sv;
       sv_MaxTimeoutSec := sv_MaxTimeoutSec sv; sv_Cache := sv_Cache sv; sv_TrustProxyHeaders := sv_TrustProxyHeaders sv;
       sv_APIVersion := sv_APIVersion sv; sv_Version := Version; sv_BuildTime := BuildTime |};
     cf_Databases := cf_Databases cfg; cf_Logging := cf_Logging cfg; cf_Metrics_Enabled := cf_Metrics_Enabled cfg;
     cf_Debug := cf_Debug cfg; cf_RateLimits := cf_RateLimits cfg; cf_Workflows := cf_Workflows cfg;
     cf_Variables := cf_Variables cfg; cf_PublicIDs := cf_PublicIDs cfg |}.

Definition install_service (Version : string) (f : flags) : outcome :=
  let banner := ["SQL Proxy Service " +:+ Version] in
  match os_Executable with
  | Err e => fatal banner "Failed to get executable path: " e
  | Ok exePath =>
    match filepath_Abs (fl_config f) with
    | Err e => fatal banner "Failed to get absolute config path: " e
    | Ok absConfigPath =>
      match Install (fl_serviceName f) exePath absConfigPath with
      | Err e => fatal banner "Failed to install service: " e
      | Ok lines => success (banner ++ lines)
      end
    end
  end.

(** The modes that do not read the configuration, in the order they are tried. *)
Definition print_mode (Version BuildTime : string) (f : flags) : option outcome :=
  if fl_version f then Some (success ["sql-proxy version " +:+ Version +:+ " (built " +:+ BuildTime +:+ ")"])
  else if fl_install f then Some (install_service Version f)
  else if fl_uninstall f then Some (success (("SQL Proxy Service " +:+ Version) :: Uninstall (fl_serviceName f)))
  else if fl_start f then Some (success (service_Start (fl_serviceName f)))
  else if fl_stop f then Some (success (service_Stop (fl_serviceName f)))
  else if fl_restart f then Some (success (service_Restart (fl_serviceName f)))
  else if fl_status f then
    let '(lines, st) := service_Status (fl_serviceName f) in
    Some (success (lines ++ ["Service " +:+ fl_serviceName f +:+ ": " +:+ st]))
  else None.

Definition main (Version BuildTime : string) (f : flags) (now : Z) (e : ending) : X outcome :=
  match print_mode Version BuildTime f with
  | Some o => ret o
  | None =>
    match Load (fl_config f) with
    | Err err => ret (fatal [] "Configuration error: " err)
    | Ok cfg =>
      let cfg := with_build Version BuildTime cfg in
      if fl_validate f then
        let* result := CfgValidate.Run cfg in
        ret {| ou_stdout := printValidationResult (fl_config f) cfg result; ou_stderr := [];
               ou_status := if vr_Valid result then 0 else 1 |}
      else
        let interactive := negb (fl_daemon f) in
        let lines := if interactive then ["SQL Proxy Service " +:+ Version;
                                          "Loaded " +:+ pretty (List.length (cf_Workflows cfg)) +:+ " workflows"] else [] in
        let* err := Run cfg interactive now e in
        match err with
        | Some err => ret (fatal lines "Service error: " err)
        | None => ret (success lines)
        end
    end
  end.

(** *** The service *)

(** What can happen while the server serves, with what it asks of the databases: requests
    and administration; queries and pings, which open and close no pool; reconnections. *)
Inductive serving (s : Srv) : list event -> Srv -> Prop :=
| serving_start : serving s [] s
| serving_runs t s1 s2 : serving s t s1 -> runs s1 s2 -> serving s t s2
| serving_asks t s1 t1 : serving s t s1 -> (forall p, balance p t1 = 0) -> serving s (t ++ t1) s1
| serving_reconnects t s1 name e m t1 st st' :
    serving s t s1 -> Manager_Reconnect (se_dbManager s1) name st = (Some (e, m), st') -> ds_log st' = ds_log st ++ t1 ->
    serving s (t ++ t1) (with_databases s1 m).

Definition pools_held (p : pool) (s : Srv) : Z := map_sum (holds p) (se_dbManager s).

Lemma reconnect_balance m name e m' st st' t p : Manager_Reconnect m name st = (Some (e, m'), st') ->
  ds_log st' = ds_log st ++ t -> balance p t = map_sum (holds p) m' - map_sum (holds p) m.
Proof.
  unfold Manager_Reconnect. destruct (m !! name) as [d|] eqn:Ed.
  - destruct (Reconnect_emits d st) as (t' & Hl & e' & d' & Er & _ & _ & Hb). unfold bind.
    destruct (Reconnect d st) as [r s1]. cbn [fst snd] in *. subst r. intros [= <- <- <-] Ht.
    rewrite Hl in Ht. apply app_inv_head in Ht as ->. rewrite Hb.
    rewrite <- (insert_delete_id m name d Ed) at 2. rewrite <- (insert_delete_eq m name d').
    rewrite !map_sum_insert by apply lookup_delete_eq. cbn [fst snd]. lia.
  - intros [= <- <- <-] Ht. rewrite <- (app_nil_r (ds_log st)) in Ht at 1. apply app_inv_head in Ht as <-. cbn. lia.
Qed.

Lemma serving_balance s t s' p : serving s t s' -> balance p t = pools_held p s' - pools_held p s.
Proof.
  unfold pools_held. induction 1 as [|t s1 s2 _ IH Hr|t s1 t1 _ IH Hb|t s1 name e m t1 st st' _ IH Hm Hl].
  - cbn. lia.
  - by rewrite (runs_databases _ _ Hr).
  - rewrite balance_app, Hb, IH. lia.
  - rewrite balance_app, IH. rewrite (reconnect_balance _ _ _ _ _ _ _ p Hm Hl). cbn. lia.
Qed.

Lemma close_all_panics l err s kd : kd ∈ l -> ~ connected kd.2 -> (close_all (W := W) l err s).1 = None.
Proof.
  revert err s. induction l as [|[n d] l IH]; intros err s Hin Hc; [by apply not_elem_of_nil in Hin|].
  cbn [close_all]. unfold bind. apply elem_of_cons in Hin as [->|Hin].
  - cbn [snd] in Hc. unfold Db.Close. destruct (d_conn (fields d)) eqn:E; [destruct Hc; by eexists|reflexivity].
  - destruct (Db.Close d s) as [[e|] s1]; [|done]. by apply IH.
Qed.

Lemma close_all_connected m err st r : (close_all (W := W) (walk m) err st).1 = Some r -> all_connected m.
Proof.
  intros E. apply map_Forall_lookup. intros n d Hn. destruct (d_conn (fields d)) eqn:Ed; [by eexists|]. exfalso.
  rewrite (close_all_panics (walk m) err st (n, d)) in E; [done|by apply walk_elem|]. intros [p Hp]. cbn in Hp. congruence.
Qed.

(** A shutdown that returns has closed every pool, unless the HTTP server refused to stop. *)
Lemma Shutdown_ends s st err steps s' st' : Shutdown s st = (Some (err, steps, s'), st') ->
  exists t, ds_log st' = ds_log st ++ t /\ ((is_Some err /\ t = []) \/ forall p, balance p t = - pools_held p s).
Proof.
  intros E. pose proof E as E'. unfold Shutdown in E'. apply run_bind_Some in E' as (dbg & s1 & E1 & E').
  apply run_bind_Some in E' as (e & s2 & E2 & E'). cbv zeta in E'.
  destruct (stop_debug_emits s st) as (t1 & Hl1 & _ & ->). rewrite E1 in Hl1.
  destruct (on_world_emits main_Shutdown s1) as (t2 & Hl2 & _ & ->). rewrite E2 in Hl2. cbn [fst snd] in *.
  destruct e as [e|].
  { injection E' as <- _ _ <-. exists []. split; [by rewrite Hl2, Hl1, !app_nil_r|]. left. split; [by eexists|done]. }
  apply run_bind_Some in E' as (r & s3 & E' & _). unfold Manager_Close in E'. apply run_bind_Some in E' as (e & s4 & E' & _).
  assert (all_connected (se_dbManager s)) as Hc. { eapply (close_all_connected _ None s2 e). cbn in E'. by rewrite E'. }
  destruct (Shutdown_emits s Hc st) as (t & Hl & err' & steps' & s'' & Hs & Hcase). rewrite E in Hl, Hs. injection Hs as <- <- <-.
  exists t. split; [done|]. destruct Hcase as [(He & _ & ->)|(_ & _ & Hb)]; [by left|by right].
Qed.

(** The assumption on [life]: it is made of the above. *)
Definition serves_well : Prop := forall s, emits (life s) (fun r t => forall s', r = Some s' -> serving s t s').

(** The outcome of a run, with the pools it opened and closed. *)
Lemma Run_pools cfg interactive now e st st' (Hlife : serves_well) :
  Run cfg interactive now e st = (Some None, st') ->
  accepted cfg /\ e = SignalReceived /\ exists t, ds_log st' = ds_log st ++ t /\ forall p, balance p t = 0.
Proof.
  unfold Run, bind at 1. destruct (Run_outcome cfg st) as (r & t0 & Hr & Hl0 & Hb0 & _ & Hacc).
  destruct (CfgValidate.Run cfg st) as [r' s0]. cbn [fst snd] in *. subst r'. destruct (vr_Valid r); cbn [negb]; [|done].
  specialize (Hacc eq_refl). intros ([srv|err] & s1 & Hn & E)%run_bind_Some; [|done]. destruct e.
  { apply run_bind_Some in E as ([err steps] & s2 & _ & [=]). }
  destruct (New_databases _ _ _ _ _ _ (ac_names _ Hacc) Hn) as (t1 & Hl1 & _ & Hb1).
  apply run_bind_Some in E as (srv' & s2 & E2 & E). destruct (Hlife srv s1) as (t2 & Hl2 & Hs2). rewrite E2 in Hl2, Hs2.
  apply run_bind_Some in E as ([[err steps] s'] & s3 & E3 & [= -> <-]).
  destruct (Shutdown_ends _ _ _ _ _ _ E3) as (t3 & Hl3 & [[[? [=]] _]|Hb3]). split; [done|]. split; [done|].
  exists (t0 ++ t1 ++ t2 ++ t3). split; [cbn in Hl2; by rewrite Hl3, Hl2, Hl1, Hl0, <- !(assoc_L (++))|]. intros p.
  rewrite !balance_app, Hb0, Hb1, Hb3, (serving_balance _ _ _ p (Hs2 _ eq_refl)). unfold pools_held. lia.
Qed.

(** A configuration with an error is not run: no server is made, and nothing stays open. *)
Lemma Run_refuses cfg interactive now e st (Hbad : ~ no_errors (format_issues cfg)) : exists err,
  Run cfg interactive now e st = (Some (Some err), st).
Proof.
  unfold Run, bind. destruct (Run_outcome cfg st) as (r & t & Hr & _ & _ & Hn & _). destruct (Hn Hbad) as [Hs Hv].
  destruct (CfgValidate.Run cfg st) as [r' s0]. cbn [fst snd] in *. subst. rewrite Hv. by eexists.
Qed.

(** C7: The process on systems other than Windows, and its exit status.  Whatever requests,
    administration and the health checker's reconnections do between start and signal,
    status 0 means that nothing was left open: every database pool the process opened, be
    it to test the configuration, to serve or to reconnect, has been closed; and a process
    that was to serve did so with an accepted configuration until a signal. *)
Theorem clean_exit Version BuildTime f now e st st' o (Hlife : serves_well)
    (Hmain : main Version BuildTime f now e st = (Some o, st')) (Hstatus : ou_status o = 0) :
  (exists t, ds_log st' = ds_log st ++ t /\ forall p, balance p t = 0) /\
  (print_mode Version BuildTime f = None -> exists cfg, Load (fl_config f) = Ok cfg /\ accepted (with_build Version BuildTime cfg) /\
     (fl_validate f = false -> e = SignalReceived)).
Proof.
  unfold main in Hmain. destruct (print_mode Version BuildTime f) as [o'|].
  { injection Hmain as <- <-. split; [|done]. exists []. by rewrite app_nil_r. }
  destruct (Load (fl_config f)) as [cfg|err]; [|injection Hmain as <- <-; done].
  destruct (fl_validate f).
  - unfold bind in Hmain. destruct (Run_outcome (with_build Version BuildTime cfg) st) as (r & t & Hr & Hl & Hb & _ & Hacc).
    destruct (CfgValidate.Run _ st) as [r' s0]. cbn [fst snd] in *. subst r'. injection Hmain as <- <-. cbn [ou_status] in Hstatus.
    split; [by exists t|]. intros _. exists cfg. split_and!; [done| |done]. apply Hacc. by destruct (vr_Valid r).
  - unfold bind in Hmain. destruct (Run _ _ now e st) as [[[err|]|] s0] eqn:Hr; [injection Hmain as <- <-; done| |done].
    injection Hmain as <- <-. destruct (Run_pools _ _ _ _ _ _ Hlife Hr) as (Hacc & He & Ht). split; [done|]. intros _. by exists cfg.
Qed.

(** With -validate the program never panics and serves nothing: it prints the report,
    whose last line is the verdict, exits with 0 exactly for a configuration that loads
    and in which no check of the format or the connections fails, and closes the pools
    it opened for the tests. *)
Theorem validate_mode Version BuildTime f now e st (Hv : fl_validate f = true) (Hp : print_mode Version BuildTime f = None) :
  exists o st' t, main Version BuildTime f now e st = (Some o, st') /\ ds_log st' = ds_log st ++ t /\ (forall p, balance p t = 0) /\
    match Load (fl_config f) with
    | Err err => o = fatal [] "Configuration error: " err
    | Ok cfg => exists r, (CfgValidate.Run (with_build Version BuildTime cfg) st).1 = Some r /\
        (ou_status o = 0 <-> vr_Valid r = true) /\
        last (ou_stdout o) = Some (if vr_Valid r then "Configuration valid" else "Configuration invalid") /\
        (forall msg, msg ∈ vr_Errors r -> ("  [ERROR] " +:+ msg) ∈ ou_stdout o)
    end.
Proof.
  unfold main. rewrite Hp, Hv. destruct (Load (fl_config f)) as [cfg|err].
  2:{ eexists _, _, []. split; [reflexivity|]. by rewrite app_nil_r. }
  unfold bind. destruct (Run_outcome (with_build Version BuildTime cfg) st) as (r & t & Hr & Hl & Hb & _).
  destruct (CfgValidate.Run _ st) as [r' s0]. cbn [fst snd] in *. subst r'. eexists _, s0, t.
  split; [reflexivity|]. split; [done|]. split; [done|]. exists r. cbn [ou_status ou_stdout]. split_and!; [done| | |].
  - by destruct (vr_Valid r).
  - unfold printValidationResult. by rewrite !app_assoc, last_app.
  - intros msg Hmsg. unfold printValidationResult. do 5 (apply elem_of_app; right). apply elem_of_app. left.
    unfold report_section. destruct (vr_Errors r) as [|m l] eqn:E; [by apply elem_of_nil in Hmsg|].
    apply elem_of_app. right. apply list_elem_of_fmap. by exists msg.
Qed.
End Program.

(** ** Evaluation at concrete inputs *)

Module Sample.
Import Executor.Sample Handler.Sample WfValidate.Sample ServerInit.Sample.
#[local] Existing Instances sample_lang sample_tables sample_walk sample_funcs sample_gotext sample_floats
  sample_templates sample_toint sample_platform sample_services sample_schedules sample_hmac sample_bucket
  sample_order TmplEngine.Sample.tiny_templates Db.Sample.sample_format Db.Sample.server
  Adapters.Sample.sample_size Adapters.Sample.any_store ascii_urls open_log Cache.Sample.no_cron Cron.Sample.quiet_servers.

(** The file is the configuration with a scheduled workflow, or one without databases. *)
#[local] Instance files : ConfigSource := {|
  ReadFile := fun path => if decide (path = "none.yaml") then Err (Errorf "no such file") else Ok path;
  LookupEnv := fun _ => None;
  yaml_Variables := fun _ => Ok {| va_EnvFile := ""; va_Values := None |};
  yaml_Config := fun text => Ok (if decide (text = "c.yaml") then Cron.Sample.scheduled else Openapi.Sample.cfg);
  godotenv_Read := fun _ => Ok ∅;
  filepath_IsAbs := fun _ => true;
  filepath_JoinDir := fun _ p => p |}.

#[local] Instance linux : ServiceTemplates := {|
  systemdUnitTemplate := "{{.Name}}"; launchdPlistTemplate := ""; service_Parse := fun _ => None;
  service_Execute := fun _ d => Ok (sd_ExePath d +:+ " --service-name " +:+ sd_Name d +:+ chr 10);
  filepath_Abs := fun p => Ok ("/" +:+ p); os_Executable := Ok "/bin/sql-proxy"; GOOS := "linux" |}.

Definition no_flags (config : string) (validate daemon : bool) : flags :=
  {| fl_config := config; fl_serviceName := ""; fl_daemon := daemon; fl_install := false; fl_uninstall := false;
     fl_start := false; fl_stop := false; fl_restart := false; fl_status := false; fl_validate := validate; fl_version := false |}.

Definition run_main (f : flags) (e : ending) : option Program.outcome * DSt :=
  main ret "1.0" "today" f 0 e (Db.Sample.start true).

(** Served until a signal, stopped by its HTTP server, refused, and not found. *)
Example statuses : ((fun o : option Program.outcome * DSt => match o.1 with Some o => Some (ou_status o) | None => None end) <$>
  [run_main (no_flags "c.yaml" false false) SignalReceived; run_main (no_flags "c.yaml" false false) StartReturned;
   run_main (no_flags "d.yaml" false false) SignalReceived; run_main (no_flags "none.yaml" false false) SignalReceived])
  = [Some 0; Some 1; Some 1; Some 1].
Proof. by vm_compute. Qed.

Example started_line : match (run_main (no_flags "c.yaml" false false) SignalReceived).1 with Some o => Some (ou_stdout o) | None => None end =
  Some ["SQL Proxy Service 1.0"; "Loaded 1 workflows"].
Proof. by vm_compute. Qed.

(** The flag that only prints is taken before the configuration is looked at. *)
Example stop_instructions : print_mode "1.0" "today" {| fl_config := "none.yaml"; fl_serviceName := ""; fl_daemon := false;
    fl_install := false; fl_uninstall := false; fl_start := false; fl_stop := true; fl_restart := true; fl_status := false;
    fl_validate := true; fl_version := false |} =
  Some (success ["To stop the service:"; "   sudo systemctl stop sql-proxy"]).
Proof. by vm_compute. Qed.

(** The pool is opened to validate and again to serve.  When the HTTP server ends by itself, say because its port is taken, the pools are
    left open: only a signal leads to Shutdown. *)
Definition left_open (l : list event) : list Z :=
  omap (fun ev => match ev with EOpen _ _ (Ok p) => Some (balance p l) | _ => None end) l.

Example start_error_leaks : (fun e => left_open (ds_log (run_main (no_flags "c.yaml" false false) e).2)) <$> [SignalReceived; StartReturned]
  = [[0; 0]; [1; 1]].
Proof. by vm_compute. Qed.

Lemma clean_exit_witness : exists o st' t, run_main (no_flags "c.yaml" false false) SignalReceived = (Some o, st') /\
  ds_log st' = ds_log (Db.Sample.start true) ++ t /\ forall p, balance p t = 0.
Proof.
  assert (match (run_main (no_flags "c.yaml" false false) SignalReceived).1 with Some o => bool_decide (ou_status o = 0) | None => false end = true)
    as Hok by (by vm_compute).
  destruct (run_main (no_flags "c.yaml" false false) SignalReceived) as [[o|] st'] eqn:E; [|discriminate Hok].
  cbn [fst] in Hok. apply bool_decide_eq_true in Hok. unfold run_main in E.
  destruct (clean_exit ret "1.0" "today" (no_flags "c.yaml" false false) 0 SignalReceived (Db.Sample.start true) st' o)
    as [(t & Hl & Hb) _]; [intros s; apply emits_ret; intros s' [= <-]; apply serving_start|exact E|exact Hok|].
  exists o, st', t. split; [reflexivity|]. split; [exact Hl|exact Hb].
Defined.

Lemma validate_mode_witness : exists o st', run_main (no_flags "d.yaml" true false) SignalReceived = (Some o, st') /\
  last (ou_stdout o) = Some "Configuration invalid".
Proof.
  destruct (validate_mode ret "1.0" "today" (no_flags "d.yaml" true false) 0 SignalReceived (Db.Sample.start true))
    as (o & st' & t & Hm & _ & _ & Hc); [reflexivity|reflexivity|].
  exists o, st'. split; [exact Hm|].
  assert ((CfgValidate.Run (with_build "1.0" "today" Openapi.Sample.cfg) (Db.Sample.start true)).1 <> None /\
    match (CfgValidate.Run (with_build "1.0" "today" Openapi.Sample.cfg) (Db.Sample.start true)).1 with Some r => vr_Valid r = false | None => True end)
    as [_ Hinv] by (by vm_compute).
  assert (Load "d.yaml" = Ok Openapi.Sample.cfg) as El by (by vm_compute).
  cbn [no_flags fl_config] in Hc. rewrite El in Hc. destruct Hc as (r & Hr & _ & Hlast & _). rewrite Hr in Hinv.
  by rewrite Hinv in Hlast.
Defined.
End Sample.
