(* ===== verification/PromMetrics.v ===== *)
(** * internal/metrics: the Prometheus metrics (metrics.go)

    The descriptors that [initPrometheusMetrics] registers, and the rules of the
    Prometheus client they and the calls on them must keep: a metric is registered
    once under a valid name, its labels are distinct and valid, a call gives as many
    values as the metric has labels, all of them UTF-8, and a counter is never decreased.
    The client panics when one is broken. *)
From S2P Require Import Prelude GoStrings GoValues Trace Numbers Patterns RateLimit WfConfig SqlParams Expr Compile Executor Handler Metrics Middleware.

(** ** Descriptors *)

Inductive metric_kind := KGauge | KCounter | KHistogram.

#[export] Instance metric_kind_eq_dec : EqDecision metric_kind.
Proof. solve_decision. Defined.

(** [de_field] names the field of the collector, as the calls of [Metrics] do. *)
Record metric_desc := {
  de_field : string; de_kind : metric_kind; de_name : string; de_help : string; de_labels : list string;
}.

(** In seconds, as multiples of a millisecond. *)
Definition defaultDurationBuckets : list Z := [1; 5; 10; 25; 50; 100; 250; 500; 1000; 2500; 5000; 10000].

(** In the order they are registered. *)
Definition initPrometheusMetrics : list metric_desc := [
  {| de_field := "info"; de_kind := KGauge; de_name := "sqlproxy_info";
     de_help := "Build information"; de_labels := ["version"; "build_time"] |};
  {| de_field := "uptime"; de_kind := KGauge; de_name := "sqlproxy_uptime_seconds";
     de_help := "Time since service start in seconds"; de_labels := [] |};
  {| de_field := "requests"; de_kind := KCounter; de_name := "sqlproxy_requests_total";
     de_help := "Total HTTP requests"; de_labels := ["endpoint"; "method"; "status_code"] |};
  {| de_field := "duration"; de_kind := KHistogram; de_name := "sqlproxy_request_duration_seconds";
     de_help := "Request latency distribution"; de_labels := ["endpoint"] |};
  {| de_field := "query_duration"; de_kind := KHistogram; de_name := "sqlproxy_query_duration_seconds";
     de_help := "SQL query latency distribution"; de_labels := ["endpoint"; "database"] |};
  {| de_field := "rows"; de_kind := KCounter; de_name := "sqlproxy_query_rows_total";
     de_help := "Total rows returned by queries"; de_labels := ["endpoint"] |};
  {| de_field := "errors"; de_kind := KCounter; de_name := "sqlproxy_errors_total";
     de_help := "Total errors by type"; de_labels := ["endpoint"; "error_type"] |};
  {| de_field := "db_healthy"; de_kind := KGauge; de_name := "sqlproxy_db_healthy";
     de_help := "Database health status (1=healthy, 0=unhealthy)"; de_labels := ["database"] |};
  {| de_field := "db_connections_open"; de_kind := KGauge; de_name := "sqlproxy_db_connections_open";
     de_help := "Current open database connections"; de_labels := ["database"] |};
  {| de_field := "db_connections_idle"; de_kind := KGauge; de_name := "sqlproxy_db_connections_idle";
     de_help := "Current idle database connections"; de_labels := ["database"] |};
  {| de_field := "cache_hits"; de_kind := KCounter; de_name := "sqlproxy_cache_hits_total";
     de_help := "Cache hits"; de_labels := ["endpoint"] |};
  {| de_field := "cache_misses"; de_kind := KCounter; de_name := "sqlproxy_cache_misses_total";
     de_help := "Cache misses"; de_labels := ["endpoint"] |};
  {| de_field := "cache_size_bytes"; de_kind := KGauge; de_name := "sqlproxy_cache_size_bytes";
     de_help := "Current cache size in bytes"; de_labels := ["endpoint"] |};
  {| de_field := "cache_keys"; de_kind := KGauge; de_name := "sqlproxy_cache_keys";
     de_help := "Number of cached keys"; de_labels := ["endpoint"] |};
  {| de_field := "ratelimit_allowed"; de_kind := KCounter; de_name := "sqlproxy_ratelimit_allowed_total";
     de_help := "Requests allowed by rate limiter"; de_labels := ["pool"] |};
  {| de_field := "ratelimit_denied"; de_kind := KCounter; de_name := "sqlproxy_ratelimit_denied_total";
     de_help := "Requests denied by rate limiter"; de_labels := ["pool"] |};
  {| de_field := "ratelimit_active_buckets"; de_kind := KGauge; de_name := "sqlproxy_ratelimit_active_buckets";
     de_help := "Active rate limit buckets"; de_labels := ["pool"] |};
  {| de_field := "cron_panics"; de_kind := KCounter; de_name := "sqlproxy_cron_panics_total";
     de_help := "Total panics recovered in cron workflows"; de_labels := ["workflow"] |}].

(** ** The rules of the client *)

Definition name_head (c : ascii) : bool := in_range 65 90 c || in_range 97 122 c || bool_decide (c = "_" \/ c = ":")%char.
Definition valid_metric_name (s : string) : bool :=
  match s with "" => false | String c r => name_head c && str_all (fun c => name_head c || is_digit c) r end.

(** A label name has no colon and no reserved double underscore in front. *)
Definition valid_label_name (s : string) : bool :=
  valid_metric_name s && negb (Contains s ":") && negb (HasPrefix s "__").

Definition valid_desc (d : metric_desc) : bool :=
  valid_metric_name (de_name d) && forallb valid_label_name (de_labels d) && bool_decide (NoDup (de_labels d))
  && (match de_kind d with KHistogram => negb (bool_decide ("le" ∈ de_labels d)) | _ => true end).

(** [MustRegister] of the metrics one after the other: a name is taken once. *)
Fixpoint register_all (names : gset string) (l : list metric_desc) : option (gset string) :=
  match l with
  | [] => Some names
  | d :: l => if valid_desc d && negb (bool_decide (de_name d ∈ names)) then register_all ({[de_name d]} ∪ names) l else None
  end.

Fixpoint increasing (l : list Z) : bool :=
  match l with
  | x :: (y :: _) as r => (x <? y) && increasing r
  | _ => true
  end.

(** The metric a call is for. *)
Definition described (field : string) (kind : metric_kind) (labels : list string) : bool :=
  match List.find (fun d => bool_decide (de_field d = field)) initPrometheusMetrics with
  | Some d => bool_decide (de_kind d = kind) && (List.length labels =? List.length (de_labels d))%nat
  | None => false
  end.

(** [utf8.ValidString]: no byte is decoded as an error. *)
Definition ValidString (s : string) : bool :=
  forallb (fun c => negb ((c.1 =? RuneError)%N && (String.length c.2 =? 1)%nat)) (chunks s).

(** A call with these label values finds the metric and is not refused for them. *)
Definition accepts (field : string) (kind : metric_kind) (labels : list string) : bool :=
  described field kind labels && forallb ValidString labels.

(** A call the client accepts. *)
Definition legal (op : prom_op) : bool :=
  match op with
  | PInc f ls => accepts f KCounter ls
  | PAdd f ls n => accepts f KCounter ls && (0 <=? n)
  | PSet f ls _ | PSetDuration f ls _ => accepts f KGauge ls
  | PObserve f ls _ => accepts f KHistogram ls
  end.

(** ** What a collector goes through *)

Inductive gauge_or_counter_call :=
| GCacheMiss (endpoint : string) | GAllowed (pool : string) | GDenied (pool : string) | GCronPanic (workflow : string)
| GHealth (database : string) (healthy : bool) | GPool (database : string) (open idle : Z)
| GCache (endpoint : string) (size keys : Z) | GBuckets (pool : string) (count : Z).

Definition perform (g : gauge_or_counter_call) (oc : option Collector) : option Collector :=
  match g with
  | GCacheMiss e => RecordCacheMiss oc e
  | GAllowed p => RecordRateLimitAllowed oc p
  | GDenied p => RecordRateLimitDenied oc p
  | GCronPanic w => RecordCronPanic oc w
  | GHealth d h => UpdateDBHealth oc d h
  | GPool d o i => UpdateDBPoolStats oc d o i
  | GCache e s k => UpdateCacheStats oc e s k
  | GBuckets p n => UpdateRateLimitBuckets oc p n
  end.

(** The label the caller gives. *)
Definition named (g : gauge_or_counter_call) : string :=
  match g with
  | GCacheMiss n | GAllowed n | GDenied n | GCronPanic n | GHealth n _ | GPool n _ _ | GCache n _ _ | GBuckets n _ => n
  end.

Section Used.
Context `{UnicodeTables, TL : TemplateLang, EL : ExprLang, FloatToInt, MapWalk, ExprFuncs, FloatText, GoText}.
Context {W : Type} {P : Platform W}.

(** *** The records of requests *)

(** The rows of a step as they are counted for the request. *)
Definition rows_of (result : ExecuteResult) (cs : CompiledStep) : Z :=
  if negb (IsQuery (cs_Config cs)) then 0
  else match er_Steps result !! sc_Name (cs_Config cs) with
  | None => 0
  | Some sr => if decide (sr_RowsAffected sr > 0) then sr_RowsAffected sr else sr_Count sr
  end.

Definition rows_total (result : ExecuteResult) (l : list CompiledStep) : Z := foldr (fun cs z => rows_of result cs + z) 0 l.

(** The names of a route are UTF-8, as YAML's are. *)
Definition names_utf8 (h : HTTPHandler) : Prop :=
  ValidString (wc_Name (cw_Config (hh_workflow h))) = true /\ ValidString (tc_Method (ct_Config (hh_trigger h))) = true /\
  Forall (fun cs => ValidString (sc_Database (cs_Config cs)) = true) (cw_Steps (hh_workflow h)).

(** What [metricsMiddleware] records for a request of a route: with the accumulator as it
    was made, if no workflow was run, or as [populateMetrics] left it after a run of the
    workflow.  The rows of one run fit an int64. *)
Inductive filled : RequestMetrics -> Prop :=
| filled_refused h total status xcache : names_utf8 h ->
    filled (request_metrics (wc_Name (cw_Config (hh_workflow h))) (tc_Method (ct_Config (hh_trigger h))) empty_acc total status xcache)
| filled_run h ctx trigger requestID s result s' total status xcache : names_utf8 h ->
    Execute ctx (hh_workflow h) trigger requestID (hh_variables h) s = (Some result, s') ->
    rows_total result (cw_Steps (hh_workflow h)) < two63 ->
    filled (request_metrics (wc_Name (cw_Config (hh_workflow h))) (tc_Method (ct_Config (hh_trigger h)))
              (populateMetrics h result empty_acc) total status xcache).

(** What the calls on the metrics use of a record. *)
Record recordable (m : RequestMetrics) : Prop := {
  rc_rows : 0 <= rm_RowCount m;
  rc_endpoint : ValidString (rm_Endpoint m) = true;
  rc_method : ValidString (rm_Method m) = true;
  rc_database : ValidString (rm_Database m) = true;
  rc_error : ValidString (rm_ErrorType m) = true;
}.

Definition acc_ok (acc : RequestAccumulator) : Prop :=
  ValidString (ac_Database acc) = true /\ ValidString (ac_ErrorType acc) = true.

Lemma rows_of_ge0 result cs : (forall n sr, er_Steps result !! n = Some sr -> 0 <= sr_Count sr) -> 0 <= rows_of result cs.
Proof.
  intros Hc. unfold rows_of. destruct (negb _); [lia|]. destruct (er_Steps result !! _) as [sr|] eqn:E; [|lia].
  specialize (Hc _ _ E). case_decide; lia.
Qed.

Lemma acc_step_rows result acc cs : ac_RowCount (acc_step result acc cs) =
  if negb (IsQuery (cs_Config cs)) then ac_RowCount acc
  else match er_Steps result !! sc_Name (cs_Config cs) with None => ac_RowCount acc | Some _ => i64 (ac_RowCount acc + rows_of result cs) end.
Proof.
  unfold acc_step, rows_of. destruct (negb (IsQuery _)); [done|]. by destruct (er_Steps result !! _).
Qed.

(** The rows of a run are added up without overflow. *)
Lemma acc_steps_rows result l acc : (forall n sr, er_Steps result !! n = Some sr -> 0 <= sr_Count sr) ->
  0 <= ac_RowCount acc -> ac_RowCount acc + rows_total result l < two63 ->
  ac_RowCount (foldl (acc_step result) acc l) = ac_RowCount acc + rows_total result l.
Proof.
  intros Hc. revert acc. induction l as [|cs l IH]; intros acc Ha Hs; cbn [foldl rows_total foldr] in *; [lia|].
  assert (0 <= rows_total result l) as Hl.
  { clear -Hc. unfold rows_total. induction l as [|cs l IH]; cbn; [lia|]. pose proof (rows_of_ge0 _ cs Hc). lia. }
  fold (rows_total result l) in *. pose proof (rows_of_ge0 _ cs Hc) as Hr.
  assert (ac_RowCount (acc_step result acc cs) = ac_RowCount acc + rows_of result cs) as E.
  { rewrite acc_step_rows. unfold rows_of in *. destruct (negb (IsQuery _)); [lia|]. destruct (er_Steps result !! _); [|lia].
    apply i64_small. unfold two63 in *. lia. }
  rewrite IH; rewrite ?E; lia.
Qed.

Lemma acc_steps_ok result l acc : Forall (fun cs => ValidString (sc_Database (cs_Config cs)) = true) l -> acc_ok acc ->
  acc_ok (foldl (acc_step result) acc l).
Proof.
  intros Hl. revert acc. induction Hl as [|cs l Hcs _ IH]; intros acc Ha; [done|]. cbn [foldl]. apply IH.
  unfold acc_step. destruct (negb _); [done|]. destruct (er_Steps result !! _); [|done]. split; [done|]. cbn.
  destruct (match sr_Error _ with Some _ => _ | None => _ end); [done|]. apply Ha.
Qed.

Lemma filled_recordable m : filled m -> recordable m.
Proof.
  destruct 1 as [h total status xcache (He & Hm & _)|h ctx trigger requestID s result s' total status xcache (He & Hm & Hd) Hc Hs]; [by split|].
  apply Execute_counts in Hc.
  assert (acc_ok (populateMetrics h result empty_acc)) as [Ho1 Ho2].
  { unfold populateMetrics. apply acc_steps_ok; [done|]. destruct (er_Error result) as [e|]; [|done].
    split; [done|]. cbn. by destruct (is_deadline e). }
  split; try done. cbn. unfold populateMetrics. rewrite acc_steps_rows; [|done|by destruct (er_Error result)|by destruct (er_Error result)].
  assert (forall l, 0 <= rows_total result l) as Hl; [|by destruct (er_Error result); cbn; apply Hl].
  induction l as [|cs l IH]; cbn; [lia|]. pose proof (rows_of_ge0 _ cs Hc). unfold rows_total in IH. lia.
Qed.

(** *** A collector *)

(** Since [Init]: groups of requests are recorded beside each other, the other calls are
    made with names that are UTF-8, snapshots are taken. *)
Inductive used : Collector -> Prop :=
| used_Init version buildTime now : ValidString version = true -> ValidString buildTime = true -> used (Init version buildTime now)
| used_records c ms s : used c -> Forall filled ms -> rtc step (start c ms) s -> used (s_coll s)
| used_call c g c' : used c -> ValidString (named g) = true -> perform g (Some c) = Some c' -> used c'
| used_snapshot c healthy now c' : used c -> (GetSnapshot (Some c) healthy now).2 = Some c' -> used c'.

Definition legal_instr (i : instr) : bool := match i with IProm op => legal op | _ => true end.

Lemma statusCodeString_utf8 code : ValidString (statusCodeString code) = true.
Proof. unfold statusCodeString. by repeat case_decide. Qed.

Lemma record_code_legal m : recordable m -> Forall (fun i => legal_instr i = true) (record_code m).
Proof.
  intros [Hr He Hm Hd Ht]. assert (forall b (l : list instr), Forall (fun i => legal_instr i = true) l ->
    Forall (fun i => legal_instr i = true) (if b : bool then l else [])) as Hif by (by intros []).
  unfold record_code. repeat (apply List.Forall_app; split); try (apply Hif); try (by repeat constructor).
  apply Forall_fmap. unfold compose, prom_calls. cbn [legal_instr].
  pose proof (statusCodeString_utf8 (rm_StatusCode m)) as Hs.
  repeat (apply List.Forall_app; split); repeat case_match; repeat constructor; cbn [legal accepts forallb];
    unfold accepts; cbn [forallb]; rewrite ?He, ?Hm, ?Hd, ?Ht, ?Hs; try done.
  apply andb_true_iff. split; [done|]. by apply Z.leb_le.
Qed.

Lemma exec1_legal i c c' more : exec1 i c = (c', more) -> legal_instr i = true -> Forall (fun op => legal op = true) (co_prom c) ->
  Forall (fun op => legal op = true) (co_prom c') /\ Forall (fun i => legal_instr i = true) more.
Proof.
  intros E Hi Hc. destruct i as [t|e q|e q|e k n|e d|e old d|e d|e old d|op]; cbn [exec1] in E; repeat case_decide; simplify_eq;
    try (split; [done|by repeat constructor]); try (by split; [by destruct t|constructor]).
  split; [|constructor]. cbn. apply List.Forall_app. split; [done|]. by constructor.
Qed.

Definition legal_state (s : State) : Prop :=
  Forall (fun op => legal op = true) (co_prom (s_coll s)) /\ Forall (Forall (fun i => legal_instr i = true)) (s_callers s).

Lemma step_legal s s' : step s s' -> legal_state s -> legal_state s'.
Proof.
  intros [c before i code after c' more E] [Hc Hs]. cbn in *. apply List.Forall_app in Hs as [Hb Hs].
  inversion Hs as [|? ? Hcode Ha]; subst. inversion Hcode as [|? ? Hi Hr]; subst.
  destruct (exec1_legal _ _ _ _ E Hi Hc) as [Hc' Hm]. split; [done|]. cbn.
  apply List.Forall_app. split; [done|]. constructor; [|done]. apply List.Forall_app. by split.
Qed.

(** C26: No metric call panics: the metrics can all be registered; and in the life of a
    collector, whatever requests are recorded beside each other and whatever else is
    counted, every call on a metric is one the client accepts: the metric exists, is of
    that kind and has that many labels, the label values are UTF-8, and a counter is not
    decreased.  The records are those the middleware makes of accumulators that
    [populateMetrics] fills from runs of workflows.  Assumed are names in UTF-8, of the
    build, of the configuration and of the other calls, and that the rows of one run fit
    an int64: beyond, the sum wraps and the client would refuse it. *)
Theorem metric_calls_legal c (Hused : used c) :
  is_Some (register_all ∅ initPrometheusMetrics) /\ increasing defaultDurationBuckets = true /\
  Forall (fun op => legal op = true) (co_prom c).
Proof.
  split; [apply (bool_decide_unpack _); by vm_compute|]. split; [done|].
  induction Hused as [v b now Hv Hb|c ms s _ IH Hms Hrun|c g c' _ IH Hn Hg|c h now c' _ IH Hs].
  - constructor; [|done]. cbn [legal]. unfold accepts. cbn [forallb]. by rewrite Hv, Hb.
  - assert (legal_state (start c ms)) as H0'.
    { split; [done|]. cbn. apply Forall_fmap. eapply Forall_impl; [exact Hms|]. intros m Hm. by apply record_code_legal, filled_recordable. }
    assert (legal_state s) as [Hs _]; [|done]. clear IH Hms. induction Hrun; eauto using step_legal.
  - destruct g; cbn [named] in Hn; injection Hg as <-; cbn [prom co_prom]; rewrite ?List.Forall_app; repeat split; try done;
      (constructor; [|done]); cbn [legal]; unfold accepts; cbn [forallb]; by rewrite Hn.
  - injection Hs as <-. cbn. apply List.Forall_app. split; [done|]. by repeat constructor.
Qed.
End Used.

(** ** Evaluation at concrete inputs *)

Module Sample.
Import Executor.Sample Handler.Sample Metrics.Sample.
#[local] Existing Instances sample_lang sample_templates sample_tables sample_toint sample_walk sample_funcs sample_gotext
  sample_floats sample_platform.

(** A negative number of rows, a wrong number of labels, a counter set like a gauge, a
    label that is not UTF-8. *)
Example refused : legal <$> [PAdd "rows" ["orders"] (-1); PInc "requests" ["orders"]; PSet "errors" ["orders"; "x"] 1; PInc "none" [];
                             PInc "cache_hits" [chr 255]] =
  [false; false; false; false; false].
Proof. by vm_compute. Qed.

Example utf8 : ValidString <$> ["Größe"; "日本"; chr 195; chr 239 +:+ chr 191 +:+ chr 189] = [true; true; false; true].
Proof. by vm_compute. Qed.

(** A handler with one query, and its run, which gets a row. *)
Definition one_query : HTTPHandler :=
  handler [{| sc_Name := "q"; sc_Disabled := false; sc_Condition := ""; sc_OnError := ""; sc_Type := "query";
     sc_Cache := None; sc_Params := ∅; sc_Database := "main"; sc_SQL := "SELECT 1"; sc_Isolation := "";
     sc_LockTimeoutMs := None; sc_DeadlockPriority := ""; sc_JSONColumns := []; sc_URL := "";
     sc_HTTPMethod := ""; sc_Headers := ∅; sc_Body := ""; sc_Parse := ""; sc_TimeoutSec := 0;
     sc_Retry := None; sc_StatusCode := 0; sc_Template := ""; sc_Iterate := None; sc_Inputs := ∅;
     sc_Steps := None; sc_Outputs := ∅ |}] None.

Definition its_run : option ExecuteResult * St (W := Z) :=
  Execute background (hh_workflow one_query) Executor.Sample.trigger "r" (hh_variables one_query) Executor.Sample.start.
Definition one_row : ExecuteResult := default (result_with false ∅ false None 0) its_run.1.

(** It is recorded beside a request that was refused. *)
Definition pair : list RequestMetrics :=
  [request_metrics (wc_Name (cw_Config (hh_workflow one_query))) (tc_Method (ct_Config (hh_trigger one_query)))
     (populateMetrics one_query one_row empty_acc) 5000 200 "";
   request_metrics (wc_Name (cw_Config (hh_workflow one_query))) (tc_Method (ct_Config (hh_trigger one_query))) empty_acc 10 405 ""].

Definition recorded : State := foldl step_at (Metrics.start c0 pair) turns.

Lemma metric_calls_legal_witness : List.length (co_prom (s_coll recorded)) = 8%nat /\
  PAdd "rows" ["w"] 1 ∈ co_prom (s_coll recorded) /\
  Forall (fun op => legal op = true) (co_prom (s_coll recorded)).
Proof.
  split; [by vm_compute|]. split; [apply (list_elem_of_lookup_2 _ 7%nat); by vm_compute|].
  refine (proj2 (proj2 (metric_calls_legal (s_coll recorded) _))).
  apply (used_records c0 pair recorded); [by apply used_Init| |apply schedule_steps].
  assert (names_utf8 one_query) as Hn by (split_and!; [reflexivity..|repeat constructor]).
  apply Forall_cons. split; [|apply Forall_singleton; by apply filled_refused].
  apply (filled_run one_query background Executor.Sample.trigger "r" Executor.Sample.start one_row its_run.2); [exact Hn|reflexivity|reflexivity].
Defined.
End Sample.
