(* ===== verification/WfFuncs.v ===== *)
(** * internal/workflow: the functions of templates and conditions (compile.go)

    Workflow templates use the functions of internal/tmpl, with lookups that also take
    a [map[string]any] and with public ids that are encoded by a process-wide encoder;
    conditions can check a public id.  The encoder is an atomic variable: never stored,
    stored as nil, or an encoder. *)
From S2P Require Import Prelude GoStrings GoValues Numbers PublicID RateLimit WfConfig SqlParams Executor TmplEngine TmplFuncs.

(** ** Lookups *)

(** The value and whether it was found. *)
Definition getMapValue (m : any) (key : string) : string * bool :=
  match m with
  | ANil => ("", false)
  | AStrMap t => match t !! key with Some v => (v, true) | None => ("", false) end
  | AMap t => match t !! key with Some (AStr s) => (s, true) | _ => ("", false) end
  | _ => ("", false)
  end.

Definition wf_getOr (m : any) (key fallback : string) : string :=
  let '(val, found) := getMapValue m key in
  if negb found || bool_decide (val = "") then fallback else val.

Definition wf_require `{UnicodeTables} (m : any) (key : string) : result string :=
  match m with
  | ANil => Err (Errorf ("required key " +:+ Quote key +:+ ": nil map"))
  | _ =>
    let '(val, found) := getMapValue m key in
    if negb found then Err (Errorf ("required key " +:+ Quote key +:+ " not found"))
    else if decide (val = "") then Err (Errorf ("required key " +:+ Quote key +:+ " is empty"))
    else Ok val
  end.

Definition wf_has (m : any) (key : string) : bool :=
  let '(val, found) := getMapValue m key in found && bool_decide (val <> "").

(** ** Public ids *)

(** [templateEncoder]: what [Load] of the atomic value gives. *)
Abbreviation EncoderVar := (option (option Encoder)).

Definition SetTemplateEncoder (enc : option Encoder) (_ : EncoderVar) : EncoderVar := Some enc.

Definition getTemplateEncoder (v : EncoderVar) : option Encoder := match v with None => None | Some enc => enc end.

(** Of the integer types the program only makes [int] and [int64]. *)
Definition toInt64 `{FloatToInt} (v : any) : result Z :=
  match v with
  | AInt n | AInt64 n => Ok n
  | AFloat n => Ok (float_to_int n)
  | _ => Err (Errorf ("invalid numeric type " +:+ type_name v))
  end.

Definition wf_publicID `{FloatToInt} (v : EncoderVar) (namespace : string) (id : any) : result string :=
  match getTemplateEncoder v with
  | None => Err (Errorf "publicID: encoder not configured")
  | Some enc => match toInt64 id with Err e => Err (Wrapf "publicID: " e "") | Ok idVal => Encode enc namespace idVal end
  end.

Definition wf_privateID (v : EncoderVar) (namespace publicID : string) : result Z :=
  match getTemplateEncoder v with
  | None => Err (Errorf "privateID: encoder not configured")
  | Some enc => Decode enc namespace publicID
  end.

Definition isValidPublicID (v : EncoderVar) (namespace : string) (publicID : any) : bool :=
  match getTemplateEncoder v with
  | None => false
  | Some enc => match publicID with AStr pidStr => is_ok (Decode enc namespace pidStr) | _ => false end
  end.

(** ** The tables

    A function value is known by its name. *)
Definition table (names : list string) : row := list_to_map ((fun n => (n, AFunc n)) <$> names).

Definition BaseFuncMap : list string := [
  "require"; "getOr"; "has"; "json"; "jsonIndent"; "add"; "sub"; "mul"; "div"; "divOr"; "mod"; "modOr"; "round"; "floor";
  "ceil"; "trunc"; "abs"; "min"; "max"; "int64"; "float64"; "zeropad"; "pad"; "upper"; "lower"; "trim"; "replace";
  "contains"; "hasPrefix"; "hasSuffix"; "default"; "coalesce"; "header"; "cookie"; "first"; "last"; "len"; "pluck";
  "isEmpty"; "float"; "string"; "bool"; "ipNetwork"; "ipPrefix"; "normalizeIP"; "uuid"; "uuid4"; "uuidShort"; "shortID";
  "nanoid"; "isEmail"; "isUUID"; "isURL"; "isIP"; "isIPv4"; "isIPv6"; "isNumeric"; "matches"; "urlEncode"; "urlDecode";
  "urlDecodeOr"; "base64Encode"; "base64Decode"; "base64DecodeOr"; "sha256"; "md5"; "hmacSHA256"; "truncate"; "split";
  "join"; "quote"; "sprintf"; "repeat"; "substr"; "now"; "formatTime"; "parseTime"; "parseTimeOr"; "unixTime"; "pick";
  "omit"; "merge"; "ternary"; "when"; "dig"; "typeOf"; "keys"; "values"; "formatNumber"; "formatPercent"; "formatBytes";
  "eq"; "ne"; "lt"; "le"; "gt"; "ge"; "and"; "or"; "not"; "printf"].

Definition TemplateFuncs : row :=
  <["privateID" := AFunc "privateID"]> (<["publicID" := AFunc "publicID"]>
    (<["has" := AFunc "wf_has"]> (<["require" := AFunc "wf_require"]> (<["getOr" := AFunc "wf_getOr"]> (table BaseFuncMap))))).

Definition tmpl_ExprFuncs : row := table [
  "divOr"; "modOr"; "upper"; "lower"; "trim"; "hasPrefix"; "hasSuffix"; "len"; "isEmpty"; "first"; "last"; "isEmail";
  "isUUID"; "isURL"; "isIP"; "isIPv4"; "isIPv6"; "isNumeric"; "coalesce"].

(** The table [Context] merges into the environment of an expression. *)
#[export] Instance workflow_funcs : ExprFuncs :=
  {| exprFuncs := <["isValidPublicID" := AFunc "isValidPublicID"]> tmpl_ExprFuncs |}.

(** ** What the functions do *)

(** On a [map[string]string] the lookups are those of internal/tmpl, and on a
    [map[string]any] those on its entries that are texts. *)
Theorem wf_lookups_agree `{UnicodeTables} (m : gmap string string) (a : row) key fallback :
  (wf_getOr (AStrMap m) key fallback = getOrFunc (Some m) key fallback /\
   wf_require (AStrMap m) key = requireFunc (Some m) key /\ wf_has (AStrMap m) key = hasFunc (Some m) key) /\
  let texts := omap (fun v => match v with AStr s => Some s | _ => None end) a in
  (wf_getOr (AMap a) key fallback = getOrFunc (Some texts) key fallback /\
   wf_require (AMap a) key = requireFunc (Some texts) key /\ wf_has (AMap a) key = hasFunc (Some texts) key).
Proof.
  assert (forall t (m' : gmap string string), t <> ANil ->
    getMapValue t key = match m' !! key with Some v => (v, true) | None => ("", false) end ->
    wf_getOr t key fallback = getOrFunc (Some m') key fallback /\ wf_require t key = requireFunc (Some m') key /\
    wf_has t key = hasFunc (Some m') key) as Hgen.
  { intros t m' Ht Hv. unfold wf_getOr, wf_require, wf_has, getOrFunc, requireFunc, hasFunc. rewrite Hv.
    destruct (m' !! key) as [v|]; cbn; [|by destruct t].
    destruct (decide (v = "")) as [-> |Hne]; [by destruct t|]. rewrite !bool_decide_false, !bool_decide_true by done.
    rewrite (decide_True (P := v <> "")) by done. by destruct t. }
  split; [by apply Hgen|]. cbv zeta. apply Hgen; [done|]. cbn. rewrite lookup_omap. by destruct (a !! key) as [[]|].
Qed.

(** Once the server has stored an encoder, the workflow's public ids are those of the
    template engine with that encoder; [privateID] gives back the id [publicID] was
    given; and [isValidPublicID] accepts exactly the texts [publicID] makes of an
    [int64].  Before that every one of them refuses. *)
Theorem wf_public_ids `{TextTemplate, FloatToInt} v e (eng : Engine) ns id s (Hid : - two63 <= id < two63) (He : en_publicIDs eng = Some e) :
  let v' := SetTemplateEncoder (Some e) v in
  is_ok (wf_publicID v' ns (AInt id)) = is_ok (publicIDFunc eng ns (AInt id)) /\
  (wf_publicID v' ns (AInt id) = Ok s <-> publicIDFunc eng ns (AInt id) = Ok s) /\
  wf_privateID v' ns s = privateIDFunc eng ns s /\
  (wf_publicID v' ns (AInt id) = Ok s <-> wf_privateID v' ns s = Ok id) /\
  (isValidPublicID v' ns (AStr s) = true <-> exists n, - two63 <= n < two63 /\ wf_publicID v' ns (AInt n) = Ok s) /\
  is_ok (wf_publicID None ns (AInt id)) = false /\ is_ok (wf_privateID None ns s) = false /\ isValidPublicID None ns (AStr s) = false.
Proof.
  cbv zeta. unfold wf_publicID, wf_privateID, isValidPublicID, publicIDFunc, privateIDFunc. cbn [SetTemplateEncoder getTemplateEncoder toInt64].
  rewrite He. split_and!; try done.
  - rewrite Decode_Encode. naive_solver.
  - unfold is_ok. destruct (Decode e ns s) as [n|err] eqn:Ed.
    + split; [|done]. intros _. exists n. by apply Decode_Encode.
    + split; [done|]. intros (n & Hn & Hs). assert (Decode e ns s = Ok n) as E by (by apply Decode_Encode). congruence.
Qed.

(** The functions of conditions are among those of templates, but for the check of a
    public id; the two tables agree on the rest. *)
Lemma expr_funcs_subset name : is_Some (exprFuncs !! name) -> name = "isValidPublicID" \/ exprFuncs !! name = TemplateFuncs !! name.
Proof.
  intros [f Hf]. cbn [exprFuncs workflow_funcs] in *. destruct (decide (name = "isValidPublicID")) as [-> |Hne]; [by left|right].
  rewrite lookup_insert_ne in * by done. apply elem_of_list_to_map_2 in Hf as Hin.
  apply (list_elem_of_fmap_2 fst) in Hin. cbn in Hin.
  repeat (apply elem_of_cons in Hin as [-> |Hin]; [by vm_compute|]). by apply elem_of_nil in Hin.
Qed.

(** ** Evaluation at concrete inputs *)

Module Sample.
#[local] Existing Instance sample_tables.
#[local] Instance overflow : FloatToInt.
Proof. refine {| float_overflow := fun _ => 0 |}. intros. unfold two63. lia. Defined.

(** The keys of a [map[string]any] whose values are not texts are not found. *)
Example lookups : (wf_getOr (AMap {[ "id" := AInt 7; "name" := AStr "x" ]}) "id" "none", wf_has (AMap {[ "name" := AStr "x" ]}) "name",
  wf_getOr (AList []) "id" "none", is_ok (wf_require ANil "id")) = ("none", true, "none", false).
Proof. by vm_compute. Qed.

Definition users : Encoder :=
  {| enc_secret := ""; enc_namespaces := {[ "user" := {| ns_Name := "user"; ns_Prefix := "u"; ns_key := (1, 2, 3, 4) |} ]} |}.

Example ids_of_users :
  let v := SetTemplateEncoder (Some users) None in
  match wf_publicID v "user" (AInt (-5)) with
  | Ok s => (wf_privateID v "user" s, isValidPublicID v "user" (AStr s), isValidPublicID v "user" (AStr (s +:+ "0")), isValidPublicID v "user" (AInt 3))
  | Err _ => (Ok 0, false, true, true)
  end = (Ok (-5), true, false, false).
Proof. by vm_compute. Qed.

#[local] Existing Instance TmplEngine.Sample.tiny_templates.

Lemma wf_public_ids_witness : exists s, wf_publicID (SetTemplateEncoder (Some users) None) "user" (AInt (-5)) = Ok s /\
  wf_privateID (SetTemplateEncoder (Some users) None) "user" s = Ok (-5).
Proof.
  assert (is_ok (wf_publicID (SetTemplateEncoder (Some users) None) "user" (AInt (-5))) = true) as Hok by (by vm_compute).
  destruct (wf_publicID (SetTemplateEncoder (Some users) None) "user" (AInt (-5))) as [s|] eqn:E; [|discriminate Hok].
  destruct (wf_public_ids None users (SetPublicIDEncoder engine_New users) "user" (-5) s) as (_ & _ & _ & Hinv & _);
    [unfold two63; lia|reflexivity|].
  exists s. split; [reflexivity|]. by apply Hinv.
Defined.
End Sample.
