(* ===== verification/WinService.v ===== *)
(** * The service on Windows (internal/service/service_windows.go)

    The other half of internal/service: the handler the service control manager
    drives ([Execute]), [Run] with its three ways to run, and the commands that
    install, remove, start, stop and query the service.  The service manager, the
    event log and the clock are interfaces; every call of the commands is entered in a
    log of its own, on which the theorems say that no handle stays open and that no
    service is left half installed. *)
From S2P Require Import Prelude GoStrings Patterns GoValues Trace Numbers PublicID Cache RateLimit WfConfig SqlParams Expr Compile Executor Handler WfValidate DbText Db Metrics Adapters TmplEngine ConfigLoad CfgValidate Mux Logging ServerInit Openapi Admin Cron Program.

(** ** The vocabulary of golang.org/x/sys/windows/svc *)

Inductive svcState :=
| Stopped | StartPending | StopPending | Running | ContinuePending | PausePending | Paused | OtherState (n : Z).

Inductive svcCmd := CmdStop | CmdPause | CmdContinue | CmdInterrogate | CmdShutdown | OtherCmd (n : Z).

#[export] Instance svcState_eq : EqDecision svcState.
Proof. solve_decision. Defined.

Definition AcceptStop : Z := 1.
Definition AcceptShutdown : Z := 4.

Record Status := { st_State : svcState; st_Accepts : Z }.

(** What the loop of [Execute] can receive: the end of the goroutine that serves, or a
    request of the service manager with the status it last saw. *)
Inductive arrival := ServerEnded | Request (c : svcCmd) (current : Status).

(** The service manager as the running process meets it: whether there is one behind
    the process and, for a service name, either the failure to reach
    the dispatcher or what reaches the handler, in this order. *)
Class ServiceControl := {
  IsWindowsService : bool;
  svc_dispatch : string -> result (list arrival);
}.

(** ** The service *)

Section Service.
Context `{UnicodeTables, TL : TemplateLang, EL : ExprLang, MapWalk, Schedules, Hmac, TextTemplate, FloatToInt}.
Context `{TokenBucket, UrlText, LogFiles, FloatText, ServiceControl}.
Context `{!Cache.JsonSize any, !Cache.AgeOrder, R : !Cache.Ristretto (option (Cache.Entry any)), !Cache.Cron}.
Context {W : Type} {DB : SqlDB W} `{MySQLFormat, !HttpServers W}.

Abbreviation X := (M (Traced W event)).
Abbreviation Srv := (Server (W := W)).

(** [life] is what happens while the server serves, as in [Program]. *)
Context (life : Srv -> X Srv).

(** How [Execute] ends: with its two results, or not yet, when nothing more arrives. *)
Inductive exec_end := Exited (ssec : bool) (errno : Z) | Waiting.

Definition cmdsAccepted : Z := Z.lor AcceptStop AcceptShutdown.

(** The error [Start] leaves in the channel: ListenAndServe always returns one. *)
Definition server_result (srv : Srv) : X (option error) := let* r := Cron.Start srv in ret (Some r.1).

(** The loop around [select], with the statuses it sends. *)
Fixpoint service_loop (srv : Srv) (l : list arrival) : X (exec_end * list Status) :=
  match l with
  | [] => ret (Waiting, [])
  | ServerEnded :: _ =>
    let* err := server_result srv in
    ret (match err with Some _ => Exited true 1 | None => Exited false 0 end, [])
  | Request c current :: l' =>
    match c with
    | CmdInterrogate => let* r := service_loop srv l' in ret (r.1, current :: r.2)
    | CmdStop | CmdShutdown =>
      let* srv := life srv in
      let* _ := Shutdown srv in
      ret (Exited false 0, [{| st_State := StopPending; st_Accepts := 0 |}])
    | _ => service_loop srv l'
    end
  end.

Definition svc_Execute (srv : Srv) (l : list arrival) : X (exec_end * list Status) :=
  let* r := service_loop srv l in
  ret (r.1, {| st_State := StartPending; st_Accepts := 0 |} :: {| st_State := Running; st_Accepts := cmdsAccepted |} :: r.2).

(** What comes of [Run]: its result, [None] while the service goes on, and what was
    sent to the service manager. *)
Record run_end := { re_result : option (option error); re_reports : list Status }.

Definition returned (e : option error) : run_end := {| re_result := Some e; re_reports := [] |}.

(** In the foreground: until the server ends or an interrupt comes. *)
Definition run_foreground (srv : Srv) (e : ending) : X run_end :=
  match e with
  | StartReturned => let* err := server_result srv in ret (returned err)
  | SignalReceived => let* srv := life srv in let* r := Shutdown srv in ret (returned r.1.1)
  end.

(** Under the service manager: [svc.Run] returns an error only if it cannot reach the
    dispatcher, and nil once the handler has ended, however that was.  (The
    event log that is opened and closed around it is never written to.) *)
Definition run_service (srv : Srv) (name : string) : X run_end :=
  match svc_dispatch name with
  | Err e => ret (returned (Some e))
  | Ok arrivals =>
    let* r := svc_Execute srv arrivals in
    ret {| re_result := match r.1 with Exited _ _ => Some None | Waiting => None end; re_reports := r.2 |}
  end.

Definition win_Run (runningServiceName : string) (cfg : Config) (interactive : bool) (now : Z) (e : ending) : X run_end :=
  let* result := CfgValidate.Run cfg in
  if negb (vr_Valid result) then
    ret (returned (Some (Errorf ("configuration validation failed:" +:+ chr 10 +:+ "  " +:+ joinErrors (vr_Errors result)))))
  else
    let* r := ServerInit.New cfg interactive now in
    match r with
    | Err err => ret (returned (Some err))
    | Ok srv =>
      if negb interactive && IsWindowsService && bool_decide (runningServiceName <> "")
      then run_service srv runningServiceName
      else run_foreground srv e
    end.

(** *** What the service manager sees *)

Definition ends (a : arrival) : bool :=
  match a with ServerEnded | Request CmdStop _ | Request CmdShutdown _ => true | _ => false end.

(** The answers to the questions before the end. *)
Fixpoint echoes (l : list arrival) : list Status :=
  match l with
  | [] => []
  | a :: l' => if ends a then [] else match a with Request CmdInterrogate st => st :: echoes l' | _ => echoes l' end
  end.

(** What the end leads to: the result, the last statuses, the database events. *)
Definition ended (srv : Srv) (a : option arrival) (r : exec_end) (last : list Status) (t : list event) : Prop :=
  match a with
  | None => r = Waiting /\ last = [] /\ t = []
  | Some ServerEnded => r = Exited true 1 /\ last = [] /\ t = []
  | Some (Request _ _) => r = Exited false 0 /\ last = [{| st_State := StopPending; st_Accepts := 0 |}] /\
      exists t1 srv1 t2, t = t1 ++ t2 /\ serving srv t1 srv1 /\ (t2 = [] \/ forall p, balance p t2 = - pools_held p srv1)
  end.

Lemma server_result_returns srv st e st' : server_result srv st = (Some e, st') -> is_Some e /\ ds_log st' = ds_log st.
Proof.
  unfold server_result, Cron.Start. intros ([err steps] & s1 & (x & s2 & E & [= _ _ <-])%run_bind_Some & [= <- <-])%run_bind_Some.
  split; [by eexists|]. destruct (on_world_emits (ListenAndServe (se_Addr srv)) st) as (t & Hl & _ & ->). rewrite E in Hl. cbn in Hl.
  by rewrite Hl, app_nil_r.
Qed.

Section Life.
Context (Hlife : serves_well life).

(** Serving until told to stop, then shutting down. *)
Lemma life_then_Shutdown {A} srv (k : option error -> X A) a st st' :
  (let* srv1 := life srv in let* r := Shutdown srv1 in k r.1.1) st = (Some a, st') ->
  exists err st1 t1 srv1 t2, k err st1 = (Some a, st') /\ ds_log st1 = ds_log st ++ t1 ++ t2 /\ serving srv t1 srv1 /\
    ((is_Some err /\ t2 = []) \/ forall p, balance p t2 = - pools_held p srv1).
Proof.
  intros (srv1 & s1 & E1 & ([[err steps] s'] & s2 & E2 & E)%run_bind_Some)%run_bind_Some. cbn [fst] in E.
  destruct (Hlife srv st) as (t1 & Hl1 & Hs1). rewrite E1 in Hl1, Hs1. cbn [fst snd] in *.
  destruct (Shutdown_ends _ _ _ _ _ _ E2) as (t2 & Hl2 & Hb). exists err, s2, t1, srv1, t2.
  split_and!; [done|by rewrite Hl2, Hl1, (assoc_L (++))|by apply Hs1|done].
Qed.

Lemma service_loop_ends srv l st res out st' : service_loop srv l st = (Some (res, out), st') ->
  exists last t, out = echoes l ++ last /\ ds_log st' = ds_log st ++ t /\ ended srv (List.find ends l) res last t.
Proof.
  revert st res out st'. induction l as [|a l IH]; intros st res out st'; cbn [service_loop].
  { intros [= <- <- <-]. exists [], []. by rewrite !app_nil_r. }
  destruct a as [|c current].
  { intros (e & s1 & E & [= <- <- <-])%run_bind_Some. apply server_result_returns in E as [[err ->] ->].
    exists [], []. by rewrite !app_nil_r. }
  assert (forall last, (let* srv := life srv in let* _ := Shutdown srv in ret (Exited false 0, last)) st = (Some (res, out), st') ->
    last = [{| st_State := StopPending; st_Accepts := 0 |}] ->
    exists last t, out = [] ++ last /\ ds_log st' = ds_log st ++ t /\ ended srv (Some (Request c current)) res last t) as Hstop.
  { intros last E ->. apply (life_then_Shutdown srv (fun _ => ret (Exited false 0, _))) in E
      as (err & s1 & t1 & srv1 & t2 & [= <- <- <-] & Hl & Hs & Hb). eexists _, (t1 ++ t2). split; [done|]. split; [done|].
    split_and!; [done..|]. exists t1, srv1, t2. split_and!; [done..|]. destruct Hb as [[_ Hb]|Hb]; [by left|by right]. }
  destruct c; cbn [echoes ends List.find]; intros E; try (by apply IH in E); try (by eapply Hstop).
  apply run_bind_Some in E as ([res' out'] & s1 & E & [= <- <- <-]). apply IH in E as (last & t & -> & Hl & He).
  by exists last, t.
Qed.

(** the handler of the service.  Whatever arrives, if it returns, it has reported that it
    starts and runs, answered every question of the service manager with the status asked
    about, ignored requests it did not say it accepts, and ended at the first stop or
    shutdown, after reporting it, or when the server ended, with service error 1.  After a
    stop every database pool the server then held is closed unless its HTTP server could
    not be shut down. *)
Lemma svc_Execute_ends srv l st res out st' : svc_Execute srv l st = (Some (res, out), st') ->
  exists last t, out = [{| st_State := StartPending; st_Accepts := 0 |}; {| st_State := Running; st_Accepts := cmdsAccepted |}]
      ++ echoes l ++ last /\
    ds_log st' = ds_log st ++ t /\ ended srv (List.find ends l) res last t.
Proof.
  intros ([res' out'] & s1 & E & [= <- <- <-])%run_bind_Some. apply service_loop_ends in E as (last & t & -> & Hl & He).
  by exists last, t.
Qed.

(** *** The end of a run *)

(** A run without an error has closed the pools its server held at the end, or [P]. *)
Definition released (P : Prop) (srv : Srv) (r : run_end) (t : list event) : Prop :=
  re_result r = Some None -> (exists t1 srv1 t2, t = t1 ++ t2 /\ serving srv t1 srv1 /\ forall p, balance p t2 = - pools_held p srv1) \/ P.

Lemma run_foreground_released srv e P st r st' : run_foreground srv e st = (Some r, st') ->
  exists t, ds_log st' = ds_log st ++ t /\ released P srv r t.
Proof.
  destruct e; cbn [run_foreground].
  - intros (err & s1 & E & [= <- <-])%run_bind_Some. apply server_result_returns in E as [[e ->] ->]. exists [].
    split; [by rewrite app_nil_r|]. by intros [=].
  - intros E. apply (life_then_Shutdown srv (fun err => ret (returned err))) in E
      as (err & s1 & t1 & srv1 & t2 & [= <- <-] & Hl & Hs & Hb). exists (t1 ++ t2). split; [done|]. intros [= ->]. left.
    exists t1, srv1, t2. split_and!; [done..|]. by destruct Hb as [[[? [=]] _]|Hb].
Qed.

Lemma run_service_released srv name st r st' : run_service srv name st = (Some r, st') ->
  exists t, ds_log st' = ds_log st ++ t /\ released (re_reports r <> []) srv r t.
Proof.
  unfold run_service. destruct (svc_dispatch name) as [arrivals|err].
  - intros ([res out] & s1 & E & [= <- <-])%run_bind_Some. apply svc_Execute_ends in E as (last & t & -> & Hl & _).
    exists t. split; [done|]. intros _. by right.
  - intros [= <- <-]. exists []. split; [by rewrite app_nil_r|]. by intros [=].
Qed.

(** the end of a run on Windows.  A run that ends without an error had an accepted
    configuration and has closed every pool it opened, in the foreground; under the
    service manager it reported its states, and may still end without an error and
    leave pools open ([service_error_leaks]). *)
Theorem win_Run_ends name cfg interactive now e st st' r :
  win_Run name cfg interactive now e st = (Some r, st') -> re_result r = Some None ->
  accepted cfg /\ exists t, ds_log st' = ds_log st ++ t /\
    ((forall p, balance p t = 0) \/ (interactive = false /\ IsWindowsService = true /\ name <> "" /\ re_reports r <> [])).
Proof.
  unfold win_Run, bind at 1. destruct (Run_outcome cfg st) as (v & t0 & Hv & Hl0 & Hb0 & _ & Hacc).
  destruct (CfgValidate.Run cfg st) as [v' s0]. cbn [fst snd] in *. subst v'. destruct (vr_Valid v); cbn [negb].
  2:{ by intros [= <- <-] [=]. }
  specialize (Hacc eq_refl). intros ([srv|err] & s1 & Hn & E)%run_bind_Some; [|by injection E as <- <-].
  destruct (New_databases _ _ _ _ _ _ (ac_names _ Hacc) Hn) as (t1 & Hl1 & _ & Hb1). intros Hnil. split; [done|].
  assert (exists t2, ds_log st' = ds_log s1 ++ t2 /\
    released (interactive = false /\ IsWindowsService = true /\ name <> "" /\ re_reports r <> []) srv r t2) as (t2 & Hl2 & Hrel).
  { destruct interactive; [eapply run_foreground_released; exact E|]. destruct IsWindowsService; [|eapply run_foreground_released; exact E].
    destruct (bool_decide_reflect (name <> "")); [|eapply run_foreground_released; exact E].
    apply run_service_released in E as (t2 & Hl2 & Hr). exists t2. split; [done|]. intros [?|?]%Hr; [by left|by right]. }
  exists (t0 ++ t1 ++ t2). split; [by rewrite Hl2, Hl1, Hl0, <- !(assoc_L (++))|].
  destruct (Hrel Hnil) as [(t3 & srv1 & t4 & -> & Hs & Hb4)|Hw]; [left|by right]. intros p.
  rewrite !balance_app, Hb0, Hb1, (serving_balance _ _ _ p Hs), Hb4. unfold pools_held. lia.
Qed.
End Life.
End Service.

(** ** The commands (mgr and eventlog) *)

(** mgr.RecoveryAction and mgr.Config, as far as they are set. *)
Inductive RecoveryType := NoAction | ServiceRestart.
Record RecoveryAction := { ra_Type : RecoveryType; ra_Delay : Z }.
Inductive StartType := StartAutomatic | StartManual.
Record MgrConfig := { mc_DisplayName : string; mc_Description : string; mc_StartType : StartType }.

(** The service manager, the event log, files and the clock.  [clock] is the time a
    world shows: reading it changes nothing, nothing turns it back, and sleeping lets
    at least that time pass. *)
Class ServiceManager (W : Type) := {
  mgr : Type;
  svc : Type;
  mgr_eq_dec :: EqDecision mgr;
  svc_eq_dec :: EqDecision svc;
  mgr_Connect : W -> result mgr * W;
  mgr_Disconnect : mgr -> W -> W;
  mgr_OpenService : mgr -> string -> W -> result svc * W;
  mgr_CreateService : mgr -> string -> string -> MgrConfig -> list string -> W -> result svc * W;
  svc_Close : svc -> W -> W;
  svc_SetRecoveryActions : svc -> list RecoveryAction -> Z -> W -> option error * W;
  svc_Delete : svc -> W -> option error * W;
  svc_Start : svc -> W -> option error * W;
  svc_Control : svc -> svcCmd -> W -> result Status * W;
  svc_Query : svc -> W -> result Status * W;
  eventlog_InstallAsEventCreate : string -> Z -> W -> option error * W;
  eventlog_Remove : string -> W -> option error * W;
  os_IsMissing : string -> W -> bool;       (* os.IsNotExist of the error of os.Stat *)
  win_Abs : string -> result string;
  clock : W -> Z;
  time_Sleep : Z -> W -> W;
  clock_Sleep : forall d w, 0 <= d -> clock w + d <= clock (time_Sleep d w);
  clock_Query : forall s w, clock w <= clock (svc_Query s w).2;
}.

Section Commands.
Context {W : Type} {SM : ServiceManager W}.

Inductive wevent :=
| WConnect (r : result mgr)
| WDisconnect (m : mgr)
| WOpen (m : mgr) (name : string) (r : result svc)
| WCreate (m : mgr) (name exe : string) (cfg : MgrConfig) (args : list string) (r : result svc)
| WCloseService (s : svc)
| WRecovery (s : svc) (actions : list RecoveryAction) (reset : Z) (r : option error)
| WDelete (s : svc) (r : option error)
| WStart (s : svc) (r : option error)
| WControl (s : svc) (c : svcCmd) (r : result Status)
| WQuery (s : svc) (r : result Status)
| WLogInstall (name : string) (types : Z) (r : option error)
| WLogRemove (name : string) (r : option error).

Abbreviation X := (M (Traced W wevent)).

(** Reading files and the clock is not entered in the log, nor is sleeping. *)
Definition observe {A} (f : W -> A) : X A := lift (fun s => (f (ds_world s), s)).
Definition sleep (d : Z) : X unit :=
  lift (fun s => (tt, {| ds_world := time_Sleep d (ds_world s); ds_log := ds_log s |})).

(** The prologue of the commands: connect, with the deferred disconnect. *)
Definition with_manager {A} (body : mgr -> X (result A)) : X (result A) :=
  let* r := ask mgr_Connect WConnect in
  match r with
  | Err e => ret (Err (Wrapf "failed to connect to service manager: " e ""))
  | Ok m => deferred (body m) (mgr_Disconnect m) (WDisconnect m)
  end.

(** Opening a service, with the deferred close; [missing] is the answer without one. *)
Definition with_service {A} (m : mgr) (name : string) (missing : error -> result A) (body : svc -> X (result A)) : X (result A) :=
  let* r := ask (mgr_OpenService m name) (WOpen m name) in
  match r with
  | Err e => ret (missing e)
  | Ok s => deferred (body s) (svc_Close s) (WCloseService s)
  end.

Definition not_found {A} (name : string) (e : error) : result A := Err (Wrapf ("service " +:+ name +:+ " not found: ") e "").

(** An absolute path of an existing file. *)
Definition existing (what resolve path : string) : X (result string) :=
  match win_Abs path with
  | Err e => ret (Err (Wrapf ("failed to resolve " +:+ resolve +:+ " path: ") e ""))
  | Ok abs =>
    let* missing := observe (os_IsMissing abs) in
    ret (if missing then Err (Errorf (what +:+ " not found: " +:+ abs)) else Ok abs)
  end.

Definition display_name (name : string) : string :=
  if decide (name <> defaultServiceName) then "SQL Proxy (" +:+ name +:+ ")" else "SQL Proxy".

Definition service_config (name : string) : MgrConfig :=
  {| mc_DisplayName := display_name name;
     mc_Description := "SQL Proxy Service - HTTP endpoints for SQL Server and SQLite databases";
     mc_StartType := StartAutomatic |}.

Definition service_args (name configPath : string) : list string :=
  ["--daemon"; "--service-name"; name; "--config"; configPath].

Definition recoveryActions : list RecoveryAction :=
  [{| ra_Type := ServiceRestart; ra_Delay := 5 * RateLimit.Second |};
   {| ra_Type := ServiceRestart; ra_Delay := 10 * RateLimit.Second |};
   {| ra_Type := ServiceRestart; ra_Delay := 30 * RateLimit.Second |}].

(** eventlog.Error|eventlog.Warning|eventlog.Info *)
Definition event_types : Z := Z.lor (Z.lor 1 2) 4.

(** After [CreateService]: recovery, whose failure is not fatal, and the event log,
    without which the service is deleted again. *)
Definition configure_service (name : string) (s : svc) : X (result (list string)) :=
  let* _ := ask (svc_SetRecoveryActions s recoveryActions 86400) (WRecovery s recoveryActions 86400) in
  let* err := ask (eventlog_InstallAsEventCreate name event_types) (WLogInstall name event_types) in
  match err with
  | Some e =>
    let* _ := ask (svc_Delete s) (WDelete s) in
    ret (Err (Wrapf "failed to setup event log: " e ""))
  | None => ret (Ok ["Service '" +:+ name +:+ "' installed successfully"; "Start with: sc start " +:+ name])
  end.

Definition win_Install (name exePath configPath : string) : X (result (list string)) :=
  let name := or_default name in
  let* c := existing "config file" "config" configPath in
  match c with
  | Err e => ret (Err e)
  | Ok configPath =>
    let* x := existing "executable" "executable" exePath in
    match x with
    | Err e => ret (Err e)
    | Ok exePath =>
      with_manager (fun m =>
        let* o := ask (mgr_OpenService m name) (WOpen m name) in
        match o with
        | Ok s =>
          let* _ := tell (svc_Close s) (WCloseService s) in
          ret (Err (Errorf ("service " +:+ name +:+ " already exists")))
        | Err _ =>
          let cfg := service_config name in
          let args := service_args name configPath in
          let* r := ask (mgr_CreateService m name exePath cfg args) (WCreate m name exePath cfg args) in
          match r with
          | Err e => ret (Err (Wrapf "failed to create service: " e ""))
          | Ok s => deferred (configure_service name s) (svc_Close s) (WCloseService s)
          end
        end)
    end
  end.

Definition win_Uninstall (name : string) : X (result (list string)) :=
  let name := or_default name in
  with_manager (fun m => with_service m name (not_found name) (fun s =>
    let* err := ask (svc_Delete s) (WDelete s) in
    match err with
    | Some e => ret (Err (Wrapf "failed to delete service: " e ""))
    | None =>
      let* _ := ask (eventlog_Remove name) (WLogRemove name) in
      ret (Ok ["Service '" +:+ name +:+ "' uninstalled successfully"])
    end)).

Definition win_Start (name : string) : X (result (list string)) :=
  let name := or_default name in
  with_manager (fun m => with_service m name (not_found name) (fun s =>
    let* err := ask (svc_Start s) (WStart s) in
    ret (match err with
         | Some e => Err (Wrapf "failed to start service: " e "")
         | None => Ok ["Service '" +:+ name +:+ "' started successfully"]
         end))).

(** The loop that waits for a stopped service; [None] when the fuel is out. *)
Fixpoint wait_stopped (fuel : nat) (s : svc) (timeout : Z) (status : Status) : X (option (option error)) :=
  if decide (st_State status = Stopped) then ret (Some None)
  else
    let* now := observe clock in
    if decide (timeout < now) then ret (Some (Some (Errorf "timeout waiting for service to stop")))
    else match fuel with
    | O => ret None
    | S fuel =>
      let* _ := sleep (500 * Executor.Millisecond) in
      let* r := ask (svc_Query s) (WQuery s) in
      match r with
      | Err e => ret (Some (Some (Wrapf "failed to query service status: " e "")))
      | Ok status => wait_stopped fuel s timeout status
      end
    end.

(** [Ok None] is a loop that has not ended within the fuel. *)
Definition win_Stop (fuel : nat) (name : string) : X (result (option (list string))) :=
  let name := or_default name in
  with_manager (fun m => with_service m name (not_found name) (fun s =>
    let* r := ask (svc_Control s CmdStop) (WControl s CmdStop) in
    match r with
    | Err e => ret (Err (Wrapf "failed to stop service: " e ""))
    | Ok status =>
      let* now := observe clock in
      let* out := wait_stopped fuel s (now + 30 * RateLimit.Second) status in
      ret (match out with
           | None => Ok None
           | Some (Some e) => Err e
           | Some None => Ok (Some ["Service '" +:+ name +:+ "' stopped successfully"])
           end)
    end)).

(** What [Stop] says or why it failed is printed; [Start] follows in any case. *)
Definition win_Restart (fuel : nat) (name : string) : X (result (list string)) :=
  let name := or_default name in
  let* _ := win_Stop fuel name in
  win_Start name.

Definition state_text (st : svcState) : string :=
  match st with
  | Stopped => "stopped" | StartPending => "starting" | StopPending => "stopping" | Running => "running"
  | ContinuePending => "resuming" | PausePending => "pausing" | Paused => "paused" | OtherState _ => "unknown"
  end.

Definition win_Status (name : string) : X (result string) :=
  let name := or_default name in
  with_manager (fun m => with_service m name (fun _ => Ok "not installed") (fun s =>
    let* r := ask (svc_Query s) (WQuery s) in
    ret (match r with
         | Err e => Err (Wrapf "failed to query service status: " e "")
         | Ok status => Ok (state_text (st_State status))
         end))).

(** *** Handles *)

Inductive handle := HMgr (m : mgr) | HSvc (s : svc).

(** What an event does to the number of times [h] is held. *)
Definition held_by (h : handle) (ev : wevent) : Z :=
  match h, ev with
  | HMgr m, WConnect (Ok m') => if decide (m = m') then 1 else 0
  | HMgr m, WDisconnect m' => if decide (m = m') then -1 else 0
  | HSvc s, (WOpen _ _ (Ok s') | WCreate _ _ _ _ _ (Ok s')) => if decide (s = s') then 1 else 0
  | HSvc s, WCloseService s' => if decide (s = s') then -1 else 0
  | _, _ => 0
  end.

Definition held (h : handle) (t : list wevent) : Z := foldr (fun ev z => held_by h ev + z) 0 t.

Lemma held_app h t1 t2 : held h (t1 ++ t2) = held h t1 + held h t2.
Proof. induction t1 as [|ev t1 IH]; cbn; [done|]. unfold held in *. lia. Qed.

(** A computation that returns and holds what it held before. *)
Definition clean {A} (m : X A) : Prop := emits m (fun r t => is_Some r /\ forall h, held h t = 0).

Lemma clean_ret {A} (a : A) : clean (ret a).
Proof. apply emits_ret. split; [by eexists|done]. Qed.

Lemma clean_ask {A} (op : W -> A * W) ev : (forall a h, held_by h (ev a) = 0) -> clean (ask op ev).
Proof. intros Hev. apply emits_ask. intros a. split; [by eexists|]. intros h. cbn. by rewrite Hev. Qed.

Lemma clean_bind {A B} (m : X A) (f : A -> X B) : clean m -> (forall a, clean (f a)) -> clean (bind m f).
Proof.
  intros Hm Hf. eapply emits_seq; [exact Hm|by intros t [[] _]|]. intros a t [_ Ht].
  eapply emits_weaken; [apply Hf|]. intros r t' [Hr Ht']. split; [done|]. intros h. by rewrite held_app, Ht, Ht'.
Qed.

Lemma observe_emits {A} (f : W -> A) : emits (observe f) (fun r t => is_Some r /\ t = []).
Proof. intros s. exists []. rewrite app_nil_r. split_and!; [done|by eexists|done]. Qed.

Lemma clean_observe {A} (f : W -> A) : clean (observe f).
Proof. eapply emits_weaken; [apply observe_emits|]. by intros r t [? ->]. Qed.

Lemma clean_sleep d : clean (sleep d).
Proof. intros s. exists []. rewrite app_nil_r. split_and!; [done|by eexists|done]. Qed.

(** A deferred release closes what was opened before it. *)
Lemma clean_deferred {A B} (op : W -> result B * W) ev (fail : error -> result A) (body : B -> X (result A)) close closed :
  (forall b h, held_by h (ev (Ok b)) + held_by h (closed b) = 0) -> (forall e h, held_by h (ev (Err e)) = 0) ->
  (forall b, clean (body b)) ->
  clean (let* r := ask op ev in match r with Err e => ret (fail e) | Ok b => deferred (body b) (close b) (closed b) end).
Proof.
  intros Hok Herr Hbody. apply emits_bind, emits_ask. intros [b|e].
  - apply emits_deferred. eapply emits_weaken; [apply Hbody|]. intros r t [Hr Ht]. split; [done|]. intros h.
    rewrite !held_app, Ht. cbn. specialize (Hok b h). lia.
  - apply emits_ret. split; [by eexists|]. intros h. cbn. by rewrite Herr.
Qed.

Lemma clean_manager {A} (body : mgr -> X (result A)) : (forall m, clean (body m)) -> clean (with_manager body).
Proof. apply clean_deferred; intros ? []; cbn; repeat case_decide; try done. Qed.

Lemma clean_service {A} m name missing (body : svc -> X (result A)) : (forall s, clean (body s)) -> clean (with_service m name missing body).
Proof. apply clean_deferred; intros ? []; cbn; repeat case_decide; try done. Qed.

Lemma clean_wait fuel s timeout status : clean (wait_stopped fuel s timeout status).
Proof.
  revert status. induction fuel as [|fuel IH]; intros status; cbn [wait_stopped]; (case_decide; [apply clean_ret|]);
    apply clean_bind; try apply clean_observe; intros now; (case_decide; [apply clean_ret|]); [apply clean_ret|].
  apply clean_bind; [apply clean_sleep|intros _]. apply clean_bind; [by apply clean_ask; intros ? []|].
  intros [status'|e]; [apply IH|apply clean_ret].
Qed.

Lemma clean_configure name s : clean (configure_service name s).
Proof.
  apply clean_bind; [by apply clean_ask; intros ? []|intros _]. apply clean_bind; [by apply clean_ask; intros ? []|].
  intros [e|]; [|apply clean_ret]. apply clean_bind; [by apply clean_ask; intros ? []|intros _; apply clean_ret].
Qed.

Ltac clean_step :=
  first [ apply clean_ret | apply clean_observe | apply clean_wait | apply clean_manager; intros ?
        | apply clean_service; intros ? | apply clean_ask; by intros ? [] | apply clean_bind; [|intros ?] ].

Lemma clean_existing what resolve path : clean (existing what resolve path).
Proof. unfold existing. destruct (win_Abs path); repeat clean_step. Qed.

Lemma clean_Stop fuel name : clean (win_Stop fuel name).
Proof. unfold win_Stop. repeat first [clean_step | case_match]. Qed.

Lemma clean_Start name : clean (win_Start name).
Proof. unfold win_Start. repeat clean_step. Qed.

Lemma clean_create name exe cfg args (m : mgr) : clean (A := result (list string))
  (let* r := ask (mgr_CreateService m name exe cfg args) (WCreate m name exe cfg args) in
   match r with
   | Err e => ret (Err (Wrapf "failed to create service: " e ""))
   | Ok s => deferred (configure_service name s) (svc_Close s) (WCloseService s)
   end).
Proof. apply clean_deferred; [intros ? []; cbn; by try case_decide..|intros; apply clean_configure]. Qed.

Lemma clean_Install name exe config : clean (win_Install name exe config).
Proof.
  unfold win_Install. apply clean_bind; [apply clean_existing|intros [c|e]; [|apply clean_ret]].
  apply clean_bind; [apply clean_existing|intros [x|e]; [|apply clean_ret]]. apply clean_manager. intros m.
  apply emits_bind, emits_ask. intros [s|e].
  - apply emits_bind, emits_ask. intros _. apply emits_ret. split; [by eexists|]. intros []; cbn; by try case_decide.
  - eapply emits_weaken; [apply clean_create|]. intros r t [Hr Ht]. split; [done|]. intros h. rewrite held_app, Ht. by destruct h.
Qed.

(** the commands and their handles.  Every command returns, and whatever the service
    manager answers it has by then closed every connection to the manager and every
    service handle it opened, once each. *)
Theorem handles_released name exe config fuel :
  clean (win_Install name exe config) /\ clean (win_Uninstall name) /\ clean (win_Start name) /\
  clean (win_Stop fuel name) /\ clean (win_Restart fuel name) /\ clean (win_Status name).
Proof.
  split_and!; [apply clean_Install| |apply clean_Start|apply clean_Stop| |].
  - unfold win_Uninstall. repeat first [clean_step | case_match].
  - unfold win_Restart. apply clean_bind; [apply clean_Stop|intros _; apply clean_Start].
  - unfold win_Status. repeat clean_step.
Qed.

(** *** Installation *)

(** The services created, and those whose deletion was asked for. *)
Definition created (t : list wevent) : list svc :=
  omap (fun ev => match ev with WCreate _ _ _ _ _ (Ok s) => Some s | _ => None end) t.
Definition deleted (t : list wevent) : list svc :=
  omap (fun ev => match ev with WDelete s _ => Some s | _ => None end) t.

(** The service as the program will be started by the manager. *)
Definition installs (name exe config : string) (s : svc) (t : list wevent) : Prop :=
  exists m, WCreate m name exe (service_config name) (service_args name config) (Ok s) ∈ t.

Definition install_trace (name exe config : string) (r : option (result (list string))) (t : list wevent) : Prop :=
  match r with
  | Some (Ok _) => exists s, created t = [s] /\ deleted t = [] /\ installs name exe config s t /\
                   WLogInstall name event_types None ∈ t
  | Some (Err _) => created t = deleted t
  | None => False
  end.

Lemma created_app t1 t2 : created (t1 ++ t2) = created t1 ++ created t2.
Proof. apply omap_app. Qed.
Lemma deleted_app t1 t2 : deleted (t1 ++ t2) = deleted t1 ++ deleted t2.
Proof. apply omap_app. Qed.

Lemma configure_emits name s : emits (configure_service name s) (fun r t => created t = [] /\
  match r with
  | Some (Ok _) => deleted t = [] /\ WLogInstall name event_types None ∈ t
  | Some (Err _) => deleted t = [s]
  | None => False
  end).
Proof.
  apply emits_bind, emits_ask. intros warned. apply emits_bind, emits_ask. intros [e|].
  - apply emits_bind, emits_ask. intros gone. by apply emits_ret.
  - apply emits_ret. split_and!; [done..|]. cbn. set_solver.
Qed.

Lemma existing_emits what resolve path : emits (existing what resolve path) (fun r t => t = [] /\
  match r with Some (Ok abs) => win_Abs path = Ok abs | Some (Err _) => True | None => False end).
Proof.
  unfold existing. destruct (win_Abs path) as [abs|e]; [|by apply emits_ret].
  eapply emits_seq; [apply observe_emits|by intros t [[] _]|]. intros missing t [_ ->]. apply emits_ret. by destruct missing.
Qed.

(** installation is all or nothing.  [Install] returns; when it succeeds exactly one
    service was created, under the given name (or the default one), for the absolute
    paths and started as this program in daemon mode, with its event log; when it fails
    the deletion of every service it created has been asked for. *)
Theorem Install_all_or_nothing name exePath configPath : emits (win_Install name exePath configPath) (fun r t =>
  match r with
  | Some (Ok _) => exists exe config, win_Abs exePath = Ok exe /\ win_Abs configPath = Ok config /\
      install_trace (or_default name) exe config r t
  | _ => install_trace (or_default name) "" "" r t
  end).
Proof.
  unfold win_Install. eapply emits_seq; [apply existing_emits|by intros t [_ []]|]. intros c t0 [-> Hc].
  destruct c as [config|e]; [|by apply emits_ret].
  eapply emits_seq; [apply existing_emits|by intros t [_ []]|]. intros x t0 [-> Hx].
  destruct x as [exe|e]; [|by apply emits_ret].
  apply emits_bind, emits_ask. intros [m|e]; [|by apply emits_ret]. apply emits_deferred.
  apply emits_bind, emits_ask. intros [s|e].
  { apply emits_bind, emits_ask. intros closed. by apply emits_ret. }
  apply emits_bind, emits_ask. intros [s|e']; [|by apply emits_ret]. apply emits_deferred.
  eapply emits_weaken; [apply configure_emits|]. intros r t [Hcr Hr]. destruct r as [[lines|err]|]; [| |done].
  - exists exe, config. split_and!; [done..|]. destruct Hr as [Hd Hl]. exists s.
    cbn. rewrite !created_app, !deleted_app, Hcr, Hd. split_and!; [done..| |].
    + exists m. cbn. set_solver.
    + set_solver.
  - cbn. by rewrite !created_app, !deleted_app, Hcr, Hr.
Qed.

(** *** Stopping *)

(** The states the service manager reported. *)
Definition reported (t : list wevent) : list svcState :=
  omap (fun ev => match ev with WControl _ _ (Ok st) | WQuery _ (Ok st) => Some (st_State st) | _ => None end) t.
Definition queries (t : list wevent) : nat :=
  List.length (omap (fun ev => match ev with WQuery s _ => Some s | _ => None end) t).

Lemma bind_observe {A B} (f : W -> A) (k : A -> X B) s : bind (observe f) k s = k (f (ds_world s)) s.
Proof. done. Qed.

(** The loop ends after [k] rounds when the timeout is less than [k] pauses away. *)
Lemma wait_stopped_ends k : forall fuel s timeout status st, (k <= fuel)%nat ->
  timeout < clock (ds_world st) + Z.of_nat k * (500 * Executor.Millisecond) ->
  exists o t, (wait_stopped fuel s timeout status st).1 = Some (Some o) /\
    ds_log (wait_stopped fuel s timeout status st).2 = ds_log st ++ t /\ (queries t <= k)%nat /\
    (o = None -> last (st_State status :: reported t) = Some Stopped).
Proof.
  induction k as [|k IH]; intros fuel s timeout status st Hk Hclock;
    (destruct fuel as [|fuel]; [try lia|]); cbn [wait_stopped];
    (destruct (decide (st_State status = Stopped)) as [Hst|_];
      [exists None, []; rewrite app_nil_r, Hst; split_and!; [done..|cbn; lia|done]|]);
    rewrite !bind_observe;
    (destruct (decide (timeout < clock (ds_world st)));
      [eexists _, []; rewrite app_nil_r; split_and!; [done..|cbn; lia|done]|]); [lia..|].
  unfold bind, sleep, ask, lift. cbn [ds_world ds_log].
  set (w := time_Sleep (500 * Executor.Millisecond) (ds_world st)).
  pose proof (clock_Sleep (500 * Executor.Millisecond) (ds_world st) ltac:(unfold Executor.Millisecond; lia)) as Hs.
  pose proof (clock_Query s w) as Hq. fold w in Hs. destruct (svc_Query s w) as [[status'|e] w'] eqn:Eq; cbn [snd] in Hq.
  - destruct (IH fuel s timeout status' {| ds_world := w'; ds_log := ds_log st ++ [WQuery s (Ok status')] |}) as (o & t & Ho & Hl & Hn & Hlast);
      [lia|cbn [ds_world]; lia|]. exists o, (WQuery s (Ok status') :: t). cbn [ds_log] in Hl.
    split_and!; [done|by rewrite Hl, <- (assoc_L (++))|change (S (queries t) <= S k)%nat; lia|].
    intros ->. exact (Hlast eq_refl).
  - eexists _, [WQuery s (Err e)]. split_and!; [done..|cbn; lia|done].
Qed.

(** stopping a service takes bounded time.  With fuel for 61 rounds [Stop] always
    ends, after at most 61 queries, whatever the manager reports, since each round
    sleeps half a second of its thirty; it reports success only if the last state the
    manager reported is that the service has stopped. *)
Theorem Stop_ends fuel name st : (61 <= fuel)%nat -> exists r t,
  (win_Stop fuel name st).1 = Some r /\ ds_log (win_Stop fuel name st).2 = ds_log st ++ t /\
  (queries t <= 61)%nat /\ r <> Ok None /\
  forall lines, r = Ok lines -> last (reported t) = Some Stopped.
Proof.
  intros Hfuel. unfold win_Stop, with_manager, with_service, observe, bind, ask, deferred, lift, ret.
  destruct (mgr_Connect (ds_world st)) as [[m|e] w1]; cbn [ds_world ds_log].
  2:{ eexists _, [_]. split_and!; [done..|cbn; lia|done|done]. }
  destruct (mgr_OpenService m (or_default name) w1) as [[s|e] w2]; cbn [ds_world ds_log fst snd].
  2:{ eexists _, [_; _; _]. rewrite <- !(assoc_L (++)). split_and!; [done..|cbn; lia|done|done]. }
  destruct (svc_Control s CmdStop w2) as [[status|e] w3]; cbn [ds_world ds_log fst snd].
  2:{ eexists _, [_; _; _; _; _]. rewrite <- !(assoc_L (++)). split_and!; [done..|cbn; lia|done|done]. }
  cbn [ds_world ds_log].
  match goal with |- context [wait_stopped _ _ ?T _ ?s0] =>
    destruct (wait_stopped_ends 61 fuel s T status s0) as (o & t & Ho & Hl & Hn & Hlast);
      [done|cbn [ds_world]; unfold Executor.Millisecond, RateLimit.Second; lia|];
    destruct (wait_stopped fuel s T status s0) as [r s1] end.
  cbn [fst snd ds_log] in *. subst r.
  eexists _, ([_; _; _] ++ t ++ [_; _]). split; [reflexivity|]. split.
  { cbn [fst snd ds_log]. rewrite Hl, <- !(assoc_L (++)). reflexivity. }
  assert (queries (t ++ [WCloseService s; WDisconnect m]) = queries t /\ reported (t ++ [WCloseService s; WDisconnect m]) = reported t)
    as [Eq Er] by (unfold queries, reported; rewrite !omap_app; cbn; by rewrite !app_nil_r).
  split_and!.
  - change (queries (t ++ [WCloseService s; WDisconnect m]) <= 61)%nat. by rewrite Eq.
  - by destruct o.
  - intros lines Hr. change (last (st_State status :: reported (t ++ [WCloseService s; WDisconnect m])) = Some Stopped).
    rewrite Er. apply Hlast. by destruct o.
Qed.
End Commands.

(** ** Evaluation at concrete inputs *)

Module Sample.
Import Executor.Sample Handler.Sample WfValidate.Sample ServerInit.Sample Program.Sample.
#[local] Existing Instances sample_lang sample_tables sample_walk sample_funcs sample_gotext sample_floats
  sample_templates sample_toint sample_platform sample_services sample_schedules sample_hmac sample_bucket
  sample_order TmplEngine.Sample.tiny_templates Db.Sample.sample_format Db.Sample.server
  Adapters.Sample.sample_size Adapters.Sample.any_store ascii_urls open_log Cache.Sample.no_cron Cron.Sample.quiet_servers.

(** *** The service *)

(** Behind the process is a service manager that asks for the state and stops the
    service "a", and whose service "b" loses its HTTP server. *)
#[local] Instance scm : ServiceControl := {|
  IsWindowsService := true;
  svc_dispatch := fun name =>
    if decide (name = "a") then Ok [Request CmdInterrogate {| st_State := Running; st_Accepts := 5 |};
                                    Request CmdPause {| st_State := Running; st_Accepts := 5 |};
                                    Request CmdStop {| st_State := Running; st_Accepts := 5 |}; ServerEnded]
    else if decide (name = "b") then Ok [ServerEnded]
    else Err (Errorf "The service process could not connect to the service controller.") |}.

Definition served (name : string) : option run_end * DSt :=
  win_Run (fun s => ret s) name Cron.Sample.scheduled false 0 SignalReceived (Db.Sample.start true).

(** What the run of a service returns and reports, and the pools it leaves open. *)
Definition summary (r : option run_end * Traced bool event) : option (option (option error) * list (svcState * Z)) * list Z :=
  ((fun x => (re_result x, (fun st => (st_State st, st_Accepts st)) <$> re_reports x)) <$> r.1, left_open (ds_log r.2)).

Example service_stopped : summary (served "a") =
  (Some (Some None, [(StartPending, 0); (Running, 5); (Running, 5); (StopPending, 0)]), [0; 0]).
Proof. by vm_compute. Qed.

(** The end of the HTTP server of a service is no error of [Run], and nothing is closed. *)
Example service_error_leaks : summary (served "b") =
  (Some (Some None, [(StartPending, 0); (Running, 5)]), [1; 1]).
Proof. by vm_compute. Qed.

Lemma win_Run_ends_witness : exists r st' t, served "a" = (Some r, st') /\ re_result r = Some None /\
  ds_log st' = ds_log (Db.Sample.start true) ++ t.
Proof.
  assert (match (served "a").1 with Some r => match re_result r with Some None => true | _ => false end | None => false end = true)
    as Hok by (by vm_compute).
  destruct (served "a") as [[r|] st'] eqn:E; [|discriminate Hok]. cbn [fst] in Hok.
  assert (re_result r = Some None) as Hr by (by destruct (re_result r) as [[]|]).
  unfold served in E.
  assert (serves_well (fun s => ret s)) as Hlife by (intros s; apply emits_ret; intros s' [= <-]; apply serving_start).
  destruct (win_Run_ends (fun s => ret s) Hlife "a" Cron.Sample.scheduled false 0 SignalReceived (Db.Sample.start true) st' r)
    as (_ & t & Hl & _); [exact E|exact Hr|].
  exists r, st', t. split_and!; [reflexivity|exact Hr|exact Hl].
Defined.

(** *** The commands *)

(** A service manager with the services by name, the time, and a service "stuck" that
    never stops.  Handles are numbers, services their names. *)
Record Machine := { ma_services : gmap string svcState; ma_logs : gset string; ma_time : Z }.

Definition set_service (m : Machine) (name : string) (st : option svcState) : Machine :=
  {| ma_services := partial_alter (fun _ => st) name (ma_services m); ma_logs := ma_logs m; ma_time := ma_time m |}.
Definition set_logs (m : Machine) (logs : gset string) : Machine :=
  {| ma_services := ma_services m; ma_logs := logs; ma_time := ma_time m |}.
Definition status (m : Machine) (name : string) : result Status :=
  match ma_services m !! name with
  | Some st => Ok {| st_State := st; st_Accepts := 5 |}
  | None => Err (Errorf "The specified service does not exist as an installed service.")
  end.

#[local] Instance machine : ServiceManager Machine.
Proof.
  refine {| mgr := unit; svc := string;
    mgr_Connect := fun m => (Ok tt, m); mgr_Disconnect := fun _ m => m;
    mgr_OpenService := fun _ name m => ((try _ := status m name in Ok name), m);
    mgr_CreateService := fun _ name _ _ _ m => (Ok name, set_service m name (Some Stopped));
    svc_Close := fun _ m => m;
    svc_SetRecoveryActions := fun _ _ _ m => (Some (Errorf "not supported"), m);
    svc_Delete := fun s m => (None, set_service m s None);
    svc_Start := fun s m => (None, set_service m s (Some Running));
    svc_Control := fun s _ m => (Ok {| st_State := StopPending; st_Accepts := 0 |},
                                 set_service m s (Some (if decide (s = "stuck") then StopPending else Stopped)));
    svc_Query := fun s m => (status m s, m);
    eventlog_InstallAsEventCreate := fun name _ m =>
      if decide (name ∈ ma_logs m) then (Some (Errorf "registry key already exists"), m) else (None, set_logs m ({[name]} ∪ ma_logs m));
    eventlog_Remove := fun name m => (None, set_logs m (ma_logs m ∖ {[name]}));
    os_IsMissing := fun path _ => bool_decide (path = "C:\none.yaml");
    win_Abs := fun path => Ok ("C:\" +:+ path);
    clock := ma_time;
    time_Sleep := fun d m => {| ma_services := ma_services m; ma_logs := ma_logs m; ma_time := ma_time m + d |} |}.
  - done.
  - done.
Defined.

Definition fresh : Traced Machine wevent :=
  {| ds_world := {| ma_services := ∅; ma_logs := ∅; ma_time := 0 |}; ds_log := [] |}.

(** A life: installed, started, stopped within one round, removed without a trace. *)
Example install_and_remove :
  let run {A} (m : M (Traced Machine wevent) A) s := m s in
  let '(r1, s1) := win_Install "" "sql-proxy.exe" "c.yaml" fresh in
  let '(r2, s2) := win_Start "" s1 in
  let '(r3, s3) := win_Status "" s2 in
  let '(r4, s4) := win_Stop 61 "" s3 in
  let '(r5, s5) := win_Uninstall "" s4 in
  let '(r6, s6) := win_Status "" s5 in
  ((r1, r2, r3), (r4, r5, r6)) =
    ((Some (Ok ["Service 'sql-proxy' installed successfully"; "Start with: sc start sql-proxy"]),
      Some (Ok ["Service 'sql-proxy' started successfully"]), Some (Ok "running")),
     (Some (Ok (Some ["Service 'sql-proxy' stopped successfully"])),
      Some (Ok ["Service 'sql-proxy' uninstalled successfully"]), Some (Ok "not installed"))) /\
  ma_services (ds_world s6) = ∅ /\ ma_logs (ds_world s6) = ∅ /\ queries (ds_log s4) = 2%nat.
Proof. by vm_compute. Qed.

(** The event log of an earlier service is in the way: the new service is deleted again. *)
Example install_undone :
  let s := {| ds_world := {| ma_services := ∅; ma_logs := {["x"]}; ma_time := 0 |}; ds_log := [] |} in
  let '(r, s') := win_Install "x" "sql-proxy.exe" "c.yaml" s in
  r = Some (Err (Wrapf "failed to setup event log: " (Errorf "registry key already exists") "")) /\
  ma_services (ds_world s') = ∅ /\ created (ds_log s') = ["x"] /\ deleted (ds_log s') = ["x"].
Proof. by vm_compute. Qed.

(** Restart of a service that does not stop: the loop gives up, and the service is
    started while it is still stopping. *)
Definition hanging : Traced Machine wevent :=
  {| ds_world := {| ma_services := {["stuck" := Running]}; ma_logs := ∅; ma_time := 7 |}; ds_log := [] |}.

Example stuck_service : (win_Stop 61 "stuck" hanging).1 = Some (Err (Errorf "timeout waiting for service to stop")) /\
  (win_Restart 61 "stuck" hanging).1 = Some (Ok ["Service 'stuck' started successfully"]) /\
  queries (ds_log (win_Stop 61 "stuck" hanging).2) = 61%nat.
Proof. by vm_compute. Qed.

Lemma Stop_ends_witness : exists r t, (win_Stop 61 "stuck" hanging).1 = Some r /\
  ds_log (win_Stop 61 "stuck" hanging).2 = ds_log hanging ++ t /\ (queries t <= 61)%nat.
Proof.
  destruct (Stop_ends 61 "stuck" hanging) as (r & t & H1 & H2 & H3 & _); [exact (Nat.le_refl 61)|].
  exists r, t. split_and!; assumption.
Defined.
End Sample.
