(* ===== verification/Live.v ===== *)
(** * The running server, put together

    The executor and the HTTP handler are defined on interfaces ([Executor.Platform],
    [Handler.Services]).  Here the interfaces are filled with the other components, as
    initWorkflows and registerWorkflows wire them: queries go through the adapter to the
    drivers of the manager, step results and responses to the one cache, limits to the
    limiter, and what the adapters count to the collector.  What is left outside is the
    clock, contexts, templates and expressions, other servers and the network. *)
From S2P Require Import Prelude GoStrings Patterns GoValues Trace Numbers PublicID SqlUtil Cache RateLimit WfConfig SqlParams Expr Compile Executor Handler WfValidate DbText Db Pools Metrics Adapters TmplEngine ConfigLoad CfgValidate Mux Logging ServerInit Middleware Openapi Admin Cron.

(** What lies outside the program.  [o_plain] is how text/template treats a text without
    an action: it is printed as it is. *)
Class Outside `{TemplateLang, ExprLang} (W : Type) := {
  o_gctx : Type;
  o_WithTimeout : o_gctx -> Z -> W -> o_gctx * W;
  o_ctx_Err : o_gctx -> W -> option error * W;
  o_ctx_Sleep : o_gctx -> Z -> W -> option error * W;
  o_Now : W -> Z * W;
  o_Execute : template -> row -> W -> result string * W;
  o_Run : program -> row -> W -> result any * W;
  o_NewRequest : string -> string -> option error;
  o_Do : o_gctx -> Request -> W -> result Response * W;
  o_body_Read : Response -> bool -> W -> result string * W;
  o_ParseQuery : string -> result (gmap string (list string));
  o_Write : string -> W -> option error * W;
  o_rand_Read : nat -> W -> option string * W;
  o_json_string : string -> string;
  o_timestamp : Z -> string;                       (* a time in RFC 3339 *)
  o_limit_clock : W -> (nat -> nat -> Z) * W;      (* the readings of the clock during one check of limits *)
  o_plain : forall name src t data w, Index src "{{" = None -> template_Parse name src = Ok t ->
    (o_Execute t data w).1 = Ok src;
}.

Section Live.
Context `{UnicodeTables, TL : TemplateLang, EL : ExprLang, MapWalk, Schedules, Hmac, TextTemplate, FloatToInt}.
Context `{TokenBucket, UrlText, LogFiles, GoText, ExprFuncs, FloatText}.
Context `{!Cache.JsonSize any, !Cache.AgeOrder, R : !Cache.Ristretto (option (Cache.Entry any)), !KeyEngine TmplContext}.
Context {WD : Type} {DB : SqlDB WD} `{MySQLFormat} {WO : Type} {OUT : Outside WO}.

Abbreviation RespCache := (Cache.Cache (V := any)).

(** ** The state *)

(** What the components keep, the drivers of the manager among it, and the accumulator in
    the context of the request. *)
Record Live := {
  lv_out : WO; lv_db : Traced WD event; lv_mgr : gmap string (Driver (W := WD)); lv_cache : option RespCache; lv_limiter : option Limiter;
  lv_metrics : option Collector; lv_acc : RequestAccumulator;
}.

Definition with_out (l : Live) (w : WO) : Live :=
  {| lv_out := w; lv_db := lv_db l; lv_mgr := lv_mgr l; lv_cache := lv_cache l; lv_limiter := lv_limiter l;
     lv_metrics := lv_metrics l; lv_acc := lv_acc l |}.
Definition with_db (l : Live) (d : Traced WD event) : Live :=
  {| lv_out := lv_out l; lv_db := d; lv_mgr := lv_mgr l; lv_cache := lv_cache l; lv_limiter := lv_limiter l;
     lv_metrics := lv_metrics l; lv_acc := lv_acc l |}.
Definition with_store (l : Live) (c : option RespCache) (mc : option Collector) : Live :=
  {| lv_out := lv_out l; lv_db := lv_db l; lv_mgr := lv_mgr l; lv_cache := c; lv_limiter := lv_limiter l;
     lv_metrics := mc; lv_acc := lv_acc l |}.
Definition with_limiter (l : Live) (ol : option Limiter) (mc : option Collector) : Live :=
  {| lv_out := lv_out l; lv_db := lv_db l; lv_mgr := lv_mgr l; lv_cache := lv_cache l; lv_limiter := ol;
     lv_metrics := mc; lv_acc := lv_acc l |}.
Definition with_acc (l : Live) (acc : RequestAccumulator) : Live :=
  {| lv_out := lv_out l; lv_db := lv_db l; lv_mgr := lv_mgr l; lv_cache := lv_cache l; lv_limiter := lv_limiter l;
     lv_metrics := lv_metrics l; lv_acc := acc |}.

Definition with_metrics (l : Live) (mc : option Collector) : Live :=
  {| lv_out := lv_out l; lv_db := lv_db l; lv_mgr := lv_mgr l; lv_cache := lv_cache l; lv_limiter := lv_limiter l;
     lv_metrics := mc; lv_acc := lv_acc l |}.

(** A reconnection changes the drivers. *)
Definition with_manager (l : Live) (m : gmap string (Driver (W := WD))) (d : Traced WD event) : Live :=
  {| lv_out := lv_out l; lv_db := d; lv_mgr := m; lv_cache := lv_cache l; lv_limiter := lv_limiter l;
     lv_metrics := lv_metrics l; lv_acc := lv_acc l |}.

(** An operation of the outside. *)
Definition outside {A} (op : WO -> A * WO) (l : Live) : A * Live :=
  let '(a, w) := op (lv_out l) in (a, with_out l w).

(** ** The wiring *)

(** The context builder of the limiter. *)
Context (builder : ContextBuilder).

(** A query finds the drivers as the last reconnection has left them; one whose driver
    has no pool panics. *)
Definition live_query (database sqlQuery : string) (params : row) (opts : QueryOptions) (l : Live)
    : option (result QueryResult) * Live :=
  let '(r, d) := dbAdapter (lv_mgr l) database sqlQuery params opts (lv_db l) in (r, with_db l d).

(** The executor gets the cache as an interface: a nil cache in it is not a nil
    interface, so the executor always asks it, and the nil cache always misses. *)
Definition live_cache_Get (workflow key : string) (l : Live) : option Rows * Live :=
  let '(data, c) := Cache.Get (lv_cache l) workflow key in (data, with_store l c (lv_metrics l)).

Definition live_cache_Set (workflow key : string) (data : Rows) (ttl : Z) (l : Live) : bool * Live :=
  let '(now, l) := outside o_Now l in
  let '(now', l) := outside o_Now l in
  let '(b, c) := Cache.Set' (lv_cache l) workflow key data ttl now now' in (b, with_store l c (lv_metrics l)).

#[local] Instance live_platform : Platform Live := {|
  gctx := o_gctx;
  ctx_WithTimeout := fun c d => outside (o_WithTimeout c d);
  ctx_Err := fun c => outside (o_ctx_Err c);
  ctx_Sleep := fun c d => outside (o_ctx_Sleep c d);
  time_Now := outside o_Now;
  Executor.tmpl_Execute := fun t data => outside (o_Execute t data);
  vm_Run := fun p env => outside (o_Run p env);
  db_ExecuteQuery := fun _ => live_query;
  http_NewRequest := o_NewRequest;
  http_Do := fun c req => outside (o_Do c req);
  body_Read := fun resp closed => outside (o_body_Read resp closed);
  url_ParseQuery := o_ParseQuery;
  resp_Write := fun b => outside (o_Write b);
  step_cache := true;
  cache_Get := live_cache_Get;
  cache_Set := live_cache_Set;
|}.

Definition live_limits (limits : list CompiledRateLimit) (rd : RateLimitContext) (l : Live)
    : result (bool * Z) * Live :=
  let '(now, l) := outside o_Now l in
  let '(clk, l) := outside o_limit_clock l in
  let '(r, ol, mc) := adapter_CheckTriggerLimits (lv_limiter l) (lv_metrics l) builder limits rd (o_timestamp now) clk in
  (r, with_limiter l ol mc).

Definition live_trigger_Get (workflow key : string) (l : Live) : option (string * Z) * Live :=
  let '(r, c, mc) := triggerCache_Get (lv_cache l) (lv_metrics l) workflow key in (r, with_store l c mc).

Definition live_trigger_Set (workflow key body : string) (statusCode ttl : Z) (l : Live) : bool * Live :=
  let '(now, l) := outside o_Now l in
  let '(now', l) := outside o_Now l in
  let '(b, c) := triggerCache_Set (lv_cache l) workflow key body statusCode ttl now now' in
  (b, with_store l c (lv_metrics l)).

(** Whether there are a limiter and a trigger cache is settled when the handlers are
    made: these two are nil interfaces if the server has none. *)
Context (limiter_made cache_made : bool).

#[local] Instance live_services : Services := {|
  has_limiter := limiter_made;
  CheckTriggerLimits := live_limits;
  has_cache := cache_made;
  tcache_Get := live_trigger_Get;
  tcache_Set := live_trigger_Set;
  rand_Read := fun n => outside (o_rand_Read n);
  acc_Update := fun _ f l => (tt, with_acc l (f (lv_acc l)));
  json_string := o_json_string;
|}.

#[local] Instance live_recorder : Recorder Live := {|
  acc_New := fun l => with_acc l empty_acc;
  acc_Read := lv_acc;
  metrics_Record := fun m l => with_metrics l (Record_ (lv_metrics l) m);
|}.

(** The handler of a workflow route. *)
Definition serve_route (h : HTTPHandler) (ctx : o_gctx) (r : HttpRequest) : M (St (W := Live)) unit :=
  metricsMiddleware (wc_Name (cw_Config (hh_workflow h))) (tc_Method (ct_Config (hh_trigger h))) (ServeHTTP h ctx r).

(** ** What reaches the databases *)

(** The session of the queries of a step. *)
Definition step_session (cfg : StepConfig) : SessionConfig :=
  {| se_Isolation := sc_Isolation cfg; se_LockTimeoutMs := default 0 (sc_LockTimeoutMs cfg);
     se_DeadlockPriority := sc_DeadlockPriority cfg |}.

(** The exchange a query step has with its database, if it comes to one: on the pool of
    the driver of the step's database, the session, and as statement the driver's
    translation of a rendering of the step's template. *)
Inductive step_exchange (m : gmap string (Driver (W := WD))) (cs : CompiledStep) : list event -> Prop :=
| exchange_none : step_exchange m cs []
| exchange_query t data w sql d p r tr :
    cs_SQLTmpl cs = Some t -> (o_Execute t data w).1 = Ok sql ->
    m !! sc_Database (cs_Config cs) = Some d -> d_conn (fields d) = Some p ->
    query_protocol p (driver_session d (step_session (cs_Config cs)))
      (driver_statement d sql (extractSQLParams sql data)).1 (driver_statement d sql (extractSQLParams sql data)).2
      (cs_IsWrite cs) (Some (cs_HasReturning cs)) r tr ->
    step_exchange m cs tr.

(** Such an exchange of some step with [own]. *)
Definition trace_of (m : gmap string (Driver (W := WD))) (own : CompiledStep -> Prop) (t : list event) : Prop :=
  t = [] \/ exists cs, own cs /\ step_exchange m cs t.

(** The query steps of a workflow, those of its blocks included. *)
Definition query_steps (wf : CompiledWorkflow) (cs : CompiledStep) : Prop :=
  StepType (cs_Config cs) = "query" /\ exists top, top ∈ cw_Steps wf /\ (cs = top \/ cs ∈ cs_BlockSteps top).

(** An operation that asks nothing of the databases, and leaves the drivers alone. *)
Definition still {A} (op : Live -> A * Live) : Prop :=
  forall l, lv_db (op l).2 = lv_db l /\ lv_mgr (op l).2 = lv_mgr l.

Lemma outside_still {A} (op : WO -> A * WO) : still (outside op).
Proof. intros l. unfold outside. by destruct (op (lv_out l)). Qed.

Lemma quiet_still A (op : Live -> A * Live) : quiet A op -> still op.
Proof.
  intros Hq. destruct Hq; try apply outside_still; intros l.
  - cbn [cache_Get live_platform]. unfold live_cache_Get. by destruct (Cache.Get _ _ _).
  - cbn [cache_Set live_platform]. unfold live_cache_Set, outside. destruct (o_Now (lv_out l)) as [now w].
    destruct (o_Now _) as [now' w']. by destruct (Cache.Set' _ _ _ _ _ _ _).
Qed.

Lemma service_still A (op : Live -> A * Live) : service A op -> still op.
Proof.
  intros Hq. destruct Hq; try apply outside_still; intros l; try done.
  - cbn [CheckTriggerLimits live_services]. unfold live_limits, outside. destruct (o_Now (lv_out l)) as [now w].
    destruct (o_limit_clock _) as [clk w']. by destruct (adapter_CheckTriggerLimits _ _ _ _ _ _ _) as [[r ol] mc].
  - cbn [tcache_Get live_services]. unfold live_trigger_Get. by destruct (triggerCache_Get _ _ _ _) as [[r c] mc].
  - cbn [tcache_Set live_services]. unfold live_trigger_Set, outside. destruct (o_Now (lv_out l)) as [now w].
    destruct (o_Now _) as [now' w']. by destruct (triggerCache_Set _ _ _ _ _ _ _ _).
Qed.

(** *** A query step *)

(** The options [executeQueryStep] passes on. *)
Definition query_opts (cs : CompiledStep) : QueryOptions :=
  let cfg := cs_Config cs in
  {| qo_Isolation := sc_Isolation cfg; qo_LockTimeoutMs := sc_LockTimeoutMs cfg;
     qo_DeadlockPriority := sc_DeadlockPriority cfg; qo_JSONColumns := sc_JSONColumns cfg;
     qo_IsWrite := Some (cs_IsWrite cs); qo_HasReturning := Some (cs_HasReturning cs) |}.

(** The result of a query step that succeeds. *)
Definition query_result (qr : QueryResult) (ms : Z) : StepResult :=
  {| sr_Name := ""; sr_Type := ""; sr_Success := true; sr_Error := None; sr_DurationMs := ms;
     sr_CacheHit := false; sr_Data := qr_Rows qr; sr_Count := len_rows (qr_Rows qr);
     sr_RowsAffected := qr_RowsAffected qr; sr_StatusCode := 0; sr_Headers := ∅;
     sr_ResponseBody := ""; sr_Iterations := None; sr_SuccessCount := 0; sr_FailureCount := 0;
     sr_SkippedCount := 0 |}.

Lemma dbAdapter_emits m database d p sql params opts : m !! database = Some d -> d_conn (fields d) = Some p ->
  emits (dbAdapter m database sql params opts) (fun _ tr => exists r,
    query_protocol p (driver_session d (adapter_session opts)) (driver_statement d sql params).1
      (driver_statement d sql params).2 (resolveIsWrite (adapter_hints opts) sql)
      (resolveHasReturning (adapter_hints opts) sql) r tr).
Proof.
  intros Hd Hp. unfold dbAdapter, Get. rewrite Hd.
  eapply emits_seq; [by apply Query_emits|intros tr Htr; by eexists|].
  intros r tr Htr. apply emits_ret. rewrite app_nil_r. by eexists.
Qed.

Lemma live_query_exchange cs (t : template) data w sql l :
  cs_SQLTmpl cs = Some t -> (o_Execute t data w).1 = Ok sql ->
  let l' := (live_query (sc_Database (cs_Config cs)) sql (extractSQLParams sql data) (query_opts cs) l).2 in
  lv_mgr l' = lv_mgr l /\ exists tr, ds_log (lv_db l') = ds_log (lv_db l) ++ tr /\ step_exchange (lv_mgr l) cs tr.
Proof.
  intros Ht Hsql. unfold live_query. split; [by destruct (dbAdapter _ _ _ _ _ _)|].
  destruct (lv_mgr l !! sc_Database (cs_Config cs)) as [d|] eqn:Ed.
  - destruct (d_conn (fields d)) as [p|] eqn:Hp.
    + destruct (dbAdapter_emits _ _ _ _ sql (extractSQLParams sql data) (query_opts cs) Ed Hp (lv_db l)) as (tr & Hl & r & Hr).
      exists tr. split; [by destruct (dbAdapter _ _ _ _ _ _)|]. eapply exchange_query; [exact Ht|exact Hsql|exact Ed|exact Hp|exact Hr].
    + exists []. rewrite app_nil_r. split; [|constructor]. unfold dbAdapter, Get, bind. rewrite Ed.
      assert (forall sess q params h s, Query d sess q params h s = (None, s)) as Hn.
      { intros sess q params h s. destruct d as [f|f|f]; cbn [fields Query] in *;
          unfold SQLServer_Query, SQLite_Query, MySQL_Query, query_with; by rewrite Hp. }
      by rewrite Hn.
  - exists []. unfold dbAdapter, Get. rewrite Ed. cbn. rewrite app_nil_r. split; [done|constructor].
Qed.
End Live.

(** ** The configured queries *)

Section Configured.
Context `{UnicodeTables, TL : TemplateLang, EL : ExprLang, MapWalk, Schedules}.

(** A compiled step is that query step of the configuration. *)
Record configured_query (cfg : Config) (cs : CompiledStep) (db : DatabaseConfig) : Prop := {
  cq_step : exists wcfg top, wcfg ∈ cf_Workflows cfg /\ top ∈ wc_Steps wcfg /\ within (cs_Config cs) top;
  cq_type : StepType (cs_Config cs) = "query";
  cq_database : db ∈ cf_Databases cfg;
  cq_name : dc_Name db = sc_Database (cs_Config cs);
  cq_template : forall t, cs_SQLTmpl cs = Some t -> template_Parse "sql" (sc_SQL (cs_Config cs)) = Ok t;
  cq_guard : IsReadOnly db = true -> RequiresWriteAccess (sc_SQL (cs_Config cs)) = false;
}.

Lemma opt_template_source name label src t : opt_template name label src = Some (Ok (Some t)) -> template_Parse name src = Ok t.
Proof. unfold opt_template. case_decide; [done|]. rewrite cwrap_Ok, cbind_Ok. by intros (x & [= ->] & [= ->]). Qed.

Lemma compiled_template cfg asts index cs t : compileStep cfg index asts = Some (Ok cs) -> StepType cfg = "query" ->
  cs_SQLTmpl cs = Some t -> template_Parse "sql" (sc_SQL cfg) = Ok t.
Proof.
  intros (cond & key & params & Hc)%compileStep_Ok Hty. unfold compile_by_type in Hc. cbv zeta in Hc.
  rewrite decide_True in Hc by done. unfold compile_query in Hc. apply cbind_Ok in Hc as (o & Ho & Hk).
  destruct o as [t'|]; [|injection Hk as <-; done]. destruct (HasReturningClause _); [|done]. injection Hk as <-.
  intros [= <-]. by apply opt_template_source in Ho.
Qed.

(** The database the validation context knows under a name. *)
Lemma context_database (l : list DatabaseConfig) (m0 : gmap string bool) n ro :
  foldl (fun m d => <[dc_Name d := IsReadOnly d]> m) m0 l !! n = Some ro -> m0 !! n = None ->
  exists db, db ∈ l /\ dc_Name db = n /\ IsReadOnly db = ro.
Proof.
  intros Hl Hm. revert Hl. induction l as [|d l IH] using rev_ind; cbn; [congruence|]. rewrite foldl_app. cbn.
  destruct (decide (dc_Name d = n)) as [<-|Hne].
  - rewrite lookup_insert_eq. intros [= <-]. exists d. set_solver.
  - rewrite lookup_insert_ne by done. intros (db & ? & ?)%IH. exists db. set_solver.
Qed.

(** The query steps of a started server are the configured ones. *)
Lemma query_configured cfg wcfg wf cs : wcfg ∈ cf_Workflows cfg -> validated (workflow_context cfg) wcfg wf ->
  query_steps wf cs -> exists db, configured_query cfg cs db.
Proof.
  intros Hw [Hvalid Hcomp] (Hty & top & Htop & Hcs). unfold Compile in Hcomp.
  apply cbind_Ok in Hcomp as (asts & _ & Hk). apply cbind_Ok in Hk as (trs & _ & Hk).
  apply cbind_Ok in Hk as (steps & Hsteps%compile_steps_Ok & [= <-]). cbn [cw_Steps] in Htop.
  apply list_elem_of_lookup in Htop as [i Hi]. destruct (Forall2_lookup_r _ _ _ _ _ Hsteps Hi) as (tcfg & Htc & index & Hct).
  apply list_elem_of_lookup_2 in Htc. pose proof (compileStep_config _ _ _ _ Hct) as Etop.
  assert (exists scfg idx, compileStep scfg idx asts = Some (Ok cs) /\ within scfg tcfg) as (scfg & idx & Hcc & Hin).
  { destruct Hcs as [->|Hcs]; [exists tcfg, index; split; [done|constructor]|].
    destruct (compileStep_Ok _ _ _ _ Hct) as (cond & key & params & Hb).
    apply compile_by_type_spec in Hb as (_ & _ & [Hnil|(l & Hl & Hbl)]); [rewrite Hnil in Hcs; by apply elem_of_nil in Hcs|].
    apply list_elem_of_lookup in Hcs as [j Hj]. apply compile_steps_Ok in Hbl.
    destruct (Forall2_lookup_r _ _ _ _ _ Hbl Hj) as (scfg & Hs & idx & Hcc). exists scfg, idx. split; [done|].
    eapply within_nested; [exact Hl|by eapply list_elem_of_lookup_2|constructor]. }
  pose proof (compileStep_config _ _ _ _ Hcc) as Ecs. rewrite <- Ecs in Hin.
  destruct (valid_queries _ _ _ _ Hvalid Htc Hin Hty) as (_ & _ & _ & Hdb).
  destruct (Hdb _ eq_refl) as (ro & Hro & Hguard).
  destruct (context_database _ _ _ _ Hro (lookup_empty _)) as (db & Hdbin & Hname & Hroe).
  exists db. split; try done.
  - by exists wcfg, tcfg.
  - intros t Ht. rewrite Ecs in *. by eapply compiled_template.
  - rewrite Hroe. exact Hguard.
Qed.
End Configured.

(** ** A running server *)

Section Served.
Context `{UnicodeTables, TL : TemplateLang, EL : ExprLang, MapWalk, Schedules, Hmac, TextTemplate, FloatToInt}.
Context `{TokenBucket, UrlText, LogFiles, GoText, ExprFuncs, FloatText, Gzip, LocalTime}.
Context `{!Cache.JsonSize any, !Cache.AgeOrder, R : !Cache.Ristretto (option (Cache.Entry any)), !KeyEngine TmplContext}.
Context {WD : Type} {DB : SqlDB WD} `{MySQLFormat} {WO : Type} {OUT : Outside WO}.
Context (server : Server (W := WD)).

Definition is_made {A} (o : option A) : bool := match o with Some _ => true | None => false end.

#[local] Instance served_platform : Platform Live := live_platform.
#[local] Instance served_services : Services :=
  live_services (se_ctxBuilder server) (is_made (se_rateLimiter server)) (is_made (se_cache server)).

(** One request on a workflow route through mux and middleware; one run of a job of the
    scheduler. *)
Definition handle_request (h : HTTPHandler) (ctx : o_gctx) (r : HttpRequest) (w : RespWriter) (l : Live) : Live :=
  st_world (chain r (serve_route (se_ctxBuilder server) (is_made (se_rateLimiter server)) (is_made (se_cache server)) h ctx) {| st_world := l; st_rw := Some w |}).2.

Definition run_job (wf : CompiledWorkflow) (t : CompiledTrigger) (ctx : o_gctx) (variables : option (gmap string string))
    (counter : Z) (l : Live) : Live :=
  let '(r, s) := executeWorkflowCron ctx wf t variables counter None {| st_world := l; st_rw := None |} in
  let l := st_world s in
  match r with
  | Some (CronPanic, _, _) => with_store l (lv_cache l) (RecordCronPanic (lv_metrics l) (wc_Name (cw_Config wf)))
  | _ => l
  end.

(** The state in which the server starts to serve. *)
Definition booted (db : Traced WD event) (out : WO) : Live :=
  {| lv_out := out; lv_db := db; lv_mgr := se_dbManager server; lv_cache := se_cache server; lv_limiter := se_rateLimiter server;
     lv_metrics := se_metrics server; lv_acc := empty_acc |}.

(** *** The statements of a server *)

Lemma protocol_statement p sess text args isWrite hasReturning r t ev c q a :
  query_protocol p sess text args isWrite hasReturning r t -> ev ∈ t -> statement_of ev = Some (c, q, a) ->
  EConn p (Ok c) ∈ t /\ ((exists wrap, (q, wrap) ∈ sess /\ a = []) \/ (q = text /\ a = args)).
Proof.
  assert (forall c0 e t0 l, session_run c0 sess t0 e -> ev ∈ EConn p (Ok c0) :: t0 ++ l ->
    (forall ev', ev' ∈ l -> statement_of ev' = None \/ statement_of ev' = Some (c0, text, args)) ->
    statement_of ev = Some (c, q, a) ->
    EConn p (Ok c) ∈ EConn p (Ok c0) :: t0 ++ l /\ ((exists wrap, (q, wrap) ∈ sess /\ a = []) \/ (q = text /\ a = args))) as Hgen.
  { intros c0 e t0 l Hs [->|[Hin|Hin]%elem_of_app]%elem_of_cons Hl Hev; [done| |].
    - destruct (session_run_events _ _ _ _ _ Hs Hin) as (q' & wrap & n & -> & Hq). injection Hev as -> -> <-.
      split; [by left|]. left. by exists wrap.
    - destruct (Hl _ Hin) as [E|E]; rewrite Hev in E; [done|]. injection E as -> -> ->. split; [by left|by right]. }
  destruct 1 as [e|c0 t e Hs|c0 t Hs|c0 t r Hs|c0 t b e Hs|c0 t b cur Hs]; intros Hin Hev.
  1: by apply list_elem_of_singleton in Hin as ->.
  all: eapply Hgen; [exact Hs|exact Hin| |exact Hev].
  all: intros ev' Hin'; repeat (apply elem_of_cons in Hin' as [->|Hin']; [auto|]); by apply elem_of_nil in Hin'.
Qed.

Lemma protocol_pools p sess text args isWrite hasReturning r t ev p' q e :
  query_protocol p sess text args isWrite hasReturning r t -> ev ∈ t -> ev <> EPoolExec p' q e.
Proof.
  assert (forall c0 o t0 l, session_run c0 sess t0 o -> ev ∈ EConn p (Ok c0) :: t0 ++ l ->
    (forall ev', ev' ∈ l -> ev' <> EPoolExec p' q e) -> ev <> EPoolExec p' q e) as Hgen.
  { intros c0 o t0 l Hs [->|[Hin|Hin]%elem_of_app]%elem_of_cons Hl; [done| |by apply Hl].
    by destruct (session_run_events _ _ _ _ _ Hs Hin) as (q' & wrap & n & -> & _). }
  destruct 1 as [o|c0 t o Hs|c0 t Hs|c0 t r Hs|c0 t b o Hs|c0 t b cur Hs]; intros Hin.
  1: by apply list_elem_of_singleton in Hin as ->.
  all: eapply Hgen; [exact Hs|exact Hin|].
  all: intros ev' Hin'; repeat (apply elem_of_cons in Hin' as [->|Hin']; [done|]); by apply elem_of_nil in Hin'.
Qed.

Lemma mux_Handler_in {A} (mux : list (pattern * A)) method path e : mux_Handler mux method path = Some e -> e ∈ mux.
Proof.
  unfold mux_Handler. intros Hf%find_some. destruct Hf as [Hin _]. apply filter_In in Hin as [Hin _]. by apply list_elem_of_In.
Qed.

Lemma New_manager cfg interactive now st st1 : ServerInit.New cfg interactive now st = (Some (Ok server), st1) ->
  NewManager (cf_Databases cfg) st = (Some (Ok (se_dbManager server)), st1).
Proof.
  unfold ServerInit.New. destruct (Logging.Init _ _ _ _ _ _) as [[e|] log]; [done|]. unfold bind.
  destruct (NewManager _ st) as [[[m|e]|] s1]; [|done..].
  destruct (build cfg m log now) as [[sv|e]|] eqn:Eb; try done. intros [= <- <-].
  unfold build in Eb. do 3 apply cbind_Ok in Eb as (? & _ & Eb). apply cbind_Ok in Eb as ([wfs jobs] & _ & Eb).
  destruct (setupRoutes cfg wfs) as [mux|]; [|done]. destruct (setup_debug cfg mux) as [[mux' debug]|]; [|done].
  by injection Eb as <-.
Qed.

Section Started.
Context (cfg : Config) (interactive : bool) (now : Z) (st st1 : Traced WD event).
Context (Hvalid : no_errors (format_issues cfg)).
Context (Hnew : ServerInit.New cfg interactive now st = (Some (Ok server), st1)).

Definition of_config (cs : CompiledStep) : Prop := exists db, configured_query cfg cs db.

(** An event is explained by the configuration, within the log [t].  A statement goes over
    a connection of a pool opened for a configured database, as a session statement of the
    driver of that database or as the driver's translation of a rendering of the SQL of a
    query step that names the database; SQL without an action is sent as configured.
    What is sent over a pool itself are the initial statements of its database. *)
Definition explains (t : list event) (ev : event) : Prop :=
  (forall c q args, statement_of ev = Some (c, q, args) -> exists cs db d p,
    configured_query cfg cs db /\ driver_of db d /\ opened_for db p t /\ EConn p (Ok c) ∈ t /\
    ((exists wrap, (q, wrap) ∈ driver_session d (step_session (cs_Config cs)) /\ args = []) \/
     exists sql data, (q, args) = driver_statement d sql (extractSQLParams sql data) /\
       (Index (sc_SQL (cs_Config cs)) "{{" = None ->
          sql = sc_SQL (cs_Config cs) /\ (IsReadOnly db = true -> RequiresWriteAccess sql = false)))) /\
  (forall p q e, ev = EPoolExec p q e -> exists db wrap,
    db ∈ cf_Databases cfg /\ opened_for db p t /\ (q, wrap) ∈ initial_statements db).

Definition explained (t : list event) : Prop := Forall (explains t) t.

Lemma explains_incl t t' ev : explains t ev -> (forall ev, ev ∈ t -> ev ∈ t') -> explains t' ev.
Proof.
  intros [Hs Hp] Ht. split.
  - intros c q args E. destruct (Hs c q args E) as (cs & db & d & p & ? & ? & Ho & ? & ?). exists cs, db, d, p.
    split_and!; [done|done|by eapply opened_for_incl|auto|done].
  - intros p q e E. destruct (Hp p q e E) as (db & wrap & ? & Ho & ?). exists db, wrap.
    split_and!; [done|by eapply opened_for_incl|done].
Qed.

Lemma explained_app t1 t2 : explained t1 -> Forall (explains (t1 ++ t2)) t2 -> explained (t1 ++ t2).
Proof.
  intros Ht1 Ht2. apply Forall_app. split; [|done]. eapply Forall_impl; [exact Ht1|]. intros ev Hev.
  eapply explains_incl; [exact Hev|]. intros ev'. apply in_left.
Qed.

(** What opening and closing pools causes is explained. *)
Lemma pools_explained t0 t : Forall (from_pools (cf_Databases cfg) t) t -> Forall (explains (t0 ++ t)) t.
Proof.
  intros Ht. eapply Forall_impl; [exact Ht|]. intros ev [Hs Hp]. split; [by rewrite Hs|].
  intros p q e E. destruct (Hp p q e E) as (db & wrap & ? & Ho & ?). exists db, wrap.
  split_and!; [done|eapply opened_for_incl; [exact Ho|]|done]. intros ev'. apply in_right.
Qed.

Lemma quiet_explained t0 t : Forall (fun ev => statement_of ev = None /\ forall p q e, ev <> EPoolExec p q e) t -> Forall (explains t0) t.
Proof.
  intros Ht. eapply Forall_impl; [exact Ht|]. intros ev [Hs Hp]. split; [by rewrite Hs|]. intros p q e E. by destruct (Hp p q e E).
Qed.

(** So is what a query step asks, on the drivers as it finds them. *)
Lemma trace_explained m t0 t : manager_of (cf_Databases cfg) t0 m -> trace_of m of_config t -> Forall (explains (t0 ++ t)) t.
Proof.
  intros Hm [->|(cs & [db Hdb] & Hx)]; [done|]. destruct Hx as [|tpl data w sql d p r tr Htpl Hsql Hd Hp Hpr]; [done|].
  apply Forall_forall. intros ev Hin. split; [|intros p' q e E; by destruct (protocol_pools _ _ _ _ _ _ _ _ _ p' q e Hpr Hin)].
  intros c q args Hev. destruct (protocol_statement _ _ _ _ _ _ _ _ _ _ _ _ Hpr Hin Hev) as [Hc Hq].
  destruct (Hm _ _ Hd) as (db' & Hin' & Hname & Hof & Hkeep). apply format_accepted in Hvalid as Hacc.
  rewrite <- (cq_name _ _ _ Hdb) in Hname.
  rewrite (NoDup_fmap_eq dc_Name _ _ _ (ac_names _ Hacc) Hin' (cq_database _ _ _ Hdb) Hname) in *.
  exists cs, db, d, p. split_and!; [done|done| |by apply in_right|].
  - eapply opened_for_incl; [by apply Hkeep|]. intros ev'. apply in_left.
  - destruct Hq as [?|[-> ->]]; [by left|right]. exists sql, data. split; [by destruct (driver_statement _ _ _)|]. intros Hplain.
    assert (sql = sc_SQL (cs_Config cs)) as ->.
    { rewrite (o_plain "sql" _ _ _ _ Hplain (cq_template _ _ _ Hdb _ Htpl)) in Hsql. by injection Hsql. }
    split; [done|]. apply (cq_guard _ _ _ Hdb).
Qed.

(** And what [New] asks while it connects the databases. *)
Lemma New_explained : exists t, ds_log st1 = ds_log st ++ t /\ explained t /\
  manager_of (cf_Databases cfg) t (se_dbManager server).
Proof.
  pose proof (New_manager _ _ _ _ _ Hnew) as Hm. destruct (NewManager_origin (cf_Databases cfg) st) as (t & Hl & Ht & Hk).
  rewrite Hm in Hl, Hk. exists t. split_and!; [exact Hl| |by apply Hk]. apply (pools_explained [] t Ht).
Qed.
End Started.
End Served.

(** ** Evaluation at concrete inputs *)

Module Sample.
Import Executor.Sample Handler.Sample WfValidate.Sample ServerInit.Sample.
#[local] Existing Instances sample_lang sample_tables sample_walk sample_funcs sample_gotext sample_floats
  sample_templates sample_toint sample_schedules sample_hmac sample_bucket
  sample_order TmplEngine.Sample.tiny_templates Db.Sample.sample_format Db.Sample.server
  Adapters.Sample.sample_size Adapters.Sample.any_store Adapters.Sample.by_ip ascii_urls open_log
  Cache.Sample.no_cron Cron.Sample.utc_days Middleware.Sample.stored.

(** The outside: a clock, templates that print their text, no other servers. *)
#[local] Instance clock_only : Outside Z.
Proof.
  refine {| o_gctx := unit;
    o_WithTimeout := fun _ _ w => (tt, w); o_ctx_Err := fun _ w => (None, w); o_ctx_Sleep := fun _ d w => (None, w + d);
    o_Now := fun w => (w, w + 1); o_Execute := fun t _ w => (Ok t, w); o_Run := fun _ _ w => (Ok (ABool true), w);
    o_NewRequest := fun _ _ => None; o_Do := fun _ _ w => (Err (Errorf "no route to host"), w);
    o_body_Read := fun resp _ w => (Ok (rs_Body resp), w); o_ParseQuery := fun _ => Ok ∅;
    o_Write := fun _ w => (None, w); o_rand_Read := fun _ w => (Some "12345678", w);
    o_json_string := fun s => s; o_timestamp := fun _ => ""; o_limit_clock := fun w => (fun _ _ => w, w) |}.
  intros name src t data w _ [= <-]. reflexivity.
Defined.

Definition no_ctx : o_gctx (Outside := clock_only) := tt.

Definition get_users (enc : string) : HttpRequest :=
  {| hq_Method := "GET"; hq_Path := "/users"; hq_RemoteAddr := "10.0.0.1:9"; hq_Header := {["Accept-Encoding" := [enc]]};
     hq_Body := None; hq_RawQuery := ""; hq_Query := ∅; hq_PathValues := ∅; hq_Cookies := [] |}.

Definition users_started : option (result (Server (W := bool))) * Traced bool event := ServerInit.New small true 0 (Db.Sample.start true).

(** Two requests for the only route, the second compressed, on the state the server
    starts in. *)
Definition answered (sv : Server (W := bool)) (s1 : Traced bool event) : option (Live (WO := Z)) :=
  match mux_Handler (se_mux sv) "GET" "/users" with
  | Some (_, RWorkflow _ _ h) =>
    Some (handle_request sv h no_ctx (get_users "gzip") blank (handle_request sv h no_ctx (get_users "") blank (booted sv s1 0)))
  | _ => None
  end.

(** The statements of the two requests. *)
Example two_requests :
  match users_started with
  | (Some (Ok sv), s1) => (fun l => omap statement_of (List.skipn (List.length (ds_log s1)) (ds_log (lv_db l)))) <$> answered sv s1
  | _ => None
  end = let one := [(5, "PRAGMA busy_timeout = 5000", []); (5, "PRAGMA journal_mode = wal", []); (5, "PRAGMA foreign_keys = ON", []);
                    (5, "PRAGMA synchronous = NORMAL", []); (5, "SELECT 1", [])] in Some (one ++ one).
Proof. by vm_compute. Qed.

(** Steps and triggers share one cache and one space of keys: what a trigger stored, a
    step with that key reads as its row. *)
Example caches_share_keys :
  let l : Live (WO := Z) := {| lv_out := 0; lv_db := Db.Sample.start true; lv_mgr := ∅; lv_cache := Some Adapters.Sample.empty_cache;
                               lv_limiter := None; lv_metrics := None; lv_acc := empty_acc |} in
  (live_cache_Get "users" "k" (live_trigger_Set "users" "k" "[]" 200 60000000000 l).2).1 =
  Some [{["__body__" := AStr "[]"; "__status__" := AFloat (f64 200)]}].
Proof. by vm_compute. Qed.

(** The drivers take [@1] for a parameter, the executor does not, so a trigger parameter
    of that name never reaches its statement: NULL does. *)
Example digit_parameter_lost :
  let sql := "SELECT id FROM users WHERE id = @1" in
  let data := {["trigger" := AMap {["params" := AMap {["1" := AInt 7]}]}]} in
  find_params sql = [] /\ ParamRegex sql = ["1"] /\
  MySQL_translateQuery sql (extractSQLParams sql data) = ("SELECT id FROM users WHERE id = ?", [Positional ANil]) /\
  SQLServer_buildArgs sql (extractSQLParams sql data) = [Named "1" ANil].
Proof. by vm_compute. Qed.

End Sample.
