(* ===== verification/Counted.v ===== *)
(** * The requests of the running server are counted

    [metricsMiddleware] records each request with the collector while executor, adapters
    and jobs write to it as well.  The theorem here says what the counters of a running
    server show: every request whose handler returned, once. *)
From S2P Require Import Prelude GoStrings Patterns GoValues Trace Numbers PublicID SqlUtil Cache RateLimit WfConfig SqlParams Expr Compile Executor Handler WfValidate DbText Db Metrics Adapters TmplEngine ConfigLoad CfgValidate Mux Logging ServerInit Middleware Openapi Admin Cron Live.

(** What is counted, the Prometheus calls apart. *)
Definition tally (mc : option Collector) : option (Z * Z * Z * gmap string endpointData) :=
  (fun c => (co_totalRequests c, co_totalErrors c, co_totalTimeouts c, co_endpoints c)) <$> mc.

Lemma tally_prom mc op : tally ((fun c => prom c op) <$> mc) = tally mc.
Proof. by destruct mc. Qed.

Lemma tally_value mc c c' q : tally mc = tally (Some c) -> mc = Some c' -> value q c' = value q c.
Proof. intros Ht ->. injection Ht as H1 H2 H3 H4. destruct q as [[]|e k]; cbn; [done..|by rewrite H4]. Qed.

Section Counted.
Context `{UnicodeTables, TL : TemplateLang, EL : ExprLang, MapWalk, Schedules, Hmac, TextTemplate, FloatToInt}.
Context `{TokenBucket, UrlText, LogFiles, GoText, ExprFuncs, FloatText}.
Context `{!Cache.JsonSize any, !Cache.AgeOrder, R : !Cache.Ristretto (option (Cache.Entry any)), !KeyEngine TmplContext}.
Context {WD : Type} {DB : SqlDB WD} `{MySQLFormat} {WO : Type} {OUT : Outside WO}.
Context (builder : ContextBuilder) (limiter_made cache_made : bool).

Abbreviation LiveS := (Live (WD := WD) (WO := WO)).

#[local] Instance counted_platform : Platform LiveS := live_platform.
#[local] Instance counted_services : Services := live_services builder limiter_made cache_made.
#[local] Existing Instance live_recorder.

Abbreviation XL := (M (St (W := LiveS))).

(** A computation that leaves the tally alone. *)
Definition uncounted (A : Type) (x : XL A) : Prop :=
  forall s, tally (lv_metrics (st_world (x s).2)) = tally (lv_metrics (st_world s)).

Lemma tally_allowed mc limits : tally (count_allowed mc limits) = tally mc.
Proof.
  unfold count_allowed. revert mc. induction limits as [|rl limits IH]; intros mc; [done|]. cbn [foldl].
  rewrite IH. apply tally_prom.
Qed.

Lemma outside_metrics {A} (op : WO -> A * WO) (l : LiveS) : lv_metrics (outside op l).2 = lv_metrics l.
Proof. unfold outside. by destruct (op (lv_out l)). Qed.

Lemma call_uncounted {A} (op : LiveS -> A * LiveS) :
  (forall l, tally (lv_metrics (op l).2) = tally (lv_metrics l)) -> uncounted _ (call op).
Proof. intros Hop s. unfold call, lift. specialize (Hop (st_world s)). by destruct (op (st_world s)). Qed.

Lemma outside_uncounted {A} (op : WO -> A * WO) : uncounted _ (call (outside op)).
Proof. apply call_uncounted. intros l. by rewrite outside_metrics. Qed.

Lemma quiet_uncounted A (op : LiveS -> A * LiveS) : quiet A op -> uncounted _ (call op).
Proof.
  intros Hq. destruct Hq; try apply outside_uncounted; apply call_uncounted; intros l.
  - cbn [cache_Get counted_platform live_platform]. unfold live_cache_Get. by destruct (Cache.Get _ _ _).
  - cbn [cache_Set counted_platform live_platform]. unfold live_cache_Set, outside. destruct (o_Now (lv_out l)) as [now w].
    destruct (o_Now _) as [now' w']. by destruct (Cache.Set' _ _ _ _ _ _ _).
Qed.

Lemma query_tally db sql params opts (l : LiveS) : lv_metrics (live_query db sql params opts l).2 = lv_metrics l.
Proof. unfold live_query. by destruct (dbAdapter _ _ _ _ _ _). Qed.

Lemma query_uncounted ctx db sql params opts : uncounted _ (risky_call (db_ExecuteQuery ctx db sql params opts)).
Proof.
  intros s. unfold risky_call. cbn [db_ExecuteQuery counted_platform live_platform].
  pose proof (query_tally db sql params opts (st_world s)) as Hq. destruct (live_query db sql params opts (st_world s)) as [o l].
  cbn in *. by rewrite Hq.
Qed.

Lemma service_uncounted A (op : LiveS -> A * LiveS) : service A op -> uncounted _ (call op).
Proof.
  intros Hq. destruct Hq; try apply outside_uncounted; apply call_uncounted; intros l; try done.
  - cbn [CheckTriggerLimits counted_services live_services]. unfold live_limits, outside. destruct (o_Now (lv_out l)) as [now w].
    destruct (o_limit_clock _) as [clk w']. cbn [lv_limiter lv_metrics with_out].
    unfold adapter_CheckTriggerLimits. destruct (lv_limiter l) as [lim|], limits as [|rl limits]; try done.
    destruct (Allow _ _ _ _) as [[[[[] ?] ?]|?] l']; [apply tally_allowed|apply tally_prom|done].
  - cbn [tcache_Get counted_services live_services]. unfold live_trigger_Get, triggerCache_Get.
    destruct (lv_cache l) as [c|] eqn:Ec; [|done]. destruct (Cache.Get _ _ _) as [d oc].
    destruct (d ≫= (fun d : Rows => decode_response d)); [done|]. apply tally_prom.
  - cbn [tcache_Set counted_services live_services]. unfold live_trigger_Set, outside. destruct (o_Now (lv_out l)) as [now w].
    destruct (o_Now _) as [now' w']. by destruct (triggerCache_Set _ _ _ _ _ _ _ _).
Qed.

#[local] Instance uncounted_pred : WorldPred uncounted.
Proof.
  constructor.
  - by intros A a s.
  - intros A B x f Hx Hf s. unfold bind. specialize (Hx s). destruct (x s) as [[a|] s1]; cbn [snd] in Hx; [|done].
    specialize (Hf a s1). congruence.
  - apply quiet_uncounted.
Qed.
Lemma mute_uncounted {A} (x : XL A) : (forall s, lv_metrics (st_world (x s).2) = lv_metrics (st_world s)) -> uncounted _ x.
Proof. intros Hx s. by rewrite Hx. Qed.

Lemma send_status_uncounted code : uncounted _ (send_status code).
Proof. apply mute_uncounted. intros s. unfold send_status. by repeat case_match. Qed.

Lemma send_body_uncounted b : uncounted _ (send_body b).
Proof.
  apply mute_uncounted. intros s. unfold send_body. destruct (st_rw s) as [w|]; [|done]. destruct (rw_Write b w) as [e w'].
  cbn [resp_Write counted_platform live_platform]. pose proof (outside_metrics (o_Write b) (st_world s)) as Ho.
  by destruct (outside (o_Write b) (st_world s)).
Qed.

Lemma any_call_uncounted cs : call_pred uncounted cs.
Proof.
  split; intros.
  - apply (query_pred uncounted); [intros; apply query_uncounted|]. apply mute_uncounted. by destruct (cs_SQLTmpl cs); intros s.
  - apply mute_uncounted. by destruct (cs_URLTmpl cs); intros s.
Qed.

Lemma any_step_uncounted cs : step_pred uncounted cs.
Proof.
  split_and!; [apply any_call_uncounted| |apply Forall_forall; intros; apply any_call_uncounted].
  intros _. split; [|apply send_status_uncounted]. apply mute_uncounted. by destruct (cs_TemplateTmpl cs); intros s.
Qed.

Lemma Execute_uncounted ctx wf trigger requestID variables : uncounted _ (Execute ctx wf trigger requestID variables).
Proof.
  apply Execute_pred; [apply _|..]; intros;
    [by apply mute_uncounted|apply send_body_uncounted|by apply mute_uncounted|].
  apply Forall_forall. intros cs _ _. apply any_step_uncounted.
Qed.

(** *** A request *)

Lemma ServeHTTP_uncounted h ctx r : uncounted _ (ServeHTTP h ctx r).
Proof.
  apply ServeHTTP_pred; [apply _|..]; intros;
    [by apply mute_uncounted|apply send_status_uncounted|apply send_body_uncounted|by apply mute_uncounted|
     by apply mute_uncounted|by apply service_uncounted| |by apply mute_uncounted].
  apply Forall_forall. intros cs _ _. apply any_step_uncounted.
Qed.

(** A computation that records one request of a route when it returns, and none if it
    panics. *)
Definition records (name method : string) (x : XL unit) : Prop := forall s,
  match x s with
  | (Some _, s') => exists mc rm, rm_Endpoint rm = name /\ rm_Method rm = method /\
      tally mc = tally (lv_metrics (st_world s)) /\ lv_metrics (st_world s') = Record_ mc rm
  | (None, s') => tally (lv_metrics (st_world s')) = tally (lv_metrics (st_world s))
  end.

Lemma records_bind {A} name method (x : XL A) (f : A -> XL unit) :
  uncounted _ x -> (forall a, records name method (f a)) -> records name method (bind x f).
Proof.
  intros Hx Hf s. unfold bind. specialize (Hx s). destruct (x s) as [[a|] s1]; cbn [snd] in Hx; [|done].
  specialize (Hf a s1). destruct (f a s1) as [[[]|] s2]; [|congruence].
  destruct Hf as (mc & rm & H1' & H2' & H3' & H4'). exists mc, rm. split_and!; [done|done|congruence|done].
Qed.

Lemma metrics_records name method next : uncounted _ next -> records name method (metricsMiddleware name method next).
Proof.
  intros Hn. unfold metricsMiddleware. apply records_bind; [apply (wp_call (Q := uncounted)); constructor|intros start].
  apply records_bind; [by apply call_uncounted|intros _]. apply records_bind; [by apply mute_uncounted|intros _].
  apply records_bind; [exact Hn|intros _]. apply records_bind; [apply (wp_call (Q := uncounted)); constructor|intros now].
  intros s. by exists (lv_metrics (st_world s)), (record_of name method (time_Sub now start) s).
Qed.

Lemma route_records h ctx r : records (wc_Name (cw_Config (hh_workflow h))) (tc_Method (ct_Config (hh_trigger h)))
  (serve_route builder limiter_made cache_made h ctx r).
Proof. apply metrics_records, ServeHTTP_uncounted. Qed.

Lemma gzip_records `{Gzip} name method r next : records name method next -> records name method (gzipMiddleware r next).
Proof.
  intros Hn s. unfold gzipMiddleware. destruct (negb _); [apply Hn|].
  specialize (Hn (with_rw s gzip_headers)). by destruct (next (with_rw s gzip_headers)) as [[[]|] s1].
Qed.

(** *** A job *)

Lemma resolve_params_uncounted `{LocalTime} l params : uncounted _ (resolve_params l params).
Proof.
  revert params. induction l as [|[k v] l IH]; intros params; [by apply mute_uncounted|].
  apply (wp_bind (Q := uncounted)); [|intros; apply IH].
  apply (wp_bind (Q := uncounted)); [apply quiet_uncounted; constructor|intros; by apply mute_uncounted].
Qed.

Lemma run_cron_uncounted `{LocalTime} ctx wf t variables id : uncounted _ (run_cron ctx wf t variables id).
Proof.
  apply (wp_bind (Q := uncounted)); [apply quiet_uncounted; constructor|intros now].
  apply (wp_bind (Q := uncounted)); [apply resolve_params_uncounted|intros params].
  apply (wp_bind (Q := uncounted)); [case_decide; [apply quiet_uncounted; constructor|by apply mute_uncounted]|intros c].
  apply (wp_bind (Q := uncounted)); [apply Execute_uncounted|intros r; by apply mute_uncounted].
Qed.

Lemma job_uncounted `{LocalTime} ctx wf t variables counter mc :
  uncounted _ (executeWorkflowCron ctx wf t variables counter mc).
Proof.
  apply (wp_bind (Q := uncounted)).
  - apply (wp_bind (Q := uncounted)); [apply service_uncounted; constructor|]. intros [b|]; [by apply mute_uncounted|].
    apply (wp_bind (Q := uncounted)); [apply quiet_uncounted; constructor|intros; by apply mute_uncounted].
  - intros idc s. pose proof (run_cron_uncounted ctx wf t variables idc.1 s) as Hr.
    by destruct (run_cron _ _ _ _ _ s) as [[?|] s1].
Qed.
End Counted.

(** ** A run of the server *)

Section Run.
Context `{UnicodeTables, TL : TemplateLang, EL : ExprLang, MapWalk, Schedules, Hmac, TextTemplate, FloatToInt}.
Context `{TokenBucket, UrlText, LogFiles, GoText, ExprFuncs, FloatText, LocalTime, Gzip}.
Context `{!Cache.JsonSize any, !Cache.AgeOrder, R : !Cache.Ristretto (option (Cache.Entry any)), !KeyEngine TmplContext}.
Context {WD : Type} {DB : SqlDB WD} `{MySQLFormat} {WO : Type} {OUT : Outside WO}.
Context (server : Server (W := WD)).

Abbreviation LiveS := (Live (WD := WD) (WO := WO)).
Abbreviation route := (serve_route (se_ctxBuilder server) (is_made (se_rateLimiter server)) (is_made (se_cache server))).

(** The handler of the request returns; otherwise the recovery answers. *)
Definition returned (h : HTTPHandler) (ctx : o_gctx) (r : HttpRequest) (w : RespWriter) (l : LiveS) : bool :=
  is_made (gzipMiddleware (limited r) (route h ctx (limited r)) {| st_world := l; st_rw := Some w |}).1.

(** What the server does, with the handlers that returned from requests, in order. *)
Inductive session : list HTTPHandler -> LiveS -> LiveS -> Prop :=
| session_nil l : session [] l l
| session_request hs l0 p name method h ctx r w l :
    session hs l0 l -> mux_Handler (se_mux server) (hq_Method r) (hq_Path r) = Some (p, RWorkflow name method h) ->
    session (if returned h ctx r w l then hs ++ [h] else hs) l0 (handle_request server h ctx r w l)
| session_job hs l0 jobs wf t ctx variables counter l :
    session hs l0 l -> se_cron server = Some jobs -> (wf, t) ∈ jobs ->
    session hs l0 (run_job server wf t ctx variables counter l).

Lemma handle_request_counts h ctx r w l :
  if returned h ctx r w l
  then exists mc rm, rm_Endpoint rm = wc_Name (cw_Config (hh_workflow h)) /\ rm_Method rm = tc_Method (ct_Config (hh_trigger h)) /\
    tally mc = tally (lv_metrics l) /\ lv_metrics (handle_request server h ctx r w l) = Record_ mc rm
  else tally (lv_metrics (handle_request server h ctx r w l)) = tally (lv_metrics l).
Proof.
  pose proof (gzip_records _ _ (limited r) _
    (route_records (se_ctxBuilder server) (is_made (se_rateLimiter server)) (is_made (se_cache server)) h ctx (limited r))
    {| st_world := l; st_rw := Some w |}) as Hg.
  unfold returned, handle_request, chain, recoveryMiddleware, bodySizeLimitMiddleware.
  destruct (gzipMiddleware _ _ _) as [[[]|] s']; exact Hg.
Qed.

Lemma run_job_tally wf t ctx variables counter l :
  tally (lv_metrics (run_job server wf t ctx variables counter l)) = tally (lv_metrics l).
Proof.
  pose proof (job_uncounted (se_ctxBuilder server) (is_made (se_rateLimiter server)) (is_made (se_cache server)) ctx wf t variables counter None
    {| st_world := l; st_rw := None |}) as Hj. unfold run_job.
  destruct (executeWorkflowCron _ _ _ _ _ _ _) as [[[[[] ?] ?]|] s]; cbn [snd] in Hj; try exact Hj.
  etrans; [apply tally_prom|exact Hj].
Qed.

Lemma tally_Some mc c : tally mc = tally (Some c) -> exists c', mc = Some c'.
Proof. destruct mc; [by eexists|done]. Qed.

Lemma tally_ranged mc c c' : tally mc = tally (Some c) -> mc = Some c' -> ranged c -> ranged c'.
Proof. intros Ht E Hr q. by rewrite (tally_value _ _ _ q Ht E). Qed.

Lemma sum_ones (ms : list RequestMetrics) : sum (amount (QTotal TRequests) <$> ms) = Z.of_nat (List.length ms).
Proof. induction ms as [|rm ms IH]; [done|]. rewrite fmap_cons. unfold sum in *. cbn [foldr List.length]. rewrite IH. cbn [amount]. lia. Qed.

Lemma session_counts hs l l' c (Hrun : session hs l l') (Hc : lv_metrics l = Some c) (Hr : ranged c) :
  exists ms c', lv_metrics l' = Some c' /\
    Forall2 (fun h rm => rm_Endpoint rm = wc_Name (cw_Config (hh_workflow h)) /\
                         rm_Method rm = tc_Method (ct_Config (hh_trigger h))) hs ms /\
    (forall q, value q c' = i64 (value q c + sum (amount q <$> ms))).
Proof.
  assert (exists ms c', lv_metrics l' = Some c' /\ ranged c' /\
    Forall2 (fun h rm => rm_Endpoint rm = wc_Name (cw_Config (hh_workflow h)) /\
                         rm_Method rm = tc_Method (ct_Config (hh_trigger h))) hs ms /\
    (forall q, value q c' = i64 (value q c + sum (amount q <$> ms)))) as (ms & c' & Hc' & _ & Hms & Hq); [|by exists ms, c'].
  { induction Hrun as [l|hs l0 p name method h ctx r w l _ IH Hm|hs l0 jobs wf t ctx variables counter l _ IH Hj Hin].
    - exists [], c. split_and!; [done|done|constructor|]. intros q. cbn. rewrite Z.add_0_r. symmetry. apply i64_small, Hr.
    - destruct (IH Hc) as (ms & c1 & Hc1 & Hr1 & Hms & Hq). pose proof (handle_request_counts h ctx r w l) as Hh.
      rewrite Hc1 in Hh. destruct (returned h ctx r w l).
      + destruct Hh as (mc & rm & He & Hmd & Ht & Hrec). destruct (tally_Some _ _ Ht) as [c2 ->].
        assert (ranged c2) as Hr2 by (by eapply tally_ranged).
        exists (ms ++ [rm]). destruct (Record_value c2 rm (QTotal TRequests) Hr2) as (c3 & E3 & Hr3 & _).
        exists c3. split_and!; [by rewrite Hrec|done|by apply Forall2_app; [|constructor]|].
        intros q. destruct (Record_value c2 rm q Hr2) as (c3' & E3' & _ & Hv). rewrite E3 in E3'. injection E3' as <-.
        rewrite Hv, (tally_value _ _ _ q Ht eq_refl), Hq, i64_add_l, fmap_app, sum_app. cbn. f_equal. lia.
      + destruct (tally_Some _ _ Hh) as [c2 E2]. exists ms, c2. split_and!; [done|by eapply tally_ranged|done|].
        intros q. by rewrite (tally_value _ _ _ q Hh E2).
    - destruct (IH Hc) as (ms & c1 & Hc1 & Hr1 & Hms & Hq). pose proof (run_job_tally wf t ctx variables counter l) as Ht.
      rewrite Hc1 in Ht. destruct (tally_Some _ _ Ht) as [c2 E2]. exists ms, c2. split_and!; [done|by eapply tally_ranged|done|].
      intros q. by rewrite (tally_value _ _ _ q Ht E2). }
Qed.

(** A server made with metrics starts with a collector that has counted nothing. *)
Lemma New_metrics cfg interactive now st st1 : ServerInit.New cfg interactive now st = (Some (Ok server), st1) ->
  cf_Metrics_Enabled cfg = true -> exists c, se_metrics server = Some c /\ forall q, value q c = 0.
Proof.
  unfold ServerInit.New. destruct (Logging.Init _ _ _ _ _ _) as [[e|] log]; [done|]. unfold bind.
  destruct (NewManager _ st) as [[[m|e]|] s1]; [|done..].
  destruct (build cfg m log now) as [[sv|e]|] eqn:Eb; try done. intros [= <- <-] Hm.
  unfold build in Eb. do 3 apply cbind_Ok in Eb as (? & _ & Eb). apply cbind_Ok in Eb as ([wfs jobs] & _ & Eb).
  destruct (setupRoutes cfg wfs) as [mux|]; [|done]. destruct (setup_debug cfg mux) as [[mux' debug]|]; [|done].
  injection Eb as <-. cbn [se_metrics]. rewrite Hm. eexists. split; [done|]. by intros [[]|e k].
Qed.

(** what the counters of a running server show.  In any run of a server started with
    metrics, each request whose handler returned has been recorded once, under the name
    of its workflow and the method of its trigger, and nothing else has: every counter is
    the sum of what these records add to it, modulo 64 bits; so the total is the number
    of these requests. *)
Theorem requests_counted cfg interactive now st st1 out hs l
    (Hnew : ServerInit.New cfg interactive now st = (Some (Ok server), st1))
    (Hmetrics : cf_Metrics_Enabled cfg = true) (Hrun : session hs (booted server st1 out) l) :
  exists ms c, lv_metrics l = Some c /\
    Forall2 (fun h rm => rm_Endpoint rm = wc_Name (cw_Config (hh_workflow h)) /\
                         rm_Method rm = tc_Method (ct_Config (hh_trigger h))) hs ms /\
    (forall q, value q c = i64 (sum (amount q <$> ms))) /\
    co_totalRequests c = i64 (Z.of_nat (List.length hs)).
Proof.
  destruct (New_metrics _ _ _ _ _ Hnew Hmetrics) as (c0 & Hc0 & H0').
  destruct (session_counts hs _ l c0 Hrun Hc0) as (ms & c & Hc & Hms & Hq).
  { intros q. rewrite H0'. unfold two63. lia. }
  exists ms, c. split_and!; [done|done|intros q; by rewrite Hq, H0'|].
  pose proof (Hq (QTotal TRequests)) as Ht. rewrite H0', sum_ones in Ht. cbn in Ht. rewrite Ht, (Forall2_length _ _ _ Hms). by rewrite Z.add_0_l.
Qed.
End Run.

(** ** Evaluation at concrete inputs *)

Module Sample.
Import Executor.Sample Handler.Sample WfValidate.Sample ServerInit.Sample Live.Sample.
#[local] Existing Instances sample_lang sample_tables sample_walk sample_funcs sample_gotext sample_floats
  sample_templates sample_toint sample_schedules sample_hmac sample_bucket
  sample_order TmplEngine.Sample.tiny_templates Db.Sample.sample_format Db.Sample.server
  Adapters.Sample.sample_size Adapters.Sample.any_store Adapters.Sample.by_ip ascii_urls open_log
  Cache.Sample.no_cron Cron.Sample.utc_days Middleware.Sample.stored clock_only.

Definition metered : Config :=
  let c := small in
  {| cf_Server := cf_Server c; cf_Databases := cf_Databases c; cf_Logging := cf_Logging c; cf_Metrics_Enabled := true;
     cf_Debug := cf_Debug c; cf_RateLimits := cf_RateLimits c; cf_Workflows := cf_Workflows c;
     cf_Variables := cf_Variables c; cf_PublicIDs := cf_PublicIDs c |}.

Definition metered_started : option (result (Server (W := bool))) * Traced bool event :=
  ServerInit.New metered true 0 (Db.Sample.start true).

(** After the two requests of [Live.Sample] two are counted. *)
Example two_counted :
  match metered_started with
  | (Some (Ok sv), s1) => co_totalRequests <$> (answered sv s1 ≫= lv_metrics)
  | _ => None
  end = Some 2.
Proof. by vm_compute. Qed.

Lemma requests_counted_witness : exists sv s1 (l : Live (WO := Z)) c h,
  metered_started = (Some (Ok sv), s1) /\ session sv [h] (booted sv s1 0) l /\ lv_metrics l = Some c /\ co_totalRequests c = 1.
Proof.
  assert (match metered_started with
    | (Some (Ok sv), s1) =>
      match mux_Handler (se_mux sv) "GET" "/users" with
      | Some (_, RWorkflow _ _ h) => returned sv h no_ctx (get_users "") blank (booted sv s1 0 : Live (WO := Z))
      | _ => false
      end
    | _ => false
    end = true) as Hok by (by vm_compute).
  destruct metered_started as [[[sv|e]|] s1] eqn:E; [|discriminate Hok..].
  destruct (mux_Handler (se_mux sv) "GET" "/users") as [[p []]|] eqn:Em; try discriminate Hok.
  set (l0 := booted sv s1 0 : Live (WO := Z)).
  set (l := handle_request sv h no_ctx (get_users "") blank l0 : Live (WO := Z)).
  assert (session sv [h] l0 l) as Hrun.
  { pose proof (session_request sv [] l0 p _ _ h no_ctx (get_users "") blank l0 (session_nil sv l0) Em) as Hs.
    unfold l. fold l0 in Hok. rewrite Hok in Hs. exact Hs. }
  unfold metered_started in E.
  destruct (requests_counted sv metered true 0 (Db.Sample.start true) s1) with (out := 0) (hs := [h]) (l := l)
    as (ms & c & Hc & _ & _ & Ht); [exact E|reflexivity|exact Hrun|].
  exists sv, s1, l, c, h. split_and!; [reflexivity|exact Hrun|exact Hc|exact Ht].
Defined.
End Sample.
