(* ===== verification/Goroutines.v ===== *)
(** * Goroutines that take turns

    Components guard their state with locks, and what happens between taking and
    releasing one is a step.  A goroutine is the point of its program at which it
    stands; goroutines call operations, and take steps in any order.  Here are runs of
    such goroutines, of one that is alone, and of one among others. *)
From S2P Require Import Prelude.

Section Goroutines.
Context {S P Q : Type}.

(** [step s p now] is a step at [p] when the clock shows [now]; [enter q] where a call
    starts; [between p] holds of goroutines that are in no call. *)
Context (step : S -> P -> Z -> S * P) (enter : Q -> P) (between : P -> Prop).

(** The shared state, the goroutines, and every call made so far. *)
Record conc := { cn_state : S; cn_pcs : list P; cn_calls : list Q }.

(** A goroutine that is not in a call makes one; one that is takes a step. *)
Inductive conc_step : conc -> conc -> Prop :=
| step_call s i p q :
    cn_pcs s !! i = Some p -> between p ->
    conc_step s {| cn_state := cn_state s; cn_pcs := <[i := enter q]> (cn_pcs s); cn_calls := cn_calls s ++ [q] |}
| step_run s i p now :
    cn_pcs s !! i = Some p ->
    conc_step s {| cn_state := (step (cn_state s) p now).1; cn_pcs := <[i := (step (cn_state s) p now).2]> (cn_pcs s);
                   cn_calls := cn_calls s |}.

(** [n] goroutines that all stand at [p]. *)
Definition idle (s : S) (p : P) (n : nat) : conc := {| cn_state := s; cn_pcs := replicate n p; cn_calls := [] |}.

(** *** Invariants

    [J calls s] of the shared state, [K calls s p] of each goroutine. *)
Section Invariant.
Context (J : list Q -> S -> Prop) (K : list Q -> S -> P -> Prop).
Context (J_more : forall calls q s, J calls s -> J (calls ++ [q]) s).
Context (K_more : forall calls q s p, K calls s p -> K (calls ++ [q]) s p).
Context (K_enter : forall calls q s, J calls s -> K (calls ++ [q]) s (enter q)).
Context (step_ok : forall calls s p now, J calls s -> K calls s p ->
  J calls (step s p now).1 /\ K calls (step s p now).1 (step s p now).2).
Context (K_others : forall calls s p now p', J calls s -> K calls s p -> K calls s p' -> K calls (step s p now).1 p').

Definition conc_inv (s : conc) : Prop := J (cn_calls s) (cn_state s) /\ Forall (K (cn_calls s) (cn_state s)) (cn_pcs s).

Lemma conc_step_inv s s' : conc_step s s' -> conc_inv s -> conc_inv s'.
Proof.
  intros Hstep [HJ HK]. destruct Hstep as [s i p q Hi _|s i p now Hi]; split; cbn [cn_state cn_calls cn_pcs].
  - by apply J_more.
  - apply Forall_insert; [|by apply K_enter]. eapply Forall_impl; [exact HK|]. intros ?. apply K_more.
  - apply step_ok; [done|]. by apply (Forall_lookup_1 _ _ _ _ HK Hi).
  - pose proof (Forall_lookup_1 _ _ _ _ HK Hi) as Hp. apply Forall_insert; [|by apply step_ok].
    eapply Forall_impl; [exact HK|]. intros p' Hp'. by apply K_others.
Qed.

Lemma conc_run_inv s s' : rtc conc_step s s' -> conc_inv s -> conc_inv s'.
Proof. induction 1; eauto using conc_step_inv. Qed.
End Invariant.

(** *** Totals

    A sum over the goroutines: how many hold a lock, a connection, a pool. *)
Definition total (f : P -> Z) (ps : list P) : Z := foldr (fun p z => f p + z) 0 ps.

Lemma total_update f ps i p p' : ps !! i = Some p -> total f (<[i := p']> ps) = total f ps - f p + f p'.
Proof.
  revert i. induction ps as [|q ps IH]; intros [|i] Hi; cbn in Hi; simplify_eq.
  - change (f p' + total f ps = f p + total f ps - f p + f p'). lia.
  - change (f q + total f (<[i := p']> ps) = f q + total f ps - f p + f p'). rewrite (IH i Hi). lia.
Qed.

Lemma total_ge0 f ps : (forall p, 0 <= f p) -> 0 <= total f ps.
Proof. intros Hf. unfold total. induction ps as [|p ps IH]; cbn; [done|]. specialize (Hf p). lia. Qed.

Lemma total_lookup f ps i p : (forall p, 0 <= f p) -> ps !! i = Some p -> f p <= total f ps.
Proof.
  intros Hf. revert i. induction ps as [|q ps IH]; intros [|i] Hi; cbn in *; simplify_eq.
  - pose proof (total_ge0 f ps Hf). unfold total in *. lia.
  - specialize (IH i Hi). specialize (Hf q). unfold total in *. lia.
Qed.

Lemma total_two f ps i j p q : (forall p, 0 <= f p) -> i <> j -> ps !! i = Some p -> ps !! j = Some q ->
  f p + f q <= total f ps.
Proof.
  intros Hf. revert i j.
  induction ps as [|r ps IH]; intros [|i] [|j] Hij Hi Hj; cbn in *; simplify_eq.
  - pose proof (total_lookup f ps j q Hf Hj). unfold total in *. lia.
  - pose proof (total_lookup f ps i p Hf Hi). unfold total in *. lia.
  - specialize (IH i j ltac:(lia) Hi Hj). specialize (Hf r). unfold total in *. lia.
Qed.

Lemma total_zero f ps : Forall (fun p => f p = 0) ps -> total f ps = 0.
Proof. unfold total. induction 1 as [|p ps Hp _ IH]; cbn; [done|]. lia. Qed.

Lemma total_positive f ps : (forall p, 0 <= f p) -> 0 < total f ps -> exists i p, ps !! i = Some p /\ 0 < f p.
Proof.
  intros Hf. unfold total. induction ps as [|p ps IH]; cbn; [lia|]. intros Ht. destruct (decide (0 < f p)) as [Hp|Hp].
  - by exists 0%nat, p.
  - destruct IH as (i & q & Hi & Hq); [specialize (Hf p); lia|]. by exists (Datatypes.S i), q.
Qed.

(** *** Alone *)

(** The steps of a goroutine that is not disturbed, one per reading of the clock. *)
Definition alone (clk : list Z) (st : S * P) : S * P := foldl (fun st now => step st.1 st.2 now) st clk.

Lemma alone_app clk clk' st : alone (clk ++ clk') st = alone clk' (alone clk st).
Proof. apply foldl_app. Qed.

(** However the clock goes, it gets from one state to the other in [n] steps. *)
Definition gets (st st' : S * P) : Prop := exists n, forall clk, List.length clk = n -> alone clk st = st'.

Lemma gets_refl st : gets st st.
Proof. exists 0%nat. by intros [|]. Qed.

Lemma gets_step s p st : (forall now, gets (step s p now) st) -> (forall now, step s p now = step s p 0) -> gets (s, p) st.
Proof.
  intros Hg Hc. destruct (Hg 0) as [n Hn]. exists (Datatypes.S n). intros [|now clk]; [done|]. intros [= Hl].
  change (alone clk (step s p now) = st). rewrite Hc. by apply Hn.
Qed.

Lemma gets_trans st1 st2 st3 : gets st1 st2 -> gets st2 st3 -> gets st1 st3.
Proof.
  intros [n Hn] [k Hk]. exists (n + k)%nat. intros clk Hl. rewrite <- (take_drop n clk), alone_app.
  rewrite Hn by (rewrite length_take; lia). apply Hk. rewrite length_drop. lia.
Qed.

(** It gets there with some readings of the clock. *)
Definition reaches (st st' : S * P) : Prop := exists clk, alone clk st = st'.

Lemma reaches_refl st : reaches st st.
Proof. by exists []. Qed.

Lemma reaches_step s p now st : reaches (step s p now) st -> reaches (s, p) st.
Proof. intros [clk Hc]. by exists (now :: clk). Qed.

Lemma reaches_trans st1 st2 st3 : reaches st1 st2 -> reaches st2 st3 -> reaches st1 st3.
Proof. intros [c1 H1] [c2 H2]. exists (c1 ++ c2). by rewrite alone_app, H1. Qed.

(** One goroutine gets from [p] to [p'] while the others stand still. *)
Definition moves (s : S) (p : P) (s' : S) (p' : P) : Prop := forall i pcs calls, pcs !! i = Some p ->
  rtc conc_step {| cn_state := s; cn_pcs := pcs; cn_calls := calls |}
                {| cn_state := s'; cn_pcs := <[i := p']> pcs; cn_calls := calls |}.

Lemma moves_refl s p : moves s p s p.
Proof. intros i pcs calls Hi. by rewrite list_insert_id. Qed.

Lemma moves_step s p now s1 p1 s2 p2 : step s p now = (s1, p1) -> moves s1 p1 s2 p2 -> moves s p s2 p2.
Proof.
  intros Hs Hm i pcs calls Hi. eapply rtc_l.
  - apply (step_run {| cn_state := s; cn_pcs := pcs; cn_calls := calls |} i p now Hi).
  - cbn. rewrite Hs. cbn. rewrite <- (list_insert_insert_eq pcs i p2 p1). apply Hm, list_lookup_insert_eq.
    by eapply lookup_lt_Some.
Qed.

(** *** Among others *)

(** A goroutine from its [k]-th step on, which finds the shared state as [ss k]. *)
Fixpoint among (ss : nat -> S) (clk : nat -> Z) (k n : nat) (p : P) : P :=
  match n with O => p | Datatypes.S n => among ss clk (Datatypes.S k) n (step (ss k) p (clk k)).2 end.

(** It comes to the end of its call. *)
Definition ends (ss : nat -> S) (clk : nat -> Z) (k : nat) (p : P) : Prop := exists n, between (among ss clk k n p).

Lemma ends_step ss clk k p : ends ss clk (Datatypes.S k) (step (ss k) p (clk k)).2 -> ends ss clk k p.
Proof. intros [n Hn]. by exists (Datatypes.S n). Qed.

Lemma ends_between ss clk k p : between p -> ends ss clk k p.
Proof. intros Hp. by exists 0%nat. Qed.

(** *** Schedules *)

(** The next turn: which goroutine goes, with a call or a step. *)
Definition turn `{forall p, Decision (between p)} (s : conc) (t : nat * option Q) : conc :=
  let '(i, q) := t in
  match cn_pcs s !! i, q with
  | Some p, Some q =>
    if decide (between p)
    then {| cn_state := cn_state s; cn_pcs := <[i := enter q]> (cn_pcs s); cn_calls := cn_calls s ++ [q] |} else s
  | Some p, None => {| cn_state := (step (cn_state s) p 0).1; cn_pcs := <[i := (step (cn_state s) p 0).2]> (cn_pcs s);
                       cn_calls := cn_calls s |}
  | None, _ => s
  end.

Lemma turn_steps `{forall p, Decision (between p)} s ts : rtc conc_step s (foldl turn s ts).
Proof.
  revert s. induction ts as [|[i q] ts IH]; intros s; [apply rtc_refl|]. cbn [foldl]. etrans; [|apply IH].
  unfold turn. destruct (cn_pcs s !! i) as [p|] eqn:Ei; [|apply rtc_refl].
  destruct q as [q|]; [case_decide; [|apply rtc_refl]|]; apply rtc_once.
  - by eapply step_call.
  - by apply step_run.
Qed.
End Goroutines.
Arguments conc : clear implicits.
