(* ===== verification/CacheConc.v ===== *)
(** * internal/cache under concurrency

    [Cache] takes each operation as one step.  Here goroutines run at the grain of the
    code's locks: a step is what happens between taking and releasing an endpoint's
    mutex, or one call of the store.  [Set] tests the limit, lists the keys, deletes
    each of them (store first, metadata after), stores and records in separate steps,
    and goroutines take turns between any two.  Endpoints are registered before. *)
From S2P Require Import Prelude GoStrings Goroutines Cache.

Section Conc.
Context {V : Type} `{JsonSize V, AgeOrder}.
Context `{R : Ristretto (option (Entry V))}.
Context `{Cron}.

Abbreviation Rows := (list (gmap string V)).
Abbreviation Cache := (Cache.Cache (V := V)).

(** ** Goroutines *)

(** The arguments of a [Set]. *)
Record setting := { s_endpoint : string; s_key : string; s_data : Rows; s_ttl : Z }.

(** What a goroutine calls. *)
Inductive request :=
| CGet (endpoint key : string)
| CSet (r : setting)
| CDelete (endpoint key : string)
| CClear (endpoint : string)
| CClearAll.

Inductive answer := AGot (endpoint key : string) (data : option Rows) | ASet (success : bool) | ADone.

(** Where a goroutine stands. *)
Inductive pc :=
| SetCheck (r : setting)                                     (* the limit, locked *)
| SetList (r : setting)                                      (* the keys to evict, locked *)
| SetEvict (r : setting) (keys : list keyAge) (freed : Z)    (* head of the loop; store.Del *)
| SetForget (r : setting) (ka : keyAge) (keys : list keyAge) (freed : Z)
| SetStore (r : setting)
| SetRecord (r : setting)                                    (* the metadata, locked *)
| GetLook (endpoint key : string)
| GetCount (endpoint key : string) (data : option Rows)
| DelStore (endpoint key : string)
| DelForget (endpoint key : string)                          (* the metadata, locked *)
| ClearList (endpoint : string)
| ClearStore (endpoint : string) (keys : list keyAge)
| ClearForget (endpoint key : string) (keys : list keyAge)
| AllStore
| AllReset (names : list string)                             (* each endpoint locked *)
| Returned (a : answer).

Definition enter (q : request) : pc :=
  match q with
  | CGet endpoint key => GetLook endpoint key
  | CSet r => SetCheck r
  | CDelete endpoint key => DelStore endpoint key
  | CClear endpoint => ClearList endpoint
  | CClearAll => AllStore
  end.

(** The two halves of [Delete]. *)
Definition drop_stored (c : Cache) (endpoint key : string) : Cache :=
  set_store c (store_Del (c_store c) (fullKey endpoint key)).
Definition forget (c : Cache) (endpoint key : string) : Cache :=
  set_endpoints c (alter (fun ep => ep_forget ep key) endpoint (c_endpoints c)).

Definition needsEviction (c : Cache) (r : setting) : bool :=
  match getEndpoint c (s_endpoint r) with
  | Some ep => bool_decide (ep_maxCost ep > 0) &&
               bool_decide (i64 (ep_sizeBytes ep + calculateSize (s_data r)) > ep_maxCost ep)
  | None => false
  end.

Definition listed (c : Cache) (endpoint : string) : list keyAge :=
  match getEndpoint c endpoint with Some ep => by_age (ep_keys ep) | None => [] end.

Definition effective_ttl (c : Cache) (r : setting) : Z :=
  if decide (s_ttl r = 0) then c_defaultTTL c else s_ttl r.

(** One step of a goroutine; [now] is what the clock shows then. *)
Definition pc_step (c : Cache) (p : pc) (now : Z) : Cache * pc :=
  match p with
  | SetCheck r => (c, if needsEviction c r then SetList r else SetStore r)
  | SetList r => (c, SetEvict r (listed c (s_endpoint r)) 0)
  | SetEvict r [] freed => (c, SetStore r)
  | SetEvict r (ka :: keys) freed =>
    if decide (freed >= calculateSize (s_data r)) then (c, SetStore r)
    else (drop_stored c (s_endpoint r) ka.1, SetForget r ka keys freed)
  | SetForget r ka keys freed =>
    (forget c (s_endpoint r) ka.1, SetEvict r keys (i64 (freed + em_sizeBytes ka.2)))
  | SetStore r =>
    let entry := {| e_Data := s_data r; e_SizeBytes := calculateSize (s_data r); e_CachedAt := now; e_TTL := s_ttl r |} in
    let '(success, s) := store_SetWithTTL (c_store c) (fullKey (s_endpoint r) (s_key r)) (Some entry)
                           (calculateSize (s_data r)) (effective_ttl c r) in
    (set_store c s, if (success : bool) then SetRecord r else Returned (ASet false))
  | SetRecord r =>
    (set_endpoints c (alter (fun ep => ep_record ep (s_key r)
       {| em_sizeBytes := calculateSize (s_data r); em_cachedAt := now; em_ttl := effective_ttl c r |})
       (s_endpoint r) (c_endpoints c)), Returned (ASet true))
  | GetLook endpoint key =>
    (c, GetCount endpoint key (match store_Get (c_store c) (fullKey endpoint key) with
                           | Some (Some entry) => Some (e_Data entry) | _ => None end))
  | GetCount endpoint key data =>
    (match data with Some _ => count_hit c endpoint | None => count_miss c endpoint end, Returned (AGot endpoint key data))
  | DelStore endpoint key => (drop_stored c endpoint key, DelForget endpoint key)
  | DelForget endpoint key => (forget c endpoint key, Returned ADone)
  | ClearList endpoint => (c, ClearStore endpoint (listed c endpoint))
  | ClearStore endpoint [] => (c, Returned ADone)
  | ClearStore endpoint (ka :: keys) => (drop_stored c endpoint ka.1, ClearForget endpoint ka.1 keys)
  | ClearForget endpoint key keys => (forget c endpoint key, ClearStore endpoint keys)
  | AllStore => (set_store c (store_Clear (c_store c)), AllReset ((map_to_list (c_endpoints c)).*1))
  | AllReset [] => (c, Returned ADone)
  | AllReset (name :: names) => (set_endpoints c (alter ep_reset name (c_endpoints c)), AllReset names)
  | Returned a => (c, Returned a)
  end.

(** A goroutine is between two calls when the last one has returned. *)
Definition between (p : pc) : Prop := match p with Returned _ => True | _ => False end.

#[global] Instance between_dec p : Decision (between p).
Proof. destruct p; apply _. Defined.

Abbreviation conc := (Goroutines.conc Cache pc request).
Abbreviation conc_step := (Goroutines.conc_step pc_step enter between).
Abbreviation alone := (Goroutines.alone pc_step).
Abbreviation gets := (Goroutines.gets pc_step).

(** [n] goroutines on a cache, none of them in a call. *)
Definition idle (c : Cache) (n : nat) : conc := Goroutines.idle c (Returned ADone) n.

(** ** Alone, a goroutine does what [Cache] says *)

(** A step that does not read the clock. *)
Ltac silent := apply gets_step; [intros ?now; cbn [pc_step]|done].

Lemma evict_alone r keys freed c :
  gets (c, SetEvict r keys freed)
       (evict_loop c (s_endpoint r) (calculateSize (s_data r)) keys freed, SetStore r).
Proof.
  revert freed c. induction keys as [|ka keys IH]; intros freed c.
  { silent. apply gets_refl. }
  silent. cbn [evict_loop]. case_decide; [apply gets_refl|].
  silent. apply IH.
Qed.

Lemma room_alone r c :
  gets (c, SetCheck r) (Set_make_room c (s_endpoint r) (calculateSize (s_data r)), SetStore r).
Proof.
  silent. unfold needsEviction, Set_make_room, evictFromEndpoint.
  destruct (getEndpoint c (s_endpoint r)) as [ep|] eqn:Eep; [|apply gets_refl].
  destruct (decide (ep_maxCost ep > 0)) as [Hm|Hm]; [rewrite (bool_decide_true _ Hm)|rewrite (bool_decide_false _ Hm); apply gets_refl].
  cbn [andb]. case_decide as Hs; [rewrite (bool_decide_true _ Hs)|rewrite (bool_decide_false _ Hs); apply gets_refl].
  silent. unfold listed. rewrite Eep. apply evict_alone.
Qed.

Lemma clear_alone endpoint keys c :
  gets (c, ClearStore endpoint keys) (delete_all c endpoint keys, Returned ADone).
Proof.
  revert c. induction keys as [|ka keys IH]; intros c.
  { silent. apply gets_refl. }
  silent. silent. apply IH.
Qed.
Lemma reset_lookup names (m : gmap string EndpointCache) k :
  foldl (fun m name => alter ep_reset name m) m names !! k = (if decide (k ∈ names) then ep_reset <$> m !! k else m !! k).
Proof.
  revert m. induction names as [|name names IH]; intros m; cbn [foldl]; [done|]. rewrite IH, lookup_alter.
  destruct (decide (name = k)) as [->|Hne], (decide (k ∈ names)); repeat case_decide; try set_solver.
  all: destruct (m !! _); done.
Qed.

Lemma reset_all (m : gmap string EndpointCache) :
  foldl (fun m name => alter ep_reset name m) m (map_to_list m).*1 = ep_reset <$> m.
Proof.
  apply map_eq. intros k. rewrite reset_lookup, lookup_fmap. case_decide as Hk; [done|].
  destruct (m !! k) as [ep|] eqn:Ek; [|done]. destruct Hk.
  apply elem_of_map_to_list in Ek. by apply (list_elem_of_fmap_2 fst) in Ek.
Qed.

Lemma reset_alone names c :
  gets (c, AllReset names)
       (set_endpoints c (foldl (fun m name => alter ep_reset name m) (c_endpoints c) names), Returned ADone).
Proof.
  revert c. induction names as [|name names IH]; intros c; [destruct c|]; silent; [apply gets_refl|]. apply IH.
Qed.

(** What [Cache] says of a call that is one step. *)
Definition outcome (c : Cache) (q : request) (now now' : Z) : Cache * pc :=
  match q with
  | CGet endpoint key => let '(d, oc) := Get (Some c) endpoint key in (default c oc, Returned (AGot endpoint key d))
  | CSet r => let '(b, c) := Set_ c (s_endpoint r) (s_key r) (s_data r) (s_ttl r) now now' in (c, Returned (ASet b))
  | CDelete endpoint key => (Delete_ c endpoint key, Returned ADone)
  | CClear endpoint => (default c (Clear (Some c) endpoint), Returned ADone)
  | CClearAll => (default c (ClearAll (Some c)), Returned ADone)
  end.

(** A call that does not read the clock, once it has returned. *)
Lemma gets_outcome st c a : gets st (c, Returned a) ->
  exists n, forall clk now now', List.length clk = n -> alone (clk ++ [now; now']) st = (c, Returned a).
Proof. intros [n Hn]. exists n. intros clk now now' Hl. by rewrite alone_app, Hn. Qed.

(** C23: refinement.  A goroutine whose call is not interleaved with others returns after
    finitely many steps with the answer and the cache of the operation of [Cache]; the
    last two readings of the clock are those of the entry and of the metadata. *)
Theorem call_alone c q : exists n, forall clk now now', List.length clk = n ->
  alone (clk ++ [now; now']) (c, enter q) = outcome c q now now'.
Proof.
  destruct q as [endpoint key|r|endpoint key|endpoint|]; cbn [enter outcome].
  - destruct (Get (Some c) endpoint key) as [d oc] eqn:E. apply gets_outcome.
    silent. silent. unfold Get in E. destruct (store_Get _ _) as [[e|]|]; injection E as <- <-; apply gets_refl.
  - destruct (room_alone r c) as [n Hn]. exists n. intros clk now now' Hl. rewrite alone_app, Hn by done.
    unfold Set_, Set_commit. cbn. unfold effective_ttl. set (c0 := Set_make_room _ _ _). cbn.
    destruct (store_SetWithTTL _ _ _ _ _) as [[] st]; done.
  - apply gets_outcome. silent. silent. apply gets_refl.
  - apply gets_outcome. silent. unfold listed, Clear. destruct (getEndpoint c endpoint).
    + apply clear_alone.
    + silent. apply gets_refl.
  - apply gets_outcome. silent. destruct (reset_alone ((map_to_list (c_endpoints c)).*1) (set_store c (store_Clear (c_store c)))) as [n Hn].
    exists n. intros clk Hl. rewrite Hn by done. cbn [c_endpoints set_store]. by rewrite reset_all.
Qed.

(** ** Whatever the others do, a call returns *)

Abbreviation ends := (Goroutines.ends pc_step between).

Lemma ends_returned cs clk k a : ends cs clk k (Returned a).
Proof. by apply ends_between. Qed.

Lemma record_ends cs clk k r : ends cs clk k (SetRecord r).
Proof. apply ends_step, ends_returned. Qed.

Lemma store_ends cs clk k r : ends cs clk k (SetStore r).
Proof.
  apply ends_step. cbn [pc_step]. destruct (store_SetWithTTL _ _ _ _ _) as [[] s]; [apply record_ends|apply ends_returned].
Qed.

Lemma evict_ends cs clk r keys freed k : ends cs clk k (SetEvict r keys freed).
Proof.
  revert freed k. induction keys as [|ka keys IH]; intros freed k; apply ends_step; cbn [pc_step]; [apply store_ends|].
  case_decide; [apply store_ends|]. apply ends_step, IH.
Qed.

Lemma clear_ends cs clk endpoint keys k : ends cs clk k (ClearStore endpoint keys).
Proof.
  revert k. induction keys as [|ka keys IH]; intros k; apply ends_step; [apply ends_returned|]. apply ends_step, IH.
Qed.

Lemma reset_ends cs clk names k : ends cs clk k (AllReset names).
Proof. revert k. induction names as [|name names IH]; intros k; apply ends_step; [apply ends_returned|apply IH]. Qed.

(** termination.  Every call returns after finitely many steps of its goroutine,
    whatever the other goroutines do to the cache between them. *)
Theorem call_returns cs clk q : exists n, between (among pc_step cs clk 0 n (enter q)).
Proof.
  change (ends cs clk 0 (enter q)). destruct q; cbn [enter]; apply ends_step; cbn [pc_step snd].
  - apply ends_step, ends_returned.
  - destruct (needsEviction _ _); [apply ends_step, evict_ends|apply store_ends].
  - apply ends_step, ends_returned.
  - apply clear_ends.
  - apply reset_ends.
Qed.
(** ** What holds however goroutines take turns *)

(** A [Set] of [d] under [k] is among the calls. *)
Definition set_by (calls : list request) (k : string) (d : Rows) : Prop :=
  exists r, CSet r ∈ calls /\ fullKey (s_endpoint r) (s_key r) = k /\ s_data r = d.

(** A goroutine in a [Set] was called with it, and data a [Get] holds was set. *)
Definition pc_ok (calls : list request) (p : pc) : Prop :=
  match p with
  | SetCheck r | SetList r | SetEvict r _ _ | SetForget r _ _ _ | SetStore r | SetRecord r => CSet r ∈ calls
  | GetCount endpoint key (Some d) | Returned (AGot endpoint key (Some d)) => set_by calls (fullKey endpoint key) d
  | _ => True
  end.

(** What the store may answer was set, and is an entry. *)
Definition store_ok (calls : list request) (c : Cache) : Prop :=
  forall k v, store_may (c_store c) k v -> exists e, v = Some e /\ set_by calls k (e_Data e).

Lemma set_by_more calls q k d : set_by calls k d -> set_by (calls ++ [q]) k d.
Proof. intros (r & Hr & ?). exists r. split; [apply elem_of_app; by left|done]. Qed.

Lemma pc_ok_more calls q p : pc_ok calls p -> pc_ok (calls ++ [q]) p.
Proof.
  destruct p as [| | | | | | |? ? [d|]| | | | | | | |[? ? [d|]| |]]; cbn; try done; try apply set_by_more.
  all: intros Hr; apply elem_of_app; by left.
Qed.

Lemma enter_ok calls q : pc_ok (calls ++ [q]) (enter q).
Proof. destruct q; cbn; try done. apply elem_of_app. right. by left. Qed.

Lemma pc_step_inv c p now : cache_inv c -> cache_inv (pc_step c p now).1.
Proof.
  intros Hc. destruct p as [| |r [|ka keys] freed| | | |endpoint key|endpoint key [d|]| | | |endpoint [|ka keys]| | |[|name names]|];
    cbn [pc_step fst]; try done; try by apply Delete_inv.
  - by case_decide.
  - by destruct (store_SetWithTTL _ _ _ _ _) as [[] s].
  - apply inv_alter; [done| |done]. intros ep. apply ep_record_inv, calculateSize_range.
  - by apply (count_inv _ _ true).
  - by apply (count_inv _ _ false).
  - apply inv_alter; [done| |done]. intros ep _. apply ep_reset_inv.
Qed.

Lemma drop_ok calls c endpoint key : store_ok calls c -> store_ok calls (drop_stored c endpoint key).
Proof. intros Hs k v [_ Hv]%store_Del_may. by apply Hs. Qed.

Lemma pc_step_ok calls c p now : store_ok calls c -> pc_ok calls p ->
  store_ok calls (pc_step c p now).1 /\ pc_ok calls (pc_step c p now).2.
Proof.
  intros Hs Hp.
  destruct p as [r|r|r [|ka keys] freed| |r|r|endpoint key|endpoint key [d|]| | | |endpoint [|ka keys]| | |[|name names]|a];
    cbn [pc_step fst snd] in *; try (split; [by first [apply drop_ok | exact Hs]|done]).
  - split; [done|]. by destruct (needsEviction c r).
  - case_decide; [done|]. split; [by apply drop_ok|done].
  - pose proof (store_Set_may (c_store c)) as Hmay.
    specialize (Hmay (fullKey (s_endpoint r) (s_key r)) (Some {| e_Data := s_data r; e_SizeBytes := calculateSize (s_data r);
      e_CachedAt := now; e_TTL := s_ttl r |}) (calculateSize (s_data r)) (effective_ttl c r)).
    destruct (store_SetWithTTL _ _ _ _ _) as [b st]. split; [|by destruct b].
    intros k v [[-> ->]|Hv]%Hmay; [|by apply Hs]. eexists. split; [reflexivity|]. by exists r.
  - split; [done|]. destruct (store_Get _ _) as [[e|]|] eqn:E; [|done..].
    apply store_Get_may, Hs in E as (e' & [= <-] & He). done.
  - split; [|done]. intros k v Hv. by apply store_Clear_may in Hv.
Qed.

Definition cache_ok (calls : list request) (c : Cache) : Prop := cache_inv c /\ store_ok calls c.

Definition conc_ok (s : conc) : Prop := conc_inv cache_ok (fun calls _ => pc_ok calls) s.

Lemma conc_run_ok s s' : rtc conc_step s s' -> conc_ok s -> conc_ok s'.
Proof.
  apply conc_run_inv.
  - intros calls q c [Hc Hs]. split; [done|]. intros k v (e & -> & He)%Hs. exists e. split; [done|]. by apply set_by_more.
  - intros calls q c p. apply pc_ok_more.
  - intros calls q c _. apply enter_ok.
  - intros calls c p now [Hc Hs] Hp. destruct (pc_step_ok calls c p now Hs Hp) as [Hs' Hp'].
    split; [split; [by apply pc_step_inv|done]|done].
  - by intros.
Qed.

(** The endpoints registered before goroutines start. *)
Definition registered (c : Cache) (regs : list (string * EndpointCacheConfig)) : Cache :=
  run c ((fun r => ORegister r.1 r.2) <$> regs).

Lemma registered_store c regs : c_store (registered c regs) = c_store c.
Proof.
  unfold registered, run. revert c. induction regs as [|[name cfg] regs IH]; intros c; cbn [fmap list_fmap foldl]; [done|].
  rewrite IH. cbn. repeat case_match; done.
Qed.

(** C22: consistency under concurrency.  In every state that any number of goroutines
    reach by any interleaving of their steps, the counter of each endpoint is the sum of
    the sizes of the keys it tracks, and what a [Get] has returned was given to a [Set]
    under the same stored key. *)
Theorem concurrent_cache cfg c regs n s
    (Hnew : New cfg = Ok (Some c)) (Hrun : rtc conc_step (idle (registered c regs) n) s) :
  (forall name ep, c_endpoints (cn_state s) !! name = Some ep ->
     ep_name ep = name /\ ep_sizeBytes ep = i64 (total (ep_keys ep)) /\ 0 <= total (ep_keys ep)) /\
  (forall i endpoint key d, cn_pcs s !! i = Some (Returned (AGot endpoint key (Some d))) ->
     set_by (cn_calls s) (fullKey endpoint key) d).
Proof.
  assert (conc_ok s) as [[Hc _] Hp].
  { assert (conc_ok (idle (registered c regs) n)) as H0'.
    - split; [split|]; cbn.
      + by apply run_inv, (New_inv cfg).
      + intros k v. cbn. rewrite registered_store. intros Hv. exfalso. revert Hv. unfold New in Hnew.
        destruct (cc_Enabled cfg); [|done]. cbn in Hnew. destruct (store_new _) eqn:E; [|done]. injection Hnew as <-. by apply (store_new_empty _ _ _ _ E).
      + by apply Forall_replicate.
    - by apply (conc_run_ok _ _ Hrun). }
  split.
  - intros name ep Hep. destruct (Hc _ _ Hep) as [Hn [Hs Hk]]. split_and!; [done|done|by apply total_nonneg].
  - intros i endpoint key d Hi. by apply (Forall_lookup_1 _ _ _ _ Hp) in Hi.
Qed.
(** ** The limit of an endpoint is not kept

    Two goroutines that find an endpoint full list the same keys and both count the
    oldest as freed, so one entry makes room for two; and later [Set]s free only as much
    as they add. *)
Section Overrun.
Context (accepts : forall st k v cost ttl, (store_SetWithTTL st k v cost ttl).1 = true).
Context (endpoint : string) (data : Rows) (M : Z).

Abbreviation sz := (calculateSize data).
Context (Hsz : 0 < sz <= M).

Abbreviation moves := (Goroutines.moves pc_step enter between).

(** The endpoint with [n] entries, each of the size of [data]. *)
Definition uniform (ep : EndpointCache) (n : nat) : Prop :=
  ep_maxCost ep = M /\ map_Forall (fun _ m => em_sizeBytes m = sz) (ep_keys ep) /\
  size (ep_keys ep) = n /\ ep_sizeBytes ep = Z.of_nat n * sz.

Lemma record_uniform ep n key m : uniform ep n -> ep_keys ep !! key = None -> em_sizeBytes m = sz ->
  Z.of_nat (S n) * sz < two63 -> uniform (ep_record ep key m) (S n).
Proof.
  intros (HM & Hall & Hn & Hs) Hk Hm Hlt. split_and!; cbn.
  - done.
  - by apply map_Forall_insert_2.
  - by rewrite map_size_insert_None, Hn.
  - rewrite Hk, Hs, Hm, i64_small; unfold two63 in *; nia.
Qed.

Lemma forget_uniform ep n key m : uniform ep (S n) -> ep_keys ep !! key = Some m -> Z.of_nat (S n) * sz < two63 ->
  uniform (ep_forget ep key) n.
Proof.
  intros (HM & Hall & Hn & Hs) Hk Hlt. unfold ep_forget. rewrite Hk. split_and!; cbn.
  - done.
  - by apply map_Forall_delete.
  - rewrite map_size_delete_Some by done. by rewrite Hn.
  - rewrite (Hall _ _ Hk), Hs, i64_small; unfold two63 in *; nia.
Qed.

Definition setting_of (key : string) : setting := {| s_endpoint := endpoint; s_key := key; s_data := data; s_ttl := 0 |}.

(** Storing and recording, with room or not. *)
Lemma put_moves c ep key : c_endpoints c !! endpoint = Some ep -> exists c' m, em_sizeBytes m = sz /\
  moves c (SetStore (setting_of key)) c' (Returned (ASet true)) /\ c_endpoints c' !! endpoint = Some (ep_record ep key m).
Proof.
  intros Hep. set (r := setting_of key).
  set (v := Some {| e_Data := data; e_SizeBytes := sz; e_CachedAt := 0; e_TTL := 0 |}).
  pose proof (accepts (c_store c) (fullKey endpoint key) v sz (effective_ttl c r)) as Ha.
  destruct (store_SetWithTTL (c_store c) (fullKey endpoint key) v sz (effective_ttl c r)) as [b st] eqn:E. cbn in Ha. subst b.
  assert (pc_step c (SetStore r) 0 = (set_store c st, SetRecord r)) as Hst.
  { unfold pc_step, r, setting_of. cbn [s_endpoint s_key s_data s_ttl]. fold v. fold (setting_of key). fold r. by rewrite E. }
  set (m := {| em_sizeBytes := sz; em_cachedAt := 0; em_ttl := effective_ttl (set_store c st) r |}).
  exists (pc_step (set_store c st) (SetRecord r) 0).1, m. split_and!; [done| |].
  - eapply moves_step; [exact Hst|]. eapply (moves_step _ _ _ _ _ 0); [apply surjective_pairing|apply moves_refl].
  - cbn. by rewrite lookup_alter_eq, Hep.
Qed.

(** A goroutine whose list of keys starts with [ka] deletes that one only. *)
Lemma evict_moves c key ka keys : em_sizeBytes ka.2 = sz -> sz < two63 ->
  moves c (SetEvict (setting_of key) (ka :: keys) 0) (forget (drop_stored c endpoint ka.1) endpoint ka.1) (SetStore (setting_of key)).
Proof.
  intros Hka Hlt. eapply (moves_step _ _ _ _ _ 0).
  { cbn [pc_step setting_of s_data]. rewrite decide_False by lia. reflexivity. }
  eapply (moves_step _ _ _ _ _ 0); [reflexivity|]. cbn [fst snd setting_of s_endpoint]. rewrite Hka, i64_small by (unfold two63 in *; lia).
  destruct keys as [|ka' keys]; (eapply (moves_step _ _ _ _ _ 0); [cbn [pc_step setting_of s_data]|apply moves_refl]); [done|].
  by rewrite decide_True by lia.
Qed.

Lemma needs_full c ep n key : c_endpoints c !! endpoint = Some ep -> uniform ep n -> Z.of_nat (S n) * sz < two63 ->
  needsEviction c (setting_of key) = bool_decide (Z.of_nat (S n) * sz > M).
Proof.
  intros Hep (HM & _ & _ & Hs) Hlt. unfold needsEviction, getEndpoint. cbn. rewrite Hep, HM, Hs.
  rewrite bool_decide_true by lia. cbn. rewrite i64_small by (unfold two63 in *; nia). apply bool_decide_ext. nia.
Qed.

(** *** One entry more *)

Abbreviation pair c p q calls := {| cn_state := c; cn_pcs := [p; q]; cn_calls := calls |}.

(** Only [Set]s of [data], and the goroutines between calls. *)
Definition sets_only (s : conc) : Prop :=
  (forall q, q ∈ cn_calls s -> exists key, q = CSet (setting_of key)) /\
  exists a b, cn_pcs s = [Returned a; Returned b].

Lemma moves_first c p c' p' q calls : moves c p c' p' -> rtc conc_step (pair c p q calls) (pair c' p' q calls).
Proof. intros Hm. by apply (Hm 0%nat [p; q]). Qed.

Lemma moves_second c p c' p' q calls : moves c p c' p' -> rtc conc_step (pair c q p calls) (pair c' q p' calls).
Proof. intros Hm. by apply (Hm 1%nat [q; p]). Qed.

Lemma calls_first c a p q calls : rtc conc_step (pair c (Returned a) p calls) (pair c (enter q) p (calls ++ [q])).
Proof. apply rtc_once. by apply (step_call _ _ _ (pair c (Returned a) p calls) 0 (Returned a) q). Qed.

Lemma calls_second c a p q calls : rtc conc_step (pair c p (Returned a) calls) (pair c p (enter q) (calls ++ [q])).
Proof. apply rtc_once. by apply (step_call _ _ _ (pair c p (Returned a) calls) 1 (Returned a) q). Qed.

(** With room, one [Set] after the other. *)
Lemma more_with_room c ep n a b calls : c_endpoints c !! endpoint = Some ep -> uniform ep n ->
  Z.of_nat (S n) * sz < two63 -> Z.of_nat (S n) * sz <= M -> exists c' ep' key,
  rtc conc_step (pair c (Returned a) (Returned b) calls) (pair c' (Returned (ASet true)) (Returned b) (calls ++ [CSet (setting_of key)])) /\
  c_endpoints c' !! endpoint = Some ep' /\ uniform ep' (S n).
Proof.
  intros Hep Hu Hlt HM. set (key := fresh (dom (ep_keys ep)) : string).
  destruct (put_moves c ep key Hep) as (c' & m & Hm & Hmv & Hep').
  exists c', (ep_record ep key m), key. split_and!; [|done|].
  - etrans; [apply (calls_first _ _ _ (CSet (setting_of key)))|]. apply moves_first. eapply (moves_step _ _ _ _ _ 0); [|exact Hmv].
    cbn [enter pc_step]. by rewrite (needs_full _ _ _ _ Hep Hu Hlt), bool_decide_false by lia.
  - apply record_uniform; [done| |done..]. apply not_elem_of_dom, is_fresh.
Qed.

(** In a full endpoint, two [Set]s at a time. *)
Lemma more_when_full c ep n a b calls : c_endpoints c !! endpoint = Some ep -> uniform ep (S n) ->
  Z.of_nat (S (S n)) * sz < two63 -> Z.of_nat (S (S n)) * sz > M -> exists c' ep' k1 k2,
  rtc conc_step (pair c (Returned a) (Returned b) calls)
    (pair c' (Returned (ASet true)) (Returned (ASet true)) ((calls ++ [CSet (setting_of k1)]) ++ [CSet (setting_of k2)])) /\
  c_endpoints c' !! endpoint = Some ep' /\ uniform ep' (S (S n)).
Proof.
  intros Hep Hu Hlt HM. set (k1 := fresh (dom (ep_keys ep)) : string). set (k2 := fresh ({[k1]} ∪ dom (ep_keys ep)) : string).
  assert (k1 ∉ dom (ep_keys ep)) as Hk1 by apply is_fresh.
  assert (k2 ∉ {[k1]} ∪ dom (ep_keys ep)) as Hk2 by apply is_fresh. apply not_elem_of_union in Hk2 as [Hk12 Hk2].
  rewrite not_elem_of_singleton in Hk12.
  pose proof (by_age_perm (ep_keys ep)) as Hp.
  pose proof Hu as (_ & Hall & Hn & _).
  assert (List.length (by_age (ep_keys ep)) = S n) as Hl by (rewrite <- Hn, <- length_map_to_list; by apply Permutation_length).
  destruct (by_age (ep_keys ep)) as [|[k0 m0] rest] eqn:Eage; [done|].
  assert (ep_keys ep !! k0 = Some m0) as Hk0.
  { apply elem_of_map_to_list. rewrite <- Hp. by left. }
  set (c1 := forget (drop_stored c endpoint k0) endpoint k0). set (c2 := forget (drop_stored c1 endpoint k0) endpoint k0).
  assert (c_endpoints c2 !! endpoint = Some (ep_forget ep k0)) as Hc2.
  { cbn. rewrite !lookup_alter_eq, Hep. cbn. f_equal. unfold ep_forget at 1. by rewrite ep_forget_keys, lookup_delete_eq. }
  assert (uniform (ep_forget ep k0) n) as Hu2 by (apply (forget_uniform _ _ _ m0); [exact Hu|done|nia]).
  assert (forall k, k ∉ dom (ep_keys ep) -> ep_keys (ep_forget ep k0) !! k = None) as Hnew.
  { intros k Hk. rewrite ep_forget_keys, lookup_delete_None. right. by apply not_elem_of_dom. }
  destruct (put_moves c2 _ k1 Hc2) as (c3 & m1 & Hm1 & Hmv1 & Hc3).
  destruct (put_moves c3 _ k2 Hc3) as (c4 & m2 & Hm2 & Hmv2 & Hc4).
  exists c4, (ep_record (ep_record (ep_forget ep k0) k1 m1) k2 m2), k1, k2. split_and!; [|done|].
  - assert (forall k, moves c (SetCheck (setting_of k)) c (SetEvict (setting_of k) ((k0, m0) :: rest) 0)) as Hlist.
    { intros k. eapply (moves_step _ _ _ _ _ 0); [|eapply (moves_step _ _ _ _ _ 0); [|apply moves_refl]].
      - cbn [pc_step]. by rewrite (needs_full _ _ _ _ Hep Hu Hlt), bool_decide_true by lia.
      - cbn [pc_step setting_of s_endpoint]. unfold listed, getEndpoint. by rewrite Hep, Eage. }
    assert (em_sizeBytes m0 = sz) as Hm0 by (by apply (Hall _ _ Hk0)).
    etrans; [apply (calls_first _ _ _ (CSet (setting_of k1)))|]. etrans; [apply (calls_second _ _ _ (CSet (setting_of k2)))|]. cbn [enter].
    etrans; [apply moves_first, Hlist|]. etrans; [apply moves_second, Hlist|].
    etrans; [apply moves_first, evict_moves; [done|nia]|]. etrans; [apply moves_second, evict_moves; [done|nia]|].
    etrans; [apply moves_first, Hmv1|]. apply moves_second, Hmv2.
  - apply record_uniform; [apply record_uniform; try done; [by apply Hnew|nia]| |done..].
    cbn. rewrite lookup_insert_ne by congruence. by apply Hnew.
Qed.
(** What two goroutines have done that only [Set] [data] in the endpoint, when it has
    [n] entries and neither is in a call. *)
Definition piled (c c' : Cache) (n : nat) (calls : list request) (ep : EndpointCache) : Prop :=
  exists a b, rtc conc_step (idle c 2) (pair c' (Returned a) (Returned b) calls) /\
    (forall q, q ∈ calls -> exists key, q = CSet (setting_of key)) /\
    c_endpoints c' !! endpoint = Some ep /\ uniform ep n.

Lemma pile_up c ep n : c_endpoints c !! endpoint = Some ep -> uniform ep 0 -> (Z.of_nat n) * sz < two63 ->
  exists c' calls ep', piled c c' n calls ep'.
Proof.
  intros Hep Hu. induction n as [|n IH]; intros Hlt.
  { exists c, [], ep, ADone, ADone. split_and!; [apply rtc_refl| |done..]. by intros q Hq%elem_of_nil. }
  destruct IH as (c1 & calls & ep1 & a & b & Hrun & Hcalls & Hep1 & Hu1); [nia|].
  assert (forall key q, q ∈ calls ++ [CSet (setting_of key)] -> exists key, q = CSet (setting_of key)) as Hmore.
  { intros key q [Hq|Hq%list_elem_of_singleton]%elem_of_app; [by apply Hcalls|by exists key]. }
  destruct (decide (Z.of_nat (S n) * sz <= M)) as [Hroom|Hfull].
  - destruct (more_with_room c1 ep1 n a b calls Hep1 Hu1 Hlt Hroom) as (c2 & ep2 & key & Hrun2 & Hep2 & Hu2).
    exists c2, (calls ++ [CSet (setting_of key)]), ep2, (ASet true), b. split_and!; [by etrans|by apply Hmore|done..].
  - destruct n as [|n]; [lia|].
    destruct (more_when_full c1 ep1 n a b calls Hep1 Hu1 Hlt) as (c2 & ep2 & k1 & k2 & Hrun2 & Hep2 & Hu2); [lia|].
    exists c2, ((calls ++ [CSet (setting_of k1)]) ++ [CSet (setting_of k2)]), ep2, (ASet true), (ASet true).
    split_and!; [by etrans| |done..]. intros q [Hq|Hq%list_elem_of_singleton]%elem_of_app; [by apply (Hmore k1)|by exists k2].
Qed.
End Overrun.

(** the limit of an endpoint is not one.  Take an endpoint with a limit, empty, and
    rows that fit.  For any number [n] whose total fits an [int64], two goroutines that
    only [Set] these rows have an interleaving after which no call is under way and the
    endpoint holds [n] of them, whatever its limit. *)
Theorem concurrent_sets_overrun c endpoint data ep n
    (accepts : forall st k v cost ttl, (store_SetWithTTL st k v cost ttl).1 = true)
    (Hep : c_endpoints c !! endpoint = Some ep) (Hempty : ep_keys ep = ∅ /\ ep_sizeBytes ep = 0)
    (Hfits : 0 < calculateSize data <= ep_maxCost ep) (Hn : Z.of_nat n * calculateSize data < two63) :
  exists s ep', rtc conc_step (idle c 2) s /\ Forall between (cn_pcs s) /\
    (forall q, q ∈ cn_calls s -> exists r, q = CSet r /\ s_endpoint r = endpoint /\ s_data r = data) /\
    c_endpoints (cn_state s) !! endpoint = Some ep' /\ ep_maxCost ep' = ep_maxCost ep /\
    size (ep_keys ep') = n /\ ep_sizeBytes ep' = Z.of_nat n * calculateSize data.
Proof.
  destruct Hempty as [Hk Hs].
  destruct (pile_up accepts endpoint data (ep_maxCost ep) Hfits c ep n Hep) as (c' & calls & ep' & a & b & Hrun & Hcalls & Hep' & HM & _ & Hsz & Hb).
  { split_and!; [done|rewrite Hk; apply map_Forall_empty|by rewrite Hk, map_size_empty|rewrite Hs; lia]. }
  { done. }
  eexists _, ep'. split_and!; [exact Hrun| | |done..].
  - by repeat constructor.
  - intros q (key & ->)%Hcalls. by eexists.
Qed.
End Conc.

(** ** Evaluation at concrete inputs *)

Module Sample.
Import Cache.Sample.
#[local] Existing Instances sample_json sample_store sample_order no_cron.

Definition start : Goroutines.conc (Cache (V := Z)) pc request := idle (registered c0 [("wf", limited)]) 2.

Abbreviation play := (foldl (turn pc_step enter between) start).

Definition set_a (n : Z) : setting (V := Z) := {| s_endpoint := "wf"; s_key := "a"; s_data := rows n; s_ttl := 0 |}.

(** A [Delete] between the two halves of which a [Set] of the same key runs: the entry is
    in the store and no longer tracked, so that clearing the endpoint leaves it there. *)
Definition lost : list (nat * option (request (V := Z))) :=
  [(0, Some (CDelete "wf" "a")); (0, None);
   (1, Some (CSet (set_a 7))); (1, None); (1, None); (1, None); (0, None);
   (0, Some (CClear "wf")); (0, None); (0, None);
   (1, Some (CGet "wf" "a")); (1, None); (1, None)]%nat.

Example clear_misses_untracked :
  let s := play lost in
  cn_pcs s = [Returned ADone; Returned (AGot "wf" "a" (Some (rows 7)))] /\
  ep_keys <$> (c_endpoints (cn_state s) !! "wf") = Some ∅.
Proof. by vm_compute. Qed.

Lemma concurrent_cache_witness : exists s, rtc (conc_step pc_step enter between) start s /\ set_by (cn_calls s) (fullKey "wf" "a") (rows 7).
Proof.
  exists (play lost). split; [apply turn_steps|].
  destruct (concurrent_cache cfg c0 [("wf", limited)] 2 (play lost)) as [_ Hget]; [apply c0_new|apply turn_steps|].
  apply (Hget 1%nat "wf" "a" (rows 7)). by vm_compute.
Defined.

(** Three megabytes in an endpoint limited to one. *)
Lemma concurrent_sets_overrun_witness : exists s ep, rtc (conc_step pc_step enter between) start s /\
  c_endpoints (cn_state s) !! "wf" = Some ep /\ ep_maxCost ep = 1048576 /\ ep_sizeBytes ep = 3000000.
Proof.
  destruct (concurrent_sets_overrun (registered c0 [("wf", limited)]) "wf" (rows 500000)
    (default (new_endpoint "" 0 None) (c_endpoints (registered c0 [("wf", limited)]) !! "wf")) 6) as (s & ep & Hrun & _ & _ & Hep & HM & _ & Hs).
  - by intros.
  - by vm_compute.
  - by split; vm_compute.
  - by split; vm_compute.
  - by vm_compute.
  - exists s, ep. split_and!; [exact Hrun|exact Hep|by rewrite HM; vm_compute|by rewrite Hs; vm_compute].
Defined.
End Sample.
