(* ===== verification/RateConc.v ===== *)
(** * internal/ratelimit under concurrency

    [RateLimit] takes each call as one step on a limiter whose pools hold their buckets.
    Here pools and buckets are objects that goroutines hold pointers to, and a step is
    what happens between taking and releasing a lock, or one call on a bucket: a pool is
    looked up under the read lock and made under the write lock if it is still missing,
    a bucket likewise, and buckets are touched, reserved from and given back to without
    any lock while clean-ups and resets drop them. *)
From S2P Require Import Prelude GoStrings Goroutines RateLimit.

Section Conc.
Context {Ctx : Type} `{UnicodeTables, TokenBucket, KeyEngine Ctx}.

(** ** Memory *)

(** What is done to a bucket. *)
Inductive use := UReserve (now : Z) | UCancel (r : reservation) (now : Z).

(** A bucket, with its history: the pool and the key it was made for, what was done to
    it, and whether a clean-up or a reset has dropped it from its pool. *)
Record cell := { ce_bucket : bucket; ce_pool : nat; ce_key : string; ce_uses : list use; ce_dropped : bool }.

(** A pool; its buckets are addresses. *)
Record pool := {
  po_name : string; po_rps : Z; po_burst : Z; po_template : string;
  po_buckets : gmap string nat; po_lastClean : Z; po_cleanEvery : Z;
}.

Record memory := {
  me_pools : list pool; me_cells : list cell;
  me_named : gmap string nat; me_inline : gmap string nat;
  me_TotalAllowed : Z; me_TotalDenied : Z; me_metrics : gmap string PoolMetrics;
}.

Definition bare_pool (p : Pool) : pool :=
  {| po_name := p_name p; po_rps := p_requestsPerSecond p; po_burst := p_burst p; po_template := p_keyTemplate p;
     po_buckets := ∅; po_lastClean := p_lastClean p; po_cleanEvery := p_cleanEvery p |}.

(** The limiter that [New] returns, in memory. *)
Definition named_pools (l : Limiter) : list (string * Pool) := map_to_list (l_pools l).

Definition load (l : Limiter) : memory :=
  {| me_pools := (fun kp => bare_pool kp.2) <$> named_pools l; me_cells := [];
     me_named := list_to_map (zip (named_pools l).*1 (seq 0 (List.length (named_pools l)))); me_inline := ∅;
     me_TotalAllowed := l_TotalAllowed l; me_TotalDenied := l_TotalDenied l; me_metrics := l_metrics l |}.

Definition set_pool (m : memory) (a : nat) (p : pool) : memory :=
  {| me_pools := <[a := p]> (me_pools m); me_cells := me_cells m; me_named := me_named m; me_inline := me_inline m;
     me_TotalAllowed := me_TotalAllowed m; me_TotalDenied := me_TotalDenied m; me_metrics := me_metrics m |}.

Definition set_cells (m : memory) (cs : list cell) : memory :=
  {| me_pools := me_pools m; me_cells := cs; me_named := me_named m; me_inline := me_inline m;
     me_TotalAllowed := me_TotalAllowed m; me_TotalDenied := me_TotalDenied m; me_metrics := me_metrics m |}.

Definition with_buckets (p : pool) (bs : gmap string nat) (t : Z) : pool :=
  {| po_name := po_name p; po_rps := po_rps p; po_burst := po_burst p; po_template := po_template p;
     po_buckets := bs; po_lastClean := t; po_cleanEvery := po_cleanEvery p |}.

Definition on_cell (m : memory) (b : nat) (f : cell -> cell) : memory := set_cells m (alter f b (me_cells m)).

Definition touch (now : Z) (c : cell) : cell :=
  {| ce_bucket := {| b_limiter := b_limiter (ce_bucket c); b_lastUsed := Unix now |}; ce_pool := ce_pool c;
     ce_key := ce_key c; ce_uses := ce_uses c; ce_dropped := ce_dropped c |}.

Definition use_cell (st : bucket_state) (u : use) (c : cell) : cell :=
  {| ce_bucket := {| b_limiter := st; b_lastUsed := b_lastUsed (ce_bucket c) |}; ce_pool := ce_pool c;
     ce_key := ce_key c; ce_uses := ce_uses c ++ [u]; ce_dropped := ce_dropped c |}.

Definition drop_cell (c : cell) : cell :=
  {| ce_bucket := ce_bucket c; ce_pool := ce_pool c; ce_key := ce_key c; ce_uses := ce_uses c; ce_dropped := true |}.

(** The pool of an inline limit, made and registered; its address is the next one. *)
Definition add_inline (m : memory) (limit : RateLimitRefConfig) : memory :=
  let poolKey := inlinePoolKey limit in
  let p := bare_pool (new_pool (inline_name poolKey) (rl_RequestsPerSecond limit) (rl_Burst limit) (inline_key limit)) in
  {| me_pools := me_pools m ++ [p]; me_cells := me_cells m; me_named := me_named m;
     me_inline := <[poolKey := List.length (me_pools m)]> (me_inline m);
     me_TotalAllowed := me_TotalAllowed m; me_TotalDenied := me_TotalDenied m;
     me_metrics := <[inline_name poolKey := no_metrics]> (me_metrics m) |}.

Definition bucket_at (m : memory) (a : nat) (key : string) : option nat :=
  p ← me_pools m !! a; po_buckets p !! key.

(** A full bucket for a key of the pool at [a]. *)
Definition add_bucket (m : memory) (a : nat) (p : pool) (key : string) (now : Z) : memory :=
  let c := {| ce_bucket := {| b_limiter := NewLimiter (po_rps p) (po_burst p); b_lastUsed := Unix now |};
              ce_pool := a; ce_key := key; ce_uses := []; ce_dropped := false |} in
  set_pool (set_cells m (me_cells m ++ [c])) a
    (with_buckets p (<[key := List.length (me_cells m)]> (po_buckets p)) (po_lastClean p)).

(** The pool at [a] keeps the buckets for which [keep] holds. *)
Definition retain (m : memory) (a : nat) (p : pool) (keep : string -> nat -> bool) (t : Z) : memory :=
  set_pool (set_cells m (imap (fun b c =>
      if decide (ce_pool c = a /\ po_buckets p !! ce_key c = Some b /\ keep (ce_key c) b = false) then drop_cell c else c)
      (me_cells m)))
    a (with_buckets p (filter (fun kb : string * nat => keep kb.1 kb.2 = true) (po_buckets p)) t).

(** A bucket that was used in the last ten minutes. *)
Definition recent (m : memory) (now : Z) (_ : string) (b : nat) : bool :=
  match me_cells m !! b with
  | Some c => negb (bool_decide (b_lastUsed (ce_bucket c) < stale_threshold now))
  | None => true
  end.

Definition count_in (m : memory) (name : string) (allowed : bool) : memory :=
  let bump pm := if allowed
    then {| pm_Allowed := i64 (pm_Allowed pm + 1); pm_Denied := pm_Denied pm; pm_ActiveBuckets := pm_ActiveBuckets pm |}
    else {| pm_Allowed := pm_Allowed pm; pm_Denied := i64 (pm_Denied pm + 1); pm_ActiveBuckets := pm_ActiveBuckets pm |} in
  {| me_pools := me_pools m; me_cells := me_cells m; me_named := me_named m; me_inline := me_inline m;
     me_TotalAllowed := if allowed then i64 (me_TotalAllowed m + 1) else me_TotalAllowed m;
     me_TotalDenied := if allowed then me_TotalDenied m else i64 (me_TotalDenied m + 1);
     me_metrics := alter bump name (me_metrics m) |}.

(** ** Goroutines *)

Inductive request :=
| RAllow (limit : RateLimitRefConfig) (ctx : Ctx)      (* allowOne *)
| RReset (name : string)                               (* ResetPool *)
| RResetKey (name key : string)                        (* ResetKey *)
| RResetAll.

Inductive answer := AAllow (r : result (bool * Z * string)) | AReset (r : result nat) | AResetKey (r : result bool).

(** Where a goroutine stands. *)
Inductive pc :=
| FindPool (limit : RateLimitRefConfig) (ctx : Ctx)      (* the maps of pools, read-locked *)
| MakePool (limit : RateLimitRefConfig) (ctx : Ctx)      (* locked, looked up again *)
| EvalKey (a : nat) (tmpl : string) (ctx : Ctx)
| FindBucket (a : nat) (key : string)                    (* the buckets, read-locked *)
| MakeBucket (a : nat) (key : string)                    (* locked, looked up again *)
| Touch (a : nat) (key : string) (b : nat)               (* lastUsed.Store *)
| Reserving (a : nat) (key : string) (b : nat)
| Delaying (a : nat) (key : string) (b : nat) (r : reservation)   (* Delay reads the clock again *)
| Cancelling (a : nat) (key : string) (b : nat) (r : reservation) (delay : Z)
| Counting (a : nat) (allowed : bool) (retry : Z)        (* the metrics, locked *)
| CleanTest (a : nat) (allowed : bool) (retry : Z)       (* lastClean, read-locked *)
| Cleaning (a : nat) (allowed : bool) (retry now : Z)    (* locked, tested again *)
| ResetFind (name : string)
| Resetting (a : nat)
| KeyFind (name key : string)
| KeyResetting (a : nat) (key : string)
| AllList
| AllReset (todo : list nat) (total : nat)
| Returned (r : answer).

Definition enter (q : request) : pc :=
  match q with
  | RAllow limit ctx => FindPool limit ctx
  | RReset name => ResetFind name
  | RResetKey name key => KeyFind name key
  | RResetAll => AllList
  end.

Definition between (p : pc) : Prop := match p with Returned _ => True | _ => False end.

#[global] Instance between_dec p : Decision (between p).
Proof. destruct p; apply _. Defined.

Definition address (m : memory) (r : pool_ref) : option nat :=
  match r with Named n => me_named m !! n | Inline k => me_inline m !! k end.

Definition find_address (m : memory) (name : string) : option nat :=
  match me_named m !! name with Some a => Some a | None => me_inline m !! name end.

(** A pointer to nothing: the goroutines of a limiter made by [New] have none. *)
Definition nil_pointer {A} : result A := Err (Errorf "nil pointer dereference").

Definition needs_clean (p : pool) (now : Z) : bool := bool_decide (time_Sub now (po_lastClean p) > po_cleanEvery p).

(** One step; [now] is what the clock shows then. *)
Definition pc_step (m : memory) (p : pc) (now : Z) : memory * pc :=
  match p with
  | FindPool limit ctx =>
    if IsPoolReference limit then
      match me_named m !! rl_Pool limit with
      | None => (m, Returned (AAllow (Err (Errorf ("rate limit " +:+ quoted (rl_Pool limit) +:+ " not found")))))
      | Some a => (m, EvalKey a (from_option po_template "" (me_pools m !! a)) ctx)
      end
    else if IsInline limit then
      match me_inline m !! inlinePoolKey limit with
      | Some a => (m, EvalKey a (inline_key limit) ctx)
      | None => (m, MakePool limit ctx)
      end
    else (m, Returned (AAllow (Ok (true, 0, ""))))
  | MakePool limit ctx =>
    match me_inline m !! inlinePoolKey limit with
    | Some a => (m, EvalKey a (inline_key limit) ctx)
    | None => (add_inline m limit, EvalKey (List.length (me_pools m)) (inline_key limit) ctx)
    end
  | EvalKey a tmpl ctx =>
    match ExecuteInline tmpl ctx with
    | Err e => (m, Returned (AAllow (Err (Wrapf "failed to evaluate rate limit key: " e ""))))
    | Ok key => (m, FindBucket a key)
    end
  | FindBucket a key => (m, match bucket_at m a key with Some b => Touch a key b | None => MakeBucket a key end)
  | MakeBucket a key =>
    match bucket_at m a key, me_pools m !! a with
    | Some b, _ => (m, Touch a key b)
    | None, Some p => (add_bucket m a p key now, Touch a key (List.length (me_cells m)))
    | None, None => (m, Returned (AAllow nil_pointer))
    end
  | Touch a key b => (on_cell m b (touch now), Reserving a key b)
  | Reserving a key b =>
    match me_cells m !! b with
    | None => (m, Returned (AAllow nil_pointer))
    | Some c =>
      let '(r, st) := Reserve (b_limiter (ce_bucket c)) now in
      (on_cell m b (use_cell st (UReserve now)), Delaying a key b r)
    end
  | Delaying a key b r =>
    let delay := Delay r now in
    (m, if decide (delay = 0) then Counting a true 0 else Cancelling a key b r delay)
  | Cancelling a key b r delay =>
    (match me_cells m !! b with
     | None => m
     | Some c => on_cell m b (use_cell (Cancel (b_limiter (ce_bucket c)) r now) (UCancel r now))
     end, Counting a false (i64 (truncate_second delay + Second)))
  | Counting a allowed retry =>
    (count_in m (from_option po_name "" (me_pools m !! a)) allowed, CleanTest a allowed retry)
  | CleanTest a allowed retry =>
    match me_pools m !! a with
    | None => (m, Returned (AAllow nil_pointer))
    | Some p => (m, if needs_clean p now then Cleaning a allowed retry now
                    else Returned (AAllow (Ok (allowed, retry, po_name p))))
    end
  | Cleaning a allowed retry now0 =>
    match me_pools m !! a with
    | None => (m, Returned (AAllow nil_pointer))
    | Some p => (if needs_clean p now0 then retain m a p (recent m now0) now0 else m,
                 Returned (AAllow (Ok (allowed, retry, po_name p))))
    end
  | ResetFind name =>
    (m, match find_address m name with
        | None => Returned (AReset (Err (Errorf (quoted name +:+ " not found"))))
        | Some a => Resetting a
        end)
  | Resetting a =>
    match me_pools m !! a with
    | None => (m, Returned (AReset nil_pointer))
    | Some p => (retain m a p (fun _ _ => false) now, Returned (AReset (Ok (size (po_buckets p)))))
    end
  | KeyFind name key =>
    (m, match find_address m name with
        | None => Returned (AResetKey (Err (Errorf (quoted name +:+ " not found"))))
        | Some a => KeyResetting a key
        end)
  | KeyResetting a key =>
    match me_pools m !! a with
    | None => (m, Returned (AResetKey nil_pointer))
    | Some p => (retain m a p (fun k _ => negb (bool_decide (k = key))) (po_lastClean p),
                 Returned (AResetKey (Ok (bool_decide (is_Some (po_buckets p !! key))))))
    end
  | AllList => (m, AllReset ((map_to_list (me_named m)).*2 ++ (map_to_list (me_inline m)).*2) 0)
  | AllReset [] total => (m, Returned (AReset (Ok total)))
  | AllReset (a :: todo) total =>
    match me_pools m !! a with
    | None => (m, Returned (AReset nil_pointer))
    | Some p => (retain m a p (fun _ _ => false) now, AllReset todo (total + size (po_buckets p)))
    end
  | Returned r => (m, Returned r)
  end.

Abbreviation conc := (Goroutines.conc memory pc request).
Abbreviation conc_step := (Goroutines.conc_step pc_step enter between).

(** [n] goroutines on a limiter, none of them in a call. *)
Definition idle (m : memory) (n : nat) : conc := Goroutines.idle m (Returned (AReset (Ok 0%nat))) n.
(** ** Invariants *)

(** The state of a bucket after a sequence of uses. *)
Definition use_step (st : bucket_state) (u : use) : bucket_state :=
  match u with UReserve now => (Reserve st now).2 | UCancel r now => Cancel st r now end.
Definition replay : bucket_state -> list use -> bucket_state := foldl use_step.

Record mem_ok (m : memory) : Prop := {
  mo_named : forall n a, me_named m !! n = Some a -> exists p, me_pools m !! a = Some p /\ po_name p = n /\ reserved_name n = false;
  mo_inline : forall k a, me_inline m !! k = Some a -> exists p, me_pools m !! a = Some p /\ po_name p = inline_name k;
  mo_pools : forall a p, me_pools m !! a = Some p -> me_named m !! po_name p = Some a \/
    exists k, po_name p = inline_name k /\ me_inline m !! k = Some a;
  mo_live : forall a p key b, me_pools m !! a = Some p -> po_buckets p !! key = Some b ->
    exists c, me_cells m !! b = Some c /\ ce_pool c = a /\ ce_key c = key /\ ce_dropped c = false;
  mo_cells : forall b c, me_cells m !! b = Some c -> exists p, me_pools m !! ce_pool c = Some p /\
    b_limiter (ce_bucket c) = replay (NewLimiter (po_rps p) (po_burst p)) (ce_uses c) /\
    (ce_dropped c = false -> po_buckets p !! ce_key c = Some b);
  mo_metrics : forall a p, me_pools m !! a = Some p -> is_Some (me_metrics m !! po_name p);
  mo_counted : forall n, is_Some (me_metrics m !! n) -> exists a p, me_pools m !! a = Some p /\ po_name p = n;
  mo_allowed : me_TotalAllowed m = i64 (map_sum pm_Allowed (me_metrics m));
  mo_denied : me_TotalDenied m = i64 (map_sum pm_Denied (me_metrics m));
}.

(** The addresses a goroutine holds. *)
Definition pc_ok (m : memory) (p : pc) : Prop :=
  match p with
  | EvalKey a _ _ | FindBucket a _ | MakeBucket a _ | Counting a _ _ | CleanTest a _ _ | Cleaning a _ _ _
  | Resetting a | KeyResetting a _ => is_Some (me_pools m !! a)
  | Touch a key b | Reserving a key b | Delaying a key b _ | Cancelling a key b _ _ =>
    is_Some (me_pools m !! a) /\ exists c, me_cells m !! b = Some c /\ ce_pool c = a /\ ce_key c = key
  | AllReset todo _ => Forall (fun a => is_Some (me_pools m !! a)) todo
  | _ => True
  end.

(** What changes of memory leave to goroutines: pools and cells stay where they are, with
    their names and keys. *)
Definition extends (m m' : memory) : Prop :=
  (forall a, is_Some (me_pools m !! a) -> is_Some (me_pools m' !! a)) /\
  (forall b c, me_cells m !! b = Some c -> exists c', me_cells m' !! b = Some c' /\ ce_pool c' = ce_pool c /\ ce_key c' = ce_key c).

Lemma pc_ok_extends m m' p : extends m m' -> pc_ok m p -> pc_ok m' p.
Proof.
  intros [Hp Hc]. assert (forall a key b, is_Some (me_pools m !! a) /\ (exists c, me_cells m !! b = Some c /\ ce_pool c = a /\ ce_key c = key) ->
    is_Some (me_pools m' !! a) /\ exists c, me_cells m' !! b = Some c /\ ce_pool c = a /\ ce_key c = key) as Hb.
  { intros a key b (Ha & c & Hb & <- & <-). split; [by apply Hp|]. by apply Hc. }
  destruct p; cbn; try done; try apply Hp; try apply Hb. intros Hf. eapply Forall_impl; [exact Hf|exact Hp].
Qed.

Lemma extends_refl m : extends m m.
Proof. split; [done|]. intros b c Hb. by exists c. Qed.

(** *** Lookups *)

Lemma on_cell_lookup m b f b' : me_cells (on_cell m b f) !! b' = (if decide (b' = b) then f else id) <$> me_cells m !! b'.
Proof.
  cbn. destruct (decide (b' = b)) as [->|Hne].
  - apply list_lookup_alter_eq.
  - rewrite list_lookup_alter_ne by done. by destruct (me_cells m !! b').
Qed.

(** Changing what is in a cell, not whose it is. *)
Lemma on_cell_extends m b f : (forall c, ce_pool (f c) = ce_pool c /\ ce_key (f c) = ce_key c) -> extends m (on_cell m b f).
Proof.
  intros Hf. split; [done|]. intros b' c Hb'. rewrite on_cell_lookup, Hb'. cbn. case_decide; [by eexists|by exists c].
Qed.

Lemma on_cell_ok m b f : mem_ok m ->
  (forall c p, me_cells m !! b = Some c -> me_pools m !! ce_pool c = Some p ->
     b_limiter (ce_bucket c) = replay (NewLimiter (po_rps p) (po_burst p)) (ce_uses c) ->
     ce_pool (f c) = ce_pool c /\ ce_key (f c) = ce_key c /\ ce_dropped (f c) = ce_dropped c /\
     b_limiter (ce_bucket (f c)) = replay (NewLimiter (po_rps p) (po_burst p)) (ce_uses (f c))) ->
  mem_ok (on_cell m b f).
Proof.
  intros [] Hf. assert (forall b' c', me_cells (on_cell m b f) !! b' = Some c' -> exists c p, me_cells m !! b' = Some c /\
    me_pools m !! ce_pool c = Some p /\ ce_pool c' = ce_pool c /\ ce_key c' = ce_key c /\ ce_dropped c' = ce_dropped c /\
    b_limiter (ce_bucket c') = replay (NewLimiter (po_rps p) (po_burst p)) (ce_uses c')) as Hback.
  { intros b' c'. rewrite on_cell_lookup. destruct (me_cells m !! b') as [c|] eqn:Eb; [|done].
    destruct (mo_cells0 _ _ Eb) as (p & Hp & Hr & _). intros [= <-]. exists c, p.
    case_decide as E; [|by split_and!]. subst b'. destruct (Hf c p Eb Hp Hr) as (? & ? & ? & ?). by split_and!. }
  constructor; try done.
  - intros a p key b' Ha Hb'. destruct (mo_live0 _ _ _ _ Ha Hb') as (c & Hc & Hca & Hck & Hcd).
    destruct (me_cells (on_cell m b f) !! b') as [c'|] eqn:Ec'.
    + destruct (Hback _ _ Ec') as (c0 & p0 & Hc0 & _ & E1 & E2 & E3 & _). rewrite Hc in Hc0. injection Hc0 as <-.
      exists c'. by rewrite E1, E2, E3.
    + rewrite on_cell_lookup, Hc in Ec'. done.
  - intros b' c' Hb'. destruct (Hback _ _ Hb') as (c & p & Hc & Hp & E1 & E2 & E3 & Hr).
    exists p. rewrite E1, E2, E3. split_and!; [done|done|]. intros Hd. destruct (mo_cells0 _ _ Hc) as (p' & Hp' & _ & Hl).
    rewrite Hp in Hp'. injection Hp' as <-. by apply Hl.
Qed.

(** *** Making pools and buckets *)

Lemma add_inline_ok m limit : mem_ok m -> me_inline m !! inlinePoolKey limit = None -> mem_ok (add_inline m limit).
Proof.
  intros [] Hnew. set (k := inlinePoolKey limit) in *. set (a0 := List.length (me_pools m)).
  assert (forall a p, me_pools m !! a = Some p -> a <> a0) as Hlt.
  { intros a p Ha ->. apply lookup_lt_Some in Ha. unfold a0 in Ha. lia. }
  assert (me_metrics m !! inline_name k = None) as Hm.
  { destruct (me_metrics m !! inline_name k) as [pm|] eqn:E; [|done]. destruct (mo_counted0 (inline_name k)) as (a & p & Ha & Hp); [by eexists|].
    destruct (mo_pools0 _ _ Ha) as [Hn|(k' & Hk' & Hi)].
    - apply mo_named0 in Hn as (p' & _ & _ & Hr). by rewrite Hp, inline_name_reserved in Hr.
    - rewrite Hp in Hk'. apply inline_name_inj in Hk' as <-. congruence. }
  assert (forall a p, me_pools (add_inline m limit) !! a = Some p -> me_pools m !! a = Some p \/
    a = a0 /\ p = bare_pool (new_pool (inline_name k) (rl_RequestsPerSecond limit) (rl_Burst limit) (inline_key limit))) as Hpools.
  { intros a p. cbn. rewrite lookup_app_Some. intros [Ha|[Hge Ha]]; [by left|right]. fold a0 in Hge, Ha.
    destruct (a - a0)%nat as [|n] eqn:En; [|done]. injection Ha as <-. split; [lia|done]. }
  assert (forall a p, me_pools m !! a = Some p -> me_pools (add_inline m limit) !! a = Some p) as Hold.
  { intros a p Ha. cbn. by apply lookup_app_l_Some. }
  assert (exists p, me_pools (add_inline m limit) !! a0 = Some p /\ po_name p = inline_name k) as Hself.
  { eexists. cbn. rewrite lookup_app_r, Nat.sub_diag by done. by split. }
  constructor.
  - intros n a Ha. destruct (mo_named0 _ _ Ha) as (p & Hp & ?). exists p. split; [by apply Hold|done].
  - intros k' a. cbn. rewrite lookup_insert. fold k. case_decide as E.
    + subst k'. by intros [= <-].
    + intros Ha. destruct (mo_inline0 _ _ Ha) as (p & Hp & ?). exists p. split; [by apply Hold|done].
  - intros a p [Ha|[-> ->]]%Hpools.
    + destruct (mo_pools0 _ _ Ha) as [?|(k' & Hk' & Hi)]; [by left|right]. exists k'. split; [done|]. cbn.
      rewrite lookup_insert_ne; [done|]. intros <-. fold k in Hi. congruence.
    + right. exists k. split; [done|]. cbn. apply lookup_insert_eq.
  - intros a p key b [Ha|[-> ->]]%Hpools Hb; [by apply (mo_live0 _ _ _ _ Ha Hb)|done].
  - intros b c Hb. destruct (mo_cells0 _ _ Hb) as (p & Hp & ?). exists p. split; [by apply Hold|done].
  - intros a p [Ha|[-> ->]]%Hpools; cbn; fold k; rewrite lookup_insert; [|by rewrite decide_True].
    case_decide; [done|]. by apply (mo_metrics0 _ _ Ha).
  - intros n. cbn. fold k. rewrite lookup_insert. case_decide as E.
    + intros _. subst n. by exists a0.
    + intros Hs. destruct (mo_counted0 _ Hs) as (a & p & Ha & Hp). exists a, p. split; [by apply Hold|done].
  - cbn. fold k. rewrite map_sum_insert by done. by rewrite mo_allowed0.
  - cbn. fold k. rewrite map_sum_insert by done. by rewrite mo_denied0.
Qed.
(** Replacing the pool at [a] by one with other buckets, and its cells with them. *)
Lemma swap_ok m a p bs t cs : mem_ok m -> me_pools m !! a = Some p ->
  (forall key b, bs !! key = Some b -> exists c, cs !! b = Some c /\ ce_pool c = a /\ ce_key c = key /\ ce_dropped c = false) ->
  (forall b c, me_cells m !! b = Some c -> ce_pool c <> a -> cs !! b = Some c) ->
  (forall b c, cs !! b = Some c -> (ce_pool c <> a /\ me_cells m !! b = Some c) \/
     (ce_pool c = a /\ b_limiter (ce_bucket c) = replay (NewLimiter (po_rps p) (po_burst p)) (ce_uses c) /\
      (ce_dropped c = false -> bs !! ce_key c = Some b))) ->
  mem_ok (set_pool (set_cells m cs) a (with_buckets p bs t)).
Proof.
  intros [] Ha Hlive Hothers Hcells. set (p' := with_buckets p bs t). set (m' := set_pool (set_cells m cs) a p').
  assert (me_pools m' !! a = Some p') as Ha' by (apply list_lookup_insert_eq; by eapply lookup_lt_Some).
  assert (forall a1, a1 <> a -> me_pools m' !! a1 = me_pools m !! a1) as Hne.
  { intros a1 Hn. by apply list_lookup_insert_ne. }
  assert (forall a1 q, me_pools m !! a1 = Some q -> exists q', me_pools m' !! a1 = Some q' /\ po_name q' = po_name q) as Hfwd.
  { intros a1 q Hq. destruct (decide (a1 = a)) as [->|Hn]; [|rewrite Hne by done; by exists q].
    rewrite Ha in Hq. injection Hq as <-. by exists p'. }
  assert (forall a1 q', me_pools m' !! a1 = Some q' -> exists q, me_pools m !! a1 = Some q /\ po_name q' = po_name q) as Hbwd.
  { intros a1 q Hq. destruct (decide (a1 = a)) as [->|Hn]; [|rewrite Hne in Hq by done; by exists q].
    rewrite Ha' in Hq. injection Hq as <-. by exists p. }
  constructor; cbn [me_named me_inline me_metrics me_TotalAllowed me_TotalDenied set_pool set_cells]; try done.
  - intros n a1 H1'. destruct (mo_named0 _ _ H1') as (q & Hq & Hn & Hr). destruct (Hfwd _ _ Hq) as (q' & Hq' & E).
    exists q'. by rewrite E.
  - intros k a1 H1'. destruct (mo_inline0 _ _ H1') as (q & Hq & Hn). destruct (Hfwd _ _ Hq) as (q' & Hq' & E).
    exists q'. by rewrite E.
  - intros a1 q' (q & Hq & ->)%Hbwd. by apply mo_pools0.
  - intros a1 q key b. destruct (decide (a1 = a)) as [->|Hn].
    + rewrite Ha'. intros [= <-]. apply Hlive.
    + rewrite Hne by done. intros Hq Hb. destruct (mo_live0 _ _ _ _ Hq Hb) as (c & Hc & <- & Hk & Hd).
      exists c. split_and!; try done. by apply Hothers.
  - intros b c [[Hn Hc]|(Hca & Hr & Hd)]%Hcells.
    + destruct (mo_cells0 _ _ Hc) as (q & Hq & ?). exists q. by rewrite Hne.
    + exists p'. by rewrite Hca.
  - intros a1 q' (q & Hq & ->)%Hbwd. by apply (mo_metrics0 _ _ Hq).
  - intros n Hs. destruct (mo_counted0 _ Hs) as (a1 & q & Hq & <-). destruct (Hfwd _ _ Hq) as (q' & ? & ?). by exists a1, q'.
Qed.

Lemma swap_extends m a p p' cs : me_pools m !! a = Some p ->
  (forall b c, me_cells m !! b = Some c -> exists c', cs !! b = Some c' /\ ce_pool c' = ce_pool c /\ ce_key c' = ce_key c) ->
  extends m (set_pool (set_cells m cs) a p').
Proof.
  intros Ha Hc. split; [|exact Hc]. intros a1 Ha1. cbn. destruct (decide (a1 = a)) as [->|].
  - rewrite list_lookup_insert_eq; [done|]. by eapply lookup_lt_Some.
  - by rewrite list_lookup_insert_ne.
Qed.

Lemma add_bucket_ok m a p key now : mem_ok m -> me_pools m !! a = Some p -> po_buckets p !! key = None ->
  mem_ok (add_bucket m a p key now).
Proof.
  intros Hm Ha Hnew. assert (forall b c, me_cells m !! b = Some c -> (b < List.length (me_cells m))%nat) as Hlt.
  { intros b c. apply lookup_lt_Some. }
  apply swap_ok; [done|done|..].
  - intros k b. rewrite lookup_insert. case_decide as E.
    + subst k. intros [= <-]. eexists. by rewrite lookup_app_r, Nat.sub_diag by done.
    + intros Hb. destruct (mo_live m Hm _ _ _ _ Ha Hb) as (c & Hc & ?). exists c. split; [by apply lookup_app_l_Some|done].
  - intros b c Hb _. by apply lookup_app_l_Some.
  - intros b c. rewrite lookup_app_Some. intros [Hb|[Hge Hb]].
    + destruct (decide (ce_pool c = a)) as [Hca|]; [right|by left]. destruct (mo_cells m Hm _ _ Hb) as (q & Hq & Hr & Hd).
      rewrite Hca, Ha in Hq. injection Hq as <-. split_and!; [done|done|]. intros Hl. rewrite lookup_insert_ne; [by apply Hd|].
      specialize (Hd Hl). congruence.
    + right. destruct (b - List.length (me_cells m))%nat as [|n] eqn:En; [|done]. injection Hb as <-. split_and!; [done|done|].
      intros _. cbn. rewrite lookup_insert_eq. f_equal. lia.
Qed.

Lemma add_bucket_extends m a p key now : me_pools m !! a = Some p -> extends m (add_bucket m a p key now).
Proof. intros Ha. eapply swap_extends; [done|]. intros b c Hb. exists c. split; [by apply lookup_app_l_Some|done]. Qed.

Lemma retain_ok m a p keep t : mem_ok m -> me_pools m !! a = Some p -> mem_ok (retain m a p keep t).
Proof.
  intros Hm Ha. apply swap_ok; [done|done|..].
  - intros key b [Hb Hk]%map_lookup_filter_Some. destruct (mo_live m Hm _ _ _ _ Ha Hb) as (c & Hc & Hca & Hck & Hd).
    exists c. rewrite list_lookup_imap, Hc. cbn in *. rewrite decide_False; [done|]. intros (_ & _ & Hf). subst key. congruence.
  - intros b c Hb Hn. rewrite list_lookup_imap, Hb. cbn. by rewrite decide_False by naive_solver.
  - intros b c. rewrite list_lookup_imap. destruct (me_cells m !! b) as [c0|] eqn:Eb; [|done]. cbn. intros [= <-].
    destruct (mo_cells m Hm _ _ Eb) as (q & Hq & Hr & Hd). case_decide as E.
    + destruct E as (Hca & Hb & Hk). right. rewrite Hca, Ha in Hq. injection Hq as <-. split_and!; done.
    + destruct (decide (ce_pool c0 = a)) as [Hca|]; [right|by left]. rewrite Hca, Ha in Hq. injection Hq as <-.
      split_and!; [done|done|]. intros Hl. apply map_lookup_filter_Some. split; [by apply Hd|]. cbn.
      destruct (keep (ce_key c0) b) eqn:Ek; [done|]. destruct E. split_and!; [done|by apply Hd|done].
Qed.

Lemma retain_extends m a p keep t : me_pools m !! a = Some p -> extends m (retain m a p keep t).
Proof.
  intros Ha. eapply swap_extends; [done|]. intros b c Hb. rewrite list_lookup_imap, Hb. cbn.
  case_decide; [by eexists|by exists c].
Qed.

Lemma add_inline_extends m limit : extends m (add_inline m limit).
Proof.
  split; [|intros b c Hb; by exists c]. intros a [p Ha]. exists p. cbn. by apply lookup_app_l_Some.
Qed.

Lemma count_in_ok m a p allowed : mem_ok m -> me_pools m !! a = Some p -> mem_ok (count_in m (po_name p) allowed).
Proof.
  intros [] Ha. destruct (mo_metrics0 _ _ Ha) as [pm Hpm]. constructor; cbn; try done.
  - intros a1 q Hq. rewrite lookup_alter_is_Some. by apply (mo_metrics0 _ _ Hq).
  - intros n. rewrite lookup_alter_is_Some. apply mo_counted0.
  - rewrite (map_sum_alter _ _ _ _ _ Hpm), mo_allowed0. destruct allowed; simpl; [rewrite i64_add_l, i64_add_r|]; f_equal; lia.
  - rewrite (map_sum_alter _ _ _ _ _ Hpm), mo_denied0. destruct allowed; simpl; [|rewrite i64_add_l, i64_add_r]; f_equal; lia.
Qed.

Lemma find_address_ok m name a : mem_ok m -> find_address m name = Some a -> is_Some (me_pools m !! a).
Proof.
  intros Hm. unfold find_address. destruct (me_named m !! name) as [a'|] eqn:E; intros Hf.
  - injection Hf as <-. destruct (mo_named m Hm _ _ E) as (p & Hp & _). by exists p.
  - destruct (mo_inline m Hm _ _ Hf) as (p & Hp & _). by exists p.
Qed.

Lemma bucket_at_ok m a key b : mem_ok m -> bucket_at m a key = Some b ->
  is_Some (me_pools m !! a) /\ exists c, me_cells m !! b = Some c /\ ce_pool c = a /\ ce_key c = key.
Proof.
  intros Hm. unfold bucket_at. destruct (me_pools m !! a) as [p|] eqn:Ea; [|done]. cbn. intros Hb. split; [done|].
  destruct (mo_live m Hm _ _ _ _ Ea Hb) as (c & ? & ? & ? & _). by exists c.
Qed.
(** *** A step *)

Definition keeps_ok (m : memory) (r : memory * pc) : Prop := mem_ok r.1 /\ extends m r.1 /\ pc_ok r.1 r.2.

Lemma same_ok m p : mem_ok m -> pc_ok m p -> keeps_ok m (m, p).
Proof. intros Hm Hp. split_and!; [done|apply extends_refl|done]. Qed.

Lemma use_ok m b u st c : mem_ok m -> me_cells m !! b = Some c -> st = use_step (b_limiter (ce_bucket c)) u ->
  mem_ok (on_cell m b (use_cell st u)) /\ extends m (on_cell m b (use_cell st u)).
Proof.
  intros Hm Hb ->. split; [|by apply on_cell_extends]. apply on_cell_ok; [done|]. intros c' p Hc' Hp Hr.
  rewrite Hb in Hc'. injection Hc' as <-. split_and!; [done..|]. cbn. unfold replay in *. by rewrite foldl_app, <- Hr.
Qed.

Lemma retain_keeps m a p keep t q : mem_ok m -> me_pools m !! a = Some p -> pc_ok m q -> keeps_ok m (retain m a p keep t, q).
Proof.
  intros Hm Ha Hq. pose proof (retain_extends m a p keep t Ha) as He.
  split_and!; [by apply retain_ok|done|by eapply pc_ok_extends].
Qed.

Lemma limiter_step_ok m p now : mem_ok m -> pc_ok m p -> keeps_ok m (pc_step m p now).
Proof.
  intros Hm Hp. destruct p as [limit ctx|limit ctx|a tmpl ctx|a key|a key|a key b|a key b|a key b r|a key b r delay|a allowed retry|
    a allowed retry|a allowed retry now0|name|a|name key|a key| |[|a todo] total|r]; cbn [pc_step].
  - destruct (IsPoolReference limit).
    + destruct (me_named m !! rl_Pool limit) as [a|] eqn:E; apply same_ok; try done.
      destruct (mo_named m Hm _ _ E) as (p & Hp' & _). by exists p.
    + destruct (IsInline limit); [|by apply same_ok].
      destruct (me_inline m !! inlinePoolKey limit) as [a|] eqn:E; apply same_ok; try done.
      destruct (mo_inline m Hm _ _ E) as (p & Hp' & _). by exists p.
  - destruct (me_inline m !! inlinePoolKey limit) as [a|] eqn:E.
    + apply same_ok; [done|]. destruct (mo_inline m Hm _ _ E) as (p & Hp' & _). by exists p.
    + split_and!; [by apply add_inline_ok|apply add_inline_extends|]. cbn.
      rewrite lookup_app_r, Nat.sub_diag by done. by eexists.
  - destruct (ExecuteInline tmpl ctx); by apply same_ok.
  - apply same_ok; [done|]. destruct (bucket_at m a key) as [b|] eqn:E; [|done]. by apply bucket_at_ok.
  - destruct (bucket_at m a key) as [b|] eqn:E; [apply same_ok; [done|by apply bucket_at_ok]|].
    destruct (me_pools m !! a) as [p|] eqn:Ea; [|by apply same_ok].
    assert (po_buckets p !! key = None) as Hn by (unfold bucket_at in E; by rewrite Ea in E).
    pose proof (add_bucket_extends m a p key now Ea) as He.
    split_and!; [by apply add_bucket_ok|done|]. cbn. split; [by apply He; exists p|]. rewrite lookup_app_r, Nat.sub_diag by done.
    by eexists.
  - assert (mem_ok (on_cell m b (touch now)) /\ extends m (on_cell m b (touch now))) as [Hm' He].
    { split; [by apply on_cell_ok|by apply on_cell_extends]. }
    split_and!; [done|done|]. by apply (pc_ok_extends m _ (Reserving a key b)).
  - destruct Hp as (Ha & c & Hb & Hca & Hck). rewrite Hb. destruct (Reserve _ now) as [r st] eqn:Er.
    destruct (use_ok m b (UReserve now) st c Hm Hb) as [Hm' He]; [cbn; by rewrite Er|].
    split_and!; [done|done|]. apply (pc_ok_extends m _ (Delaying a key b r) He). split; [done|by exists c].
  - apply same_ok; [done|]. case_decide; [by destruct Hp|done].
  - destruct Hp as (Ha & c & Hb & Hca & Hck). rewrite Hb.
    destruct (use_ok m b (UCancel r now) _ c Hm Hb eq_refl) as [Hm' He]. split_and!; [done|done|by apply He].
  - destruct Hp as [p Ha]. rewrite Ha. cbn [from_option]. split_and!; [by eapply count_in_ok| |by exists p]. split; [done|].
    intros b c Hb. by exists c.
  - destruct Hp as [p Ha]. rewrite Ha. apply same_ok; [done|]. by destruct (needs_clean p now); [exists p|].
  - destruct Hp as [p Ha]. rewrite Ha. destruct (needs_clean p now0); [by apply retain_keeps|by apply same_ok].
  - apply same_ok; [done|]. destruct (find_address m name) eqn:E; [by eapply find_address_ok|done].
  - destruct Hp as [p Ha]. rewrite Ha. by apply retain_keeps.
  - apply same_ok; [done|]. destruct (find_address m name) eqn:E; [by eapply find_address_ok|done].
  - destruct Hp as [p Ha]. rewrite Ha. by apply retain_keeps.
  - apply same_ok; [done|]. cbn. apply Forall_app. split; apply Forall_fmap, Forall_forall; intros [k a] Hk%elem_of_map_to_list; cbn.
    + destruct (mo_named m Hm _ _ Hk) as (p & ? & _). by exists p.
    + destruct (mo_inline m Hm _ _ Hk) as (p & ? & _). by exists p.
  - by apply same_ok.
  - cbn in Hp. apply Forall_cons in Hp as [[p Ha] Hf]. rewrite Ha. by apply retain_keeps.
  - by apply same_ok.
Qed.

(** *** The limiter of a configuration *)

Lemma load_named l n a : me_named (load l) !! n = Some a ->
  exists p, named_pools l !! a = Some (n, p).
Proof.
  cbn. intros Hl%elem_of_list_to_map_2. apply list_elem_of_lookup in Hl as (i & Hi).
  apply lookup_zip_Some in Hi as [Hn Ha]. apply lookup_seq in Ha as [-> _]. cbn.
  apply list_lookup_fmap_Some in Hn as ([n' p] & -> & Hp). by exists p.
Qed.

Lemma load_named_2 l n a p : named_pools l !! a = Some (n, p) -> me_named (load l) !! n = Some a.
Proof.
  intros Ha. cbn. apply elem_of_list_to_map_1.
  - rewrite fst_zip by (by rewrite length_fmap, length_seq). apply NoDup_fst_map_to_list.
  - apply list_elem_of_lookup. exists a. apply lookup_zip_Some. rewrite list_lookup_fmap, Ha. split; [done|].
    apply lookup_seq. split; [done|]. by eapply lookup_lt_Some.
Qed.

Lemma load_ok l : lim_inv l -> l_inlinePools l = ∅ -> mem_ok (load l).
Proof.
  intros [Hn Hi Hm Ha Hd] Hempty.
  assert (forall a p, me_pools (load l) !! a = Some p -> exists n q, named_pools l !! a = Some (n, q) /\ p = bare_pool q /\
    l_pools l !! n = Some q /\ po_name p = n) as Hpools.
  { intros a p. cbn. rewrite list_lookup_fmap. destruct (named_pools l !! a) as [[n q]|] eqn:E; [|done]. intros [= <-].
    assert (l_pools l !! n = Some q) as Hq by (apply elem_of_map_to_list, list_elem_of_lookup; by exists a).
    exists n, q. split_and!; try done. cbn. by apply Hn in Hq as (-> & _). }
  assert (forall n q, l_pools l !! n = Some q -> exists a, me_pools (load l) !! a = Some (bare_pool q) /\ p_name q = n) as Hback.
  { intros n q Hq. pose proof Hq as Hq'. apply elem_of_map_to_list, list_elem_of_lookup in Hq as [a Hla]. exists a. cbn.
    rewrite list_lookup_fmap. unfold named_pools. rewrite Hla. split; [done|]. by apply Hn in Hq' as (? & _). }
  constructor; try done.
  - intros n a (q & Hq)%load_named. exists (bare_pool q). cbn. rewrite list_lookup_fmap, Hq. split; [done|].
    assert (l_pools l !! n = Some q) as Hl by (apply elem_of_map_to_list, list_elem_of_lookup; by exists a).
    apply Hn in Hl as (? & ? & _). done.
  - intros a p (n & q & Hq & _ & _ & ->)%Hpools. left. by eapply load_named_2.
  - intros a p key b (n & q & _ & -> & _)%Hpools. done.
  - intros a p (n & q & _ & _ & Hl & ->)%Hpools. by apply Hn in Hl as (_ & _ & ?).
  - intros n Hs. apply Hm in Hs as [[q Hq]|(k & _ & [q Hq])]; [|by rewrite Hempty in Hq].
    apply Hback in Hq as (a & Hla & <-). by exists a, (bare_pool q).
Qed.

(** *** Runs *)

Definition limiter_ok (s : conc) : Prop := conc_inv (fun _ m => mem_ok m) (fun _ m => pc_ok m) s.

Lemma limiter_run_ok s s' : rtc conc_step s s' -> limiter_ok s -> limiter_ok s'.
Proof.
  apply conc_run_inv; try done.
  - by intros calls [].
  - intros calls m p now Hm Hp. by destruct (limiter_step_ok m p now Hm Hp) as (? & _ & ?).
  - intros calls m p now p' Hm Hp Hp'. destruct (limiter_step_ok m p now Hm Hp) as (_ & He & _). by eapply pc_ok_extends.
Qed.

(** A goroutine that has the bucket at [b] for a key of the pool at [a]. *)
Definition holds (p : pc) (a : nat) (key : string) (b : nat) : Prop :=
  p = Touch a key b \/ p = Reserving a key b \/ (exists r, p = Delaying a key b r) \/ exists r delay, p = Cancelling a key b r delay.

Definition dropped (m : memory) (b : nat) : Prop := exists c, me_cells m !! b = Some c /\ ce_dropped c = true.

(** C20: one bucket for a key.  Whatever the interleaving of any number of goroutines with
    clean-ups and resets: no two pools have the same name, so those of equal limits are
    one; two goroutines that serve the same key of a pool hold the same bucket, unless
    one of the buckets has been dropped by a clean-up or a reset since; every bucket is
    in the state to which its reservations and cancellations lead in the order in which
    they were made, from a full bucket of its pool; and the totals are the sums over the
    pools. *)
Theorem concurrent_limiter cfgs l n s
    (Hnames : Forall (fun c => reserved_name (pc_Name c) = false) cfgs)
    (Hnew : New cfgs = Ok l) (Hrun : rtc conc_step (idle (load l) n) s) :
  let m := cn_state s in
  (forall a a' p p', me_pools m !! a = Some p -> me_pools m !! a' = Some p' -> po_name p = po_name p' -> a = a') /\
  (forall i j pi pj a key b b', cn_pcs s !! i = Some pi -> cn_pcs s !! j = Some pj ->
     holds pi a key b -> holds pj a key b' -> b = b' \/ dropped m b \/ dropped m b') /\
  (forall b c, me_cells m !! b = Some c -> exists p, me_pools m !! ce_pool c = Some p /\
     b_limiter (ce_bucket c) = replay (NewLimiter (po_rps p) (po_burst p)) (ce_uses c)) /\
  me_TotalAllowed m = i64 (map_sum pm_Allowed (me_metrics m)) /\
  me_TotalDenied m = i64 (map_sum pm_Denied (me_metrics m)).
Proof.
  apply limiter_run_ok in Hrun as [Hm Hp].
  2: { split; [|by apply Forall_replicate]. cbn. apply New_counts_nothing in Hnew as [? ?]; [|done]. by apply load_ok. }
  cbn zeta. split_and!; [| | |apply Hm|apply Hm].
  - intros a a' p p' Ha Ha' E. destruct (mo_pools _ Hm _ _ Ha) as [H1'|(k & Ek & H1')], (mo_pools _ Hm _ _ Ha') as [H2'|(k' & Ek' & H2')].
    + rewrite E, H2' in H1'. by injection H1'.
    + apply (mo_named _ Hm) in H1' as (_ & _ & _ & Hr). by rewrite E, Ek', inline_name_reserved in Hr.
    + apply (mo_named _ Hm) in H2' as (_ & _ & _ & Hr). by rewrite <- E, Ek, inline_name_reserved in Hr.
    + rewrite E, Ek' in Ek. apply inline_name_inj in Ek as ->. rewrite H1' in H2'. by injection H2'.
  - assert (forall i p a key b, cn_pcs s !! i = Some p -> holds p a key b ->
      dropped (cn_state s) b \/ bucket_at (cn_state s) a key = Some b) as Hlive.
    { intros i p a key b Hi Hh. apply (Forall_lookup_1 _ _ _ _ Hp) in Hi.
      assert (exists c, me_cells (cn_state s) !! b = Some c /\ ce_pool c = a /\ ce_key c = key) as (c & Hc & Hca & Hck).
      { destruct Hh as [->|[->|[[r ->]|(r & delay & ->)]]]; apply Hi. }
      destruct (mo_cells _ Hm _ _ Hc) as (q & Hq & _ & Hd). destruct (ce_dropped c) eqn:Ed; [left; by exists c|right].
      unfold bucket_at. rewrite <- Hca, Hq. cbn. rewrite <- Hck. by apply Hd. }
    intros i j pi pj a key b b' Hi Hj Hhi Hhj.
    destruct (Hlive _ _ _ _ _ Hi Hhi) as [?|E]; [by right; left|]. destruct (Hlive _ _ _ _ _ Hj Hhj) as [?|E']; [by right; right|].
    left. congruence.
  - intros b c Hc. destruct (mo_cells _ Hm _ _ Hc) as (p & ? & ? & _). by exists p.
Qed.
(** ** Alone, a goroutine does what [RateLimit] says

    The limiter that memory stands for. *)

Definition pool_in (cs : list cell) (p : pool) : Pool :=
  {| p_name := po_name p; p_requestsPerSecond := po_rps p; p_burst := po_burst p; p_keyTemplate := po_template p;
     p_buckets := omap (fun b => ce_bucket <$> cs !! b) (po_buckets p); p_lastClean := po_lastClean p;
     p_cleanEvery := po_cleanEvery p |}.

Definition pools_in (m : memory) : gmap string nat -> gmap string Pool :=
  omap (fun a => pool_in (me_cells m) <$> me_pools m !! a).

Definition limiter_of (m : memory) : Limiter :=
  {| l_pools := pools_in m (me_named m); l_inlinePools := pools_in m (me_inline m);
     l_TotalAllowed := me_TotalAllowed m; l_TotalDenied := me_TotalDenied m; l_metrics := me_metrics m |}.

Lemma limiter_lookup m r :
  lookup_pool (limiter_of m) r = (a ← address m r; pool_in (me_cells m) <$> me_pools m !! a).
Proof. destruct r; cbn; unfold pools_in; by rewrite lookup_omap. Qed.

(** Limiters are equal if their pools and counters are. *)
Lemma limiter_ext l l' : (forall r, lookup_pool l r = lookup_pool l' r) -> l_TotalAllowed l = l_TotalAllowed l' ->
  l_TotalDenied l = l_TotalDenied l' -> l_metrics l = l_metrics l' -> l = l'.
Proof.
  intros Hr. destruct l as [p i a d x], l' as [p' i' a' d' x']. cbn. intros -> -> ->. f_equal; apply map_eq; intros k.
  - exact (Hr (Named k)).
  - exact (Hr (Inline k)).
Qed.

Lemma store_store l r p p' : store_pool (store_pool l r p) r p' = store_pool l r p'.
Proof.
  apply limiter_ext; [|by destruct r..]. intros r'. rewrite !lookup_store_pool. by case_decide.
Qed.

Lemma count_stored l r p name allowed : count (store_pool l r p) name allowed = store_pool (count l name allowed) r p.
Proof. by destruct r. Qed.

Lemma store_same l r p : lookup_pool l r = Some p -> store_pool l r p = l.
Proof.
  intros Hp. apply limiter_ext; [|by destruct r..]. intros r'. rewrite lookup_store_pool. case_decide as E; [by subst|done].
Qed.

(** *** References and addresses *)

Definition ref_name (r : pool_ref) : string := match r with Named n => n | Inline k => inline_name k end.

Lemma address_pool m r a : mem_ok m -> address m r = Some a -> exists p, me_pools m !! a = Some p /\ po_name p = ref_name r.
Proof.
  intros Hm. destruct r; cbn; intros Ha.
  - destruct (mo_named m Hm _ _ Ha) as (p & ? & ? & _). by exists p.
  - by apply (mo_inline m Hm).
Qed.

Lemma address_inj m r r' a : mem_ok m -> address m r = Some a -> address m r' = Some a -> r = r'.
Proof.
  intros Hm Ha Ha'. destruct (address_pool _ _ _ Hm Ha) as (p & Hp & Hn), (address_pool _ _ _ Hm Ha') as (p' & Hp' & Hn').
  rewrite Hp in Hp'. injection Hp' as <-. rewrite Hn in Hn'. destruct r as [n|k], r' as [n'|k']; cbn [ref_name address] in *.
  - congruence.
  - destruct (mo_named m Hm _ _ Ha) as (? & _ & _ & Hr). by rewrite Hn', inline_name_reserved in Hr.
  - destruct (mo_named m Hm _ _ Ha') as (? & _ & _ & Hr). by rewrite <- Hn', inline_name_reserved in Hr.
  - by apply inline_name_inj in Hn' as ->.
Qed.

Lemma limiter_pool m r a p : address m r = Some a -> me_pools m !! a = Some p ->
  lookup_pool (limiter_of m) r = Some (pool_in (me_cells m) p).
Proof. intros Ha Hp. rewrite limiter_lookup, Ha. cbn. by rewrite Hp. Qed.

(** Replacing one pool and its cells is storing that pool. *)
Lemma swap_limiter m r a p bs t cs : mem_ok m -> address m r = Some a -> me_pools m !! a = Some p ->
  (forall b c, me_cells m !! b = Some c -> ce_pool c <> a -> cs !! b = Some c) ->
  limiter_of (set_pool (set_cells m cs) a (with_buckets p bs t)) =
  store_pool (limiter_of m) r (pool_in cs (with_buckets p bs t)).
Proof.
  intros Hm Ha Hp Hcs. apply limiter_ext; [|by destruct r..]. intros r'. rewrite lookup_store_pool, limiter_lookup.
  change (address (set_pool _ _ _) r') with (address m r'). case_decide as E.
  - subst r'. rewrite Ha. cbn. rewrite list_lookup_insert_eq by (by eapply lookup_lt_Some). done.
  - rewrite limiter_lookup. destruct (address m r') as [a'|] eqn:Ha'; [|done]. cbn.
    assert (a' <> a) as Hne by (intros ->; apply E; by eapply address_inj). rewrite list_lookup_insert_ne by done.
    destruct (me_pools m !! a') as [q|] eqn:Hq; [|done]. cbn. f_equal. unfold pool_in. f_equal.
    apply map_eq. intros key. rewrite !lookup_omap. destruct (po_buckets q !! key) as [b|] eqn:Eb; [|done]. cbn.
    destruct (mo_live m Hm _ _ _ _ Hq Eb) as (c & Hc & Hca & _). by rewrite (Hcs _ _ Hc), Hc by congruence.
Qed.
(** *** Buckets *)

Lemma pool_bucket m a p key b : mem_ok m -> me_pools m !! a = Some p -> po_buckets p !! key = Some b ->
  exists c, me_cells m !! b = Some c /\ ce_pool c = a /\ ce_key c = key /\
    p_buckets (pool_in (me_cells m) p) !! key = Some (ce_bucket c).
Proof.
  intros Hm Ha Hb. destruct (mo_live m Hm _ _ _ _ Ha Hb) as (c & Hc & ? & ? & _). exists c. split_and!; try done.
  cbn. rewrite lookup_omap, Hb. cbn. by rewrite Hc.
Qed.

Lemma pool_no_bucket m p key : po_buckets p !! key = None -> p_buckets (pool_in (me_cells m) p) !! key = None.
Proof. intros Hb. cbn. by rewrite lookup_omap, Hb. Qed.

(** Writing a live cell is storing its bucket. *)
Lemma cell_pool m a p key b f c : mem_ok m -> me_pools m !! a = Some p -> po_buckets p !! key = Some b -> me_cells m !! b = Some c ->
  pool_in (alter f b (me_cells m)) p =
  set_buckets (pool_in (me_cells m) p) (<[key := ce_bucket (f c)]> (p_buckets (pool_in (me_cells m) p))) (po_lastClean p).
Proof.
  intros Hm Ha Hb Hc. unfold pool_in, set_buckets. cbn. f_equal. apply map_eq. intros k. rewrite lookup_insert, !lookup_omap.
  case_decide as E.
  - subst k. rewrite Hb. cbn. by rewrite list_lookup_alter_eq, Hc.
  - destruct (po_buckets p !! k) as [b'|] eqn:Eb; [|done]. cbn. rewrite list_lookup_alter_ne; [done|]. intros <-.
    destruct (mo_live m Hm _ _ _ _ Ha Hb) as (c1 & Hc1 & _ & Hk1 & _), (mo_live m Hm _ _ _ _ Ha Eb) as (c2 & Hc2 & _ & Hk2 & _).
    congruence.
Qed.

Lemma cell_limiter m r a p key b f c : mem_ok m -> address m r = Some a -> me_pools m !! a = Some p ->
  po_buckets p !! key = Some b -> me_cells m !! b = Some c ->
  limiter_of (on_cell m b f) = store_pool (limiter_of m) r (set_buckets (pool_in (me_cells m) p)
    (<[key := ce_bucket (f c)]> (p_buckets (pool_in (me_cells m) p))) (po_lastClean p)).
Proof.
  intros Hm Hr Ha Hb Hc. rewrite <- (cell_pool _ _ _ _ _ _ _ Hm Ha Hb Hc).
  assert (with_buckets p (po_buckets p) (po_lastClean p) = p) as Hp by by destruct p.
  rewrite <- Hp at 1. rewrite <- swap_limiter with (a := a); try done.
  - f_equal. unfold on_cell, set_pool, set_cells. cbn. f_equal. rewrite Hp. symmetry. by apply list_insert_id.
  - intros b' c' Hb' Hn. rewrite list_lookup_alter_ne; [done|]. intros <-.
    destruct (mo_live m Hm _ _ _ _ Ha Hb) as (c1 & Hc1 & ? & _). congruence.
Qed.

Lemma bucket_limiter m r a p key now : mem_ok m -> address m r = Some a -> me_pools m !! a = Some p -> po_buckets p !! key = None ->
  limiter_of (add_bucket m a p key now) = store_pool (limiter_of m) r (getOrCreateBucket (pool_in (me_cells m) p) key now).2.
Proof.
  intros Hm Hr Ha Hb. unfold add_bucket. rewrite (swap_limiter m r a) by (done || (intros; by apply lookup_app_l_Some)). f_equal.
  unfold getOrCreateBucket. rewrite pool_no_bucket by done. cbn [snd]. unfold pool_in, with_buckets, set_buckets. cbn. f_equal.
  apply map_eq. intros k. rewrite lookup_omap, !lookup_insert, lookup_omap. case_decide; cbn.
  - by rewrite lookup_app_r, Nat.sub_diag.
  - destruct (po_buckets p !! k) as [b|] eqn:Ek; [|done]. cbn. destruct (mo_live m Hm _ _ _ _ Ha Ek) as (c & Hc & _).
    by rewrite (lookup_app_l_Some _ _ _ _ Hc), Hc.
Qed.

Lemma clean_limiter m r a p t : mem_ok m -> address m r = Some a -> me_pools m !! a = Some p ->
  limiter_of (if needs_clean p t then retain m a p (recent m t) t else m) =
  store_pool (limiter_of m) r (maybeCleanup (pool_in (me_cells m) p) t).
Proof.
  intros Hm Hr Ha. unfold needs_clean, maybeCleanup. cbn [p_lastClean p_cleanEvery pool_in].
  case_decide as Hd; [rewrite bool_decide_true by done|rewrite bool_decide_false by done].
  2: { symmetry. apply store_same. by eapply limiter_pool. }
  unfold retain. rewrite (swap_limiter m r a); try done.
  2: { intros b c Hb Hn. rewrite list_lookup_imap, Hb. cbn. by rewrite decide_False by naive_solver. }
  f_equal. unfold pool_in, with_buckets, set_buckets. cbn. f_equal. apply map_eq. intros k.
  rewrite lookup_omap, !map_lookup_filter, lookup_omap. destruct (po_buckets p !! k) as [b|] eqn:Ek; [|done]. cbn.
  destruct (mo_live m Hm _ _ _ _ Ha Ek) as (c & Hc & _ & Hk & _). rewrite Hc. cbn. unfold recent. cbn. rewrite Hc.
  destruct (bool_decide (b_lastUsed (ce_bucket c) < stale_threshold t)) eqn:Eb.
  - apply bool_decide_eq_true in Eb. rewrite !option_guard_False by (cbn; naive_solver). done.
  - apply bool_decide_eq_false in Eb. rewrite !option_guard_True by (cbn; naive_solver). cbn.
    rewrite list_lookup_imap, Hc. cbn. case_decide as E; [|done]. destruct E as (_ & _ & E). by rewrite bool_decide_false in E.
Qed.

Lemma inline_limiter m limit : mem_ok m -> me_inline m !! inlinePoolKey limit = None ->
  limiter_of (add_inline m limit) = (ensure_inline (limiter_of m) limit).2 /\
  lookup_pool (limiter_of (add_inline m limit)) (Inline (inlinePoolKey limit)) = Some (ensure_inline (limiter_of m) limit).1.
Proof.
  intros Hm Hn. set (k := inlinePoolKey limit) in *.
  assert (l_inlinePools (limiter_of m) !! k = None) as Hl.
  { change (lookup_pool (limiter_of m) (Inline k) = None). rewrite limiter_lookup. cbn. by rewrite Hn. }
  assert (limiter_of (add_inline m limit) = (ensure_inline (limiter_of m) limit).2) as E.
  { unfold ensure_inline. fold k. rewrite Hl. cbn [snd]. apply limiter_ext; [|done..]. intros r. rewrite limiter_lookup.
    destruct r as [n|k']; cbn.
    - unfold pools_in. rewrite lookup_omap. destruct (me_named m !! n) as [a|] eqn:Ea; [|done]. cbn.
      destruct (mo_named m Hm _ _ Ea) as (p & Hp & _). by rewrite (lookup_app_l_Some _ _ _ _ Hp), Hp.
    - fold k. rewrite !lookup_insert. case_decide as Ek.
      + cbn. rewrite lookup_app_r, Nat.sub_diag by done. cbn. unfold pool_in, bare_pool, new_pool. cbn. f_equal.
      + unfold pools_in. rewrite lookup_omap. destruct (me_inline m !! k') as [a|] eqn:Ea; [|done]. cbn.
        destruct (mo_inline m Hm _ _ Ea) as (p & Hp & _). by rewrite (lookup_app_l_Some _ _ _ _ Hp), Hp. }
  split; [done|]. rewrite E. pose proof (ensure_inline_lookup (limiter_of m) limit) as He.
  destruct (ensure_inline _ limit) as [p l']. by destruct He.
Qed.
(** *** Runs of one goroutine *)

Abbreviation reaches := (Goroutines.reaches pc_step).

(** The pool of a reference, in memory. *)
Record at_pool (m : memory) (r : pool_ref) (a : nat) (p : pool) : Prop := {
  ap_ok : mem_ok m; ap_address : address m r = Some a; ap_pool : me_pools m !! a = Some p;
}.

Lemma at_lookup m r a p : at_pool m r a p -> lookup_pool (limiter_of m) r = Some (pool_in (me_cells m) p).
Proof. intros []. by eapply limiter_pool. Qed.

(** What a pool is in memory is what the limiter has for it. *)
Lemma at_store m r a p l P : at_pool m r a p -> limiter_of m = store_pool l r P -> pool_in (me_cells m) p = P.
Proof. intros Hat%at_lookup E. rewrite E, lookup_store_pool, decide_True in Hat by done. by injection Hat. Qed.

(** The bucket of a key is found or made. *)
Lemma bucket_run m r a p key t : at_pool m r a p -> exists m1 p1 b c,
  reaches (m, FindBucket a key) (m1, Touch a key b) /\ at_pool m1 r a p1 /\
  po_buckets p1 !! key = Some b /\ me_cells m1 !! b = Some c /\
  let '(bk, P1) := getOrCreateBucket (pool_in (me_cells m) p) key t in
  ce_bucket c = bk /\ pool_in (me_cells m1) p1 = P1 /\ limiter_of m1 = store_pool (limiter_of m) r P1.
Proof.
  intros Hat. pose proof Hat as [Hm Hr Ha]. destruct (po_buckets p !! key) as [b|] eqn:Eb.
  - destruct (pool_bucket m a p key b Hm Ha Eb) as (c & Hc & _ & _ & Hb). exists m, p, b, c. split_and!; try done.
    + apply reaches_step with (now := 0). cbn. unfold bucket_at. rewrite Ha. cbn. rewrite Eb. apply reaches_refl.
    + unfold getOrCreateBucket. rewrite Hb. split_and!; [done|done|]. symmetry. apply store_same. by eapply at_lookup.
  - set (m1 := add_bucket m a p key t).
    set (p1 := with_buckets p (<[key := List.length (me_cells m)]> (po_buckets p)) (po_lastClean p)).
    assert (at_pool m1 r a p1) as Hat1.
    { constructor; [by apply add_bucket_ok|done|]. apply list_lookup_insert_eq. by eapply lookup_lt_Some. }
    assert (limiter_of m1 = store_pool (limiter_of m) r (getOrCreateBucket (pool_in (me_cells m) p) key t).2) as Hl
      by by apply bucket_limiter.
    exists m1, p1, (List.length (me_cells m)). eexists. split_and!; [| |cbn; apply lookup_insert_eq| |].
    + apply reaches_step with (now := 0). cbn [pc_step]. unfold bucket_at. rewrite Ha. cbn [mbind option_bind]. rewrite Eb.
      apply reaches_step with (now := t). cbn [pc_step]. unfold bucket_at. rewrite Ha. cbn [mbind option_bind]. rewrite Eb. apply reaches_refl.
    + done.
    + cbn. by rewrite lookup_app_r, Nat.sub_diag.
    + pose proof (at_store _ _ _ _ _ _ Hat1 Hl) as HP. unfold getOrCreateBucket in *. rewrite (pool_no_bucket m p key Eb) in *. done.
Qed.

Lemma on_cell_compose m b f g : on_cell (on_cell m b f) b g = on_cell m b (g ∘ f).
Proof. unfold on_cell, set_cells. cbn. f_equal. apply list_alter_alter_eq. Qed.

(** The bucket is touched, reserved from, and given back to if there is a wait. *)
Lemma use_run m r a p key b c t1 t2 t3 t4 : at_pool m r a p -> po_buckets p !! key = Some b -> me_cells m !! b = Some c ->
  let '(allowed, retry, bk) := use_bucket (ce_bucket c) t1 t2 t3 t4 in exists m2,
  reaches (m, Touch a key b) (m2, Counting a allowed retry) /\ at_pool m2 r a p /\
  let P2 := set_buckets (pool_in (me_cells m) p) (<[key := bk]> (p_buckets (pool_in (me_cells m) p))) (po_lastClean p) in
  pool_in (me_cells m2) p = P2 /\ limiter_of m2 = store_pool (limiter_of m) r P2.
Proof.
  intros Hat Hb Hc. pose proof Hat as [Hm Hr Ha].
  destruct (mo_live m Hm _ _ _ _ Ha Hb) as (c0 & Hc0 & Hca & Hck & _). rewrite Hc in Hc0. injection Hc0 as <-.
  assert (forall f, (exists q, mem_ok (on_cell m b f) /\ reaches (m, Touch a key b) (on_cell m b f, q) /\
      ce_bucket (f c) = (use_bucket (ce_bucket c) t1 t2 t3 t4).2 /\
      q = Counting a (use_bucket (ce_bucket c) t1 t2 t3 t4).1.1 (use_bucket (ce_bucket c) t1 t2 t3 t4).1.2) ->
    let '(allowed, retry, bk) := use_bucket (ce_bucket c) t1 t2 t3 t4 in exists m2,
      reaches (m, Touch a key b) (m2, Counting a allowed retry) /\ at_pool m2 r a p /\
      let P2 := set_buckets (pool_in (me_cells m) p) (<[key := bk]> (p_buckets (pool_in (me_cells m) p))) (po_lastClean p) in
      pool_in (me_cells m2) p = P2 /\ limiter_of m2 = store_pool (limiter_of m) r P2) as Hdone.
  { intros f (q & Hm2 & Hreach & Hf & ->). destruct (use_bucket _ _ _ _ _) as [[allowed retry] bk]. cbn in Hf, Hreach. subst bk.
    exists (on_cell m b f). split; [done|]. split; [by constructor|]. cbn zeta.
    split; [by eapply cell_pool|by eapply cell_limiter]. }
  assert (pc_ok m (Touch a key b)) as Hp0 by (split; [by exists p|by exists c]).
  destruct (limiter_step_ok _ _ t1 Hm Hp0) as (Hm1 & _ & Hp1). cbn [pc_step fst snd] in Hm1, Hp1.
  destruct (limiter_step_ok _ _ t2 Hm1 Hp1) as (Hm2 & _ & Hp2). cbn [pc_step] in Hm2, Hp2.
  rewrite on_cell_lookup, decide_True, Hc in Hm2, Hp2 by done. cbn [fmap option_fmap option_map] in Hm2, Hp2.
  change (b_limiter (ce_bucket (touch t1 c))) with (b_limiter (ce_bucket c)) in Hm2, Hp2.
  destruct (Reserve (b_limiter (ce_bucket c)) t2) as [rsv st] eqn:Er. cbn [fst snd] in Hm2, Hp2. rewrite on_cell_compose in Hm2, Hp2.
  assert (pc_step (on_cell m b (touch t1)) (Reserving a key b) t2 =
    (on_cell m b (use_cell st (UReserve t2) ∘ touch t1), Delaying a key b rsv)) as Hstep2.
  { cbn [pc_step]. rewrite on_cell_lookup, decide_True, Hc by done. cbn [fmap option_fmap option_map].
    change (b_limiter (ce_bucket (touch t1 c))) with (b_limiter (ce_bucket c)). by rewrite Er, on_cell_compose. }
  destruct (limiter_step_ok _ _ t3 Hm2 Hp2) as (_ & _ & Hp3). cbn [pc_step snd] in Hp3.
  destruct (decide (Delay rsv t3 = 0)) as [Hd|Hd].
  - apply (Hdone (use_cell st (UReserve t2) ∘ touch t1)). eexists. unfold use_bucket. rewrite Er. cbv zeta. rewrite decide_True by done.
    split_and!; [done| |done|done]. apply reaches_step with (now := t1). apply reaches_step with (now := t2). rewrite Hstep2.
    apply reaches_step with (now := t3). cbn [pc_step]. rewrite decide_True by done. apply reaches_refl.
  - destruct (limiter_step_ok _ _ t4 Hm2 Hp3) as (Hm4 & _ & _). cbn [pc_step fst] in Hm4.
    rewrite on_cell_lookup, decide_True, Hc in Hm4 by done. cbn [fmap option_fmap option_map] in Hm4.
    change (b_limiter _) with st in Hm4. rewrite on_cell_compose in Hm4.
    apply (Hdone (use_cell (Cancel st rsv t4) (UCancel rsv t4) ∘ (use_cell st (UReserve t2) ∘ touch t1))). eexists.
    unfold use_bucket. rewrite Er. cbv zeta. rewrite decide_False by done. split_and!; [done| |done|done].
    apply reaches_step with (now := t1). apply reaches_step with (now := t2). rewrite Hstep2. apply reaches_step with (now := t3).
    cbn [pc_step]. rewrite decide_False by done. apply reaches_step with (now := t4).
    cbn [pc_step]. rewrite on_cell_lookup, decide_True, Hc by done. cbn [fmap option_fmap option_map].
    change (b_limiter _) with st. rewrite on_cell_compose. apply reaches_refl.
Qed.
(** The request is counted and the pool cleaned. *)
Lemma after_run m r a p allowed retry t : at_pool m r a p -> exists m3,
  reaches (m, Counting a allowed retry) (m3, Returned (AAllow (Ok (allowed, retry, po_name p)))) /\ mem_ok m3 /\
  limiter_of m3 = store_pool (count (limiter_of m) (po_name p) allowed) r (maybeCleanup (pool_in (me_cells m) p) t).
Proof.
  intros [Hm Hr Ha]. set (m1 := count_in m (po_name p) allowed).
  assert (mem_ok m1) as Hm1 by by eapply count_in_ok.
  exists (if needs_clean p t then retain m1 a p (recent m1 t) t else m1). split_and!.
  - apply reaches_step with (now := 0). cbn [pc_step]. rewrite Ha. cbn [from_option]. fold m1.
    apply reaches_step with (now := t). cbn [pc_step]. change (me_pools m1) with (me_pools m). rewrite Ha.
    destruct (needs_clean p t) eqn:En; [|apply reaches_refl].
    apply reaches_step with (now := 0). cbn [pc_step]. change (me_pools m1) with (me_pools m). rewrite Ha, En. apply reaches_refl.
  - destruct (needs_clean p t); [by apply retain_ok|done].
  - by rewrite (clean_limiter m1 r a p t Hm1 Hr Ha).
Qed.

(** From the key template on. *)
Lemma allow_in_run m r a p tmpl ctx clk : at_pool m r a p -> exists m',
  reaches (m, EvalKey a tmpl ctx)
    (m', Returned (AAllow (allow_in (limiter_of m) r (pool_in (me_cells m) p) tmpl ctx clk).1)) /\ mem_ok m' /\
  limiter_of m' = (allow_in (limiter_of m) r (pool_in (me_cells m) p) tmpl ctx clk).2.
Proof.
  intros Hat. unfold allow_in. destruct (ExecuteInline tmpl ctx) as [key|e] eqn:Ek.
  2: { exists m. split_and!; [|by destruct Hat|done]. apply reaches_step with (now := 0). cbn [pc_step]. rewrite Ek. apply reaches_refl. }
  destruct (bucket_run m r a p key (clk 0%nat) Hat) as (m1 & p1 & b & c & Hrun1 & Hat1 & Hb & Hc & Hget).
  destruct (getOrCreateBucket _ key _) as [bk P1]. destruct Hget as (<- & HP1 & Hl1).
  pose proof (use_run m1 r a p1 key b c (clk 1%nat) (clk 2%nat) (clk 3%nat) (clk 4%nat) Hat1 Hb Hc) as Huse.
  destruct (use_bucket _ _ _ _ _) as [[allowed retry] bk']. destruct Huse as (m2 & Hrun2 & Hat2 & HP2 & Hl2).
  destruct (after_run m2 r a p1 allowed retry (clk 5%nat) Hat2) as (m3 & Hrun3 & Hm3 & Hl3).
  assert (po_name p1 = p_name P1) as Hname by by rewrite <- HP1.
  assert (po_lastClean p1 = p_lastClean P1) as Hlast by by rewrite <- HP1.
  rewrite HP1, Hlast in HP2, Hl2. rewrite HP2, Hl2, Hl1, !count_stored, !store_store, Hname in Hl3.
  exists m3. cbn [fst snd set_buckets p_name]. split_and!; [|done|done]. rewrite Hname in Hrun3.
  apply reaches_step with (now := 0). cbn [pc_step]. rewrite Ek.
  eapply reaches_trans; [exact Hrun1|]. eapply reaches_trans; [exact Hrun2|exact Hrun3].
Qed.

(** C21: refinement.  A goroutine that is alone with the limiter gets, for any readings of
    the clock, the answer of [RateLimit.allowOne] on the limiter that memory stands for,
    and leaves memory standing for the limiter that [allowOne] leaves. *)
Theorem allow_alone m limit ctx clk (Hm : mem_ok m) : exists m',
  reaches (m, enter (RAllow limit ctx)) (m', Returned (AAllow (allowOne (limiter_of m) limit ctx clk).1)) /\ mem_ok m' /\
  limiter_of m' = (allowOne (limiter_of m) limit ctx clk).2.
Proof.
  unfold allowOne. cbn [enter]. destruct (IsPoolReference limit) eqn:Er.
  - pose proof (limiter_lookup m (Named (rl_Pool limit))) as Hl. cbn [lookup_pool address] in Hl. rewrite Hl.
    destruct (me_named m !! rl_Pool limit) as [a|] eqn:Ea; cbn [mbind option_bind].
    + destruct (mo_named m Hm _ _ Ea) as (p & Hp & _). rewrite Hp. cbn [fmap option_fmap option_map].
      destruct (allow_in_run m (Named (rl_Pool limit)) a p (po_template p) ctx clk) as (m' & Hrun & ?); [by constructor|].
      exists m'. split; [|done]. apply reaches_step with (now := 0). cbn [pc_step]. rewrite Er, Ea, Hp. exact Hrun.
    + exists m. split_and!; [|done|done]. apply reaches_step with (now := 0). cbn [pc_step]. rewrite Er, Ea. apply reaches_refl.
  - destruct (IsInline limit) eqn:Ei.
    2: { exists m. split_and!; [|done|done]. apply reaches_step with (now := 0). cbn [pc_step]. rewrite Er, Ei. apply reaches_refl. }
    set (k := inlinePoolKey limit). destruct (me_inline m !! k) as [a|] eqn:Ea.
    + destruct (mo_inline m Hm _ _ Ea) as (p & Hp & _).
      assert (ensure_inline (limiter_of m) limit = (pool_in (me_cells m) p, limiter_of m)) as ->.
      { unfold ensure_inline. fold k. assert (lookup_pool (limiter_of m) (Inline k) = Some (pool_in (me_cells m) p)) as Hl by by eapply limiter_pool.
        cbn [lookup_pool] in Hl. by rewrite Hl. }
      destruct (allow_in_run m (Inline k) a p (inline_key limit) ctx clk) as (m' & Hrun & ?); [by constructor|].
      exists m'. split; [|done]. apply reaches_step with (now := 0). cbn [pc_step]. fold k. rewrite Er, Ei, Ea. exact Hrun.
    + destruct (inline_limiter m limit Hm Ea) as [El Hl]. destruct (ensure_inline (limiter_of m) limit) as [P l']. cbn [fst snd] in El, Hl.
      subst l'. set (m1 := add_inline m limit) in *. set (a := List.length (me_pools m)).
      assert (exists p, at_pool m1 (Inline k) a p) as [p Hat].
      { eexists. constructor; [by apply add_inline_ok|cbn; apply lookup_insert_eq|]. cbn. by rewrite lookup_app_r, Nat.sub_diag. }
      pose proof (at_lookup _ _ _ _ Hat) as HP. fold k in Hl. rewrite HP in Hl. injection Hl as <-.
      destruct (allow_in_run m1 (Inline k) a p (inline_key limit) ctx clk Hat) as (m' & Hrun & ?).
      exists m'. split; [|done]. apply reaches_step with (now := 0). cbn [pc_step]. fold k. rewrite Er, Ei, Ea.
      apply reaches_step with (now := 0). cbn [pc_step]. fold k. rewrite Ea. exact Hrun.
Qed.
(** Every call returns, whatever the others do to memory. *)
Lemma limiter_call_ends ms clk q : exists n, between (among pc_step ms clk 0 n (enter q)).
Proof.
  change (Goroutines.ends pc_step between ms clk 0 (enter q)).
  assert (forall r k, Goroutines.ends pc_step between ms clk k (Returned r)) as Hr by (intros; by apply ends_between).
  assert (forall todo total k, Goroutines.ends pc_step between ms clk k (AllReset todo total)) as Hall.
  { induction todo as [|a todo IH]; intros total k; apply ends_step; cbn [pc_step]; [apply Hr|]. case_match; [apply IH|apply Hr]. }
  assert (forall a key b k, Goroutines.ends pc_step between ms clk k (Touch a key b)) as Htouch.
  { intros a key b k. apply ends_step. cbn [pc_step snd].
    assert (forall allowed retry k, Goroutines.ends pc_step between ms clk k (Counting a allowed retry)) as Hc.
    { intros allowed retry k'. apply ends_step. cbn [pc_step snd]. apply ends_step. cbn [pc_step]. case_match; [|apply Hr]. cbn [snd].
      case_match; [|apply Hr]. apply ends_step. cbn [pc_step]. case_match; apply Hr. }
    apply ends_step. cbn [pc_step]. case_match; [|apply Hr]. destruct (Reserve _ _). cbn [snd]. apply ends_step. cbn [pc_step snd]. case_decide; [apply Hc|].
    apply ends_step. apply Hc. }
  assert (forall a tmpl ctx k, Goroutines.ends pc_step between ms clk k (EvalKey a tmpl ctx)) as Heval.
  { intros a tmpl ctx k. apply ends_step. cbn [pc_step]. case_match; [|apply Hr]. apply ends_step. cbn [pc_step snd].
    case_match; [apply Htouch|]. apply ends_step. cbn [pc_step]. case_match; [apply Htouch|]. case_match; [apply Htouch|apply Hr]. }
  destruct q; cbn [enter]; apply ends_step; cbn [pc_step snd].
  - repeat case_match; cbn [snd]; try apply Hr; try apply Heval. apply ends_step. cbn [pc_step]. case_match; apply Heval.
  - case_match; [|apply Hr]. apply ends_step. cbn [pc_step]. case_match; apply Hr.
  - case_match; [|apply Hr]. apply ends_step. cbn [pc_step]. case_match; apply Hr.
  - apply Hall.
Qed.
End Conc.

(** ** Evaluation at concrete inputs *)

Module Sample.
Import RateLimit.Sample.
#[local] Existing Instances sample_tables sample_bucket sample_engine.

Definition start : Goroutines.conc memory (pc (Ctx := string)) request := idle (load l0) 3.

Abbreviation play ts := (foldl (turn pc_step enter between) start ts).
Abbreviation ask i := (i, Some (RAllow api "10.0.0.1")).
Abbreviation go i := (i, @None request).

(** Two goroutines find no bucket for the key; the second to take the lock uses the one
    that the first has made. *)
Definition race : list (nat * option request) :=
  [ask 0; ask 1; go 0; go 1; go 0; go 1; go 0; go 1; go 0; go 1]%nat.

Example one_bucket_made :
  cn_pcs (play race) !! 0%nat = Some (Touch 0 "10.0.0.1" 0) /\ cn_pcs (play race) !! 1%nat = Some (Touch 0 "10.0.0.1" 0).
Proof. split; reflexivity. Qed.

(** A reset in between: the first goroutine charges a bucket that is gone. *)
Definition reset_race : list (nat * option request) :=
  [ask 0; go 0; go 0; go 0; go 0; (2, Some (RReset "api")); go 2; go 2; ask 1; go 1; go 1; go 1; go 1]%nat.

Example reset_leaves_two :
  cn_pcs (play reset_race) !! 0%nat = Some (Touch 0 "10.0.0.1" 0) /\
  cn_pcs (play reset_race) !! 1%nat = Some (Touch 0 "10.0.0.1" 1) /\
  ce_dropped <$> me_cells (cn_state (play reset_race)) = [true; false].
Proof. split_and!; reflexivity. Qed.

Lemma limiter_run ts : rtc (conc_step pc_step enter between) start (play ts).
Proof. apply turn_steps. Qed.

Lemma concurrent_limiter_witness : exists s, rtc (conc_step pc_step enter between) start s /\
  forall b', cn_pcs s !! 1%nat = Some (Touch 0 "10.0.0.1" b') ->
    0%nat = b' \/ dropped (cn_state s) 0 \/ dropped (cn_state s) b'.
Proof.
  exists (play race). split; [exact (limiter_run race)|]. intros b' Hb.
  assert (New cfgs = Ok l0) as Hnew by reflexivity.
  destruct (concurrent_limiter cfgs l0 3 (play race)) as (_ & Hone & _); [repeat constructor; by vm_compute|exact Hnew|exact (limiter_run race)|].
  apply (Hone 0%nat 1%nat (Touch 0 "10.0.0.1" 0) (Touch 0 "10.0.0.1" b') 0%nat "10.0.0.1" 0%nat b').
  - reflexivity.
  - exact Hb.
  - by left.
  - by left.
Defined.

Lemma allow_alone_witness : exists m', mem_ok m' /\ limiter_of m' = (allowOne (limiter_of (load l0)) api "10.0.0.1" (fun _ => t0)).2.
Proof.
  destruct (allow_alone (load l0) api "10.0.0.1" (fun _ => t0)) as (m' & _ & Hm & Hl).
  - apply load_ok; [|reflexivity]. apply (New_counts_nothing cfgs); [reflexivity|]. repeat constructor; by vm_compute.
  - exists m'. exact (conj Hm Hl).
Defined.
End Sample.
