(* ===== verification/DbConc.v ===== *)
(** * internal/db under concurrency

    [Db] takes a call of the manager or of a driver as one step.  Here the drivers are
    objects that requests, the health handlers and the health checker hold pointers to,
    and a step is one acquisition of the manager's lock, one access to a driver's
    [conn], or one exchange with database/sql.  The manager's lock keeps Ping, Reconnect
    and Close apart, but a request holds it only to look its driver up: what it reads
    of the driver, and does on the pool it found, runs beside a reconnection.  A
    goroutine that panics has given up its call and may make another, as a server's
    connection does when the handler has been recovered; in the health checker the
    panic ends the program ([Health]), and with it the run. *)
From S2P Require Import Prelude GoStrings GoValues Trace SqlUtil WfConfig SqlParams Compile Executor DbText Db Goroutines.

Section Conc.
Context {W : Type} {DB : SqlDB W} `{UnicodeTables, MySQLFormat, MapWalk}.

Abbreviation X := (M (Traced W event)).

(** ** Memory *)

(** sync.RWMutex: who holds it. *)
Inductive lock := Readers (n : nat) | Writer.

(** The drivers, which are addressed by their place in the list, the manager with its
    lock, and the databases. *)
Record shared := {
  sh_db : Traced W event; sh_drivers : list (Driver (W := W));
  sh_connections : gmap string nat; sh_mu : lock;
}.

Definition set_db (s : shared) (db : Traced W event) : shared :=
  {| sh_db := db; sh_drivers := sh_drivers s; sh_connections := sh_connections s; sh_mu := sh_mu s |}.
Definition set_mu (s : shared) (l : lock) : shared :=
  {| sh_db := sh_db s; sh_drivers := sh_drivers s; sh_connections := sh_connections s; sh_mu := l |}.
Definition set_connections (s : shared) (m : gmap string nat) : shared :=
  {| sh_db := sh_db s; sh_drivers := sh_drivers s; sh_connections := m; sh_mu := sh_mu s |}.
Definition set_driver (s : shared) (a : nat) (d : Driver) : shared :=
  {| sh_db := sh_db s; sh_drivers := <[a := d]> (sh_drivers s); sh_connections := sh_connections s; sh_mu := sh_mu s |}.

(** What [NewManager] leaves, in memory. *)
Definition load (m : gmap string (Driver (W := W))) (db : Traced W event) : shared :=
  {| sh_db := db; sh_drivers := (map_to_list m).*2;
     sh_connections := list_to_map (zip (map_to_list m).*1 (seq 0 (size m))); sh_mu := Readers 0 |}.

(** [d.conn = p] *)
Definition with_pool (d : Driver) (p : option pool) : Driver :=
  match d with
  | SQLServerDriver f => SQLServerDriver (with_conn f p)
  | SQLiteDriver f => SQLiteDriver (with_conn f p)
  | MySQLDriver f => MySQLDriver (with_conn f p)
  end.

(** What each [Reconnect] does between dropping the old pool and storing the new. *)
Definition open_again (d : Driver) : X (result pool) :=
  match d with
  | SQLServerDriver f => open_sqlserver (d_source f) (d_cfg f)
  | SQLiteDriver f => open_sqlite (d_source f) (d_readOnly f) (d_cfg f)
  | MySQLDriver f => open_mysql (d_source f) (d_cfg f)
  end.

(** ** Goroutines *)

(** What is done with a driver that [Get] found. *)
Inductive use :=
| UQuery (sess : SessionConfig) (query : string) (params : row) (hints : option QueryHints)
| UPing
| UStats.

Inductive request :=
| RUse (name : string) (u : use)
| RPing                          (* Manager.Ping *)
| RReconnect (name : string)
| RClose.

Inductive outcome :=
| OUnknown (e : error)                        (* the error of Get *)
| OQuery (r : result QueryResult)
| OPing (e : option error)
| OStats (open_ idle : Z)
| OResults (r : gmap string (option error))
| OReconnect (e : option error)
| OClose (e : option error)
| OPanic.

(** A query once the driver has been read: its session, its text and arguments. *)
Record job := { jb_session : session; jb_query : string; jb_text : string * list arg; jb_hints : option QueryHints }.

Definition job_of (d : Driver) (sess : SessionConfig) (query : string) (params : row) (hints : option QueryHints) : job :=
  {| jb_session := driver_session d sess; jb_query := query; jb_text := driver_statement d query params;
     jb_hints := hints |}.

(** The statement of a job, on a connection whose session is set up. *)
Definition run_job (c : conn) (j : job) : X (result QueryResult) :=
  match resolveHasReturning (jb_hints j) (jb_query j) with
  | None => panic
  | Some hasReturning =>
    run_statement c (jb_text j).1 (jb_text j).2 (resolveIsWrite (jb_hints j) (jb_query j)) hasReturning
  end.

(** Where a goroutine stands; [l] are the drivers a loop still has to visit. *)
Inductive pc :=
| Getting (name : string) (u : use)                      (* Get, read-locked *)
| Reading (a : nat) (u : use)                            (* d.conn *)
| Acquiring (p : pool) (j : job)
| InSession (c : conn) (l : session) (j : job)
| Running (c : conn) (j : job)
| Releasing (c : conn) (o : outcome)                     (* the deferred conn.Close *)
| PingingOne (p : pool)
| StatsAgain (a : nat)                                   (* d.conn once more *)
| PingLock
| Pinging (l : list (string * nat)) (results : gmap string (option error))
| RUnlocking (o : outcome)
| RecLock (name : string)
| RecFind (name : string)
| RecTest (a : nat)                                      (* d.conn != nil *)
| RecClose (a : nat)
| RecNil (a : nat)
| RecOpen (a : nat)
| RecSet (a : nat) (p : pool)
| CloseLock
| Closing (l : list (string * nat)) (firstErr : option error)
| CloseReset (firstErr : option error)
| Unlocking (o : outcome)
| Returned (o : outcome).

Definition enter (q : request) : pc :=
  match q with
  | RUse name u => Getting name u
  | RPing => PingLock
  | RReconnect name => RecLock name
  | RClose => CloseLock
  end.

(** A piece of code that runs against the databases; where the goroutine stands then. *)
Definition exchange {A} (s : shared) (m : X A) (k : option A -> pc) : shared * pc :=
  let '(r, db) := m (sh_db s) in (set_db s db, k r).

(** A call on a driver whose [conn] is [None] panics; so does an address out of range,
    which the manager never has. *)
Definition conn_of (s : shared) (a : nat) : option pool := d ← sh_drivers s !! a; d_conn (fields d).

Definition first_error (name : string) (e firstErr : option error) : option error :=
  match e, firstErr with
  | Some e, None => Some (Wrapf ("failed to close connection " +:+ name +:+ ": ") e "")
  | _, _ => firstErr
  end.

Definition pc_step (s : shared) (p : pc) (_ : Z) : shared * pc :=
  match p with
  | Getting name u =>
    match sh_mu s with
    | Writer => (s, p)
    | Readers _ =>
      (s, match sh_connections s !! name with
          | None => Returned (OUnknown (unknown_connection name))
          | Some a => Reading a u
          end)
    end
  | Reading a u =>
    (s, match sh_drivers s !! a, u with
        | None, _ => Returned OPanic
        | Some d, UQuery sess query params hints =>
          match d_conn (fields d) with
          | None => Returned OPanic
          | Some p => Acquiring p (job_of d sess query params hints)
          end
        | Some d, UPing => match d_conn (fields d) with None => Returned OPanic | Some p => PingingOne p end
        | Some d, UStats => match d_conn (fields d) with None => Returned (OStats 0 0) | Some _ => StatsAgain a end
        end)
  | Acquiring p j =>
    exchange s (ask (pool_Conn p) (EConn p)) (fun r =>
      match r with
      | Some (Ok c) => InSession c (jb_session j) j
      | Some (Err e) => Returned (OQuery (Err (Wrapf "failed to get connection: " e "")))
      | None => Returned OPanic
      end)
  | InSession c [] j => (s, Running c j)
  | InSession c ((q, wrap) :: l) j =>
    exchange s (ask (conn_Exec c q []) (EExec c q [])) (fun r =>
      match r with
      | Some (Ok _) => InSession c l j
      | Some (Err e) => Releasing c (OQuery (Err (Wrapf "failed to configure session: " (wrap e) "")))
      | None => Releasing c OPanic
      end)
  | Running c j =>
    exchange s (run_job c j) (fun r => Releasing c (match r with Some r => OQuery r | None => OPanic end))
  | Releasing c o => exchange s (tell (conn_Close c) (EConnClose c)) (fun _ => Returned o)
  | PingingOne p =>
    exchange s (ask (pool_Ping p) (EPing p)) (fun r =>
      Returned (match r with Some e => OPing e | None => OPanic end))
  | StatsAgain a =>
    match conn_of s a, sh_drivers s !! a with
    | Some _, Some d => exchange s (lift (PoolStats d)) (fun r =>
        Returned (match r with Some st => OStats st.1 st.2 | None => OPanic end))
    | _, _ => (s, Returned OPanic)
    end
  | PingLock =>
    match sh_mu s with
    | Writer => (s, p)
    | Readers n => (set_mu s (Readers (S n)), Pinging (walk (sh_connections s)) ∅)
    end
  | Pinging [] results => (s, RUnlocking (OResults results))
  | Pinging ((name, a) :: l) results =>
    match conn_of s a with
    | None => (s, RUnlocking OPanic)
    | Some p => exchange s (ask (pool_Ping p) (EPing p)) (fun r =>
        match r with Some e => Pinging l (<[name := e]> results) | None => RUnlocking OPanic end)
    end
  | RUnlocking o =>
    (set_mu s (match sh_mu s with Readers n => Readers (pred n) | Writer => Writer end), Returned o)
  | RecLock name =>
    match sh_mu s with
    | Readers O => (set_mu s Writer, RecFind name)
    | _ => (s, p)
    end
  | RecFind name =>
    (s, match sh_connections s !! name with
        | None => Unlocking (OReconnect (Some (unknown_connection name)))
        | Some a => RecTest a
        end)
  | RecTest a => (s, match conn_of s a with Some _ => RecClose a | None => RecOpen a end)
  | RecClose a =>
    match conn_of s a with
    | Some p => exchange s (discard p) (fun _ => RecNil a)
    | None => (s, Unlocking OPanic)
    end
  | RecNil a =>
    (match sh_drivers s !! a with Some d => set_driver s a (with_pool d None) | None => s end, RecOpen a)
  | RecOpen a =>
    match sh_drivers s !! a with
    | None => (s, Unlocking OPanic)
    | Some d => exchange s (open_again d) (fun r =>
        match r with
        | Some (Ok p) => RecSet a p
        | Some (Err e) => Unlocking (OReconnect (Some e))
        | None => Unlocking OPanic
        end)
    end
  | RecSet a p =>
    (match sh_drivers s !! a with Some d => set_driver s a (with_pool d (Some p)) | None => s end,
     Unlocking (OReconnect None))
  | CloseLock =>
    match sh_mu s with
    | Readers O => (set_mu s Writer, Closing (walk (sh_connections s)) None)
    | _ => (s, p)
    end
  | Closing [] firstErr => (s, CloseReset firstErr)
  | Closing ((name, a) :: l) firstErr =>
    match conn_of s a with
    | None => (s, Unlocking OPanic)
    | Some p => exchange s (ask (pool_Close p) (fun _ => EClose p)) (fun r =>
        match r with Some e => Closing l (first_error name e firstErr) | None => Unlocking OPanic end)
    end
  | CloseReset firstErr => (set_connections s ∅, Unlocking (OClose firstErr))
  | Unlocking o => (set_mu s (Readers 0), Returned o)
  | Returned o => (s, Returned o)
  end.

Definition between (p : pc) : Prop := match p with Returned _ => True | _ => False end.

#[global] Instance between_dec p : Decision (between p).
Proof. destruct p; apply _. Defined.

Abbreviation conc := (Goroutines.conc shared pc request).
Abbreviation conc_step := (Goroutines.conc_step pc_step enter between).
Abbreviation gets := (Goroutines.gets pc_step).

(** [n] goroutines on the manager, none of them in a call. *)
Definition idle (m : gmap string Driver) (db : Traced W event) (n : nat) : conc :=
  Goroutines.idle (load m db) (Returned (OClose None)) n.

(** ** Alone, a goroutine does what [Db] says *)

(** The drivers a range over [connections] visits. *)
Definition deref (ds : list Driver) (l : list (string * nat)) : list (string * Driver) :=
  omap (fun na => d ← ds !! na.2; Some (na.1, d)) l.

Definition answer {A} (k : A -> outcome) (r : option A) : outcome :=
  match r with Some a => k a | None => OPanic end.

Definition use_driver (s : shared) (d : Driver) (u : use) : shared * pc :=
  match u with
  | UQuery sess query params hints =>
    exchange s (Query d sess query params hints) (fun r => Returned (answer OQuery r))
  | UPing => exchange s (Ping d) (fun r => Returned (answer OPing r))
  | UStats => exchange s (lift (PoolStats d)) (fun r => Returned (answer (fun st => OStats st.1 st.2) r))
  end.

(** A call as one step of [Db]. *)
Definition atomic (q : request) (s : shared) : shared * pc :=
  match q with
  | RUse name u =>
    match (a ← sh_connections s !! name; sh_drivers s !! a) with
    | None => (s, Returned (OUnknown (unknown_connection name)))
    | Some d => use_driver s d u
    end
  | RPing => exchange s (ping_all (deref (sh_drivers s) (walk (sh_connections s))) ∅)
               (fun r => Returned (answer OResults r))
  | RReconnect name =>
    match sh_connections s !! name with
    | None => (s, Returned (OReconnect (Some (unknown_connection name))))
    | Some a =>
      match sh_drivers s !! a with
      | None => (s, Returned OPanic)
      | Some d =>
        let '(r, db) := Reconnect d (sh_db s) in
        match r with
        | Some (e, d') => (set_driver (set_db s db) a d', Returned (OReconnect e))
        | None => (set_db s db, Returned OPanic)
        end
      end
    end
  | RClose =>
    let '(r, db) := close_all (deref (sh_drivers s) (walk (sh_connections s))) None (sh_db s) in
    match r with
    | Some e => (set_connections (set_db s db) ∅, Returned (OClose e))
    | None => (set_db s db, Returned OPanic)
    end
  end.

(** Every address of the manager is that of a driver. *)
Definition valid (s : shared) : Prop :=
  forall name a, sh_connections s !! name = Some a -> is_Some (sh_drivers s !! a).

Ltac silent := apply gets_step; [intros ?now; cbn [pc_step]|done].

(** One exchange, and the answer it gets. *)
Ltac asks := silent; unfold exchange, ask, tell, lift; cbn.

Lemma session_alone s c l j : gets (s, InSession c l j)
  (let '(r, db) := run_session c l (sh_db s) in
   (set_db s db, match r with
                 | Some None => Running c j
                 | Some (Some e) => Releasing c (OQuery (Err (Wrapf "failed to configure session: " e "")))
                 | None => Releasing c OPanic
                 end)).
Proof.
  revert s. induction l as [|[q wrap] l IH]; intros s; cbn [run_session].
  { destruct s. silent. apply gets_refl. }
  asks. unfold bind, ask, lift. destruct (conn_Exec c q [] _) as [[n|e] w]; [|apply gets_refl].
  match goal with |- gets (?s', _) _ => apply (IH s') end.
Qed.

Lemma Query_job d sess query params hints : Query d sess query params hints =
  query_with (d_conn (fields d)) (driver_session d sess) query (driver_statement d query params) hints.
Proof. by destruct d. Qed.

Lemma query_alone s p sess query text hints :
  gets (s, Acquiring p {| jb_session := sess; jb_query := query; jb_text := text; jb_hints := hints |})
       (exchange s (query_with (Some p) sess query text hints) (fun r => Returned (answer OQuery r))).
Proof.
  asks. unfold query_with, bind, ask, lift. destruct (pool_Conn p _) as [[c|e] w]; cbn; [|apply gets_refl].
  unfold deferred. set (j := {| jb_session := sess; jb_query := query; jb_text := text; jb_hints := hints |}).
  match goal with |- gets (?s', _) _ => eapply gets_trans; [apply (session_alone s' c sess j)|] end. cbn [sh_db set_db].
  destruct (run_session c sess _) as [[[e|]|] db]; cbn.
  - asks. apply gets_refl.
  - asks. unfold run_job. cbn.
    destruct (resolveHasReturning hints query) as [b|]; [|asks; apply gets_refl].
    destruct (run_statement c text.1 text.2 _ b db) as [[r|] db']; asks; apply gets_refl.
  - asks. apply gets_refl.
Qed.

Lemma ping_alone s l results : (forall na, na ∈ l -> is_Some (sh_drivers s !! na.2)) ->
  gets (s, Pinging l results)
       (exchange s (ping_all (deref (sh_drivers s) l) results) (fun r => RUnlocking (answer OResults r))).
Proof.
  revert s results. induction l as [|[name a] l IH]; intros s results Hl; cbn [deref omap list_omap ping_all].
  { destruct s. silent. apply gets_refl. }
  destruct (Hl (name, a) ltac:(left)) as [d Hd]. cbn [snd fst] in *. rewrite Hd. cbn.
  silent. unfold conn_of, Ping. rewrite Hd. cbn. destruct (d_conn (fields d)) as [p|]; [|destruct s; apply gets_refl].
  unfold exchange, bind, ask, lift. destruct (pool_Ping p _) as [e w]. cbn.
  match goal with |- gets (?s', _) _ => apply (IH s') end. intros na Hna. apply Hl. by right.
Qed.

Lemma close_alone s l err : (forall na, na ∈ l -> is_Some (sh_drivers s !! na.2)) ->
  gets (s, Closing l err)
       (exchange s (close_all (deref (sh_drivers s) l) err)
         (fun r => match r with Some e => CloseReset e | None => Unlocking OPanic end)).
Proof.
  revert s err. induction l as [|[name a] l IH]; intros s err Hl; cbn [deref omap list_omap close_all].
  { destruct s. silent. apply gets_refl. }
  destruct (Hl (name, a) ltac:(left)) as [d Hd]. cbn [snd fst] in *. rewrite Hd. cbn.
  silent. unfold conn_of, Close. rewrite Hd. cbn. destruct (d_conn (fields d)) as [p|]; [|destruct s; apply gets_refl].
  unfold exchange, bind, ask, lift. destruct (pool_Close p _) as [e w]. cbn.
  match goal with |- gets (?s', _) _ => apply (IH s') end. intros na Hna. apply Hl. by right.
Qed.

(** Opening a pool never panics. *)
Lemma open_again_returns d db : exists r db', open_again d db = (Some r, db').
Proof.
  assert (exists x, (open_again d db).1 = Some x) as [x Hx].
  { destruct d as [f|f|f]; cbn [open_again]; unfold open_sqlserver, open_mysql.
    - edestruct open_pool_emits as (t & _ & x & Hx & _). by exists x.
    - edestruct open_sqlite_emits as (t & _ & x & Hx & _). by exists x.
    - edestruct open_pool_emits as (t & _ & x & Hx & _). by exists x. }
  destruct (open_again d db) as [r db']. exists x, db'. by rewrite <- Hx.
Qed.

Lemma Reconnect_opens d db db1 r db2 : drop_conn (fields d) db = (Some tt, db1) -> open_again d db1 = (Some r, db2) ->
  Reconnect d db = (Some (match r with Err e => Some e | Ok _ => None end,
                          with_pool d (match r with Err _ => None | Ok p => Some p end)), db2).
Proof.
  destruct d as [f|f|f]; cbn [Reconnect fields open_again]; intros Hd Ho;
    unfold SQLServer_Reconnect, SQLite_Reconnect, MySQL_Reconnect, bind; rewrite Hd, Ho; by destruct r.
Qed.

Lemma with_pool_twice d p q : with_pool (with_pool d p) q = with_pool d q.
Proof. by destruct d. Qed.

Lemma with_pool_id d : with_pool d (d_conn (fields d)) = d.
Proof. by destruct d as [[]|[]|[]]. Qed.

Lemma conn_with_pool d p : d_conn (fields (with_pool d p)) = p.
Proof. by destruct d. Qed.

Lemma open_with_pool d p : open_again (with_pool d p) = open_again d.
Proof. by destruct d. Qed.

(** From a driver without a pool on. *)
Lemma reopen_alone s a d : sh_drivers s !! a = Some d -> d_conn (fields d) = None ->
  exists r db, open_again d (sh_db s) = (Some r, db) /\
  gets (s, RecOpen a)
    (set_driver (set_db s db) a (with_pool d (match r with Err _ => None | Ok p => Some p end)),
     Unlocking (OReconnect (match r with Err e => Some e | Ok _ => None end))).
Proof.
  intros Hd Hc. destruct (open_again_returns d (sh_db s)) as (r & db & E). exists r, db. split; [done|].
  silent. rewrite Hd. unfold exchange. rewrite E. destruct r as [p|e].
  - silent. cbn [sh_drivers set_db]. rewrite Hd. apply gets_refl.
  - rewrite <- Hc, with_pool_id. unfold set_driver. cbn. rewrite list_insert_id by done. destruct s. apply gets_refl.
Qed.

Lemma reconnect_alone s a d : sh_drivers s !! a = Some d ->
  exists e d' db, Reconnect d (sh_db s) = (Some (e, d'), db) /\
  gets (s, RecTest a) (set_driver (set_db s db) a d', Unlocking (OReconnect e)).
Proof.
  intros Hd. destruct (d_conn (fields d)) as [p|] eqn:Ec.
  - set (db1 := {| ds_world := (pool_Close p (ds_world (sh_db s))).2; ds_log := ds_log (sh_db s) ++ [EClose p] |}).
    assert (drop_conn (fields d) (sh_db s) = (Some tt, db1)) as E1 by (unfold drop_conn; by rewrite Ec).
    set (s2 := set_driver (set_db s db1) a (with_pool d None)).
    destruct (reopen_alone s2 a (with_pool d None)) as (r & db2 & E2 & Hg).
    { apply list_lookup_insert_eq. by eapply lookup_lt_Some. }
    { apply conn_with_pool. }
    rewrite open_with_pool in E2. eexists _, _, db2. split; [exact (Reconnect_opens _ _ _ _ _ E1 E2)|].
    silent. unfold conn_of. rewrite Hd. cbn. rewrite Ec. silent. unfold conn_of. rewrite Hd. cbn. rewrite Ec.
    silent. cbn. rewrite Hd. fold db1. eapply gets_trans; [exact Hg|]. rewrite with_pool_twice. unfold s2, set_driver. cbn.
    rewrite list_insert_insert_eq. apply gets_refl.
  - assert (drop_conn (fields d) (sh_db s) = (Some tt, sh_db s)) as E1 by (unfold drop_conn; by rewrite Ec).
    destruct (reopen_alone s a d Hd Ec) as (r & db2 & E2 & Hg).
    eexists _, _, db2. split; [exact (Reconnect_opens _ _ _ _ _ E1 E2)|].
    silent. unfold conn_of. rewrite Hd. cbn. by rewrite Ec.
Qed.

(** C19: refinement.  A call of the manager, or on a driver it found, that is not
    interleaved with others ends after finitely many steps, with the answer of the
    operation of [Db], the databases as that leaves them, and the lock free again;
    that is so of the calls that fail and of those that panic. *)
Theorem db_call_alone q s : valid s -> sh_mu s = Readers 0 -> gets (s, enter q) (atomic q s).
Proof.
  intros Hv Hmu. destruct q as [name u| |name|]; cbn [enter atomic].
  - silent. rewrite Hmu. destruct (sh_connections s !! name) as [a|] eqn:Ea; cbn; [|apply gets_refl].
    destruct (Hv name a Ea) as [d Hd]. rewrite Hd. silent. rewrite Hd. unfold use_driver.
    destruct u as [sess query params hints| |].
    + rewrite Query_job. destruct (d_conn (fields d)) as [p|]; [apply query_alone|]. destruct s. apply gets_refl.
    + unfold Ping. destruct (d_conn (fields d)) as [p|]; [|destruct s; apply gets_refl]. silent. apply gets_refl.
    + destruct (d_conn (fields d)) as [p|] eqn:Ec.
      * silent. unfold conn_of. rewrite Hd. cbn. rewrite Ec. unfold exchange, lift.
        destruct (PoolStats d (sh_db s)). apply gets_refl.
      * unfold exchange, lift, PoolStats. rewrite Ec. destruct s. apply gets_refl.
  - silent. rewrite Hmu. eapply gets_trans; [apply (ping_alone (set_mu s (Readers 1)))|].
    { intros [n a] Hin%walk_elem. by apply (Hv n). }
    unfold exchange. cbn. destruct (ping_all _ _ _) as [r db]. silent. cbn. destruct s. cbn in *. subst. apply gets_refl.
  - silent. rewrite Hmu. silent. cbn. destruct (sh_connections s !! name) as [a|] eqn:Ea.
    + destruct (Hv name a Ea) as [d Hd]. rewrite Hd.
      destruct (reconnect_alone (set_mu s Writer) a d Hd) as (e & d' & db & E & Hg). cbn in E. rewrite E.
      eapply gets_trans; [exact Hg|]. silent. unfold set_driver. destruct s. cbn in *. subst. apply gets_refl.
    + silent. destruct s. cbn in *. subst. apply gets_refl.
  - silent. rewrite Hmu. eapply gets_trans; [apply (close_alone (set_mu s Writer))|].
    { intros [n a] Hin%walk_elem. by apply (Hv n). }
    unfold exchange. cbn. destruct (close_all _ _ _) as [[e|] db]; [silent|]; silent; cbn; destruct s; cbn in *; subst; apply gets_refl.
Qed.

(** ** What the databases see

    Which pools are open and how many connections are taken, by the log. *)

Definition open_step (p : pool) (b : bool) (ev : event) : bool :=
  match ev with
  | EOpen _ _ (Ok p') => if decide (p' = p) then true else b
  | EClose p' => if decide (p' = p) then false else b
  | _ => b
  end.
Definition open_after (p : pool) (b : bool) (t : list event) : bool := foldl (open_step p) b t.

(** [p] has been opened and not been closed since. *)
Definition is_open (p : pool) (t : list event) : Prop := open_after p false t = true.

Definition event_taken (ev : event) : Z :=
  match ev with EConn _ (Ok _) => 1 | EConnClose _ => -1 | _ => 0 end.

(** Connections taken from a pool less those given back. *)
Definition taken (t : list event) : Z := foldr (fun ev z => event_taken ev + z) 0 t.

Lemma open_after_app p b t1 t2 : open_after p b (t1 ++ t2) = open_after p (open_after p b t1) t2.
Proof. apply foldl_app. Qed.

Lemma taken_app t1 t2 : taken (t1 ++ t2) = taken t1 + taken t2.
Proof. unfold taken. induction t1 as [|ev t1 IH]; simpl; [done|]. rewrite IH. lia. Qed.

(** Events that open, close, take or give back nothing. *)
Definition inert (ev : event) : Prop :=
  match ev with EOpen _ _ _ | EClose _ | EConn _ _ | EConnClose _ => False | _ => True end.

Lemma inert_open p b t : Forall inert t -> open_after p b t = b.
Proof. unfold open_after. induction 1 as [|ev t Hev _ IH]; [done|]. by destruct ev. Qed.

Lemma inert_taken t : Forall inert t -> taken t = 0.
Proof. unfold taken. induction 1 as [|ev t Hev _ IH]; [done|]. cbn. destruct ev; cbn; done || lia. Qed.

Lemma run_job_inert c j : emits (run_job c j) (fun _ t => Forall inert t).
Proof.
  unfold run_job, run_statement. destruct (resolveHasReturning _ _) as [b|]; [|apply emits_panic; constructor].
  destruct (resolveIsWrite _ _ && negb b); apply emits_bind, emits_ask.
  - intros r. apply emits_ret. by repeat constructor.
  - intros [cur|e]; [|apply emits_ret; by repeat constructor]. apply emits_deferred, emits_ret. by repeat constructor.
Qed.

Lemma pool_statements_inert p l : emits (pool_statements p l) (fun r t => is_Some r /\ Forall inert t).
Proof.
  induction l as [|[q wrap] l IH]; cbn [pool_statements]; [by apply emits_ret|].
  apply emits_bind, emits_ask. intros [e|]; [apply emits_ret; split; [done|by repeat constructor]|].
  eapply emits_weaken; [exact IH|]. intros r t [? Ht]. split; [done|]. by constructor.
Qed.

(** Opening leaves no pool open that was not, but the one it returns. *)
Definition opens_only (r : option (result pool)) (t : list event) : Prop :=
  taken t = 0 /\ forall p b, open_after p b t = true -> b = true \/ r = Some (Ok p).

Lemma opens_only_closed driver dsn p t x : Forall inert t ->
  opens_only (Some (Err x)) (EOpen driver dsn (Ok p) :: t ++ [EClose p]).
Proof.
  intros Ht. split.
  - change (0 + taken (t ++ [EClose p]) = 0). by rewrite taken_app, inert_taken by done.
  - intros p' b. change (open_after p' b (?ev :: ?l)) with (open_after p' (open_step p' b ev) l).
    rewrite open_after_app, (inert_open p' _ t) by done. cbn. destruct (decide (p = p')); cbn; [done|by left].
Qed.

Lemma open_pool_only driver dsn m1 m2 settings initial : emits (open_pool driver dsn m1 m2 settings initial) opens_only.
Proof.
  unfold open_pool. apply emits_bind, emits_ask. intros [p|e]; [|apply emits_ret; split; [done|by left]].
  unfold discard, tell. apply emits_bind, emits_ask. intros [].
  eapply emits_seq; [apply pool_statements_inert|by intros t [[] _]|].
  intros [e|] t [_ Ht]; cbn [app]; apply emits_bind, emits_ask.
  - intros []. apply emits_ret. rewrite app_nil_r. cbn [app].
    apply (opens_only_closed driver dsn p (ESet p settings :: t)). by constructor.
  - intros [e|].
    + apply emits_bind, emits_ask. intros []. apply emits_ret.
      change ([EPing p (Some e)] ++ [EClose p] ++ []) with ([EPing p (Some e)] ++ [EClose p]).
      rewrite app_assoc.
      apply (opens_only_closed driver dsn p (ESet p settings :: t ++ [EPing p (Some e)])).
      constructor; [done|]. apply Forall_app. split; [done|by repeat constructor].
    + apply emits_ret. cbn [app].
      assert (Forall inert (ESet p settings :: t ++ [EPing p None])) as Hi.
      { constructor; [done|]. apply Forall_app. split; [done|by repeat constructor]. }
      split.
      * change (0 + taken (ESet p settings :: t ++ [EPing p None]) = 0). by rewrite inert_taken by done.
      * intros p' b. change (open_after p' b (?ev :: ?l)) with (open_after p' (open_step p' b ev) l).
        rewrite inert_open by done. cbn. destruct (decide (p = p')) as [->|]; [by right|by left].
Qed.

Lemma open_again_only d : emits (open_again d) opens_only.
Proof.
  destruct d as [f|f|f]; cbn [open_again]; unfold open_sqlserver, open_mysql; [apply open_pool_only| |apply open_pool_only].
  unfold open_sqlite. destruct (buildSQLiteDSN _ _); [apply open_pool_only|]. apply emits_ret. split; [done|by left].
Qed.

(** ** Whatever the interleaving, nothing leaks *)

(** The goroutines that hold the lock for writing, for reading, and those that have a
    connection to give back. *)
Definition writes (p : pc) : Z :=
  match p with
  | RecFind _ | RecTest _ | RecClose _ | RecNil _ | RecOpen _ | RecSet _ _
  | Closing _ _ | CloseReset _ | Unlocking _ => 1
  | _ => 0
  end.
Definition reads (p : pc) : Z := match p with Pinging _ _ | RUnlocking _ => 1 | _ => 0 end.
Definition holding (p : pc) : Z := match p with InSession _ _ _ | Running _ _ | Releasing _ _ => 1 | _ => 0 end.

Lemma writes_nonneg p : 0 <= writes p.
Proof. by destruct p. Qed.
Lemma reads_nonneg p : 0 <= reads p.
Proof. by destruct p. Qed.

Definition lock_ok (l : lock) (w r : Z) : Prop :=
  match l with Readers n => w = 0 /\ r = Z.of_nat n | Writer => w = 1 /\ r = 0 end.

Definition log (s : shared) : list event := ds_log (sh_db s).
Definition open_now (s : shared) (p : pool) : Prop := is_open p (log s).
Definition registered (s : shared) (a : nat) : Prop := exists name, sh_connections s !! name = Some a.
Definition held (s : shared) (p : pool) : Prop := exists a, registered s a /\ conn_of s a = Some p.

(** What a goroutine that has the lock for writing knows. *)
Definition critical (s : shared) (p : pc) : Prop :=
  match p with
  | RecTest a | RecClose a => registered s a
  | RecNil a => registered s a /\ forall p, conn_of s a = Some p -> ~ open_now s p
  | RecOpen a | RecSet a _ => registered s a /\ conn_of s a = None
  | Closing l _ => forall name a p, sh_connections s !! name = Some a ->
      (name, a) ∈ l \/ (conn_of s a = Some p -> ~ open_now s p)
  | CloseReset _ => forall p, held s p -> ~ open_now s p
  | _ => True
  end.

Record inv (t0 : list event) (s : shared) (pcs : list pc) : Prop := {
  inv_lock : lock_ok (sh_mu s) (total writes pcs) (total reads pcs);
  inv_valid : valid s;
  inv_critical : forall i p, pcs !! i = Some p -> critical s p;
  inv_open : forall p, open_now s p -> held s p \/ exists i a, pcs !! i = Some (RecSet a p);
  inv_taken : taken (log s) = taken t0 + total holding pcs;
}.

Lemma exchange_eq {A} s (m : X A) k : exchange s m k = (set_db s (m (sh_db s)).2, k (m (sh_db s)).1).
Proof. unfold exchange. by destruct (m (sh_db s)). Qed.

(** Every way a step can go; the answer of an exchange stays a term. *)
Ltac cases := cbn in *; rewrite ?exchange_eq; cbn in *; repeat match goal with
  | |- context [match ?x with _ => _ end] =>
    lazymatch x with context [match _ with _ => _ end] => fail | _ => destruct x eqn:?; cbn in *; rewrite ?exchange_eq; cbn in * end
  end.

Lemma step_lock s p now w r : lock_ok (sh_mu s) w r -> writes p <= w -> reads p <= r ->
  lock_ok (sh_mu (pc_step s p now).1) (w - writes p + writes (pc_step s p now).2)
    (r - reads p + reads (pc_step s p now).2).
Proof.
  destruct s as [db ds cs [n|]]; unfold lock_ok; intros Hl Hw Hr; destruct p; cbn [pc_step] in *; cases; lia.
Qed.

Lemma emits_taken {A} (m : X A) P db : emits m P -> (forall r t, P r t -> taken t = 0) ->
  taken (ds_log (m db).2) = taken (ds_log db).
Proof. intros Hm HP. destruct (Hm db) as (t & -> & Ht). rewrite taken_app, (HP _ _ Ht). lia. Qed.

Lemma step_taken s p now :
  taken (log (pc_step s p now).1) = taken (log s) + holding (pc_step s p now).2 - holding p.
Proof.
  pose proof (fun c j => emits_taken _ _ (sh_db s) (run_job_inert c j) (fun _ t => inert_taken t)) as Hrun.
  pose proof (fun d => emits_taken _ _ (sh_db s) (open_again_only d) (fun _ t H => proj1 H)) as Hopen.
  unfold log. destruct p; cbn [pc_step holding]; cases; try lia.
  all: unfold ask, tell, discard, lift, PoolStats in *; cases; rewrite ?taken_app; cbn; simplify_eq; try lia.
  all: try rewrite Hrun; try rewrite Hopen; try lia. unfold taken. lia.
Qed.

(** A goroutine that does not have the lock for writing changes no driver, and opens and
    closes no pool. *)
Lemma emits_inert_open {A} (m : X A) P db p b : emits m P -> (forall r t, P r t -> Forall inert t) ->
  open_after p b (ds_log (m db).2) = open_after p b (ds_log db).
Proof.
  intros Hm HP. destruct (Hm db) as (t & -> & Ht). by rewrite open_after_app, inert_open by eauto.
Qed.

Definition same_pools (s s' : shared) : Prop :=
  sh_drivers s' = sh_drivers s /\ sh_connections s' = sh_connections s /\
  forall p, open_now s' p <-> open_now s p.

Lemma step_frame s p now : writes p = 0 -> same_pools s (pc_step s p now).1.
Proof.
  pose proof (fun c j p => emits_inert_open _ _ (sh_db s) p false (run_job_inert c j) (fun _ t H => H)) as Hrun.
  intros Hw. destruct p; try done; cbn [pc_step]; cases.
  all: split; [done|split; [done|intros q; unfold open_now, is_open, log; cbn]]; try done.
  all: try by rewrite Hrun.
  all: unfold ask, tell, lift, PoolStats, open_after in *; cases; by rewrite ?foldl_app.
Qed.

Lemma critical_frame s s' p : same_pools s s' -> critical s p -> critical s' p.
Proof.
  intros (Ed & Ec & Ho). destruct p; cbn [critical]; unfold held, registered, conn_of; rewrite ?Ed, ?Ec; try done.
  - intros [? Hc]. split; [done|]. intros p Hp. rewrite Ho. by apply Hc.
  - intros Hc name a p Hn. destruct (Hc name a p Hn) as [?|Hp]; [by left|right]. intros. rewrite Ho. by apply Hp.
  - intros Hc p Hp. rewrite Ho. by apply Hc.
Qed.

(** What a goroutine knows when it gets the lock. *)
Lemma critical_enters s p now : writes p = 0 -> critical (pc_step s p now).1 (pc_step s p now).2.
Proof.
  intros Hw. destruct p; try done; cbn [pc_step]; cases; try done.
  intros name a p Hn. left. by apply walk_elem.
Qed.

(** *** The steps under the lock *)

Definition kept (s : shared) (p : pc) : Prop :=
  forall q, open_now s q -> held s q \/ exists a, p = RecSet a q.

Lemma open_after_close p q b t : open_after q b (t ++ [EClose p]) = true <-> q <> p /\ open_after q b t = true.
Proof. rewrite open_after_app. cbn. destruct (decide (p = q)); naive_solver. Qed.

(** Closing a pool makes no other open. *)
Lemma open_now_close s w p q : open_now (set_db s {| ds_world := w; ds_log := log s ++ [EClose p] |}) q <->
  q <> p /\ open_now s q.
Proof. apply open_after_close. Qed.

Lemma conn_of_set s a d b : is_Some (sh_drivers s !! a) ->
  conn_of (set_driver s a d) b = if decide (b = a) then d_conn (fields d) else conn_of s b.
Proof.
  intros Ha%lookup_lt_is_Some. unfold conn_of. cbn. case_decide as Hb; [subst; by rewrite list_lookup_insert_eq|].
  by rewrite list_lookup_insert_ne.
Qed.

Lemma valid_set s a d : valid s -> valid (set_driver s a d).
Proof. intros Hv n b Hb. cbn in *. apply lookup_lt_is_Some. rewrite length_insert. apply lookup_lt_is_Some. by eapply Hv. Qed.

Lemma registered_driver s a : valid s -> registered s a -> exists d, sh_drivers s !! a = Some d.
Proof. intros Hv [n Hn]. by apply (Hv n). Qed.

(** RecNil and RecSet write [conn] of a driver whose pool is closed, or that has none. *)
Lemma store_keeps s a d o q : valid s -> registered s a -> sh_drivers s !! a = Some d ->
  (forall p, conn_of s a = Some p -> ~ open_now s p) ->
  open_now s q -> held s q -> held (set_driver s a (with_pool d o)) q.
Proof.
  intros Hv Hr Hd Hc Ho (b & Hb & Hq). exists b. split; [done|]. rewrite conn_of_set by (by rewrite Hd).
  case_decide as E; [subst; by destruct (Hc q)|done].
Qed.

Definition writer_ok (s : shared) (p : pc) : Prop := valid s /\ critical s p /\ kept s p.

Lemma kept_none s p : kept s p -> (forall a q, p <> RecSet a q) -> forall q, open_now s q -> held s q.
Proof. intros Hk Hp q Hq. destruct (Hk q Hq) as [?|[a Ha]]; [done|]. by destruct (Hp a q). Qed.

Lemma step_closes s w p p' q : kept s p -> (forall a q, p <> RecSet a q) ->
  open_now (set_db s {| ds_world := w; ds_log := log s ++ [EClose p'] |}) q -> held s q.
Proof. intros Hk Hp [_ Hq]%open_now_close. by eapply kept_none. Qed.

Lemma RecOpen_ok s a now : writer_ok s (RecOpen a) -> writer_ok (pc_step s (RecOpen a) now).1 (pc_step s (RecOpen a) now).2.
Proof.
  intros (Hv & [Hr Hc] & Hk). destruct (registered_driver s a Hv Hr) as [d Hd]. cbn [pc_step]. rewrite Hd, exchange_eq.
  destruct (open_again_only d (sh_db s)) as (t & Ht & _ & Ho). cbn [fst snd]. set (s' := set_db s (open_again d (sh_db s)).2).
  assert (forall q, open_now s' q -> held s q \/ (open_again d (sh_db s)).1 = Some (Ok q)) as Hq.
  { intros q. unfold open_now, is_open, log, s'. cbn. rewrite Ht, open_after_app.
    intros [Hb|?]%Ho; [left|by right]. by apply (kept_none s (RecOpen a)). }
  split; [done|]. destruct (open_again d (sh_db s)).1 as [[p|e]|]; (split; [done|]); intros q [?|?]%Hq; try (by left); try done.
  right. exists a. congruence.
Qed.

Lemma step_writer s p now : writes p = 1 -> writer_ok s p -> writer_ok (pc_step s p now).1 (pc_step s p now).2.
Proof.
  intros Hw. destruct p as [| | | | | | | | | | | |name|a|a|a|a|a p| |l err|err|o|]; try done; [| | | |apply RecOpen_ok|..];
    intros (Hv & Hcr & Hk); cbn [pc_step].
  - destruct (sh_connections s !! name) as [a|] eqn:E; (split; [done|split]); try done; try (by exists name);
      intros q Hq; left; by apply (kept_none s _ Hk).
  - destruct (conn_of s a) as [p|] eqn:E; (split; [done|split]); try done; intros q Hq; left; by apply (kept_none s _ Hk).
  - destruct (conn_of s a) as [p|] eqn:E; [|split; [done|split; [done|]]; intros q Hq; left; by apply (kept_none s _ Hk)].
    unfold exchange, discard, tell, ask, lift. cbn [fst snd].
    split; [done|]. split.
    + split; [done|]. intros q Hq. change (conn_of s a = Some q) in Hq. intros [Hn _]%open_now_close. congruence.
    + intros q Hq. left. by eapply (step_closes s _ (RecClose a) p).
  - destruct Hcr as [Hr Hc]. destruct (registered_driver s a Hv Hr) as [d Hd]. rewrite Hd. cbn [fst snd].
    split; [by apply valid_set|]. split.
    + split; [done|]. rewrite conn_of_set, decide_True by (done || by rewrite Hd). apply conn_with_pool.
    + intros q Hq. left. apply store_keeps; try done. by eapply (kept_none s (RecNil a)).
  - destruct Hcr as [Hr Hc]. destruct (registered_driver s a Hv Hr) as [d Hd]. rewrite Hd. cbn [fst snd].
    split; [by apply valid_set|]. split; [done|]. intros q Hq. left. destruct (Hk q Hq) as [Hh|[b [= _ ->]]].
    + apply store_keeps; try done. intros p' Hp'. congruence.
    + exists a. split; [done|]. rewrite conn_of_set, decide_True by (done || by rewrite Hd). apply conn_with_pool.
  - destruct l as [|[name a] l].
    { split; [done|split]; [|intros q Hq; left; by apply (kept_none s _ Hk)]. intros p (a & [n Hn] & Ha).
      destruct (Hcr n a p Hn) as [Hin|Hc]; [by apply not_elem_of_nil in Hin|by apply Hc]. }
    destruct (conn_of s a) as [p|] eqn:E; [|split; [done|split; [done|]]; intros q Hq; left; by apply (kept_none s _ Hk)].
    unfold exchange, ask, lift. destruct (pool_Close p (ds_world (sh_db s))) as [e w]. cbn [fst snd].
    split; [done|]. split.
    + intros n b q Hn. destruct (Hcr n b q Hn) as [Hin|Hc].
      * apply elem_of_cons in Hin as [[= -> ->]|?]; [|by left]. right. intros Hq. change (conn_of s a = Some q) in Hq.
        intros [? _]%open_now_close. congruence.
      * right. intros Hq [_ Ho]%open_now_close. by apply Hc.
    + intros q Hq. left. by eapply (step_closes s _ (Closing ((name, a) :: l) err) p).
  - split; [intros n a Hn; cbn in Hn; by rewrite lookup_empty in Hn|]. split; [done|]. intros q Hq. exfalso.
    destruct (Hk q Hq) as [Hh|[a Ha]]; [|done]. by apply (Hcr q).
  - split; [done|]. split; [done|]. intros q Hq. left. by apply (kept_none s _ Hk).
Qed.

(** *** Runs *)

Lemma exclusive t0 s pcs i j p q : inv t0 s pcs -> i <> j -> pcs !! i = Some p -> pcs !! j = Some q ->
  writes p = 1 -> writes q = 0.
Proof.
  intros Hinv Hij Hi Hj Hp. pose proof (total_two writes pcs i j p q writes_nonneg Hij Hi Hj).
  pose proof (inv_lock _ _ _ Hinv) as Hl. unfold lock_ok in Hl. pose proof (writes_nonneg q). destruct (sh_mu s); lia.
Qed.

Lemma critical_free s p : writes p = 0 -> critical s p.
Proof. by destruct p. Qed.

Lemma writes_01 p : writes p = 0 \/ writes p = 1.
Proof. destruct p; by (left + right). Qed.

Lemma step_inv t0 s pcs i p now : inv t0 s pcs -> pcs !! i = Some p ->
  inv t0 (pc_step s p now).1 (<[i := (pc_step s p now).2]> pcs).
Proof.
  intros Hinv Hi. pose proof (total_lookup writes pcs i p writes_nonneg Hi) as Htw.
  pose proof (total_lookup reads pcs i p reads_nonneg Hi) as Htr.
  pose proof (step_lock s p now _ _ (inv_lock _ _ _ Hinv) Htw Htr) as Hlock.
  pose proof (step_taken s p now) as Htk. rewrite (inv_taken _ _ _ Hinv) in Htk.
  assert (valid (pc_step s p now).1 /\
    (forall j q, <[i := (pc_step s p now).2]> pcs !! j = Some q -> critical (pc_step s p now).1 q) /\
    (forall q, open_now (pc_step s p now).1 q -> held (pc_step s p now).1 q \/
       exists j a, <[i := (pc_step s p now).2]> pcs !! j = Some (RecSet a q))) as (Hv & Hc & Ho).
  2:{ split; rewrite ?(total_update _ pcs i p) by done; try done. lia. }
  pose proof (lookup_lt_Some _ _ _ Hi) as Hlt. destruct (writes_01 p) as [Hp|Hp].
  - pose proof (step_frame s p now Hp) as Hf. pose proof Hf as (Ed & Ec & Eo). split_and!.
    + unfold valid. rewrite Ed, Ec. apply Hinv.
    + intros j q Hq. destruct (decide (j = i)) as [->|Hj].
      * rewrite list_lookup_insert_eq in Hq by done. injection Hq as <-. by apply critical_enters.
      * rewrite list_lookup_insert_ne in Hq by done. apply (critical_frame s); [done|]. by eapply inv_critical.
    + intros q Hq%Eo. destruct (inv_open _ _ _ Hinv q Hq) as [Hh|(j & a & Hj)].
      * left. unfold held, registered, conn_of. by rewrite Ec, Ed.
      * right. exists j, a. rewrite list_lookup_insert_ne; [done|]. intros ->. rewrite Hi in Hj. by injection Hj as ->.
  - destruct (step_writer s p now Hp) as (Hv & Hc & Hk).
    { split; [apply Hinv|split; [by eapply inv_critical|]]. intros q Hq.
      destruct (inv_open _ _ _ Hinv q Hq) as [Hh|(j & a & Hj)]; [by left|right]. exists a.
      destruct (decide (i = j)) as [->|Hij]; [congruence|]. by pose proof (exclusive _ _ _ _ _ _ _ Hinv Hij Hi Hj Hp). }
    split_and!; [done| |].
    + intros j q Hq. destruct (decide (j = i)) as [->|Hj].
      * rewrite list_lookup_insert_eq in Hq by done. by injection Hq as <-.
      * rewrite list_lookup_insert_ne in Hq by done. apply critical_free. by apply (exclusive _ _ _ i j p q Hinv).
    + intros q Hq. destruct (Hk q Hq) as [Hh|[a Ha]]; [by left|right]. exists i, a. by rewrite list_lookup_insert_eq, Ha.
Qed.

Lemma enter_inv t0 s pcs i p q : inv t0 s pcs -> pcs !! i = Some p -> between p -> inv t0 s (<[i := enter q]> pcs).
Proof.
  intros Hinv Hi Hp. assert (writes (enter q) = 0 /\ reads (enter q) = 0 /\ holding (enter q) = 0) as (Ew & Er & Eh) by by destruct q.
  assert (writes p = 0 /\ reads p = 0 /\ holding p = 0) as (Ew' & Er' & Eh') by by destruct p.
  pose proof (lookup_lt_Some _ _ _ Hi) as Hlt.
  split; rewrite ?(total_update _ pcs i p), ?Ew, ?Er, ?Eh, ?Ew', ?Er', ?Eh', ?Z.sub_0_r, ?Z.add_0_r by done; try apply Hinv.
  - intros j r Hr. destruct (decide (j = i)) as [->|Hj].
    + rewrite list_lookup_insert_eq in Hr by done. injection Hr as <-. by apply critical_free.
    + rewrite list_lookup_insert_ne in Hr by done. by eapply inv_critical.
  - intros r Hr. destruct (inv_open _ _ _ Hinv r Hr) as [Hh|(j & a & Hj)]; [by left|right].
    exists j, a. rewrite list_lookup_insert_ne; [done|]. intros ->. rewrite Hi in Hj. injection Hj as ->. done.
Qed.

Lemma reached_inv t0 s s' : rtc conc_step s s' -> inv t0 (cn_state s) (cn_pcs s) -> inv t0 (cn_state s') (cn_pcs s').
Proof.
  induction 1 as [s|s s1 s2 Hs _ IH]; [done|]. intros Hinv. apply IH.
  destruct Hs as [s i p q Hi Hp|s i p now Hi]; cbn; [by eapply enter_inv|by apply step_inv].
Qed.

(** The manager in memory is the manager. *)
Lemma load_lookup m db name a : sh_connections (load m db) !! name = Some a ->
  exists d, m !! name = Some d /\ sh_drivers (load m db) !! a = Some d.
Proof.
  cbn. intros Hl%elem_of_list_to_map_2. apply list_elem_of_lookup in Hl as (i & Hi).
  apply lookup_zip_Some in Hi as [Hn Ha]. apply lookup_seq in Ha as [-> _]. cbn.
  apply list_lookup_fmap_Some in Hn as ([n' d] & -> & Hp). exists d. cbn. split.
  - apply elem_of_map_to_list. by eapply list_elem_of_lookup_2.
  - by rewrite list_lookup_fmap, Hp.
Qed.

Lemma load_registered m db name d : m !! name = Some d ->
  exists a, registered (load m db) a /\ sh_drivers (load m db) !! a = Some d.
Proof.
  intros [a Ha]%elem_of_map_to_list%list_elem_of_lookup. exists a. cbn. rewrite list_lookup_fmap, Ha. split; [|done].
  exists name. cbn. apply elem_of_list_to_map_1.
  - rewrite fst_zip by (by rewrite length_fmap, length_seq, length_map_to_list). apply NoDup_fst_map_to_list.
  - apply list_elem_of_lookup. exists a. apply lookup_zip_Some. rewrite list_lookup_fmap, Ha. split; [done|].
    apply lookup_seq. split; [done|]. rewrite <- (length_map_to_list m). by eapply lookup_lt_Some.
Qed.

(** The pools that are open at the start are those of the manager's drivers. *)
Definition owned (m : gmap string Driver) (t : list event) : Prop :=
  forall p, is_open p t -> exists name d, m !! name = Some d /\ d_conn (fields d) = Some p.

Lemma idle_inv m db n : owned m (ds_log db) -> inv (ds_log db) (load m db) (replicate n (Returned (OClose None))).
Proof.
  intros Ho. assert (forall f : pc -> Z, f (Returned (OClose None)) = 0 -> total f (replicate n (Returned (OClose None))) = 0) as Ht.
  { intros f Hf. apply total_zero, Forall_replicate, Hf. }
  split; rewrite ?Ht by done; try done.
  - intros name a (d & _ & Hd)%load_lookup. by exists d.
  - intros i p [-> _]%lookup_replicate. done.
  - intros p (name & d & Hd & Hp)%Ho. left. destruct (load_registered m db name d Hd) as (a & Ha & Ea).
    exists a. split; [done|]. unfold conn_of. by rewrite Ea.
  - unfold log. cbn. lia.
Qed.

(** C17: the manager under concurrency.  However requests, pings, reconnections and a
    Close interleave, step by step: the lock admits one goroutine that writes or any
    number that read; a pool that is open belongs to a driver of the manager, or to
    the reconnection that is about to store it, so none is ever lost; the connections
    taken and not yet given back are those of the queries that are running.  At rest,
    when every call has ended, in an answer or a panic, the lock is free, every
    connection is back, and the open pools are those of the manager: after a Close
    there is none. *)
Theorem concurrent_pools m db n s (Howned : owned m (ds_log db)) (Hrun : rtc conc_step (idle m db n) s) :
  let sh := cn_state s in
  lock_ok (sh_mu sh) (total writes (cn_pcs s)) (total reads (cn_pcs s)) /\
  (forall p, open_now sh p -> held sh p \/ exists i a, cn_pcs s !! i = Some (RecSet a p)) /\
  taken (log sh) = taken (ds_log db) + total holding (cn_pcs s) /\
  (Forall between (cn_pcs s) -> sh_mu sh = Readers 0 /\ taken (log sh) = taken (ds_log db) /\
    (forall p, open_now sh p -> held sh p) /\
    (sh_connections sh = ∅ -> forall p, ~ open_now sh p)).
Proof.
  intros sh. pose proof (reached_inv _ _ _ Hrun (idle_inv m db n Howned)) as Hinv. fold sh in Hinv.
  split_and!; [apply Hinv|apply Hinv|apply Hinv|]. intros Hb.
  assert (forall f : pc -> Z, (forall o, f (Returned o) = 0) -> total f (cn_pcs s) = 0) as Ht.
  { intros f Hf. apply total_zero. eapply Forall_impl; [exact Hb|]. by intros []. }
  pose proof (inv_lock _ _ _ Hinv) as Hl. pose proof (inv_taken _ _ _ Hinv) as Htk.
  rewrite !Ht in Hl by done. rewrite Ht in Htk by done.
  assert (forall p, open_now sh p -> held sh p) as Ho.
  { intros p Hp. destruct (inv_open _ _ _ Hinv p Hp) as [|(i & a & Hi)]; [done|].
    by pose proof (Forall_lookup_1 _ _ _ _ Hb Hi). }
  split_and!; [|lia|done|].
  - destruct (sh_mu sh) as [n0|]; unfold lock_ok in Hl; [|lia]. f_equal. lia.
  - intros He p (a & [name Hn] & _)%Ho. rewrite He in Hn. by rewrite lookup_empty in Hn.
Qed.

(** ** No deadlock *)

(** The goroutine waits for the lock. *)
Definition waits (l : lock) (p : pc) : Prop :=
  match p, l with
  | (Getting _ _ | PingLock), Writer => True
  | (RecLock _ | CloseLock), (Writer | Readers (S _)) => True
  | _, _ => False
  end.

#[global] Instance waits_dec l p : Decision (waits l p).
Proof. destruct p, l as [[|]|]; apply _. Defined.

Abbreviation moves := (Goroutines.moves pc_step enter between).

(** Once it does not wait, a call runs to its end while the others stand still. *)
Definition can_end (s : shared) (p : pc) : Prop := exists s' o, moves s p s' (Returned o).

Lemma ends_now s o : can_end s (Returned o).
Proof. exists s, o. apply moves_refl. Qed.

Lemma ends_next s p : can_end (pc_step s p 0).1 (pc_step s p 0).2 -> can_end s p.
Proof.
  intros (s' & o & Hm). exists s', o. eapply (moves_step _ _ _ s p 0); [|exact Hm]. by destruct (pc_step s p 0).
Qed.

Ltac next := apply ends_next; cbn [pc_step]; rewrite ?exchange_eq; cbn [fst snd].

Lemma release_ends s c o : can_end s (Releasing c o).
Proof. next. apply ends_now. Qed.

Lemma session_ends s c l j : can_end s (InSession c l j).
Proof.
  revert s. induction l as [|[q wrap] l IH]; intros s; next; [next; apply release_ends|].
  destruct (ask _ _ _).1 as [[]|]; [apply IH|apply release_ends..].
Qed.

Lemma runlock_ends s o : can_end s (RUnlocking o).
Proof. next. apply ends_now. Qed.

Lemma unlock_ends s o : can_end s (Unlocking o).
Proof. next. apply ends_now. Qed.

Lemma pinging_ends s l r : can_end s (Pinging l r).
Proof.
  revert s r. induction l as [|[name a] l IH]; intros s r; next; [apply runlock_ends|].
  destruct (conn_of s a); [rewrite exchange_eq; cbn [fst snd]|apply runlock_ends].
  destruct (ask _ _ _).1; [apply IH|apply runlock_ends].
Qed.

Lemma closing_ends s l err : can_end s (Closing l err).
Proof.
  revert s err. induction l as [|[name a] l IH]; intros s err; next; [next; apply unlock_ends|].
  destruct (conn_of s a); [rewrite exchange_eq; cbn [fst snd]|apply unlock_ends].
  destruct (ask _ _ _).1; [apply IH|apply unlock_ends].
Qed.

Lemma open_ends s a : can_end s (RecOpen a).
Proof.
  next. destruct (sh_drivers s !! a) as [d|]; [rewrite exchange_eq; cbn [fst snd]|apply unlock_ends].
  destruct (open_again d _).1 as [[p|e]|]; [next|..]; apply unlock_ends.
Qed.

Lemma close_ends s a : can_end s (RecClose a).
Proof.
  next. destruct (conn_of s a); [rewrite exchange_eq; cbn [fst snd]; next; apply open_ends|apply unlock_ends].
Qed.

Lemma find_ends s name : can_end s (RecFind name).
Proof.
  next. destruct (sh_connections s !! name) as [a|]; [|apply unlock_ends]. next.
  destruct (conn_of s a); [apply close_ends|apply open_ends].
Qed.

Lemma test_ends s a : can_end s (RecTest a).
Proof. next. destruct (conn_of s a); [apply close_ends|apply open_ends]. Qed.

Lemma stats_ends s a : can_end s (StatsAgain a).
Proof.
  next. destruct (conn_of s a); [|apply ends_now]. destruct (sh_drivers s !! a); [|apply ends_now].
  rewrite exchange_eq. apply ends_now.
Qed.

Lemma acquire_ends s p j : can_end s (Acquiring p j).
Proof. next. destruct (ask _ _ _).1 as [[]|]; [apply session_ends|apply ends_now..]. Qed.

Lemma reading_ends s a u : can_end s (Reading a u).
Proof.
  next. destruct (sh_drivers s !! a) as [d|]; [|apply ends_now].
  destruct u, (d_conn (fields d)); try apply ends_now; [apply acquire_ends|next; apply ends_now|apply stats_ends].
Qed.

Lemma call_ends s p : ~ waits (sh_mu s) p -> can_end s p.
Proof.
  intros Hw. destruct p; auto using reading_ends, acquire_ends, session_ends, release_ends, stats_ends, pinging_ends,
    runlock_ends, find_ends, test_ends, close_ends, open_ends, closing_ends, unlock_ends, ends_now.
  - next. destruct (sh_mu s) as [k|]; [|by destruct Hw].
    cbn [fst snd]. destruct (sh_connections s !! name); [apply reading_ends|apply ends_now].
  - next. apply release_ends.
  - next. apply ends_now.
  - next. destruct (sh_mu s); [apply pinging_ends|by destruct Hw].
  - next. destruct (sh_mu s) as [[|]|]; [apply find_ends|by destruct Hw..].
  - next. apply open_ends.
  - next. apply unlock_ends.
  - next. destruct (sh_mu s) as [[|]|]; [apply closing_ends|by destruct Hw..].
  - next. apply unlock_ends.
Qed.

(** Somebody does not wait. *)
Lemma someone_goes t0 s pcs i p : inv t0 s pcs -> pcs !! i = Some p -> ~ between p ->
  exists j q, pcs !! j = Some q /\ ~ between q /\ ~ waits (sh_mu s) q.
Proof.
  intros Hinv Hi Hp. pose proof (inv_lock _ _ _ Hinv) as Hl.
  destruct (decide (waits (sh_mu s) p)) as [Hw|Hw]; [|by exists i, p].
  assert (0 < total writes pcs \/ 0 < total reads pcs) as [Ht|Ht].
  { unfold lock_ok in Hl. destruct (sh_mu s) as [[|n]|]; [by destruct p|right; lia|left; lia]. }
  - destruct (total_positive writes pcs writes_nonneg Ht) as (j & q & Hj & Hq).
    exists j, q. split; [done|]. destruct q; cbn in Hq; try lia; split; tauto.
  - destruct (total_positive reads pcs reads_nonneg Ht) as (j & q & Hj & Hq).
    exists j, q. split; [done|]. destruct q; cbn in Hq; try lia; split; tauto.
Qed.

Definition busy (p : pc) : Z := if decide (between p) then 0 else 1.

(** C18: no deadlock.  In every state that requests, pings, reconnections and closes can
    reach, whichever wait for the lock, the calls in progress can be run to their ends,
    without any new call. *)
Theorem calls_can_end m db n s (Howned : owned m (ds_log db)) (Hrun : rtc conc_step (idle m db n) s) :
  exists s', rtc conc_step s s' /\ cn_calls s' = cn_calls s /\ Forall between (cn_pcs s').
Proof.
  pose proof (reached_inv _ _ _ Hrun (idle_inv m db n Howned)) as Hinv. cbn [cn_state idle] in Hinv.
  assert (forall p, 0 <= busy p) as Hb by (intros p; unfold busy; case_decide; lia).
  remember (Z.to_nat (total busy (cn_pcs s))) as k eqn:Ek. clear Hrun.
  revert s Hinv Ek. induction k as [|k IH]; intros s Hinv Ek.
  - exists s. split_and!; [apply rtc_refl|done|]. apply Forall_lookup. intros i p Hi.
    pose proof (total_lookup busy _ _ _ Hb Hi) as Hp. unfold busy in Hp at 1. case_decide; [done|lia].
  - assert (0 < total busy (cn_pcs s)) as Ht by lia.
    destruct (total_positive busy _ Hb Ht) as (i & p & Hi & Hp).
    assert (~ between p) as Hnb by (unfold busy in Hp; case_decide; [lia|done]).
    destruct (someone_goes _ _ _ i p Hinv Hi Hnb) as (j & q & Hj & Hq & Hw).
    destruct (call_ends _ q Hw) as (sh & o & Hm). specialize (Hm j (cn_pcs s) (cn_calls s) Hj).
    pose proof (reached_inv (ds_log db) _ _ Hm Hinv) as Hinv'. cbn [cn_state cn_pcs] in Hinv'.
    destruct (IH {| cn_state := sh; cn_pcs := <[j := Returned o]> (cn_pcs s); cn_calls := cn_calls s |} Hinv')
      as (s' & Hr & Hc & Hall).
    + cbn [cn_pcs]. rewrite (total_update busy _ j q) by done. unfold busy at 2 3.
      rewrite decide_False, decide_True by done. lia.
    + exists s'. split_and!; [|done|done]. etrans; [|exact Hr]. by destruct s.
Qed.
End Conc.

Module Sample.
#[local] Existing Instance sample_tables.
#[local] Existing Instance sample_walk.
#[local] Existing Instance Db.Sample.sample_format.

(** A database server: whether it is up, the next pool, and the pools that were closed,
    from which database/sql hands out no connection. *)
Record Server := { sv_up : bool; sv_next : Z; sv_closed : list Z }.

Definition database_closed : error := Errorf "sql: database is closed".

#[local] Instance server : SqlDB Server := {|
  pool := Z; pool_eq_dec := Z.eq_dec; conn := Z;
  sql_Open := fun _ _ sv => (Ok (sv_next sv), {| sv_up := sv_up sv; sv_next := sv_next sv + 1; sv_closed := sv_closed sv |});
  pool_Set := fun _ _ sv => sv;
  pool_Ping := fun p sv => (if decide (p ∈ sv_closed sv) then Some database_closed
                            else if sv_up sv then None else Some Db.Sample.refused, sv);
  pool_Close := fun p sv => (None, {| sv_up := sv_up sv; sv_next := sv_next sv; sv_closed := p :: sv_closed sv |});
  pool_Exec := fun _ _ sv => (None, sv);
  pool_Stats := fun _ sv => ((1, 1)%Z, sv);
  pool_Conn := fun p sv => (if decide (p ∈ sv_closed sv) then Err database_closed
                            else if sv_up sv then Ok 5 else Err Db.Sample.refused, sv);
  conn_Exec := fun _ _ _ sv => (Ok 1, sv);
  conn_Query := fun _ _ _ sv => (Ok {| cur_Columns := Ok ["id"]; cur_Rows := [Ok [DInt64 7]]; cur_Err := None |}, sv);
  rows_Close := fun _ sv => sv;
  conn_Close := fun _ sv => sv;
  time_RFC3339 := fun _ => "2024-01-01T00:00:00Z";
|}.

(** A manager with one database, and the databases as [NewManager] leaves them. *)
Definition started := NewManager [Db.Sample.config "main" "mysql"]
  {| ds_world := {| sv_up := true; sv_next := 1; sv_closed := [] |}; ds_log := [] |}.
Definition manager : gmap string Driver := match started.1 with Some (Ok m) => m | _ => ∅ end.
Definition databases : Traced Server event := started.2.

Definition query : request :=
  RUse "main" (UQuery {| se_Isolation := ""; se_LockTimeoutMs := 0; se_DeadlockPriority := "" |}
    Db.Sample.select {["id" := AInt 7]} None).

Definition run (ts : list (nat * option request)) := foldl (turn pc_step enter between) (idle manager databases 2) ts.

(** Goroutine [i] makes a call and [n] steps. *)
Definition calls (i : nat) (q : request) (n : nat) : list (nat * option request) := (i, Some q) :: replicate n (i, None).
Definition steps (i n : nat) : list (nat * option request) := replicate n (i, None).

Definition said (p : pc) : string :=
  match p with
  | Returned (OQuery (Ok _)) => "rows"
  | Returned (OQuery (Err e)) => Error e
  | Returned (OReconnect None) => "reconnected"
  | Returned OPanic => "panic"
  | Returned _ => "other"
  | _ => "in a call"
  end.

Definition answers (ts : list (nat * option request)) : list string := said <$> cn_pcs (run ts).

(** The database is up.  A query between two reconnections gets its rows; so does one
    that comes while the pool is being replaced, and waits.  But one that has looked its
    driver up before reads [conn] while it is nil, and panics; and one that has read
    [conn] before asks a pool that has been closed. *)
Example query_meets_reconnection :
  answers (calls 0 (RReconnect "main") 8 ++ calls 1 query 12) = ["reconnected"; "rows"] /\
  answers (calls 0 (RReconnect "main") 4 ++ calls 1 query 12 ++ steps 0 4 ++ steps 1 12) = ["reconnected"; "rows"] /\
  answers (calls 1 query 1 ++ calls 0 (RReconnect "main") 5 ++ steps 1 12 ++ steps 0 8) = ["reconnected"; "panic"] /\
  answers (calls 1 query 2 ++ calls 0 (RReconnect "main") 8 ++ steps 1 12) =
    ["reconnected"; "failed to get connection: sql: database is closed"].
Proof. by vm_compute. Qed.

Lemma manager_owned : owned manager (ds_log databases).
Proof.
  intros p Hp. exists "main". destruct (decide (p = 1)) as [->|Hne].
  - vm_compute. by eexists.
  - exfalso. unfold is_open in Hp. replace (open_after p false (ds_log databases)) with false in Hp; [done|].
    unfold databases. vm_compute ds_log. cbn. by rewrite decide_False.
Qed.

Abbreviation steps_to := (rtc (conc_step pc_step enter between)).

Lemma run_reached ts : steps_to (idle manager databases 2) (run ts).
Proof. apply turn_steps. Qed.

Lemma db_call_alone_witness :
  gets pc_step (load manager databases, enter (RReconnect "main")) (atomic (RReconnect "main") (load manager databases)).
Proof.
  apply (db_call_alone (RReconnect "main")); [|reflexivity].
  intros name a (d & _ & Hd)%load_lookup. by exists d.
Defined.

(** A query that has read [conn] before the manager is closed ends after it. *)
Definition closed_under_query := run (calls 1 query 2 ++ calls 0 RClose 8 ++ steps 1 12).

Lemma concurrent_pools_witness :
  sh_mu (cn_state closed_under_query) = Readers 0 /\ (forall p, ~ open_now (cn_state closed_under_query) p).
Proof.
  destruct (concurrent_pools manager databases 2 closed_under_query manager_owned (run_reached _)) as (_ & _ & _ & Hrest).
  destruct Hrest as (Hmu & _ & _ & Hclosed).
  - vm_compute. repeat constructor.
  - split; [exact Hmu|]. apply Hclosed. by vm_compute.
Defined.

(** The query waits for the lock that the reconnection has. *)
Definition waiting := run (calls 0 (RReconnect "main") 4 ++ calls 1 query 2).

Lemma calls_can_end_witness :
  exists s', steps_to waiting s' /\ cn_calls s' = cn_calls waiting /\ Forall between (cn_pcs s').
Proof. exact (calls_can_end manager databases 2 waiting manager_owned (run_reached _)). Defined.
End Sample.
