(* ===== verification/Turns.v ===== *)
(** * Requests that take turns

    Executor, handler, middleware and jobs are computations on a world, whose operations
    they call one after the other.  Here such a computation runs beside others: at every
    call it finds the shared state as the others have left it.  A run is then described
    by the states its calls find, and gives the moves it makes, each from the state it
    finds to the state it leaves.  What a run does until its n-th call depends on the
    states found before, and on nothing else ([replay]); so a goroutine of which n moves
    have been made is run again on what they found to know the next one.  [Machine] is
    that for any number of goroutines. *)
From S2P Require Import Prelude GoStrings GoValues Numbers Patterns RateLimit WfConfig Params SqlParams Expr Compile Executor Handler Metrics Middleware Cron.

(** ** Threads *)

Section Thread.
Context {S : Type}.

(** The state that each call finds, the moves made so far, and what belongs to the
    goroutine alone: the accumulator in the context of its request. *)
Record Thread := { th_found : nat -> S; th_done : list (S * S); th_acc : RequestAccumulator }.

(** A call on the shared state. *)
Definition at_turn {A} (op : S -> A * S) (t : Thread) : A * Thread :=
  let s := th_found t (List.length (th_done t)) in
  let '(a, s') := op s in
  (a, {| th_found := th_found t; th_done := th_done t ++ [(s, s')]; th_acc := th_acc t |}).

(** One on the accumulator. *)
Definition at_home {A} (op : RequestAccumulator -> A * RequestAccumulator) (t : Thread) : A * Thread :=
  let '(a, acc) := op (th_acc t) in
  (a, {| th_found := th_found t; th_done := th_done t; th_acc := acc |}).

Definition starting (acc : RequestAccumulator) (found : nat -> S) : Thread :=
  {| th_found := found; th_done := []; th_acc := acc |}.
End Thread.
Arguments Thread : clear implicits.

(** The interfaces of the executor, the handler and the middleware, call by call. *)
Section Platforms.
Context `{UnicodeTables, TL : TemplateLang, EL : ExprLang} {S : Type} {P : Platform S} {SV : Services (H1 := P)} {RC : Recorder S}.

Definition turn_platform : Platform (Thread S) := {|
  gctx := gctx;
  ctx_WithTimeout := fun c d => at_turn (ctx_WithTimeout c d);
  ctx_Err := fun c => at_turn (ctx_Err c);
  ctx_Sleep := fun c d => at_turn (ctx_Sleep c d);
  time_Now := at_turn time_Now;
  tmpl_Execute := fun t data => at_turn (tmpl_Execute t data);
  vm_Run := fun p env => at_turn (vm_Run p env);
  db_ExecuteQuery := fun c db sql params opts => at_turn (db_ExecuteQuery c db sql params opts);
  http_NewRequest := http_NewRequest;
  http_Do := fun c req => at_turn (http_Do c req);
  body_Read := fun resp closed => at_turn (body_Read resp closed);
  url_ParseQuery := url_ParseQuery;
  resp_Write := fun b => at_turn (resp_Write b);
  step_cache := step_cache;
  cache_Get := fun wf key => at_turn (cache_Get wf key);
  cache_Set := fun wf key rows ttl => at_turn (cache_Set wf key rows ttl);
|}.

Definition turn_services : Services (H1 := turn_platform) := {|
  has_limiter := has_limiter;
  CheckTriggerLimits := fun limits rd => at_turn (CheckTriggerLimits limits rd);
  has_cache := has_cache;
  tcache_Get := fun wf key => at_turn (tcache_Get wf key);
  tcache_Set := fun wf key body code ttl => at_turn (tcache_Set wf key body code ttl);
  rand_Read := fun n => at_turn (rand_Read n);
  acc_Update := fun _ f => at_home (fun acc => (tt, f acc));
  json_string := json_string;
|}.

Definition turn_recorder (fresh : RequestAccumulator) : Recorder (Thread S) := {|
  acc_New := fun t => (at_home (fun _ => (tt, fresh)) t).2;
  acc_Read := th_acc;
  metrics_Record := fun rm t => (at_turn (fun s => (tt, metrics_Record rm s)) t).2;
|}.
End Platforms.

(** ** Predicates of runs *)

Section Pred.
Context {S : Type}.

Abbreviation XT := (M (St (W := Thread S))).

(** What touches the response writer only; what is done with it at the end, by the
    value or the panic and the writer at the start. *)
Definition own {A} (f : option RespWriter -> option A * option RespWriter) : XT A := fun s =>
  ((f (st_rw s)).1, {| st_world := st_world s; st_rw := (f (st_rw s)).2 |}).

Definition after {A B} (x : XT A) (g : option RespWriter -> option A -> option RespWriter -> option B * option RespWriter) : XT B :=
  fun s => let '(a, s') := x s in
    ((g (st_rw s) a (st_rw s')).1, {| st_world := st_world s'; st_rw := (g (st_rw s) a (st_rw s')).2 |}).

(** A predicate that holds of a computation if it holds of its calls, those on the
    shared state being [ok]. *)
Class TurnPred (ok : forall A, (S -> A * S) -> Prop) (Q : forall A, XT A -> Prop) := {
  tp_ext : forall A (x y : XT A), (forall s, y s = x s) -> Q A x -> Q A y;
  tp_own : forall A f, Q A (own f);
  tp_turn : forall A op, ok A op -> Q A (call (at_turn op));
  tp_home : forall A op, Q A (call (at_home op));
  tp_bind : forall A B (x : XT A) (f : A -> XT B), Q A x -> (forall a, Q B (f a)) -> Q B (bind x f);
  tp_after : forall A B (x : XT A) g, Q A x -> Q B (after x g);
}.

(** *** What the moves do *)

(** The run makes moves of [R] only. *)
Definition makes (R : S * S -> Prop) (A : Type) (x : XT A) : Prop := forall s,
  th_found (st_world (x s).2) = th_found (st_world s) /\
  exists ms, th_done (st_world (x s).2) = th_done (st_world s) ++ ms /\ Forall R ms.

#[export] Instance makes_pred R : TurnPred (fun A op => forall l, R (l, (op l).2)) (makes R).
Proof.
  constructor.
  - intros A x y E Hx s. rewrite E. apply Hx.
  - intros A f s. split; [done|]. exists []. by rewrite app_nil_r.
  - intros A op Hop s. unfold call, lift, at_turn. specialize (Hop (th_found (st_world s) (List.length (th_done (st_world s))))).
    destruct (op _) as [a l]. cbn in *. split; [done|]. eexists. split; [done|]. by constructor.
  - intros A op s. unfold call, lift, at_home. destruct (op _) as [a acc]. cbn. split; [done|]. exists []. by rewrite app_nil_r.
  - intros A B x f Hx Hf s. unfold bind. destruct (Hx s) as (Hfd & ms & E & Hms).
    destruct (x s) as [[a|] s1]; cbn in *; [|by split; [|exists ms]].
    destruct (Hf a s1) as (Hfd' & ms' & E' & Hms'). split; [congruence|].
    exists (ms ++ ms'). split; [by rewrite E', E, (assoc_L (++))|by apply Forall_app].
  - intros A B x g Hx s. unfold after. specialize (Hx s). by destruct (x s) as [a s'].
Qed.

Lemma makes_weaken (R R' : S * S -> Prop) A (x : XT A) : (forall m, R m -> R' m) -> makes R A x -> makes R' A x.
Proof.
  intros HR Hx s. destruct (Hx s) as (Hf & ms & E & Hms). split; [done|]. exists ms. split; [done|].
  by eapply Forall_impl.
Qed.

(** *** What the moves depend on *)

(** The move at [k] starts where the [k]-th call found the state. *)
Definition from_found (found : nat -> S) (ms : list (S * S)) : Prop := forall k m, ms !! k = Some m -> m.1 = found k.

(** Two threads that have done the same and will find the same in the calls before the
    [n]-th. *)
Definition alike (n : nat) (s s' : St (W := Thread S)) : Prop :=
  (forall k, (k < n)%nat -> th_found (st_world s') k = th_found (st_world s) k) /\
  th_done (st_world s') = th_done (st_world s) /\ th_acc (st_world s') = th_acc (st_world s) /\
  st_rw s' = st_rw s /\ (List.length (th_done (st_world s)) <= n)%nat.

(** Both have gone further than [n] calls, and up to there the same way. *)
Definition parted (n : nat) (s s' : St (W := Thread S)) : Prop :=
  (n < List.length (th_done (st_world s)))%nat /\ (n < List.length (th_done (st_world s')))%nat /\
  take n (th_done (st_world s')) = take n (th_done (st_world s)).

Definition replays (A : Type) (x : XT A) : Prop :=
  makes (fun _ => True) A x /\
  (forall s, from_found (th_found (st_world s)) (th_done (st_world s)) ->
     from_found (th_found (st_world s)) (th_done (st_world (x s).2))) /\
  forall n s s', alike n s s' ->
    (x s').1 = (x s).1 /\ alike n (x s).2 (x s').2 \/ parted n (x s).2 (x s').2.

Lemma parted_on {A B} (x : XT A) (y : XT B) n s s' : makes (fun _ => True) A x -> makes (fun _ => True) B y ->
  parted n s s' -> parted n (x s).2 (y s').2.
Proof.
  intros Hx Hy (H1 & H2 & H3). destruct (Hx s) as (_ & ms & E & _), (Hy s') as (_ & ms' & E' & _).
  unfold parted. rewrite E, E', !length_app, !take_app_le by lia. split_and!; [lia|lia|done].
Qed.

Lemma from_found_snoc found ms m : from_found found ms -> m.1 = found (List.length ms) -> from_found found (ms ++ [m]).
Proof.
  intros Hf Hm k m' [Hk|[Hge Hk]]%lookup_app_Some; [by apply Hf|].
  apply list_lookup_singleton_Some in Hk as [Hz <-]. by replace k with (List.length ms) by lia.
Qed.

#[export] Instance replays_pred : TurnPred (fun _ _ => True) replays.
Proof.
  assert (forall A op, makes (fun _ => True) A (call (at_turn op))) as Hturn by (intros; by apply (tp_turn (Q := makes _))).
  constructor.
  - intros A x y E (Hm & Hf & Hr). split_and!; [by eapply tp_ext|intros s; rewrite E; apply Hf|].
    intros n s s' Hs. rewrite !E. by apply Hr.
  - intros A f. split_and!; [apply tp_own|by intros s|]. intros n s s' (? & ? & ? & Hrw & ?). left. unfold own. cbn.
    rewrite Hrw. split; [done|]. by split_and!.
  - intros A op _. split_and!; [apply Hturn| |].
    + intros s Hs. unfold call, lift, at_turn. destruct (op _) as [a l]. cbn. by apply from_found_snoc.
    + intros n s s' (Hfd & Hd & Ha & Hrw & Hl). unfold call, lift, at_turn. rewrite Hd.
      destruct (decide (List.length (th_done (st_world s)) < n)%nat) as [Hlt|Hge].
      * left. rewrite Hfd by done. destruct (op _) as [a l]. cbn. split; [done|]. split_and!; cbn; try done; try congruence.
        rewrite length_app. cbn. lia.
      * right. destruct (op (th_found (st_world s) _)) as [a l], (op (th_found (st_world s') _)) as [a' l']. unfold parted. cbn.
        rewrite ?Hd, !length_app, !take_app_le by lia. split_and!; [cbn; lia..|done].
  - intros A op. split_and!; [apply tp_home| |].
    + intros s Hs. unfold call, lift, at_home. by destruct (op _).
    + intros n s s' (? & ? & Ha & ? & ?). left. unfold call, lift, at_home. rewrite Ha.
      destruct (op _) as [a acc]. cbn. split; [done|]. by split_and!.
  - intros A B x f Hx Hf. split_and!; [apply tp_bind; [apply Hx|intros; apply Hf]| |].
    + intros s Hs. unfold bind. pose proof (proj1 (proj2 Hx) s Hs) as H1. pose proof (proj1 (proj1 Hx s)) as Ht.
      destruct (x s) as [[a|] s1]; cbn in *; [|done]. rewrite <- Ht. rewrite <- Ht in H1.
      by apply (proj1 (proj2 (Hf a)) s1).
    + intros n s s' Hs. unfold bind. pose proof (proj2 (proj2 Hx) n s s' Hs) as H1.
      destruct (x s) as [o s1] eqn:E1, (x s') as [o' s1'] eqn:E2. cbn in H1. destruct H1 as [[-> H1]|H1].
      * destruct o as [a|]; [|by left]. by apply (Hf a).
      * right. assert (forall o, makes (fun _ => True) B (fun s => match o with Some a => f a s | None => (None, s) end)) as Hm.
        { intros [a|]; [apply Hf|]. intros s2. split; [done|]. exists []. by rewrite app_nil_r. }
        pose proof (parted_on _ _ n s1 s1' (Hm o) (Hm o') H1) as Hp. by destruct o, o'.
  - intros A B x g Hx. split_and!; [apply tp_after, Hx| |].
    + intros s Hs. unfold after. pose proof (proj1 (proj2 Hx) s Hs). by destruct (x s).
    + intros n s s' Hs. unfold after. pose proof (proj2 (proj2 Hx) n s s' Hs) as H1. pose proof (proj1 (proj2 (proj2 (proj2 Hs)))) as Hrw.
      destruct (x s) as [o s1], (x s') as [o' s1']. cbn in H1. destruct H1 as [[-> H1]|H1]; [left|by right].
      rewrite Hrw, (proj1 (proj2 (proj2 (proj2 H1)))). split; [done|]. destruct H1 as (? & ? & ? & ? & ?). by split_and!.
Qed.
End Pred.

(** ** The code *)

Section Code.
Context `{UnicodeTables, TL : TemplateLang, EL : ExprLang, MapWalk, ExprFuncs, FloatText, FloatToInt, GoText}.
Context {S : Type} {P : Platform S} {SV : Services (H1 := P)} {RC : Recorder S} (fresh : RequestAccumulator).

Abbreviation XT := (M (St (W := Thread S))).

#[local] Instance code_platform : Platform (Thread S) := turn_platform.
#[local] Instance code_services : Services := turn_services.
#[local] Instance code_recorder : Recorder (Thread S) := turn_recorder fresh.

Lemma quiet_turn A (op : Thread S -> A * Thread S) : quiet (P := code_platform) A op ->
  exists op0, quiet (P := P) A op0 /\ op = at_turn op0.
Proof.
  destruct 1; eexists; (split; [|reflexivity]).
  - exact (Executor.quiet_timeout (P := P) ctx d).
  - exact (Executor.quiet_err (P := P) ctx).
  - exact (Executor.quiet_sleep (P := P) ctx d).
  - exact (Executor.quiet_now (P := P)).
  - exact (Executor.quiet_template (P := P) t data).
  - exact (Executor.quiet_expr (P := P) prog env).
  - exact (Executor.quiet_http (P := P) ctx req).
  - exact (Executor.quiet_body (P := P) resp closed).
  - exact (Executor.quiet_get (P := P) wf key).
  - exact (Executor.quiet_set (P := P) wf key rows ttl).
Qed.

Lemma service_turn A (op : Thread S -> A * Thread S) : service (SV := code_services) A op ->
  (exists op0, service (SV := SV) A op0 /\ op = at_turn op0) \/ exists op0, op = at_home op0.
Proof.
  destruct 1; [left; eexists; (split; [|reflexivity])..|].
  - exact (Handler.service_limits (SV := SV) limits rd).
  - exact (Handler.service_get (SV := SV) wf key).
  - exact (Handler.service_set (SV := SV) wf key body code ttl).
  - exact (Handler.service_rand (SV := SV) n).
  - right. by exists (fun acc => (tt, f acc)).
Qed.

Section Ok.
Context (ok : forall A, (S -> A * S) -> Prop) (Q : forall A, XT A -> Prop) `{!TurnPred ok Q}.
Context (ok_quiet : forall A op, quiet (P := P) A op -> ok A op) (ok_write : forall b, ok _ (resp_Write (Platform := P) b)).

#[local] Instance turn_world : WorldPred (P := code_platform) Q.
Proof.
  constructor.
  - intros A a. eapply tp_ext; [|apply (tp_own A (fun w => (Some a, w)))]. by intros [].
  - intros A B x f. apply tp_bind.
  - intros A op (op0 & Hop & ->)%quiet_turn. by apply tp_turn, ok_quiet.
Qed.

Lemma own_ret {A} (a : A) : Q A (ret a).
Proof. apply wp_ret. Qed.

(** A call that can panic ends the goroutine's run if it does. *)
Lemma risky_turn {A} (op : S -> option A * S) : ok _ op -> Q A (risky_call (at_turn op)).
Proof.
  intros Hop. eapply (tp_ext _ (let* o := call (at_turn op) in own (fun w => (o, w)))).
  - intros [t w]. unfold risky_call, bind, call, lift, own. cbn. by destruct (at_turn op t).
  - apply tp_bind; [by apply tp_turn|]. intros o. apply tp_own.
Qed.

Lemma on_rw_turn f : Q _ (on_rw f).
Proof. eapply tp_ext; [|apply (tp_own unit (fun w => (Some tt, f <$> w)))]. done. Qed.

Lemma send_status_turn code : Q _ (send_status code).
Proof.
  eapply tp_ext; [|apply (tp_own unit (fun w => match w with
    | None => (Some tt, w)
    | Some w' => match rw_WriteHeader code w' with None => (None, w) | Some w' => (Some tt, Some w') end end))].
  intros [t w]. unfold send_status, own. cbn. destruct w as [w|]; [|done]. by destruct (rw_WriteHeader code w).
Qed.

Lemma send_body_turn b : Q _ (send_body b).
Proof.
  eapply (tp_ext _ (let* o := own (fun w => match w with
      | None => (Some None, None)
      | Some w => (Some (Some (rw_Write b w).1), Some (rw_Write b w).2) end) in
    match o with
    | None => ret None
    | Some e => let* e' := call (resp_Write (Platform := code_platform) b) in ret (match e with Some e => Some e | None => e' end)
    end)).
  - intros [t w]. unfold send_body, bind, own, call, lift. cbn. destruct w as [w|]; [|done]. destruct (rw_Write b w) as [e w'].
    cbn. by destruct (at_turn (resp_Write (Platform := P) b) t).
  - apply tp_bind; [apply tp_own|]. intros [e|]; [|apply own_ret]. apply tp_bind; [by apply tp_turn|intros; apply own_ret].
Qed.

Lemma has_rw_turn : Q _ has_rw.
Proof. eapply tp_ext; [|apply (tp_own bool (fun w => (Some (match w with Some _ => true | None => false end), w)))]. by intros []. Qed.

Lemma get_capture_turn : Q _ get_capture.
Proof. eapply tp_ext; [|apply (tp_own _ (fun w => (Some (w ≫= rw_capture), w)))]. by intros [t []]. Qed.

Lemma deref_turn t : Q _ (deref_template t).
Proof. eapply tp_ext; [|apply (tp_own _ (fun w => (t, w)))]. by intros []; destruct t. Qed.

(** A step whose query steps are fine. *)
Definition fine_step (cs : CompiledStep) : Prop :=
  StepType (cs_Config cs) = "query" -> forall ctx data, Q _ (executeQueryStep (P := code_platform) ctx cs data).

Lemma fine_step_pred top : fine_step top -> Forall fine_step (cs_BlockSteps top) -> step_pred (P := code_platform) Q top.
Proof.
  intros Ht Hb. split_and!.
  - split; [apply Ht|intros; apply deref_turn].
  - intros _. split; [apply deref_turn|apply send_status_turn].
  - eapply Forall_impl; [exact Hb|]. intros cs Hcs. split; [apply Hcs|intros; apply deref_turn].
Qed.

Context (wf : CompiledWorkflow) (Hwf : Forall (fun top => fine_step top /\ Forall fine_step (cs_BlockSteps top)) (cw_Steps wf)).

Lemma steps_turn : Forall (fun cs => sc_Disabled (cs_Config cs) = false -> step_pred (P := code_platform) Q cs) (cw_Steps wf).
Proof. eapply Forall_impl; [exact Hwf|]. intros cs [? ?] _. by apply fine_step_pred. Qed.

Lemma Execute_turn ctx trigger requestID variables : Q _ (Execute (P := code_platform) ctx wf trigger requestID variables).
Proof.
  apply Execute_pred; [apply _|..|apply steps_turn]; intros; [apply on_rw_turn|apply send_body_turn|apply has_rw_turn].
Qed.

Context (ok_service : forall A op, service (SV := SV) A op -> ok A op).

Lemma service_ok A (op : Thread S -> A * Thread S) : service (SV := code_services) A op -> Q _ (call op).
Proof. intros [(op0 & Hop & ->)|[op0 ->]]%service_turn; [by apply tp_turn, ok_service|apply tp_home]. Qed.

Lemma ServeHTTP_turn h ctx r : hh_workflow h = wf -> Q _ (ServeHTTP (SV := code_services) h ctx r).
Proof.
  intros Hh. apply ServeHTTP_pred; [apply _|..|rewrite Hh; apply steps_turn|]; intros;
    [apply on_rw_turn|apply send_status_turn|apply send_body_turn|apply has_rw_turn|apply get_capture_turn
    |by apply service_ok|apply on_rw_turn].
Qed.

(** *** Around the handler *)

Lemma recovery_turn (x : XT unit) : Q _ x -> Q _ (recoveryMiddleware x).
Proof.
  intros Hx. eapply (tp_ext _ (after x (fun _ o w => (Some tt, match o with Some _ => w | None => answer_panic <$> w end)))).
  - intros s. unfold recoveryMiddleware, after. destruct (x s) as [[a|] [t w]]; done.
  - by apply tp_after.
Qed.

Lemma gzip_turn `{Gzip} r (x : XT unit) : Q _ x -> Q _ (gzipMiddleware r x).
Proof.
  intros Hx. unfold gzipMiddleware. destruct (negb _); [done|].
  eapply (tp_ext _ (let* _ := on_rw gzip_headers in
    after x (fun w0 o w => (o, gzip_close (from_option rw_body "" w0) <$> w)))).
  - intros [t w]. unfold bind, on_rw, lift, after, with_rw. cbn. by destruct (x _) as [a [t' w']].
  - apply tp_bind; [apply on_rw_turn|]. intros _. by apply tp_after.
Qed.

Lemma chain_turn `{Gzip} r (x : HttpRequest -> XT unit) : (forall r, Q _ (x r)) -> Q _ (chain r x).
Proof. intros Hx. apply recovery_turn, gzip_turn, Hx. Qed.

(** What [metricsMiddleware] does before it records the request. *)
Definition before_record (next : XT unit) : XT (Z * RequestAccumulator * option RespWriter) :=
  let* start := call time_Now in
  let* _ := call (fun w => (tt, acc_New w)) in
  let* _ := on_rw (fun w => record_status w 0) in
  let* _ := next in
  let* now := call time_Now in
  let* acc := call (at_home (fun acc => (acc, acc))) in
  let* w := own (fun w => (Some w, w)) in
  ret (time_Sub now start, acc, w).

Definition the_record (name method : string) (x : Z * RequestAccumulator * option RespWriter) : RequestMetrics :=
  request_metrics name method x.1.2 x.1.1 (from_option rw_recorded 0 x.2)
    (from_option (fun w => header_Get (rw_header w) "X-Cache") "" x.2).

Lemma before_record_turn next : Q _ next -> Q _ (before_record next).
Proof.
  intros Hn. unfold before_record. apply tp_bind; [apply wp_call, Executor.quiet_now|]. intros start.
  apply tp_bind; [|intros _; apply tp_bind; [apply on_rw_turn|intros _]].
  { eapply tp_ext; [|apply (tp_home _ (fun _ => (tt, fresh)))]. done. }
  apply tp_bind; [done|]. intros _. apply tp_bind; [apply wp_call, Executor.quiet_now|]. intros now.
  apply tp_bind; [apply tp_home|]. intros acc. apply tp_bind; [apply tp_own|]. intros w. apply own_ret.
Qed.

(** The record is the last call. *)
Lemma metrics_splits name method (next : XT unit) s : metricsMiddleware name method next s =
  bind (before_record next) (fun x => call (at_turn (fun l => (tt, metrics_Record (the_record name method x) l)))) s.
Proof.
  unfold metricsMiddleware, before_record, bind.
  destruct (call time_Now s) as [[start|] s1]; [|done].
  destruct (call (fun w : Thread S => (tt, acc_New w)) s1) as [[[]|] s2]; [|done].
  destruct (on_rw (fun w => record_status w 0) s2) as [[[]|] s3]; [|done].
  destruct (next s3) as [[[]|] s4]; [|done]. destruct (call time_Now s4) as [[now|] [t w]]; done.
Qed.

Lemma metrics_turn name method next : (forall rm, ok _ (fun l => (tt, metrics_Record (Recorder := RC) rm l))) ->
  Q _ next -> Q _ (metricsMiddleware name method next).
Proof.
  intros Hr Hn. eapply tp_ext; [intros s; apply metrics_splits|].
  apply tp_bind; [by apply before_record_turn|]. intros x. by apply tp_turn.
Qed.

(** *** Jobs *)

Context `{LocalTime}.

Lemma resolve_params_turn l params : Q _ (resolve_params l params).
Proof.
  revert params. induction l as [|[k v] l IH]; intros params; [apply own_ret|]. apply tp_bind; [|intros; apply IH].
  apply tp_bind; [apply wp_call, Executor.quiet_now|intros; apply own_ret].
Qed.

Lemma job_turn ctx t variables counter : Q _ (executeWorkflowCron (SV := code_services) ctx wf t variables counter None).
Proof.
  unfold executeWorkflowCron. apply tp_bind.
  - apply tp_bind; [apply service_ok; constructor|]. intros [b|]; [apply own_ret|].
    apply tp_bind; [apply wp_call, Executor.quiet_now|intros; apply own_ret].
  - intros [id n]. eapply (tp_ext _ (after (run_cron ctx wf t variables id) (fun _ o w =>
      (Some (match o with Some e => (e, n, None) | None => (CronPanic, n, RecordCronPanic None (wc_Name (cw_Config wf))) end), w)))).
    + intros s. unfold after. cbn [fst snd]. by destruct (run_cron ctx wf t variables id s) as [[e|] [t' w]].
    + apply tp_after. apply tp_bind; [apply wp_call, Executor.quiet_now|]. intros now.
      apply tp_bind; [apply resolve_params_turn|]. intros params.
      apply tp_bind; [case_decide; [apply wp_call, Executor.quiet_timeout|apply own_ret]|]. intros c.
      apply tp_bind; [apply Execute_turn|]. intros r. apply own_ret.
Qed.
End Ok.
End Code.

(** ** Machine

    Goroutines beside each other; [moves g found] are the moves of [g] when its calls
    find these states. *)

Section Machine.
Context {S G : Type} (moves : G -> (nat -> S) -> list (S * S)) (admitted : G -> Prop) (other : S -> S -> Prop).
Context (moves_found : forall g ss, from_found ss (moves g ss)).
Context (moves_replay : forall g ss ss' n, (forall k, (k < n)%nat -> ss' k = ss k) ->
  moves g ss' = moves g ss /\ (List.length (moves g ss) <= n)%nat \/
  (n < List.length (moves g ss))%nat /\ (n < List.length (moves g ss'))%nat /\ take n (moves g ss') = take n (moves g ss)).

(** The shared state, and the goroutines with the moves each has made. *)
Record par := { pa_state : S; pa_threads : list (G * list (S * S)) }.

(** What the calls of a goroutine have found, and the state for the next one. *)
Definition found_by (tr : list (S * S)) (now : S) (k : nat) : S := default now (tr.*1 !! k).

(** The next move of a goroutine that finds the state [now]; none at its end. *)
Definition next_move (g : G) (tr : list (S * S)) (now : S) : option (S * S) := moves g (found_by tr now) !! List.length tr.

Inductive par_step : par -> par -> Prop :=
| par_start p g : admitted g -> par_step p {| pa_state := pa_state p; pa_threads := pa_threads p ++ [(g, [])] |}
| par_move p i g tr m :
    pa_threads p !! i = Some (g, tr) -> next_move g tr (pa_state p) = Some m ->
    par_step p {| pa_state := m.2; pa_threads := <[i := (g, tr ++ [m])]> (pa_threads p) |}
| par_other p s : other (pa_state p) s -> par_step p {| pa_state := s; pa_threads := pa_threads p |}.

Definition idle_par (s : S) : par := {| pa_state := s; pa_threads := [] |}.

(** A goroutine is where its code gets with what it has found. *)
Definition thread_ok (x : G * list (S * S)) : Prop := admitted x.1 /\
  forall ss, (forall k m, x.2 !! k = Some m -> ss k = m.1) -> take (List.length x.2) (moves x.1 ss) = x.2.

Definition ended (x : G * list (S * S)) : Prop := forall now, next_move x.1 x.2 now = None.

Lemma found_by_past tr now k m : tr !! k = Some m -> found_by tr now k = m.1.
Proof. intros Hk. unfold found_by. by rewrite list_lookup_fmap, Hk. Qed.

Lemma found_by_now tr now : found_by tr now (List.length tr) = now.
Proof. unfold found_by. by rewrite lookup_ge_None_2 by (by rewrite length_fmap). Qed.

Lemma next_move_found g tr now m : next_move g tr now = Some m -> m.1 = now.
Proof. intros Hm%moves_found. by rewrite Hm, found_by_now. Qed.

(** Moves found in the past are the same again. *)
Lemma thread_prefix g tr ss : thread_ok (g, tr) -> (forall k m, tr !! k = Some m -> ss k = m.1) ->
  exists rest, moves g ss = tr ++ rest.
Proof. intros [_ Hok] Hss. exists (drop (List.length tr) (moves g ss)). rewrite <- (Hok ss Hss) at 1. by rewrite take_drop. Qed.

Lemma thread_moves g tr now m : thread_ok (g, tr) -> next_move g tr now = Some m -> thread_ok (g, tr ++ [m]).
Proof.
  intros Hok Hm. split; [apply Hok|]. cbn [fst snd]. intros ss Hss. pose proof (next_move_found _ _ _ _ Hm) as Hnow.
  destruct (thread_prefix g tr (found_by tr now) Hok) as [rest Hrest]; [intros; by apply found_by_past|].
  assert (forall k, (k < Datatypes.S (List.length tr))%nat -> ss k = found_by tr now k) as Hag.
  { intros k Hk. destruct (decide (k = List.length tr)) as [->|].
    - rewrite found_by_now, <- Hnow. apply Hss. by rewrite lookup_app_r, Nat.sub_diag.
    - destruct (lookup_lt_is_Some_2 tr k) as [m' Hm']; [lia|]. rewrite (found_by_past _ _ _ _ Hm').
      apply Hss. by apply lookup_app_l_Some. }
  unfold next_move in Hm. rewrite Hrest, lookup_app_r, Nat.sub_diag in Hm by done. destruct rest as [|m' rest]; [done|].
  injection Hm as ->.
  assert (take (Datatypes.S (List.length tr)) (moves g ss) = take (Datatypes.S (List.length tr)) (moves g (found_by tr now))) as E.
  { destruct (moves_replay g _ _ _ Hag) as [[-> _]|(_ & _ & ?)]; done. }
  rewrite length_app. cbn. rewrite Nat.add_1_r, E, Hrest. rewrite (cons_middle m tr rest), (assoc_L (++)).
  rewrite take_app_length' by (rewrite length_app; cbn; lia). done.
Qed.

Definition par_ok (p : par) : Prop := Forall thread_ok (pa_threads p).

Lemma step_ok p p' : par_step p p' -> par_ok p -> par_ok p'.
Proof.
  intros Hs Hp. destruct Hs as [p g Ha|p i g tr m Hi Hm|p s _]; unfold par_ok in *; cbn; [| |done].
  - apply Forall_app. split; [done|]. constructor; [|done]. by split.
  - apply Forall_insert; [done|]. eapply thread_moves; [|exact Hm]. by apply (Forall_lookup_1 _ _ _ _ Hp Hi).
Qed.

Lemma reached_ok s p : rtc par_step (idle_par s) p -> par_ok p.
Proof.
  assert (forall p p', rtc par_step p p' -> par_ok p -> par_ok p') as Hr by (induction 1; eauto using step_ok).
  intros Hp%Hr. apply Hp. constructor.
Qed.

(** Whether a goroutine has ended does not depend on the others. *)
Lemma ended_now g tr now : next_move g tr now = None -> ended (g, tr).
Proof.
  intros Hn now'. cbn. unfold next_move in *.
  destruct (moves_replay g (found_by tr now) (found_by tr now') (List.length tr)) as [[-> _]|(Hlt & _)]; [|done|].
  - intros k Hk. destruct (lookup_lt_is_Some_2 tr k Hk) as [m Hm]. by rewrite !(found_by_past _ _ _ _ Hm).
  - apply lookup_ge_None in Hn. lia.
Qed.

Lemma ended_whole g tr ss : thread_ok (g, tr) -> ended (g, tr) -> (forall k m, tr !! k = Some m -> ss k = m.1) ->
  moves g ss = tr.
Proof.
  intros Hok He Hss. destruct (thread_prefix g tr ss Hok Hss) as [rest Hr].
  destruct (moves_replay g ss (found_by tr (ss 0%nat)) (List.length tr)) as [[E Hl]|(_ & Hlt & _)].
  - intros k Hk. destruct (lookup_lt_is_Some_2 tr k Hk) as [m Hm]. rewrite (found_by_past _ _ _ _ Hm). symmetry. by apply Hss.
  - rewrite Hr in Hl |- *. rewrite length_app in Hl. destruct rest; [by rewrite app_nil_r|cbn in Hl; lia].
  - specialize (He (ss 0%nat)). unfold next_move in He. cbn in He. apply lookup_ge_None in He. lia.
Qed.

(** *** Schedules *)

(** The next turn of a goroutine. *)
Definition par_turn (p : par) (i : nat) : par :=
  match pa_threads p !! i with
  | Some (g, tr) => match next_move g tr (pa_state p) with
                    | Some m => {| pa_state := m.2; pa_threads := <[i := (g, tr ++ [m])]> (pa_threads p) |}
                    | None => p
                    end
  | None => p
  end.

Lemma par_turns p is_ : rtc par_step p (foldl par_turn p is_).
Proof.
  revert p. induction is_ as [|i is_ IH]; intros p; [apply rtc_refl|]. cbn [foldl]. etrans; [|apply IH].
  unfold par_turn. destruct (pa_threads p !! i) as [[g tr]|] eqn:Ei; [|apply rtc_refl].
  destruct (next_move g tr (pa_state p)) as [m|] eqn:Em; [|apply rtc_refl]. apply rtc_once. by eapply par_move.
Qed.
End Machine.
