(* ===== verification/Parallel.v ===== *)
(** * The running server under concurrent requests

    [Live] serves requests and jobs one after the other; net/http and the scheduler run
    each in a goroutine of its own.  Here any number of them run beside each other on the
    state that they share, as [Turns] says: each call of an adapter, of the limiter, of
    the collector or of the outside is one turn.  Each request has a writer and an
    accumulator of its own.  What else happens meanwhile is a change of the state that
    counts no request: resets of the cache and of the limiter by the administration
    endpoints, pings and gauges of the health checker, and its reconnections, after
    which the drivers of the manager have other pools or none. *)
From S2P Require Import Prelude GoStrings Patterns GoValues Trace Numbers PublicID SqlUtil Cache RateLimit WfConfig SqlParams Expr Compile Executor Handler WfValidate DbText Db Pools Metrics Health Adapters TmplEngine ConfigLoad CfgValidate Mux Logging ServerInit Middleware Openapi Admin Cron Live Counted Goroutines Turns.

Section Parallel.
Context `{UnicodeTables, TL : TemplateLang, EL : ExprLang, MapWalk, Schedules, Hmac, TextTemplate, FloatToInt}.
Context `{TokenBucket, UrlText, LogFiles, GoText, ExprFuncs, FloatText, Gzip, LocalTime}.
Context `{!Cache.JsonSize any, !Cache.AgeOrder, R : !Cache.Ristretto (option (Cache.Entry any)), !KeyEngine TmplContext}.
Context {WD : Type} {DB : SqlDB WD} `{MySQLFormat} {WO : Type} {OUT : Outside WO}.
Context (server : Server (W := WD)).

Abbreviation LiveS := (Live (WD := WD) (WO := WO)).
Abbreviation XT := (M (St (W := Thread LiveS))).

(** ** Goroutines *)

Definition base_platform : Platform LiveS := live_platform.
Definition base_services : Services (H1 := base_platform) :=
  live_services (se_ctxBuilder server) (is_made (se_rateLimiter server)) (is_made (se_cache server)).

#[local] Instance par_platform : Platform (Thread LiveS) := turn_platform (P := base_platform).
#[local] Instance par_services : Services := turn_services (SV := base_services).
#[local] Instance par_recorder : Recorder (Thread LiveS) := turn_recorder (RC := live_recorder) empty_acc.

(** The request of a connection, with its writer; a run of a job. *)
Inductive goroutine :=
| GRequest (h : HTTPHandler) (ctx : o_gctx) (r : HttpRequest) (w : RespWriter)
| GJob (wf : CompiledWorkflow) (t : CompiledTrigger) (ctx : o_gctx) (variables : option (gmap string string)) (counter : Z).

(** A workflow route, as in [Live.serve_route]. *)
Definition par_route (h : HTTPHandler) (ctx : o_gctx) (r : HttpRequest) : XT unit :=
  metricsMiddleware (wc_Name (cw_Config (hh_workflow h))) (tc_Method (ct_Config (hh_trigger h))) (ServeHTTP h ctx r).

(** A job, as in [Live.run_job]. *)
Definition par_job (wf : CompiledWorkflow) (t : CompiledTrigger) (ctx : o_gctx) (variables : option (gmap string string))
    (counter : Z) : XT unit :=
  let* r := executeWorkflowCron ctx wf t variables counter None in
  match r with
  | (CronPanic, _, _) =>
    call (at_turn (fun l : LiveS => (tt, with_store l (lv_cache l) (RecordCronPanic (lv_metrics l) (wc_Name (cw_Config wf))))))
  | _ => ret tt
  end.

Definition par_code (g : goroutine) : XT unit :=
  match g with
  | GRequest h ctx r _ => chain r (par_route h ctx)
  | GJob wf t ctx variables counter => par_job wf t ctx variables counter
  end.

Definition writer_of (g : goroutine) : option RespWriter := match g with GRequest _ _ _ w => Some w | GJob _ _ _ _ _ => None end.

Definition started_with (g : goroutine) (ss : nat -> LiveS) : St (W := Thread LiveS) :=
  {| st_world := starting empty_acc ss; st_rw := writer_of g |}.

(** What a goroutine does if its calls find these states; the writer it leaves; and
    whether the handler of a request returns, so that it is not the recovery that
    answers. *)
Definition par_moves (g : goroutine) (ss : nat -> LiveS) : list (LiveS * LiveS) :=
  th_done (st_world (par_code g (started_with g ss)).2).

Definition written (g : goroutine) (ss : nat -> LiveS) : option RespWriter := st_rw (par_code g (started_with g ss)).2.

Definition par_returned (g : goroutine) (ss : nat -> LiveS) : bool :=
  match g with
  | GRequest h ctx r _ => is_made (gzipMiddleware (limited r) (par_route h ctx (limited r)) (started_with g ss)).1
  | GJob _ _ _ _ _ => false
  end.

(** Requests come for the workflow routes of the mux, jobs from the scheduler. *)
Definition par_admitted (g : goroutine) : Prop :=
  match g with
  | GRequest h ctx r w => exists p name method, mux_Handler (se_mux server) (hq_Method r) (hq_Path r) = Some (p, RWorkflow name method h)
  | GJob wf t _ _ _ => exists jobs, se_cron server = Some jobs /\ (wf, t) ∈ jobs
  end.

(** What happens beside them: something that sends no statement, or a reconnection. *)
Definition quiet_event (ev : event (W := WD)) : Prop := statement_of ev = None /\ forall p q e, ev <> EPoolExec p q e.

Inductive beside (l l' : LiveS) : Prop :=
| beside_quiet t :
    ds_log (lv_db l') = ds_log (lv_db l) ++ t -> Forall quiet_event t -> lv_mgr l' = lv_mgr l ->
    tally (lv_metrics l') = tally (lv_metrics l) -> beside l l'
| beside_reconnect name e :
    Manager_Reconnect (lv_mgr l) name (lv_db l) = (Some (e, lv_mgr l'), lv_db l') ->
    tally (lv_metrics l') = tally (lv_metrics l) -> beside l l'.

Lemma beside_tally l l' : beside l l' -> tally (lv_metrics l') = tally (lv_metrics l).
Proof. by destruct 1. Qed.

(** *** Any predicate of calls *)

Section Ok.
Context (ok : forall A, (LiveS -> A * LiveS) -> Prop) (Q : forall A, XT A -> Prop) `{!TurnPred ok Q}.
Context (ok_quiet : forall A op, quiet (P := base_platform) A op -> ok A op)
  (ok_write : forall b, ok _ (resp_Write (Platform := base_platform) b))
  (ok_service : forall A op, service (SV := base_services) A op -> ok A op).

Definition fine_steps (wf : CompiledWorkflow) : Prop :=
  Forall (fun top => fine_step (P := base_platform) Q top /\ Forall (fine_step (P := base_platform) Q) (cs_BlockSteps top)) (cw_Steps wf).

(** With every query [ok] the steps are fine. *)
Lemma all_fine (Hq : forall ctx db sql params opts, ok _ (db_ExecuteQuery (Platform := base_platform) ctx db sql params opts)) wf :
  fine_steps wf.
Proof.
  apply Forall_forall. intros top _.
  assert (forall cs, fine_step (P := base_platform) Q cs) as Hf; [|split; [apply Hf|apply Forall_forall; intros; apply Hf]].
  intros cs _ ctx data. pose proof (turn_world (P := base_platform) ok Q ok_quiet) as Hw.
  apply (query_pred Q); [intros; by apply (risky_turn ok Q)|apply (deref_turn ok Q)].
Qed.

Lemma par_route_pred h ctx r : fine_steps (hh_workflow h) -> (forall rm, ok _ (fun l => (tt, metrics_Record (Recorder := live_recorder) rm l))) ->
  Q _ (par_route h ctx r).
Proof.
  intros Hwf Hrec. apply (metrics_turn (P := base_platform) (RC := live_recorder) empty_acc ok Q ok_quiet _ _ _ Hrec).
  by apply (ServeHTTP_turn (P := base_platform) (SV := base_services) ok Q ok_quiet ok_write _ Hwf ok_service).
Qed.

Lemma par_job_pred wf t ctx variables counter : fine_steps wf ->
  ok _ (fun l => (tt, with_store l (lv_cache l) (RecordCronPanic (lv_metrics l) (wc_Name (cw_Config wf))))) ->
  Q _ (par_job wf t ctx variables counter).
Proof.
  intros Hwf Hrec. unfold par_job. apply tp_bind.
  - apply (job_turn (P := base_platform) (SV := base_services) ok Q ok_quiet ok_write _ Hwf ok_service).
  - intros [[[] n] mc]; try apply (own_ret (P := base_platform) ok Q ok_quiet). by apply tp_turn.
Qed.
End Ok.

(** ** Runs beside each other *)

Lemma par_replays g : replays _ (par_code g).
Proof.
  assert (forall wf, fine_steps replays wf) as Hfine by (by apply (all_fine (fun _ _ => True) replays)).
  destruct g as [h ctx r w|wf t ctx variables counter]; cbn [par_code].
  - apply (chain_turn (fun _ _ => True) replays). intros r'. by apply (par_route_pred (fun _ _ => True) replays).
  - by apply (par_job_pred (fun _ _ => True) replays).
Qed.

Lemma par_found g ss : from_found ss (par_moves g ss).
Proof.
  destruct (par_replays g) as (_ & Hf & _). apply (Hf (started_with g ss)). intros k m Hk. by destruct k.
Qed.

Lemma started_alike g ss ss' n : (forall k, (k < n)%nat -> ss' k = ss k) -> alike n (started_with g ss) (started_with g ss').
Proof. intros Hss. split_and!; try done. cbn. lia. Qed.

(** Until its [n]-th call a goroutine depends on what the calls before have found. *)
Lemma par_replay g ss ss' n : (forall k, (k < n)%nat -> ss' k = ss k) ->
  par_moves g ss' = par_moves g ss /\ (List.length (par_moves g ss) <= n)%nat \/
  (n < List.length (par_moves g ss))%nat /\ (n < List.length (par_moves g ss'))%nat /\
    take n (par_moves g ss') = take n (par_moves g ss).
Proof.
  intros Hss. destruct (par_replays g) as (_ & _ & Hr).
  destruct (Hr n _ _ (started_alike g ss ss' n Hss)) as [[_ (_ & Hd & _ & _ & Hl)]|(? & ? & ?)]; [by left|by right].
Qed.

Abbreviation par := (Turns.par (S := LiveS) (G := goroutine)).
Abbreviation par_step := (Turns.par_step par_moves par_admitted beside).

Lemma par_reached s p : rtc par_step (idle_par s) p -> par_ok par_moves par_admitted p.
Proof. apply reached_ok; [apply par_found|apply par_replay]. Qed.

(** ** What reaches the databases *)

(** A move that asks of the databases only what steps of [own] ask. *)
Definition asks_move (own : CompiledStep -> Prop) (m : LiveS * LiveS) : Prop := lv_mgr m.2 = lv_mgr m.1 /\ exists t,
  ds_log (lv_db m.2) = ds_log (lv_db m.1) ++ t /\ trace_of (lv_mgr m.1) own t.

Lemma still_move own {A} (op : LiveS -> A * LiveS) : still op -> forall l, asks_move own (l, (op l).2).
Proof.
  intros Hm l. destruct (Hm l) as [Hd Hg]. split; [exact Hg|]. exists []. rewrite app_nil_r. split; [cbn; by rewrite Hd|by left].
Qed.

(** After a call the answer it gave is known. *)
Lemma makes_after R0 {A B} (op : LiveS -> A * LiveS) (f : A -> XT B) :
  (forall l, R0 (l, (op l).2)) -> (forall l, makes R0 B (f (op l).1)) -> makes R0 B (bind (call (at_turn op)) f).
Proof.
  intros Hop Hf s. unfold bind, call, lift, at_turn. set (l := th_found (st_world s) (List.length (th_done (st_world s)))).
  specialize (Hop l). specialize (Hf l). destruct (op l) as [a l']. cbn in *.
  match goal with |- context [f a ?s1] => destruct (Hf s1) as (E & ms & Ems & Hms) end. cbn in E, Ems. split; [done|].
  exists ((l, l') :: ms). split; [by rewrite Ems, <- (assoc_L (++))|by constructor].
Qed.

Section Asks.
Context (own : CompiledStep -> Prop).

Definition ok_asks (A : Type) (op : LiveS -> A * LiveS) : Prop := forall l, asks_move own (l, (op l).2).

#[local] Instance asks_turn : TurnPred ok_asks (makes (asks_move own)) := makes_pred (asks_move own).

Lemma ok_asks_quiet A (op : LiveS -> A * LiveS) : quiet (P := base_platform) A op -> ok_asks A op.
Proof. intros Hq. exact (still_move own op (quiet_still A op Hq)). Qed.

Lemma ok_asks_service A (op : LiveS -> A * LiveS) : service (SV := base_services) A op -> ok_asks A op.
Proof. intros Hs. exact (still_move own op (service_still _ _ _ A op Hs)). Qed.

Lemma ok_asks_write b : ok_asks _ (resp_Write (Platform := base_platform) b).
Proof. exact (still_move own _ (outside_still _)). Qed.

Lemma par_query_asks ctx cs data : own cs -> makes (asks_move own) _ (executeQueryStep (P := par_platform) ctx cs data).
Proof.
  intros Hown. pose proof (turn_world (P := base_platform) ok_asks (makes (asks_move own)) ok_asks_quiet) as Hw.
  unfold executeQueryStep. apply wp_bind; [apply wp_call, Executor.quiet_now|]. intros start.
  destruct (cs_SQLTmpl cs) as [t|] eqn:Et; [|intros s; split; [done|]; exists []; by rewrite app_nil_r].
  cbn [deref_template].
  change (makes (asks_move own) _ (let* r := call (at_turn (Executor.tmpl_Execute (Platform := base_platform) t data)) in match r with
    | Err e => fail_step (Wrapf "sql template error: " e "") start
    | Ok sql =>
      let* r := risky_call (at_turn (db_ExecuteQuery (Platform := base_platform) ctx (sc_Database (cs_Config cs)) sql (extractSQLParams sql data) (query_opts cs))) in
      match r with
      | Err e => fail_step e start
      | Ok qr => let* ms := ms_since start in ret (query_result qr ms)
      end
    end)).
  apply makes_after; [apply ok_asks_quiet, Executor.quiet_template|]. intros l.
  destruct ((Executor.tmpl_Execute (Platform := base_platform) t data l).1) as [sql|e] eqn:Er; [|apply (fail_step_pred (makes (asks_move own)))].
  apply wp_bind.
  - apply (risky_turn ok_asks (makes (asks_move own))). intros l'.
    destruct (live_query_exchange cs t data (lv_out l) sql l' Et) as (Hg & tr & Hl & Htr).
    { cbn in Er. unfold outside in Er. by destruct (o_Execute t data (lv_out l)). }
    split; [exact Hg|]. exists tr. split; [exact Hl|right; by exists cs].
  - intros [qr|e]; [|apply (fail_step_pred (makes (asks_move own)))]. apply wp_bind; [apply (ms_since_pred (makes (asks_move own)))|].
    intros ms. apply wp_ret.
Qed.

Lemma par_asks_steps wf : (forall cs, query_steps wf cs -> own cs) -> fine_steps (makes (asks_move own)) wf.
Proof.
  intros Hown. apply Forall_forall. intros top Htop.
  assert (forall cs, cs = top \/ cs ∈ cs_BlockSteps top -> fine_step (P := base_platform) (makes (asks_move own)) cs) as Hf.
  { intros cs Hcs Hty ctx data. apply par_query_asks, Hown. split; [done|by exists top]. }
  split; [apply Hf; by left|]. apply Forall_forall. intros cs Hcs. apply Hf. by right.
Qed.

Lemma par_asks g : (forall cs, match g with GRequest h _ _ _ => query_steps (hh_workflow h) cs | GJob wf _ _ _ _ => query_steps wf cs end -> own cs) ->
  makes (asks_move own) _ (par_code g).
Proof.
  destruct g as [h ctx r w|wf t ctx variables counter]; intros Hown; cbn [par_code].
  - apply (chain_turn ok_asks (makes (asks_move own))). intros r'.
    apply (par_route_pred ok_asks (makes (asks_move own)) ok_asks_quiet ok_asks_write ok_asks_service); [by apply par_asks_steps|].
    intros rm. refine (still_move own (fun l => (tt, metrics_Record (Recorder := live_recorder) rm l)) _). done.
  - apply (par_job_pred ok_asks (makes (asks_move own)) ok_asks_quiet ok_asks_write ok_asks_service); [by apply par_asks_steps|].
    refine (still_move own (fun l => (tt, with_store l (lv_cache l) (RecordCronPanic (lv_metrics l) (wc_Name (cw_Config wf))))) _). done.
Qed.
End Asks.

(** A move of a goroutine, where it is in its run. *)
Lemma next_makes R0 g tr l m : thread_ok par_moves par_admitted (g, tr) -> makes R0 _ (par_code g) ->
  next_move par_moves g tr l = Some m -> R0 m.
Proof.
  intros Hok Hm Hn. destruct (Hm (started_with g (found_by tr l))) as (_ & ms & E & Hms). cbn in E.
  unfold next_move, par_moves in Hn. rewrite E in Hn. by apply (Forall_lookup_1 _ _ _ _ Hms Hn).
Qed.

Section Started.
Context (cfg : Config) (interactive : bool) (now : Z) (st st1 : Traced WD event).
Context (Hvalid : no_errors (format_issues cfg)).
Context (Hnew : ServerInit.New cfg interactive now st = (Some (Ok server), st1)).

(** The steps of what is admitted are configured. *)
Lemma admitted_asks g : par_admitted g -> makes (asks_move (of_config cfg)) _ (par_code g).
Proof.
  intros Ha. apply par_asks.
  destruct g as [h ctx r w|wf t ctx variables counter]; intros cs Hcs.
  - destruct Ha as (p & name & method & Hm).
    destruct (started_routes _ _ _ _ _ _ _ _ _ _ Hnew (mux_Handler_in _ _ _ _ Hm)) as (wcfg & Hw & Hv).
    by eapply query_configured.
  - destruct Ha as (jobs & Hjobs & Hin). destruct (started_jobs _ _ _ _ _ _ Hnew) as [Hv Hall]. rewrite Hjobs in Hall.
    change (jobs = all_triggers "cron" (se_workflows server)) in Hall. subst jobs.
    destruct (trigger_config _ _ _ _ _ _ Hv Hin) as (wcfg & Hw & Hval & _). by eapply query_configured.
Qed.

(** The state while the server runs, after the log [t]. *)
Definition accounted (l : LiveS) (t : list event) : Prop :=
  ds_log (lv_db l) = ds_log st ++ t /\ explained cfg t /\ manager_of (cf_Databases cfg) t (lv_mgr l).

Lemma accounted_more l l' t t1 : accounted l t -> ds_log (lv_db l') = ds_log (lv_db l) ++ t1 ->
  Forall (explains cfg (t ++ t1)) t1 -> manager_of (cf_Databases cfg) (t ++ t1) (lv_mgr l') -> accounted l' (t ++ t1).
Proof. intros (Hl & Ht & _) Hl' Ht' Hm. split_and!; [by rewrite Hl', Hl, (assoc_L (++))|by apply explained_app|done]. Qed.

Lemma accounted_same l l' t t1 : accounted l t -> ds_log (lv_db l') = ds_log (lv_db l) ++ t1 ->
  Forall (explains cfg (t ++ t1)) t1 -> lv_mgr l' = lv_mgr l -> accounted l' (t ++ t1).
Proof.
  intros Ha Hl Ht Hm. eapply accounted_more; [exact Ha|done|done|]. rewrite Hm. eapply manager_of_incl; [apply Ha|].
  intros ev. apply in_left.
Qed.

Lemma beside_accounted l l' t : beside l l' -> accounted l t -> exists t', accounted l' t'.
Proof.
  intros [t1 Hl Hq Hm _|name e Hr _] Ha.
  - exists (t ++ t1). eapply accounted_same; [exact Ha|done| |done]. by apply quiet_explained.
  - pose proof Ha as (_ & _ & Hm). destruct (Manager_Reconnect_origin _ _ _ name Hm (lv_db l)) as (t1 & Hl & Hp & Hm').
    rewrite Hr in Hl, Hm'. exists (t ++ t1). eapply accounted_more; [exact Ha|exact Hl|by apply pools_explained|].
    by eapply Hm'.
Qed.

Lemma step_accounted p p' t : par_step p p' -> par_ok par_moves par_admitted p -> accounted (pa_state p) t ->
  exists t', accounted (pa_state p') t'.
Proof.
  intros Hs Hok Ha. destruct Hs as [p g Hg|p i g tr m Hi Hm|p s Hb]; [by exists t| |by eapply beside_accounted].
  pose proof (Forall_lookup_1 _ _ _ _ Hok Hi) as Hg.
  destruct (next_makes _ _ _ _ _ Hg (admitted_asks _ (proj1 Hg)) Hm) as (Hmg & t1 & Hl & Ht).
  rewrite (next_move_found _ par_found _ _ _ _ Hm) in *. exists (t ++ t1).
  eapply accounted_same; [exact Ha|exact Hl| |exact Hmg]. eapply trace_explained; [exact Hvalid|apply Ha|exact Ht].
Qed.

End Started.
End Parallel.

(** ** Evaluation at concrete inputs *)

Module Sample.
Import Executor.Sample Handler.Sample WfValidate.Sample ServerInit.Sample Live.Sample.
#[local] Existing Instances sample_lang sample_tables sample_walk sample_funcs sample_gotext sample_floats
  sample_templates sample_toint sample_schedules sample_hmac sample_bucket
  sample_order TmplEngine.Sample.tiny_templates Db.Sample.sample_format Db.Sample.server
  Adapters.Sample.sample_size Adapters.Sample.any_store Adapters.Sample.by_ip ascii_urls open_log
  Cache.Sample.no_cron Cron.Sample.utc_days Middleware.Sample.stored clock_only.

Abbreviation parS := (Turns.par (S := Live (WD := bool) (WO := Z)) (G := goroutine (WO := Z))).

(** The two requests of [Live.Sample], both admitted before either begins. *)
Definition two_users (sv : Server (W := bool)) (h : HTTPHandler) (s1 : Traced bool event) : parS :=
  {| pa_state := booted sv s1 0;
     pa_threads := [(GRequest h no_ctx (get_users "") blank, []); (GRequest h no_ctx (get_users "gzip") blank, [])] |}.

(** The first call of the one, then of the other, and so on. *)
Fixpoint alternate (n : nat) : list nat := match n with O => [] | S n => 0%nat :: 1%nat :: alternate n end.

Definition alternating (sv : Server (W := bool)) (h : HTTPHandler) (s1 : Traced bool event) (n : nat) : parS :=
  foldl (par_turn (par_moves sv)) (two_users sv h s1) (alternate n).

(** The handler of the only route. *)
Definition users_handler (sv : Server (W := bool)) : option HTTPHandler :=
  match mux_Handler (se_mux sv) "GET" "/users" with Some (_, RWorkflow _ _ h) => Some h | _ => None end.

(** Turns leave the list of goroutines as it is. *)
Lemma alternating_threads sv h s1 n : (pa_threads (alternating sv h s1 n)).*1 = (pa_threads (two_users sv h s1)).*1.
Proof.
  unfold alternating. generalize (two_users sv h s1), (alternate n). intros p l. revert p. induction l as [|i l IH]; intros p; [done|].
  cbn [foldl]. rewrite IH. unfold par_turn. destruct (pa_threads p !! i) as [[g tr]|] eqn:Ei; [|done].
  destruct (next_move _ _ _ _); [|done]. cbn. rewrite list_fmap_insert. apply list_insert_id. by rewrite list_lookup_fmap, Ei.
Qed.

(** What the responses were when all calls have found what they found. *)
Definition sent_back (sv : Server (W := bool)) (p : parS) : list (option (option Z * string)) :=
  (fun x => (fun w => (rw_status w, rw_body w)) <$> written sv x.1 (found_by x.2 (pa_state p))) <$> pa_threads p.

(** Each request makes 17 calls; taking turns, both send their statement, and the
    responses are those of two requests one after the other. *)
Example two_interleaved :
  match users_started with
  | (Some (Ok sv), s1) => (fun h => let p := alternating sv h s1 17 in
      ((fun x => List.length x.2) <$> pa_threads p,
       omap statement_of (List.skipn (List.length (ds_log s1)) (ds_log (lv_db (pa_state p)))),
       sent_back sv p)) <$> users_handler sv
  | _ => None
  end = let one := [(5, "PRAGMA busy_timeout = 5000", []); (5, "PRAGMA journal_mode = wal", []); (5, "PRAGMA foreign_keys = ON", []);
                    (5, "PRAGMA synchronous = NORMAL", []); (5, "SELECT 1", [])] in
        Some ([17%nat; 17%nat], one ++ one, [Some (Some 200, "{}"); Some (Some 200, "GZ{}")]).
Proof. by vm_compute. Qed.

Lemma two_users_reached sv h s1 name method p n :
  mux_Handler (se_mux sv) "GET" "/users" = Some (p, RWorkflow name method h) ->
  rtc (Turns.par_step (par_moves sv) (par_admitted sv) beside) (idle_par (booted sv s1 0)) (alternating sv h s1 n).
Proof.
  intros Hm. unfold alternating. etrans; [|apply par_turns].
  assert (forall r w, hq_Method r = "GET" -> hq_Path r = "/users" -> par_admitted sv (GRequest h no_ctx r w)) as Ha.
  { intros r w Hr Hp. exists p, name, method. by rewrite Hr, Hp. }
  eapply rtc_l; [apply (par_start _ _ _ _ (GRequest h no_ctx (get_users "") blank)); by apply Ha|].
  apply rtc_once. apply (par_start _ _ _ {| pa_state := _; pa_threads := [_] |} (GRequest h no_ctx (get_users "gzip") blank)). by apply Ha.
Qed.

End Sample.
