(* ===== verification/Rounds.v ===== *)
(** * The health checker beside the server

    [Health] runs the checker on a manager and a collector of its own.  Here it runs on
    the state of the running server: everything a round does, the panic that can end it
    included, is a sequence of the changes that [Parallel] allows beside the goroutines
    of requests and jobs. *)
From S2P Require Import Prelude GoStrings Patterns GoValues Trace Numbers PublicID SqlUtil Cache RateLimit WfConfig SqlParams Expr Compile Executor Handler WfValidate DbText Db Pools Metrics Health Adapters TmplEngine ConfigLoad CfgValidate Mux Logging ServerInit Middleware Openapi Admin Cron Live Counted Turns Parallel.

Section Rounds.
Context `{UnicodeTables, TL : TemplateLang, EL : ExprLang, MapWalk, Schedules, Hmac, TextTemplate, FloatToInt}.
Context `{TokenBucket, UrlText, LogFiles, GoText, ExprFuncs, FloatText}.
Context `{!Cache.JsonSize any, !Cache.AgeOrder, R : !Cache.Ristretto (option (Cache.Entry any)), !KeyEngine TmplContext}.
Context {WD : Type} {DB : SqlDB WD} `{MySQLFormat} {WO : Type}.

Abbreviation LiveS := (Live (WD := WD) (WO := WO)).
Abbreviation X := (M (Traced WD event)).

(** The checker works on the drivers and the collector of the server. *)
Definition shares (h : Health) (l : LiveS) : Prop := hl_mgr h = lv_mgr l /\ hl_metrics h = lv_metrics l.

(** A part of a round, run on the server: changes beside the goroutines lead to where it
    ends or panics. *)
Definition runs_beside (x : X Health) (l : LiveS) : Prop := exists l', rtc beside l l' /\ lv_db l' = (x (lv_db l)).2 /\
  forall h', (x (lv_db l)).1 = Some h' -> shares h' l'.

(** An operation that only pings, or asks nothing at all. *)
Definition quietly {A} (x : X A) : Prop := emits x (fun _ t => Forall quiet_event t).

Lemma runs_ret h l : shares h l -> runs_beside (ret h) l.
Proof. intros Hs. exists l. split_and!; [done|done|]. by intros h' [= <-]. Qed.

Lemma runs_bind (x : X Health) (f : Health -> X Health) l :
  runs_beside x l -> (forall h' l', shares h' l' -> runs_beside (f h') l') -> runs_beside (bind x f) l.
Proof.
  intros (l1 & Hr & Hd & Hs) Hf. unfold runs_beside, bind. destruct (x (lv_db l)) as [[h1|] d1]; cbn [fst snd] in *.
  - destruct (Hf h1 l1 (Hs _ eq_refl)) as (l2 & Hr2 & Hd2 & Hs2). rewrite Hd in *. exists l2. split_and!; [by etrans|done|done].
  - exists l1. by split_and!.
Qed.

Lemma runs_quiet {A} (x : X A) (f : A -> X Health) h l : shares h l -> quietly x ->
  (forall a l', shares h l' -> runs_beside (f a) l') -> runs_beside (bind x f) l.
Proof.
  intros Hs Hq Hf. destruct (Hq (lv_db l)) as (t & Hl & Ht). unfold runs_beside, bind.
  assert (beside l (with_db l (x (lv_db l)).2)) as Hb by (by eapply beside_quiet).
  destruct (x (lv_db l)) as [[a|] d1]; cbn [fst snd] in *.
  - destruct (Hf a (with_db l d1) Hs) as (l2 & Hr2 & Hd2 & Hs2). exists l2. split_and!; [by eapply rtc_l|done|done].
  - exists (with_db l d1). split_and!; [by apply rtc_once|done|done].
Qed.

(** New gauges, and the checker's own counters. *)
Lemma runs_gauges (x : X Health) h l : hl_mgr h = lv_mgr l -> tally (hl_metrics h) = tally (lv_metrics l) ->
  (forall l', shares h l' -> runs_beside x l') -> runs_beside x l.
Proof.
  intros Hm Ht Hx. destruct (Hx (with_metrics l (hl_metrics h))) as (l2 & Hr2 & Hd2 & Hs2); [done|].
  exists l2. split_and!; [|done|done]. eapply rtc_l; [|exact Hr2]. eapply (beside_quiet _ _ []); [by rewrite app_nil_r|done..].
Qed.

Lemma runs_reconnect (f : option error * gmap string Driver -> X Health) h name l : shares h l ->
  (forall r l', shares (set_mgr h r.2) l' -> runs_beside (f r) l') -> runs_beside (bind (Manager_Reconnect (hl_mgr h) name) f) l.
Proof.
  intros [Hm Hc] Hf. rewrite Hm. assert (exists e m d, Manager_Reconnect (lv_mgr l) name (lv_db l) = (Some (e, m), d)) as (e & m & d & E).
  { destruct (lv_mgr l !! name) as [dr|] eqn:Ed.
    - destruct (Manager_Reconnect_run _ _ _ (lv_db l) Ed) as (e & d' & s' & E & _). eauto.
    - unfold Manager_Reconnect. rewrite Ed. eexists _, _, _. reflexivity. }
  unfold runs_beside, bind. rewrite E. destruct (Hf (e, m) (with_manager l m d)) as (l2 & Hr2 & Hd2 & Hs2); [by split|].
  exists l2. split_and!; [|done|done]. eapply rtc_l; [|exact Hr2]. by eapply beside_reconnect.
Qed.

Lemma ping_all_quiet l res : quietly (ping_all (W := WD) l res).
Proof.
  revert res. induction l as [|[n d] l IH]; intros res; cbn [ping_all]; [by apply emits_ret|].
  apply (emits_seq _ _ (fun _ t => Forall quiet_event t)).
  - unfold Ping. destruct (d_conn (fields d)) as [p|]; [|by apply emits_panic]. apply emits_ask. intros e. by apply Forall_singleton.
  - done.
  - intros e t Ht. eapply emits_weaken; [apply IH|]. intros r t' Ht'. by apply Forall_app.
Qed.

Lemma stats_quiet (d : Driver) : quietly (lift (PoolStats d)).
Proof.
  intros s. exists []. rewrite app_nil_r. split; [|done]. unfold lift, PoolStats.
  destruct (d_conn (fields d)) as [p|]; [|done]. by destruct (pool_Stats p (ds_world s)).
Qed.

Lemma check_result_beside h name err l : shares h l -> runs_beside (check_result h name err) l.
Proof.
  intros [Hm Hc]. unfold check_result. eapply (runs_gauges _ (publish h name (match err with None => true | Some _ => false end))); [done|cbn; rewrite <- Hc; by destruct (hl_metrics h)|].
  clear l Hm Hc. intros l Hs. destruct err as [e|]; [|apply runs_ret, Hs]. case_decide; [|apply runs_ret, Hs].
  apply (runs_reconnect _ (count_failures (publish h name false) name _)); [exact Hs|]. intros [[e'|] m] l' Hs'; apply runs_ret, Hs'.
Qed.

Lemma check_results_beside results h l : shares h l -> runs_beside (check_results h results) l.
Proof.
  revert h l. induction results as [|[name err] results IH]; intros h l Hs; cbn [check_results]; [by apply runs_ret|].
  apply runs_bind; [by apply check_result_beside|]. exact IH.
Qed.

Lemma pool_gauges_beside names h l : shares h l -> runs_beside (pool_gauges h names) l.
Proof.
  revert h l. induction names as [|name names IH]; intros h l Hs; cbn [pool_gauges]; [by apply runs_ret|].
  destruct (Db.Get (hl_mgr h) name) as [d|e]; [|by apply IH]. eapply (runs_quiet _ _ h); [done|apply stats_quiet|].
  intros [open idle] l' [Hm Hc]. eapply runs_gauges; [| |intros l2 Hs2; apply IH, Hs2]; [done|].
  cbn. rewrite Hc. by destruct (lv_metrics l').
Qed.

Lemma tally_gauges l mc : tally (cache_gauges mc l) = tally mc.
Proof.
  unfold cache_gauges. revert mc. induction l as [|x l IH]; intros mc; [done|]. cbn [foldl]. rewrite IH. by destruct mc.
Qed.

Lemma tally_buckets l mc : tally (limiter_gauges mc l) = tally mc.
Proof.
  unfold limiter_gauges. revert mc. induction l as [|x l IH]; intros mc; [done|]. cbn [foldl]. rewrite IH. apply tally_prom.
Qed.

(** C4: The health checker of a running server.  A round of it on the drivers and the
    collector of the server, whatever the databases answer, is a sequence of quiet changes
    and reconnections beside the goroutines; and it panics exactly if a driver has no
    pool when it begins. *)
Theorem health_round_beside h cacheStats buckets l (Hs : shares h l) :
  runs_beside (health_round h cacheStats buckets) l /\
  ((health_round h cacheStats buckets (lv_db l)).1 = None <-> ~ all_connected (lv_mgr l)).
Proof.
  split.
  - unfold health_round. apply (runs_quiet _ _ h); [done|apply ping_all_quiet|]. intros results l1 H1'.
    apply runs_bind; [by apply check_results_beside|]. intros h2 l2 H2'.
    apply runs_bind; [by apply pool_gauges_beside|]. intros h3 l3 [Hm3 Hc3].
    eapply runs_gauges; [| |intros l4 Hs4; apply runs_ret, Hs4]; [done|]. cbn. by rewrite tally_buckets, tally_gauges, Hc3.
  - destruct Hs as [<- _]. split; [|apply health_round_panics]. intros E Hc.
    destruct (health_round_run h cacheStats buckets (lv_db l) Hc) as (res & h' & s' & E' & _). by rewrite E' in E.
Qed.
End Rounds.

(** ** Evaluation at concrete inputs *)

Module Sample.
Import Executor.Sample Handler.Sample WfValidate.Sample ServerInit.Sample Live.Sample.
#[local] Existing Instances sample_lang sample_tables sample_walk sample_funcs sample_gotext sample_floats
  sample_templates sample_toint sample_schedules sample_hmac sample_bucket
  sample_order TmplEngine.Sample.tiny_templates Db.Sample.sample_format Db.Sample.server
  Adapters.Sample.sample_size Adapters.Sample.any_store Adapters.Sample.by_ip ascii_urls open_log
  Cache.Sample.no_cron Cron.Sample.utc_days Middleware.Sample.stored clock_only.

(** The checker of the server of [Live.Sample], with two failures counted of its database. *)
Definition checker (l : Live (WD := bool) (WO := Z)) : Health :=
  {| hl_mgr := lv_mgr l; hl_failures := {["db" := 2]}; hl_healthy := true; hl_metrics := lv_metrics l |}.

(** The database has gone down. *)
Definition down (l : Live (WD := bool) (WO := Z)) : Live (WD := bool) (WO := Z) :=
  with_db l {| ds_world := false; ds_log := ds_log (lv_db l) |}.

(** The third failure: the pool is closed, and no other can be opened. *)
Example third_failure :
  match users_started with
  | (Some (Ok sv), s1) => let l := down (booted sv s1 0) in
      let '(o, d) := health_round (checker l) [] [] (lv_db l) in
      Some ((fun h => (d_conn ∘ fields) <$> (hl_mgr h !! "db")) <$> o,
            (fun ev => match ev with EClose _ => "close" | EPing _ _ => "ping" | EOpen _ _ _ => "open" | _ => "" end)
              <$> List.skipn (List.length (ds_log (lv_db l))) (ds_log d))
  | _ => None
  end = Some (Some (Some None), ["ping"; "close"; "open"; ""; ""; "close"]).
Proof. by vm_compute. Qed.

Lemma health_round_beside_witness : exists sv s1 (l' : Live (WO := Z)), users_started = (Some (Ok sv), s1) /\
  rtc beside (down (booted sv s1 0)) l' /\ is_Some (health_round (checker (down (booted sv s1 0))) [] [] (lv_db (down (booted sv s1 0)))).1.
Proof.
  assert (match users_started with
    | (Some (Ok sv), s1) => let l := down (booted sv s1 0) in
        match (health_round (checker l) [] [] (lv_db l)).1 with Some _ => true | None => false end
    | _ => false end = true) as Hok by (by vm_compute).
  destruct users_started as [[[sv|e]|] s1]; [|discriminate Hok..]. cbv zeta in Hok.
  destruct (health_round_beside (checker (down (booted sv s1 0))) [] [] (down (booted sv s1 0))) as [(l' & Hr & _) _]; [split; reflexivity|].
  exists sv, s1, l'. split_and!; [reflexivity|exact Hr|]. destruct (health_round _ _ _ _).1; [by eexists|discriminate Hok].
Defined.
End Sample.
