(* ===== verification/Recorded.v ===== *)
(** * The requests of concurrent goroutines are counted

    [Counted] says what the collector of a server shows that handles one request at a
    time.  Here the requests and jobs of [Parallel] run beside each other, each call of
    an adapter that writes to the collector one turn: whatever the interleaving, a
    request is in the counters exactly when its handler has returned. *)
From S2P Require Import Prelude GoStrings Patterns GoValues Trace Numbers PublicID SqlUtil Cache RateLimit WfConfig SqlParams Expr Compile Executor Handler WfValidate DbText Db Pools Metrics Health Adapters TmplEngine ConfigLoad CfgValidate Mux Logging ServerInit Middleware Openapi Admin Cron Live Counted Goroutines Turns Parallel.

Section Recorded.
Context `{UnicodeTables, TL : TemplateLang, EL : ExprLang, MapWalk, Schedules, Hmac, TextTemplate, FloatToInt}.
Context `{TokenBucket, UrlText, LogFiles, GoText, ExprFuncs, FloatText, Gzip, LocalTime}.
Context `{!Cache.JsonSize any, !Cache.AgeOrder, R : !Cache.Ristretto (option (Cache.Entry any)), !KeyEngine TmplContext}.
Context {WD : Type} {DB : SqlDB WD} `{MySQLFormat} {WO : Type} {OUT : Outside WO}.
Context (server : Server (W := WD)).

Abbreviation LiveS := (Live (WD := WD) (WO := WO)).
Abbreviation XT := (M (St (W := Thread LiveS))).
Abbreviation BP := base_platform.
Abbreviation BS := (base_services server).

(** ** The moves of a request *)

(** A move that counts nothing. *)
Definition kept (mv : LiveS * LiveS) : Prop := tally (lv_metrics mv.2) = tally (lv_metrics mv.1).

Definition ok_kept (A : Type) (op : LiveS -> A * LiveS) : Prop := forall l, kept (l, (op l).2).

#[local] Instance kept_turn : TurnPred ok_kept (makes kept) := makes_pred kept.

Lemma kept_call {A} (op : LiveS -> A * LiveS) : uncounted A (call op) -> ok_kept A op.
Proof. intros Hu l. specialize (Hu {| st_world := l; st_rw := None |}). unfold call, lift in Hu. cbn in Hu. unfold kept. cbn. by destruct (op l). Qed.

Lemma kept_quiet A op : quiet (P := BP) A op -> ok_kept A op.
Proof. intros Hq. exact (kept_call op (quiet_uncounted A op Hq)). Qed.

Lemma kept_service A op : service (SV := BS) A op -> ok_kept A op.
Proof. intros Hs. exact (kept_call op (service_uncounted _ _ _ A op Hs)). Qed.

Lemma kept_write b : ok_kept _ (resp_Write (Platform := BP) b).
Proof. intros l. unfold kept. cbn. by rewrite outside_metrics. Qed.

Lemma kept_steps wf : fine_steps (makes kept) wf.
Proof.
  apply (all_fine ok_kept (makes kept) kept_quiet). intros ctx db sql params opts.
  intros l. unfold kept. cbn. by rewrite query_tally.
Qed.

(** The move of the record. *)
Definition names (h : HTTPHandler) (rm : RequestMetrics) : Prop :=
  rm_Endpoint rm = wc_Name (cw_Config (hh_workflow h)) /\ rm_Method rm = tc_Method (ct_Config (hh_trigger h)).

Definition recording (h : HTTPHandler) (rm : RequestMetrics) (ms : list (LiveS * LiveS)) : Prop := exists ms' mv,
  ms = ms' ++ [mv] /\ Forall kept ms' /\ names h rm /\ lv_metrics mv.2 = Record_ (lv_metrics mv.1) rm.

(** A computation whose last move is the record if it returns, and that counts nothing if
    it panics. *)
Definition records_last (h : HTTPHandler) (x : XT unit) : Prop := forall s, exists ms,
  th_done (st_world (x s).2) = th_done (st_world s) ++ ms /\
  match (x s).1 with Some _ => exists rm, recording h rm ms | None => Forall kept ms end.

Lemma ServeHTTP_kept h ctx r : makes kept _ (ServeHTTP (SV := par_services server) h ctx r).
Proof.
  by apply (ServeHTTP_turn (P := BP) (SV := BS) ok_kept (makes kept) kept_quiet kept_write (hh_workflow h) (kept_steps _) kept_service).
Qed.

Lemma route_records_last h ctx r : records_last h (par_route server h ctx r).
Proof.
  intros s. pose proof (metrics_splits (P := BP) (RC := live_recorder) empty_acc (wc_Name (cw_Config (hh_workflow h)))
    (tc_Method (ct_Config (hh_trigger h))) (ServeHTTP (SV := par_services server) h ctx r) s : par_route server h ctx r s = _) as ->.
  pose proof (before_record_turn (P := BP) (RC := live_recorder) empty_acc ok_kept (makes kept) kept_quiet _ (ServeHTTP_kept h ctx r) s) as (_ & ms & E & Hms).
  unfold bind. destruct (before_record _ _ s) as [[x|] s1]; cbn [fst snd] in *; [|by exists ms].
  unfold call, lift, at_turn. eexists (ms ++ [_]). split; [cbn; rewrite E, <- (assoc_L (++)); reflexivity|].
  exists (the_record (wc_Name (cw_Config (hh_workflow h))) (tc_Method (ct_Config (hh_trigger h))) x). eexists ms, _.
  split_and!; [reflexivity|done|split; reflexivity|reflexivity].
Qed.

Lemma gzip_records_last h r x : records_last h x -> records_last h (gzipMiddleware r x).
Proof.
  intros Hx s. unfold gzipMiddleware. destruct (negb _); [apply Hx|].
  specialize (Hx (with_rw s gzip_headers)). by destruct (x (with_rw s gzip_headers)) as [[[]|] s1].
Qed.

(** ** Goroutines *)

Lemma chain_records h r (x : HttpRequest -> XT unit) s : records_last h (x (limited r)) -> exists ms,
  th_done (st_world (chain r x s).2) = th_done (st_world s) ++ ms /\
  match (gzipMiddleware (limited r) (x (limited r)) s).1 with Some _ => exists rm, recording h rm ms | None => Forall kept ms end.
Proof.
  intros Hx%(gzip_records_last h (limited r)). destruct (Hx s) as (ms & E & Hms). exists ms.
  unfold chain, recoveryMiddleware, bodySizeLimitMiddleware. by destruct (gzipMiddleware _ _ s) as [[[]|] s'].
Qed.

(** The moves of a run, by whether its handler returns. *)
Lemma par_recording g ss : match g with
  | GRequest h ctx r w => if par_returned server g ss then exists rm, recording h rm (par_moves server g ss)
                          else Forall kept (par_moves server g ss)
  | GJob _ _ _ _ _ => Forall kept (par_moves server g ss)
  end.
Proof.
  destruct g as [h ctx r w|wf t ctx variables counter].
  - destruct (chain_records h r (par_route server h ctx) (started_with (GRequest h ctx r w) ss) (route_records_last h ctx (limited r))) as (ms & E & Hms).
    unfold par_moves. cbn [par_code]. rewrite E. cbn [par_returned]. by destruct (gzipMiddleware _ _ _).1.
  - pose proof (par_job_pred server ok_kept (makes kept) kept_quiet kept_write kept_service wf t ctx variables counter (kept_steps wf)) as Hj.
    destruct (Hj ltac:(intros l; apply tally_prom) (started_with (GJob wf t ctx variables counter) ss)) as (_ & ms & E & Hms).
    unfold par_moves. cbn [par_code]. by rewrite E.
Qed.

Lemma par_returned_replay g ss ss' n : (forall k, (k < n)%nat -> ss' k = ss k) -> (List.length (par_moves server g ss) <= n)%nat ->
  par_returned server g ss' = par_returned server g ss.
Proof.
  destruct g as [h ctx r w|wf t ctx variables counter]; [|done]. intros Hss Hl. cbn [par_returned].
  assert (replays _ (gzipMiddleware (limited r) (par_route server h ctx (limited r)))) as (_ & _ & Hr).
  { apply (gzip_turn (fun _ _ => True) replays).
    by apply (par_route_pred server (fun _ _ => True) replays); [..|by apply (all_fine (fun _ _ => True) replays)|]. }
  destruct (Hr n _ _ (started_alike (GRequest h ctx r w) ss ss' n Hss)) as [[-> _]|(Hlt & _)]; [done|]. exfalso.
  revert Hl. unfold par_moves. cbn [par_code]. unfold chain, recoveryMiddleware, bodySizeLimitMiddleware.
  destruct (gzipMiddleware _ _ _) as [[[]|] s']; cbn in *; lia.
Qed.

(** A goroutine that has ended as a request whose handler returned. *)
Definition replied (now : LiveS) (x : goroutine * list (LiveS * LiveS)) : bool :=
  match next_move (par_moves server) x.1 x.2 now with
  | Some _ => false
  | None => par_returned server x.1 (found_by x.2 now)
  end.

(** After its next move a goroutine has ended, whatever comes, or goes on, whatever
    comes. *)
Lemma after_move g tr now mv : thread_ok (par_moves server) (par_admitted server) (g, tr) -> next_move (par_moves server) g tr now = Some mv ->
  (par_moves server g (found_by tr now) = tr ++ [mv] /\
     forall now', replied now' (g, tr ++ [mv]) = par_returned server g (found_by tr now)) \/
  ((exists mv' rest, par_moves server g (found_by tr now) = (tr ++ [mv]) ++ mv' :: rest) /\
     forall now', replied now' (g, tr ++ [mv]) = false).
Proof.
  intros Hok Hmv. set (n := Datatypes.S (List.length tr)).
  assert (forall now' k, (k < n)%nat -> found_by (tr ++ [mv]) now' k = found_by tr now k) as Hag.
  { intros now' k Hk. pose proof (next_move_found _ (par_found server) _ _ _ _ Hmv) as Hf.
    destruct (decide (k = List.length tr)) as [->|].
    - rewrite found_by_now, <- Hf. apply found_by_past. by rewrite lookup_app_r, Nat.sub_diag.
    - destruct (lookup_lt_is_Some_2 tr k) as [mv' Hk']; [unfold n in Hk; lia|]. rewrite (found_by_past tr now _ _ Hk').
      apply found_by_past. by apply lookup_app_l_Some. }
  destruct (thread_prefix _ _ g tr (found_by tr now) Hok) as [rest Hrest]; [intros; by apply found_by_past|].
  unfold next_move in Hmv. rewrite Hrest, lookup_app_r, Nat.sub_diag in Hmv by done.
  destruct rest as [|mv' [|mv'' rest]]; [done|..]; injection Hmv as ->; [left|right]; rewrite Hrest.
  - split; [done|]. intros now'. unfold replied, next_move. cbn [fst snd].
    destruct (par_replay server g _ _ n (Hag now')) as [[E Hl]|(Hlt & _)].
    + rewrite E, Hrest, lookup_ge_None_2 by done. eapply par_returned_replay; [apply Hag|exact Hl].
    + rewrite Hrest, length_app in Hlt. unfold n in Hlt. cbn in Hlt. lia.
  - split; [exists mv'', rest; by rewrite <- (assoc_L (++))|]. intros now'. unfold replied, next_move. cbn [fst snd].
    destruct (par_replay server g _ _ n (Hag now')) as [[_ Hl]|(_ & Hlt & _)].
    + rewrite Hrest, length_app in Hl. unfold n in Hl. cbn in Hl. lia.
    + destruct (lookup_lt_is_Some_2 _ n Hlt) as [mv3 E]. unfold n in E. rewrite length_app. cbn [List.length].
      by rewrite Nat.add_1_r, E.
Qed.

(** ** The machine *)

(** What a goroutine has added to the counters: its record, if it has one. *)
Definition counted_as (x : goroutine * list (LiveS * LiveS)) (o : option RequestMetrics) : Prop :=
  match o with Some rm => exists h ctx r w, x.1 = GRequest h ctx r w /\ names h rm | None => True end /\
  forall now, replied now x = is_made o.

Lemma counted_fresh g : counted_as (g, []) None.
Proof.
  split; [done|]. intros now. unfold replied, next_move. cbn [fst snd is_made List.length]. pose proof (par_recording g (found_by [] now)) as Hr.
  destruct (par_moves server g (found_by [] now)) as [|mv ms]; [|done]. cbn [lookup list_lookup].
  destruct g as [h ctx r w|]; [|done]. destruct (par_returned _ _ _); [|done]. destruct Hr as (rm & ms' & mv & E & _). by destruct ms'.
Qed.

Lemma counted_move g tr now mv o : thread_ok (par_moves server) (par_admitted server) (g, tr) ->
  next_move (par_moves server) g tr now = Some mv -> counted_as (g, tr) o ->
  o = None /\ exists o', counted_as (g, tr ++ [mv]) o' /\
    match o' with Some rm => lv_metrics mv.2 = Record_ (lv_metrics mv.1) rm | None => kept mv end.
Proof.
  intros Hok Hmv [_ Ho]. split.
  { specialize (Ho now). unfold replied in Ho. cbn [fst snd] in Ho. rewrite Hmv in Ho. by destruct o. }
  pose proof (par_recording g (found_by tr now)) as Hr.
  assert (Forall kept (par_moves server g (found_by tr now)) -> kept mv) as Hkept by (intros Hk; apply (Forall_lookup_1 _ _ _ _ Hk Hmv)).
  destruct (after_move g tr now mv Hok Hmv) as [[E Hrep]|[(mv' & rest & E) Hrep]].
  - destruct g as [h ctx r w|]; [|exists None; split; [by split|auto]].
    destruct (par_returned _ _ _); [|exists None; split; [by split|auto]].
    destruct Hr as (rm & ms' & mv' & E' & _ & Hn & Hrec). rewrite E in E'. apply app_inj_2 in E' as [-> [= <-]]; [|done].
    exists (Some rm). split; [split; [by exists h, ctx, r, w|done]|done].
  - exists None. split; [by split|]. destruct g as [h ctx r w|]; [|auto]. destruct (par_returned _ _ _); [|auto].
    destruct Hr as (rm & ms' & mv3 & E' & Hk & _). apply (Forall_lookup_1 _ _ (List.length tr) _ Hk).
    unfold next_move in Hmv. rewrite E' in Hmv. rewrite E in E'. apply (f_equal (@List.length _)) in E'. rewrite !length_app in E'. cbn in E'.
    by rewrite lookup_app_l in Hmv by lia.
Qed.

Abbreviation parL := (par (S := LiveS) (G := goroutine)).

Definition added (q : quantity) (o : option RequestMetrics) : Z := match o with Some rm => amount q rm | None => 0 end.

Definition counts (p : parL) : Prop := exists os c, lv_metrics (pa_state p) = Some c /\ ranged c /\
  Forall2 counted_as (pa_threads p) os /\ forall q, value q c = i64 (total (added q) os).

Lemma total_app {A} (f : A -> Z) l1 l2 : total f (l1 ++ l2) = total f l1 + total f l2.
Proof. unfold total. induction l1 as [|a l1 IH]; cbn; [done|]. rewrite IH. lia. Qed.

Lemma counts_tally (p : parL) s ts os c : lv_metrics (pa_state p) = Some c -> ranged c -> tally (lv_metrics s) = tally (lv_metrics (pa_state p)) ->
  Forall2 counted_as ts os -> (forall q, value q c = i64 (total (added q) os)) -> counts {| pa_state := s; pa_threads := ts |}.
Proof.
  intros Hc Hr Ht Hos Hq. rewrite Hc in Ht. destruct (tally_Some _ _ Ht) as [c' E]. exists os, c'.
  split_and!; [done|by eapply tally_ranged|done|]. intros q. by rewrite (tally_value _ _ _ q Ht E).
Qed.

Lemma counts_step p p' : Turns.par_step (par_moves server) (par_admitted server) beside p p' ->
  par_ok (par_moves server) (par_admitted server) p -> counts p -> counts p'.
Proof.
  intros Hs Hok (os & c & Hc & Hr & Hos & Hq). destruct Hs as [p g Hg|p i g tr mv Hi Hmv|p s Hb%beside_tally].
  - apply (counts_tally p _ _ (os ++ [None]) c Hc Hr eq_refl).
    + apply Forall2_app; [done|]. constructor; [apply counted_fresh|done].
    + intros q. rewrite total_app, Hq. cbn. f_equal. lia.
  - destruct (Forall2_lookup_l _ _ _ _ _ Hos Hi) as (o & Ho & Hx).
    destruct (counted_move _ _ _ _ _ (Forall_lookup_1 _ _ _ _ Hok Hi) Hmv Hx) as (-> & o' & Hx' & Hmet).
    pose proof (next_move_found _ (par_found server) _ _ _ _ Hmv) as Hf.
    pose proof (Forall2_insert _ _ _ _ _ i Hos Hx') as Hos'.
    assert (forall q, total (added q) (<[i := o']> os) = total (added q) os + added q o') as Htot.
    { intros q. rewrite (total_update _ _ _ _ _ Ho). cbn. lia. }
    destruct o' as [rm|].
    + rewrite Hf, Hc in Hmet. destruct (Record_value c rm (QTotal TRequests) Hr) as (c1 & E & Hr1 & _).
      exists (<[i := Some rm]> os), c1. split_and!; [exact (eq_trans Hmet E)|done|done|]. intros q.
      destruct (Record_value c rm q Hr) as (c2 & E2 & _ & Hv). rewrite E in E2. injection E2 as <-.
      by rewrite Hv, Hq, i64_add_l, Htot.
    + unfold kept in Hmet. rewrite Hf in Hmet. apply (counts_tally p _ _ (<[i := None]> os) c Hc Hr Hmet Hos').
      intros q. rewrite Hq, Htot. cbn. f_equal. lia.
  - by apply (counts_tally p _ _ os c).
Qed.

(** The records in the order of the goroutines that made them. *)
Definition repliers (p : parL) : list goroutine :=
  (List.filter (replied (pa_state p)) (pa_threads p)).*1.

Lemma counted_repliers now ts os : Forall2 counted_as ts os ->
  Forall2 (fun g rm => exists h ctx r w, g = GRequest h ctx r w /\ names h rm) (List.filter (replied now) ts).*1 (omap id os) /\
  forall q, total (added q) os = sum (amount q <$> omap id os).
Proof.
  induction 1 as [|x o ts os [Hx Hr] _ [IH1 IH2]]; [by split|]. cbn [List.filter]. rewrite Hr. destruct o as [rm|]; cbn; split; auto.
  intros q. change (amount q rm + total (added q) os = amount q rm + sum (amount q <$> omap id os)). by rewrite IH2.
Qed.

(** C2: what the counters show under concurrency.  Let any number of requests and jobs
    run on a server started with metrics, their calls interleaved in any way with each
    other, with resets, and with the pings and reconnections of the health checker.  In every state reached, each request
    whose handler has returned is in the counters once, under the name of its workflow
    and the method of its trigger; requests that are still under way or whose handler
    panicked are not, nor are jobs; and no update is lost: every counter is the sum of
    what these records add to it, modulo 64 bits. *)
Theorem concurrent_requests_counted cfg interactive now st st1 out p
    (Hnew : ServerInit.New cfg interactive now st = (Some (Ok server), st1)) (Hmetrics : cf_Metrics_Enabled cfg = true)
    (Hrun : rtc (Turns.par_step (par_moves server) (par_admitted server) beside) (idle_par (booted server st1 out)) p) :
  exists ms c, lv_metrics (pa_state p) = Some c /\
    Forall2 (fun g rm => exists h ctx r w, g = GRequest h ctx r w /\ names h rm) (repliers p) ms /\
    (forall q, value q c = i64 (sum (amount q <$> ms))) /\
    co_totalRequests c = i64 (Z.of_nat (List.length (repliers p))).
Proof.
  assert (counts p) as (os & c & Hc & _ & Hos & Hq).
  { destruct (New_metrics _ _ _ _ _ _ Hnew Hmetrics) as (c0 & Hc0 & H0').
    assert (counts (idle_par (booted server st1 out))) as Hcs.
    { exists [], c0. split_and!; [done| |constructor|done]. intros q. rewrite H0'. unfold two63. lia. }
    assert (par_ok (par_moves server) (par_admitted server) (idle_par (booted server st1 out))) as Hok by constructor.
    clear -Hrun Hcs Hok. induction Hrun as [p|p p1 p2 Hs _ IH]; [done|].
    apply IH; [by eapply counts_step|by eapply step_ok; [apply par_found|apply par_replay|..]]. }
  destruct (counted_repliers (pa_state p) _ _ Hos) as [Hms Hsum]. exists (omap id os), c.
  assert (forall q, value q c = i64 (sum (amount q <$> omap id os))) as Hv by (intros q; by rewrite Hq, Hsum).
  split_and!; [done|exact Hms|exact Hv|]. pose proof (Hv (QTotal TRequests)) as Ht. rewrite sum_ones in Ht. cbn in Ht.
  unfold repliers. by rewrite Ht, (Forall2_length _ _ _ Hms).
Qed.
End Recorded.

(** ** Evaluation at concrete inputs *)

Module Sample.
Import Executor.Sample Handler.Sample WfValidate.Sample ServerInit.Sample Live.Sample Counted.Sample Parallel.Sample.
#[local] Existing Instances sample_lang sample_tables sample_walk sample_funcs sample_gotext sample_floats
  sample_templates sample_toint sample_schedules sample_hmac sample_bucket
  sample_order TmplEngine.Sample.tiny_templates Db.Sample.sample_format Db.Sample.server
  Adapters.Sample.sample_size Adapters.Sample.any_store Adapters.Sample.by_ip ascii_urls open_log
  Cache.Sample.no_cron Cron.Sample.utc_days Middleware.Sample.stored clock_only.

(** What the counters say after so many turns of each of two requests. *)
Definition counted_after (n : nat) : option (nat * Z) :=
  match metered_started with
  | (Some (Ok sv), s1) => h ← users_handler sv; let p := alternating sv h s1 n in
      c ← lv_metrics (pa_state p); Some (List.length (repliers sv p), co_totalRequests c)
  | _ => None
  end.

(** The record is the last call: before it a request is not counted. *)
Example counted_at_the_end : counted_after <$> [16%nat; 17%nat; 20%nat] = [Some (0%nat, 0); Some (2%nat, 2); Some (2%nat, 2)].
Proof. by vm_compute. Qed.

Lemma concurrent_requests_counted_witness : exists sv s1 h c, metered_started = (Some (Ok sv), s1) /\
  lv_metrics (pa_state (alternating sv h s1 17)) = Some c /\
  co_totalRequests c = i64 (Z.of_nat (List.length (repliers sv (alternating sv h s1 17)))).
Proof.
  assert (match metered_started with
    | (Some (Ok sv), s1) => match mux_Handler (se_mux sv) "GET" "/users" with Some (_, RWorkflow _ _ h) => true | _ => false end
    | _ => false end = true) as Hok by (by vm_compute).
  destruct metered_started as [[[sv|e]|] s1] eqn:E; [|discriminate Hok..].
  destruct (mux_Handler (se_mux sv) "GET" "/users") as [[p []]|] eqn:Em; try discriminate Hok.
  unfold metered_started in E.
  destruct (concurrent_requests_counted sv metered true 0 (Db.Sample.start true) s1) with (out := 0) (p := alternating sv h s1 17)
    as (ms & c & Hc & _ & _ & Ht); [exact E|reflexivity|exact (two_users_reached _ _ _ _ _ _ 17 Em)|].
  exists sv, s1, h, c. split_and!; [reflexivity|exact Hc|exact Ht].
Defined.
End Sample.
