(* ===== verification/Answered.v ===== *)
(** * Every concurrent request is answered

    [ServerInit.New_serves] is about the handler of a route, on any implementation of
    its interfaces.  Here it is applied to the interleaved one: whatever other goroutines
    do between the calls of a request, its handler returns, or it panics at a query on a
    driver that a failed reconnection left without a pool, or at a cached response whose
    status cannot be sent; and the response has a status line when the middleware is
    through. *)
From S2P Require Import Prelude GoStrings Patterns GoValues Trace Numbers PublicID SqlUtil Cache RateLimit WfConfig SqlParams Expr Compile Executor Handler WfValidate DbText Db Metrics Adapters TmplEngine ConfigLoad CfgValidate Mux Logging ServerInit Middleware Openapi Admin Cron Live Turns Parallel Recorded.

(** ** The middleware *)

Section Through.
Context `{TL : TemplateLang, EL : ExprLang} {W : Type} {P : Platform W} {RC : Recorder W} (lost : W -> Prop).

(** A computation that returns and leaves a status line, or panics in one of these worlds
    and leaves the writer. *)
Definition responds (x : M (St (W := W)) unit) : Prop := forall s, is_Some (st_rw s) ->
  match x s with
  | (Some _, s') => committed s'
  | (None, s') => lost (st_world s') /\ is_Some (st_rw s')
  end.

Lemma metrics_responds name method x : responds x -> responds (metricsMiddleware name method x).
Proof.
  intros Hx s [w Hw]. unfold metricsMiddleware, bind, call, on_rw, lift. cbn. destruct (time_Now (st_world s)) as [start t].
  cbn. specialize (Hx {| st_world := acc_New t; st_rw := (fun w => record_status w 0) <$> st_rw s |}).
  cbn [st_rw] in Hx. rewrite Hw in *. specialize (Hx ltac:(by eexists)).
  destruct (x _) as [[[]|] s1]; [|done]. destruct Hx as (w1 & Hw1 & Hc).
  destruct (time_Now (st_world s1)) as [now t1]. by exists w1.
Qed.

Lemma gzip_responds `{Gzip} r x : responds x -> responds (gzipMiddleware r x).
Proof.
  intros Hx s [w Hw]. unfold gzipMiddleware. destruct (negb _); [apply Hx; by eexists|].
  specialize (Hx (with_rw s gzip_headers)). unfold with_rw in *. cbn [st_rw] in Hx. rewrite Hw in *. specialize (Hx ltac:(by eexists)).
  destruct (x _) as [[[]|] s1]; cbn [st_rw st_world].
  - destruct Hx as (w1 & Hw1 & Hc). eexists. split; [cbn; by rewrite Hw1|apply http_Write_commits].
  - destruct Hx as [Hl [w1 Hw1]]. split; [done|]. rewrite Hw1. by eexists.
Qed.

(** The recovery returns, with a status line, and has lost what the panic has. *)
Lemma recovery_responds x s : responds x -> is_Some (st_rw s) -> exists s',
  recoveryMiddleware x s = (Some tt, s') /\ committed s' /\ ((x s).1 = None -> lost (st_world s')).
Proof.
  intros Hx Hs. specialize (Hx s Hs). unfold recoveryMiddleware. destruct (x s) as [[[]|] s1].
  - by exists s1.
  - destruct Hx as [Hl [w Hw]]. eexists. split; [done|]. split; [|done]. eexists. split; [cbn; by rewrite Hw|].
    apply answer_panic_commits.
Qed.
End Through.

(** ** Requests *)

Section Answered.
Context `{UnicodeTables, TL : TemplateLang, EL : ExprLang, MapWalk, Schedules, Hmac, TextTemplate, FloatToInt}.
Context `{TokenBucket, UrlText, LogFiles, GoText, ExprFuncs, FloatText, Gzip, LocalTime}.
Context `{!Cache.JsonSize any, !Cache.AgeOrder, R : !Cache.Ristretto (option (Cache.Entry any)), !KeyEngine TmplContext}.
Context {WD : Type} {DB : SqlDB WD} `{MySQLFormat} {WO : Type} {OUT : Outside WO}.
Context (server : Server (W := WD)).

Abbreviation LiveS := (Live (WD := WD) (WO := WO)).

(** A move at which a handler panics: it finds the driver of a database without a pool; or
    a response in the cache whose status code net/http refuses to send.  (What a cached
    entry holds may come from a database, as steps and triggers share the cache.) *)
Inductive lost_at (h : HTTPHandler) (mv : LiveS * LiveS) : Prop :=
| lost_pool db d : lv_mgr mv.1 !! db = Some d -> ~ connected d -> lost_at h mv
| lost_status t key body code :
    is_made (se_cache server) = true -> ct_CacheKey (hh_trigger h) = Some t ->
    (live_trigger_Get (wc_Name (cw_Config (hh_workflow h))) key mv.1).1 = Some (body, code) ->
    valid_code code = false -> lost_at h mv.

(** The last move so far is such a one. *)
Definition lost_now (h : HTTPHandler) (t : Thread LiveS) : Prop := exists mv, last (th_done t) = Some mv /\ lost_at h mv.

(** A query that panics has found no pool. *)
Lemma live_query_panics db sql params opts (l l' : LiveS) : is_Some (qo_HasReturning opts) ->
  live_query db sql params opts l = (None, l') -> exists d, lv_mgr l !! db = Some d /\ ~ connected d.
Proof.
  intros [b Hb] E. unfold live_query, dbAdapter, Get in E. destruct (lv_mgr l !! db) as [d|]; [|done].
  exists d. split; [done|]. intros Hc. assert (resolveHasReturning (adapter_hints opts) sql = Some b) as Hh.
  { unfold adapter_hints. rewrite Hb. by destruct (qo_IsWrite opts). }
  destruct (Query_returns d (adapter_session opts) sql params (adapter_hints opts) b (lv_db l) Hc Hh) as [r Er].
  unfold bind in E. by destruct (Query d _ sql params _ _) as [[r'|] d'].
Qed.

Lemma serve_lost_now h s : serve_lost (P := par_platform) (SV := par_services server) h s -> lost_now h (st_world s).
Proof.
  intros [(c & db & sql & params & opts & t & Ho & E)|tm key t body code Hc Hk E Hv]; cbn in E; unfold at_turn in E.
  - destruct (live_query db sql params opts _) as [o l'] eqn:Eq. injection E as -> <-. eexists.
    split; [cbn; apply last_snoc|]. destruct (live_query_panics _ _ _ _ _ _ Ho Eq) as (d & Hd & Hn).
    by apply (lost_pool _ _ db d).
  - destruct (live_trigger_Get _ _ _) as [o l'] eqn:Eq. injection E as -> <-. eexists.
    split; [cbn; apply last_snoc|]. apply (lost_status _ _ tm key body code); [done|done| |done]. cbn [fst]. by rewrite Eq.
Qed.

Lemma route_responds cfg interactive now st st1 p name method h ctx r :
  ServerInit.New cfg interactive now st = (Some (Ok server), st1) -> (p, RWorkflow name method h) ∈ se_mux server ->
  responds (lost_now h) (par_route (OUT := OUT) server h ctx r).
Proof.
  intros Hnew Hr. apply (metrics_responds (P := par_platform) (RC := par_recorder)).
  intros s Hs. destruct (started_routes _ _ _ _ _ _ _ _ _ _ Hnew Hr) as (wcfg & _ & Hv & Hcomp).
  pose proof (ServeHTTP_grows (P := par_platform) (SV := par_services server) h ctx r s) as Hg.
  pose proof (valid_workflow_serves (P := par_platform) (SV := par_services server) _ _ _ h ctx r s Hv Hcomp eq_refl Hs) as Hl.
  unfold served_or_lost in Hl. destruct (ServeHTTP _ _ _ _) as [[[]|] s']; [done|].
  split; [by apply serve_lost_now|by eapply grows_is_Some].
Qed.

(** C3: every request is answered, under concurrency.  Take a started server and let any
    number of requests and jobs run at the same time, their calls interleaved in any way
    with each other, with resets, and with the pings and reconnections of the health
    checker.  When a request has made its last call, the response that the client gets has
    a status line; and its handler has returned, so that it is one of those that the
    counters show, unless its last call was the one at which it panicked, of which there
    are two kinds: a query of a database whose driver then had no pool, or a hit of the
    response cache with a status that cannot be sent. *)
Theorem concurrent_requests_answered cfg interactive now st st1 out p i h ctx r w tr
    (Hnew : ServerInit.New cfg interactive now st = (Some (Ok server), st1))
    (Hrun : rtc (Turns.par_step (par_moves server) (par_admitted server) beside) (idle_par (booted server st1 out)) p)
    (Hi : pa_threads p !! i = Some (GRequest h ctx r w, tr)) (He : ended (par_moves server) (GRequest h ctx r w, tr)) :
  (replied server (pa_state p) (GRequest h ctx r w, tr) = true \/
   replied server (pa_state p) (GRequest h ctx r w, tr) = false /\ exists mv, last tr = Some mv /\ lost_at h mv) /\
  exists w', written server (GRequest h ctx r w) (found_by tr (pa_state p)) = Some w' /\ is_Some (rw_status w').
Proof.
  pose proof (Forall_lookup_1 _ _ _ _ (par_reached server _ _ Hrun) Hi) as Hok.
  pose proof Hok as [(pat & name & method & Hm) _]. cbn in Hm.
  pose proof (route_responds _ _ _ _ _ _ _ _ _ ctx (limited r) Hnew (mux_Handler_in _ _ _ _ Hm)) as Hr.
  apply (gzip_responds _ (limited r)) in Hr. set (s := started_with (GRequest h ctx r w) (found_by tr (pa_state p))).
  destruct (recovery_responds _ _ s Hr) as (s' & E & (w' & Hw & Hs) & Hl); [by eexists|].
  assert (par_moves server (GRequest h ctx r w) (found_by tr (pa_state p)) = tr) as Htr.
  { apply (ended_whole _ _ (par_replay server) _ _ _ Hok He). intros k m Hk. by apply found_by_past. }
  unfold par_moves in Htr. cbn [par_code] in Htr. unfold chain, bodySizeLimitMiddleware in Htr. fold s in Htr. rewrite E in Htr. cbn [snd] in Htr.
  split.
  - specialize (He (pa_state p)). unfold replied. rewrite He. cbn [par_returned fst snd]. fold s.
    destruct (gzipMiddleware _ _ s).1 as [[]|]; [by left|right]. split; [done|].
    destruct Hl as (mv & Hlast & Hlost); [done|]. rewrite Htr in Hlast. by exists mv.
  - exists w'. split; [|done]. unfold written. cbn [par_code]. unfold chain, bodySizeLimitMiddleware. fold s. by rewrite E.
Qed.
End Answered.

(** ** Evaluation at concrete inputs *)

Module Sample.
Import Executor.Sample Handler.Sample WfValidate.Sample ServerInit.Sample Live.Sample Parallel.Sample.
#[local] Existing Instances sample_lang sample_tables sample_walk sample_funcs sample_gotext sample_floats
  sample_templates sample_toint sample_schedules sample_hmac sample_bucket
  sample_order TmplEngine.Sample.tiny_templates Db.Sample.sample_format Db.Sample.server
  Adapters.Sample.sample_size Adapters.Sample.any_store Adapters.Sample.by_ip ascii_urls open_log
  Cache.Sample.no_cron Cron.Sample.utc_days Middleware.Sample.stored clock_only.

(** What a failed reconnection leaves. *)
Definition unconnected (d : Driver (W := bool)) : Driver :=
  match d with
  | SQLServerDriver f => SQLServerDriver (with_conn f None)
  | SQLiteDriver f => SQLiteDriver (with_conn f None)
  | MySQLDriver f => MySQLDriver (with_conn f None)
  end.

(** A request that finds its database without a pool: its handler panics, and the
    recovery answers. *)
Example lost_pool :
  match users_started with
  | (Some (Ok sv), s1) => (fun h =>
      let l := with_manager (booted sv s1 0 : Live (WO := Z)) (unconnected <$> se_dbManager sv) s1 in
      let g := GRequest h no_ctx (get_users "") blank in
      (par_returned sv g (fun _ => l), (fun w => (rw_status w, rw_body w)) <$> written sv g (fun _ => l))) <$> users_handler sv
  | _ => None
  end = Some (false, Some (Some 500, internal_error_body)).
Proof. by vm_compute. Qed.

(** The first of the two alternating requests, when both have made their calls. *)
Lemma concurrent_requests_answered_witness : exists sv s1 h tr w', users_started = (Some (Ok sv), s1) /\
  pa_threads (alternating sv h s1 17) !! 0%nat = Some (GRequest h no_ctx (get_users "") blank, tr) /\
  written sv (GRequest h no_ctx (get_users "") blank) (found_by tr (pa_state (alternating sv h s1 17))) = Some w' /\
  is_Some (rw_status w').
Proof.
  assert (match users_started with
    | (Some (Ok sv), s1) =>
      match mux_Handler (se_mux sv) "GET" "/users" with
      | Some (_, RWorkflow _ _ h) =>
        match pa_threads (alternating sv h s1 17) with
        | (g, tr) :: _ =>
          match next_move (par_moves sv) g tr (pa_state (alternating sv h s1 17)) with
          | None => true
          | _ => false
          end
        | [] => false
        end
      | _ => false
      end
    | _ => false end = true) as Hok by (by vm_compute).
  destruct users_started as [[[sv|e]|] s1] eqn:E; [|discriminate Hok..].
  destruct (mux_Handler (se_mux sv) "GET" "/users") as [[p []]|] eqn:Em; try discriminate Hok.
  set (q := alternating sv h s1 17) in *.
  assert ((pa_threads q).*1 = [GRequest h no_ctx (get_users "") blank; GRequest h no_ctx (get_users "gzip") blank]) as Hg
    by apply alternating_threads.
  destruct (pa_threads q) as [|[g tr] ts] eqn:Et; [discriminate Hok|]. injection Hg as -> _.
  destruct (next_move _ _ _ _) eqn:En; [discriminate Hok|].
  unfold users_started in E.
  destruct (concurrent_requests_answered sv small true 0 (Db.Sample.start true) s1 0 q 0 h no_ctx (get_users "") blank tr)
    as (_ & w' & Hw & Hs);
    [exact E|exact (two_users_reached _ _ _ _ _ _ 17 Em)|exact (f_equal (lookup 0%nat) Et)
    |exact (ended_now (par_moves sv) (par_replay sv) _ _ _ En)|].
  exists sv, s1, h, tr, w'. split_and!; [reflexivity|exact (f_equal (lookup 0%nat) Et)|exact Hw|exact Hs].
Defined.
End Sample.
